(* ===== verification/_CoqProject ===== *)
-Q . S2P
Prelude.v
Registry.v
Memory.v
Pmm.v
Heap.v
HeapRefine.v
MemorySystem.v
PageOwner.v
Paging.v
PagingInv.v
PagingCalls.v
PagingDirs.v
PagingFree.v
PagingBoot.v
PagingInit.v
PagingReach.v
PagingDemo.v
PagingSystem.v
Compress.v
Route.v
NetBuffer.v
Sha256.v
Slab.v
SlabInv.v
SlabSystem.v
SlabCalls.v
SlabSpec.v
SlabValidate.v
SlabPages.v
SlabRun.v
SkBuff.v
SkbInv.v
SkbCalls.v
SkbSystem.v
VfsPath.v
Field25519.v
FieldCodec.v
FieldPower.v
Scalar25519.v
Workqueue.v
WorkqueueInv.v
WorkqueueCalls.v
WorkqueueReg.v
WorkqueueRun.v
WorkqueueValid.v
WorkqueueLive.v
WorkqueueTime.v
