(* ===== verification/Prelude.v ===== *)
(** * ZephyrOS: a verification development

    ZephyrOS is a 32-bit x86 operating system in C.  This library models the parts
    of its kernel whose behaviour is determined by the source alone and proves that
    they do what their callers rely on.  The sources are under src/src/; file names
    below are relative to it.

    ** The program and the files of the development

    - Physical pages and the kernel heap (memory/memory.c): Memory.v has the static
      variables of the file as one record over a byte memory; Pmm.v the page manager
      ([memory_init], [pmm_alloc_*], [pmm_free_*], the statistics), Heap.v the heap
      ([kmalloc], [kmalloc_aligned], [kfree]), HeapRefine.v the proof that its
      headers in memory implement a list of blocks, and MemorySystem.v both together
      with the clients that write into what they own.
    - Address translation (memory/paging.c) runs on the page manager: Paging.v has the
      file, with directories and tables as words of physical memory.  PageOwner.v has
      what every owner of pages can rely on; PagingInv.v the structure of the tables
      and the walk of the processor; PagingCalls.v, PagingDirs.v, PagingFree.v,
      PagingBoot.v and PagingInit.v the calls; PagingReach.v the reachable states of
      the kernel, its processes and user programs; PagingDemo.v a concrete one; and
      PagingSystem.v the theorems.
    - The slab allocator (memory/slab.c) runs on the page manager through the
      interface [PageManager] of Slab.v.  SlabInv.v, SlabSystem.v, SlabCalls.v,
      SlabSpec.v and SlabValidate.v have its invariant and its calls; SlabPages.v
      shows that memory.c provides the interface; SlabRun.v states the theorems for
      the two together.
    - Network buffers (core/net_buffer.c, NetBuffer.v) drive the life cycle of packet
      descriptors.  Socket buffers (core/sk_buff.c, SkBuff.v, SkbInv.v, SkbCalls.v)
      are objects of a slab cache with such a descriptor inside, used through the
      interface [ObjectCache]; SkbSystem.v shows that slab.c provides it, so that its
      theorems hold of the whole stack of four files.
    - The work queue (core/workqueue.c): Workqueue.v has the service, with the work
      structures of the clients by address and what it reads of processes, threads
      and the clock (process/process.c, thread/thread.c, drivers/timer.c);
      WorkqueueInv.v its doubly linked lists, WorkqueueCalls.v and WorkqueueReg.v its
      calls, WorkqueueRun.v the execution of callbacks that call the service again,
      WorkqueueValid.v its validator, WorkqueueLive.v fairness, WorkqueueTime.v the
      delays on the wrapping clock.
    - The routing table (core/route.c, Route.v) with the address parser of core/ipv4.c.
    - Paths and mounts of the file system (fs/vfs_path.c, VfsPath.v).
    - The LZSS codec (memory/compress.c, Compress.v).
    - Cryptography: SHA-256 (core/crypto.c, Sha256.v); arithmetic of Ed25519
      (core/crypto_ed25519.c): Field25519.v, FieldCodec.v and FieldPower.v for the
      field, Scalar25519.v for the group order.
    - Prelude.v (this file) has the machine integers, record update, loops, byte
      memories and the tactics all files share; Registry.v the arrays of pointers
      that net_buffer.c, sk_buff.c and workqueue.c search.

    ** How the code is modelled

    One definition per C function, with its name; pieces of long functions are named
    after what they do.  Unsigned integers are integers with the reduction modulo
    2^8, 2^16, 2^32 or 2^64 written out where C reduces ([u8] to [u64], [+w], [-w],
    [*w]); signed ones wrap in [i32] and [i64].  The static variables and structures
    of a component are a record; a function takes and returns it, with its result.
    Result codes are the type [status].  memory.c and compress.c work on bytes at
    addresses; the other components see the structures they own as records, by
    address where pointers to them are stored (0 is the null pointer), so that two
    names of one structure are one structure.  A call that holds a lock or disables
    interrupts is one step.  Output pointers are taken not to be null except where
    noted, and log lines are not modelled.

    ** What the theorems show

    - Invariants over whole runs: in every state that any sequence of calls can reach
      from the initialisation the structures are consistent, and the validators in
      the code accept ([memory_run_safe], [slab_run_valid], [net_buffer_run_valid],
      [skb_run_valid], [workqueue_run_consistent], [route_calls_refine_map]).
    - Isolation: a frame a program can access belongs to one page of one process, a
      store from user mode changes that frame only, and every directory has the same
      kernel map, closed to programs ([user_frames_private], [user_store_confined],
      [kernel_map_shared]).
    - Exact results of each call on every branch, refusals included: allocation is
      first fit, releases undo exactly what was handed out, lookups return the most
      specific entry, reductions are the remainder, encodings are canonical.
    - Refinement of a specification: the heap headers by a list of blocks, the routing
      table by a finite map, path normalisation by a walk over components, streaming
      SHA-256 by the definition of FIPS 180-4, compression by its inverse.
    - Fairness and time: no queued work starves ([workqueue_no_starvation]) and delays
      survive the wrap-around of the clock ([workqueue_delays_kept]).
    - Theorems named [..._breaks_reset], [..._counters_wrap], [..._unwritten],
      [kfree_twice] and [workqueue_lost_requests] show where the code does not do what
      it means to.

    Theorems with hypotheses have a witness, a lemma named after them, that applies
    them to a concrete state.

    ** Bounds and fuel

    Loops with a fixed number of iterations are folds over [range].  Other loops are
    fixpoints with fuel, and the theorems show that the fuel is never what ends them:
    walks over the heap have the bound the code itself has (one more than the number
    of headers the window can hold); lists of the slab allocator and the work queue
    have one step more than the entries of their tables (65 and 66 for 64 works);
    [compress_data], [decompress_data], SHA-256 updates and path walks consume their
    input, so its length is enough.  The loop that maps a range of pages to itself has
    1025 rounds, one more than there are tables; [identity_map_terminates] relates it
    to the loop without a bound.  [decompress_total_safe], [sha256_streaming] and
    [vfs_normalize_exact] state termination as part of the result.

    ** What is not modelled

    Device drivers, interrupt handling and context switching depend on the processor
    and the devices; the user interface, the shell and the diagnostics on
    the screen and its events.  The protocols above the buffers, the file systems, the
    update and package code run on those.  In the files that are modelled, printing of
    statistics, null output pointers, self tests that need the test runtime, the
    points of Ed25519 and SHA-512, the probe and self test of the work queue and the
    refresh of the mount table from storage are left out. *)

From stdpp Require Export base numbers list gmap strings.
From Stdlib Require Export ZArith Lia ZifyBool Btauto.
#[global] Open Scope Z_scope.

(** [lia] with the characteristic equations of [/] and [mod]. *)
Ltac divlia := intros; zify; Z.to_euclidean_division_equations; lia.

(** Membership in an explicit concatenation. *)
Ltac in_list := rewrite ?elem_of_app, ?elem_of_cons; tauto.

(** Names the value of the outermost [let] of the left-hand side of the
    premise equation, so that long state-passing definitions are unfolded one
    assignment at a time. *)
Ltac intro_let x E :=
  lazymatch goal with
  | |- ?L = ?r → ?G =>
      lazymatch L with let s := ?v in @?b s =>
        cut (∀ x, x = v → b x = r → G);
        [let HH := fresh in intros HH; exact (HH v eq_refl)|intros x E; cbv beta]
      end
  end.

(** Selects the second branch of a decided conditional without unfolding the
    [let]s of the branch. *)
Ltac else_branch :=
  lazymatch goal with |- (if _ then _ else ?b) = ?r → ?G => change (b = r → G) end.

(** ** Record update

    C code mutates one field of a structure at a time.  [set f g r] is [r]
    with [g] applied to the field [f]; the setter is computed from the
    structure's [Eta] instance, which rebuilds a value from its fields. *)

Class Eta (R : Type) := eta : R → R.
Class Update {R T : Type} (proj : R → T) := set : (T → T) → R → R.
Arguments set {R T} proj {_} _ _ : simpl never.

Ltac solve_update :=
  match goal with
  | |- @Update ?R ?T ?proj =>
      let e := constr:(_ : Eta R) in
      let e := eval hnf in e in
      let r := fresh "r" in
      let g := fresh "g" in
      refine (λ (g : T → T) (r : R), _);
      let body := eval cbv beta in (e r) in
      let body := eval pattern (proj r) in body in
      match body with ?f _ =>
        let t := eval cbv beta in (f (g (proj r))) in exact t
      end
  end.
#[export] Hint Extern 1 (Update _) => solve_update : typeclass_instances.

Declare Scope zephyr_scope.
Delimit Scope zephyr_scope with zephyr.
#[global] Open Scope zephyr_scope.
Notation "r <| f := v |>" := (set f (λ _, v) r)
  (at level 1, left associativity, f at level 9) : zephyr_scope.
Notation "r <| f ::= g |>" := (set f g r)
  (at level 1, left associativity, f at level 9) : zephyr_scope.

(** ** Return codes (core/errors.h) *)

Inductive status :=
| OK | ERR_NULL | ERR_MEM | ERR_DISK | ERR_NOT_FOUND | ERR_OVERFLOW
| ERR_INVALID | ERR_STATE | ERR_TIMEOUT | ERR_UNAVAILABLE | ERR_CANCELLED
| ERR_AGAIN.

#[export] Instance status_eq_dec : EqDecision status.
Proof. solve_decision. Defined.

Definition is_ok (e : status) : bool := match e with OK => true | _ => false end.

(** ** Machine integers

    An unsigned w-bit value is a [Z]; the wrap-around of the C arithmetic is
    written where it happens. *)

Definition u8 (z : Z) : Z := z mod 2 ^ 8.
Definition u16 (z : Z) : Z := z mod 2 ^ 16.
Definition u32 (z : Z) : Z := z mod 2 ^ 32.
Definition u64 (z : Z) : Z := z mod 2 ^ 64.
#[global] Arguments u8 : simpl never.
#[global] Arguments u16 : simpl never.
#[global] Arguments u32 : simpl never.
#[global] Arguments u64 : simpl never.

Notation "x +w y" := (u32 (x + y)) (at level 50, left associativity) : zephyr_scope.
Notation "x -w y" := (u32 (x - y)) (at level 50, left associativity) : zephyr_scope.
Notation "x *w y" := (u32 (x * y)) (at level 40, left associativity) : zephyr_scope.
Notation "~w x" := (u32 (Z.lnot x)) (at level 35, right associativity) : zephyr_scope.
Notation "x &w y" := (Z.land x y) (at level 45, left associativity) : zephyr_scope.
Notation "x |w y" := (Z.lor x y) (at level 47, left associativity) : zephyr_scope.
Notation "x <<w y" := (u32 (Z.shiftl x y)) (at level 42, left associativity) : zephyr_scope.
Notation "x >>w y" := (Z.shiftr x y) (at level 42, left associativity) : zephyr_scope.

Lemma u8_range z : 0 ≤ u8 z < 256.
Proof. unfold u8. pose proof (Z.mod_pos_bound z (2^8)). lia. Qed.
Lemma u16_range z : 0 ≤ u16 z < 65536.
Proof. unfold u16. pose proof (Z.mod_pos_bound z (2^16)). lia. Qed.
Lemma u32_range z : 0 ≤ u32 z < 2 ^ 32.
Proof. unfold u32. apply Z.mod_pos_bound. lia. Qed.
Lemma u64_range z : 0 ≤ u64 z < 2 ^ 64.
Proof. unfold u64. apply Z.mod_pos_bound. lia. Qed.
Lemma u8_small z : 0 ≤ z < 256 → u8 z = z.
Proof. intros. unfold u8. apply Z.mod_small. lia. Qed.
Lemma u16_small z : 0 ≤ z < 65536 → u16 z = z.
Proof. intros. unfold u16. apply Z.mod_small. lia. Qed.
Lemma u32_small z : 0 ≤ z < 4294967296 → u32 z = z.
Proof. intros. unfold u32. apply Z.mod_small. lia. Qed.
Lemma u64_small z : 0 ≤ z < 18446744073709551616 → u64 z = z.
Proof. intros. unfold u64. apply Z.mod_small. lia. Qed.

(** Inner wraps of a sum, difference or product are absorbed by the outer. *)
(** Signed machine integers; [>>] is the arithmetic shift. *)
Definition i32 (z : Z) : Z := (z + 2 ^ 31) mod 2 ^ 32 - 2 ^ 31.
Definition i64 (z : Z) : Z := (z + 2 ^ 63) mod 2 ^ 64 - 2 ^ 63.

Lemma i64_small z : -9223372036854775808 ≤ z < 9223372036854775808 → i64 z = z.
Proof. intros H. unfold i64. rewrite Z.mod_small; lia. Qed.
Lemma i32_small z : -2147483648 ≤ z < 2147483648 → i32 z = z.
Proof. intros H. unfold i32. rewrite Z.mod_small; lia. Qed.

Lemma u32_add_l a b : u32 (u32 a + b) = u32 (a + b).
Proof. apply Zplus_mod_idemp_l. Qed.
Lemma u32_add_r a b : u32 (a + u32 b) = u32 (a + b).
Proof. apply Zplus_mod_idemp_r. Qed.
Lemma u32_sub_l a b : u32 (u32 a - b) = u32 (a - b).
Proof. apply Zminus_mod_idemp_l. Qed.
Lemma u32_sub_r a b : u32 (a - u32 b) = u32 (a - b).
Proof. apply Zminus_mod_idemp_r. Qed.
Lemma u32_mul_l a b : u32 (u32 a * b) = u32 (a * b).
Proof. apply Zmult_mod_idemp_l. Qed.
Lemma u32_mul_r a b : u32 (a * u32 b) = u32 (a * b).
Proof. apply Zmult_mod_idemp_r. Qed.
Lemma u32_u32 a : u32 (u32 a) = u32 a.
Proof. apply Zmod_mod. Qed.
(** A wrapping accumulation is the wrapped sum. *)
Lemma foldl_wrap a l :
  foldl (λ acc n, acc +w n) (u32 a) l = u32 (foldl Z.add a l).
Proof.
  revert a. induction l as [|n l IH]; intros a; [done|]. cbn [foldl].
  by rewrite u32_add_l, IH.
Qed.
Create Rewrite HintDb wrap.
#[export] Hint Rewrite u32_add_l u32_add_r u32_sub_l u32_sub_r u32_mul_l
  u32_mul_r u32_u32 : wrap.

(** Rewriting of [Z.testbit] through the bit operations; side conditions are
    closed by [lia]. *)
Create Rewrite HintDb zbits.
Lemma u8_testbit z i : Z.testbit (u8 z) i = (i <? 8) && Z.testbit z i.
Proof. apply Z.testbit_mod_pow2. lia. Qed.
Lemma u16_testbit z i : Z.testbit (u16 z) i = (i <? 16) && Z.testbit z i.
Proof. apply Z.testbit_mod_pow2. lia. Qed.
Lemma u32_testbit z i : Z.testbit (u32 z) i = (i <? 32) && Z.testbit z i.
Proof. apply Z.testbit_mod_pow2. lia. Qed.
Lemma u64_testbit z i : Z.testbit (u64 z) i = (i <? 64) && Z.testbit z i.
Proof. apply Z.testbit_mod_pow2. lia. Qed.
Lemma land_ones_testbit n z i :
  0 ≤ n → 0 ≤ i → Z.testbit (Z.land z (Z.ones n)) i = (i <? n) && Z.testbit z i.
Proof. intros. rewrite Z.land_spec, Z.testbit_ones_nonneg by lia. apply andb_comm. Qed.
#[export] Hint Rewrite u8_testbit u16_testbit u32_testbit u64_testbit : zbits.
#[export] Hint Rewrite Z.land_spec Z.lor_spec Z.lxor_spec Z.testbit_0_l : zbits.
#[export] Hint Rewrite Z.shiftl_spec Z.shiftr_spec Z.lnot_spec
  Z.testbit_ones_nonneg using lia : zbits.

(** A value below [2^n] has no bit at or above [n]. *)
Lemma testbit_high n z i : 0 ≤ z < 2 ^ n → n ≤ i → Z.testbit z i = false.
Proof.
  intros Hz Hi. destruct (decide (0 ≤ n)).
  - rewrite <-(Z.mod_small z (2^n)) by lia. apply Z.mod_pow2_bits_high. lia.
  - rewrite Z.pow_neg_r in Hz by lia. lia.
Qed.

(** [1U << k] and the test [x & (1U << k)]. *)
Lemma one_shl k : 0 ≤ k < 32 → 1 <<w k = 2 ^ k.
Proof.
  intros. rewrite Z.shiftl_1_l. apply u32_small. split; [lia|].
  change 4294967296 with (2 ^ 32). apply Z.pow_lt_mono_r; lia.
Qed.
Lemma land_pow2_test x k : 0 ≤ k → negb (x &w 2 ^ k =? 0) = Z.testbit x k.
Proof.
  intros. destruct (Z.testbit x k) eqn:E.
  - apply negb_true_iff, Z.eqb_neq. intros H0.
    assert (Ht : Z.testbit (Z.land x (2 ^ k)) k = false) by (rewrite H0; apply Z.testbit_0_l).
    rewrite Z.land_spec, Z.pow2_bits_true, E in Ht by lia. done.
  - apply negb_false_iff, Z.eqb_eq.
    apply Z.bits_inj_iff'. intros i Hi. rewrite Z.land_spec, Z.testbit_0_l.
    rewrite Z.pow2_bits_eqb by lia. destruct (Z.eqb_spec k i) as [<-|].
    + by rewrite E.
    + apply andb_false_r.
Qed.

(** [(v + a - 1) & ~(a - 1)] and [v & ~(a - 1)] for a power of two. *)
Lemma land_lnot_ones v n :
  0 ≤ n → Z.land v (Z.lnot (Z.ones n)) = v / 2 ^ n * 2 ^ n.
Proof.
  intros. rewrite <-Z.ldiff_land, Z.ldiff_ones_r by lia.
  rewrite Z.shiftr_div_pow2, Z.shiftl_mul_pow2 by lia. done.
Qed.

Lemma land_u32_lnot v m :
  0 ≤ v < 2 ^ 32 → Z.land v (u32 (Z.lnot m)) = Z.land v (Z.lnot m).
Proof.
  intros Hv. apply Z.bits_inj_iff'. intros i Hi. autorewrite with zbits.
  destruct (Z.ltb_spec i 32); [done|].
  rewrite (testbit_high 32 v) by lia. done.
Qed.

Lemma land_u64_lnot v m :
  0 ≤ v < 2 ^ 64 → Z.land v (u64 (Z.lnot m)) = Z.land v (Z.lnot m).
Proof.
  intros Hv. apply Z.bits_inj_iff'. intros i Hi. autorewrite with zbits.
  destruct (Z.ltb_spec i 64); [done|].
  rewrite (testbit_high 64 v) by lia. done.
Qed.

Lemma land_le_l a b : 0 ≤ a → 0 ≤ Z.land a b ≤ a.
Proof.
  intros Ha. apply Z.ldiff_le; [done|]. apply Z.bits_inj_iff'. intros i Hi.
  rewrite Z.ldiff_spec, Z.land_spec, Z.testbit_0_l.
  destruct (Z.testbit a i); cbn; [apply andb_false_r|done].
Qed.

(** Bitwise combinations stay below a power of two. *)
Lemma log2_bound a n : 0 < n → 0 ≤ a < 2 ^ n → Z.log2 a < n.
Proof.
  intros Hn Ha. destruct (Z.eq_dec a 0) as [->|]; [done|]. apply Z.log2_lt_pow2; lia.
Qed.

Lemma log2_bound_inv a n : 0 < n → 0 ≤ a → Z.log2 a < n → a < 2 ^ n.
Proof.
  intros Hn Ha Hl. destruct (Z.eq_dec a 0) as [->|]; [lia|]. apply Z.log2_lt_pow2; lia.
Qed.

Lemma lor_bound a b n : 0 < n → 0 ≤ a < 2 ^ n → 0 ≤ b < 2 ^ n → 0 ≤ Z.lor a b < 2 ^ n.
Proof.
  intros Hn Ha Hb. assert (0 ≤ Z.lor a b) by (apply Z.lor_nonneg; lia). split; [done|].
  apply log2_bound_inv; [done..|]. rewrite Z.log2_lor by lia.
  apply Z.max_lub_lt; by apply log2_bound.
Qed.

Lemma lxor_bound a b n : 0 < n → 0 ≤ a < 2 ^ n → 0 ≤ b < 2 ^ n → 0 ≤ Z.lxor a b < 2 ^ n.
Proof.
  intros Hn Ha Hb. assert (0 ≤ Z.lxor a b) by (apply Z.lxor_nonneg; lia). split; [done|].
  apply log2_bound_inv; [done..|]. eapply Z.le_lt_trans; [apply Z.log2_lxor; lia|].
  apply Z.max_lub_lt; by apply log2_bound.
Qed.

(** Joining a low and a high field. *)
Lemma lor_low_high a b n : 0 ≤ n → 0 ≤ a < 2 ^ n → Z.lor a (b * 2 ^ n) = a + b * 2 ^ n.
Proof.
  intros Hn Ha. rewrite <-Z.lxor_lor, <-Z.add_nocarry_lxor; [done|..].
  all: apply Z.bits_inj_iff'; intros i Hi; rewrite Z.land_spec, Z.testbit_0_l,
    <-Z.shiftl_mul_pow2, Z.shiftl_spec by lia;
    destruct (decide (i < n)); [rewrite (Z.testbit_neg_r b) by lia; apply andb_false_r|
    by rewrite (testbit_high n a) by lia].
Qed.

(** ** Loops

    A C loop [for (i = lo; i < hi; i++) body] that runs to completion is a
    left fold over [range lo hi]. *)
Definition range (lo hi : Z) : list Z := seqZ lo (hi - lo).

Lemma elem_of_range lo hi i : i ∈ range lo hi ↔ lo ≤ i < hi.
Proof. unfold range. rewrite elem_of_seqZ. lia. Qed.

Lemma range_nil lo hi : hi ≤ lo → range lo hi = [].
Proof. intros. apply seqZ_nil. lia. Qed.

Lemma range_cons lo hi : lo < hi → range lo hi = lo :: range (lo + 1) hi.
Proof. intros. unfold range. rewrite seqZ_cons by lia. repeat f_equal; lia. Qed.

Lemma range_snoc lo hi : lo ≤ hi → range lo (hi + 1) = range lo hi ++ [hi].
Proof.
  intros. unfold range. replace (hi + 1 - lo) with ((hi - lo) + 1) by lia.
  rewrite seqZ_app by lia. f_equal. rewrite seqZ_cons, seqZ_nil by lia. f_equal. lia.
Qed.

(** The loop invariant rule. *)
Lemma foldl_range_ind {A} (P : Z → A → Prop) (f : A → Z → A) lo hi s :
  lo ≤ hi → P lo s →
  (∀ i s, lo ≤ i < hi → P i s → P (i + 1) (f s i)) →
  P hi (foldl f s (range lo hi)).
Proof.
  intros Hle Hs Hstep.
  cut (∀ n : nat, lo + Z.of_nat n ≤ hi →
         P (lo + Z.of_nat n) (foldl f s (range lo (lo + Z.of_nat n)))).
  { intros H. specialize (H (Z.to_nat (hi - lo))).
    replace (lo + Z.of_nat (Z.to_nat (hi - lo))) with hi in H by lia. apply H. lia. }
  induction n as [|n IH]; intros Hn.
  - rewrite Z.add_0_r, range_nil by lia. done.
  - replace (lo + Z.of_nat (S n)) with ((lo + Z.of_nat n) + 1) in * by lia.
    rewrite range_snoc, foldl_app by lia. simpl. apply Hstep; [lia|]. apply IH. lia.
Qed.

(** [for] loops that leave early on the first index where a test fails. *)
Definition all_range (lo hi : Z) (p : Z → bool) : bool := forallb p (range lo hi).

Lemma all_range_spec lo hi p :
  all_range lo hi p = true ↔ ∀ i, lo ≤ i < hi → p i = true.
Proof.
  unfold all_range. rewrite forallb_forall. setoid_rewrite <-list_elem_of_In.
  setoid_rewrite elem_of_range. done.
Qed.

(** A search loop returns the first index that passes the test. *)
Lemma find_range_Some lo hi p i :
  List.find p (range lo hi) = Some i →
  lo ≤ i < hi ∧ p i = true ∧ ∀ j, lo ≤ j < i → p j = false.
Proof.
  remember (Z.to_nat (hi - lo)) as n eqn:En. revert lo En.
  induction n as [|n IH]; intros lo En Hf.
  - rewrite range_nil in Hf by lia. done.
  - rewrite range_cons in Hf by lia. simpl in Hf. destruct (p lo) eqn:Ep.
    + injection Hf as <-. repeat split; try done; lia.
    + apply IH in Hf as (? & ? & Hj); [|lia]. split; [lia|]. split; [done|].
      intros j ?. destruct (decide (j = lo)) as [->|]; [done|]. apply Hj. lia.
Qed.

Lemma find_range_None lo hi p :
  List.find p (range lo hi) = None → ∀ j, lo ≤ j < hi → p j = false.
Proof.
  intros Hf j Hj. apply (List.find_none _ _ Hf). apply list_elem_of_In, elem_of_range. done.
Qed.

(** Number of indices of a range that satisfy a test. *)
Definition count_range (lo hi : Z) (p : Z → bool) : Z :=
  Z.of_nat (length (List.filter p (range lo hi))).

Lemma count_range_nil lo hi p : hi ≤ lo → count_range lo hi p = 0.
Proof. intros. unfold count_range. rewrite range_nil by lia. done. Qed.

Lemma count_range_snoc lo hi p :
  lo ≤ hi → count_range lo (hi + 1) p = count_range lo hi p + (if p hi then 1 else 0).
Proof.
  intros. unfold count_range. rewrite range_snoc, List.filter_app, length_app by lia.
  simpl. destruct (p hi); simpl; lia.
Qed.

Lemma count_range_split lo mid hi p :
  lo ≤ mid ≤ hi → count_range lo hi p = count_range lo mid p + count_range mid hi p.
Proof.
  intros. unfold count_range, range. replace (hi - lo) with ((mid - lo) + (hi - mid)) by lia.
  rewrite seqZ_app, List.filter_app, length_app by lia.
  replace (lo + (mid - lo)) with mid by lia. lia.
Qed.

Lemma count_range_ext lo hi p q :
  (∀ i, lo ≤ i < hi → p i = q i) → count_range lo hi p = count_range lo hi q.
Proof.
  intros H. unfold count_range. do 2 f_equal. apply List.filter_ext_in.
  intros a Ha. apply H. by apply elem_of_range, list_elem_of_In.
Qed.

Lemma count_range_bounds lo hi p : lo ≤ hi → 0 ≤ count_range lo hi p ≤ hi - lo.
Proof.
  intros. unfold count_range. pose proof (List.filter_length_le p (range lo hi)).
  unfold range in *. rewrite length_seqZ in *. lia.
Qed.

Lemma count_range_const lo hi p b :
  lo ≤ hi → (∀ i, lo ≤ i < hi → p i = b) →
  count_range lo hi p = if b then hi - lo else 0.
Proof.
  intros Hle H. rewrite (count_range_ext _ _ _ (λ _, b)) by done.
  unfold count_range. destruct b.
  - rewrite List.filter_true. unfold range. rewrite length_seqZ. lia.
  - rewrite List.filter_false. done.
Qed.

(** Counting when the test is constant on a sub-range. *)
Lemma count_range_run lo a b hi p (v : bool) :
  lo ≤ a ≤ b → b ≤ hi → (∀ i, a ≤ i < b → p i = v) →
  if (v : bool) then b - a ≤ count_range lo hi p else count_range lo hi p ≤ (hi - lo) - (b - a).
Proof.
  intros Hl Hh Hv. rewrite (count_range_split lo a hi), (count_range_split a b hi) by lia.
  rewrite (count_range_const a b p v) by (lia || done).
  pose proof (count_range_bounds lo a p). pose proof (count_range_bounds b hi p).
  destruct v; lia.
Qed.

(** Changing the test on one sub-range changes the count by the difference. *)
Lemma count_range_update lo a b hi p q :
  lo ≤ a ≤ b → b ≤ hi →
  (∀ i, lo ≤ i < hi → ¬ (a ≤ i < b) → p i = q i) →
  count_range lo hi q = count_range lo hi p - count_range a b p + count_range a b q.
Proof.
  intros. rewrite !(count_range_split lo a hi), !(count_range_split a b hi) by lia.
  rewrite (count_range_ext lo a q p), (count_range_ext b hi q p); [lia|..].
  all: intros; symmetry; auto with lia.
Qed.

(** ** Physical memory

    Byte-addressed memory; multi-byte accesses are little-endian, as on the
    32-bit x86 the kernel runs on.  A cell that was never written reads as
    some byte; an arbitrary initial memory is an arbitrary map. *)
Abbreviation mem := (gmap Z Z).

Definition load8 (m : mem) (a : Z) : Z := u8 (default 0 (m !! a)).
Definition store8 (m : mem) (a v : Z) : mem := <[a := u8 v]> m.

Definition load32 (m : mem) (a : Z) : Z :=
  load8 m a + load8 m (a + 1) * 2 ^ 8 + load8 m (a + 2) * 2 ^ 16
  + load8 m (a + 3) * 2 ^ 24.
Definition store32 (m : mem) (a v : Z) : mem :=
  store8 (store8 (store8 (store8 m a v) (a + 1) (v / 2 ^ 8))
    (a + 2) (v / 2 ^ 16)) (a + 3) (v / 2 ^ 24).

(** [kmemset] of core/string.c. *)
Definition kmemset (m : mem) (dst val size : Z) : mem :=
  foldl (λ m i, store8 m (dst + i) val) m (range 0 size).

Lemma load8_range m a : 0 ≤ load8 m a < 256.
Proof. apply u8_range. Qed.

Lemma load8_store8 m a b v :
  load8 (store8 m a v) b = if decide (a = b) then u8 v else load8 m b.
Proof.
  unfold load8, store8. destruct (decide (a = b)) as [->|].
  - rewrite lookup_insert_eq. simpl. apply u8_small, u8_range.
  - by rewrite lookup_insert_ne.
Qed.
Lemma load8_store8_eq m a v : load8 (store8 m a v) a = u8 v.
Proof. rewrite load8_store8. by rewrite decide_True. Qed.
Lemma load8_store8_ne m a b v : a ≠ b → load8 (store8 m a v) b = load8 m b.
Proof. intros. rewrite load8_store8. by rewrite decide_False. Qed.

Lemma load8_store32_ne m a b v :
  b < a ∨ a + 4 ≤ b → load8 (store32 m a v) b = load8 m b.
Proof. intros. unfold store32. rewrite !load8_store8_ne by lia. done. Qed.

Lemma load32_store32_ne m a b v :
  b + 4 ≤ a ∨ a + 4 ≤ b → load32 (store32 m a v) b = load32 m b.
Proof. intros. unfold load32. rewrite !load8_store32_ne by lia. done. Qed.

Lemma load32_store32_eq m a v : load32 (store32 m a v) a = u32 v.
Proof.
  unfold load32, store32.
  repeat (rewrite load8_store8_eq || rewrite load8_store8_ne by lia).
  unfold u8, u32. pose proof (Z.div_mod v (2^8)). 
  replace (v / 2^16) with (v / 2^8 / 2^8) by (rewrite Z.div_div by lia; done).
  replace (v / 2^24) with (v / 2^8 / 2^8 / 2^8) by (rewrite !Z.div_div by lia; done).
  change (2^32) with (2^8 * (2^8 * (2^8 * 2^8))).
  rewrite !(Z.rem_mul_r _ (2^8)) by lia. lia.
Qed.

Lemma load32_range m a : 0 ≤ load32 m a < 2 ^ 32.
Proof.
  unfold load32. pose proof (load8_range m a). pose proof (load8_range m (a + 1)).
  pose proof (load8_range m (a + 2)). pose proof (load8_range m (a + 3)). lia.
Qed.

Lemma load8_kmemset m dst val size a :
  load8 (kmemset m dst val size) a =
  if (dst <=? a) && (a <? dst + size) then u8 val else load8 m a.
Proof.
  unfold kmemset. destruct (decide (0 ≤ size)).
  - apply (foldl_range_ind (λ i m', load8 m' a =
      if (dst <=? a) && (a <? dst + i) then u8 val else load8 m a)); [lia|..].
    + replace ((dst <=? a) && (a <? dst + 0)) with false by lia. done.
    + intros i m' Hi IH. rewrite load8_store8. destruct (decide (dst + i = a)).
      * replace ((dst <=? a) && (a <? dst + (i + 1))) with true by lia. done.
      * rewrite IH. replace (a <? dst + (i + 1)) with (a <? dst + i) by lia. done.
  - rewrite range_nil by lia. simpl.
    replace ((dst <=? a) && (a <? dst + size)) with false by lia. done.
Qed.

(** The [n] bytes at address [p]. *)
Definition bytes_at (m : mem) (p n : Z) : list Z := map (λ i, load8 m (p + i)) (range 0 n).

Lemma length_bytes_at m p n : 0 ≤ n → Z.of_nat (length (bytes_at m p n)) = n.
Proof. intros. unfold bytes_at, range. rewrite length_map, length_seqZ. lia. Qed.

Lemma lookup_bytes_at m p n i v :
  bytes_at m p n !! i = Some v → v = load8 m (p + Z.of_nat i).
Proof.
  unfold bytes_at, range. rewrite list_lookup_fmap, fmap_Some. intros (x & Hx & ->).
  apply lookup_seqZ in Hx as [-> _]. do 2 f_equal.
Qed.

Lemma bytes_at_snoc m p n : 0 ≤ n → bytes_at m p (n + 1) = bytes_at m p n ++ [load8 m (p + n)].
Proof. intros. unfold bytes_at. by rewrite range_snoc, map_app. Qed.

Lemma bytes_at_0 m p : bytes_at m p 0 = [].
Proof. done. Qed.
Lemma bytes_at_1 m p : bytes_at m p 1 = [load8 m p].
Proof. unfold bytes_at. rewrite (range_cons 0 1), range_nil by lia. simpl. by rewrite Z.add_0_r. Qed.
Lemma bytes_at_2 m p : bytes_at m p 2 = [load8 m p; load8 m (p + 1)].
Proof.
  change 2 with (1 + 1). rewrite bytes_at_snoc, bytes_at_1 by lia. done.
Qed.

Lemma bytes_at_app m p a b :
  0 ≤ a → 0 ≤ b → bytes_at m p (a + b) = bytes_at m p a ++ bytes_at m (p + a) b.
Proof.
  intros Ha Hb. pattern b. revert b Hb. apply natlike_ind.
  - rewrite Z.add_0_r. unfold bytes_at at 3. rewrite (range_nil 0 0) by lia. simpl. by rewrite app_nil_r.
  - intros b Hb IH. rewrite <-!Z.add_1_r, Z.add_assoc, !bytes_at_snoc, IH by lia.
    by rewrite <-app_assoc, Z.add_assoc.
Qed.

Lemma bytes_at_ext m m' p n :
  (∀ i, 0 ≤ i < n → load8 m' (p + i) = load8 m (p + i)) → bytes_at m' p n = bytes_at m p n.
Proof.
  intros H. unfold bytes_at. apply map_ext_in. intros i Hi%list_elem_of_In%elem_of_range. by apply H.
Qed.

#[global] Opaque load8 store8 load32 store32.

(** Array read [a[i]]. *)
Definition at_ (l : list Z) (i : Z) : Z := nth (Z.to_nat i) l 0.
Definition len (l : list Z) : Z := Z.of_nat (length l).

Lemma len_app l l' : len (l ++ l') = len l + len l'.
Proof. unfold len. rewrite length_app. lia. Qed.
Lemma len_nonneg l : 0 ≤ len l.
Proof. unfold len. lia. Qed.
Lemma len_cons x l : len (x :: l) = 1 + len l.
Proof. unfold len. simpl. lia. Qed.
Lemma len_bytes_at m p n : 0 ≤ n → len (bytes_at m p n) = n.
Proof. apply length_bytes_at. Qed.

Lemma at_lookup l i : 0 ≤ i < len l → l !! Z.to_nat i = Some (at_ l i).
Proof.
  intros. unfold at_, len in *. destruct (lookup_lt_is_Some_2 l (Z.to_nat i)) as [x Hx]; [lia|].
  by rewrite (nth_lookup_Some _ _ _ _ Hx).
Qed.

(** Bytes and words. *)
Definition is_word (z : Z) : Prop := 0 ≤ z < 2 ^ 32.
Definition is_byte (z : Z) : Prop := 0 ≤ z < 256.

Lemma nth_byte (l : list Z) i : Forall is_byte l → is_byte (nth i l 0).
Proof.
  intros H. destruct (decide (i < length l)%nat) as [Hi|Hi].
  - by apply Forall_nth.
  - rewrite nth_overflow by lia. unfold is_byte. lia.
Qed.

Lemma nth_word (l : list Z) i : Forall is_word l → is_word (nth i l 0).
Proof.
  intros H. destruct (decide (i < length l)%nat) as [Hi|Hi].
  - by apply Forall_nth.
  - rewrite nth_overflow by lia. unfold is_word. lia.
Qed.

Lemma at_word l i : Forall is_word l → is_word (at_ l i).
Proof. apply nth_word. Qed.
Lemma at_byte l i : Forall is_byte l → is_byte (at_ l i).
Proof. apply nth_byte. Qed.

(** Array write [a[i] = v]. *)
Definition upd (l : list Z) (i v : Z) : list Z := <[Z.to_nat i := v]> l.

Lemma at_upd l k v i : 0 ≤ k < len l → 0 ≤ i → at_ (upd l k v) i = if i =? k then v else at_ l i.
Proof.
  intros Hk Hi. unfold at_, upd, len in *. rewrite !nth_lookup. destruct (Z.eqb_spec i k) as [->|N].
  - rewrite list_lookup_insert_eq by lia. done.
  - rewrite list_lookup_insert_ne by lia. done.
Qed.
Lemma len_upd l k v : len (upd l k v) = len l.
Proof. unfold len, upd. by rewrite length_insert. Qed.
Lemma words_upd l k v : Forall is_word l → is_word v → Forall is_word (upd l k v).
Proof. intros Hl Hv. by apply Forall_insert. Qed.

(** ** Sums over a list of indices *)

Fixpoint sum (f : Z → Z) (l : list Z) : Z :=
  match l with [] => 0 | p :: l => f p + sum f l end.

Lemma sum_perm f l l' : l ≡ₚ l' → sum f l = sum f l'.
Proof. induction 1; cbn; lia. Qed.

Lemma sum_ext f g l : (∀ p, p ∈ l → f p = g p) → sum f l = sum g l.
Proof.
  induction l as [|p l IH]; intros H; [done|]. cbn. rewrite IH, H; [done|..].
  - constructor.
  - intros q Hq. apply H. by constructor.
Qed.

(** Changing the value at one index. *)
Lemma sum_update f g l p :
  NoDup l → p ∈ l → (∀ q, q ≠ p → g q = f q) → sum g l = sum f l - f p + g p.
Proof.
  intros Hn Hp Hg. apply list_elem_of_split in Hp as (l1 & l2 & ->).
  assert (l1 ++ p :: l2 ≡ₚ p :: l1 ++ l2) as Hl by (by rewrite <-Permutation_middle).
  rewrite Hl in Hn. rewrite !(sum_perm _ _ _ Hl). apply NoDup_cons in Hn as [Hni _]. cbn.
  rewrite (sum_ext g f (l1 ++ l2)); [lia|]. intros q Hq. apply Hg. by intros ->.
Qed.

Lemma sum_nonneg f l : (∀ p, p ∈ l → 0 ≤ f p) → 0 ≤ sum f l.
Proof.
  induction l as [|p l IH]; intros H; cbn; [lia|].
  pose proof (H p ltac:(constructor)). assert (0 ≤ sum f l); [|lia].
  apply IH. intros q Hq. apply H. by constructor.
Qed.

Lemma sum_le_elem f l p : (∀ q, q ∈ l → 0 ≤ f q) → p ∈ l → f p ≤ sum f l.
Proof.
  intros Hf Hp. apply list_elem_of_split in Hp as (l1 & l2 & ->).
  rewrite (sum_perm f _ (p :: l1 ++ l2)) by (by rewrite <-Permutation_middle). cbn.
  assert (0 ≤ sum f (l1 ++ l2)); [|lia]. apply sum_nonneg.
  intros q Hq. apply Hf. apply elem_of_app in Hq as [?|?]; in_list.
Qed.

Lemma sum_app f l l' : sum f (l ++ l') = sum f l + sum f l'.
Proof. induction l as [|p l IH]; cbn; lia. Qed.

Lemma sum_bound f l b : (∀ p, p ∈ l → 0 ≤ f p ≤ b) → 0 ≤ sum f l ≤ b * Z.of_nat (length l).
Proof.
  induction l as [|p l IH]; intros H; cbn [sum length]; [lia|].
  pose proof (H p ltac:(constructor)). assert (0 ≤ sum f l ≤ b * Z.of_nat (length l)); [|lia].
  apply IH. intros q Hq. apply H. by constructor.
Qed.

Lemma range_NoDup lo hi : NoDup (range lo hi).
Proof. apply NoDup_seqZ. Qed.

Lemma length_range lo hi : length (range lo hi) = Z.to_nat (hi - lo).
Proof. apply length_seqZ. Qed.

(** ** Static arrays

    A zero-initialised static array is a finite map from the index; an entry
    that was never written reads as the zeroed value of its type. *)
Class Zeroed (A : Type) := zeroed : A.
#[export] Instance Z_zeroed : Zeroed Z := 0.
Abbreviation array := (gmap Z).

Definition aget {A} `{Zeroed A} (m : array A) (i : Z) : A := default zeroed (m !! i).
Definition aset {A} (m : array A) (i : Z) (v : A) : array A := <[i := v]> m.

Section array.
Context {A : Type} `{Zeroed A}.
Implicit Types m : array A.

Lemma aget_aset m i j v : aget (aset m i v) j = if decide (i = j) then v else aget m j.
Proof.
  unfold aget, aset. destruct (decide (i = j)) as [->|].
  - by rewrite lookup_insert_eq.
  - by rewrite lookup_insert_ne.
Qed.
Lemma aget_aset_eq m i v : aget (aset m i v) i = v.
Proof. rewrite aget_aset. by rewrite decide_True. Qed.
Lemma aget_aset_ne m i j v : i ≠ j → aget (aset m i v) j = aget m j.
Proof. intros. rewrite aget_aset. by rewrite decide_False. Qed.
Lemma aset_aset m i v w : aset (aset m i v) i w = aset m i w.
Proof. apply insert_insert_eq. Qed.
Lemma aget_empty i : aget (∅ : array A) i = zeroed.
Proof. done. Qed.
End array.
#[global] Opaque aget aset.
