(* ===== verification/Registry.v ===== *)
(** * Registries

    Several components keep the addresses of their live objects in a fixed array
    where 0 marks a free slot: net_buffer.c, sk_buff.c and workqueue.c.  This file
    has the search loop they share and the list of live entries, with the lemmas
    on filling and clearing a slot. *)

From S2P Require Import Prelude.

(** The first slot holding a pointer; [None] is -1. *)
Fixpoint find_slot (buffer : Z) (registry : list Z) : option nat :=
  match registry with
  | [] => None
  | p :: l => if p =? buffer then Some O else S <$> find_slot buffer l
  end.

(** ** The live entries *)

Definition live (l : list Z) : list Z := filter (λ p, p ≠ 0) l.

Lemma live_cons p l : live (p :: l) = if p =? 0 then live l else p :: live l.
Proof.
  unfold live. destruct (Z.eqb_spec p 0) as [->|Hp].
  - by rewrite filter_cons_False by (intros []; done).
  - by rewrite filter_cons_True.
Qed.

Lemma elem_of_live l p : p ∈ live l ↔ p ≠ 0 ∧ p ∈ l.
Proof. unfold live. by rewrite list_elem_of_filter. Qed.

Lemma live_length l : (length (live l) ≤ length l)%nat.
Proof. apply length_filter. Qed.

Lemma find_slot_Some p l i : find_slot p l = Some i → l !! i = Some p.
Proof.
  revert i. induction l as [|q l IH]; intros i H; cbn in H; [done|].
  destruct (Z.eqb_spec q p) as [->|]; [by injection H as <-|].
  destruct (find_slot p l) as [j|]; [|done]. injection H as <-. by apply IH.
Qed.

Lemma find_slot_None p l : find_slot p l = None ↔ p ∉ l.
Proof.
  induction l as [|q l IH]; cbn; [split; [|done]; intros _ []%elem_of_nil|].
  rewrite not_elem_of_cons. destruct (Z.eqb_spec q p) as [->|Hne].
  - split; [done|]. by intros [? _].
  - rewrite <-IH. destruct (find_slot p l); cbn; split; try done. by intros [_ ?].
Qed.

Lemma find_slot_elem p l : is_Some (find_slot p l) ↔ p ∈ l.
Proof.
  destruct (find_slot p l) as [i|] eqn:E.
  - split; [|by eauto]. intros _. apply find_slot_Some in E. by eapply list_elem_of_lookup_2.
  - apply find_slot_None in E. split; [by intros [? ?]|done].
Qed.

(** Filling a free slot and clearing a used one. *)
Lemma live_insert l i p : l !! i = Some 0 → p ≠ 0 → live (<[i := p]> l) ≡ₚ p :: live l.
Proof.
  revert i. induction l as [|q l IH]; intros [|i] Hl Hp; try done.
  - injection Hl as ->. change (<[0%nat := p]> (0 :: l)) with (p :: l).
    rewrite !live_cons. destruct (Z.eqb_spec p 0); done.
  - change (<[S i := p]> (q :: l)) with (q :: <[i := p]> l). rewrite !live_cons.
    destruct (q =? 0); [by apply IH|]. rewrite (IH i Hl Hp). constructor.
Qed.

Lemma live_clear l i p : l !! i = Some p → p ≠ 0 → live l ≡ₚ p :: live (<[i := 0]> l).
Proof.
  intros Hl Hp. rewrite <-(list_insert_id l i p) at 1 by done.
  rewrite <-(list_insert_insert_eq l i p 0). apply live_insert; [|done].
  apply list_lookup_insert_eq. by apply lookup_lt_Some in Hl.
Qed.

Lemma free_slot_exists l :
  (∃ i, find_slot 0 l = Some i) ↔ (length (live l) < length l)%nat.
Proof.
  induction l as [|p l IH]; cbn [find_slot length]; [split; [intros [? ?]; done|cbn; lia]|].
  rewrite live_cons. pose proof (live_length l). destruct (p =? 0); cbn [length].
  - split; [lia|]. by exists O.
  - rewrite <-Nat.succ_lt_mono, <-IH. destruct (find_slot 0 l); cbn; split; intros [? ?]; by eauto.
Qed.
