(* ===== verification/Memory.v ===== *)
(** * The state of src/memory/memory.c

    Constants of core/memory.h, the structures [mmap_entry_t], [memory_info_t]
    and [memory_zone_t], and the record of the file's static variables.  The
    physical page manager (Pmm.v) and the kernel heap (Heap.v) operate on this
    one state, as the C functions of memory.c do. *)

From S2P Require Import Prelude.

Definition PAGE_SIZE : Z := 4096.
Definition LOW_MEMORY_END : Z := 0x00100000.
Definition KERNEL_START : Z := 0x00100000.
Definition KERNEL_END : Z := 0x00800000.
Definition HEAP_START : Z := 0x01000000.
Definition HEAP_SIZE : Z := 0x00400000.
Definition PHYSICAL_IDENTITY_START : Z := HEAP_START + HEAP_SIZE.
Definition MIN_PHYSICAL_MEMORY : Z := 0x02000000.
Definition PMM_BITMAP_STORAGE_START : Z := 0x00088000.
Definition PMM_BITMAP_STORAGE_END : Z := 0x00098000.
Definition KERNEL_STACK_TOP : Z := 0x0009F000.
Definition MAX_PHYSICAL_ADDRESS : Z := 0xFFFFFFFF.
Definition FIRMWARE_TOP_RESERVE : Z := 0x00020000.
Definition MIN_USABLE_MEMORY_END : Z := MIN_PHYSICAL_MEMORY - FIRMWARE_TOP_RESERVE.

(** An E820 entry as the boot loader leaves it. *)
Record mmap_entry_t := MmapEntry {
  base_low : Z; base_high : Z; length_low : Z; length_high : Z;
  mmap_type : Z; mmap_acpi : Z
}.

(** [memory_info_t]; [mi_bitmap] is the address of the bitmap (0: null) and
    [mi_mmap] the table the E820 pointer designates. *)
Record memory_info_t := MemoryInfo {
  mi_total_memory : Z; mi_free_memory : Z; mi_used_memory : Z;
  mi_total_pages : Z; mi_free_pages : Z; mi_bitmap_size : Z;
  mi_bitmap : Z; mi_mmap_entries : Z; mi_mmap : list mmap_entry_t
}.

Inductive memory_zone_t :=
| MEMORY_ZONE_KERNEL | MEMORY_ZONE_HEAP | MEMORY_ZONE_SLAB
| MEMORY_ZONE_PROCESS | MEMORY_ZONE_BUFFER | MEMORY_ZONE_FREE
| MEMORY_ZONE_COUNT.

#[export] Instance memory_zone_eq_dec : EqDecision memory_zone_t.
Proof. solve_decision. Defined.

(** The static variables of memory.c, with the physical memory they point
    into.  Pointers are addresses. *)
Record memory_t := Memory {
  phys : mem;
  mem_info : memory_info_t;
  pmm_owner_bitmap : Z;
  pmm_owner_bitmap_size : Z;
  pmm_owned_pages : Z;
  pmm_allocation_failures : Z;
  pmm_invalid_frees : Z;
  heap_allocation_failures : Z;
  heap_invalid_frees : Z;
  heap_double_frees : Z;
  heap_base : Z
}.

#[export] Instance memory_info_eta : Eta memory_info_t := λ r,
  MemoryInfo (mi_total_memory r) (mi_free_memory r) (mi_used_memory r)
    (mi_total_pages r) (mi_free_pages r) (mi_bitmap_size r) (mi_bitmap r)
    (mi_mmap_entries r) (mi_mmap r).
#[export] Instance memory_eta : Eta memory_t := λ r,
  Memory (phys r) (mem_info r) (pmm_owner_bitmap r) (pmm_owner_bitmap_size r)
    (pmm_owned_pages r) (pmm_allocation_failures r) (pmm_invalid_frees r)
    (heap_allocation_failures r) (heap_invalid_frees r) (heap_double_frees r)
    (heap_base r).

Definition memory_info_zero : memory_info_t := MemoryInfo 0 0 0 0 0 0 0 0 [].

(** The state before [memory_init]: every static variable is zero; the
    contents of physical memory are whatever the firmware left. *)
Definition memory_boot (m : mem) : memory_t :=
  Memory m memory_info_zero 0 0 0 0 0 0 0 0 0.

(** [align_up] *)
Definition align_up (value alignment : Z) : Z :=
  if (alignment =? 0) || (value >? 0xFFFFFFFF -w (alignment -w 1)) then 0
  else (value +w alignment -w 1) &w (~w (alignment -w 1)).

Lemma align_up_page value :
  0 ≤ value ≤ 0xFFFFFFFF - 4095 →
  align_up value PAGE_SIZE = (value + 4095) / 4096 * 4096.
Proof.
  intros. unfold align_up, PAGE_SIZE. change (4096 =? 0) with false.
  change (0xFFFFFFFF -w (4096 -w 1)) with 0xFFFFF000.
  destruct (Z.gtb_spec value 0xFFFFF000); [lia|]. simpl orb.
  rewrite u32_sub_l, (u32_small (value + 4096 - 1)), land_u32_lnot by lia.
  change (4096 -w 1) with (Z.ones 12). rewrite land_lnot_ones by lia.
  change (2 ^ 12) with 4096. repeat f_equal. lia.
Qed.
