(* ===== verification/Pmm.v ===== *)
(** * The physical page manager of src/memory/memory.c

    One bit per page says whether the page is in use; three packed bits per
    page say which zone owns it.  Both arrays live in low memory between
    [PMM_BITMAP_STORAGE_START] and [PMM_BITMAP_STORAGE_END].  The definitions
    translate [memory_init], [pmm_alloc_*], [pmm_free_*] and
    [memory_get_detailed_stats]; the theorems show that the two arrays and the
    counters always agree, that allocation is first fit, that it never hands
    out reserved memory and that freeing undoes it. *)

From S2P Require Import Prelude Memory.

Definition PMM_ZONE_TAG_BITS : Z := 3.
Definition PMM_ZONE_TAG_MASK : Z := 7.
Definition PMM_ZONE_TAG_FREE : Z := 0.
Definition PMM_ZONE_TAG_RESERVED_KERNEL : Z := 1.
Definition PMM_ZONE_TAG_RESERVED_HEAP : Z := 2.
Definition PMM_ZONE_TAG_KERNEL : Z := 3.
Definition PMM_ZONE_TAG_SLAB : Z := 4.
Definition PMM_ZONE_TAG_PROCESS : Z := 5.
Definition PMM_ZONE_TAG_BUFFER : Z := 6.

Definition PMM_ZONE_STORAGE_BYTES (total_pages : Z) : Z :=
  (total_pages *w PMM_ZONE_TAG_BITS +w 7) / 8.
Definition PMM_ZONE_STORAGE_CAPACITY : Z :=
  PMM_BITMAP_STORAGE_END - PMM_BITMAP_STORAGE_START.

(** ** Page tags *)

Definition pmm_get_page_tag (s : memory_t) (page : Z) : Z :=
  let bit_offset := page *w PMM_ZONE_TAG_BITS in
  let byte_offset := bit_offset / 8 in
  let shift := bit_offset mod 8 in
  let value := load8 (phys s) (pmm_owner_bitmap s + byte_offset) in
  let value := if shift >? 5
    then value |w u16 (Z.shiftl (load8 (phys s)
                        (pmm_owner_bitmap s + (byte_offset +w 1))) 8)
    else value in
  u8 ((value >>w shift) &w PMM_ZONE_TAG_MASK).

Definition pmm_set_page_tag (s : memory_t) (page tag : Z) : memory_t :=
  let bit_offset := page *w PMM_ZONE_TAG_BITS in
  let byte_offset := bit_offset / 8 in
  let shift := bit_offset mod 8 in
  let value := load8 (phys s) (pmm_owner_bitmap s + byte_offset) in
  let mask := u16 (Z.shiftl PMM_ZONE_TAG_MASK shift) in
  let value := if shift >? 5
    then value |w u16 (Z.shiftl (load8 (phys s)
                        (pmm_owner_bitmap s + (byte_offset +w 1))) 8)
    else value in
  let value := u16 ((value &w Z.lnot mask) |w
                    Z.shiftl (tag &w PMM_ZONE_TAG_MASK) shift) in
  let s := s <| phys ::= λ m, store8 m (pmm_owner_bitmap s + byte_offset) (u8 value) |> in
  if shift >? 5
  then s <| phys ::= λ m, store8 m (pmm_owner_bitmap s + (byte_offset +w 1))
                            (u8 (value >>w 8)) |>
  else s.

Definition pmm_tag_to_zone (tag : Z) : memory_zone_t :=
  if (tag =? PMM_ZONE_TAG_RESERVED_KERNEL) || (tag =? PMM_ZONE_TAG_KERNEL)
  then MEMORY_ZONE_KERNEL
  else if tag =? PMM_ZONE_TAG_RESERVED_HEAP then MEMORY_ZONE_HEAP
  else if tag =? PMM_ZONE_TAG_SLAB then MEMORY_ZONE_SLAB
  else if tag =? PMM_ZONE_TAG_PROCESS then MEMORY_ZONE_PROCESS
  else if tag =? PMM_ZONE_TAG_BUFFER then MEMORY_ZONE_BUFFER
  else if tag =? PMM_ZONE_TAG_FREE then MEMORY_ZONE_FREE
  else MEMORY_ZONE_COUNT.

Definition pmm_zone_to_tag (zone : memory_zone_t) : Z :=
  match zone with
  | MEMORY_ZONE_KERNEL => PMM_ZONE_TAG_KERNEL
  | MEMORY_ZONE_SLAB => PMM_ZONE_TAG_SLAB
  | MEMORY_ZONE_PROCESS => PMM_ZONE_TAG_PROCESS
  | MEMORY_ZONE_BUFFER => PMM_ZONE_TAG_BUFFER
  | _ => PMM_ZONE_TAG_FREE
  end.

Definition pmm_zone_is_allocatable (zone : memory_zone_t) : bool :=
  bool_decide (zone = MEMORY_ZONE_KERNEL) || bool_decide (zone = MEMORY_ZONE_SLAB)
  || bool_decide (zone = MEMORY_ZONE_PROCESS) || bool_decide (zone = MEMORY_ZONE_BUFFER).

Definition tag_is_owned (tag : Z) : bool :=
  (PMM_ZONE_TAG_KERNEL <=? tag) && (tag <=? PMM_ZONE_TAG_BUFFER).

Definition pmm_page_is_owned (s : memory_t) (page : Z) : bool :=
  tag_is_owned (pmm_get_page_tag s page).

(** ** The in-use bitmap: the expressions [bitmap[p / 8] & (1U << (p % 8))],
    [|=] and [&= ~] of the source. *)

Definition bitmap_test (s : memory_t) (p : Z) : bool :=
  negb (load8 (phys s) (mi_bitmap (mem_info s) + p / 8) &w (1 <<w (p mod 8)) =? 0).
Definition bitmap_set (s : memory_t) (p : Z) : memory_t :=
  s <| phys ::= λ m, store8 m (mi_bitmap (mem_info s) + p / 8)
         (load8 m (mi_bitmap (mem_info s) + p / 8) |w (1 <<w (p mod 8))) |>.
Definition bitmap_clear (s : memory_t) (p : Z) : memory_t :=
  s <| phys ::= λ m, store8 m (mi_bitmap (mem_info s) + p / 8)
         (load8 m (mi_bitmap (mem_info s) + p / 8) &w
          u8 (Z.lnot (1 <<w (p mod 8)))) |>.

Definition pmm_page_is_free (s : memory_t) (page : Z) : bool :=
  negb (bitmap_test s page).

(** ** Reading the E820 map *)

Definition entry_base (e : mmap_entry_t) : Z :=
  Z.shiftl (base_high e) 32 |w base_low e.
Definition entry_length (e : mmap_entry_t) : Z :=
  Z.shiftl (length_high e) 32 |w length_low e.

Definition memory_initialize_page_zones (s : memory_t) : memory_t :=
  let heap_start_page := HEAP_START / PAGE_SIZE in
  let heap_end_page := (HEAP_START +w HEAP_SIZE) / PAGE_SIZE in
  let s := foldl (λ s page,
    let tag := if bitmap_test s page then PMM_ZONE_TAG_RESERVED_KERNEL
               else PMM_ZONE_TAG_FREE in
    pmm_set_page_tag s page tag) s (range 0 (mi_total_pages (mem_info s))) in
  let heap_end_page := if heap_end_page >? mi_total_pages (mem_info s)
    then mi_total_pages (mem_info s) else heap_end_page in
  foldl (λ s page, pmm_set_page_tag s page PMM_ZONE_TAG_RESERVED_HEAP) s
    (range heap_start_page heap_end_page).

Definition memory_range_is_usable (s : memory_t) (start end_ : Z) : bool :=
  existsb (λ e,
    let base := entry_base e in
    let range_end := u64 (base + entry_length e) in
    (range_end >=? base) && (mmap_type e =? 1) &&
    (base <=? start) && (range_end >=? end_)) (mi_mmap (mem_info s)).

(** The body of the loop of [memory_find_total]. *)
Definition find_total_entry (s : memory_t) (e : mmap_entry_t) : memory_t :=
  let base := entry_base e in
  let length := entry_length e in
  let end_ := u64 (base + length) in
  if negb (mmap_type e =? 1) || (base >? MAX_PHYSICAL_ADDRESS) || (end_ <=? base)
  then s
  else
    let end_ := if end_ >? MAX_PHYSICAL_ADDRESS then MAX_PHYSICAL_ADDRESS else end_ in
    let end_ := end_ &w u64 (Z.lnot (PAGE_SIZE - 1)) in
    if end_ >? mi_total_memory (mem_info s)
    then s <| mem_info ::= set mi_total_memory (λ _, u32 end_) |>
    else s.

Definition memory_find_total (s : memory_t) : memory_t :=
  let s := s <| mem_info ::= set mi_total_memory (λ _, 0) |> in
  foldl find_total_entry s (mi_mmap (mem_info s)).

(** The body of the loop of [memory_mark_usable]. *)
Definition mark_usable_entry (s : memory_t) (e : mmap_entry_t) : memory_t :=
  if negb (mmap_type e =? 1) then s else
  let base := entry_base e in
  let length := entry_length e in
  let end_ := u64 (base + length) in
  if (base >? MAX_PHYSICAL_ADDRESS) || (end_ <=? base) then s else
  let end_ := if end_ >? MAX_PHYSICAL_ADDRESS then MAX_PHYSICAL_ADDRESS else end_ in
  let base := u64 (base + PAGE_SIZE - 1) &w u64 (Z.lnot (PAGE_SIZE - 1)) in
  let end_ := end_ &w u64 (Z.lnot (PAGE_SIZE - 1)) in
  if end_ <=? base then s else
  let start_page := u32 (base / PAGE_SIZE) in
  let end_page := u32 (end_ / PAGE_SIZE) in
  let end_page := if end_page >? mi_total_pages (mem_info s)
    then mi_total_pages (mem_info s) else end_page in
  foldl bitmap_clear s (range start_page end_page).

Definition memory_mark_usable (s : memory_t) : memory_t :=
  foldl mark_usable_entry s (mi_mmap (mem_info s)).

Definition memory_reserve_range (s : memory_t) (start end_ : Z) : memory_t :=
  let start_page := start / PAGE_SIZE in
  let aligned_end := align_up end_ PAGE_SIZE in
  if (aligned_end =? 0) || (end_ <=? start) then s else
  let end_page := aligned_end / PAGE_SIZE in
  let end_page := if end_page >? mi_total_pages (mem_info s)
    then mi_total_pages (mem_info s) else end_page in
  foldl bitmap_set s (range start_page end_page).

Definition memory_recount (s : memory_t) : memory_t :=
  let s := s <| mem_info ::= set mi_free_pages (λ _, 0) |> in
  let s := foldl (λ s p,
    if negb (bitmap_test s p)
    then s <| mem_info ::= set mi_free_pages (λ n, n +w 1) |> else s)
    s (range 0 (mi_total_pages (mem_info s))) in
  let s := s <| mem_info ::= set mi_free_memory
                  (λ _, mi_free_pages (mem_info s) *w PAGE_SIZE) |> in
  s <| mem_info ::= set mi_used_memory
         (λ _, mi_total_memory (mem_info s) -w mi_free_memory (mem_info s)) |>.

Definition heap_reset (s : memory_t) : memory_t := s <| heap_base := 0 |>.

(** The halts of [memory_init]: [panic_memory] does not return. *)
Inductive memory_panic :=
| PANIC_NO_MAP | PANIC_EMPTY_MAP | PANIC_BELOW_MINIMUM | PANIC_LAYOUT
| PANIC_BITMAPS | PANIC_NO_FREE_PAGE.

Definition memory_init (mmap_addr : Z) (entries : list mmap_entry_t)
    (s : memory_t) : memory_t * option memory_panic :=
  if mmap_addr =? 0 then (s, Some PANIC_NO_MAP) else
  let mmap_count := Z.of_nat (length entries) in
  let s := s <| mem_info := memory_info_zero |> in
  let s := s <| mem_info ::= set mi_mmap (λ _, entries) |> in
  let s := s <| mem_info ::= set mi_mmap_entries (λ _, mmap_count) |> in
  if mmap_count =? 0 then (s, Some PANIC_EMPTY_MAP) else
  let s := memory_find_total s in
  let s := s <| mem_info ::= set mi_total_pages
                  (λ _, mi_total_memory (mem_info s) / PAGE_SIZE) |> in
  if mi_total_memory (mem_info s) <? MIN_USABLE_MEMORY_END
  then (s, Some PANIC_BELOW_MINIMUM) else
  if negb (memory_range_is_usable s PMM_BITMAP_STORAGE_START KERNEL_STACK_TOP)
     || negb (memory_range_is_usable s KERNEL_START KERNEL_END)
     || negb (memory_range_is_usable s HEAP_START (HEAP_START +w HEAP_SIZE))
  then (s, Some PANIC_LAYOUT) else
  let s := s <| mem_info ::= set mi_bitmap_size
                  (λ _, align_up ((mi_total_pages (mem_info s) +w 7) / 8) PAGE_SIZE) |> in
  let zone_storage_size :=
    align_up (PMM_ZONE_STORAGE_BYTES (mi_total_pages (mem_info s))) PAGE_SIZE in
  if (mi_bitmap_size (mem_info s) =? 0) || (zone_storage_size =? 0)
     || (mi_bitmap_size (mem_info s) >? PMM_ZONE_STORAGE_CAPACITY)
     || (zone_storage_size >? PMM_ZONE_STORAGE_CAPACITY -w mi_bitmap_size (mem_info s))
  then (s, Some PANIC_BITMAPS) else
  let s := s <| mem_info ::= set mi_bitmap (λ _, PMM_BITMAP_STORAGE_START) |> in
  let s := s <| pmm_owner_bitmap := mi_bitmap (mem_info s) + mi_bitmap_size (mem_info s) |> in
  let s := s <| pmm_owner_bitmap_size := zone_storage_size |> in
  let s := s <| phys ::= λ m, kmemset m (mi_bitmap (mem_info s)) 0xFF
                               (mi_bitmap_size (mem_info s)) |> in
  let s := s <| phys ::= λ m, kmemset m (pmm_owner_bitmap s) 0
                               (pmm_owner_bitmap_size s) |> in
  let s := memory_mark_usable s in
  let s := memory_reserve_range s 0 PHYSICAL_IDENTITY_START in
  let s := memory_initialize_page_zones s in
  let s := memory_recount s in
  if mi_free_pages (mem_info s) =? 0 then (s, Some PANIC_NO_FREE_PAGE) else
  let s := s <| pmm_owned_pages := 0 |> <| pmm_allocation_failures := 0 |>
             <| pmm_invalid_frees := 0 |> <| heap_allocation_failures := 0 |>
             <| heap_invalid_frees := 0 |> <| heap_double_frees := 0 |> in
  (heap_reset s, None).

Definition pmm_is_ready (s : memory_t) : bool :=
  negb (mi_bitmap (mem_info s) =? 0) && negb (pmm_owner_bitmap s =? 0)
  && negb (pmm_owner_bitmap_size s =? 0).

(** ** Allocation and release *)

Definition pmm_claim_pages (s : memory_t) (first_page count tag : Z) : memory_t :=
  let s := foldl (λ s i,
    let page := first_page +w i in
    pmm_set_page_tag (bitmap_set s page) page tag) s (range 0 count) in
  let s := s <| pmm_owned_pages ::= λ n, n +w count |> in
  let s := s <| mem_info ::= set mi_free_pages (λ n, n -w count) |> in
  let s := s <| mem_info ::= set mi_used_memory (λ n, n +w (count *w PAGE_SIZE)) |> in
  s <| mem_info ::= set mi_free_memory (λ n, n -w (count *w PAGE_SIZE)) |>.

Definition count_invalid_free (s : memory_t) : memory_t :=
  s <| pmm_invalid_frees ::= λ n, n +w 1 |>.

Definition pmm_validate_release (s : memory_t) (addr count : Z) : memory_t * bool :=
  if negb (pmm_is_ready s) then (count_invalid_free s, false) else
  if (addr =? 0) || (count =? 0) then (count_invalid_free s, false) else
  if negb (addr &w (PAGE_SIZE - 1) =? 0) then (count_invalid_free s, false) else
  let first_page := addr / PAGE_SIZE in
  if (first_page >=? mi_total_pages (mem_info s))
     || (count >? mi_total_pages (mem_info s) -w first_page)
  then (count_invalid_free s, false) else
  if all_range 0 count (λ i, pmm_page_is_owned s (first_page +w i)
                             && negb (pmm_page_is_free s (first_page +w i)))
  then (s, true) else (count_invalid_free s, false).

Definition pmm_release_pages (s : memory_t) (first_page count : Z) : memory_t :=
  let s := foldl (λ s i,
    let page := first_page +w i in
    pmm_set_page_tag (bitmap_clear s page) page PMM_ZONE_TAG_FREE) s (range 0 count) in
  let s := s <| pmm_owned_pages ::= λ n, n -w count |> in
  let s := s <| mem_info ::= set mi_free_pages (λ n, n +w count) |> in
  let s := s <| mem_info ::= set mi_used_memory (λ n, n -w (count *w PAGE_SIZE)) |> in
  s <| mem_info ::= set mi_free_memory (λ n, n +w (count *w PAGE_SIZE)) |>.

(** The double loop of [pmm_alloc_pages_in_zone]: the first index whose
    [count] pages are all free. *)
Definition pmm_find_run (s : memory_t) (count : Z) : option Z :=
  List.find (λ i, all_range 0 count (λ j, pmm_page_is_free s (i +w j)))
    (range 0 (mi_total_pages (mem_info s) -w count + 1)).

Definition count_allocation_failure (s : memory_t) : memory_t :=
  s <| pmm_allocation_failures ::= λ n, n +w 1 |>.

(** Returns the address of the first page, 0 for null. *)
Definition pmm_alloc_pages_in_zone (s : memory_t) (count : Z) (zone : memory_zone_t)
    : memory_t * Z :=
  if negb (pmm_is_ready s) then (count_allocation_failure s, 0) else
  if negb (pmm_zone_is_allocatable zone) then (count_allocation_failure s, 0) else
  if (count =? 0) || (count >? mi_total_pages (mem_info s))
  then (count_allocation_failure s, 0) else
  match pmm_find_run s count with
  | Some i => (pmm_claim_pages s i count (pmm_zone_to_tag zone), i *w PAGE_SIZE)
  | None => (count_allocation_failure s, 0)
  end.

Definition pmm_alloc_page_in_zone (s : memory_t) (zone : memory_zone_t) :=
  pmm_alloc_pages_in_zone s 1 zone.
Definition pmm_alloc_page (s : memory_t) := pmm_alloc_page_in_zone s MEMORY_ZONE_KERNEL.
Definition pmm_alloc_pages (s : memory_t) (count : Z) :=
  pmm_alloc_pages_in_zone s count MEMORY_ZONE_KERNEL.

Definition pmm_free_pages (s : memory_t) (addr count : Z) : memory_t :=
  let '(s, valid) := pmm_validate_release s addr count in
  if valid then pmm_release_pages s (addr / PAGE_SIZE) count else s.
Definition pmm_free_page (s : memory_t) (addr : Z) : memory_t :=
  let '(s, valid) := pmm_validate_release s addr 1 in
  if valid then pmm_release_pages s (addr / PAGE_SIZE) 1 else s.

(** ** Detailed statistics: the consistency check of the two arrays *)

Record memory_detailed_stats_t := DetailedStats {
  ds_total_pages : Z; ds_zone_pages : list Z; ds_free_runs : Z;
  ds_largest_free_run : Z; ds_isolated_free_pages : Z;
  ds_fragmentation_percent : Z; ds_initialized : Z; ds_valid : Z
}.
#[export] Instance detailed_stats_eta : Eta memory_detailed_stats_t := λ r,
  DetailedStats (ds_total_pages r) (ds_zone_pages r) (ds_free_runs r)
    (ds_largest_free_run r) (ds_isolated_free_pages r)
    (ds_fragmentation_percent r) (ds_initialized r) (ds_valid r).

Definition detailed_stats_zero : memory_detailed_stats_t :=
  DetailedStats 0 [0; 0; 0; 0; 0; 0] 0 0 0 0 0 0.

(** The integer value of a zone. *)
Definition zone_index (zone : memory_zone_t) : nat :=
  match zone with
  | MEMORY_ZONE_KERNEL => 0 | MEMORY_ZONE_HEAP => 1 | MEMORY_ZONE_SLAB => 2
  | MEMORY_ZONE_PROCESS => 3 | MEMORY_ZONE_BUFFER => 4 | MEMORY_ZONE_FREE => 5
  | MEMORY_ZONE_COUNT => 6
  end.

Definition memory_record_free_run (stats : memory_detailed_stats_t) (run_length : Z) :=
  if run_length =? 0 then stats else
  let stats := stats <| ds_free_runs ::= λ n, n +w 1 |> in
  let stats := if run_length =? 1
    then stats <| ds_isolated_free_pages ::= λ n, n +w 1 |> else stats in
  if run_length >? ds_largest_free_run stats
  then stats <| ds_largest_free_run := run_length |> else stats.

(** The page loop; [None] is the early return on inconsistent ownership. *)
Fixpoint detailed_loop (s : memory_t) (pages : list Z)
    (stats : memory_detailed_stats_t) (free_run dynamic_pages : Z)
    : memory_detailed_stats_t * option (Z * Z) :=
  match pages with
  | [] => (stats, Some (free_run, dynamic_pages))
  | page :: pages =>
      let tag := pmm_get_page_tag s page in
      let zone := pmm_tag_to_zone tag in
      let free_page := pmm_page_is_free s page in
      if bool_decide (zone = MEMORY_ZONE_COUNT)
         || (free_page && negb (bool_decide (zone = MEMORY_ZONE_FREE)))
         || (negb free_page && bool_decide (zone = MEMORY_ZONE_FREE))
      then (stats, None) else
      let stats := stats <| ds_zone_pages ::= alter (λ n, n +w 1) (zone_index zone) |> in
      let dynamic_pages := if tag_is_owned tag then dynamic_pages +w 1 else dynamic_pages in
      if free_page then detailed_loop s pages stats (free_run +w 1) dynamic_pages
      else detailed_loop s pages (memory_record_free_run stats free_run) 0 dynamic_pages
  end.

Definition memory_get_detailed_stats (s : memory_t)
    : memory_detailed_stats_t * status :=
  let stats := detailed_stats_zero in
  let stats := stats <| ds_initialized := if pmm_is_ready s then 1 else 0 |> in
  if ds_initialized stats =? 0 then (stats, ERR_STATE) else
  let stats := stats <| ds_total_pages := mi_total_pages (mem_info s) |> in
  match detailed_loop s (range 0 (mi_total_pages (mem_info s))) stats 0 0 with
  | (stats, None) => (stats, ERR_STATE)
  | (stats, Some (free_run, dynamic_pages)) =>
      let stats := memory_record_free_run stats free_run in
      let zone_sum := foldl (λ a n, a +w n) 0 (ds_zone_pages stats) in
      let zone_free := nth (zone_index MEMORY_ZONE_FREE) (ds_zone_pages stats) 0 in
      if negb (zone_free =? mi_free_pages (mem_info s))
         || negb (dynamic_pages =? pmm_owned_pages s)
         || negb (zone_sum =? ds_total_pages stats)
      then (stats, ERR_STATE) else
      let stats := if negb (zone_free =? 0)
        then stats <| ds_fragmentation_percent :=
               ((zone_free -w ds_largest_free_run stats) *w 100) / zone_free |>
        else stats in
      (stats <| ds_valid := 1 |>, OK)
  end.

Definition memory_get_total (s : memory_t) : Z := mi_total_memory (mem_info s).
Definition memory_get_free (s : memory_t) : Z := mi_free_memory (mem_info s).
Definition memory_get_used (s : memory_t) : Z := mi_used_memory (mem_info s).
Definition memory_get_total_pages (s : memory_t) : Z := mi_total_pages (mem_info s).
Definition memory_get_free_pages (s : memory_t) : Z := mi_free_pages (mem_info s).
Definition memory_get_mmap_entries (s : memory_t) : Z := mi_mmap_entries (mem_info s).

Record memory_pmm_stats_t := PmmStats {
  ps_owned_pages : Z; ps_allocation_failures : Z; ps_invalid_frees : Z; ps_initialized : Z
}.

Definition memory_get_pmm_stats (s : memory_t) : memory_pmm_stats_t :=
  PmmStats (pmm_owned_pages s) (pmm_allocation_failures s) (pmm_invalid_frees s)
    (if pmm_is_ready s then 1 else 0).

(** ** Bit-level lemmas *)

(** Bit [i] of a little-endian bit array at address [base]. *)
Definition bit_at (m : mem) (base i : Z) : bool :=
  Z.testbit (load8 m (base + i / 8)) (i mod 8).

Lemma get_page_tag_testbit s page k :
  0 ≤ page → page * 3 + 3 < 2 ^ 32 → 0 ≤ k < 3 →
  Z.testbit (pmm_get_page_tag s page) k
  = bit_at (phys s) (pmm_owner_bitmap s) (page * 3 + k).
Proof.
  intros. unfold pmm_get_page_tag, bit_at, PMM_ZONE_TAG_BITS, PMM_ZONE_TAG_MASK.
  rewrite (u32_small (page * 3)) by lia.
  set (q := page * 3 / 8). set (sh := page * 3 mod 8).
  assert (page * 3 = 8 * q + sh ∧ 0 ≤ sh < 8) as [Hq Hsh] by (subst q sh; divlia).
  rewrite (u32_small (q + 1)) by lia.
  set (b0 := load8 (phys s) (pmm_owner_bitmap s + q)).
  set (b1 := load8 (phys s) (pmm_owner_bitmap s + (q + 1))).
  assert (Hb0 : 0 ≤ b0 < 2 ^ 8) by apply load8_range.
  change 7 with (Z.ones 3). autorewrite with zbits.
  replace (k <? 8) with true by lia. replace (k <? 3) with true by lia.
  rewrite andb_true_l, andb_true_r.
  destruct (Z.gtb_spec sh 5); [destruct (Z.ltb_spec (k + sh) 8)|].
  1,3: replace ((page * 3 + k) / 8) with q by divlia;
       replace ((page * 3 + k) mod 8) with (k + sh) by divlia; fold b0.
  - autorewrite with zbits. rewrite (Z.testbit_neg_r b1) by lia. btauto.
  - done.
  - replace ((page * 3 + k) / 8) with (q + 1) by divlia.
    replace ((page * 3 + k) mod 8) with (k + sh - 8) by divlia. fold b1.
    autorewrite with zbits. rewrite (testbit_high 8 b0) by lia.
    replace (k + sh <? 16) with true by lia. done.
Qed.

Lemma get_page_tag_range s page : 0 ≤ pmm_get_page_tag s page < 8.
Proof.
  unfold pmm_get_page_tag, PMM_ZONE_TAG_MASK. cbv zeta. change 7 with (Z.ones 3).
  match goal with |- context [Z.land ?x _] => generalize x end. intros x.
  rewrite Z.land_ones by lia. pose proof (Z.mod_pos_bound x (2 ^ 3)).
  rewrite u8_small by lia. lia.
Qed.

(** Two tags with the same three bits are equal. *)
Lemma page_tag_ext s s' page page' :
  (∀ k, 0 ≤ k < 3 → Z.testbit (pmm_get_page_tag s page) k
                    = Z.testbit (pmm_get_page_tag s' page') k) →
  pmm_get_page_tag s page = pmm_get_page_tag s' page'.
Proof.
  intros H. apply Z.bits_inj_iff'. intros i Hi.
  destruct (Z.ltb_spec i 3); [by apply H|].
  rewrite !(testbit_high 3) by (try apply get_page_tag_range; lia). done.
Qed.

(** The bits of the 16-bit window that [pmm_set_page_tag] writes back. *)
Lemma tag_window_testbit value tag sh i :
  0 ≤ sh < 8 → 0 ≤ i < 16 →
  Z.testbit (u16 ((value &w Z.lnot (u16 (Z.shiftl 7 sh))) |w
                  Z.shiftl (tag &w 7) sh)) i
  = if (sh <=? i) && (i <? sh + 3) then Z.testbit tag (i - sh) else Z.testbit value i.
Proof.
  intros. change 7 with (Z.ones 3). autorewrite with zbits.
  replace (i <? 16) with true by lia.
  destruct (Z.leb_spec sh i); simpl.
  - rewrite Z.testbit_ones_nonneg by lia.
    destruct (Z.ltb_spec (i - sh) 3), (Z.ltb_spec i (sh + 3)); try lia; simpl; btauto.
  - rewrite !(Z.testbit_neg_r _ (i - sh)) by lia. simpl. btauto.
Qed.

Lemma set_page_tag_bit s page tag i :
  0 ≤ page → page * 3 + 3 < 2 ^ 32 → 0 ≤ i →
  bit_at (phys (pmm_set_page_tag s page tag)) (pmm_owner_bitmap s) i
  = if (page * 3 <=? i) && (i <? page * 3 + 3) then Z.testbit tag (i - page * 3)
    else bit_at (phys s) (pmm_owner_bitmap s) i.
Proof.
  intros. unfold pmm_set_page_tag, bit_at, PMM_ZONE_TAG_BITS, PMM_ZONE_TAG_MASK.
  rewrite (u32_small (page * 3)) by lia.
  set (q := page * 3 / 8). set (sh := page * 3 mod 8).
  assert (page * 3 = 8 * q + sh ∧ 0 ≤ sh < 8) as [Hq Hsh] by (subst q sh; divlia).
  rewrite (u32_small (q + 1)) by lia. cbv zeta.
  set (b0 := load8 (phys s) (pmm_owner_bitmap s + q)).
  set (b1 := load8 (phys s) (pmm_owner_bitmap s + (q + 1))).
  assert (Hb0 : 0 ≤ b0 < 2 ^ 8) by apply load8_range.
  set (qi := i / 8). set (ri := i mod 8).
  assert (i = 8 * qi + ri ∧ 0 ≤ ri < 8) as [Hqi Hri] by (subst qi ri; divlia).
  destruct (Z.gtb_spec sh 5); simpl; unfold set; simpl; rewrite !load8_store8.
  - destruct (decide (pmm_owner_bitmap s + (q + 1) = pmm_owner_bitmap s + qi)).
    + rewrite !u8_testbit, Z.shiftr_spec, tag_window_testbit by lia.
      replace ((page * 3 <=? i) && (i <? page * 3 + 3))
        with ((sh <=? ri + 8) && (ri + 8 <? sh + 3)) by lia.
      replace (ri <? 8) with true by lia. simpl andb.
      replace (i - page * 3) with (ri + 8 - sh) by lia.
      destruct (_ && _); [done|]. autorewrite with zbits.
      rewrite (testbit_high 8 b0) by lia. replace (ri + 8 <? 16) with true by lia.
      replace (ri + 8 - 8) with ri by lia. simpl.
      by replace qi with (q + 1) by lia.
    + destruct (decide (pmm_owner_bitmap s + q = pmm_owner_bitmap s + qi)).
      * rewrite !u8_testbit, tag_window_testbit by lia.
        replace ((page * 3 <=? i) && (i <? page * 3 + 3))
          with ((sh <=? ri) && (ri <? sh + 3)) by lia.
        replace (ri <? 8) with true by lia. simpl andb.
        replace (i - page * 3) with (ri - sh) by lia.
        destruct (_ && _); [done|]. autorewrite with zbits.
        rewrite (Z.testbit_neg_r b1) by lia. rewrite andb_false_r, orb_false_r.
        by replace qi with q by lia.
      * replace ((page * 3 <=? i) && (i <? page * 3 + 3)) with false by lia. done.
  - destruct (decide (pmm_owner_bitmap s + q = pmm_owner_bitmap s + qi)).
    + rewrite !u8_testbit, tag_window_testbit by lia.
      replace ((page * 3 <=? i) && (i <? page * 3 + 3))
        with ((sh <=? ri) && (ri <? sh + 3)) by lia.
      replace (ri <? 8) with true by lia. simpl andb.
      replace (i - page * 3) with (ri - sh) by lia.
      destruct (_ && _); [done|]. by replace qi with q by lia.
    + replace ((page * 3 <=? i) && (i <? page * 3 + 3)) with false by lia. done.
Qed.

(** ** Pages as the two arrays record them *)

(** Where the two arrays are, after initialisation. *)
Record pmm_layout (s : memory_t) : Prop := {
  pl_bitmap : mi_bitmap (mem_info s) = PMM_BITMAP_STORAGE_START;
  pl_pages : 0 ≤ mi_total_pages (mem_info s) ≤ 131072;
  pl_bitmap_fits : mi_total_pages (mem_info s) ≤ 8 * mi_bitmap_size (mem_info s);
  pl_owner : pmm_owner_bitmap s = mi_bitmap (mem_info s) + mi_bitmap_size (mem_info s);
  pl_owner_fits : mi_total_pages (mem_info s) * 3 ≤ 8 * pmm_owner_bitmap_size s;
  pl_end : pmm_owner_bitmap s + pmm_owner_bitmap_size s ≤ PMM_BITMAP_STORAGE_END
}.

(** [s'] differs from [s] at most in the bytes of the two arrays. *)
Record pmm_touch (s s' : memory_t) : Prop := {
  pt_fields : s' = s <| phys := phys s' |>;
  pt_frame : ∀ a, a < PMM_BITMAP_STORAGE_START ∨ PMM_BITMAP_STORAGE_END ≤ a →
    load8 (phys s') a = load8 (phys s) a
}.

#[export] Instance pmm_touch_preorder : PreOrder pmm_touch.
Proof.
  split.
  - intros s. split; [by destruct s|done].
  - intros s1 s2 s3 [E12 F12] [E23 F23]. split.
    + rewrite E23, E12. by destruct s1.
    + intros. by rewrite F23, F12.
Qed.

Lemma pmm_touch_total_pages s s' :
  pmm_touch s s' → mi_total_pages (mem_info s') = mi_total_pages (mem_info s).
Proof. intros [E _]. by rewrite E. Qed.
Lemma pmm_touch_layout s s' : pmm_touch s s' → pmm_layout s → pmm_layout s'.
Proof. intros [E _] []. rewrite E. by split. Qed.

Create HintDb pmm.
#[export] Hint Resolve pmm_touch_layout pmm_touch_total_pages : pmm.

Lemma bitmap_test_bit s p :
  0 ≤ p → bitmap_test s p = bit_at (phys s) (mi_bitmap (mem_info s)) p.
Proof.
  intros. unfold bitmap_test, bit_at.
  rewrite one_shl, land_pow2_test by divlia. done.
Qed.

Lemma bitmap_set_bit s p i :
  0 ≤ p → 0 ≤ i →
  bit_at (phys (bitmap_set s p)) (mi_bitmap (mem_info s)) i
  = (i =? p) || bit_at (phys s) (mi_bitmap (mem_info s)) i.
Proof.
  intros. unfold bitmap_set, bit_at, set. simpl. rewrite load8_store8, one_shl by divlia.
  destruct (decide _) as [E|E].
  - replace (i / 8) with (p / 8) by lia.
    rewrite u8_testbit, Z.lor_spec, Z.pow2_bits_eqb by divlia.
    replace (i mod 8 <? 8) with true by divlia.
    replace (p mod 8 =? i mod 8) with (i =? p) by divlia. simpl. apply orb_comm.
  - replace (i =? p) with false; [done|]. symmetry. apply Z.eqb_neq. congruence.
Qed.

Lemma bitmap_clear_bit s p i :
  0 ≤ p → 0 ≤ i →
  bit_at (phys (bitmap_clear s p)) (mi_bitmap (mem_info s)) i
  = negb (i =? p) && bit_at (phys s) (mi_bitmap (mem_info s)) i.
Proof.
  intros. unfold bitmap_clear, bit_at, set. simpl. rewrite load8_store8, one_shl by divlia.
  destruct (decide _) as [E|E].
  - replace (i / 8) with (p / 8) by lia.
    assert (0 ≤ i mod 8 < 8) by divlia.
    rewrite u8_testbit, Z.land_spec, u8_testbit, Z.lnot_spec, Z.pow2_bits_eqb by divlia.
    replace (i mod 8 <? 8) with true by lia.
    replace (p mod 8 =? i mod 8) with (i =? p) by divlia. simpl. apply andb_comm.
  - replace (i =? p) with false; [done|]. symmetry. apply Z.eqb_neq. congruence.
Qed.

(** Bytes written by one step. *)
Lemma set_page_tag_frame s page tag a :
  0 ≤ page → page * 3 + 3 < 2 ^ 32 →
  a < pmm_owner_bitmap s + page * 3 / 8 ∨ pmm_owner_bitmap s + (page * 3 + 2) / 8 < a →
  load8 (phys (pmm_set_page_tag s page tag)) a = load8 (phys s) a.
Proof.
  intros. unfold pmm_set_page_tag, PMM_ZONE_TAG_BITS, set.
  rewrite (u32_small (page * 3)) by lia. simpl.
  destruct (Z.gtb_spec (page * 3 mod 8) 5); simpl.
  - rewrite (u32_small (page * 3 / 8 + 1)) by divlia.
    rewrite !load8_store8_ne by divlia. done.
  - rewrite load8_store8_ne by divlia. done.
Qed.

Lemma bit_at_frame m m' base i :
  load8 m (base + i / 8) = load8 m' (base + i / 8) → bit_at m base i = bit_at m' base i.
Proof. unfold bit_at. by intros ->. Qed.

Lemma pmm_set_page_tag_fields s p tag :
  pmm_owner_bitmap (pmm_set_page_tag s p tag) = pmm_owner_bitmap s
  ∧ mem_info (pmm_set_page_tag s p tag) = mem_info s.
Proof. unfold pmm_set_page_tag. destruct s. by destruct (_ >? _). Qed.

Section page_steps.
Context (s : memory_t) (L : pmm_layout s) (p : Z).
Hypothesis Hp : 0 ≤ p < mi_total_pages (mem_info s).

Lemma set_page_tag_touch tag : pmm_touch s (pmm_set_page_tag s p tag).
Proof.
  destruct L as [L1 L2 L3 L4 L5 L6]. split.
  - unfold pmm_set_page_tag. destruct s. by destruct (_ >? _).
  - intros. apply set_page_tag_frame; unfold PMM_BITMAP_STORAGE_START in *; divlia.
Qed.

Lemma bitmap_set_touch : pmm_touch s (bitmap_set s p).
Proof.
  destruct L as [L1 L2 L3 L4 L5 L6]. split; [by destruct s|].
  intros. unfold bitmap_set, set; simpl. apply load8_store8_ne. divlia.
Qed.

Lemma bitmap_clear_touch : pmm_touch s (bitmap_clear s p).
Proof.
  destruct L as [L1 L2 L3 L4 L5 L6]. split; [by destruct s|].
  intros. unfold bitmap_clear, set; simpl. apply load8_store8_ne. divlia.
Qed.

Context (q : Z).
Hypothesis Hq : 0 ≤ q < mi_total_pages (mem_info s).

Lemma tag_set_page_tag tag :
  pmm_get_page_tag (pmm_set_page_tag s p tag) q
  = if q =? p then tag &w 7 else pmm_get_page_tag s q.
Proof.
  destruct L as [L1 L2 L3 L4 L5 L6].
  destruct (pmm_set_page_tag_fields s p tag) as [EO _].
  apply Z.bits_inj_iff'. intros i Hi. destruct (Z.ltb_spec i 3).
  - rewrite get_page_tag_testbit, EO, set_page_tag_bit by lia.
    destruct (Z.eqb_spec q p) as [->|].
    + replace ((p * 3 <=? p * 3 + i) && (p * 3 + i <? p * 3 + 3)) with true by lia.
      change 7 with (Z.ones 3). rewrite land_ones_testbit by lia.
      replace (i <? 3) with true by lia. rewrite andb_true_l. f_equal. lia.
    + replace ((p * 3 <=? q * 3 + i) && (q * 3 + i <? p * 3 + 3)) with false by lia.
      rewrite get_page_tag_testbit by lia. done.
  - rewrite (testbit_high 3) by (try apply get_page_tag_range; lia).
    destruct (Z.eqb_spec q p).
    + change 7 with (Z.ones 3). rewrite land_ones_testbit by lia.
      replace (i <? 3) with false by lia. done.
    + rewrite (testbit_high 3) by (try apply get_page_tag_range; lia). done.
Qed.

Lemma free_set_page_tag tag :
  pmm_page_is_free (pmm_set_page_tag s p tag) q = pmm_page_is_free s q.
Proof.
  destruct L as [L1 L2 L3 L4 L5 L6].
  destruct (pmm_set_page_tag_fields s p tag) as [_ EM].
  unfold pmm_page_is_free. rewrite !bitmap_test_bit, EM by lia. f_equal.
  apply bit_at_frame, set_page_tag_frame; divlia.
Qed.

Lemma free_bitmap_set :
  pmm_page_is_free (bitmap_set s p) q = negb (q =? p) && pmm_page_is_free s q.
Proof.
  unfold pmm_page_is_free. rewrite !bitmap_test_bit by lia.
  change (mem_info (bitmap_set s p)) with (mem_info s).
  rewrite bitmap_set_bit by lia. apply negb_orb.
Qed.

Lemma free_bitmap_clear :
  pmm_page_is_free (bitmap_clear s p) q = (q =? p) || pmm_page_is_free s q.
Proof.
  unfold pmm_page_is_free. rewrite !bitmap_test_bit by lia.
  change (mem_info (bitmap_clear s p)) with (mem_info s).
  rewrite bitmap_clear_bit, negb_andb, negb_involutive by lia. done.
Qed.

Lemma tag_bitmap_write s' :
  s' = bitmap_set s p ∨ s' = bitmap_clear s p →
  pmm_get_page_tag s' q = pmm_get_page_tag s q.
Proof.
  destruct L as [L1 L2 L3 L4 L5 L6]. intros Hs'. apply page_tag_ext. intros k Hk.
  rewrite !get_page_tag_testbit by lia.
  replace (pmm_owner_bitmap s') with (pmm_owner_bitmap s) by (by destruct Hs' as [->| ->]).
  apply bit_at_frame.
  destruct Hs' as [->| ->]; unfold bitmap_set, bitmap_clear, set; simpl;
    apply load8_store8_ne; divlia.
Qed.
End page_steps.

(** ** Claiming and releasing a run of pages *)

Definition in_run (first count q : Z) : bool := (first <=? q) && (q <? first + count).

(** The effect of the loops on every page. *)
Record pages_updated (s s' : memory_t) (first count : Z) (free : bool) (tag : Z) : Prop := {
  pu_touch : pmm_touch s s';
  pu_free : ∀ q, 0 ≤ q < mi_total_pages (mem_info s) →
    pmm_page_is_free s' q = if in_run first count q then free else pmm_page_is_free s q;
  pu_tag : ∀ q, 0 ≤ q < mi_total_pages (mem_info s) →
    pmm_get_page_tag s' q = if in_run first count q then tag else pmm_get_page_tag s q
}.

Lemma pages_updated_nil s first free tag : pages_updated s s first 0 free tag.
Proof.
  split; [done|..]; intros; unfold in_run;
    replace ((first <=? q) && (q <? first + 0)) with false by lia; done.
Qed.

(** One more page: [s''] is [s'] with the bit of page [first + i] written, and
    then its tag. *)
Lemma pages_updated_snoc s s' s'' first i free tag :
  pmm_layout s → 0 ≤ first → 0 ≤ i → first + i < mi_total_pages (mem_info s) →
  pages_updated s s' first i free (tag &w 7) →
  s'' = (if free then bitmap_clear s' (first + i) else bitmap_set s' (first + i)) →
  pages_updated s (pmm_set_page_tag s'' (first + i) tag) first (i + 1) free (tag &w 7).
Proof.
  intros L Hf Hi Hlt [Ht Hfr Htg] ->.
  pose proof (pmm_touch_layout _ _ Ht L) as L'.
  pose proof (pmm_touch_total_pages _ _ Ht) as E.
  set (p := first + i) in *. assert (Hp : 0 ≤ p < mi_total_pages (mem_info s')) by lia.
  set (s'' := if free then _ else _).
  assert (Ht' : pmm_touch s' s'').
  { subst s''. destruct free; auto using bitmap_clear_touch, bitmap_set_touch. }
  pose proof (pmm_touch_layout _ _ Ht' L') as L''.
  pose proof (pmm_touch_total_pages _ _ Ht') as E'.
  assert (Hin : ∀ q, in_run first (i + 1) q = (q =? p) || in_run first i q)
    by (intros; unfold in_run; subst p; lia).
  split.
  - etransitivity; [done|]. etransitivity; [done|]. apply set_page_tag_touch; [done|lia].
  - intros q Hq. rewrite free_set_page_tag by (try done; lia).
    transitivity (if q =? p then free else pmm_page_is_free s' q).
    + subst s''. destruct free.
      * rewrite free_bitmap_clear by lia. by destruct (q =? p).
      * rewrite free_bitmap_set by lia. by destruct (q =? p).
    + rewrite Hin. destruct (q =? p); [done|]. simpl. apply Hfr. lia.
  - intros q Hq. rewrite tag_set_page_tag by (try done; lia). rewrite Hin.
    destruct (q =? p); [done|]. simpl. rewrite <-Htg by lia.
    apply (tag_bitmap_write s' L' p Hp); [lia|]. subst s''. destruct free; auto.
Qed.

Lemma run_loop_updated s first count free tag :
  pmm_layout s → 0 ≤ first → 0 ≤ count → first + count ≤ mi_total_pages (mem_info s) →
  pages_updated s
    (foldl (λ s i, let page := first +w i in
       pmm_set_page_tag (if free : bool then bitmap_clear s page else bitmap_set s page)
         page tag) s (range 0 count)) first count free (tag &w 7).
Proof.
  intros L Hf Hc Hle. pose proof (pl_pages s L).
  apply (foldl_range_ind (λ i s', pages_updated s s' first i free (tag &w 7))); [lia|..].
  - apply pages_updated_nil.
  - intros i s' Hi IH. cbv zeta. rewrite u32_small by lia.
    by eapply pages_updated_snoc; [..|done|]; eauto with lia.
Qed.

(** Counters after the loops. *)
Lemma claim_pages_spec s first count tag :
  pmm_layout s → 0 ≤ first → 0 ≤ count → first + count ≤ mi_total_pages (mem_info s) →
  ∃ s1, pages_updated s s1 first count false (tag &w 7) ∧
    pmm_claim_pages s first count tag
    = s1 <| pmm_owned_pages ::= λ n, n +w count |>
         <| mem_info ::= λ i,
              i <| mi_free_pages ::= λ n, n -w count |>
                <| mi_used_memory ::= λ n, n +w (count *w PAGE_SIZE) |>
                <| mi_free_memory ::= λ n, n -w (count *w PAGE_SIZE) |> |>.
Proof.
  intros. pose proof (run_loop_updated s first count false tag) as Hr.
  eexists. split; [by apply Hr|]. done.
Qed.

Lemma release_pages_spec s first count :
  pmm_layout s → 0 ≤ first → 0 ≤ count → first + count ≤ mi_total_pages (mem_info s) →
  ∃ s1, pages_updated s s1 first count true 0 ∧
    pmm_release_pages s first count
    = s1 <| pmm_owned_pages ::= λ n, n -w count |>
         <| mem_info ::= λ i,
              i <| mi_free_pages ::= λ n, n +w count |>
                <| mi_used_memory ::= λ n, n -w (count *w PAGE_SIZE) |>
                <| mi_free_memory ::= λ n, n +w (count *w PAGE_SIZE) |> |>.
Proof.
  intros. pose proof (run_loop_updated s first count true 0) as Hr.
  eexists. split; [by apply Hr|]. done.
Qed.

(** ** The invariant *)

Definition FIRST_FREE_PAGE : Z := PHYSICAL_IDENTITY_START / PAGE_SIZE.

(** The bitmap, the tags and the counters agree; pages below
    [PHYSICAL_IDENTITY_START] (kernel, user window, heap) are reserved. *)
Record pmm_wf (s : memory_t) : Prop := {
  wf_layout : pmm_layout s;
  wf_min : MIN_USABLE_MEMORY_END / PAGE_SIZE ≤ mi_total_pages (mem_info s);
  wf_agree : ∀ p, 0 ≤ p < mi_total_pages (mem_info s) →
    pmm_page_is_free s p = (pmm_get_page_tag s p =? PMM_ZONE_TAG_FREE);
  wf_tags : ∀ p, 0 ≤ p < mi_total_pages (mem_info s) →
    pmm_tag_to_zone (pmm_get_page_tag s p) ≠ MEMORY_ZONE_COUNT;
  wf_reserved : ∀ p, 0 ≤ p < FIRST_FREE_PAGE →
    pmm_page_is_free s p = false ∧ pmm_page_is_owned s p = false;
  wf_free : mi_free_pages (mem_info s)
            = count_range 0 (mi_total_pages (mem_info s)) (pmm_page_is_free s);
  wf_owned : pmm_owned_pages s
             = count_range 0 (mi_total_pages (mem_info s)) (pmm_page_is_owned s);
  wf_total : mi_total_memory (mem_info s) = mi_total_pages (mem_info s) * PAGE_SIZE;
  wf_free_memory : mi_free_memory (mem_info s) = mi_free_pages (mem_info s) * PAGE_SIZE;
  wf_used_memory : mi_used_memory (mem_info s)
                   = mi_total_memory (mem_info s) - mi_free_memory (mem_info s)
}.

Lemma pmm_wf_ready s : pmm_wf s → pmm_is_ready s = true.
Proof.
  intros [[L1 L2 L3 L4 L5 L6] Hm _ _ _ _ _ _ _ _].
  unfold pmm_is_ready, MIN_USABLE_MEMORY_END, MIN_PHYSICAL_MEMORY,
    FIRMWARE_TOP_RESERVE, PAGE_SIZE, PMM_BITMAP_STORAGE_START in *.
  change ((0x02000000 - 0x00020000) / 4096) with 8160 in Hm. lia.
Qed.

Lemma tag_not_owned_of_free tag : (tag =? PMM_ZONE_TAG_FREE) = true → tag_is_owned tag = false.
Proof. unfold tag_is_owned, PMM_ZONE_TAG_FREE, PMM_ZONE_TAG_KERNEL. lia. Qed.

Section run_counts.
Context (s s' : memory_t) (first count : Z) (free : bool) (tag : Z).
Context (U : pages_updated s s' first count free tag).
Hypothesis Hf : 0 ≤ first.
Hypothesis Hc : 0 ≤ count.
Hypothesis Hle : first + count ≤ mi_total_pages (mem_info s).

Lemma run_count (p : memory_t → Z → bool) b b' :
  (∀ q, in_run first count q = true → p s q = b) →
  (∀ q, 0 ≤ q < mi_total_pages (mem_info s) →
     p s' q = if in_run first count q then b' else p s q) →
  count_range 0 (mi_total_pages (mem_info s)) (p s')
  = count_range 0 (mi_total_pages (mem_info s)) (p s)
    - (if b then count else 0) + (if b' then count else 0).
Proof.
  intros Hb Hb'. unfold in_run in *.
  rewrite (count_range_update 0 first (first + count) _ (p s) (p s')); [|lia|lia|].
  - rewrite (count_range_const first (first + count) (p s) b),
      (count_range_const first (first + count) (p s') b'); [|lia| |lia|].
    + destruct b, b'; lia.
    + intros i Hi. rewrite Hb' by lia. replace ((first <=? i) && (i <? first + count))
        with true by lia. done.
    + intros i Hi. apply Hb. lia.
  - intros i Hi Hni. rewrite Hb' by lia.
    replace ((first <=? i) && (i <? first + count)) with false by lia. done.
Qed.

Lemma run_count_free b :
  (∀ q, in_run first count q = true → pmm_page_is_free s q = b) →
  count_range 0 (mi_total_pages (mem_info s)) (pmm_page_is_free s')
  = count_range 0 (mi_total_pages (mem_info s)) (pmm_page_is_free s)
    - (if b then count else 0) + (if free then count else 0).
Proof. intros. apply run_count; [done|]. apply (pu_free _ _ _ _ _ _ U). Qed.

Lemma run_count_owned b :
  (∀ q, in_run first count q = true → pmm_page_is_owned s q = b) →
  count_range 0 (mi_total_pages (mem_info s)) (pmm_page_is_owned s')
  = count_range 0 (mi_total_pages (mem_info s)) (pmm_page_is_owned s)
    - (if b then count else 0) + (if tag_is_owned tag then count else 0).
Proof.
  intros. apply run_count; [done|]. intros q Hq. unfold pmm_page_is_owned.
  rewrite (pu_tag _ _ _ _ _ _ U) by done. by destruct (in_run _ _ _).
Qed.
End run_counts.

(** Two states with the same arrays; the counters may differ. *)
Record same_arrays (s s' : memory_t) : Prop := {
  sa_phys : phys s' = phys s;
  sa_bitmap : mi_bitmap (mem_info s') = mi_bitmap (mem_info s);
  sa_bitmap_size : mi_bitmap_size (mem_info s') = mi_bitmap_size (mem_info s);
  sa_pages : mi_total_pages (mem_info s') = mi_total_pages (mem_info s);
  sa_total : mi_total_memory (mem_info s') = mi_total_memory (mem_info s);
  sa_owner : pmm_owner_bitmap s' = pmm_owner_bitmap s;
  sa_owner_size : pmm_owner_bitmap_size s' = pmm_owner_bitmap_size s
}.

Lemma same_arrays_free s s' p :
  same_arrays s s' → pmm_page_is_free s' p = pmm_page_is_free s p.
Proof. intros []. unfold pmm_page_is_free, bitmap_test. congruence. Qed.
Lemma same_arrays_tag s s' p :
  same_arrays s s' → pmm_get_page_tag s' p = pmm_get_page_tag s p.
Proof.
  intros []. unfold pmm_get_page_tag. rewrite sa_phys0, sa_owner0. done.
Qed.
Lemma same_arrays_owned s s' p :
  same_arrays s s' → pmm_page_is_owned s' p = pmm_page_is_owned s p.
Proof. intros. unfold pmm_page_is_owned. by rewrite (same_arrays_tag s s'). Qed.
Lemma same_arrays_layout s s' : same_arrays s s' → pmm_layout s → pmm_layout s'.
Proof. intros [] []. split; congruence. Qed.
Lemma same_arrays_ready s s' : same_arrays s s' → pmm_is_ready s' = pmm_is_ready s.
Proof. intros []. unfold pmm_is_ready. congruence. Qed.

Lemma pmm_touch_fields s s' :
  pmm_touch s s' → mem_info s' = mem_info s ∧ pmm_owner_bitmap s' = pmm_owner_bitmap s
    ∧ pmm_owner_bitmap_size s' = pmm_owner_bitmap_size s.
Proof. intros [E _]. by rewrite E. Qed.

(** Changing a run of unreserved pages from one consistent kind to another
    preserves the invariant once the counters are adjusted. *)
Lemma run_update_wf s s1 s2 first count free tag :
  pmm_wf s → 0 ≤ first → 0 ≤ count → first + count ≤ mi_total_pages (mem_info s) →
  pages_updated s s1 first count free tag →
  (if free then tag = PMM_ZONE_TAG_FREE else tag_is_owned tag = true) →
  (∀ q, in_run first count q = true →
     if free then pmm_page_is_owned s q = true else pmm_page_is_free s q = true) →
  same_arrays s1 s2 →
  let d := if free then count else - count in
  pmm_owned_pages s2 = pmm_owned_pages s - d →
  mi_free_pages (mem_info s2) = mi_free_pages (mem_info s) + d →
  mi_used_memory (mem_info s2) = mi_used_memory (mem_info s) - d * PAGE_SIZE →
  mi_free_memory (mem_info s2) = mi_free_memory (mem_info s) + d * PAGE_SIZE →
  pmm_wf s2.
Proof.
  intros W Hf Hc Hle U Htag Hrun SA d Eo Ef Eu Em.
  pose proof (run_count_free _ _ _ _ _ _ U Hf Hc Hle) as CF.
  pose proof (run_count_owned _ _ _ _ _ _ U Hf Hc Hle) as CO.
  destruct U as [T UF UT]. pose proof (pmm_touch_fields _ _ T) as (EI & _ & _).
  destruct W as [L Hmin HA HT HR HFr HOw Htot Hfm Hum].
  assert (Hown : ∀ q, in_run first count q = true →
            pmm_page_is_owned s q = free ∧ pmm_page_is_free s q = negb free).
  { intros q Hq. specialize (Hrun q Hq). unfold in_run in Hq. rewrite HA by lia.
    unfold pmm_page_is_owned in *. destruct free; split; simpl; try done.
    - destruct (Z.eqb (pmm_get_page_tag s q) PMM_ZONE_TAG_FREE) eqn:E0; [|done].
      by rewrite tag_not_owned_of_free in Hrun.
    - rewrite HA in Hrun by lia. by apply tag_not_owned_of_free.
    - by rewrite HA in Hrun by lia. }
  specialize (CF (negb free) (λ q Hq, proj2 (Hown q Hq))).
  specialize (CO free (λ q Hq, proj1 (Hown q Hq))).
  assert (EP : mi_total_pages (mem_info s2) = mi_total_pages (mem_info s))
    by (rewrite (sa_pages _ _ SA); congruence).
  assert (ET : mi_total_memory (mem_info s2) = mi_total_memory (mem_info s))
    by (rewrite (sa_total _ _ SA); congruence).
  split; rewrite ?EP, ?ET; try lia.
  - eauto using same_arrays_layout, pmm_touch_layout.
  - intros p Hp. rewrite (same_arrays_free s1), (same_arrays_tag s1), UF, UT by done.
    destruct (in_run first count p); [|by apply HA]. destruct free; [by rewrite Htag|].
    symmetry. apply Z.eqb_neq. intros ->. done.
  - intros p Hp. rewrite (same_arrays_tag s1), UT by done.
    destruct (in_run first count p); [|by apply HT]. destruct free; [by rewrite Htag|].
    unfold tag_is_owned, PMM_ZONE_TAG_KERNEL, PMM_ZONE_TAG_BUFFER in Htag.
    assert (tag = 3 ∨ tag = 4 ∨ tag = 5 ∨ tag = 6) as [->|[->|[->| ->]]] by lia; done.
  - intros p Hp. specialize (HR p Hp) as [HR1 HR2].
    assert (Hin : 0 ≤ p < mi_total_pages (mem_info s)).
    { change FIRST_FREE_PAGE with 5120 in Hp.
      change (MIN_USABLE_MEMORY_END / PAGE_SIZE) with 8160 in Hmin. lia. }
    assert (Hni : in_run first count p = false).
    { destruct (in_run first count p) eqn:Ei; [|done].
      apply Hown in Ei as [? ?]. destruct free; simpl in *; congruence. }
    unfold pmm_page_is_owned in *.
    by rewrite (same_arrays_free s1), (same_arrays_tag s1), UF, UT, Hni by done.
  - rewrite (count_range_ext _ _ _ (pmm_page_is_free s1)), CF, Ef, HFr
      by (intros; by apply same_arrays_free). subst d. destruct free; simpl; lia.
  - rewrite (count_range_ext _ _ _ (pmm_page_is_owned s1)), CO, Eo, HOw
      by (intros; by apply same_arrays_owned). subst d.
    destruct free; [rewrite Htag|rewrite Htag]; simpl; lia.
Qed.

(** ** Allocation *)

(** [count] pages from [first] are inside RAM and free. *)
Definition free_run (s : memory_t) (first count : Z) : Prop :=
  0 ≤ first ∧ first + count ≤ mi_total_pages (mem_info s) ∧
  ∀ q, first ≤ q < first + count → pmm_page_is_free s q = true.

Lemma free_run_test s first count :
  0 ≤ first → 0 ≤ count → first + count ≤ mi_total_pages (mem_info s) → pmm_layout s →
  all_range 0 count (λ j, pmm_page_is_free s (first +w j)) = true ↔ free_run s first count.
Proof.
  intros Hf Hc Hle [_ Hp _ _ _ _]. rewrite all_range_spec. unfold free_run. split.
  - intros H. do 2 (split; [lia|]). intros q Hq. specialize (H (q - first)).
    rewrite u32_small in H by lia. replace (first + (q - first)) with q in H by lia.
    apply H. lia.
  - intros (_ & _ & H) j Hj. rewrite u32_small by lia. apply H. lia.
Qed.

Lemma find_run_spec s count :
  pmm_layout s → 0 < count ≤ mi_total_pages (mem_info s) →
  match pmm_find_run s count with
  | Some i => free_run s i count ∧ ∀ j, j < i → ¬ free_run s j count
  | None => ∀ j, ¬ free_run s j count
  end.
Proof.
  intros L Hc. unfold pmm_find_run. pose proof (pl_pages _ L).
  rewrite (u32_small (_ - count)) by lia.
  destruct (List.find _ _) eqn:E.
  - apply find_range_Some in E as (Hi & Ht & Hlt).
    split; [apply free_run_test in Ht; [done|lia|lia|lia|done]|].
    intros j Hj Hr. assert (0 ≤ j) by apply Hr. specialize (Hlt j).
    rewrite (proj2 (free_run_test s j count ltac:(lia) ltac:(lia) ltac:(lia) L) Hr) in Hlt.
    by discriminate Hlt; lia.
  - intros j Hr. pose proof Hr as (? & ? & _).
    pose proof (find_range_None _ _ _ E j ltac:(lia)) as Hlt. simpl in Hlt.
    rewrite (proj2 (free_run_test s j count ltac:(lia) ltac:(lia) ltac:(lia) L) Hr) in Hlt.
    done.
Qed.

Lemma free_run_unreserved s first count :
  pmm_wf s → 0 < count → free_run s first count → FIRST_FREE_PAGE ≤ first.
Proof.
  intros W Hc (H0 & _ & Hr). destruct (decide (first < FIRST_FREE_PAGE)); [|lia].
  destruct (wf_reserved _ W first) as [E _]; [lia|].
  rewrite Hr in E by lia. done.
Qed.

Lemma allocatable_tag zone :
  pmm_zone_is_allocatable zone = true →
  tag_is_owned (pmm_zone_to_tag zone) = true ∧
  pmm_zone_to_tag zone &w 7 = pmm_zone_to_tag zone ∧
  pmm_tag_to_zone (pmm_zone_to_tag zone) = zone.
Proof. by destruct zone. Qed.

(** The state after a successful allocation: the run changes hands, nothing
    else of physical memory or of the page tables does. *)
Record run_claimed (s s' : memory_t) (first count tag : Z) : Prop := {
  rc_free : ∀ q, 0 ≤ q < mi_total_pages (mem_info s) →
    pmm_page_is_free s' q = negb (in_run first count q) && pmm_page_is_free s q;
  rc_tag : ∀ q, 0 ≤ q < mi_total_pages (mem_info s) →
    pmm_get_page_tag s' q = if in_run first count q then tag else pmm_get_page_tag s q;
  rc_frame : ∀ a, a < PMM_BITMAP_STORAGE_START ∨ PMM_BITMAP_STORAGE_END ≤ a →
    load8 (phys s') a = load8 (phys s) a;
  rc_total : mi_total_pages (mem_info s') = mi_total_pages (mem_info s);
  rc_pages : mi_free_pages (mem_info s') = mi_free_pages (mem_info s) - count;
  rc_owned : pmm_owned_pages s' = pmm_owned_pages s + count;
  rc_heap : heap_base s' = heap_base s
}.

Lemma claim_wf s first count zone :
  pmm_wf s → 0 < count → free_run s first count → pmm_zone_is_allocatable zone = true →
  let s' := pmm_claim_pages s first count (pmm_zone_to_tag zone) in
  pmm_wf s' ∧ run_claimed s s' first count (pmm_zone_to_tag zone).
Proof.
  intros W Hc (H0 & Hle & Hr) Hz s'. pose proof (wf_layout _ W) as L.
  destruct (allocatable_tag _ Hz) as (Hown & Hmask & _).
  destruct (claim_pages_spec s first count (pmm_zone_to_tag zone) L) as (s1 & U & E);
    [lia..|]. rewrite Hmask in U. fold s' in E.
  pose proof (pl_pages _ L).
  destruct (pmm_touch_fields _ _ (pu_touch _ _ _ _ _ _ U)) as (EI & EO & ES).
  assert (EOw : pmm_owned_pages s1 = pmm_owned_pages s)
    by (rewrite (pt_fields _ _ (pu_touch _ _ _ _ _ _ U)); done).
  assert (EH : heap_base s1 = heap_base s)
    by (rewrite (pt_fields _ _ (pu_touch _ _ _ _ _ _ U)); done).
  pose proof (count_range_bounds 0 (mi_total_pages (mem_info s)) (pmm_page_is_owned s)).
  assert (Hfree : count ≤ mi_free_pages (mem_info s)).
  { rewrite (wf_free _ W).
    pose proof (count_range_run 0 first (first + count) (mi_total_pages (mem_info s))
      (pmm_page_is_free s) true ltac:(lia) ltac:(lia) Hr). simpl in *. lia. }
  pose proof (count_range_bounds 0 (mi_total_pages (mem_info s)) (pmm_page_is_free s)).
  pose proof (wf_free _ W) as HFr. pose proof (wf_owned _ W) as HOw.
  pose proof (wf_total _ W) as Htot. pose proof (wf_free_memory _ W) as Hfm.
  pose proof (wf_used_memory _ W) as Hum. unfold PAGE_SIZE in *.
  assert (Eo : pmm_owned_pages s' = pmm_owned_pages s + count).
  { rewrite E. unfold set; simpl. rewrite EOw, u32_small; lia. }
  assert (Ef : mi_free_pages (mem_info s') = mi_free_pages (mem_info s) - count).
  { rewrite E. unfold set; simpl. rewrite EI, u32_small; lia. }
  assert (SA : same_arrays s1 s') by (rewrite E; by split).
  split.
  - eapply (run_update_wf s s1 s' first count false); try done; try lia.
    + intros q Hq. apply Hr. unfold in_run in Hq. lia.
    + rewrite E. unfold set, PAGE_SIZE; simpl. rewrite EI, (u32_small (count * _)), u32_small; lia.
    + rewrite E. unfold set, PAGE_SIZE; simpl. rewrite EI, (u32_small (count * _)), u32_small; lia.
  - split; try done.
    + intros q Hq. rewrite (same_arrays_free s1), (pu_free _ _ _ _ _ _ U) by done.
      by destruct (in_run _ _ _).
    + intros q Hq. by rewrite (same_arrays_tag s1), (pu_tag _ _ _ _ _ _ U) by done.
    + intros a Ha. rewrite (sa_phys _ _ SA). by apply (pt_frame _ _ (pu_touch _ _ _ _ _ _ U)).
    + rewrite (sa_pages _ _ SA). congruence.
    + rewrite E. done.
Qed.

(** The outcomes of [pmm_alloc_pages_in_zone]. *)
Inductive alloc_outcome (s : memory_t) (count : Z) (zone : memory_zone_t)
    : memory_t → Z → Prop :=
| alloc_failed :
    (pmm_zone_is_allocatable zone = false ∨ count = 0 ∨ ∀ j, ¬ free_run s j count) →
    alloc_outcome s count zone (count_allocation_failure s) 0
| alloc_found s' first :
    pmm_zone_is_allocatable zone = true → 0 < count →
    free_run s first count →
    (∀ j, j < first → ¬ free_run s j count) →
    FIRST_FREE_PAGE ≤ first →
    run_claimed s s' first count (pmm_zone_to_tag zone) →
    alloc_outcome s count zone s' (first * PAGE_SIZE).

Lemma count_failure_arrays s : same_arrays s (count_allocation_failure s).
Proof. by split. Qed.
Lemma count_invalid_arrays s : same_arrays s (count_invalid_free s).
Proof. by split. Qed.

Lemma same_arrays_wf s s' :
  same_arrays s s' → mem_info s' = mem_info s → pmm_owned_pages s' = pmm_owned_pages s →
  pmm_wf s → pmm_wf s'.
Proof.
  intros SA EI EO [L Hmin HA HT HR HFr HOw Htot Hfm Hum].
  split; rewrite ?EI, ?EO; try done.
  - by eapply same_arrays_layout.
  - intros p Hp. rewrite (same_arrays_free s s'), (same_arrays_tag s s') by done. by apply HA.
  - intros p Hp. rewrite (same_arrays_tag s s') by done. by apply HT.
  - intros p Hp. rewrite (same_arrays_free s s'), (same_arrays_owned s s') by done. by apply HR.
  - rewrite HFr. apply count_range_ext. intros. symmetry. by apply same_arrays_free.
  - rewrite HOw. apply count_range_ext. intros. symmetry. by apply same_arrays_owned.
Qed.

Lemma alloc_in_zone_spec s count zone :
  pmm_wf s → 0 ≤ count →
  let '(s', addr) := pmm_alloc_pages_in_zone s count zone in
  pmm_wf s' ∧ alloc_outcome s count zone s' addr.
Proof.
  intros W Hc. unfold pmm_alloc_pages_in_zone.
  assert (Wf : pmm_wf (count_allocation_failure s))
    by (apply (same_arrays_wf s); auto using count_failure_arrays).
  rewrite (pmm_wf_ready _ W). cbn [negb].
  destruct (pmm_zone_is_allocatable zone) eqn:Hz; simpl; [|by split; [|constructor; auto]].
  destruct ((count =? 0) || (count >? mi_total_pages (mem_info s))) eqn:Hg.
  - split; [done|]. constructor. right. destruct (Z.eqb_spec count 0); [by left|right].
    intros j (? & ? & _). lia.
  - pose proof (find_run_spec s count (wf_layout _ W)) as Hfind.
    destruct (pmm_find_run s count) as [i|].
    + destruct Hfind as [Hr Hmin]; [lia|].
      destruct (claim_wf s i count zone W) as [W' RC]; [lia|done..|].
      split; [done|]. pose proof Hr as (? & ? & _). pose proof (pl_pages _ (wf_layout _ W)).
      rewrite u32_small by (unfold PAGE_SIZE; lia).
      constructor; try done; [lia|]. apply (free_run_unreserved s i count); [done|lia|done].
    + split; [done|]. constructor. right. right. apply Hfind. lia.
Qed.

(** ** Release *)

(** [count] pages from [first] are inside RAM, in use and owned. *)
Definition owned_run (s : memory_t) (first count : Z) : Prop :=
  0 ≤ first ∧ first + count ≤ mi_total_pages (mem_info s) ∧
  ∀ q, first ≤ q < first + count →
    pmm_page_is_owned s q = true ∧ pmm_page_is_free s q = false.

Definition page_aligned (addr : Z) : Prop := addr mod PAGE_SIZE = 0.

Lemma page_aligned_test addr : 0 ≤ addr → (addr &w (PAGE_SIZE - 1) =? 0) = true ↔ page_aligned addr.
Proof.
  intros. unfold page_aligned, PAGE_SIZE. change (4096 - 1) with (Z.ones 12).
  rewrite Z.land_ones, Z.eqb_eq by lia. done.
Qed.

(** When [pmm_validate_release] accepts a request. *)
Definition releasable (s : memory_t) (addr count : Z) : Prop :=
  addr ≠ 0 ∧ 0 < count ∧ page_aligned addr ∧ owned_run s (addr / PAGE_SIZE) count.

Lemma validate_release_spec s addr count :
  pmm_wf s → 0 ≤ addr → 0 ≤ count →
  (releasable s addr count ∧ pmm_validate_release s addr count = (s, true)) ∨
  (¬ releasable s addr count ∧ pmm_validate_release s addr count = (count_invalid_free s, false)).
Proof.
  intros W Ha Hc. unfold pmm_validate_release, releasable, owned_run.
  pose proof (pl_pages _ (wf_layout _ W)). rewrite (pmm_wf_ready _ W). cbn [negb].
  destruct ((addr =? 0) || (count =? 0)) eqn:E1; [right; split; [lia|done]|].
  destruct (addr &w (PAGE_SIZE - 1) =? 0) eqn:E2; simpl; cycle 1.
  { right. split; [|done]. intros (_ & _ & Hal & _).
    apply page_aligned_test in Hal; [|done]. congruence. }
  apply page_aligned_test in E2; [|done].
  assert (Hfp : 0 ≤ addr / PAGE_SIZE) by (unfold PAGE_SIZE; divlia).
  set (first := addr / PAGE_SIZE) in *.
  destruct ((first >=? mi_total_pages (mem_info s)) || _) eqn:E3.
  { right. split; [|done]. intros (_ & _ & _ & _ & Hle & _).
    rewrite u32_small in E3; lia. }
  destruct (Z.geb_spec first (mi_total_pages (mem_info s))); [done|].
  rewrite u32_small in E3 by lia. simpl in E3.
  destruct (all_range _ _ _) eqn:E4; [left|right]; (split; [|done]).
  - split; [lia|]. split; [lia|]. split; [done|]. split; [lia|]. split; [lia|].
    intros q Hq. pose proof (proj1 (all_range_spec _ _ _) E4 (q - first) ltac:(lia)) as Hq'.
    simpl in Hq'. rewrite u32_small in Hq' by lia.
    replace (first + (q - first)) with q in Hq' by lia.
    apply andb_true_iff in Hq' as [? ?%negb_true_iff]. done.
  - intros (_ & _ & _ & _ & Hle & Hr). apply not_true_iff_false in E4. apply E4.
    apply all_range_spec. intros i Hi. rewrite u32_small by lia.
    destruct (Hr (first + i)) as [-> ->]; [lia|done].
Qed.

Record run_released (s s' : memory_t) (first count : Z) : Prop := {
  rr_free : ∀ q, 0 ≤ q < mi_total_pages (mem_info s) →
    pmm_page_is_free s' q = in_run first count q || pmm_page_is_free s q;
  rr_tag : ∀ q, 0 ≤ q < mi_total_pages (mem_info s) →
    pmm_get_page_tag s' q = if in_run first count q then PMM_ZONE_TAG_FREE
                            else pmm_get_page_tag s q;
  rr_frame : ∀ a, a < PMM_BITMAP_STORAGE_START ∨ PMM_BITMAP_STORAGE_END ≤ a →
    load8 (phys s') a = load8 (phys s) a;
  rr_total : mi_total_pages (mem_info s') = mi_total_pages (mem_info s);
  rr_pages : mi_free_pages (mem_info s') = mi_free_pages (mem_info s) + count;
  rr_owned : pmm_owned_pages s' = pmm_owned_pages s - count;
  rr_heap : heap_base s' = heap_base s
}.

Lemma release_wf s first count :
  pmm_wf s → 0 < count → owned_run s first count →
  let s' := pmm_release_pages s first count in
  pmm_wf s' ∧ run_released s s' first count.
Proof.
  intros W Hc (H0 & Hle & Hr) s'. pose proof (wf_layout _ W) as L.
  destruct (release_pages_spec s first count L) as (s1 & U & E); [lia..|]. fold s' in E.
  pose proof (pl_pages _ L).
  destruct (pmm_touch_fields _ _ (pu_touch _ _ _ _ _ _ U)) as (EI & EO & ES).
  assert (EOw : pmm_owned_pages s1 = pmm_owned_pages s)
    by (rewrite (pt_fields _ _ (pu_touch _ _ _ _ _ _ U)); done).
  assert (EH : heap_base s1 = heap_base s)
    by (rewrite (pt_fields _ _ (pu_touch _ _ _ _ _ _ U)); done).
  assert (Hfree : count ≤ pmm_owned_pages s ∧
                  mi_free_pages (mem_info s) ≤ mi_total_pages (mem_info s) - count).
  { rewrite (wf_owned _ W), (wf_free _ W).
    pose proof (count_range_run 0 first (first + count) (mi_total_pages (mem_info s))
      (pmm_page_is_owned s) true ltac:(lia) ltac:(lia) (λ i Hi, proj1 (Hr i Hi))).
    pose proof (count_range_run 0 first (first + count) (mi_total_pages (mem_info s))
      (pmm_page_is_free s) false ltac:(lia) ltac:(lia) (λ i Hi, proj2 (Hr i Hi))).
    simpl in *. lia. }
  pose proof (count_range_bounds 0 (mi_total_pages (mem_info s)) (pmm_page_is_free s)).
  pose proof (count_range_bounds 0 (mi_total_pages (mem_info s)) (pmm_page_is_owned s)).
  pose proof (wf_free _ W) as HFr. pose proof (wf_owned _ W) as HOw.
  pose proof (wf_total _ W) as Htot. pose proof (wf_free_memory _ W) as Hfm.
  pose proof (wf_used_memory _ W) as Hum. unfold PAGE_SIZE in *.
  assert (Eo : pmm_owned_pages s' = pmm_owned_pages s - count).
  { rewrite E. unfold set; simpl. rewrite EOw, u32_small; lia. }
  assert (Ef : mi_free_pages (mem_info s') = mi_free_pages (mem_info s) + count).
  { rewrite E. unfold set; simpl. rewrite EI, u32_small; lia. }
  assert (SA : same_arrays s1 s') by (rewrite E; by split).
  split.
  - eapply (run_update_wf s s1 s' first count true); try done; try lia.
    + intros q Hq. apply Hr. unfold in_run in Hq. lia.
    + rewrite E. unfold set, PAGE_SIZE; simpl. rewrite EI, (u32_small (count * _)), u32_small; lia.
    + rewrite E. unfold set, PAGE_SIZE; simpl. rewrite EI, (u32_small (count * _)), u32_small; lia.
  - split; try done.
    + intros q Hq. rewrite (same_arrays_free s1), (pu_free _ _ _ _ _ _ U) by done.
      by destruct (in_run _ _ _).
    + intros q Hq. by rewrite (same_arrays_tag s1), (pu_tag _ _ _ _ _ _ U) by done.
    + intros a Ha. rewrite (sa_phys _ _ SA). by apply (pt_frame _ _ (pu_touch _ _ _ _ _ _ U)).
    + rewrite (sa_pages _ _ SA). congruence.
    + rewrite E. done.
Qed.

(** ** Initialisation *)

(** The fields of an entry are 32-bit words. *)
Definition mmap_entry_typed (e : mmap_entry_t) : Prop :=
  0 ≤ base_low e < 2 ^ 32 ∧ 0 ≤ base_high e < 2 ^ 32 ∧
  0 ≤ length_low e < 2 ^ 32 ∧ 0 ≤ length_high e < 2 ^ 32.

(** Page [p] lies inside the usable range that [e] describes. *)
Definition entry_covers (e : mmap_entry_t) (p : Z) : Prop :=
  let base := entry_base e in
  let end_ := u64 (base + entry_length e) in
  mmap_type e = 1 ∧ base < end_ ∧
  base ≤ p * PAGE_SIZE ∧ (p + 1) * PAGE_SIZE ≤ Z.min end_ MAX_PHYSICAL_ADDRESS.

Lemma shiftl_lor_range hi lo :
  0 ≤ hi < 2 ^ 32 → 0 ≤ lo < 2 ^ 32 → 0 ≤ Z.shiftl hi 32 |w lo < 2 ^ 64.
Proof.
  intros. assert (Hs : 0 ≤ Z.shiftl hi 32) by (apply Z.shiftl_nonneg; lia).
  split; [apply Z.lor_nonneg; lia|].
  destruct (decide (Z.shiftl hi 32 |w lo = 0)) as [->|]; [lia|].
  assert (0 < Z.shiftl hi 32 |w lo) by (pose proof (proj2 (Z.lor_nonneg (Z.shiftl hi 32) lo)); lia).
  apply Z.log2_lt_pow2; [done|]. apply Z.lt_nge. intros Hlog.
  pose proof (Z.bit_log2 (Z.shiftl hi 32 |w lo) ltac:(done)) as Hb.
  rewrite Z.lor_spec, Z.shiftl_spec in Hb by lia.
  rewrite (testbit_high 32 lo), (testbit_high 32 hi) in Hb by lia. done.
Qed.

(** A loop of [bitmap_clear] or [bitmap_set] over a range of pages. *)
Lemma bits_loop s lo hi (free : bool) :
  pmm_layout s → 0 ≤ lo → hi ≤ mi_total_pages (mem_info s) →
  let s' := foldl (if free then bitmap_clear else bitmap_set) s (range lo hi) in
  pmm_touch s s' ∧
  ∀ q, 0 ≤ q < mi_total_pages (mem_info s) →
    pmm_page_is_free s' q
    = if (lo <=? q) && (q <? hi) then free else pmm_page_is_free s q.
Proof.
  intros L Hlo Hhi. destruct (decide (lo ≤ hi)); cycle 1.
  { rewrite range_nil by lia. split; [done|]. intros q Hq. simpl.
    replace ((lo <=? q) && (q <? hi)) with false by lia. done. }
  apply (foldl_range_ind (λ i s', pmm_touch s s' ∧
    ∀ q, 0 ≤ q < mi_total_pages (mem_info s) →
      pmm_page_is_free s' q
      = if (lo <=? q) && (q <? i) then free else pmm_page_is_free s q)); [lia|..].
  - split; [done|]. intros q Hq. replace ((lo <=? q) && (q <? lo)) with false by lia. done.
  - intros i s' Hi [T IH]. pose proof (pmm_touch_layout _ _ T L) as L'.
    pose proof (pmm_touch_total_pages _ _ T) as E. split.
    + etransitivity; [done|].
      destruct free; [apply bitmap_clear_touch|apply bitmap_set_touch]; (done || lia).
    + intros q Hq. destruct free.
      * rewrite free_bitmap_clear, IH by lia.
        destruct (Z.eqb_spec q i); [|by replace (q <? i + 1) with (q <? i) by lia].
        replace ((lo <=? q) && (q <? i + 1)) with true by lia. done.
      * rewrite free_bitmap_set, IH by lia.
        destruct (Z.eqb_spec q i); [|by replace (q <? i + 1) with (q <? i) by lia].
        replace ((lo <=? q) && (q <? i + 1)) with true by lia. done.
Qed.

Definition covers_test (e : mmap_entry_t) (p : Z) : bool :=
  let base := entry_base e in
  let end_ := u64 (base + entry_length e) in
  (mmap_type e =? 1) && (base <? end_) && (base <=? p * PAGE_SIZE)
  && ((p + 1) * PAGE_SIZE <=? Z.min end_ MAX_PHYSICAL_ADDRESS).

Lemma covers_test_spec e p : covers_test e p = true ↔ entry_covers e p.
Proof. unfold covers_test, entry_covers. lia. Qed.

Lemma land_page_mask v :
  0 ≤ v < 2 ^ 64 → v &w u64 (Z.lnot (PAGE_SIZE - 1)) = v / PAGE_SIZE * PAGE_SIZE.
Proof.
  intros. rewrite land_u64_lnot by done. change (PAGE_SIZE - 1) with (Z.ones 12).
  by rewrite land_lnot_ones by lia.
Qed.

Lemma mark_usable_entry_spec s e :
  pmm_layout s → mmap_entry_typed e →
  let s' := mark_usable_entry s e in
  pmm_touch s s' ∧
  ∀ q, 0 ≤ q < mi_total_pages (mem_info s) →
    pmm_page_is_free s' q = covers_test e q || pmm_page_is_free s q.
Proof.
  intros L (B1 & B2 & L1 & L2). unfold mark_usable_entry, covers_test.
  pose proof (shiftl_lor_range _ _ B2 B1) as HB. fold (entry_base e) in HB.
  pose proof (u64_range (entry_base e + entry_length e)) as HE.
  set (base := entry_base e) in *. set (end_ := u64 (base + entry_length e)) in *.
  pose proof (pl_pages _ L) as HP. set (n := mi_total_pages (mem_info s)) in *.
  destruct (Z.eqb_spec (mmap_type e) 1); cbn [negb andb orb]; [|done].
  destruct (_ || _) eqn:E1.
  { split; [done|]. intros q Hq. unfold PAGE_SIZE, MAX_PHYSICAL_ADDRESS in *.
    replace (_ && _ && _) with false by lia. done. }
  rewrite (u64_small (base + PAGE_SIZE - 1)) by (unfold PAGE_SIZE, MAX_PHYSICAL_ADDRESS in *; lia).
  set (cap := if end_ >? MAX_PHYSICAL_ADDRESS then MAX_PHYSICAL_ADDRESS else end_).
  assert (Hcap : cap = Z.min end_ MAX_PHYSICAL_ADDRESS).
  { subst cap. destruct (Z.gtb_spec end_ MAX_PHYSICAL_ADDRESS); lia. }
  rewrite <-Hcap. unfold MAX_PHYSICAL_ADDRESS in *.
  rewrite !land_page_mask by (unfold PAGE_SIZE; lia). unfold PAGE_SIZE.
  set (b := (base + 4096 - 1) / 4096). set (c := cap / 4096).
  assert (Hb : 4096 * b - 4096 < base ≤ 4096 * b) by (subst b; divlia).
  assert (Hc : 4096 * c ≤ cap < 4096 * c + 4096) by (subst c; divlia).
  rewrite !Z.div_mul, !u32_small by lia.
  destruct (Z.leb_spec (c * 4096) (b * 4096)).
  { split; [done|]. intros q Hq. replace (_ && _ && _) with false by lia. done. }
  set (hi := if c >? n then n else c).
  assert (Hhi : hi = Z.min c n) by (subst hi; destruct (Z.gtb_spec c n); lia).
  destruct (bits_loop s b hi true L) as [T F]; [lia|lia|]. split; [done|].
  intros q Hq. rewrite F by lia.
  replace ((base <? end_) && (base <=? q * 4096) && ((q + 1) * 4096 <=? cap))
    with ((b <=? q) && (q <? hi)) by lia. by destruct (_ && _).
Qed.

Lemma mark_usable_spec s :
  pmm_layout s → Forall mmap_entry_typed (mi_mmap (mem_info s)) →
  let s' := memory_mark_usable s in
  pmm_touch s s' ∧
  ∀ q, 0 ≤ q < mi_total_pages (mem_info s) →
    pmm_page_is_free s' q
    = existsb (λ e, covers_test e q) (mi_mmap (mem_info s)) || pmm_page_is_free s q.
Proof.
  intros L HT. unfold memory_mark_usable.
  remember (mi_mmap (mem_info s)) as es eqn:E. clear E.
  revert s L. induction HT as [|e es He HT IH]; intros s L; simpl; [done|].
  destruct (mark_usable_entry_spec s e L He) as [T1 F1].
  pose proof (pmm_touch_total_pages _ _ T1) as E1.
  destruct (IH (mark_usable_entry s e)) as [T2 F2]; [by eapply pmm_touch_layout|].
  split; [by etransitivity|].
  intros q Hq. rewrite F2, F1 by lia. rewrite orb_assoc. f_equal. apply orb_comm.
Qed.

Lemma reserve_range_spec s :
  pmm_layout s → FIRST_FREE_PAGE ≤ mi_total_pages (mem_info s) →
  let s' := memory_reserve_range s 0 PHYSICAL_IDENTITY_START in
  pmm_touch s s' ∧
  ∀ q, 0 ≤ q < mi_total_pages (mem_info s) →
    pmm_page_is_free s' q = (FIRST_FREE_PAGE <=? q) && pmm_page_is_free s q.
Proof.
  intros L Hn. unfold memory_reserve_range.
  change (align_up PHYSICAL_IDENTITY_START PAGE_SIZE) with PHYSICAL_IDENTITY_START.
  change ((PHYSICAL_IDENTITY_START =? 0) || (PHYSICAL_IDENTITY_START <=? 0)) with false.
  cbv zeta iota. change (0 / PAGE_SIZE) with 0. fold FIRST_FREE_PAGE.
  destruct (Z.gtb_spec FIRST_FREE_PAGE (mi_total_pages (mem_info s))); [lia|].
  destruct (bits_loop s 0 FIRST_FREE_PAGE false L) as [T F]; [lia|lia|].
  split; [done|]. intros q Hq. rewrite F by done.
  destruct (Z.leb_spec FIRST_FREE_PAGE q).
  - replace ((0 <=? q) && (q <? FIRST_FREE_PAGE)) with false by lia. done.
  - replace ((0 <=? q) && (q <? FIRST_FREE_PAGE)) with true by lia. done.
Qed.

(** A loop that writes the tag of every page of a range. *)
Lemma tags_loop s lo hi (f : memory_t → Z → Z) (g : Z → Z) :
  pmm_layout s → 0 ≤ lo ≤ hi → hi ≤ mi_total_pages (mem_info s) →
  (∀ s' q, pmm_touch s s' → lo ≤ q < hi →
     (∀ r, 0 ≤ r < mi_total_pages (mem_info s) →
        pmm_page_is_free s' r = pmm_page_is_free s r) → f s' q &w 7 = g q) →
  let s' := foldl (λ s page, pmm_set_page_tag s page (f s page)) s (range lo hi) in
  pmm_touch s s' ∧
  ∀ q, 0 ≤ q < mi_total_pages (mem_info s) →
    pmm_page_is_free s' q = pmm_page_is_free s q ∧
    pmm_get_page_tag s' q
    = if (lo <=? q) && (q <? hi) then g q else pmm_get_page_tag s q.
Proof.
  intros L Hlo Hhi Hfg.
  apply (foldl_range_ind (λ i s', pmm_touch s s' ∧
    ∀ q, 0 ≤ q < mi_total_pages (mem_info s) →
      pmm_page_is_free s' q = pmm_page_is_free s q ∧
      pmm_get_page_tag s' q
      = if (lo <=? q) && (q <? i) then g q else pmm_get_page_tag s q)); [lia|..].
  - split; [done|]. intros q Hq. replace ((lo <=? q) && (q <? lo)) with false by lia. done.
  - intros i s' Hi [T IH]. pose proof (pmm_touch_layout _ _ T L) as L'.
    pose proof (pmm_touch_total_pages _ _ T) as E.
    specialize (Hfg s' i T Hi (λ r Hr, proj1 (IH r Hr))). split.
    + etransitivity; [done|]. apply set_page_tag_touch; (done || lia).
    + intros q Hq. destruct (IH q Hq) as [IHf IHt].
      rewrite free_set_page_tag, tag_set_page_tag by (done || lia). split; [done|].
      destruct (Z.eqb_spec q i) as [->|].
      * replace ((lo <=? i) && (i <? i + 1)) with true by lia. done.
      * rewrite IHt. by replace (q <? i + 1) with (q <? i) by lia.
Qed.

Definition HEAP_START_PAGE : Z := HEAP_START / PAGE_SIZE.

Lemma initialize_page_zones_spec s :
  pmm_layout s → FIRST_FREE_PAGE ≤ mi_total_pages (mem_info s) →
  let s' := memory_initialize_page_zones s in
  pmm_touch s s' ∧
  ∀ q, 0 ≤ q < mi_total_pages (mem_info s) →
    pmm_page_is_free s' q = pmm_page_is_free s q ∧
    pmm_get_page_tag s' q
    = if (HEAP_START_PAGE <=? q) && (q <? FIRST_FREE_PAGE) then PMM_ZONE_TAG_RESERVED_HEAP
      else if pmm_page_is_free s q then PMM_ZONE_TAG_FREE
      else PMM_ZONE_TAG_RESERVED_KERNEL.
Proof.
  intros L Hn. unfold memory_initialize_page_zones. cbv zeta.
  pose proof (pl_pages _ L) as HP.
  destruct (tags_loop s 0 (mi_total_pages (mem_info s))
    (λ s page, if bitmap_test s page then PMM_ZONE_TAG_RESERVED_KERNEL else PMM_ZONE_TAG_FREE)
    (λ q, if pmm_page_is_free s q then PMM_ZONE_TAG_FREE else PMM_ZONE_TAG_RESERVED_KERNEL))
    as [T1 F1]; [done|lia|lia|..].
  { intros s' q T Hq Hfr. rewrite <-Hfr by done. unfold pmm_page_is_free.
    by destruct (bitmap_test s' q). }
  set (s1 := foldl _ s _) in *. pose proof (pmm_touch_total_pages _ _ T1) as E1.
  change ((HEAP_START +w HEAP_SIZE) / PAGE_SIZE) with FIRST_FREE_PAGE.
  fold HEAP_START_PAGE. rewrite E1.
  destruct (Z.gtb_spec FIRST_FREE_PAGE (mi_total_pages (mem_info s))); [lia|].
  assert (HH : 0 ≤ HEAP_START_PAGE ≤ FIRST_FREE_PAGE) by done.
  destruct (tags_loop s1 HEAP_START_PAGE FIRST_FREE_PAGE
    (λ _ _, PMM_ZONE_TAG_RESERVED_HEAP) (λ _, PMM_ZONE_TAG_RESERVED_HEAP)) as [T2 F2];
    [by eapply pmm_touch_layout|done|lia|done|].
  split; [by etransitivity|]. intros q Hq.
  destruct (F1 q Hq) as [F1f F1t]. destruct (F2 q) as [F2f F2t]; [lia|].
  rewrite F2f, F2t, F1f, F1t. split; [done|].
  replace ((0 <=? q) && (q <? mi_total_pages (mem_info s))) with true by lia. done.
Qed.

Lemma recount_spec s :
  pmm_layout s → mi_total_memory (mem_info s) = mi_total_pages (mem_info s) * PAGE_SIZE →
  let n := count_range 0 (mi_total_pages (mem_info s)) (pmm_page_is_free s) in
  memory_recount s
  = s <| mem_info ::= λ i, i <| mi_free_pages := n |>
           <| mi_free_memory := n * PAGE_SIZE |>
           <| mi_used_memory := mi_total_memory i - n * PAGE_SIZE |> |>.
Proof.
  intros L HT n. unfold memory_recount. pose proof (pl_pages _ L) as HP.
  assert (Hn : 0 ≤ n ≤ mi_total_pages (mem_info s) - 0) by (apply count_range_bounds; lia).
  assert (Hloop : ∀ s0, s0 = s <| mem_info ::= set mi_free_pages (λ _, 0) |> →
    foldl (λ s p, if negb (bitmap_test s p)
      then s <| mem_info ::= set mi_free_pages (λ n, n +w 1) |> else s)
      s0 (range 0 (mi_total_pages (mem_info s)))
    = s <| mem_info ::= set mi_free_pages (λ _, n) |>).
  { intros s0 ->. apply (foldl_range_ind (λ i s', s' = s <| mem_info ::= set mi_free_pages
      (λ _, count_range 0 i (pmm_page_is_free s)) |>)); [lia|done|].
    intros i s' Hi ->. rewrite count_range_snoc by lia.
    replace (if pmm_page_is_free s i then 1 else 0)
      with (if bitmap_test s i then 0 else 1) by (unfold pmm_page_is_free; by destruct (bitmap_test s i)).
    pose proof (count_range_bounds 0 i (pmm_page_is_free s)).
    change (bitmap_test (set mem_info _ s) i) with (bitmap_test s i).
    destruct (bitmap_test s i); unfold set; simpl.
    - by rewrite Z.add_0_r.
    - rewrite u32_small by lia. done. }
  cbv zeta.
  change (mi_total_pages (mem_info (s <| mem_info ::= set mi_free_pages (λ _, 0) |>)))
    with (mi_total_pages (mem_info s)).
  rewrite (Hloop _ eq_refl). unfold set; simpl.
  rewrite (u32_small (n * PAGE_SIZE)), (u32_small (_ - _)); unfold PAGE_SIZE in *; [done|lia..].
Qed.

Definition with_total (s : memory_t) (t : Z) : memory_t :=
  s <| mem_info ::= set mi_total_memory (λ _, t) |>.

Definition total_ok (t : Z) : Prop := 0 ≤ t ≤ MAX_PHYSICAL_ADDRESS ∧ t mod PAGE_SIZE = 0.

(** The end of the last whole page that a usable entry describes. *)
Definition entry_top (e : mmap_entry_t) : Z :=
  let base := entry_base e in
  let end_ := u64 (base + entry_length e) in
  if (mmap_type e =? 1) && (base <=? MAX_PHYSICAL_ADDRESS) && (base <? end_)
  then Z.min end_ MAX_PHYSICAL_ADDRESS / PAGE_SIZE * PAGE_SIZE else 0.

Definition usable_top (entries : list mmap_entry_t) : Z := foldr Z.max 0 (map entry_top entries).

Lemma entry_top_ok e : total_ok (entry_top e).
Proof.
  unfold entry_top, total_ok. pose proof (u64_range (entry_base e + entry_length e)).
  destruct (_ && _); [|done]. unfold PAGE_SIZE, MAX_PHYSICAL_ADDRESS in *.
  split; [divlia|apply Z.mod_mul; lia].
Qed.

Lemma usable_top_ok entries : total_ok (usable_top entries).
Proof.
  induction entries as [|e es IH]; [done|]. unfold usable_top in *. simpl.
  destruct (Z.max_spec (entry_top e) (foldr Z.max 0 (map entry_top es))) as [[_ ->]|[_ ->]];
    auto using entry_top_ok.
Qed.

Lemma entry_top_covers e p :
  mmap_entry_typed e → 0 ≤ p → entry_covers e p → p < entry_top e / PAGE_SIZE.
Proof.
  intros (B1 & B2 & _) Hp (Ht & Hlt & Hb & He). unfold entry_top.
  pose proof (shiftl_lor_range _ _ B2 B1) as HB. fold (entry_base e) in HB.
  set (end_ := u64 _) in *. unfold PAGE_SIZE, MAX_PHYSICAL_ADDRESS in *.
  replace (_ && _ && _) with true by lia. rewrite Z.div_mul by lia. divlia.
Qed.

Lemma usable_top_covers entries e p :
  Forall mmap_entry_typed entries → e ∈ entries → 0 ≤ p → entry_covers e p →
  p < usable_top entries / PAGE_SIZE.
Proof.
  intros HT Hin Hp Hc. unfold usable_top.
  induction HT as [|e' es He HT IH]; [by apply not_elem_of_nil in Hin|]. simpl.
  unfold PAGE_SIZE in *. apply elem_of_cons in Hin as [->|Hin].
  - pose proof (entry_top_covers e' p He Hp Hc). unfold PAGE_SIZE in *. divlia.
  - specialize (IH Hin). divlia.
Qed.

Lemma find_total_entry_spec s t e :
  mmap_entry_typed e → 0 ≤ t →
  find_total_entry (with_total s t) e = with_total s (Z.max t (entry_top e)).
Proof.
  intros (B1 & B2 & L1 & L2) Ht. pose proof (entry_top_ok e) as [Hok _].
  unfold find_total_entry, entry_top in *.
  pose proof (u64_range (entry_base e + entry_length e)) as HE.
  set (base := entry_base e) in *. set (end_ := u64 (base + entry_length e)) in *.
  destruct (_ || _) eqn:E1.
  { replace (_ && _ && _) with false by lia. by rewrite Z.max_l. }
  replace (_ && _ && _) with true in * by lia.
  set (cap := if end_ >? MAX_PHYSICAL_ADDRESS then MAX_PHYSICAL_ADDRESS else end_).
  assert (Hcap : cap = Z.min end_ MAX_PHYSICAL_ADDRESS).
  { subst cap. destruct (Z.gtb_spec end_ MAX_PHYSICAL_ADDRESS); lia. }
  rewrite <-Hcap in *. unfold MAX_PHYSICAL_ADDRESS in *. rewrite land_page_mask by lia.
  change (mi_total_memory (mem_info (with_total s t))) with t.
  destruct (Z.gtb_spec (cap / PAGE_SIZE * PAGE_SIZE) t).
  - by rewrite Z.max_r, u32_small by lia.
  - by rewrite Z.max_l by lia.
Qed.

Lemma find_total_spec s :
  Forall mmap_entry_typed (mi_mmap (mem_info s)) →
  memory_find_total s = with_total s (usable_top (mi_mmap (mem_info s))).
Proof.
  intros HT. unfold memory_find_total. cbv zeta. fold (with_total s 0).
  change (mi_mmap (mem_info (with_total s 0))) with (mi_mmap (mem_info s)).
  cut (∀ t, 0 ≤ t → foldl find_total_entry (with_total s t) (mi_mmap (mem_info s))
         = with_total s (Z.max t (usable_top (mi_mmap (mem_info s))))).
  { intros ->; [|lia]. rewrite Z.max_r; [done|]. apply usable_top_ok. }
  induction HT as [|e es He HT IH]; intros t Ht; cbn [foldl].
  { unfold usable_top. simpl. by rewrite Z.max_l. }
  rewrite find_total_entry_spec, IH by (done || lia). unfold usable_top. simpl.
  by rewrite Z.max_assoc.
Qed.

(** From the arrays filled with ones and zeros to the consistent state. *)
Lemma init_pages s :
  pmm_layout s → Forall mmap_entry_typed (mi_mmap (mem_info s)) →
  MIN_USABLE_MEMORY_END / PAGE_SIZE ≤ mi_total_pages (mem_info s) →
  mi_total_memory (mem_info s) = mi_total_pages (mem_info s) * PAGE_SIZE →
  (∀ q, 0 ≤ q < mi_total_pages (mem_info s) → pmm_page_is_free s q = false) →
  let s' := memory_recount (memory_initialize_page_zones
    (memory_reserve_range (memory_mark_usable s) 0 PHYSICAL_IDENTITY_START)) in
  (∀ s'', same_arrays s' s'' → mem_info s'' = mem_info s' → pmm_owned_pages s'' = 0 →
     pmm_wf s'') ∧
  mi_total_pages (mem_info s') = mi_total_pages (mem_info s) ∧
  (∀ q, 0 ≤ q < mi_total_pages (mem_info s) →
     pmm_page_is_free s' q = (FIRST_FREE_PAGE <=? q)
       && existsb (λ e, covers_test e q) (mi_mmap (mem_info s))) ∧
  (∀ a, a < PMM_BITMAP_STORAGE_START ∨ PMM_BITMAP_STORAGE_END ≤ a →
     load8 (phys s') a = load8 (phys s) a).
Proof.
  intros L HT Hmin Htot Hall.
  assert (HF : FIRST_FREE_PAGE ≤ mi_total_pages (mem_info s)).
  { change FIRST_FREE_PAGE with 5120. change (MIN_USABLE_MEMORY_END / PAGE_SIZE) with 8160 in Hmin. lia. }
  destruct (mark_usable_spec s L HT) as [T1 F1].
  set (s1 := memory_mark_usable s) in *. pose proof (pmm_touch_layout _ _ T1 L) as L1.
  pose proof (pmm_touch_total_pages _ _ T1) as E1.
  destruct (reserve_range_spec s1 L1) as [T2 F2]; [lia|].
  set (s2 := memory_reserve_range s1 0 PHYSICAL_IDENTITY_START) in *.
  pose proof (pmm_touch_layout _ _ T2 L1) as L2. pose proof (pmm_touch_total_pages _ _ T2) as E2.
  destruct (initialize_page_zones_spec s2 L2) as [T3 F3]; [lia|].
  set (s3 := memory_initialize_page_zones s2) in *.
  pose proof (pmm_touch_layout _ _ T3 L2) as L3. pose proof (pmm_touch_total_pages _ _ T3) as E3.
  assert (T : pmm_touch s s3) by (etransitivity; [done|]; by etransitivity).
  destruct (pmm_touch_fields _ _ T) as (EI & _ & _). pose proof (pl_pages _ L) as HP.
  clearbody s3 s2 s1.
  rewrite recount_spec by (done || by rewrite EI).
  set (s' := set mem_info _ s3). assert (SA : same_arrays s3 s') by by split.
  assert (Hfree : ∀ q, 0 ≤ q < mi_total_pages (mem_info s) → pmm_page_is_free s3 q =
     (FIRST_FREE_PAGE <=? q) && existsb (λ e, covers_test e q) (mi_mmap (mem_info s))).
  { intros q Hq. destruct (F3 q) as [-> _]; [lia|]. rewrite F2, F1, Hall by lia.
    by rewrite orb_false_r. }
  assert (Htag : ∀ q, 0 ≤ q < mi_total_pages (mem_info s) →
     (pmm_page_is_free s3 q = (pmm_get_page_tag s3 q =? PMM_ZONE_TAG_FREE)) ∧
     pmm_get_page_tag s3 q ≤ PMM_ZONE_TAG_RESERVED_HEAP).
  { intros q Hq. destruct (F3 q) as [F3f F3t]; [lia|]. rewrite F3t, F3f, F2 by lia.
    destruct (Z.leb_spec FIRST_FREE_PAGE q).
    - replace ((HEAP_START_PAGE <=? q) && (q <? FIRST_FREE_PAGE)) with false by lia.
      by destruct (pmm_page_is_free s1 q).
    - simpl. by destruct (_ && _). }
  assert (EP : mi_total_pages (mem_info s') = mi_total_pages (mem_info s))
    by (rewrite (sa_pages _ _ SA); congruence).
  split; [|split; [done|split]].
  - intros s'' SA2 EI2 EO2.
    assert (SA3 : same_arrays s3 s'') by (destruct SA, SA2; split; congruence).
    clear SA2. rewrite <-EI2 in EP. split; rewrite ?EP.
    + by eapply same_arrays_layout.
    + done.
    + intros p Hp. rewrite (same_arrays_free s3), (same_arrays_tag s3) by done. by apply Htag.
    + intros p Hp. rewrite (same_arrays_tag s3) by done.
      destruct (Htag p Hp) as [_ Ht]. pose proof (get_page_tag_range s3 p) as Hr.
      unfold PMM_ZONE_TAG_RESERVED_HEAP in Ht.
      assert (pmm_get_page_tag s3 p = 0 ∨ pmm_get_page_tag s3 p = 1 ∨ pmm_get_page_tag s3 p = 2)
        as [->|[->| ->]] by lia; done.
    + intros p Hp. rewrite (same_arrays_free s3), (same_arrays_owned s3) by done.
      rewrite Hfree by lia. split; [replace (FIRST_FREE_PAGE <=? p) with false by lia; done|].
      destruct (Htag p) as [_ Ht]; [lia|]. unfold pmm_page_is_owned, tag_is_owned.
      unfold PMM_ZONE_TAG_RESERVED_HEAP, PMM_ZONE_TAG_KERNEL in *. lia.
    + transitivity (count_range 0 (mi_total_pages (mem_info s)) (pmm_page_is_free s3)).
      { by rewrite EI2, <-EI. }
      apply count_range_ext. intros. symmetry. by apply same_arrays_free.
    + rewrite EO2, (count_range_const _ _ _ false); [done|lia|].
      intros p Hp. rewrite (same_arrays_owned s3) by done.
      destruct (Htag p Hp) as [_ Ht]. unfold pmm_page_is_owned, tag_is_owned.
      unfold PMM_ZONE_TAG_RESERVED_HEAP, PMM_ZONE_TAG_KERNEL in *. lia.
    + rewrite EI2, (sa_total _ _ SA), EI. done.
    + by rewrite EI2.
    + by rewrite EI2.
  - intros q Hq. rewrite (same_arrays_free s3) by done. by apply Hfree.
  - intros a Ha. rewrite (sa_phys _ _ SA). by apply (pt_frame _ _ T).
Qed.

Lemma page_all_ones s q :
  (∀ a, mi_bitmap (mem_info s) ≤ a < mi_bitmap (mem_info s) + mi_bitmap_size (mem_info s) →
     load8 (phys s) a = 255) →
  0 ≤ q < 8 * mi_bitmap_size (mem_info s) → pmm_page_is_free s q = false.
Proof.
  intros H Hq. unfold pmm_page_is_free. rewrite bitmap_test_bit by lia. unfold bit_at.
  rewrite H by divlia. change 255 with (Z.ones 8). rewrite Z.ones_spec_low by divlia. done.
Qed.

(** The sizes of the two arrays: they fit in the storage exactly when there
    are at most 2^17 pages. *)
Lemma init_sizes n :
  8160 ≤ n ≤ 0xFFFFF →
  let bitmap_size := align_up ((n +w 7) / 8) PAGE_SIZE in
  let zone_size := align_up (PMM_ZONE_STORAGE_BYTES n) PAGE_SIZE in
  ((bitmap_size =? 0) || (zone_size =? 0) || (bitmap_size >? PMM_ZONE_STORAGE_CAPACITY)
   || (zone_size >? PMM_ZONE_STORAGE_CAPACITY -w bitmap_size)) = (131072 <? n) ∧
  (n ≤ 131072 →
   n ≤ 8 * bitmap_size ∧ n * 3 ≤ 8 * zone_size ∧ 0 ≤ bitmap_size ∧ 0 ≤ zone_size
   ∧ bitmap_size + zone_size ≤ PMM_ZONE_STORAGE_CAPACITY).
Proof.
  intros Hn. cbv zeta. unfold PMM_ZONE_STORAGE_BYTES, PMM_ZONE_TAG_BITS.
  rewrite (u32_small (n + 7)), (u32_small (n * 3)), (u32_small (n * 3 + 7)) by lia.
  rewrite !align_up_page by divlia. change PMM_ZONE_STORAGE_CAPACITY with 65536.
  set (b := (n + 7) / 8). set (z := (n * 3 + 7) / 8).
  assert (Hb : 8 * b - 7 ≤ n + 0 ≤ 8 * b) by (subst b; divlia).
  assert (Hz : 8 * z - 7 ≤ n * 3 ≤ 8 * z) by (subst z; divlia).
  set (b' := (b + 4095) / 4096). set (z' := (z + 4095) / 4096).
  assert (4096 * b' - 4095 ≤ b ≤ 4096 * b') by (subst b'; divlia).
  assert (4096 * z' - 4095 ≤ z ≤ 4096 * z') by (subst z'; divlia).
  clearbody b z b' z'. split; [|lia].
  destruct (Z.gtb_spec (b' * 4096) 65536); [lia|]. rewrite u32_small by lia. lia.
Qed.

(** ** What [memory_init] decides, as a function of the E820 table alone *)

Definition usable_range (entries : list mmap_entry_t) (start end_ : Z) : bool :=
  existsb (λ e,
    let base := entry_base e in
    let range_end := u64 (base + entry_length e) in
    (mmap_type e =? 1) && (base <=? start) && (base <=? range_end) && (end_ <=? range_end))
    entries.

(** Page [p] is handed to the allocator. *)
Definition boot_free (entries : list mmap_entry_t) (p : Z) : bool :=
  (FIRST_FREE_PAGE <=? p) && existsb (λ e, covers_test e p) entries.

(** 512 MiB: what one bit and one three-bit tag per page can describe in the
    64 KiB between [PMM_BITMAP_STORAGE_START] and [PMM_BITMAP_STORAGE_END]. *)
Definition MAX_MANAGED_MEMORY : Z := 0x20000000.

Definition init_panic (mmap_addr : Z) (entries : list mmap_entry_t) : option memory_panic :=
  if mmap_addr =? 0 then Some PANIC_NO_MAP
  else if Z.of_nat (length entries) =? 0 then Some PANIC_EMPTY_MAP
  else if usable_top entries <? MIN_USABLE_MEMORY_END then Some PANIC_BELOW_MINIMUM
  else if negb (usable_range entries PMM_BITMAP_STORAGE_START KERNEL_STACK_TOP
                && usable_range entries KERNEL_START KERNEL_END
                && usable_range entries HEAP_START (HEAP_START + HEAP_SIZE))
  then Some PANIC_LAYOUT
  else if MAX_MANAGED_MEMORY <? usable_top entries then Some PANIC_BITMAPS
  else if existsb (boot_free entries) (range 0 (usable_top entries / PAGE_SIZE))
  then None else Some PANIC_NO_FREE_PAGE.

Lemma range_is_usable_spec s start end_ :
  memory_range_is_usable s start end_ = usable_range (mi_mmap (mem_info s)) start end_.
Proof.
  unfold memory_range_is_usable, usable_range. induction (mi_mmap _) as [|e es IH]; [done|].
  simpl. rewrite IH. f_equal. lia.
Qed.

Lemma existsb_count p n : 0 ≤ n → existsb p (range 0 n) = negb (count_range 0 n p =? 0).
Proof.
  intros Hn. destruct (existsb _ _) eqn:E.
  - apply existsb_exists in E as (x & Hx%list_elem_of_In%elem_of_range & Hp).
    pose proof (count_range_run 0 x (x + 1) n p true ltac:(lia) ltac:(lia)) as H.
    simpl in H. assert (x + 1 - x ≤ count_range 0 n p); [|lia].
    apply H. intros i Hi. by replace i with x by lia.
  - rewrite (count_range_const 0 n p false); [done|lia|]. intros i Hi.
    apply not_true_iff_false. intros Hp. apply not_true_iff_false in E. apply E.
    apply existsb_exists. exists i. split; [|done]. by apply list_elem_of_In, elem_of_range.
Qed.

(** The two arrays just after [memory_init] has filled them. *)
Lemma init_arrays s n bs zs m :
  mi_total_pages (mem_info s) = n → mi_bitmap (mem_info s) = PMM_BITMAP_STORAGE_START →
  mi_bitmap_size (mem_info s) = bs → pmm_owner_bitmap s = PMM_BITMAP_STORAGE_START + bs →
  pmm_owner_bitmap_size s = zs →
  phys s = kmemset (kmemset m PMM_BITMAP_STORAGE_START 0xFF bs)
             (PMM_BITMAP_STORAGE_START + bs) 0 zs →
  0 ≤ n ≤ 131072 → n ≤ 8 * bs → n * 3 ≤ 8 * zs → 0 ≤ bs → 0 ≤ zs →
  bs + zs ≤ PMM_ZONE_STORAGE_CAPACITY →
  pmm_layout s ∧
  (∀ q, 0 ≤ q < n → pmm_page_is_free s q = false) ∧
  (∀ a, a < PMM_BITMAP_STORAGE_START ∨ PMM_BITMAP_STORAGE_END ≤ a → load8 (phys s) a = load8 m a).
Proof.
  intros Jn Jb Js O Z P Hn Hb Hz Hb0 Hz0 Hcap.
  unfold PMM_ZONE_STORAGE_CAPACITY in Hcap.
  assert (Hm : ∀ a, load8 (phys s) a =
    if (PMM_BITMAP_STORAGE_START + bs <=? a) && (a <? PMM_BITMAP_STORAGE_START + bs + zs) then 0
    else if (PMM_BITMAP_STORAGE_START <=? a) && (a <? PMM_BITMAP_STORAGE_START + bs) then 255
    else load8 m a) by (intros a; by rewrite P, !load8_kmemset).
  split; [|split].
  - split; rewrite ?Jn, ?Jb, ?Js, ?O, ?Z; try done; lia.
  - intros q Hq. apply page_all_ones; rewrite ?Jb, ?Js; [|lia]. intros a Ha. rewrite Hm.
    replace ((PMM_BITMAP_STORAGE_START + bs <=? a) && _) with false by lia.
    by replace ((PMM_BITMAP_STORAGE_START <=? a) && _) with true by lia.
  - intros a Ha. rewrite Hm.
    replace ((PMM_BITMAP_STORAGE_START + bs <=? a) && _) with false by lia.
    by replace ((PMM_BITMAP_STORAGE_START <=? a) && _) with false by lia.
Qed.

(** The state [memory_init] leaves when it does not panic. *)
Record memory_initialised (entries : list mmap_entry_t) (s s' : memory_t) : Prop := {
  ini_wf : pmm_wf s';
  ini_total : mi_total_pages (mem_info s') = usable_top entries / PAGE_SIZE;
  ini_owned : pmm_owned_pages s' = 0;
  ini_heap : heap_base s' = 0;
  ini_free : ∀ p, 0 ≤ p < mi_total_pages (mem_info s') →
    pmm_page_is_free s' p = true ↔
    FIRST_FREE_PAGE ≤ p ∧ ∃ e, e ∈ entries ∧ entry_covers e p;
  ini_frame : ∀ a, a < PMM_BITMAP_STORAGE_START ∨ PMM_BITMAP_STORAGE_END ≤ a →
    load8 (phys s') a = load8 (phys s) a
}.

Lemma memory_init_spec mmap_addr entries s s' r :
  Forall mmap_entry_typed entries →
  memory_init mmap_addr entries s = (s', r) →
  r = init_panic mmap_addr entries ∧ (r = None → memory_initialised entries s s').
Proof.
  intros HT. cbv beta delta [memory_init init_panic].
  destruct (mmap_addr =? 0); [by intros [= <- <-]|]. intro_let c Ec.
  intro_let s1 E1. intro_let s2 E2. intro_let s3 E3. rewrite <-Ec.
  destruct (c =? 0); [by intros [= <- <-]|].
  assert (HT3 : mi_mmap (mem_info s3) = entries) by (by rewrite E3, E2).
  assert (HO3 : phys s3 = phys s) by (by rewrite E3, E2, E1).
  clear E1 E2 E3 Ec. assert (HT' : Forall mmap_entry_typed (mi_mmap (mem_info s3))) by by rewrite HT3.
  pose proof (find_total_spec s3 HT') as Et. rewrite HT3 in Et.
  pose proof (usable_top_ok entries) as [Htr Htm]. set (t := usable_top entries) in *.
  intro_let s4 E4. rewrite Et in E4. intro_let s5 E5.
  assert (H5t : mi_total_memory (mem_info s5) = t) by (by rewrite E5, E4).
  assert (H5n : mi_total_pages (mem_info s5) = t / PAGE_SIZE) by (by rewrite E5, E4).
  assert (H5m : mi_mmap (mem_info s5) = entries) by (by rewrite E5, E4).
  assert (H5p : phys s5 = phys s) by (by rewrite E5, E4).
  clear E4 E5 Et HT3 HO3. rewrite H5t.
  destruct (_ <? MIN_USABLE_MEMORY_END) eqn:G1; [by intros [= <- <-]|].
  rewrite !range_is_usable_spec, H5m. change (HEAP_START +w HEAP_SIZE) with (HEAP_START + HEAP_SIZE).
  rewrite <-!negb_andb. destruct (_ && _ && _); [else_branch|by intros [= <- <-]].
  set (n := t / PAGE_SIZE) in *. intro_let s6 E6. rewrite H5n in E6.
  assert (H6n : mi_total_pages (mem_info s6) = n) by (by rewrite E6).
  assert (H6b : mi_bitmap_size (mem_info s6) = align_up ((n +w 7) / 8) PAGE_SIZE) by (by rewrite E6).
  assert (H6m : mi_mmap (mem_info s6) = entries ∧ mi_total_memory (mem_info s6) = t ∧
    phys s6 = phys s) by (by rewrite E6).
  destruct H6m as (H6m & H6t & H6p). clear s5 H5t H5n H5m H5p E6.
  rewrite H6n, H6b. intro_let zs Ezs. set (bs := align_up ((n +w 7) / 8) PAGE_SIZE) in *.
  assert (Hn : 8160 ≤ n ≤ 0xFFFFF ∧ t = n * PAGE_SIZE).
  { change MIN_USABLE_MEMORY_END with (8160 * PAGE_SIZE) in G1.
    unfold PAGE_SIZE, MAX_PHYSICAL_ADDRESS in *; subst n; divlia. }
  destruct Hn as [Hn Etn].
  destruct (init_sizes n Hn) as [Hfit Hsz]. fold bs in Hfit, Hsz. rewrite <-Ezs in Hfit, Hsz.
  rewrite Hfit. clear Hfit Ezs.
  replace (MAX_MANAGED_MEMORY <? t) with (131072 <? n)
    by (unfold MAX_MANAGED_MEMORY, PAGE_SIZE in *; lia).
  destruct (Z.ltb_spec 131072 n) as [|Hp]; [by intros [= <- <-]|].
  destruct (Hsz Hp) as (Hb & Hz & Hb0 & Hz0 & Hcap). clear Hsz.
  intro_let s7 E7. intro_let s8 E8. intro_let s9 E9. intro_let s10 E10. intro_let s11 E11.
  assert (I11 : mem_info s11 = (mem_info s6) <| mi_bitmap := PMM_BITMAP_STORAGE_START |>)
    by (by rewrite E11, E10, E9, E8, E7).
  assert (O11 : pmm_owner_bitmap s11 = PMM_BITMAP_STORAGE_START + bs)
    by (rewrite E11, E10, E9, E8, E7; unfold set; simpl; by rewrite H6b).
  assert (Z11 : pmm_owner_bitmap_size s11 = zs) by (by rewrite E11, E10, E9).
  assert (P11 : phys s11 = kmemset (kmemset (phys s) PMM_BITMAP_STORAGE_START 0xFF bs)
                             (PMM_BITMAP_STORAGE_START + bs) 0 zs).
  { rewrite E11, E10, E9, E8, E7; unfold set; simpl. by rewrite H6b, H6p. }
  clear E7 E8 E9 E10 E11 s7 s8 s9 s10.
  assert (J : mi_total_pages (mem_info s11) = n ∧ mi_total_memory (mem_info s11) = t ∧
    mi_mmap (mem_info s11) = entries ∧ mi_bitmap (mem_info s11) = PMM_BITMAP_STORAGE_START ∧
    mi_bitmap_size (mem_info s11) = bs) by (by rewrite I11).
  destruct J as (Jn & Jt & Jm & Jb & Js). clear I11 H6n H6b H6m H6t H6p s6.
  destruct (init_arrays s11 n bs zs (phys s)) as [L [Hones Hm]];
    [exact Jn|exact Jb|exact Js|exact O11|exact Z11|exact P11|lia|exact Hb|exact Hz|
     exact Hb0|exact Hz0|exact Hcap|].
  destruct (init_pages s11 L) as (HW & HP & HF & HA); rewrite ?Jn, ?Jm, ?Jt;
    [exact HT|apply Hn|exact Etn|exact Hones|].
  rewrite Jn in HP, HF. rewrite Jm in HF.
  intro_let s12 E12. intro_let s13 E13. intro_let s14 E14. intro_let s15 E15.
  rewrite E14, E13, E12 in E15. rewrite <-E15 in HW, HP, HF, HA. clear E12 E13 E14 E15 s12 s13 s14.
  assert (Hcnt : (mi_free_pages (mem_info s15) =? 0) = negb (existsb (boot_free entries) (range 0 n))).
  { assert (W' : pmm_wf (s15 <| pmm_owned_pages := 0 |>)) by (apply HW; by split || done).
    pose proof (wf_free _ W') as Hfr. unfold set in Hfr; simpl in Hfr.
    rewrite existsb_count, negb_involutive, Hfr, HP by lia. f_equal.
    apply count_range_ext. intros i Hi. exact (HF i Hi). }
  rewrite Hcnt. destruct (existsb _ _); [else_branch|by intros [= <- <-]].
  intro_let s16 E16. intros [= <- <-]. split; [done|]. intros _.
  assert (SA : same_arrays s15 (heap_reset s16)) by (by rewrite E16).
  assert (EI : mem_info (heap_reset s16) = mem_info s15) by (by rewrite E16).
  split; rewrite ?EI, ?HP; try reflexivity; try (by rewrite E16).
  - apply HW; [done..|by rewrite E16].
  - intros p Hpr. rewrite (same_arrays_free s15), HF by done.
    rewrite andb_true_iff, Z.leb_le, existsb_exists. setoid_rewrite <-list_elem_of_In.
    by setoid_rewrite covers_test_spec.
  - intros a Ha. rewrite (sa_phys _ _ SA), HA by done. by apply Hm.
Qed.

Lemma tag_zone_free t :
  (t =? PMM_ZONE_TAG_FREE) = bool_decide (pmm_tag_to_zone t = MEMORY_ZONE_FREE).
Proof.
  unfold pmm_tag_to_zone. destruct (Z.eqb_spec t PMM_ZONE_TAG_FREE) as [->|Hne]; [done|].
  by repeat destruct (_ =? _).
Qed.

(** ** The statistics check accepts every consistent state *)

Definition zone_count (s : memory_t) (i : Z) (z : memory_zone_t) : Z :=
  count_range 0 i (λ p, bool_decide (pmm_tag_to_zone (pmm_get_page_tag s p) = z)).
Definition zone_counts (s : memory_t) (i : Z) : list Z :=
  zone_count s i <$> [MEMORY_ZONE_KERNEL; MEMORY_ZONE_HEAP; MEMORY_ZONE_SLAB;
                      MEMORY_ZONE_PROCESS; MEMORY_ZONE_BUFFER; MEMORY_ZONE_FREE].

Lemma zone_count_snoc s i z :
  0 ≤ i → zone_count s (i + 1) z
  = zone_count s i z + if bool_decide (pmm_tag_to_zone (pmm_get_page_tag s i) = z) then 1 else 0.
Proof. intros. unfold zone_count. by rewrite count_range_snoc. Qed.

Lemma zone_counts_snoc s i :
  0 ≤ i < 131072 → pmm_tag_to_zone (pmm_get_page_tag s i) ≠ MEMORY_ZONE_COUNT →
  alter (λ n, n +w 1) (zone_index (pmm_tag_to_zone (pmm_get_page_tag s i))) (zone_counts s i)
  = zone_counts s (i + 1).
Proof.
  intros Hi Hz. unfold zone_counts. simpl. rewrite !zone_count_snoc by lia.
  assert (Hb : ∀ z, 0 ≤ zone_count s i z ≤ 131072).
  { intros z. unfold zone_count. pose proof (count_range_bounds 0 i
      (λ p, bool_decide (pmm_tag_to_zone (pmm_get_page_tag s p) = z))). lia. }
  pose proof (λ z, u32_small (zone_count s i z + 1) ltac:(specialize (Hb z); lia)) as Hu.
  destruct (pmm_tag_to_zone (pmm_get_page_tag s i)); try done; simpl;
    by rewrite Hu, ?Z.add_0_r.
Qed.

Lemma zone_counts_sum s n :
  0 ≤ n → (∀ p, 0 ≤ p < n → pmm_tag_to_zone (pmm_get_page_tag s p) ≠ MEMORY_ZONE_COUNT) →
  zone_count s n MEMORY_ZONE_KERNEL + zone_count s n MEMORY_ZONE_HEAP
  + zone_count s n MEMORY_ZONE_SLAB + zone_count s n MEMORY_ZONE_PROCESS
  + zone_count s n MEMORY_ZONE_BUFFER + zone_count s n MEMORY_ZONE_FREE = n.
Proof.
  intros Hn. pattern n. apply natlike_ind; [done| |lia].
  intros i Hi IH Hz. unfold Z.succ. rewrite !zone_count_snoc by lia.
  specialize (IH (λ p Hp, Hz p ltac:(lia))). specialize (Hz i ltac:(lia)).
  destruct (pmm_tag_to_zone (pmm_get_page_tag s i)); try done; simpl; lia.
Qed.

Lemma record_free_run_zones stats run :
  ds_zone_pages (memory_record_free_run stats run) = ds_zone_pages stats ∧
  ds_total_pages (memory_record_free_run stats run) = ds_total_pages stats.
Proof.
  unfold memory_record_free_run. destruct (run =? 0); [done|].
  destruct (run =? 1); by destruct (run >? _).
Qed.

Lemma detailed_loop_spec s i stats fr :
  pmm_wf s → 0 ≤ i ≤ mi_total_pages (mem_info s) →
  ds_zone_pages stats = zone_counts s i →
  ∃ stats' fr',
    detailed_loop s (range i (mi_total_pages (mem_info s))) stats fr
      (count_range 0 i (pmm_page_is_owned s))
    = (stats', Some (fr', pmm_owned_pages s)) ∧
    ds_zone_pages stats' = zone_counts s (mi_total_pages (mem_info s)) ∧
    ds_total_pages stats' = ds_total_pages stats.
Proof.
  intros W. destruct (pl_pages _ (wf_layout _ W)) as [_ HP].
  remember (Z.to_nat (mi_total_pages (mem_info s) - i)) as k eqn:Ek.
  revert i stats fr Ek. induction k as [|k IH]; intros i stats fr Ek Hi Hz.
  - assert (i = mi_total_pages (mem_info s)) as -> by lia. rewrite range_nil by lia. simpl.
    rewrite <-(wf_owned _ W). by exists stats, fr.
  - rewrite range_cons by lia. simpl.
    pose proof (wf_agree _ W i ltac:(lia)) as HA. pose proof (wf_tags _ W i ltac:(lia)) as HT.
    replace (bool_decide (pmm_tag_to_zone (pmm_get_page_tag s i) = MEMORY_ZONE_FREE))
      with (pmm_page_is_free s i).
    2:{ rewrite HA. apply tag_zone_free. }
    rewrite bool_decide_false by done. rewrite andb_negb_r, andb_negb_l. simpl.
    pose proof (count_range_bounds 0 i (pmm_page_is_owned s)).
    set (dyn := if tag_is_owned _ then _ else _).
    assert (dyn = count_range 0 (i + 1) (pmm_page_is_owned s)) as ->.
    { subst dyn. rewrite count_range_snoc by lia. fold (pmm_page_is_owned s i).
      destruct (pmm_page_is_owned s i); [|lia]. apply u32_small. lia. }
    set (stats1 := stats <| ds_zone_pages ::= _ |>).
    assert (Hz1 : ds_zone_pages stats1 = zone_counts s (i + 1)).
    { subst stats1. unfold set; simpl. rewrite Hz. apply zone_counts_snoc; [lia|done]. }
    destruct (pmm_page_is_free s i).
    + destruct (IH (i + 1) stats1 (fr +w 1)) as (st & fr' & E1 & E2 & E3); [lia|lia|done|].
      exists st, fr'. rewrite E3. done.
    + destruct (record_free_run_zones stats1 fr) as [R1 R2].
      destruct (IH (i + 1) (memory_record_free_run stats1 fr) 0) as (st & fr' & E1 & E2 & E3);
        [lia|lia|congruence|]. exists st, fr'. rewrite E3, R2. done.
Qed.

Lemma detailed_stats_ok s : pmm_wf s → (memory_get_detailed_stats s).2 = OK.
Proof.
  intros W. unfold memory_get_detailed_stats. cbv zeta. rewrite (pmm_wf_ready _ W).
  pose proof (pl_pages _ (wf_layout _ W)).
  set (st0 := set ds_total_pages _ _).
  destruct (detailed_loop_spec s 0 st0 0 W) as (stats & fr & E & Hz & Ht); [lia|done|].
  rewrite count_range_nil in E by lia. rewrite E.
  destruct (record_free_run_zones stats fr) as [-> ->]. rewrite Hz, Ht.
  change (ds_total_pages st0) with (mi_total_pages (mem_info s)).
  assert (Hfree : zone_count s (mi_total_pages (mem_info s)) MEMORY_ZONE_FREE
                  = mi_free_pages (mem_info s)).
  { rewrite (wf_free _ W). unfold zone_count. apply count_range_ext. intros p Hp.
    rewrite (wf_agree _ W), tag_zone_free by done. done. }
  assert (Hsum : foldl (λ a n, a +w n) 0 (zone_counts s (mi_total_pages (mem_info s)))
                 = mi_total_pages (mem_info s)).
  { pose proof (zone_counts_sum s (mi_total_pages (mem_info s)) ltac:(lia) (wf_tags _ W)).
    change 0 with (u32 0) at 1. rewrite foldl_wrap, u32_small; cbn; lia. }
  rewrite Hsum. cbn [zone_index nth zone_counts fmap list_fmap]. rewrite Hfree, !Z.eqb_refl.
  done.
Qed.
