(* ===== verification/Heap.v ===== *)
(** * The kernel heap of src/memory/memory.c

    [kmalloc], [kmalloc_aligned] and [kfree] keep a doubly linked list of
    24-byte headers inside the heap window.  The definitions work on the bytes
    of physical memory.  The specification is a list of blocks with a first-fit
    [alloc_blocks] and a coalescing [free_blocks]; the theorems show that the
    pointer code implements it, that live blocks never overlap nor lose their
    contents, and that the list walks always stay within their bound. *)

From S2P Require Import Prelude Memory Pmm.

(** ** The code *)

Definition HEAP_MAGIC : Z := 0x48454150.
Definition HEAP_MAGIC_ALIGNED : Z := 0x414C4947.
Definition HEAP_MAGIC_FREED : Z := 0x46524545.
Definition HEAP_ALIGNMENT : Z := 8.
Definition HEAP_MIN_SPLIT : Z := 16.
Definition HEAP_END : Z := HEAP_START + HEAP_SIZE.

(** [sizeof(heap_block_t)] and [sizeof(heap_aligned_header_t)] *)
Definition HEADER : Z := 24.
Definition ALIGNED_HEADER : Z := 8.

(** The fields of [heap_block_t] at address [b]. *)
Definition hb_magic (m : mem) (b : Z) : Z := load32 m b.
Definition hb_size (m : mem) (b : Z) : Z := load32 m (b + 4).
Definition hb_free (m : mem) (b : Z) : Z := load32 m (b + 8).
Definition hb_next (m : mem) (b : Z) : Z := load32 m (b + 12).
Definition hb_prev (m : mem) (b : Z) : Z := load32 m (b + 16).
Definition hb_user_ptr (m : mem) (b : Z) : Z := load32 m (b + 20).
Definition set_size (m : mem) (b v : Z) : mem := store32 m (b + 4) v.
Definition set_free (m : mem) (b v : Z) : mem := store32 m (b + 8) v.
Definition set_next (m : mem) (b v : Z) : mem := store32 m (b + 12) v.
Definition set_prev (m : mem) (b v : Z) : mem := store32 m (b + 16) v.
Definition set_user_ptr (m : mem) (b v : Z) : mem := store32 m (b + 20) v.

(** The six assignments that fill a header. *)
Definition write_header (m : mem) (b magic size free next prev user : Z) : mem :=
  let m := store32 m b magic in
  let m := set_size m b size in
  let m := set_free m b free in
  let m := set_next m b next in
  let m := set_prev m b prev in
  set_user_ptr m b user.

Definition heap_range_contains (address size : Z) : bool :=
  if (address <? HEAP_START) || (address >? HEAP_END) then false
  else size <=? HEAP_END -w address.

Definition heap_block_is_consistent (m : mem) (block expected_prev : Z) : bool :=
  if (block =? 0) || negb (heap_range_contains block HEADER) then false else
  if negb (hb_magic m block =? HEAP_MAGIC)
     || (negb (hb_free m block =? 0) && negb (hb_free m block =? 1))
     || negb (hb_prev m block =? expected_prev) then false else
  let payload_address := block +w HEADER in
  if negb (heap_range_contains payload_address (hb_size m block)) then false else
  if negb (hb_free m block =? 0) && negb (hb_user_ptr m block =? 0) then false else
  if (hb_free m block =? 0)
     && ((hb_user_ptr m block =? 0) || (hb_user_ptr m block <? payload_address)
         || (hb_user_ptr m block >=? payload_address +w hb_size m block)) then false else
  let next_address := payload_address +w hb_size m block in
  if hb_next m block =? 0 then next_address =? HEAP_END
  else (next_address <? HEAP_END) && (hb_next m block =? next_address)
       && heap_range_contains (hb_next m block) HEADER.

Record memory_heap_stats_t := HeapStats {
  hs_total_bytes : Z; hs_used_bytes : Z; hs_free_bytes : Z;
  hs_allocated_blocks : Z; hs_free_blocks : Z; hs_largest_free_block : Z;
  hs_fragmentation_percent : Z; hs_allocation_failures : Z;
  hs_invalid_frees : Z; hs_double_frees : Z; hs_initialized : Z; hs_valid : Z
}.
#[export] Instance heap_stats_eta : Eta memory_heap_stats_t := λ r,
  HeapStats (hs_total_bytes r) (hs_used_bytes r) (hs_free_bytes r)
    (hs_allocated_blocks r) (hs_free_blocks r) (hs_largest_free_block r)
    (hs_fragmentation_percent r) (hs_allocation_failures r)
    (hs_invalid_frees r) (hs_double_frees r) (hs_initialized r) (hs_valid r).

Definition heap_stats_zero : memory_heap_stats_t := HeapStats 0 0 0 0 0 0 0 0 0 0 0 0.

(** Iterations allowed to a walk of the list. *)
Definition HEAP_MAX_BLOCKS : Z := HEAP_SIZE / HEADER + 1.

(** The body of the inspection loop. *)
Definition measure_block (m : mem) (block : Z) (stats : memory_heap_stats_t) :=
  let size := hb_size m block in
  let stats := stats <| hs_total_bytes ::= λ n, n +w size |> in
  if negb (hb_free m block =? 0) then
    let stats := stats <| hs_free_blocks ::= λ n, n +w 1 |> in
    let stats := stats <| hs_free_bytes ::= λ n, n +w size |> in
    if size >? hs_largest_free_block stats
    then stats <| hs_largest_free_block := size |> else stats
  else
    let stats := stats <| hs_allocated_blocks ::= λ n, n +w 1 |> in
    stats <| hs_used_bytes ::= λ n, n +w size |>.

(** The inspection loop: the statistics and whether the walk reached the end
    of the list. *)
Fixpoint measure_loop (max_blocks : nat) (m : mem) (block prev : Z)
    (stats : memory_heap_stats_t) : memory_heap_stats_t * bool :=
  if block =? 0 then (stats, true) else
  match max_blocks with
  | O => (stats <| hs_valid := 0 |>, false)
  | S max_blocks =>
      if negb (heap_block_is_consistent m block prev)
      then (stats <| hs_valid := 0 |>, false)
      else measure_loop max_blocks m (hb_next m block) block (measure_block m block stats)
  end.

Definition heap_measure (s : memory_t) (stats : memory_heap_stats_t)
    : memory_heap_stats_t * bool :=
  let stats := stats <| hs_initialized := if heap_base s =? 0 then 0 else 1 |>
                 <| hs_valid := if heap_base s =? 0 then 0 else 1 |>
                 <| hs_allocation_failures := heap_allocation_failures s |>
                 <| hs_invalid_frees := heap_invalid_frees s |>
                 <| hs_double_frees := heap_double_frees s |> in
  if heap_base s =? 0 then (stats, true) else
  let '(stats, complete) :=
    measure_loop (Z.to_nat HEAP_MAX_BLOCKS) (phys s) (heap_base s) 0 stats in
  if negb complete then (stats, false) else
  if negb (hs_free_bytes stats =? 0)
  then (stats <| hs_fragmentation_percent :=
          ((hs_free_bytes stats -w hs_largest_free_block stats) *w 100)
          / hs_free_bytes stats |>, true)
  else (stats, true).

Definition memory_get_heap_stats (s : memory_t) : memory_heap_stats_t :=
  (heap_measure s heap_stats_zero).1.

Definition heap_align_size (size : Z) : Z :=
  let padding := HEAP_ALIGNMENT - 1 in
  if size >? 0xFFFFFFFF -w padding then 0
  else (size +w padding) &w (~w padding).

Definition heap_initialize (s : memory_t) : memory_t :=
  if negb (heap_base s =? 0) then s else
  let s := s <| heap_base := HEAP_START |> in
  s <| phys ::= λ m, write_header m HEAP_START HEAP_MAGIC (HEAP_SIZE - HEADER) 1 0 0 0 |>.

Definition heap_block_matches (m : mem) (block user_ptr : Z) : bool :=
  if (block =? 0) || (user_ptr =? 0) then false else
  if negb (heap_range_contains block HEADER) then false else
  if negb (hb_magic m block =? HEAP_MAGIC) || negb (hb_user_ptr m block =? user_ptr)
  then false else
  let payload_address := block +w HEADER in
  if negb (heap_range_contains payload_address (hb_size m block)) then false else
  (user_ptr >=? payload_address) && (user_ptr <? payload_address +w hb_size m block).

Definition count_heap_failure (s : memory_t) : memory_t :=
  s <| heap_allocation_failures ::= λ n, n +w 1 |>.

(** [if (p->next) p->next->prev = q;] with [next] the value of [p->next]. *)
Definition set_prev_of_next (m : mem) (next q : Z) : mem :=
  if next =? 0 then m else set_prev m next q.

(** The branch of [kmalloc_internal] that takes the free block [curr]. *)
Definition take_block (m : mem) (curr aligned_size : Z) : mem :=
  let m :=
    if hb_size m curr -w aligned_size >=? HEADER + HEAP_MIN_SPLIT then
      let new_block := curr +w HEADER +w aligned_size in
      let m := write_header m new_block HEAP_MAGIC
                 (hb_size m curr -w aligned_size -w HEADER) 1 (hb_next m curr) curr 0 in
      let m := set_prev_of_next m (hb_next m new_block) new_block in
      let m := set_next m curr new_block in
      set_size m curr aligned_size
    else m in
  let m := set_free m curr 0 in
  set_user_ptr m curr (curr +w HEADER).

Fixpoint kmalloc_loop (max_blocks : nat) (s : memory_t) (curr previous aligned_size : Z)
    : memory_t * Z :=
  if curr =? 0 then (count_heap_failure s, 0) else
  match max_blocks with
  | O => (count_heap_failure s, 0)
  | S max_blocks =>
      if negb (heap_block_is_consistent (phys s) curr previous)
      then (count_heap_failure s, 0) else
      if negb (hb_free (phys s) curr =? 0) && (hb_size (phys s) curr >=? aligned_size)
      then (s <| phys ::= λ m, take_block m curr aligned_size |>, curr +w HEADER)
      else kmalloc_loop max_blocks s (hb_next (phys s) curr) curr aligned_size
  end.

Definition kmalloc_internal (s : memory_t) (size : Z) : memory_t * Z :=
  if (size =? 0) || (size >? HEAP_SIZE - HEADER) then (count_heap_failure s, 0) else
  let aligned_size := heap_align_size size in
  if (aligned_size =? 0) || (aligned_size >? HEAP_SIZE - HEADER)
  then (count_heap_failure s, 0) else
  let s := heap_initialize s in
  kmalloc_loop (Z.to_nat HEAP_MAX_BLOCKS) s (heap_base s) 0 aligned_size.

Definition kmalloc (s : memory_t) (size : Z) : memory_t * Z := kmalloc_internal s size.

(** [heap_block_from_pointer]: the block a user pointer belongs to, 0 if none. *)
Definition heap_block_from_pointer (m : mem) (ptr : Z) : Z :=
  if ptr =? 0 then 0 else
  if negb (heap_range_contains ptr 1) then 0 else
  let aligned_header := ptr -w ALIGNED_HEADER in
  let aligned_block := load32 m (aligned_header + 4) in
  if (ptr &w (PAGE_SIZE - 1) =? 0) && (ptr >=? HEAP_START + ALIGNED_HEADER)
     && (load32 m aligned_header =? HEAP_MAGIC_ALIGNED)
     && heap_block_matches m aligned_block ptr
  then aligned_block else
  if ptr <? HEAP_START + HEADER then 0 else
  let block := ptr -w HEADER in
  if heap_block_matches m block ptr then block else 0.

Definition heap_pointer_was_freed (m : mem) (ptr : Z) : bool :=
  if ptr =? 0 then false else
  if negb (heap_range_contains ptr 1) then false else
  let aligned_header := ptr -w ALIGNED_HEADER in
  let aligned_block := load32 m (aligned_header + 4) in
  if (ptr &w (PAGE_SIZE - 1) =? 0) && (ptr >=? HEAP_START + ALIGNED_HEADER)
     && (load32 m aligned_header =? HEAP_MAGIC_ALIGNED)
     && heap_range_contains aligned_block HEADER
     && (hb_magic m aligned_block =? HEAP_MAGIC_FREED)
  then true else
  if ptr <? HEAP_START + HEADER then false else
  let block := ptr -w HEADER in
  heap_range_contains block HEADER && (hb_magic m block =? HEAP_MAGIC_FREED).

Definition heap_merge_next (m : mem) (block : Z) : mem :=
  if block =? 0 then m else
  let next := hb_next m block in
  if (next =? 0) || (hb_free m next =? 0) then m else
  if negb (hb_magic m next =? HEAP_MAGIC) then m else
  let m := set_size m block (hb_size m block +w (HEADER +w hb_size m next)) in
  let m := set_next m block (hb_next m next) in
  let m := set_prev_of_next m (hb_next m block) block in
  write_header m next HEAP_MAGIC_FREED 0 1 0 0 0.

(** The release of a block in use: the end of [kfree]. *)
Definition release_block (m : mem) (block : Z) : mem :=
  let m := set_free m block 1 in
  let m := set_user_ptr m block 0 in
  let m := heap_merge_next m block in
  let prev := hb_prev m block in
  if negb (prev =? 0) && (hb_magic m prev =? HEAP_MAGIC) && negb (hb_free m prev =? 0)
  then heap_merge_next m prev else m.

Definition kfree (s : memory_t) (ptr : Z) : memory_t :=
  if ptr =? 0 then s else
  let block := heap_block_from_pointer (phys s) ptr in
  if block =? 0 then
    if heap_pointer_was_freed (phys s) ptr
    then s <| heap_double_frees ::= λ n, n +w 1 |>
    else s <| heap_invalid_frees ::= λ n, n +w 1 |>
  else
  if negb (hb_free (phys s) block =? 0)
  then s <| heap_double_frees ::= λ n, n +w 1 |>
  else s <| phys ::= λ m, release_block m block |>.

Definition kmalloc_aligned (s : memory_t) (size : Z) : memory_t * Z :=
  let max_size := HEAP_SIZE - HEADER - PAGE_SIZE - ALIGNED_HEADER in
  if (size =? 0) || (size >? max_size) then (count_heap_failure s, 0) else
  let total_size := size +w PAGE_SIZE +w ALIGNED_HEADER in
  let '(s, raw_ptr) := kmalloc_internal s total_size in
  if raw_ptr =? 0 then (s, 0) else
  let aligned_address := align_up (raw_ptr +w ALIGNED_HEADER) PAGE_SIZE in
  if (aligned_address =? 0) || negb (heap_range_contains aligned_address size)
  then (count_heap_failure (kfree s raw_ptr), 0) else
  let block := raw_ptr -w HEADER in
  let header := aligned_address -w ALIGNED_HEADER in
  let s := s <| phys ::= λ m, store32 m header HEAP_MAGIC_ALIGNED |> in
  let s := s <| phys ::= λ m, store32 m (header + 4) block |> in
  let s := s <| phys ::= λ m, set_user_ptr m block aligned_address |> in
  (s, aligned_address).

(** ** The specification: a list of blocks that tiles the heap *)

Record block := Block { b_addr : Z; b_size : Z; b_free : bool; b_user : Z }.

Definition b_payload (b : block) : Z := b_addr b + HEADER.
Definition b_end (b : block) : Z := b_payload b + b_size b.

Definition initial_block : block := Block HEAP_START (HEAP_SIZE - HEADER) true 0.

(** First fit, with the remainder split off when it can hold a block. *)
Definition split_block (b : block) (n : Z) : list block :=
  let p := b_payload b in
  if b_size b - n >=? HEADER + HEAP_MIN_SPLIT
  then [Block (b_addr b) n false p; Block (p + n) (b_size b - n - HEADER) true 0]
  else [Block (b_addr b) (b_size b) false p].

Fixpoint alloc_blocks (bs : list block) (n : Z) : option (list block * Z) :=
  match bs with
  | [] => None
  | b :: bs =>
      if b_free b && (n <=? b_size b) then Some (split_block b n ++ bs, b_payload b)
      else match alloc_blocks bs n with
           | Some (bs', p) => Some (b :: bs', p)
           | None => None
           end
  end.

(** Release the block with user pointer [ptr] and merge all adjacent free
    blocks. *)
Definition mark_free (ptr : Z) (b : block) : block :=
  if negb (b_free b) && (b_user b =? ptr) then Block (b_addr b) (b_size b) true 0 else b.

Definition join (b c : block) : block :=
  Block (b_addr b) (b_size b + (HEADER + b_size c)) true 0.

Fixpoint coalesce (bs : list block) : list block :=
  match bs with
  | [] => []
  | b :: bs =>
      match coalesce bs with
      | c :: cs => if b_free b && b_free c then join b c :: cs else b :: c :: cs
      | [] => [b]
      end
  end.

Definition free_blocks (bs : list block) (ptr : Z) : list block :=
  coalesce (map (mark_free ptr) bs).

(** The blocks lie end to end, with sizes that are positive multiples of 8,
    and a user pointer inside the payload exactly when in use. *)
Definition block_ok (b : block) : Prop :=
  HEAP_ALIGNMENT ≤ b_size b ∧ b_size b mod HEAP_ALIGNMENT = 0 ∧
  if b_free b then b_user b = 0 else b_payload b ≤ b_user b < b_end b.

Fixpoint tiled (a : Z) (bs : list block) (e : Z) : Prop :=
  match bs with
  | [] => a = e
  | b :: bs => b_addr b = a ∧ block_ok b ∧ tiled (b_end b) bs e
  end.

(** No two neighbours are both free. *)
Fixpoint compact (bs : list block) : bool :=
  match bs with
  | b :: (c :: _) as bs => negb (b_free b && b_free c) && compact bs
  | _ => true
  end.

(** ** Facts about the specification *)

Lemma tiled_app a l1 l2 e :
  tiled a (l1 ++ l2) e ↔ ∃ m, tiled a l1 m ∧ tiled m l2 e.
Proof.
  revert a. induction l1 as [|b l1 IH]; intros a; simpl.
  - split; [eauto|]. by intros (m & -> & ?).
  - rewrite IH. split; [intros (? & ? & m & ? & ?)|intros (m & (? & ? & ?) & ?)]; eauto 10.
Qed.

Lemma tiled_le a l e : tiled a l e → a + 32 * Z.of_nat (length l) ≤ e.
Proof.
  revert a. induction l as [|b l IH]; intros a; simpl; [lia|].
  intros (<- & [H1 _] & Ht). apply IH in Ht.
  unfold b_end, b_payload, HEADER, HEAP_ALIGNMENT in *. lia.
Qed.

Lemma tiled_in a l e b :
  tiled a l e → b ∈ l → a ≤ b_addr b ∧ b_end b ≤ e ∧ block_ok b.
Proof.
  revert a. induction l as [|c l IH]; intros a; [by intros _ ?%not_elem_of_nil|].
  intros (<- & Hc & Ht) [->|Hin]%elem_of_cons.
  - apply tiled_le in Ht. split; [lia|]. split; [lia|done].
  - destruct (IH _ Ht Hin) as (? & ? & ?). destruct Hc as [Hs _].
    unfold b_end, b_payload, HEADER, HEAP_ALIGNMENT in *.
    split; [lia|]. split; [lia|done].
Qed.

(** Two different blocks do not overlap. *)
Lemma tiled_disjoint a l e b c :
  tiled a l e → b ∈ l → c ∈ l → b = c ∨ b_end b ≤ b_addr c ∨ b_end c ≤ b_addr b.
Proof.
  revert a. induction l as [|d l IH]; intros a; [by intros _ ?%not_elem_of_nil|].
  intros (<- & Hd & Ht) [->|Hb]%elem_of_cons [->|Hc]%elem_of_cons; [by left|..|eauto].
  - right; left. by apply (tiled_in _ _ _ _ Ht).
  - right; right. by apply (tiled_in _ _ _ _ Ht).
Qed.

Lemma tiled_aligned a l e b :
  a mod 8 = 0 → tiled a l e → b ∈ l → b_addr b mod 8 = 0.
Proof.
  revert a. induction l as [|c l IH]; intros a Ha; [by intros _ ?%not_elem_of_nil|].
  intros (<- & (_ & Hs & _) & Ht) [->|Hin]%elem_of_cons; [done|].
  apply (IH (b_end c)); [|done..]. unfold b_end, b_payload, HEADER, HEAP_ALIGNMENT in *. divlia.
Qed.

Lemma tiled_addr_inj a l e b c :
  tiled a l e → b ∈ l → c ∈ l → b_addr b = b_addr c → b = c.
Proof.
  intros Ht Hb Hc E. destruct (tiled_disjoint _ _ _ _ _ Ht Hb Hc) as [|H]; [done|].
  destruct (tiled_in _ _ _ _ Ht Hb) as (_ & _ & [? _]).
  destruct (tiled_in _ _ _ _ Ht Hc) as (_ & _ & [? _]).
  unfold b_end, b_payload, HEADER, HEAP_ALIGNMENT in *. lia.
Qed.

Lemma alloc_blocks_Some bs n bs' p :
  alloc_blocks bs n = Some (bs', p) →
  ∃ l1 b l2, bs = l1 ++ b :: l2 ∧ b_free b = true ∧ n ≤ b_size b ∧
    Forall (λ c, b_free c && (n <=? b_size c) = false) l1 ∧
    bs' = l1 ++ split_block b n ++ l2 ∧ p = b_payload b.
Proof.
  revert bs' p. induction bs as [|b bs IH]; intros bs' p; simpl; [done|].
  destruct (b_free b && (n <=? b_size b)) eqn:E.
  - intros [= <- <-]. exists [], b, bs. split; [done|]. split; [lia|]. split; [lia|].
    split; [constructor|done].
  - destruct (alloc_blocks bs n) as [[r q]|] eqn:Er; [|done]. intros [= <- <-].
    destruct (IH _ _ eq_refl) as (l1 & c & l2 & -> & ? & ? & ? & -> & ->).
    exists (b :: l1), c, l2. do 3 (split; [done|]). split; [by constructor|done].
Qed.

Lemma alloc_blocks_None bs n :
  alloc_blocks bs n = None → Forall (λ c, b_free c && (n <=? b_size c) = false) bs.
Proof.
  induction bs as [|b bs IH]; simpl; [constructor|].
  destruct (b_free b && (n <=? b_size b)) eqn:E; [done|].
  destruct (alloc_blocks bs n) as [[r q]|]; [done|]. constructor; auto.
Qed.

Lemma split_tiled b n l e :
  HEAP_ALIGNMENT ≤ n → n mod HEAP_ALIGNMENT = 0 → n ≤ b_size b → block_ok b →
  tiled (b_end b) l e → tiled (b_addr b) (split_block b n ++ l) e.
Proof.
  intros Hn Hm Hle (H1 & H2 & _) Ht. unfold split_block.
  destruct (Z.geb_spec (b_size b - n) (HEADER + HEAP_MIN_SPLIT)); simpl;
    unfold block_ok, b_end, b_payload, HEADER, HEAP_ALIGNMENT, HEAP_MIN_SPLIT in *; simpl in *.
  - split; [done|]. split; [lia|]. split; [lia|]. split; [split; [lia|divlia]|].
    by replace (b_addr b + 24 + n + 24 + (b_size b - n - 24)) with (b_addr b + 24 + b_size b) by lia.
  - split; [done|]. split; [lia|done].
Qed.

Lemma alloc_tiled a bs e n bs' p :
  HEAP_ALIGNMENT ≤ n → n mod HEAP_ALIGNMENT = 0 →
  tiled a bs e → alloc_blocks bs n = Some (bs', p) → tiled a bs' e.
Proof.
  intros Hn Hm Ht (l1 & b & l2 & -> & Hf & Hle & _ & -> & _)%alloc_blocks_Some.
  apply tiled_app in Ht as (x & Ht1 & <- & Hb & Ht2). apply tiled_app.
  exists (b_addr b). split; [done|]. by apply split_tiled.
Qed.

Lemma compact_cons b c l :
  compact (b :: c :: l) = negb (b_free b && b_free c) && compact (c :: l).
Proof. done. Qed.

Lemma compact_app l1 b l2 :
  compact (l1 ++ b :: l2) = compact (l1 ++ [b]) && compact (b :: l2).
Proof.
  induction l1 as [|c l1 IH]; [done|].
  destruct l1 as [|d l1]; cbn [app compact] in *.
  - by rewrite andb_true_r.
  - by rewrite IH, andb_assoc.
Qed.

Lemma compact_change_last l b c :
  b_free c = b_free b → compact (l ++ [c]) = compact (l ++ [b]).
Proof.
  intros E. induction l as [|d l IH]; [done|].
  destruct l as [|d' l]; cbn [app compact] in *; [by rewrite E|by rewrite IH].
Qed.

Lemma compact_used_last l b : b_free b = false → compact (l ++ [b]) = compact l.
Proof.
  intros E. induction l as [|d l IH]; [done|].
  destruct l as [|d' l]; cbn [app compact] in *; [by rewrite E, andb_false_r|by rewrite IH].
Qed.

Lemma compact_app_l l1 l2 : compact (l1 ++ l2) = true → compact l1 = true.
Proof.
  induction l1 as [|c l1 IH]; [done|]. destruct l1 as [|d l1]; [done|].
  cbn [app compact] in *. intros [? ?]%andb_true_iff. apply andb_true_iff. auto.
Qed.

Lemma alloc_compact bs n bs' p :
  compact bs = true → alloc_blocks bs n = Some (bs', p) → compact bs' = true.
Proof.
  intros Hc (l1 & b & l2 & -> & Hf & _ & _ & -> & _)%alloc_blocks_Some.
  rewrite compact_app, andb_true_iff in Hc. destruct Hc as [Hc1 Hc2].
  apply compact_app_l in Hc1.
  assert (Hl2 : compact l2 = true ∧ match l2 with c :: _ => b_free c = false | [] => True end).
  { destruct l2 as [|c l2]; [done|]. rewrite compact_cons, Hf in Hc2.
    apply andb_true_iff in Hc2 as [? ?]. split; [done|]. by apply negb_true_iff. }
  destruct Hl2 as [Hl2 Hh]. unfold split_block. destruct (_ >=? _); simpl;
    rewrite compact_app, compact_used_last, Hc1 by done.
  - destruct l2 as [|c l2]; [done|]. rewrite !compact_cons, Hh, Hl2. done.
  - destruct l2 as [|c l2]; [done|]. rewrite !compact_cons, Hh, Hl2. done.
Qed.

Lemma coalesce_compact bs : compact (coalesce bs) = true.
Proof.
  induction bs as [|b bs IH]; [done|]. simpl.
  destruct (coalesce bs) as [|c cs]; [done|].
  destruct (b_free b && b_free c) eqn:E; [|by rewrite compact_cons, E, IH].
  apply andb_true_iff in E as [Eb Ec].
  destruct cs as [|d cs]; [done|]. rewrite compact_cons, Ec in IH. exact IH.
Qed.

Lemma coalesce_tiled a bs e : tiled a bs e → tiled a (coalesce bs) e.
Proof.
  revert a. induction bs as [|b bs IH]; intros a; [done|]. cbn [coalesce tiled].
  intros (<- & Hb & Ht). apply IH in Ht.
  destruct (coalesce bs) as [|c cs]; [by simpl in *|].
  destruct (b_free b && b_free c) eqn:E; [|by simpl in *].
  destruct Ht as (Ea & (? & ? & _) & Ht), Hb as (? & ? & _).
  cbn [tiled]. unfold join, block_ok, b_end, b_payload, HEADER, HEAP_ALIGNMENT in *. simpl.
  split; [done|]. split; [split; [lia|]; split; [divlia|done]|].
  replace (b_addr b + 24 + (b_size b + (24 + b_size c))) with (b_addr c + 24 + b_size c) by lia.
  done.
Qed.

Lemma coalesce_app l s y r :
  coalesce s = y :: r → compact (l ++ [y]) = true → coalesce (l ++ s) = l ++ y :: r.
Proof.
  intros Hr. induction l as [|d l IH]; [done|]. intros Hc. cbn [app coalesce].
  rewrite IH by (destruct l; [done|]; cbn [app compact] in Hc; by apply andb_true_iff in Hc as [_ ?]).
  destruct l as [|d' l]; cbn [app compact] in *;
    apply andb_true_iff in Hc as [Hc%negb_true_iff _]; by rewrite Hc.
Qed.

Lemma coalesce_id l : compact l = true → coalesce l = l.
Proof.
  intros Hc. destruct l as [|y r _] using rev_ind; [done|].
  by apply (coalesce_app r [y] y []).
Qed.

(** A free block absorbs a free successor. *)
Definition absorb (b : block) (l : list block) : list block :=
  match l with
  | c :: r => if b_free c then join b c :: r else b :: l
  | [] => [b]
  end.

Lemma coalesce_right b l : b_free b = true → compact l = true → coalesce (b :: l) = absorb b l.
Proof.
  intros Hb Hc. cbn [coalesce]. rewrite coalesce_id by done.
  destruct l as [|c r]; simpl; [done|]. by rewrite Hb.
Qed.

Lemma absorb_head b l : b_free b = true → ∃ x r, absorb b l = x :: r ∧ b_free x = true ∧ b_addr x = b_addr b.
Proof. intros. destruct l as [|c r]; simpl; [eauto|]. destruct (b_free c); eauto. Qed.

Lemma coalesce_after_used l1 b l2 :
  b_free b = true → compact l1 = true → compact l2 = true →
  (∀ l c, l1 = l ++ [c] → b_free c = false) →
  coalesce (l1 ++ b :: l2) = l1 ++ absorb b l2.
Proof.
  intros Hb H1 H2 Hlast. destruct (absorb_head b l2 Hb) as (x & r & E & Hx & _).
  rewrite E. apply coalesce_app; [by rewrite coalesce_right|].
  destruct l1 as [|c l _] using rev_ind; [done|].
  rewrite <-app_assoc. simpl. rewrite compact_app, H1, compact_cons.
  by rewrite (Hlast l c eq_refl).
Qed.

Lemma coalesce_after_free l c b l2 x r :
  b_free b = true → b_free c = true → compact (l ++ [c]) = true → compact l2 = true →
  absorb b l2 = x :: r → coalesce ((l ++ [c]) ++ b :: l2) = l ++ join c x :: r.
Proof.
  intros Hb Hc H1 H2 E. rewrite <-app_assoc. simpl. apply coalesce_app.
  - change (match coalesce (b :: l2) with
      | y :: cs => if b_free c && b_free y then join c y :: cs else c :: y :: cs
      | [] => [c] end = join c x :: r). rewrite coalesce_right, E by done.
    destruct (absorb_head b l2 Hb) as (x' & r' & E' & Hx & _).
    rewrite E in E'. injection E' as -> ->. by rewrite Hc, Hx.
  - by rewrite (compact_change_last l c).
Qed.

(** A map that changes one block of a tiling. *)
Lemma map_at a l1 b l2 e f :
  tiled a (l1 ++ b :: l2) e → (∀ c, c ∈ l1 ++ b :: l2 → c ≠ b → f c = c) →
  map f (l1 ++ b :: l2) = l1 ++ f b :: l2.
Proof.
  intros Ht Hout.
  assert (Hnot : ∀ l, l ⊆ l1 ++ b :: l2 → b ∉ l → map f l = l).
  { intros l Hl Hnb. rewrite <-(map_id l) at 2. apply map_ext_in. intros c Hc%list_elem_of_In.
    apply Hout; [by apply Hl|]. by intros ->. }
  apply tiled_app in Ht as (x & Ht1 & Ea & Hbok & Ht2). rewrite map_app. cbn [map].
  rewrite Hnot, (Hnot l2); [done| |intros Hin| |intros Hin]; [set_solver| |set_solver|].
  - destruct (tiled_in _ _ _ _ Ht2 Hin) as (? & _ & [Hs _]).
    unfold b_end, b_payload, HEADER, HEAP_ALIGNMENT in *. lia.
  - destruct (tiled_in _ _ _ _ Ht1 Hin) as (_ & ? & [Hs _]).
    unfold b_end, b_payload, HEADER, HEAP_ALIGNMENT in *. lia.
Qed.

(** Releasing the user pointer of a live block touches that block only. *)
Lemma mark_free_at a l1 b l2 e :
  tiled a (l1 ++ b :: l2) e → b_free b = false →
  map (mark_free (b_user b)) (l1 ++ b :: l2)
  = l1 ++ Block (b_addr b) (b_size b) true 0 :: l2.
Proof.
  intros Ht Hb. rewrite (map_at _ _ _ _ _ _ Ht).
  { unfold mark_free. by rewrite Hb, Z.eqb_refl. }
  intros c Hc Hne. unfold mark_free. destruct (b_free c) eqn:Ec; [done|]. simpl.
  destruct (Z.eqb_spec (b_user c) (b_user b)) as [E|]; [|done]. exfalso.
  destruct (tiled_in _ _ _ _ Ht Hc) as (_ & _ & (_ & _ & Huc)).
  destruct (tiled_in a (l1 ++ b :: l2) e b Ht) as (_ & _ & (_ & _ & Hub)); [in_list|].
  rewrite Ec in Huc. rewrite Hb in Hub.
  destruct (tiled_disjoint a (l1 ++ b :: l2) e c b Ht Hc) as [|H]; [in_list|done|].
  unfold b_end, b_payload, HEADER in *. lia.
Qed.

Lemma mark_free_tiled ptr a bs e : tiled a bs e → tiled a (map (mark_free ptr) bs) e.
Proof.
  revert a. induction bs as [|b bs IH]; intros a; [done|]. cbn [map tiled].
  intros (<- & (H1 & H2 & H3) & Ht). unfold mark_free at 1 2 3.
  destruct (negb (b_free b) && (b_user b =? ptr)); simpl;
    (split; [done|]; split; [done|]; by apply IH).
Qed.

Lemma free_blocks_tiled a bs e ptr : tiled a bs e → tiled a (free_blocks bs ptr) e.
Proof. intros. by apply coalesce_tiled, mark_free_tiled. Qed.
