(* ===== verification/HeapRefine.v ===== *)
(** * The heap code implements the list of blocks

    [heap_rep s bs] says that the headers in physical memory spell out the
    block list [bs] of Heap.v.  Each operation of the allocator is shown to
    take [bs] to the list the specification computes, leaving everything
    outside the heap and every live payload untouched. *)

From S2P Require Import Prelude Memory Pmm Heap.

(** ** Representation *)

Record hdr (m : mem) (b : block) (prev next : Z) : Prop := {
  h_magic : hb_magic m (b_addr b) = HEAP_MAGIC;
  h_size : hb_size m (b_addr b) = b_size b;
  h_free : hb_free m (b_addr b) = if b_free b then 1 else 0;
  h_next : hb_next m (b_addr b) = next;
  h_prev : hb_prev m (b_addr b) = prev;
  h_user : hb_user_ptr m (b_addr b) = b_user b
}.

Definition head_or (n : Z) (l : list block) : Z :=
  match l with b :: _ => b_addr b | [] => n end.
Fixpoint last_or (p : Z) (l : list block) : Z :=
  match l with b :: l => last_or (b_addr b) l | [] => p end.

(** The headers of [bs], linked both ways, between [prev] and [next]. *)
Fixpoint linked (m : mem) (prev : Z) (bs : list block) (next : Z) : Prop :=
  match bs with
  | [] => True
  | b :: bs => hdr m b prev (head_or next bs) ∧ linked m (b_addr b) bs next
  end.

(** How [kfree] finds the block of a live pointer: it starts the payload, or
    is page aligned with a back pointer in the eight bytes before it. *)
Definition user_ok (m : mem) (b : block) : Prop :=
  b_free b = false →
  b_user b = b_payload b ∨
  (b_user b mod PAGE_SIZE = 0 ∧ b_payload b + ALIGNED_HEADER ≤ b_user b ∧
   load32 m (b_user b - 8) = HEAP_MAGIC_ALIGNED ∧ load32 m (b_user b - 4) = b_addr b).

Record heap_rep (s : memory_t) (bs : list block) : Prop := {
  hr_tiled : tiled HEAP_START bs HEAP_END;
  hr_compact : compact bs = true;
  hr_mem : (heap_base s = 0 ∧ bs = [initial_block]) ∨
           (heap_base s = HEAP_START ∧ linked (phys s) 0 bs 0 ∧ Forall (user_ok (phys s)) bs)
}.

(** The bytes no heap operation may change: outside the window, and the
    payloads in use. *)
Definition protected (bs : list block) (a : Z) : Prop :=
  a < HEAP_START ∨ HEAP_END ≤ a ∨
  ∃ b, b ∈ bs ∧ b_free b = false ∧ b_payload b ≤ a < b_end b.

Definition preserved (bs : list block) (m m' : mem) : Prop :=
  ∀ a, protected bs a → load8 m' a = load8 m a.

(** ** Lemmas *)

Lemma head_or_app n l1 l2 : head_or n (l1 ++ l2) = head_or (head_or n l2) l1.
Proof. by destruct l1. Qed.
Lemma last_or_app p l1 l2 : last_or p (l1 ++ l2) = last_or (last_or p l1) l2.
Proof. revert p. induction l1 as [|b l1 IH]; intros p; simpl; [done|apply IH]. Qed.

Lemma linked_app m p l1 l2 n :
  linked m p (l1 ++ l2) n ↔ linked m p l1 (head_or n l2) ∧ linked m (last_or p l1) l2 n.
Proof.
  revert p. induction l1 as [|b l1 IH]; intros p; simpl; [tauto|].
  rewrite IH, head_or_app. tauto.
Qed.

Lemma load32_ext m m' a :
  (∀ i, a ≤ i < a + 4 → load8 m' i = load8 m i) → load32 m' a = load32 m a.
Proof.
  intros H. Transparent load32. unfold load32. Opaque load32.
  rewrite !H by lia. done.
Qed.

Lemma hdr_ext m m' b prev next :
  (∀ i, b_addr b ≤ i < b_payload b → load8 m' i = load8 m i) →
  hdr m b prev next → hdr m' b prev next.
Proof.
  unfold b_payload, HEADER. intros E [H1 H2 H3 H4 H5 H6].
  split; unfold hb_magic, hb_size, hb_free, hb_next, hb_prev, hb_user_ptr in *;
    (erewrite load32_ext; [eassumption|]); intros i Hi; apply E; lia.
Qed.

Lemma linked_ext m m' p l n :
  (∀ b i, b ∈ l → b_addr b ≤ i < b_payload b → load8 m' i = load8 m i) →
  linked m p l n → linked m' p l n.
Proof.
  revert p. induction l as [|b l IH]; intros p E; simpl; [done|].
  intros [H1 H2]. split.
  - eapply hdr_ext; [|done]. intros i Hi. apply (E b); [in_list|done].
  - apply IH; [|done]. intros c i Hc Hi. apply (E c); [in_list|done].
Qed.

Lemma user_ok_ext bs m m' b :
  b ∈ bs → block_ok b → preserved bs m m' → user_ok m b → user_ok m' b.
Proof.
  intros Hin (_ & _ & Hu) Hp H Hf. rewrite Hf in Hu.
  destruct (H Hf) as [|(? & Hle & ? & ?)]; [by left|right]. unfold ALIGNED_HEADER in *.
  repeat split; try done; (erewrite load32_ext; [eassumption|]); intros i Hi; apply Hp;
    right; right; exists b; unfold b_end, b_payload in *; (do 2 (split; [done|])); lia.
Qed.

Ltac unfold_heap := unfold write_header, hb_magic, hb_size, hb_free, hb_next, hb_prev,
  hb_user_ptr, set_size, set_free, set_next, set_prev, set_user_ptr,
  b_end, b_payload, HEADER, HEAP_ALIGNMENT, HEAP_MIN_SPLIT in *.
Ltac unfold_bounds := change HEAP_END with 0x1400000 in *; change HEAP_START with 0x1000000 in *;
  change (HEAP_SIZE - HEADER) with 4194280 in *; change HEAP_SIZE with 0x400000 in *.
(** Reads through a chain of header writes. *)
Ltac mem_step := repeat (rewrite load32_store32_eq || rewrite load32_store32_ne by lia).
Ltac mem8_step := repeat (rewrite load8_store32_ne by lia).

Lemma range_contains_spec address size :
  HEAP_START ≤ address ≤ HEAP_END →
  heap_range_contains address size = (address + size <=? HEAP_END).
Proof.
  intros. unfold heap_range_contains. replace (_ || _) with false by lia.
  rewrite u32_small; [lia|]. unfold_bounds. lia.
Qed.

Lemma head_next a l : tiled a l HEAP_END → HEAP_START ≤ a →
  (l = [] ∧ a = HEAP_END ∧ head_or 0 l = 0) ∨
  (∃ b r, l = b :: r ∧ head_or 0 l = a ∧ a + HEADER ≤ HEAP_END).
Proof.
  destruct l as [|b r]; intros Ht Ha; [by left|right]. exists b, r.
  pose proof (tiled_in _ _ _ b Ht) as (? & ? & [? _]); [in_list|].
  destruct Ht as (<- & _). unfold_heap. repeat split; lia.
Qed.

Lemma head_or_range a l :
  tiled a l HEAP_END → HEAP_START ≤ a → 0 ≤ head_or 0 l < 4294967296.
Proof.
  intros Ht Ha. pose proof (tiled_le _ _ _ Ht).
  destruct (head_next a l Ht Ha) as [(_ & _ & ->)|(c & r & _ & -> & ?)]; unfold_bounds; lia.
Qed.

Lemma hdr_consistent m b prev l :
  tiled (b_addr b) (b :: l) HEAP_END → HEAP_START ≤ b_addr b →
  hdr m b prev (head_or 0 l) → heap_block_is_consistent m (b_addr b) prev = true.
Proof.
  intros (_ & (Hs & _ & Hu) & Ht) Ha [H1 H2 H3 H4 H5 H6].
  pose proof (tiled_le _ _ _ Ht) as Hle. pose proof (head_next _ _ Ht) as Hn.
  unfold heap_block_is_consistent. rewrite H1, H2, H3, H4, H5, H6, !Z.eqb_refl. unfold_heap.
  rewrite (u32_small (b_addr b + 24)), (u32_small (_ + b_size b)) by (unfold_bounds; lia).
  rewrite !range_contains_spec by (unfold_bounds; lia).
  replace (b_addr b =? 0) with false by (unfold_bounds; lia).
  replace (_ <=? HEAP_END) with true by lia. replace (_ <=? HEAP_END) with true by lia.
  assert (Hnext : (if head_or 0 l =? 0 then b_addr b + 24 + b_size b =? HEAP_END
    else (b_addr b + 24 + b_size b <? HEAP_END) && (head_or 0 l =? b_addr b + 24 + b_size b)
      && heap_range_contains (head_or 0 l) 24) = true).
  { destruct Hn as [(_ & E & ->)|(c & r & _ & -> & Hc)]; [unfold_bounds; lia|..].
    - simpl. lia.
    - replace (_ =? 0) with false by (unfold_bounds; lia).
      rewrite range_contains_spec by (unfold_bounds; lia). unfold_bounds; lia. }
  destruct (b_free b); simpl; [by rewrite Hu|].
  replace (_ || _) with false by (unfold_bounds; lia). done.
Qed.

Lemma linked_new_prev m m' a p q l :
  tiled a l HEAP_END → linked m p l 0 →
  (∀ i, a ≤ i < HEAP_END → ¬ (a + 16 ≤ i < a + 20) → load8 m' i = load8 m i) →
  (l ≠ [] → load32 m' (a + 16) = q) → linked m' q l 0.
Proof.
  destruct l as [|b l]; [done|]. intros (<- & [Hs _] & Ht) [H1 H2] Hext Hq.
  pose proof (tiled_le _ _ _ Ht). split.
  - destruct H1 as [H1 H3 H4 H5 H6 H7]. unfold_heap. split; unfold_heap; try (by apply Hq);
      (erewrite load32_ext; [eassumption|]); intros i Hi; apply Hext; lia.
  - eapply linked_ext; [|done]. intros c i Hc Hi.
    destruct (tiled_in _ _ _ _ Ht Hc) as (? & ? & [? _]).
    unfold_heap. apply Hext; lia.
Qed.

(** ** Protected bytes *)

#[export] Instance preserved_refl bs : Reflexive (preserved bs).
Proof. by intros m a. Qed.
#[export] Instance preserved_trans bs : Transitive (preserved bs).
Proof. intros m1 m2 m3 H1 H2 a Ha. by rewrite H2, H1. Qed.

Lemma header_unprotected bs x i :
  tiled HEAP_START bs HEAP_END → x ∈ bs → b_addr x ≤ i < b_payload x → ¬ protected bs i.
Proof.
  intros Ht Hx Hi. destruct (tiled_in _ _ _ _ Ht Hx) as (? & ? & [? _]).
  intros [?|[?|(b & Hb & _ & ?)]]; [unfold_heap; lia..|].
  destruct (tiled_disjoint _ _ _ _ _ Ht Hx Hb) as [->|]; unfold_heap; lia.
Qed.

Lemma free_unprotected bs x i :
  tiled HEAP_START bs HEAP_END → x ∈ bs → b_free x = true →
  b_addr x ≤ i < b_end x → ¬ protected bs i.
Proof.
  intros Ht Hx Hf Hi. destruct (tiled_in _ _ _ _ Ht Hx) as (? & ? & [? _]).
  intros [?|[?|(b & Hb & Hbf & ?)]]; [unfold_heap; lia..|].
  destruct (tiled_disjoint _ _ _ _ _ Ht Hx Hb) as [->|]; [congruence|]. unfold_heap; lia.
Qed.

Lemma preserved_store bs m a v :
  (∀ i, a ≤ i < a + 4 → ¬ protected bs i) → preserved bs m (store32 m a v).
Proof.
  intros H i Hi. apply load8_store32_ne.
  destruct (decide (i < a)); [by left|]. destruct (decide (a + 4 ≤ i)); [by right|].
  exfalso. apply (H i); [lia|done].
Qed.

(** A write to a field of an existing header. *)
Lemma preserved_header bs m x k v :
  tiled HEAP_START bs HEAP_END → x ∈ bs → 0 ≤ k ≤ 20 →
  preserved bs m (store32 m (b_addr x + k) v).
Proof.
  intros Ht Hx Hk. apply preserved_store. intros i Hi.
  apply (header_unprotected bs x); [done..|]. unfold_heap. lia.
Qed.

(** A write inside a free block. *)
Lemma preserved_free bs m x a v :
  tiled HEAP_START bs HEAP_END → x ∈ bs → b_free x = true →
  b_addr x ≤ a → a + 4 ≤ b_end x → preserved bs m (store32 m a v).
Proof.
  intros Ht Hx Hf H1 H2. apply preserved_store. intros i Hi.
  apply (free_unprotected bs x); [done..|lia].
Qed.

(** Reads below an address that a store leaves alone. *)
Lemma preserved_free_step bs m m0 x a v :
  tiled HEAP_START bs HEAP_END → x ∈ bs → b_free x = true →
  b_addr x ≤ a → a + 4 ≤ b_end x → preserved bs m0 m → preserved bs m0 (store32 m a v).
Proof. intros. etransitivity; [done|]. by apply (preserved_free bs m x). Qed.
Lemma preserved_header_step bs m m0 x k v :
  tiled HEAP_START bs HEAP_END → x ∈ bs → 0 ≤ k ≤ 20 →
  preserved bs m0 m → preserved bs m0 (store32 m (b_addr x + k) v).
Proof. intros. etransitivity; [done|]. by apply preserved_header. Qed.

Lemma preserved_write_header bs m m0 x magic size free next prev user :
  tiled HEAP_START bs HEAP_END → x ∈ bs → preserved bs m0 m →
  preserved bs m0 (write_header m (b_addr x) magic size free next prev user).
Proof.
  intros Ht Hx Hp. unfold write_header, set_size, set_free, set_next, set_prev, set_user_ptr.
  do 5 (apply preserved_header_step; [done|done|lia|]).
  etransitivity; [done|]. apply preserved_store. intros i Hi.
  apply (header_unprotected bs x); [done..|]. unfold_heap. lia.
Qed.

(** [if (p->next) p->next->prev = q] on the blocks [l] from address [a]. *)
Lemma set_prev_of_next_spec bs m m0 a l q :
  tiled HEAP_START bs HEAP_END → tiled a l HEAP_END → HEAP_START ≤ a → 0 ≤ q < 2 ^ 32 →
  (∀ x, x ∈ l → x ∈ bs) → preserved bs m0 m →
  let m' := set_prev_of_next m (head_or 0 l) q in
  (∀ i, i < a + 16 ∨ a + 20 ≤ i → load8 m' i = load8 m i) ∧
  (l ≠ [] → load32 m' (a + 16) = q) ∧ preserved bs m0 m'.
Proof.
  intros Htb Ht Ha Hq Hsub Hp. unfold set_prev_of_next.
  destruct (head_next a l Ht Ha) as [(-> & _ & ->)|(c & r & -> & -> & _)]; [done|].
  replace (a =? 0) with false by (unfold_bounds; lia). destruct Ht as (<- & _).
  unfold set_prev. split; [|split].
  - intros. apply load8_store32_ne. lia.
  - intros _. by rewrite load32_store32_eq, u32_small.
  - apply preserved_header_step; [done|apply Hsub; in_list|lia|done].
Qed.

Lemma tiled_focus l1 b l2 :
  tiled HEAP_START (l1 ++ b :: l2) HEAP_END →
  HEAP_START ≤ b_addr b ∧ b_end b ≤ HEAP_END ∧ block_ok b ∧
  tiled HEAP_START l1 (b_addr b) ∧ tiled (b_end b) l2 HEAP_END.
Proof.
  intros Ht. destruct (tiled_in _ _ _ b Ht) as (? & ? & ?); [in_list|].
  apply tiled_app in Ht as (x & ? & <- & _ & ?). done.
Qed.

(** The headers before a block are untouched by writes at or after it. *)
Lemma linked_before m m' a l e p n :
  tiled a l e → linked m p l n → (∀ i, i < e → load8 m' i = load8 m i) → linked m' p l n.
Proof.
  intros Ht Hl Hext. eapply linked_ext; [|done]. intros b i Hb Hi. apply Hext.
  destruct (tiled_in _ _ _ _ Ht Hb) as (_ & ? & [? _]). unfold_heap. lia.
Qed.

Lemma linked_after m m' a l e p n :
  tiled a l e → linked m p l n → (∀ i, a ≤ i → load8 m' i = load8 m i) → linked m' p l n.
Proof.
  intros Ht Hl Hext. eapply linked_ext; [|done]. intros b i Hb Hi. apply Hext.
  destruct (tiled_in _ _ _ _ Ht Hb) as (? & _ & _). unfold_heap. lia.
Qed.

Lemma linked_replace m m' l1 b l2 mid :
  tiled HEAP_START (l1 ++ b :: l2) HEAP_END → linked m 0 (l1 ++ b :: l2) 0 →
  head_or (b_addr b) mid = b_addr b → mid ≠ [] →
  (∀ i, i < b_addr b → load8 m' i = load8 m i) →
  linked m' (last_or 0 l1) mid (head_or 0 l2) →
  linked m' (last_or (last_or 0 l1) mid) l2 0 →
  linked m' 0 (l1 ++ mid ++ l2) 0.
Proof.
  intros (_ & _ & _ & Ht1 & Ht2)%tiled_focus Hl Hh Hne Hext Hm H2.
  apply linked_app in Hl as [Hl1 _]. simpl in Hl1. rewrite !linked_app.
  split; [|done]. replace (head_or 0 (mid ++ l2)) with (b_addr b) by (by destruct mid).
  by eapply linked_before.
Qed.

Lemma take_block_spec m l1 b l2 n :
  tiled HEAP_START (l1 ++ b :: l2) HEAP_END → linked m 0 (l1 ++ b :: l2) 0 →
  b_free b = true → HEAP_ALIGNMENT ≤ n ≤ b_size b →
  let m' := take_block m (b_addr b) n in
  linked m' 0 (l1 ++ split_block b n ++ l2) 0 ∧ preserved (l1 ++ b :: l2) m m'.
Proof.
  intros Ht Hl Hf Hn. pose proof (tiled_focus _ _ _ Ht) as (Hlo & Hhi & [Hs _] & Ht1 & Ht2).
  pose proof Hl as [_ [Hb Hl2]]%linked_app. destruct Hb as [B1 B2 B3 B4 B5 B6].
  pose proof (head_or_range _ _ Ht2 ltac:(unfold_heap; lia)) as Hnext.
  unfold take_block, split_block. rewrite B2, B4.
  rewrite (u32_small (b_size b - n)) by (unfold_heap; unfold_bounds; lia).
  assert (Hin : b ∈ l1 ++ b :: l2) by in_list.
  destruct (Z.geb_spec (b_size b - n) (HEADER + HEAP_MIN_SPLIT)) as [Hsplit|Hsplit].
  - set (new := b_addr b +w HEADER +w n).
    assert (Enew : new = b_payload b + n).
    { subst new. unfold_heap. unfold_bounds. rewrite (u32_small (_ + 24)), u32_small; lia. }
    clearbody new. subst new. rewrite (u32_small (b_size b - n - HEADER)) by (unfold_heap; unfold_bounds; lia).
    set (m1 := write_header m _ _ _ _ _ _ _).
    assert (P1 : preserved (l1 ++ b :: l2) m m1).
    { subst m1. unfold_heap. do 6 (apply (preserved_free_step _ _ _ b); [done..|lia|unfold_heap; lia|]).
      reflexivity. }
    assert (E1 : ∀ i, i < b_payload b + n ∨ b_payload b + n + HEADER ≤ i → load8 m1 i = load8 m i).
    { intros i Hi. subst m1. unfold_heap. mem8_step. done. }
    assert (N1 : hb_next m1 (b_payload b + n) = head_or 0 l2).
    { subst m1. unfold_heap. mem_step. by apply u32_small. }
    rewrite N1.
    edestruct (set_prev_of_next_spec (l1 ++ b :: l2) m1 m (b_end b) l2 (b_payload b + n))
      as (E2 & N2 & P2); [done|done|unfold_heap; lia|unfold_heap; unfold_bounds; lia|
      intros; in_list|done|].
    set (m2 := set_prev_of_next _ _ _) in *.
    assert (F2 : ∀ x, x + 4 ≤ b_end b → load32 m2 x = load32 m1 x)
      by (intros x Hx; apply load32_ext; intros i Hi; apply E2; lia).
    rewrite (u32_small (b_addr b + HEADER)) by (unfold_heap; unfold_bounds; lia).
    split.
    + apply (linked_replace m _ l1 b l2); try done.
      * intros i Hi. unfold_heap. mem8_step. rewrite E2, E1 by lia. done.
      * simpl. unfold_heap. subst m1. split; [|split; [|done]]; split; simpl; unfold_heap;
          mem_step; rewrite ?F2 by lia; mem_step; try done; rewrite ?u32_small; try done;
          unfold_bounds; lia.
      * apply (linked_new_prev m _ (b_end b) (b_addr b)); [done..| |].
        -- intros i Hi Hne. unfold_heap. mem8_step. rewrite E2, E1 by lia. done.
        -- intros Hne. unfold_heap. mem_step. by apply N2.
    + unfold_heap. do 4 (apply (preserved_free_step _ _ _ b); [done..|lia|unfold_heap; lia|]). done.
  - split.
    + apply (linked_replace m _ l1 b l2); try done.
      * intros i Hi. unfold_heap. mem8_step. done.
      * simpl. unfold_heap. rewrite (u32_small (b_addr b + 24)) by (unfold_bounds; lia).
        split; [|done]. split; simpl; unfold_heap; mem_step; try done.
        apply u32_small. unfold_bounds; lia.
      * apply (linked_after m _ (b_end b) _ HEAP_END); [done..|].
        intros i Hi. unfold_heap. mem8_step. done.
    + unfold_heap. do 2 (apply (preserved_free_step _ _ _ b); [done..|lia|unfold_heap; lia|]). done.
Qed.

(** ** Allocation *)

(** The size [kmalloc] looks for, if it accepts the request. *)
Definition heap_request (size : Z) : option Z :=
  if (size =? 0) || (size >? HEAP_SIZE - HEADER) then None
  else Some ((size + 7) / 8 * 8).

Definition spec_kmalloc (bs : list block) (size : Z) : option (list block * Z) :=
  n ← heap_request size; alloc_blocks bs n.

(** The heap functions leave every variable of the page manager alone. *)
Record heap_only (s s' : memory_t) : Prop := {
  ho_info : mem_info s' = mem_info s;
  ho_owner : pmm_owner_bitmap s' = pmm_owner_bitmap s;
  ho_owner_size : pmm_owner_bitmap_size s' = pmm_owner_bitmap_size s;
  ho_owned : pmm_owned_pages s' = pmm_owned_pages s;
  ho_failures : pmm_allocation_failures s' = pmm_allocation_failures s;
  ho_invalid : pmm_invalid_frees s' = pmm_invalid_frees s
}.
#[export] Instance heap_only_refl : Reflexive heap_only.
Proof. by split. Qed.
#[export] Instance heap_only_trans : Transitive heap_only.
Proof. intros s1 s2 s3 [] []. split; congruence. Qed.

Lemma heap_align_size_spec size :
  0 < size ≤ HEAP_SIZE - HEADER → heap_align_size size = (size + 7) / 8 * 8.
Proof.
  intros. unfold_bounds. unfold heap_align_size, HEAP_ALIGNMENT.
  change (0xFFFFFFFF -w (8 - 1)) with 0xFFFFFFF8. replace (_ >? _) with false by lia.
  change (8 - 1) with (Z.ones 3). change (size + Z.ones 3) with (size + 7).
  by rewrite (u32_small (size + 7)), land_u32_lnot, land_lnot_ones by lia.
Qed.

Lemma heap_request_spec size n :
  0 ≤ size → heap_request size = Some n →
  heap_align_size size = n ∧ size ≤ n ≤ HEAP_SIZE - HEADER ∧ HEAP_ALIGNMENT ≤ n ∧
  n mod HEAP_ALIGNMENT = 0 ∧ 0 < size ≤ HEAP_SIZE - HEADER.
Proof.
  unfold heap_request. destruct (_ || _) eqn:E; [done|]. intros Hs [= <-].
  rewrite heap_align_size_spec by lia. unfold_bounds. unfold HEAP_ALIGNMENT.
  split; [done|]. split; [divlia|]. split; [divlia|]. split; [apply Z.mod_mul; lia|lia].
Qed.

Lemma kmalloc_loop_spec l2 l1 fuel s n :
  tiled HEAP_START (l1 ++ l2) HEAP_END → linked (phys s) 0 (l1 ++ l2) 0 →
  (length l2 ≤ fuel)%nat →
  kmalloc_loop fuel s (head_or 0 l2) (last_or 0 l1) n =
  match alloc_blocks l2 n with
  | Some (_, p) => (s <| phys ::= λ m, take_block m (p - HEADER) n |>, p)
  | None => (count_heap_failure s, 0)
  end.
Proof.
  revert l1 fuel. induction l2 as [|b l2 IH]; intros l1 fuel Ht Hl Hfuel.
  { by destruct fuel. }
  pose proof (tiled_focus _ _ _ Ht) as (Hlo & Hhi & Hok & _ & Ht2).
  pose proof Hl as [_ [Hb _]]%linked_app. destruct fuel as [|fuel]; [simpl in Hfuel; lia|].
  cbn [kmalloc_loop head_or alloc_blocks].
  replace (b_addr b =? 0) with false by (unfold_bounds; lia).
  rewrite (hdr_consistent _ _ _ l2) by done. cbn [negb].
  destruct Hb as [_ -> -> -> _ _].
  replace (negb ((if b_free b then 1 else 0) =? 0)) with (b_free b) by (by destruct (b_free b)).
  rewrite Z.geb_leb. destruct (b_free b && (n <=? b_size b)).
  - destruct Hok as [? _]. rewrite u32_small by (unfold_heap; unfold_bounds; lia). unfold b_payload.
    by replace (b_addr b + HEADER - HEADER) with (b_addr b) by lia.
  - specialize (IH (l1 ++ [b]) fuel). rewrite <-app_assoc in IH. simpl in IH, Hfuel.
    rewrite last_or_app in IH. simpl in IH. rewrite IH by (done || lia).
    by destruct (alloc_blocks l2 n) as [[? ?]|].
Qed.

(** The number of blocks stays far below the iteration limit. *)
Lemma blocks_bound bs :
  tiled HEAP_START bs HEAP_END → (length bs ≤ Z.to_nat HEAP_MAX_BLOCKS)%nat.
Proof.
  intros Ht%tiled_le. unfold_bounds. change HEAP_MAX_BLOCKS with 174763. lia.
Qed.

#[local] Opaque HEAP_MAX_BLOCKS.

Lemma heap_initialize_spec s bs :
  heap_rep s bs →
  let s' := heap_initialize s in
  heap_base s' = HEAP_START ∧ linked (phys s') 0 bs 0 ∧ Forall (user_ok (phys s')) bs ∧
  preserved bs (phys s) (phys s') ∧
  s' = s <| phys := phys s' |> <| heap_base := HEAP_START |>.
Proof.
  intros [Ht _ [[E ->]|(E & Hl & Hu)]]; unfold heap_initialize; rewrite E; simpl.
  - split; [done|]. split; [|split; [|split; [|done]]].
    + split; [|done]. unfold initial_block. unfold_heap. unfold set; simpl.
      split; unfold_heap; simpl; mem_step; done.
    + by constructor.
    + unfold set; simpl. unfold_heap.
      do 6 (apply (preserved_free_step _ _ _ initial_block); [done|in_list|done|done|done|]). done.
  - split; [done|]. split; [done|]. split; [done|]. split; [done|]. by destruct s; simpl in *; subst.
Qed.

Lemma user_ok_alloc bs m m' n bs' p :
  tiled HEAP_START bs HEAP_END → preserved bs m m' → Forall (user_ok m) bs →
  alloc_blocks bs n = Some (bs', p) → Forall (user_ok m') bs'.
Proof.
  intros Ht Hp Hu (l1 & b & l2 & -> & _ & _ & _ & -> & _)%alloc_blocks_Some.
  assert (Hu' : Forall (user_ok m') (l1 ++ b :: l2)).
  { rewrite Forall_forall in *. intros c Hc.
    apply (user_ok_ext (l1 ++ b :: l2) m); auto. by apply (tiled_in _ _ _ _ Ht). }
  rewrite Forall_app, Forall_cons in Hu'. destruct Hu' as (H1 & _ & H2).
  rewrite !Forall_app. split; [done|]. split; [|done]. unfold split_block.
  assert (∀ a k u, user_ok m' (Block a k true u)) by (by intros).
  assert (∀ a k, user_ok m' (Block a k false (a + HEADER))) by (by left).
  destruct (_ >=? _); eauto using Forall_cons_2, Forall_nil_2.
Qed.

(** What every heap operation guarantees besides its result. *)
Record heap_step (bs : list block) (s s' : memory_t) : Prop := {
  hs_only : heap_only s s';
  hs_preserved : preserved bs (phys s) (phys s')
}.

Lemma heap_step_refl bs s s' :
  phys s' = phys s → heap_only s s' → heap_step bs s s'.
Proof. intros E H. split; [done|]. by rewrite E. Qed.

Lemma kmalloc_spec s bs size :
  heap_rep s bs → 0 ≤ size →
  let '(s', p) := kmalloc_internal s size in
  heap_step bs s s' ∧ heap_invalid_frees s' = heap_invalid_frees s ∧
  heap_double_frees s' = heap_double_frees s ∧
  match spec_kmalloc bs size with
  | Some (bs', q) => p = q ∧ heap_rep s' bs' ∧
      heap_allocation_failures s' = heap_allocation_failures s
  | None => p = 0 ∧ heap_rep s' bs ∧
      heap_allocation_failures s' = heap_allocation_failures s +w 1
  end.
Proof.
  intros R Hs. unfold kmalloc_internal, spec_kmalloc.
  destruct (heap_request size) as [n|] eqn:Hreq; cycle 1.
  { unfold heap_request in Hreq. destruct (_ || _); [|done]. simpl.
    split; [by apply heap_step_refl|]. do 3 (split; [done|]). split; [|done].
    destruct R; by split. }
  destruct (heap_request_spec _ _ Hs Hreq) as (-> & Hn & Hn8 & Hnm & Hsz).
  replace (_ || _) with false by lia. replace (_ || _) with false by (unfold HEAP_ALIGNMENT in *; lia).
  cbv zeta. simpl.
  destruct (heap_initialize_spec s bs R) as (Eb & Hl & Hu & Hp & Es).
  set (s1 := heap_initialize s) in *. clearbody s1. destruct R as [Ht Hc _].
  assert (Ebase : heap_base s1 = head_or 0 bs).
  { rewrite Eb. destruct bs as [|b bs]; [done|]. by destruct Ht. }
  rewrite Ebase. change 0 with (last_or 0 []) at 2.
  rewrite kmalloc_loop_spec by (done || by apply blocks_bound).
  assert (Ho : heap_only s s1) by (rewrite Es; by split).
  destruct (alloc_blocks bs n) as [[bs' p]|] eqn:Ea.
  - pose proof Ea as (l1 & b & l2 & E & Hf & Hle & _ & E' & ->)%alloc_blocks_Some.
    unfold b_payload. replace (b_addr b + HEADER - HEADER) with (b_addr b) by lia.
    rewrite E in Ht, Hl. destruct (take_block_spec (phys s1) l1 b l2 n Ht Hl Hf) as [Hl' Hp']; [lia|].
    rewrite <-E' in Hl'. rewrite <-E in Ht, Hp'.
    split; [split; [by destruct Ho; split|by etransitivity]|]. do 2 (split; [by rewrite Es|]).
    split; [done|]. split; [|by rewrite Es].
    split; [by eapply alloc_tiled|by eapply alloc_compact|]. right. split; [done|].
    split; [done|]. by eapply user_ok_alloc.
  - split; [split; [by destruct Ho; split|done]|]. do 2 (split; [by rewrite Es|]). split; [done|].
    split; [split; auto|]. by rewrite Es.
Qed.

(** ** Release *)

(** Two neighbours give way to one block that starts where the first did. *)
Lemma linked_join m m' l1 b c l2 d :
  tiled HEAP_START (l1 ++ b :: c :: l2) HEAP_END → linked m 0 (l1 ++ b :: c :: l2) 0 →
  b_addr d = b_addr b →
  (∀ i, i < b_addr b → load8 m' i = load8 m i) →
  hdr m' d (last_or 0 l1) (head_or 0 l2) →
  linked m' (b_addr b) l2 0 →
  linked m' 0 (l1 ++ d :: l2) 0.
Proof.
  intros Ht Hl Ed Hext Hd H2. pose proof (tiled_focus _ _ _ Ht) as (_ & _ & _ & Ht1 & _).
  apply linked_app in Hl as [Hl1 _]. simpl in Hl1. apply linked_app. split.
  - simpl. rewrite Ed. by eapply linked_before.
  - simpl. split; [done|by rewrite Ed].
Qed.

Lemma merge_next_spec m l1 b l2 :
  tiled HEAP_START (l1 ++ b :: l2) HEAP_END → linked m 0 (l1 ++ b :: l2) 0 →
  b_free b = true →
  let m' := heap_merge_next m (b_addr b) in
  linked m' 0 (l1 ++ absorb b l2) 0 ∧ preserved (l1 ++ b :: l2) m m'.
Proof.
  intros Ht Hl Hf. pose proof (tiled_focus _ _ _ Ht) as (Hlo & Hhi & [Hs [_ Hu]] & Ht1 & Ht2).
  rewrite Hf in Hu.
  pose proof Hl as [_ [Hb Hl2]]%linked_app. destruct Hb as [B1 B2 B3 B4 B5 B6].
  unfold heap_merge_next, absorb. replace (b_addr b =? 0) with false by (unfold_bounds; lia).
  rewrite B4. destruct l2 as [|c l2]; [done|]. cbn [head_or]. cbn [linked] in Hl2.
  destruct Hl2 as [[C1 C2 C3 C4 C5 C6] Hl2]. rewrite C3.
  destruct Ht2 as (Eac & [Hsc _] & Ht2).
  pose proof (tiled_le _ _ _ Ht2) as Hle. rewrite C1.
  pose proof (head_or_range (b_end c) l2 Ht2 ltac:(unfold_heap; lia)) as Hnext.
  replace (b_addr c =? 0) with false by (unfold_heap; unfold_bounds; lia).
  destruct (b_free c) eqn:Hfc; [cbn [orb negb Z.eqb]|done]. rewrite Z.eqb_refl. cbn [negb].
  rewrite B2, C2. rewrite (u32_small (HEADER + b_size c)), (u32_small (b_size b + _))
    by (unfold_heap; unfold_bounds; lia).
  set (m1 := set_size m _ _). set (bs := l1 ++ b :: c :: l2) in *.
  assert (N1 : hb_next m1 (b_addr c) = head_or 0 l2).
  { rewrite <-C4. subst m1. unfold_heap. by mem_step. }
  rewrite N1. set (m2 := set_next m1 _ _).
  assert (N2 : hb_next m2 (b_addr b) = head_or 0 l2).
  { subst m2. unfold_heap. mem_step. by apply u32_small. }
  rewrite N2.
  assert (P2 : preserved bs m m2).
  { subst m2 m1. unfold set_size, set_next.
    do 2 (apply preserved_header_step; [done|subst bs; in_list|lia|]). done. }
  edestruct (set_prev_of_next_spec bs m2 m (b_end c) l2 (b_addr b)) as (E3 & N3 & P3);
    [done|done|unfold_heap; lia|unfold_heap; unfold_bounds; lia|intros; subst bs; in_list|done|].
  set (m3 := set_prev_of_next _ _ _) in *.
  assert (F3 : ∀ x, x + 4 ≤ b_end c → load32 m3 x = load32 m2 x)
    by (intros x Hx; apply load32_ext; intros i Hi; apply E3; unfold_heap; lia).
  split.
  - apply (linked_join m _ l1 b c l2); [done..| | |].
    + intros i Hi. unfold_heap. mem8_step. rewrite E3 by lia. subst m2 m1. mem8_step. done.
    + split; simpl; unfold_heap; mem_step; rewrite F3 by lia; subst m2 m1; mem_step;
        rewrite ?u32_small by (unfold_bounds; lia); try done; [by rewrite Hf in B3|congruence].
    + apply (linked_new_prev m _ (b_end c) (b_addr c)); [done..| |].
      * intros i Hi Hne. unfold_heap. mem8_step. rewrite E3 by lia. subst m2 m1. by mem8_step.
      * intros Hne. unfold_heap. mem_step. by apply N3.
  - apply preserved_write_header; [done|subst bs; in_list|done].
Qed.

(** Merging only touches free blocks. *)
Lemma coalesce_used l x : b_free x = false → x ∈ coalesce l ↔ x ∈ l.
Proof.
  intros Hx. induction l as [|b l IH]; [done|]. cbn [coalesce].
  rewrite (elem_of_cons l), <-IH. destruct (coalesce l) as [|c cs]; [by rewrite elem_of_cons|].
  destruct (b_free b && b_free c) eqn:E; [|by rewrite elem_of_cons].
  apply andb_true_iff in E as [Eb Ec]. rewrite !elem_of_cons.
  assert (x ≠ join b c) by (intros ->; done). assert (x ≠ b) by congruence.
  assert (x ≠ c) by congruence. tauto.
Qed.

Lemma preserved_coalesce l m m' : preserved (coalesce l) m m' ↔ preserved l m m'.
Proof.
  unfold preserved, protected. split; intros H a Ha; apply H;
    destruct Ha as [|[|(b & ? & ? & ?)]]; auto; right; right; exists b; by rewrite ?coalesce_used in *.
Qed.

Lemma preserved_absorb l1 b l2 m m' :
  b_free b = true → compact l2 = true →
  preserved (l1 ++ absorb b l2) m m' → preserved (l1 ++ b :: l2) m m'.
Proof.
  intros Hb Hc. rewrite <-coalesce_right by done. unfold preserved, protected.
  intros H a Ha. apply H. destruct Ha as [|[|(x & Hin & Hx & ?)]]; auto.
  right; right. exists x. split; [|done]. rewrite elem_of_app in *. by rewrite coalesce_used.
Qed.

Lemma absorb_tiled a l1 b l2 e :
  tiled a (l1 ++ b :: l2) e → b_free b = true → compact l2 = true →
  tiled a (l1 ++ absorb b l2) e.
Proof.
  intros (x & H1 & H2)%tiled_app Hb Hc. apply tiled_app. exists x. split; [done|].
  rewrite <-coalesce_right by done. by apply coalesce_tiled.
Qed.

(** The first half of a release: the block becomes free and absorbs a free
    successor. *)
Lemma release_right m l1 b l2 :
  let b' := Block (b_addr b) (b_size b) true 0 in
  tiled HEAP_START (l1 ++ b' :: l2) HEAP_END → linked m 0 (l1 ++ b :: l2) 0 →
  let m3 := heap_merge_next (set_user_ptr (set_free m (b_addr b) 1) (b_addr b) 0) (b_addr b) in
  linked m3 0 (l1 ++ absorb b' l2) 0 ∧ preserved (l1 ++ b' :: l2) m m3 ∧
  hb_prev m3 (b_addr b) = last_or 0 l1.
Proof.
  intros b' Ht Hl. set (m2 := set_user_ptr _ _ _).
  pose proof (tiled_focus _ _ _ Ht) as (Hlo & Hhi & [Hs _] & Ht1 & Ht2).
  change (b_addr b') with (b_addr b) in *.
  assert (P2 : preserved (l1 ++ b' :: l2) m m2).
  { subst m2. change (b_addr b) with (b_addr b'). unfold set_user_ptr, set_free.
    do 2 (apply preserved_header_step; [done|in_list|lia|]). done. }
  assert (L2 : linked m2 0 (l1 ++ b' :: l2) 0).
  { apply linked_app in Hl as [Hl1 [Hb Hl2]]. apply linked_app. split; [|split].
    - eapply linked_before; [done|done|]. intros i Hi. subst m2. unfold_heap. by mem8_step.
    - destruct Hb as [B1 B2 B3 B4 B5 B6]. subst m2. split; simpl; unfold_heap; mem_step; done.
    - eapply linked_after; [done|done|]. intros i Hi. subst m2. unfold_heap. simpl in *.
      by mem8_step. }
  destruct (merge_next_spec m2 l1 b' l2 Ht L2 eq_refl) as [L3 P3].
  split; [done|]. split; [by etransitivity|].
  destruct (absorb_head b' l2 eq_refl) as (x & r & Ex & Hx & Eax).
  rewrite Ex in L3. apply linked_app in L3 as [_ [[_ _ _ _ Hp _] _]]. by rewrite <-Hp, Eax.
Qed.

Lemma release_block_spec m l1 b l2 :
  let b' := Block (b_addr b) (b_size b) true 0 in
  tiled HEAP_START (l1 ++ b' :: l2) HEAP_END → compact l1 = true → compact l2 = true →
  linked m 0 (l1 ++ b :: l2) 0 →
  let m' := release_block m (b_addr b) in
  linked m' 0 (coalesce (l1 ++ b' :: l2)) 0 ∧ preserved (l1 ++ b' :: l2) m m'.
Proof.
  intros b' Ht Hc1 Hc2 Hl. unfold release_block.
  destruct (release_right m l1 b l2 Ht Hl) as (L3 & P3 & Hprev). fold b' in L3, P3.
  set (m3 := heap_merge_next _ (b_addr b)) in *. clearbody m3. rewrite Hprev.
  destruct l1 as [|c l _] using rev_ind.
  { rewrite (coalesce_after_used [] b' l2); try done. by intros [|? ?] ?. }
  rewrite last_or_app. cbn [last_or].
  assert (Htc : tiled HEAP_START (l ++ c :: b' :: l2) HEAP_END) by (by rewrite <-app_assoc in Ht).
  pose proof (tiled_focus _ _ _ Htc) as (Hclo & _).
  replace (b_addr c =? 0) with false by (unfold_bounds; lia).
  assert (Hhc : hb_magic m3 (b_addr c) = HEAP_MAGIC ∧
                hb_free m3 (b_addr c) = if b_free c then 1 else 0).
  { rewrite <-app_assoc in L3. by apply linked_app in L3 as [_ [[? _ ? _ _ _] _]]. }
  destruct Hhc as [-> ->]. rewrite Z.eqb_refl. cbn [negb andb].
  destruct (absorb_head b' l2 eq_refl) as (x & r & Ex & Hx & _).
  destruct (b_free c) eqn:Hfc; cbn [negb Z.eqb].
  - rewrite (coalesce_after_free l c b' l2 x r) by done.
    rewrite Ex, <-app_assoc in L3. simpl in L3.
    assert (Ht3 : tiled HEAP_START (l ++ c :: x :: r) HEAP_END).
    { pose proof (absorb_tiled _ _ _ _ _ Ht eq_refl Hc2) as Ht3. rewrite Ex, <-app_assoc in Ht3. done. }
    destruct (merge_next_spec m3 l c (x :: r) Ht3 L3 Hfc) as [L4 P4].
    unfold absorb in L4. rewrite Hx in L4. split; [done|].
    etransitivity; [done|]. apply preserved_absorb; [done..|]. by rewrite Ex, <-app_assoc.
  - rewrite coalesce_after_used; try done. by intros l' c' [_ [= <-]]%app_inj_tail.
Qed.

Lemma merge_next_freed m block next :
  block ≠ 0 → next ≠ 0 → hb_next m block = next → hb_free m next = 1 →
  hb_magic m next = HEAP_MAGIC →
  let m' := heap_merge_next m block in
  hb_magic m' next = HEAP_MAGIC_FREED ∧ hb_prev m' next = 0 ∧ hb_user_ptr m' next = 0.
Proof.
  intros Hb Hn E1 E2 E3. unfold heap_merge_next. rewrite E1, E2, E3.
  replace (block =? 0) with false by lia. replace (next =? 0) with false by lia.
  rewrite Z.eqb_refl. cbn [orb negb Z.eqb]. unfold_heap. mem_step. done.
Qed.

(** A block that joins a free predecessor leaves a dead header behind. *)
Lemma release_merged m l c b l2 :
  let b' := Block (b_addr b) (b_size b) true 0 in
  tiled HEAP_START ((l ++ [c]) ++ b' :: l2) HEAP_END → linked m 0 ((l ++ [c]) ++ b :: l2) 0 →
  b_free c = true →
  let m' := release_block m (b_addr b) in
  hb_magic m' (b_addr b) = HEAP_MAGIC_FREED ∧ hb_prev m' (b_addr b) = 0 ∧
  hb_user_ptr m' (b_addr b) = 0.
Proof.
  intros b' Ht Hl Hc. unfold release_block.
  destruct (release_right m (l ++ [c]) b l2 Ht Hl) as (L3 & _ & Hprev). fold b' in L3.
  set (m3 := heap_merge_next _ (b_addr b)) in *. clearbody m3. rewrite Hprev, last_or_app. cbn [last_or].
  pose proof (tiled_focus _ _ _ Ht) as (Hblo & _). rewrite <-app_assoc in Ht.
  pose proof (tiled_focus _ _ _ Ht) as (Hclo & _). change (b_addr b') with (b_addr b) in *.
  destruct (absorb_head b' l2 eq_refl) as (x & r & Ex & Hx & Eax).
  rewrite Ex, <-app_assoc in L3. simpl in L3.
  apply linked_app in L3 as [_ [[C1 _ C3 C4 _ _] [[X1 _ X3 _ _ _] _]]].
  simpl in C4. rewrite Eax in *. change (b_addr b') with (b_addr b) in *.
  rewrite C1, C3, Hc, Z.eqb_refl. replace (b_addr c =? 0) with false by (unfold_bounds; lia).
  apply merge_next_freed; [unfold_bounds; lia..|done| |done]. by rewrite X3, Hx.
Qed.

(** ** From a user pointer back to its block *)

Lemma last_or_range a l e p :
  tiled a l e → HEAP_START ≤ a → e ≤ HEAP_END → 0 ≤ p < HEAP_END →
  0 ≤ last_or p l < HEAP_END.
Proof.
  revert a p. induction l as [|b l IH]; intros a p; [done|].
  intros (<- & [Hs _] & Ht) Ha He Hp. pose proof (tiled_le _ _ _ Ht).
  cbn [last_or]. apply (IH (b_end b)); unfold_heap; unfold_bounds; try done; lia.
Qed.

Lemma hdr_matches m b prev next ptr :
  HEAP_START ≤ b_addr b → b_end b ≤ HEAP_END → HEAP_ALIGNMENT ≤ b_size b →
  hdr m b prev next → b_payload b ≤ ptr < b_end b →
  heap_block_matches m (b_addr b) ptr = (b_user b =? ptr).
Proof.
  intros Hlo Hhi Hs [H1 H2 _ _ _ H6] Hp. unfold heap_block_matches. rewrite H1, H2, H6.
  rewrite Z.eqb_refl. unfold_heap. replace (_ || _) with false by (unfold_bounds; lia).
  rewrite (u32_small (b_addr b + 24)), (u32_small (_ + b_size b)) by (unfold_bounds; lia).
  rewrite !range_contains_spec by (unfold_bounds; lia).
  replace (_ <=? HEAP_END) with true by lia. replace (_ <=? HEAP_END) with true by lia.
  cbn [negb orb]. destruct (b_user b =? ptr); [|done]. cbn [negb]. lia.
Qed.

(** The eight bytes before a payload end the header: they never look like the
    header of an aligned allocation. *)
Lemma payload_not_aligned m l1 b l2 :
  tiled HEAP_START (l1 ++ b :: l2) HEAP_END → linked m 0 (l1 ++ b :: l2) 0 →
  (load32 m (b_payload b -w ALIGNED_HEADER) =? HEAP_MAGIC_ALIGNED) = false.
Proof.
  intros Ht Hl. pose proof (tiled_focus _ _ _ Ht) as (Hlo & Hhi & [Hs _] & Ht1 & _).
  apply linked_app in Hl as [_ [[_ _ _ _ Hp _] _]].
  pose proof (last_or_range _ _ _ 0 Ht1) as Hr.
  unfold ALIGNED_HEADER. unfold_heap. rewrite u32_small by (unfold_bounds; lia).
  replace (b_addr b + 24 - 8) with (b_addr b + 16) by lia. rewrite Hp.
  unfold HEAP_MAGIC_ALIGNED. unfold_bounds. lia.
Qed.

Lemma from_pointer_payload m l1 b l2 :
  tiled HEAP_START (l1 ++ b :: l2) HEAP_END → linked m 0 (l1 ++ b :: l2) 0 →
  heap_block_from_pointer m (b_payload b)
  = if b_user b =? b_payload b then b_addr b else 0.
Proof.
  intros Ht Hl. pose proof (payload_not_aligned _ _ _ _ Ht Hl) as Hna.
  pose proof (tiled_focus _ _ _ Ht) as (Hlo & Hhi & [Hs _] & _).
  apply linked_app in Hl as [_ [Hb _]].
  unfold heap_block_from_pointer. rewrite Hna, andb_false_r, andb_false_l.
  replace (b_payload b =? 0) with false by (unfold_heap; unfold_bounds; lia).
  rewrite range_contains_spec by (unfold_heap; unfold_bounds; lia).
  replace (_ <=? HEAP_END) with true by (unfold_heap; unfold_bounds; lia). cbn [negb].
  replace (_ <? _) with false by (unfold_heap; unfold_bounds; lia).
  replace (b_payload b -w HEADER) with (b_addr b)
    by (unfold_heap; rewrite u32_small by (unfold_bounds; lia); lia).
  erewrite hdr_matches; [done|done..|]. unfold_heap. lia.
Qed.

Lemma from_pointer_live m l1 b l2 :
  tiled HEAP_START (l1 ++ b :: l2) HEAP_END → linked m 0 (l1 ++ b :: l2) 0 →
  b_free b = false → user_ok m b →
  heap_block_from_pointer m (b_user b) = b_addr b.
Proof.
  intros Ht Hl Hf Hu. destruct (Hu Hf) as [E|(Hal & Hle & Hm & Hblk)].
  { rewrite E. erewrite from_pointer_payload by done. by rewrite E, Z.eqb_refl. }
  pose proof (tiled_focus _ _ _ Ht) as (Hlo & Hhi & (Hs & _ & Hub) & _). rewrite Hf in Hub.
  apply linked_app in Hl as [_ [Hb _]]. unfold heap_block_from_pointer, ALIGNED_HEADER in *.
  replace (b_user b =? 0) with false by (unfold_heap; unfold_bounds; lia).
  rewrite range_contains_spec by (unfold_heap; unfold_bounds; lia).
  replace (_ <=? HEAP_END) with true by (unfold_heap; unfold_bounds; lia). cbn [negb].
  rewrite (u32_small (b_user b - 8)) by (unfold_heap; unfold_bounds; lia).
  replace (b_user b - 8 + 4) with (b_user b - 4) by lia. rewrite Hm, Hblk, !Z.eqb_refl.
  rewrite (proj2 (page_aligned_test (b_user b) ltac:(unfold_heap; unfold_bounds; lia)) Hal).
  erewrite hdr_matches by done. rewrite Z.eqb_refl.
  replace (_ >=? _) with true by (unfold_heap; unfold_bounds; lia). done.
Qed.

Lemma compact_split l1 b l2 :
  compact (l1 ++ b :: l2) = true → compact l1 = true ∧ compact l2 = true.
Proof.
  intros Hc. split; [by eapply compact_app_l|]. rewrite compact_app in Hc.
  apply andb_true_iff in Hc as [_ Hc]. destruct l2 as [|c l2]; [done|].
  rewrite compact_cons in Hc. by apply andb_true_iff in Hc as [_ ?].
Qed.

Lemma heap_rep_live s bs b :
  heap_rep s bs → b ∈ bs → b_free b = false →
  heap_base s = HEAP_START ∧ linked (phys s) 0 bs 0 ∧ Forall (user_ok (phys s)) bs.
Proof.
  intros [_ _ [[_ ->]|?]] Hb Hf; [|done].
  apply list_elem_of_singleton in Hb as ->. done.
Qed.

Lemma kfree_live s bs b :
  heap_rep s bs → b ∈ bs → b_free b = false →
  let s' := kfree s (b_user b) in
  s' = s <| phys := phys s' |> ∧ heap_rep s' (free_blocks bs (b_user b)) ∧
  preserved (free_blocks bs (b_user b)) (phys s) (phys s').
Proof.
  intros R Hin Hf. destruct (heap_rep_live _ _ _ R Hin Hf) as (Eb & Hl & Hu).
  destruct R as [Ht Hc _]. pose proof (free_blocks_tiled _ _ _ (b_user b) Ht) as Ht'.
  pose proof (mark_free_tiled (b_user b) _ _ _ Ht) as Htm. unfold free_blocks in *.
  apply list_elem_of_split in Hin as (l1 & l2 & ->).
  rewrite (mark_free_at HEAP_START l1 b l2 HEAP_END) in * by done.
  destruct (compact_split _ _ _ Hc) as [Hc1 Hc2].
  pose proof (tiled_focus _ _ _ Ht) as (Hlo & _ & (_ & _ & Hub) & _). rewrite Hf in Hub.
  unfold kfree. replace (b_user b =? 0) with false by (unfold_heap; unfold_bounds; lia).
  rewrite Forall_app, Forall_cons in Hu. destruct Hu as (Hu1 & Hub' & Hu2).
  rewrite (from_pointer_live _ l1 b l2) by done.
  replace (b_addr b =? 0) with false by (unfold_heap; unfold_bounds; lia).
  pose proof Hl as [_ [[_ _ H3 _ _ _] _]]%linked_app. rewrite H3, Hf. cbn [Z.eqb negb].
  destruct (release_block_spec (phys s) l1 b l2 Htm Hc1 Hc2 Hl) as [L P].
  split; [done|]. split; [|by rewrite preserved_coalesce].
  split; [done|apply coalesce_compact|]. right. split; [done|]. split; [done|].
  apply Forall_forall. intros x Hx Hxf. rewrite coalesce_used in Hx by done.
  apply (user_ok_ext _ (phys s) _ x Hx); [by apply (tiled_in _ _ _ _ Htm)|done| |done].
  rewrite elem_of_app, elem_of_cons in Hx. rewrite Forall_forall in Hu1, Hu2.
  destruct Hx as [?|[->|?]]; [by apply Hu1|done|by apply Hu2].
Qed.

(** ** Page-aligned allocation *)

Definition page_after (raw : Z) : Z := (raw + ALIGNED_HEADER + 4095) / 4096 * 4096.

(** Replaces the user pointer of the block that starts at [raw]. *)
Definition retarget (raw u : Z) (b : block) : block :=
  if b_payload b =? raw then Block (b_addr b) (b_size b) (b_free b) u else b.

Definition spec_kmalloc_aligned (bs : list block) (size : Z) : option (list block * Z) :=
  if (size =? 0) || (size >? HEAP_SIZE - HEADER - PAGE_SIZE - ALIGNED_HEADER) then None else
  '(bs', raw) ← spec_kmalloc bs (size + PAGE_SIZE + ALIGNED_HEADER);
  Some (map (retarget raw (page_after raw)) bs', page_after raw).

Lemma alloc_shape bs n bs' p :
  alloc_blocks bs n = Some (bs', p) →
  ∃ l1 b l2 o, bs' = l1 ++ b :: l2 ∧ b_free b = false ∧ b_payload b = p ∧ b_user b = p ∧
    n ≤ b_size b ∧ o ∈ bs ∧ b_free o = true ∧ b_addr o = b_addr b ∧ b_end b ≤ b_end o.
Proof.
  intros (l1 & o & l2 & -> & Hf & Hle & _ & -> & ->)%alloc_blocks_Some. unfold split_block.
  destruct (Z.geb_spec (b_size o - n) (HEADER + HEAP_MIN_SPLIT));
    (eexists l1, _, _, o; split; [reflexivity|]; unfold b_end, b_payload; simpl;
     do 3 (split; [done|]); split; [lia|]; split; [in_list|]; do 2 (split; [done|])).
  - unfold HEADER, HEAP_MIN_SPLIT in *. lia.
  - lia.
Qed.

Lemma retarget_spec s l1 b l2 u :
  heap_rep s (l1 ++ b :: l2) → b_free b = false →
  u mod PAGE_SIZE = 0 → b_payload b + ALIGNED_HEADER ≤ u < b_end b →
  let m' := set_user_ptr (store32 (store32 (phys s) (u - 8) HEAP_MAGIC_ALIGNED) (u - 4) (b_addr b))
              (b_addr b) u in
  let b' := Block (b_addr b) (b_size b) (b_free b) u in
  heap_rep (s <| phys := m' |>) (l1 ++ b' :: l2) ∧
  ∀ i, i < b_addr b ∨ b_end b ≤ i → load8 m' i = load8 (phys s) i.
Proof.
  intros R Hf Hal Hu m' b'.
  destruct (heap_rep_live _ _ b R) as (Eb & Hl & Hok); [in_list|done|]. destruct R as [Ht Hc _].
  pose proof (tiled_focus _ _ _ Ht) as (Hlo & Hhi & [Hs [Hm _]] & Ht1 & Ht2).
  unfold ALIGNED_HEADER in *.
  assert (F : ∀ i, i < b_addr b ∨ b_end b ≤ i → load8 m' i = load8 (phys s) i).
  { intros i Hi. subst m'. unfold_heap. mem8_step. done. }
  split; [|done]. split.
  - apply tiled_app. exists (b_addr b). split; [done|]. split; [done|]. split; [|done].
    split; [done|]. split; [done|]. simpl. rewrite Hf. unfold_heap. simpl. lia.
  - rewrite compact_app in Hc |- *. rewrite (compact_change_last l1 b b') by done. by destruct l2.
  - right. split; [done|]. apply linked_app in Hl as [Hl1 [Hb Hl2]].
    split; [apply linked_app; split; [|split]|].
    + eapply linked_before; [done|done|]. intros i Hi. apply F. lia.
    + destruct Hb as [B1 B2 B3 B4 B5 B6]. subst m'. unfold set; simpl.
      split; simpl; unfold_heap; mem_step; try done. apply u32_small. unfold_bounds; lia.
    + eapply linked_after; [done|done|]. intros i Hi. apply F. lia.
    + rewrite Forall_app, Forall_cons in Hok |- *. destruct Hok as (Hok1 & _ & Hok2).
      assert (Hext : ∀ c, c ∈ l1 ++ b :: l2 → c ≠ b → user_ok (phys s) c → user_ok m' c).
      { intros c Hin Hne Hcok Hcf. destruct (tiled_in _ _ _ _ Ht Hin) as (_ & _ & (? & _ & Hcu)).
        rewrite Hcf in Hcu.
        destruct (Hcok Hcf) as [|(? & ? & E1 & E2)]; [by left|right]. split; [done|]. split; [done|].
        destruct (tiled_disjoint _ _ _ c b Ht Hin) as [|Hd]; [in_list|done|].
        unfold ALIGNED_HEADER in *.
        rewrite <-E1, <-E2. split; apply load32_ext; intros i Hi; apply F; unfold_heap; lia. }
      unfold set; cbn [phys]. split; [|split].
      * rewrite Forall_forall in *. intros c Hin. apply Hext; [in_list| |auto].
        intros ->. destruct (tiled_in _ _ _ _ Ht1 Hin) as (_ & ? & _). unfold_heap. lia.
      * intros _. right. simpl. unfold ALIGNED_HEADER. split; [done|]. split; [apply Hu|].
        subst m'. unfold_heap. simpl in *. mem_step.
        unfold HEAP_MAGIC_ALIGNED. rewrite !u32_small by (unfold_bounds; lia). done.
      * rewrite Forall_forall in *. intros c Hin. apply Hext; [in_list| |auto].
        intros ->. destruct (tiled_in _ _ _ _ Ht2 Hin) as (? & _ & _). unfold_heap. lia.
Qed.

Lemma page_after_spec raw size :
  HEAP_START ≤ raw → 0 < size → raw + size + PAGE_SIZE + ALIGNED_HEADER ≤ HEAP_END →
  align_up (raw +w ALIGNED_HEADER) PAGE_SIZE = page_after raw ∧
  page_after raw mod PAGE_SIZE = 0 ∧
  raw + ALIGNED_HEADER ≤ page_after raw ≤ raw + ALIGNED_HEADER + 4095.
Proof.
  intros H1 H2 H3. unfold page_after, ALIGNED_HEADER, PAGE_SIZE in *. unfold_bounds.
  rewrite u32_small by lia. change 4096 with PAGE_SIZE at 1. rewrite align_up_page by lia.
  split; [done|]. split; [apply Z.mod_mul; lia|divlia].
Qed.

Lemma preserved_within bs o m m' :
  tiled HEAP_START bs HEAP_END → o ∈ bs → b_free o = true →
  (∀ i, i < b_addr o ∨ b_end o ≤ i → load8 m' i = load8 m i) → preserved bs m m'.
Proof.
  intros Ht Ho Hf H a Ha. apply H.
  destruct (decide (b_addr o ≤ a < b_end o)); [|lia].
  by destruct (free_unprotected bs o a Ht Ho Hf).
Qed.

Lemma kmalloc_aligned_spec s bs size :
  heap_rep s bs → 0 ≤ size →
  let '(s', p) := kmalloc_aligned s size in
  heap_step bs s s' ∧ heap_invalid_frees s' = heap_invalid_frees s ∧
  heap_double_frees s' = heap_double_frees s ∧
  match spec_kmalloc_aligned bs size with
  | Some (bs', q) => p = q ∧ heap_rep s' bs' ∧
      heap_allocation_failures s' = heap_allocation_failures s
  | None => p = 0 ∧ heap_rep s' bs ∧
      heap_allocation_failures s' = heap_allocation_failures s +w 1
  end.
Proof.
  intros R Hsz. unfold kmalloc_aligned, spec_kmalloc_aligned.
  destruct ((size =? 0) || _) eqn:Eg.
  { split; [by apply heap_step_refl|]. do 3 (split; [done|]). split; [|done].
    destruct R; by split. }
  set (mx := HEAP_SIZE - HEADER - PAGE_SIZE - ALIGNED_HEADER) in *.
  assert (Hmx : mx = 4190176) by done. clearbody mx. subst mx.
  rewrite (u32_small (size + PAGE_SIZE)), u32_small by (unfold PAGE_SIZE, ALIGNED_HEADER; lia).
  pose proof (kmalloc_spec s bs (size + PAGE_SIZE + ALIGNED_HEADER) R) as Hk.
  destruct (kmalloc_internal s _) as [s1 raw].
  destruct Hk as ([Ho Hp] & Ei & Ed & Hk); [unfold PAGE_SIZE, ALIGNED_HEADER; lia|].
  destruct (spec_kmalloc bs _) as [[bs' q]|] eqn:Esp; cycle 1.
  { destruct Hk as (-> & R' & Ef). simpl. done. }
  destruct Hk as (<- & R' & Ef). unfold spec_kmalloc in Esp.
  destruct (heap_request _) as [n|] eqn:Hreq; [|done].
  apply heap_request_spec in Hreq as (_ & Hn & _); [|unfold PAGE_SIZE, ALIGNED_HEADER; lia]. cbn [mbind option_bind] in Esp |- *.
  destruct (alloc_shape _ _ _ _ Esp) as (l1 & b & l2 & o & -> & Hf & Hpay & _ & Hnb & Hoin & Hof & Eo & Heo).
  pose proof (tiled_focus _ _ _ (hr_tiled _ _ R')) as (Hlo & Hhi & [Hbs _] & _).
  destruct (page_after_spec raw size) as (-> & Hal & Hrng); [unfold_heap; lia..|].
  set (u := page_after raw) in *. clearbody u.
  replace (raw =? 0) with false by (unfold_heap; unfold_bounds; lia).
  rewrite range_contains_spec by (unfold ALIGNED_HEADER, PAGE_SIZE in *; unfold_heap; unfold_bounds; lia).
  replace (_ || _) with false by (unfold ALIGNED_HEADER, PAGE_SIZE in *; unfold_heap; unfold_bounds; lia).
  replace (raw -w HEADER) with (b_addr b)
    by (rewrite <-Hpay; unfold_heap; rewrite u32_small by (unfold_bounds; lia); lia).
  unfold ALIGNED_HEADER in *. rewrite (u32_small (u - 8)) by (unfold_heap; unfold_bounds; lia).
  replace (u - 8 + 4) with (u - 4) by lia.
  destruct (retarget_spec s1 l1 b l2 u R' Hf Hal) as [R2 F2];
    [unfold ALIGNED_HEADER, PAGE_SIZE in *; unfold_heap; lia|].
  split; [split; [by destruct Ho; split|]|].
  { etransitivity; [done|]. apply (preserved_within bs o); [apply R|done..|].
    intros i Hi. apply F2. unfold_heap; lia. }
  split; [done|]. split; [done|]. split; [done|]. split; [|done].
  rewrite (map_at _ _ _ _ _ _ (hr_tiled _ _ R')).
  - unfold retarget. rewrite Hpay, Z.eqb_refl. done.
  - intros c Hc Hne. unfold retarget. destruct (Z.eqb_spec (b_payload c) raw); [|done].
    destruct Hne. apply (tiled_addr_inj _ _ _ _ _ (hr_tiled _ _ R')); [done|in_list|].
    unfold_heap. lia.
Qed.

(** ** Statistics *)

Definition tally (f : block → Z) (bs : list block) : Z := foldr (λ b n, f b + n) 0 bs.
Definition size_if (p : block → bool) (b : block) : Z := if p b then b_size b else 0.
Definition one_if (p : block → bool) (b : block) : Z := if p b then 1 else 0.
Definition in_use (b : block) : bool := negb (b_free b).
Definition largest_free (bs : list block) : Z := foldr (λ b n, Z.max (size_if b_free b) n) 0 bs.

(** The counters that describe [bs]. *)
Definition stats_of (bs : list block) (stats : memory_heap_stats_t) : memory_heap_stats_t :=
  stats <| hs_total_bytes := tally b_size bs |>
    <| hs_used_bytes := tally (size_if in_use) bs |>
    <| hs_free_bytes := tally (size_if b_free) bs |>
    <| hs_allocated_blocks := tally (one_if in_use) bs |>
    <| hs_free_blocks := tally (one_if b_free) bs |>
    <| hs_largest_free_block := largest_free bs |>.

Lemma tally_app f l1 l2 : tally f (l1 ++ l2) = tally f l1 + tally f l2.
Proof. induction l1 as [|b l1 IH]; simpl; [done|]. unfold tally in *. simpl. lia. Qed.

Lemma tally_snoc f l b : tally f (l ++ [b]) = tally f l + f b.
Proof. rewrite tally_app. unfold tally. simpl. lia. Qed.

Lemma tally_le f g l :
  (∀ b, b ∈ l → 0 ≤ f b ≤ g b) → 0 ≤ tally f l ≤ tally g l.
Proof.
  unfold tally. induction l as [|b l IH]; intros H; simpl; [lia|].
  pose proof (H b ltac:(in_list)). destruct IH; [|lia]. intros c Hc. apply H. in_list.
Qed.

Lemma largest_free_app l b :
  0 ≤ largest_free l →
  largest_free (l ++ [b]) = Z.max (largest_free l) (size_if b_free b).
Proof.
  unfold largest_free. induction l as [|c l IH]; intros H; simpl in *; [lia|].
  destruct (decide (0 ≤ foldr (λ b n, Z.max (size_if b_free b) n) 0 l)).
  - rewrite IH by done. lia.
  - exfalso. clear IH H. induction l as [|d l IH]; simpl in *; lia.
Qed.

Lemma largest_free_nonneg l : 0 ≤ largest_free l.
Proof. unfold largest_free. induction l as [|b l IH]; simpl; lia. Qed.

Lemma largest_free_le l : (∀ b, b ∈ l → 0 ≤ b_size b) → largest_free l ≤ tally (size_if b_free) l.
Proof.
  unfold largest_free, tally. induction l as [|b l IH]; intros H; simpl; [lia|].
  assert (IH' := IH ltac:(intros; apply H; in_list)).
  assert (0 ≤ size_if b_free b) by (unfold size_if; pose proof (H b ltac:(in_list)); destruct (b_free b); lia).
  assert (0 ≤ foldr (λ b n, size_if b_free b + n) 0 l).
  { apply (tally_le (size_if b_free) (size_if b_free)). intros c Hc. unfold size_if.
    pose proof (H c ltac:(in_list)). destruct (b_free c); lia. }
  lia.
Qed.

Lemma tiled_total a l e : tiled a l e → tally b_size l + HEADER * Z.of_nat (length l) = e - a.
Proof.
  revert a. unfold tally. induction l as [|b l IH]; intros a; simpl; [lia|].
  intros (<- & _ & Ht%IH). unfold_heap. lia.
Qed.

(** No counter can wrap: everything is bounded by the size of the heap. *)
Lemma tally_prefix f l1 l2 :
  tiled HEAP_START (l1 ++ l2) HEAP_END → (∀ b, 8 ≤ b_size b → 0 ≤ f b ≤ b_size b) →
  0 ≤ tally f l1 ≤ HEAP_SIZE.
Proof.
  intros Ht Hf. pose proof (tiled_total _ _ _ Ht) as Htot. rewrite tally_app in Htot.
  assert (Hs : ∀ b, b ∈ l1 ++ l2 → 8 ≤ b_size b) by (intros b Hb; by apply (tiled_in _ _ _ _ Ht)).
  assert (0 ≤ tally f l1 ≤ tally b_size l1)
    by (apply tally_le; intros b Hb; apply Hf, Hs; in_list).
  assert (0 ≤ tally b_size l2 ≤ tally b_size l2)
    by (apply tally_le; intros b Hb; pose proof (Hs b ltac:(in_list)); lia).
  unfold_heap. unfold_bounds. lia.
Qed.

Lemma tally_step f l1 b l2 :
  tiled HEAP_START (l1 ++ b :: l2) HEAP_END → (∀ b, 8 ≤ b_size b → 0 ≤ f b ≤ b_size b) →
  tally f l1 +w f b = tally f (l1 ++ [b]).
Proof.
  intros Ht Hf. pose proof (tally_prefix f (l1 ++ [b]) l2) as Hp.
  rewrite <-app_assoc in Hp. specialize (Hp Ht Hf).
  rewrite tally_snoc in *. apply u32_small. unfold_bounds. lia.
Qed.

Lemma tally_skip f l b : f b = 0 → tally f (l ++ [b]) = tally f l.
Proof. intros H. rewrite tally_snoc. lia. Qed.

Lemma size_if_bound p b : 8 ≤ b_size b → 0 ≤ size_if p b ≤ b_size b.
Proof. unfold size_if. destruct (p b); lia. Qed.
Lemma one_if_bound p b : 8 ≤ b_size b → 0 ≤ one_if p b ≤ b_size b.
Proof. unfold one_if. destruct (p b); lia. Qed.

(** Evaluates field updates of the statistics record. *)
Ltac stats_cbn := lazy beta iota zeta delta [set measure_block stats_of
  hs_total_bytes hs_used_bytes hs_free_bytes hs_allocated_blocks hs_free_blocks
  hs_largest_free_block hs_fragmentation_percent hs_allocation_failures
  hs_invalid_frees hs_double_frees hs_initialized hs_valid].

Lemma measure_block_spec m l1 b l2 prev next stats :
  tiled HEAP_START (l1 ++ b :: l2) HEAP_END → hdr m b prev next →
  measure_block m (b_addr b) (stats_of l1 stats) = stats_of (l1 ++ [b]) stats.
Proof.
  intros Ht [_ H2 H3 _ _ _]. destruct stats. stats_cbn. rewrite H2, H3.
  rewrite (largest_free_app l1 b) by apply largest_free_nonneg.
  pose proof (largest_free_nonneg l1).
  rewrite <-(tally_step b_size l1 b l2) by (done || intros; lia).
  pose proof (tally_step (size_if b_free) l1 b l2 Ht (size_if_bound _)) as Ef.
  pose proof (tally_step (size_if in_use) l1 b l2 Ht (size_if_bound _)) as Eu.
  pose proof (tally_step (one_if b_free) l1 b l2 Ht (one_if_bound _)) as Cf.
  pose proof (tally_step (one_if in_use) l1 b l2 Ht (one_if_bound _)) as Cu.
  unfold size_if, one_if, in_use in *. destruct (b_free b) eqn:Hf; cbn [Z.eqb negb] in *.
  - rewrite <-Ef, <-Cf, (tally_skip _ l1 b), (tally_skip _ l1 b) by (by rewrite Hf).
    destruct (Z.gtb_spec (b_size b) (largest_free l1)); f_equal; lia.
  - rewrite <-Eu, <-Cu, (tally_skip _ l1 b), (tally_skip _ l1 b) by (by rewrite Hf).
    f_equal; lia.
Qed.

Lemma measure_loop_spec l2 l1 fuel m stats :
  tiled HEAP_START (l1 ++ l2) HEAP_END → linked m 0 (l1 ++ l2) 0 → (length l2 ≤ fuel)%nat →
  measure_loop fuel m (head_or 0 l2) (last_or 0 l1) (stats_of l1 stats)
  = (stats_of (l1 ++ l2) stats, true).
Proof.
  revert l1 fuel. induction l2 as [|b l2 IH]; intros l1 fuel Ht Hl Hfuel.
  { rewrite app_nil_r. by destruct fuel. }
  pose proof (tiled_focus _ _ _ Ht) as (Hlo & Hhi & Hok & _ & Ht2).
  pose proof Hl as [_ [Hb _]]%linked_app. destruct fuel as [|fuel]; [simpl in Hfuel; lia|].
  cbn [measure_loop head_or].
  replace (b_addr b =? 0) with false by (unfold_bounds; lia).
  rewrite (hdr_consistent _ _ _ l2) by done. cbn [negb].
  rewrite (measure_block_spec m l1 b l2 _ _ stats Ht Hb), (h_next _ _ _ _ Hb).
  specialize (IH (l1 ++ [b]) fuel). rewrite <-app_assoc, last_or_app in IH. simpl in IH, Hfuel.
  by rewrite IH by (done || lia).
Qed.
