(* ===== verification/MemorySystem.v ===== *)
(** * memory.c as a whole

    The page manager and the heap share physical memory.  [run s live] is
    every state the kernel can reach by initialising memory and calling the
    two allocators, with clients writing into what they own; [live] records
    the contents of the heap allocations in use.  The theorems state what the
    clients of memory.c rely on. *)

From S2P Require Import Prelude Memory Pmm Heap HeapRefine.

(** ** The page manager does not see the heap *)

(** Same page manager variables, same bytes of the two arrays. *)
Record same_pmm (s s' : memory_t) : Prop := {
  sp_only : heap_only s s';
  sp_bytes : ∀ a, PMM_BITMAP_STORAGE_START ≤ a < PMM_BITMAP_STORAGE_END →
    load8 (phys s') a = load8 (phys s) a
}.

Section same_pmm.
Context (s s' : memory_t) (L : pmm_layout s) (E : same_pmm s s').

Lemma same_pmm_free p :
  0 ≤ p < mi_total_pages (mem_info s) → pmm_page_is_free s' p = pmm_page_is_free s p.
Proof.
  intros Hp. destruct E as [[EI _ _ _ _ _] EB], L as [L1 L2 L3 L4 L5 L6].
  unfold pmm_page_is_free. rewrite !bitmap_test_bit, EI by lia. f_equal.
  apply bit_at_frame, EB. divlia.
Qed.

Lemma same_pmm_tag p :
  0 ≤ p < mi_total_pages (mem_info s) → pmm_get_page_tag s' p = pmm_get_page_tag s p.
Proof.
  intros Hp. destruct E as [[EI EO _ _ _ _] EB], L as [L1 L2 L3 L4 L5 L6].
  apply page_tag_ext. intros k Hk. rewrite !get_page_tag_testbit, EO by lia.
  apply bit_at_frame, EB. divlia.
Qed.

Lemma same_pmm_owned p :
  0 ≤ p < mi_total_pages (mem_info s) → pmm_page_is_owned s' p = pmm_page_is_owned s p.
Proof. intros Hp. unfold pmm_page_is_owned. by rewrite same_pmm_tag. Qed.

Lemma same_pmm_layout : pmm_layout s'.
Proof. destruct E as [[EI EO EZ _ _ _] _], L. split; congruence. Qed.
End same_pmm.

Lemma same_pmm_wf s s' : same_pmm s s' → pmm_wf s → pmm_wf s'.
Proof.
  intros E [L Hmin HA HT HR HFr HOw Htot Hfm Hum].
  pose proof E as [[EI EO EZ EW _ _] EB].
  assert (FF : 5120 ≤ mi_total_pages (mem_info s)).
  { change (MIN_USABLE_MEMORY_END / PAGE_SIZE) with 8160 in Hmin. lia. }
  split; rewrite ?EI, ?EW; try done.
  - by eapply same_pmm_layout.
  - intros p Hp. erewrite same_pmm_free, same_pmm_tag by done. by apply HA.
  - intros p Hp. erewrite same_pmm_tag by done. by apply HT.
  - intros p Hp. change FIRST_FREE_PAGE with 5120 in *.
    erewrite same_pmm_free, same_pmm_owned by (done || lia). by apply HR.
  - rewrite HFr. apply count_range_ext. intros. symmetry. by eapply same_pmm_free.
  - rewrite HOw. apply count_range_ext. intros. symmetry. by eapply same_pmm_owned.
Qed.

Lemma heap_step_pmm bs s s' : heap_step bs s s' → same_pmm s s'.
Proof.
  intros [Ho Hp]. split; [done|]. intros a Ha. apply Hp. left.
  change PMM_BITMAP_STORAGE_END with 0x98000 in Ha. unfold_bounds. lia.
Qed.

(** ** The heap does not see the page manager *)

Lemma heap_rep_ext s s' bs :
  heap_base s' = heap_base s →
  (∀ a, HEAP_START ≤ a < HEAP_END → load8 (phys s') a = load8 (phys s) a) →
  heap_rep s bs → heap_rep s' bs.
Proof.
  intros Eb Ext [Ht Hc Hm]. split; [done|done|]. rewrite Eb.
  destruct Hm as [?|(? & Hl & Hu)]; [by left|right]. split; [done|].
  assert (Hin : ∀ b, b ∈ bs → HEAP_START ≤ b_addr b ∧ b_end b ≤ HEAP_END ∧ block_ok b)
    by (intros; by eapply tiled_in).
  split.
  - eapply linked_ext; [|done]. intros b i Hb Hi. destruct (Hin b Hb) as (? & ? & [? _]).
    apply Ext. unfold_heap. lia.
  - rewrite Forall_forall in *. intros b Hb Hf. destruct (Hin b Hb) as (? & ? & (? & _ & Hub)).
    rewrite Hf in Hub. destruct (Hu b Hb Hf) as [|(? & ? & E1 & E2)]; [by left|right].
    split; [done|]. split; [done|]. rewrite <-E1, <-E2. unfold ALIGNED_HEADER in *.
    split; apply load32_ext; intros i Hi; apply Ext; unfold_heap; lia.
Qed.

(** ** Reachable states *)

(** [run s live]: [s] is reachable, and [live] gives the contents of the heap
    allocations in use by their pointer.  Clients write into their own
    allocations and into the pages they own. *)
Inductive run : memory_t → gmap Z (list Z) → Prop :=
| run_init mmap_addr entries m s :
    Forall mmap_entry_typed entries →
    memory_init mmap_addr entries (memory_boot m) = (s, None) → run s ∅
| run_pmm_alloc s live count zone :
    run s live → 0 ≤ count < 2 ^ 32 → run (pmm_alloc_pages_in_zone s count zone).1 live
| run_pmm_free s live addr count :
    run s live → 0 ≤ addr < 2 ^ 32 → 0 ≤ count < 2 ^ 32 → run (pmm_free_pages s addr count) live
| run_kmalloc s live size s' p :
    run s live → 0 ≤ size < 2 ^ 32 → kmalloc s size = (s', p) →
    run s' (if p =? 0 then live else <[p := bytes_at (phys s') p size]> live)
| run_kmalloc_aligned s live size s' p :
    run s live → 0 ≤ size < 2 ^ 32 → kmalloc_aligned s size = (s', p) →
    run s' (if p =? 0 then live else <[p := bytes_at (phys s') p size]> live)
| run_kfree s live p :
    run s live → is_Some (live !! p) → run (kfree s p) (delete p live)
| run_write s live p data i v :
    run s live → live !! p = Some data → (i < length data)%nat →
    run (s <| phys ::= λ m, store8 m (p + Z.of_nat i) v |>) (<[p := <[i := u8 v]> data]> live)
| run_write_page s live q i v :
    run s live → 0 ≤ q < mi_total_pages (mem_info s) → pmm_page_is_owned s q = true →
    0 ≤ i < PAGE_SIZE →
    run (s <| phys ::= λ m, store8 m (q * PAGE_SIZE + i) v |>) live.

(** The live blocks are exactly the allocations of [live], with their
    contents. *)
Record live_rep (m : mem) (bs : list block) (live : gmap Z (list Z)) : Prop := {
  lr_block : ∀ p data, live !! p = Some data →
    ∃ b, b ∈ bs ∧ b_free b = false ∧ b_user b = p ∧
      p + Z.of_nat (length data) ≤ b_end b ∧
      ∀ i v, data !! i = Some v → load8 m (p + Z.of_nat i) = v;
  lr_live : ∀ b, b ∈ bs → b_free b = false → is_Some (live !! b_user b)
}.

(** [bs'] is [bs] with one more live block, for the pointer [p]. *)
Record fresh_alloc (bs bs' : list block) (p size : Z) (b : block) : Prop := {
  fa_used : b_free b = false;
  fa_user : b_user b = p;
  fa_new : b ∉ bs;
  fa_fits : p + size ≤ b_end b;
  fa_live : ∀ c, b_free c = false → c ∈ bs' ↔ c ∈ bs ∨ c = b
}.

Lemma split_live b n c :
  b_free c = false →
  c ∈ split_block b n ↔ c = Block (b_addr b) (if b_size b - n >=? HEADER + HEAP_MIN_SPLIT then n
                                              else b_size b) false (b_payload b).
Proof.
  intros Hc. unfold split_block. destruct (_ >=? _).
  - rewrite !elem_of_cons, elem_of_nil. split; [|by left].
    intros [->|[->|[]]]; [done|]. done.
  - by rewrite list_elem_of_singleton.
Qed.

Lemma alloc_fresh bs n bs' p :
  tiled HEAP_START bs HEAP_END → 0 ≤ n → alloc_blocks bs n = Some (bs', p) →
  ∃ b, fresh_alloc bs bs' p n b ∧ b_payload b = p.
Proof.
  intros Ht Hn (l1 & o & l2 & -> & Hf & Hle & _ & -> & ->)%alloc_blocks_Some.
  set (b := Block (b_addr o) (if b_size o - n >=? HEADER + HEAP_MIN_SPLIT then n else b_size o)
              false (b_payload o)).
  exists b. split; [|done]. split; [done|done|..].
  - intros Hb. assert (E : b = o) by (apply (tiled_addr_inj _ _ _ _ _ Ht Hb); [in_list|done]).
    by rewrite <-E in Hf.
  - subst b. unfold b_end, b_payload. simpl. destruct (_ >=? _); lia.
  - intros c Hc. rewrite !elem_of_app, elem_of_cons, split_live by done. fold b.
    assert (c ≠ o) by congruence. tauto.
Qed.

Lemma kmalloc_fresh bs size bs' p :
  tiled HEAP_START bs HEAP_END → 0 ≤ size → spec_kmalloc bs size = Some (bs', p) →
  ∃ b, fresh_alloc bs bs' p size b ∧ b_payload b = p.
Proof.
  intros Ht Hs. unfold spec_kmalloc. destruct (heap_request size) as [n|] eqn:E; [|done].
  apply heap_request_spec in E as (_ & Hn & _); [|done]. intros Ha.
  destruct (alloc_fresh bs n bs' p Ht ltac:(lia) Ha) as (b & [] & ?).
  exists b. split; [|done]. split; try done. lia.
Qed.

Lemma aligned_fresh bs size bs' p :
  tiled HEAP_START bs HEAP_END → 0 ≤ size → spec_kmalloc_aligned bs size = Some (bs', p) →
  ∃ b, fresh_alloc bs bs' p size b ∧ p mod PAGE_SIZE = 0.
Proof.
  intros Ht Hs. unfold spec_kmalloc_aligned. destruct (_ || _) eqn:Eg; [done|].
  destruct (spec_kmalloc bs _) as [[bs1 raw]|] eqn:Esp; [|done]. intros [= <- <-].
  assert (Ht1 : tiled HEAP_START bs1 HEAP_END).
  { unfold spec_kmalloc in Esp. destruct (heap_request _) as [n|] eqn:E; [|done].
    apply heap_request_spec in E as (_ & _ & ? & ? & _); [|unfold PAGE_SIZE, ALIGNED_HEADER; lia].
    by eapply alloc_tiled. }
  apply kmalloc_fresh in Esp as (b & [Fu Fp Fn Ff Fl] & Hpay);
    [|done|unfold PAGE_SIZE, ALIGNED_HEADER; lia].
  assert (Hin : b ∈ bs1) by (apply Fl; auto).
  destruct (tiled_in _ _ _ _ Ht1 Hin) as (? & ? & [? _]).
  destruct (page_after_spec raw size) as (_ & Hal & Hr); [unfold_heap; lia|lia|lia|].
  set (u := page_after raw) in *. clearbody u.
  set (b' := Block (b_addr b) (b_size b) false u).
  exists b'. split; [|done]. split; [done|done|..].
  - intros Hb. assert (b' ∈ bs1) as Hb1 by (apply Fl; auto). pose proof (tiled_addr_inj _ _ _ _ _ Ht1 Hb1 Hin) as E.
    apply Fn. rewrite <-E by done. done.
  - subst b'. unfold b_end, b_payload in *. simpl. unfold PAGE_SIZE, ALIGNED_HEADER in *. lia.
  - intros c Hc. rewrite list_elem_of_fmap. unfold retarget. split.
    + intros (d & Hd & Hdin). destruct (Z.eqb_spec (b_payload d) raw).
      * right. assert (d = b) as -> by (apply (tiled_addr_inj _ _ _ _ _ Ht1 Hdin Hin); unfold_heap; lia).
        subst c b'. by rewrite Fu.
      * subst d. left. apply Fl in Hdin as [|Heq]; [done| |done]. congruence.
    + intros [Hcb|E].
      * exists c. split; [|apply Fl; auto]. destruct (Z.eqb_spec (b_payload c) raw); [|done].
        exfalso. apply Fn. assert (c = b) as <-; [|done].
        apply (tiled_addr_inj _ _ _ _ _ Ht1); [apply Fl; auto|done|unfold_heap; lia].
      * exists b. split; [|done]. rewrite E. subst b'. by rewrite Hpay, Z.eqb_refl, Fu.
Qed.

(** ** The invariant of reachable states *)

Definition run_inv (s : memory_t) (live : gmap Z (list Z)) : Prop :=
  pmm_wf s ∧ ∃ bs, heap_rep s bs ∧ live_rep (phys s) bs live.

(** Two live blocks with the same pointer are the same block. *)
Lemma live_user_inj bs b c :
  tiled HEAP_START bs HEAP_END → b ∈ bs → c ∈ bs → b_free b = false → b_free c = false →
  b_user b = b_user c → b = c.
Proof.
  intros Ht Hb Hc Fb Fc E.
  destruct (tiled_in _ _ _ _ Ht Hb) as (_ & _ & (_ & _ & Ub)).
  destruct (tiled_in _ _ _ _ Ht Hc) as (_ & _ & (_ & _ & Uc)). rewrite Fb in Ub. rewrite Fc in Uc.
  destruct (tiled_disjoint _ _ _ _ _ Ht Hb Hc) as [|]; [done|]. unfold_heap. lia.
Qed.

(** The contents of a live block are protected. *)
Lemma live_byte bs b p (data : list Z) i v :
  tiled HEAP_START bs HEAP_END → b ∈ bs → b_free b = false → b_user b = p →
  p + Z.of_nat (length data) ≤ b_end b → data !! i = Some v →
  protected bs (p + Z.of_nat i).
Proof.
  intros Ht Hb Hf <- Hlen Hi%lookup_lt_Some. right; right. exists b. split; [done|]. split; [done|].
  destruct (tiled_in _ _ _ _ Ht Hb) as (_ & _ & (_ & _ & Ub)). rewrite Hf in Ub. lia.
Qed.

Lemma live_rep_preserved m m' bs live :
  tiled HEAP_START bs HEAP_END → preserved bs m m' → live_rep m bs live → live_rep m' bs live.
Proof.
  intros Ht Hp [H1 H2]. split; [|done]. intros p data Hd.
  destruct (H1 p data Hd) as (b & Hb & Hf & Hu & Hl & Hc). exists b. repeat (split; [done|]).
  intros i v Hi. rewrite Hp by (by eapply live_byte). by apply Hc.
Qed.

Lemma live_rep_alloc m m' bs bs' live p size b :
  tiled HEAP_START bs HEAP_END → 0 ≤ size → preserved bs m m' → fresh_alloc bs bs' p size b →
  live_rep m bs live → live_rep m' bs' (<[p := bytes_at m' p size]> live).
Proof.
  intros Ht Hs Hp [Fu Fp Fn Ff Fl] [H1 H2]. split.
  - intros q data. rewrite lookup_insert_Some. intros [[<- <-]|[Hne Hq]].
    + exists b. split; [apply Fl; auto|]. do 2 (split; [done|]).
      rewrite length_bytes_at by done. split; [done|]. intros i v Hi. by apply lookup_bytes_at in Hi.
    + destruct (H1 q data Hq) as (c & Hc & Hf & Hu & Hl & Hcon). exists c.
      split; [apply Fl; auto|]. repeat (split; [done|]).
      intros i v Hi. rewrite Hp by (by eapply live_byte). by apply Hcon.
  - intros c Hc Hf. apply Fl in Hc as [Hc| ->]; [|by rewrite Fp, lookup_insert_eq|done].
    destruct (decide (b_user c = p)) as [->|]; [by rewrite lookup_insert_eq|].
    rewrite lookup_insert_ne by done. by apply H2.
Qed.

Lemma free_blocks_live bs ptr c :
  b_free c = false → c ∈ free_blocks bs ptr ↔ c ∈ bs ∧ b_user c ≠ ptr.
Proof.
  intros Hc. unfold free_blocks. rewrite coalesce_used, list_elem_of_fmap by done. unfold mark_free.
  split.
  - intros (d & E & Hd). destruct (negb (b_free d) && (b_user d =? ptr)) eqn:Eg; [by subst c|].
    subst d. split; [done|]. rewrite Hc in Eg. simpl in Eg. lia.
  - intros [Hin Hne]. exists c. split; [|done]. rewrite Hc. simpl.
    by destruct (Z.eqb_spec (b_user c) ptr).
Qed.

Lemma live_rep_free m m' bs live p :
  tiled HEAP_START bs HEAP_END → preserved (free_blocks bs p) m m' →
  live_rep m bs live → live_rep m' (free_blocks bs p) (delete p live).
Proof.
  intros Ht Hp [H1 H2]. pose proof (free_blocks_tiled _ _ _ p Ht) as Ht'. split.
  - intros q data [Hne Hq]%lookup_delete_Some.
    destruct (H1 q data Hq) as (c & Hc & Hf & Hu & Hl & Hcon). exists c.
    assert (c ∈ free_blocks bs p) by (apply free_blocks_live; [done|split; [done|congruence]]).
    repeat (split; [done|]). intros i v Hi. rewrite Hp by (by eapply live_byte). by apply Hcon.
  - intros c Hc Hf. apply free_blocks_live in Hc as [Hc Hne]; [|done].
    rewrite lookup_delete_ne by congruence. by apply H2.
Qed.

(** Page manager operations change only the two arrays and its counters. *)
Lemma run_inv_pmm s s' live :
  run_inv s live → pmm_wf s' → heap_base s' = heap_base s →
  (∀ a, a < PMM_BITMAP_STORAGE_START ∨ PMM_BITMAP_STORAGE_END ≤ a →
     load8 (phys s') a = load8 (phys s) a) →
  run_inv s' live.
Proof.
  intros (_ & bs & R & LR) W Eb F. split; [done|]. exists bs.
  assert (F' : ∀ a, HEAP_START ≤ a < HEAP_END → load8 (phys s') a = load8 (phys s) a).
  { intros a Ha. apply F. right. change PMM_BITMAP_STORAGE_END with 0x98000. unfold_bounds. lia. }
  split; [by eapply heap_rep_ext|]. destruct LR as [H1 H2], R as [Ht _ _]. split; [|done].
  intros p data Hd. destruct (H1 p data Hd) as (b & Hb & Hf & Hu & Hl & Hc). exists b.
  repeat (split; [done|]). intros i v Hi. rewrite F'; [by apply Hc|].
  destruct (tiled_in _ _ _ _ Ht Hb) as (? & ? & (_ & _ & Ub)). rewrite Hf in Ub.
  apply lookup_lt_Some in Hi. unfold_heap. lia.
Qed.

Lemma alloc_frame s count zone s' addr :
  alloc_outcome s count zone s' addr →
  heap_base s' = heap_base s ∧
  ∀ a, a < PMM_BITMAP_STORAGE_START ∨ PMM_BITMAP_STORAGE_END ≤ a →
    load8 (phys s') a = load8 (phys s) a.
Proof. intros [|s1 first _ _ _ _ _ RC]; [done|]. split; apply RC. Qed.

(** [pmm_free_pages] releases the run or counts one refused request. *)
Lemma free_pages_spec s addr count :
  pmm_wf s → 0 ≤ addr → 0 ≤ count →
  let s' := pmm_free_pages s addr count in
  pmm_wf s' ∧
  ((releasable s addr count ∧ run_released s s' (addr / PAGE_SIZE) count) ∨
   (¬ releasable s addr count ∧ s' = count_invalid_free s)).
Proof.
  intros W Ha Hc. unfold pmm_free_pages.
  destruct (validate_release_spec s addr count W Ha Hc) as [[HR ->]|[HN ->]].
  - destruct HR as (? & ? & ? & Hrun).
    destruct (release_wf s (addr / PAGE_SIZE) count W) as [W' RR]; [done..|].
    split; [done|]. left. by split.
  - split; [|right; by split]. apply (same_arrays_wf s); auto using count_invalid_arrays.
Qed.

Lemma free_frame s addr count :
  pmm_wf s → 0 ≤ addr → 0 ≤ count →
  let s' := pmm_free_pages s addr count in
  heap_base s' = heap_base s ∧
  ∀ a, a < PMM_BITMAP_STORAGE_START ∨ PMM_BITMAP_STORAGE_END ≤ a →
    load8 (phys s') a = load8 (phys s) a.
Proof.
  intros W Ha Hc. destruct (free_pages_spec s addr count W Ha Hc) as [_ [[_ RR]|[_ ->]]]; [|done].
  split; apply RR.
Qed.

Lemma initial_rep s : heap_base s = 0 → heap_rep s [initial_block].
Proof. intros E. split; [done|done|]. by left. Qed.

Lemma heap_rep_write s bs b a v :
  heap_rep s bs → b ∈ bs → b_free b = false → b_user b ≤ a < b_end b →
  heap_rep (s <| phys ::= λ m, store8 m a v |>) bs.
Proof.
  intros R Hb Hf Ha. destruct (heap_rep_live _ _ _ R Hb Hf) as (Eb & Hl & Hu).
  destruct R as [Ht Hc _]. split; [done|done|]. right. split; [done|].
  destruct (tiled_in _ _ _ _ Ht Hb) as (_ & _ & (_ & _ & Ub)). rewrite Hf in Ub.
  assert (Hpa : protected bs a) by (right; right; exists b; repeat (split; [done|]); lia).
  unfold set; cbn [phys]. split.
  - eapply linked_ext; [|done]. intros c i Hin Hi. apply load8_store8_ne. intros ->.
    by apply (header_unprotected bs c i).
  - rewrite Forall_forall in *. intros c Hin Hcf. destruct (Hu c Hin Hcf) as [|(? & Hle & E1 & E2)];
      [by left|right]. split; [done|]. split; [done|]. rewrite <-E1, <-E2.
    destruct (tiled_in _ _ _ _ Ht Hin) as (_ & _ & (_ & _ & Uc)). rewrite Hcf in Uc.
    unfold ALIGNED_HEADER in *.
    destruct (tiled_disjoint _ _ _ _ _ Ht Hin Hb) as [->|];
      split; apply load32_ext; intros i Hi; apply load8_store8_ne; unfold_heap; lia.
Qed.

Lemma run_inv_write s live p data i v :
  run_inv s live → live !! p = Some data → (i < length data)%nat →
  run_inv (s <| phys ::= λ m, store8 m (p + Z.of_nat i) v |>) (<[p := <[i := u8 v]> data]> live).
Proof.
  intros (W & bs & R & [H1 H2]) Hp Hi.
  destruct (H1 p data Hp) as (b & Hb & Hf & Hu & Hl & Hc).
  pose proof (hr_tiled _ _ R) as Ht.
  destruct (tiled_in _ _ _ _ Ht Hb) as (Hlo & Hhi & (_ & _ & Ub)). rewrite Hf in Ub.
  split; [|exists bs; split; [|split]].
  - apply (same_pmm_wf s); [|done]. split; [by split|]. intros a Ha. apply load8_store8_ne.
    change PMM_BITMAP_STORAGE_END with 0x98000 in Ha. unfold_heap. unfold_bounds. lia.
  - apply (heap_rep_write s bs b); [done..|lia].
  - intros q dq. unfold set; cbn [phys]. rewrite lookup_insert_Some. intros [[<- <-]|[Hne Hq]].
    + exists b. repeat (split; [done|]). rewrite length_insert. split; [done|].
      intros j w. rewrite list_lookup_insert_Some. intros [(<- & <- & _)|[Hj Hd]].
      * apply load8_store8_eq.
      * rewrite load8_store8_ne by lia. by apply Hc.
    + destruct (H1 q dq Hq) as (c & Hcin & Hcf & Hcu & Hcl & Hcc). exists c.
      repeat (split; [done|]). intros j w Hj. rewrite load8_store8_ne; [by apply Hcc|].
      destruct (tiled_in _ _ _ _ Ht Hcin) as (_ & _ & (_ & _ & Uc)). rewrite Hcf in Uc.
      apply lookup_lt_Some in Hj.
      destruct (tiled_disjoint _ _ _ _ _ Ht Hcin Hb) as [->|]; [congruence|]. unfold_heap. lia.
  - intros c Hcin Hcf. destruct (decide (b_user c = p)) as [->|]; [by rewrite lookup_insert_eq|].
    rewrite lookup_insert_ne by done. by apply H2.
Qed.

Lemma run_inv_write_page s live q i v :
  run_inv s live → 0 ≤ q < mi_total_pages (mem_info s) → pmm_page_is_owned s q = true →
  0 ≤ i < PAGE_SIZE → run_inv (s <| phys ::= λ m, store8 m (q * PAGE_SIZE + i) v |>) live.
Proof.
  intros (W & bs & R & [H1 H2]) Hq Ho Hi.
  assert (Hlow : 5120 ≤ q).
  { destruct (decide (5120 ≤ q)); [done|]. destruct (wf_reserved _ W q) as [_ Hn]; [|congruence].
    change FIRST_FREE_PAGE with 5120. lia. }
  unfold PAGE_SIZE in *.
  assert (F : ∀ a, a < HEAP_END → load8 (store8 (phys s) (q * 4096 + i) v) a = load8 (phys s) a).
  { intros a Ha. apply load8_store8_ne. unfold_bounds. lia. }
  split; [|exists bs; split; [|split; [|done]]].
  - apply (same_pmm_wf s); [|done]. split; [by split|]. intros a Ha. apply F.
    change PMM_BITMAP_STORAGE_END with 0x98000 in Ha. unfold_bounds. lia.
  - eapply heap_rep_ext; [| |done]; [done|]. intros a Ha. apply F. lia.
  - intros p data Hp. destruct (H1 p data Hp) as (b & Hb & Hf & Hu & Hl & Hc). exists b.
    repeat (split; [done|]). intros j w Hj. unfold set; cbn [phys].
    destruct (tiled_in _ _ _ _ (hr_tiled _ _ R) Hb) as (_ & ? & _).
    pose proof (lookup_lt_Some _ _ _ Hj). rewrite F by lia. by apply Hc.
Qed.

(** One lemma for the two allocation functions. *)
Lemma run_inv_alloc s s' live bs size p (spec : option (list block * Z)) :
  pmm_wf s → heap_rep s bs → live_rep (phys s) bs live → 0 ≤ size → heap_step bs s s' →
  match spec with
  | Some (bs', q) => p = q ∧ heap_rep s' bs' ∧ ∃ b, fresh_alloc bs bs' q size b
  | None => p = 0 ∧ heap_rep s' bs
  end →
  run_inv s' (if p =? 0 then live else <[p := bytes_at (phys s') p size]> live).
Proof.
  intros W R LR Hs St Hk. pose proof (hs_preserved _ _ _ St) as Hp. pose proof (hr_tiled _ _ R) as Ht.
  split; [eapply same_pmm_wf; [by eapply heap_step_pmm|done]|].
  destruct spec as [[bs' q]|].
  - destruct Hk as (<- & R' & b & Fr). assert (b ∈ bs') as Hb by (apply Fr; [apply Fr|auto]).
    destruct (tiled_in _ _ _ _ (hr_tiled _ _ R') Hb) as (? & _ & (_ & _ & Ub)).
    rewrite (fa_used _ _ _ _ _ Fr), (fa_user _ _ _ _ _ Fr) in Ub.
    replace (p =? 0) with false by (unfold_heap; unfold_bounds; lia).
    exists bs'. split; [done|]. by eapply live_rep_alloc.
  - destruct Hk as (-> & R'). exists bs. split; [done|]. by eapply live_rep_preserved.
Qed.

Lemma run_inv_kmalloc s live size s' p :
  run_inv s live → 0 ≤ size → kmalloc s size = (s', p) →
  run_inv s' (if p =? 0 then live else <[p := bytes_at (phys s') p size]> live).
Proof.
  intros (W & bs & R & LR) Hs E. pose proof (kmalloc_spec s bs size R Hs) as Hk.
  unfold kmalloc in E. rewrite E in Hk. destruct Hk as (St & _ & _ & Hk).
  apply (run_inv_alloc s s' live bs size p (spec_kmalloc bs size)); try done.
  destruct (spec_kmalloc bs size) as [[bs' q]|] eqn:Esp; destruct Hk as (? & ? & _); [|done].
  destruct (kmalloc_fresh bs size bs' q (hr_tiled _ _ R) Hs Esp) as (b & Fr & _). eauto.
Qed.

Lemma run_inv_kmalloc_aligned s live size s' p :
  run_inv s live → 0 ≤ size → kmalloc_aligned s size = (s', p) →
  run_inv s' (if p =? 0 then live else <[p := bytes_at (phys s') p size]> live).
Proof.
  intros (W & bs & R & LR) Hs E. pose proof (kmalloc_aligned_spec s bs size R Hs) as Hk.
  rewrite E in Hk. destruct Hk as (St & _ & _ & Hk).
  apply (run_inv_alloc s s' live bs size p (spec_kmalloc_aligned bs size)); try done.
  destruct (spec_kmalloc_aligned bs size) as [[bs' q]|] eqn:Esp; destruct Hk as (? & ? & _); [|done].
  destruct (aligned_fresh bs size bs' q (hr_tiled _ _ R) Hs Esp) as (b & Fr & _). eauto.
Qed.

Lemma run_inv_kfree s live p :
  run_inv s live → is_Some (live !! p) → run_inv (kfree s p) (delete p live).
Proof.
  intros (W & bs & R & LR) [data Hp].
  destruct (lr_block _ _ _ LR p data Hp) as (b & Hb & Hf & <- & _).
  destruct (kfree_live s bs b R Hb Hf) as (Es & R' & Hpr).
  split; [|exists (free_blocks bs (b_user b)); split; [done|]].
  - apply (same_pmm_wf s); [|done]. eapply heap_step_pmm. split; [|done]. rewrite Es. by split.
  - eapply live_rep_free; [apply R|done..].
Qed.

Lemma run_inv_holds s live : run s live → run_inv s live.
Proof.
  induction 1 as [mmap_addr entries m s HT Hinit|s live count zone _ IH Hc|
    s live addr count _ IH Ha Hc|s live size s' p _ IH Hs E|s live size s' p _ IH Hs E|
    s live p _ IH Hp|s live p data i v _ IH Hp Hi|s live q i v _ IH Hq Ho Hi].
  - destruct (memory_init_spec _ _ _ _ _ HT Hinit) as [_ [W _ _ EH _ _]]; [done|].
    split; [done|]. exists [initial_block]. split; [by apply initial_rep|].
    split; [by intros p data ?%lookup_empty_Some|]. by intros b ->%list_elem_of_singleton.
  - pose proof (alloc_in_zone_spec s count zone (proj1 IH) ltac:(lia)) as Ha.
    destruct (pmm_alloc_pages_in_zone s count zone) as [s' addr]. destruct Ha as [W' [Eb F]%alloc_frame].
    by eapply run_inv_pmm.
  - destruct (free_frame s addr count (proj1 IH)) as [Eb F]; [lia..|].
    eapply run_inv_pmm; [done| |done..]. apply free_pages_spec; [apply IH|lia..].
  - eapply run_inv_kmalloc; [done|lia|done].
  - eapply run_inv_kmalloc_aligned; [done|lia|done].
  - by apply run_inv_kfree.
  - by apply run_inv_write.
  - by apply run_inv_write_page.
Qed.

(** ** A concrete machine

    The E820 table of a 32 MiB virtual machine, the state after boot and the
    state after one allocation; the witnesses below are about these states. *)

Definition demo_map : list mmap_entry_t :=
  [MmapEntry 0 0 0x9FC00 0 1 0; MmapEntry 0x9FC00 0 0x400 0 2 0;
   MmapEntry 0x100000 0 0x1F00000 0 1 0].
Definition booted : memory_t := (memory_init 0x2000 demo_map (memory_boot ∅)).1.
Definition demo_heap : memory_t := (kmalloc booted 100).1.

Lemma demo_map_typed : Forall mmap_entry_typed demo_map.
Proof. repeat (constructor; [by unfold mmap_entry_typed|]). constructor. Qed.

Lemma demo_map_accepted : init_panic 0x2000 demo_map = None.
Proof.
  assert (H : existsb (boot_free demo_map) (range 0 (usable_top demo_map / PAGE_SIZE)) = true).
  { apply existsb_exists. exists 5120. split; [|done]. by apply list_elem_of_In, elem_of_range. }
  unfold init_panic. rewrite H. done.
Qed.

Lemma booted_init : memory_init 0x2000 demo_map (memory_boot ∅) = (booted, None).
Proof.
  destruct (memory_init 0x2000 demo_map (memory_boot ∅)) as [s r] eqn:E. unfold booted. rewrite E.
  destruct (memory_init_spec _ _ _ _ _ demo_map_typed E) as [Er _].
  clear E. rewrite Er, demo_map_accepted. reflexivity.
Qed.

Lemma booted_ok : memory_initialised demo_map (memory_boot ∅) booted.
Proof.
  destruct (memory_init_spec _ _ _ _ _ demo_map_typed booted_init) as [_ H].
  exact (H eq_refl).
Qed.
#[global] Opaque booted.

Lemma booted_wf : pmm_wf booted.
Proof. exact (ini_wf _ _ _ booted_ok). Qed.
Lemma booted_rep : heap_rep booted [initial_block].
Proof. exact (initial_rep booted (ini_heap _ _ _ booted_ok)). Qed.
Lemma booted_run : run booted ∅.
Proof. eapply run_init; [exact demo_map_typed|exact booted_init]. Qed.

(** The demo block, and the list the heap represents after [kmalloc(100)]. *)
Definition demo_block : block := Block HEAP_START 104 false (HEAP_START + HEADER).
Definition demo_blocks : list block :=
  [demo_block; Block (HEAP_START + 128) (HEAP_SIZE - 152) true 0].

Lemma demo_kmalloc : kmalloc booted 100 = (demo_heap, HEAP_START + HEADER) ∧ heap_rep demo_heap demo_blocks.
Proof.
  pose proof (kmalloc_spec booted _ 100 booted_rep ltac:(lia)) as H. fold (kmalloc booted 100) in H.
  unfold demo_heap. destruct (kmalloc booted 100) as [s p].
  replace (spec_kmalloc [initial_block] 100) with (Some (demo_blocks, HEAP_START + HEADER)) in H by done.
  by destruct H as (_ & _ & _ & -> & ? & _).
Qed.
#[global] Opaque demo_heap.

Definition demo_live : gmap Z (list Z) :=
  <[HEAP_START + HEADER := bytes_at (phys demo_heap) (HEAP_START + HEADER) 100]> ∅.

Lemma demo_run : run demo_heap demo_live.
Proof. exact (run_kmalloc booted ∅ 100 _ _ booted_run ltac:(lia) (proj1 demo_kmalloc)). Qed.

(** ** Theorems *)

(** C1: In every reachable state the in-use bitmap, the zone tags and the
    page counters agree (so [memory_get_detailed_stats] accepts them); every
    heap allocation lies inside the heap window and holds exactly the bytes
    its owner wrote last; and no two of them overlap. *)
Theorem memory_run_safe s live :
  run s live →
  pmm_wf s ∧ (memory_get_detailed_stats s).2 = OK ∧
  (∀ p data, live !! p = Some data →
     HEAP_START + HEADER ≤ p ∧ p + Z.of_nat (length data) ≤ HEAP_END ∧
     bytes_at (phys s) p (Z.of_nat (length data)) = data) ∧
  (∀ p q d e, live !! p = Some d → live !! q = Some e → p ≠ q →
     p + Z.of_nat (length d) ≤ q ∨ q + Z.of_nat (length e) ≤ p).
Proof.
  intros (W & bs & R & [H1 H2])%run_inv_holds. pose proof (hr_tiled _ _ R) as Ht.
  split; [done|]. split; [by apply detailed_stats_ok|]. split.
  - intros p data Hp. destruct (H1 p data Hp) as (b & Hb & Hf & Hu & Hl & Hc).
    destruct (tiled_in _ _ _ _ Ht Hb) as (? & ? & (_ & _ & Ub)). rewrite Hf in Ub.
    split; [unfold_heap; lia|]. split; [lia|]. apply list_eq_same_length with (length data); [done| |].
    + pose proof (length_bytes_at (phys s) p (Z.of_nat (length data))). lia.
    + intros i x y _ Hx%lookup_bytes_at Hy%Hc. congruence.
  - intros p q d e Hp Hq Hne. destruct (H1 p d Hp) as (b & Hb & Hbf & Hbu & Hbl & _).
    destruct (H1 q e Hq) as (c & Hcin & Hcf & Hcu & Hcl & _).
    destruct (tiled_in _ _ _ _ Ht Hb) as (_ & _ & (_ & _ & Ub)). rewrite Hbf in Ub.
    destruct (tiled_in _ _ _ _ Ht Hcin) as (_ & _ & (_ & _ & Uc)). rewrite Hcf in Uc.
    destruct (tiled_disjoint _ _ _ _ _ Ht Hb Hcin) as [->|]; [congruence|]. unfold_heap. lia.
Qed.

Lemma memory_run_safe_witness :
  run demo_heap demo_live ∧ (memory_get_detailed_stats demo_heap).2 = OK.
Proof.
  split; [exact demo_run|]. destruct (memory_run_safe demo_heap demo_live demo_run) as (_ & H & _).
  exact H.
Defined.

(** C2: [memory_init] halts exactly in the situations [init_panic] computes
    from the E820 table (no table, less than 31.875 MiB, a reserved range not
    covered, more than 512 MiB, no free page), and otherwise leaves a
    consistent page manager whose free pages are the pages at or above
    [PHYSICAL_IDENTITY_START] that some usable entry covers entirely; no byte
    outside the bitmap storage changes. *)
Theorem memory_init_outcome mmap_addr entries s s' r :
  Forall mmap_entry_typed entries →
  memory_init mmap_addr entries s = (s', r) →
  r = init_panic mmap_addr entries ∧ (r = None → memory_initialised entries s s').
Proof. apply memory_init_spec. Qed.

Lemma memory_init_outcome_witness :
  init_panic 0x2000 demo_map = None ∧ memory_initialised demo_map (memory_boot ∅) booted.
Proof.
  split; [exact demo_map_accepted|].
  exact (proj2 (memory_init_outcome 0x2000 demo_map _ _ _ demo_map_typed booted_init) eq_refl).
Defined.

(** C5: [pmm_alloc_pages_in_zone] hands out the lowest run of [count] free
    pages when the zone is allocatable and there is one, never a page below
    [PHYSICAL_IDENTITY_START]; exactly those pages change hands.  Otherwise it
    returns null and only counts the failure. *)
Theorem pmm_alloc_first_fit s count zone :
  pmm_wf s → 0 ≤ count →
  let '(s', addr) := pmm_alloc_pages_in_zone s count zone in
  pmm_wf s' ∧ alloc_outcome s count zone s' addr ∧
  (addr = 0 ↔ pmm_zone_is_allocatable zone = false ∨ count = 0 ∨ ∀ j, ¬ free_run s j count).
Proof.
  intros W Hc. pose proof (alloc_in_zone_spec s count zone W Hc) as H.
  destruct (pmm_alloc_pages_in_zone s count zone) as [s' addr]. destruct H as [W' H].
  split; [done|]. split; [done|]. destruct H as [H|s' first Hz Hpos Hr _ Hlow _]; [tauto|].
  change FIRST_FREE_PAGE with 5120 in Hlow. unfold PAGE_SIZE. split; [lia|].
  intros [?|[?|Hn]]; [congruence|lia|]. by destruct (Hn first).
Qed.

Lemma pmm_alloc_first_fit_witness :
  pmm_wf (pmm_alloc_pages_in_zone booted 3 MEMORY_ZONE_PROCESS).1.
Proof.
  pose proof (pmm_alloc_first_fit booted 3 MEMORY_ZONE_PROCESS booted_wf ltac:(lia)) as H.
  destruct (pmm_alloc_pages_in_zone booted 3 MEMORY_ZONE_PROCESS) as [s' addr]. exact (proj1 H).
Defined.

(** C6: [pmm_free_pages] releases the run when it is page aligned, not null,
    not empty and consists of pages the page manager handed out; every other
    request leaves the state as it was but for one more refused free. *)
Theorem pmm_free_exact s addr count :
  pmm_wf s → 0 ≤ addr → 0 ≤ count →
  let s' := pmm_free_pages s addr count in
  pmm_wf s' ∧
  ((releasable s addr count ∧ run_released s s' (addr / PAGE_SIZE) count) ∨
   (¬ releasable s addr count ∧ s' = count_invalid_free s)).
Proof. apply free_pages_spec. Qed.

Lemma pmm_free_exact_witness : pmm_wf (pmm_free_pages booted 0x1400000 1).
Proof. exact (proj1 (pmm_free_exact booted 0x1400000 1 booted_wf ltac:(lia) ltac:(lia))). Defined.

Lemma claimed_owned s s' first count zone :
  pmm_zone_is_allocatable zone = true → free_run s first count → 
  run_claimed s s' first count (pmm_zone_to_tag zone) → owned_run s' first count.
Proof.
  intros Hz (H0 & Hle & Hr) RC. split; [done|]. rewrite (rc_total _ _ _ _ _ RC). split; [done|].
  intros q Hq. assert (Hin : in_run first count q = true) by (unfold in_run; lia).
  unfold pmm_page_is_owned. rewrite (rc_tag _ _ _ _ _ RC), (rc_free _ _ _ _ _ RC), Hin by lia.
  split; [|done]. by apply allocatable_tag.
Qed.

(** Freeing what was just allocated restores every page of RAM, every
    page counter and the memory outside the bitmaps, and is not refused. *)
Theorem pmm_alloc_free_roundtrip s count zone s1 addr :
  pmm_wf s → 0 ≤ count → pmm_alloc_pages_in_zone s count zone = (s1, addr) → addr ≠ 0 →
  let s2 := pmm_free_pages s1 addr count in
  (∀ p, 0 ≤ p < mi_total_pages (mem_info s) →
     pmm_page_is_free s2 p = pmm_page_is_free s p ∧
     pmm_get_page_tag s2 p = pmm_get_page_tag s p) ∧
  mi_free_pages (mem_info s2) = mi_free_pages (mem_info s) ∧
  pmm_owned_pages s2 = pmm_owned_pages s ∧
  (∀ a, a < PMM_BITMAP_STORAGE_START ∨ PMM_BITMAP_STORAGE_END ≤ a →
     load8 (phys s2) a = load8 (phys s) a).
Proof.
  intros W Hc E Hne. pose proof (alloc_in_zone_spec s count zone W Hc) as H. rewrite E in H.
  destruct H as [W1 H]. destruct H as [|s1 first Hz Hpos Hr _ _ RC]; [done|].
  pose proof (claimed_owned _ _ _ _ _ Hz Hr RC) as Ho. pose proof Hr as (H0 & Hle & Hfree).
  assert (Ea : first * PAGE_SIZE / PAGE_SIZE = first) by (apply Z.div_mul; done).
  destruct (free_pages_spec s1 (first * PAGE_SIZE) count W1) as [_ [[_ RR]|[HN _]]];
    [unfold PAGE_SIZE; lia|done| |].
  2:{ destruct HN. split; [done|]. split; [done|]. split; [apply Z.mod_mul; done|]. by rewrite Ea. }
  rewrite Ea in RR. split; [|split; [|split]].
  - intros p Hp. rewrite (rr_free _ _ _ _ RR), (rr_tag _ _ _ _ RR) by (by rewrite (rc_total _ _ _ _ _ RC)).
    rewrite (rc_free _ _ _ _ _ RC), (rc_tag _ _ _ _ _ RC) by done.
    destruct (in_run first count p) eqn:Ein; [|done]. unfold in_run in Ein.
    pose proof (wf_agree _ W p Hp) as Hag. rewrite Hfree in * by lia. lia.
  - rewrite (rr_pages _ _ _ _ RR), (rc_pages _ _ _ _ _ RC). lia.
  - rewrite (rr_owned _ _ _ _ RR), (rc_owned _ _ _ _ _ RC). lia.
  - intros a Ha. by rewrite (rr_frame _ _ _ _ RR), (rc_frame _ _ _ _ _ RC).
Qed.

(** The first page of the demo machine's RAM that [memory_init] frees. *)
Definition demo_paged : memory_t := (pmm_alloc_pages_in_zone booted 1 MEMORY_ZONE_KERNEL).1.

Lemma booted_free_pages n : 0 < n ≤ 5 → free_run booted 5120 n.
Proof.
  intros Hn. assert (Et : mi_total_pages (mem_info booted) = 8192)
    by (rewrite (ini_total _ _ _ booted_ok); reflexivity).
  split; [lia|]. rewrite Et. split; [lia|]. intros q Hq.
  apply (ini_free _ _ _ booted_ok); [rewrite Et; lia|].
  split; [change FIRST_FREE_PAGE with 5120; lia|].
  exists (MmapEntry 0x100000 0 0x1F00000 0 1 0). split; [unfold demo_map; in_list|].
  assert (q = 5120 ∨ q = 5121 ∨ q = 5122 ∨ q = 5123 ∨ q = 5124) as Hc by lia.
  destruct_or! Hc; subst q; by apply covers_test_spec.
Qed.

Lemma booted_free_run : free_run booted 5120 1.
Proof. apply booted_free_pages. lia. Qed.

Lemma demo_alloc :
  pmm_alloc_pages_in_zone booted 1 MEMORY_ZONE_KERNEL = (demo_paged, 0x1400000) ∧
  pmm_wf demo_paged ∧ run_claimed booted demo_paged 5120 1 PMM_ZONE_TAG_KERNEL.
Proof.
  unfold demo_paged. pose proof (alloc_in_zone_spec booted 1 MEMORY_ZONE_KERNEL booted_wf ltac:(lia)) as H.
  destruct (pmm_alloc_pages_in_zone booted 1 MEMORY_ZONE_KERNEL) as [s a]. destruct H as [W H].
  pose proof booted_free_run as Hrun. cbn [fst].
  destruct H as [[?|[?|H]]|s first Hz Hpos Hr Hmin Hlow RC]; [done|lia|by destruct (H 5120)|].
  change FIRST_FREE_PAGE with 5120 in Hlow.
  assert (first = 5120) as ->.
  { destruct (decide (5120 < first)); [|lia]. by destruct (Hmin 5120). }
  split; [reflexivity|]. split; [exact W|exact RC].
Qed.
#[global] Opaque demo_paged.

Lemma pmm_alloc_free_roundtrip_witness :
  pmm_owned_pages (pmm_free_pages demo_paged 0x1400000 1) = pmm_owned_pages booted.
Proof.
  destruct (pmm_alloc_free_roundtrip booted 1 MEMORY_ZONE_KERNEL demo_paged 0x1400000
              booted_wf ltac:(lia) (proj1 demo_alloc) ltac:(lia)) as (_ & _ & H & _).
  exact H.
Defined.

(** Once a run has been released, a second release that overlaps it is
    refused: the bitmap, the tags and the page counters stay as they are. *)
Theorem pmm_double_free_refused s addr count addr' count' :
  pmm_wf s → 0 ≤ addr → 0 ≤ count → releasable s addr count →
  0 ≤ addr' → 0 ≤ count' →
  addr / PAGE_SIZE < addr' / PAGE_SIZE + count' → addr' / PAGE_SIZE < addr / PAGE_SIZE + count →
  0 < count' →
  let s1 := pmm_free_pages s addr count in
  pmm_free_pages s1 addr' count' = count_invalid_free s1.
Proof.
  intros W Ha Hc HR Ha' Hc' H1 H2 Hpos s1.
  destruct (free_pages_spec s addr count W Ha Hc) as [W1 [[_ RR]|[HN _]]]; [|done].
  destruct (free_pages_spec s1 addr' count' W1 Ha' Hc') as [_ [[(_ & _ & _ & Ho) _]|[_ ?]]]; [|done].
  destruct Ho as (H0 & Hle & Ho). destruct HR as (_ & Hcpos & _ & (Hlo & Hle0 & _)).
  fold s1 in RR. rewrite (rr_total _ _ _ _ RR) in Hle.
  set (f := addr / PAGE_SIZE) in *. set (f' := addr' / PAGE_SIZE) in *. clearbody f f'.
  destruct (Ho (Z.max f f')) as [_ Hf]; [lia|]. rewrite (rr_free _ _ _ _ RR) in Hf by lia.
  replace (in_run f count (Z.max f f')) with true in Hf by (unfold in_run; lia). done.
Qed.

Lemma demo_releasable : releasable demo_paged 0x1400000 1.
Proof.
  split; [lia|]. split; [lia|]. split; [reflexivity|]. change (0x1400000 / PAGE_SIZE) with 5120.
  apply (claimed_owned booted _ 5120 1 MEMORY_ZONE_KERNEL);
    [reflexivity|exact booted_free_run|apply demo_alloc].
Qed.

Lemma pmm_double_free_refused_witness :
  let s1 := pmm_free_pages demo_paged 0x1400000 1 in
  pmm_free_pages s1 0x1400000 1 = count_invalid_free s1.
Proof.
  exact (pmm_double_free_refused demo_paged 0x1400000 1 0x1400000 1 (proj1 (proj2 demo_alloc))
    ltac:(lia) ltac:(lia) demo_releasable ltac:(lia) ltac:(lia) ltac:(done) ltac:(done) ltac:(lia)).
Defined.

(** C3: [kmalloc] is first fit.  With [n] the request rounded up to eight
    bytes, it takes the first free block of at least [n] bytes, splits off
    the remainder when that can hold another block, returns the start of the
    payload and changes no byte of a live payload nor outside the heap.  It
    returns null, and counts one failure, exactly when the request is zero,
    larger than the heap, or larger than every free block. *)
Theorem kmalloc_first_fit s bs size :
  heap_rep s bs → 0 ≤ size →
  let n := (size + 7) / 8 * 8 in
  let '(s', p) := kmalloc s size in
  heap_step bs s s' ∧
  ((p = 0 ∧ heap_rep s' bs ∧
    heap_allocation_failures s' = heap_allocation_failures s +w 1 ∧
    (size = 0 ∨ HEAP_SIZE - HEADER < size ∨ ∀ b, b ∈ bs → b_free b = true → b_size b < n)) ∨
   (∃ l1 b l2, bs = l1 ++ b :: l2 ∧ p = b_payload b ∧ p mod 8 = 0 ∧
    b_free b = true ∧ 0 < size ≤ n ∧ n ≤ b_size b ∧
    (∀ c, c ∈ l1 → b_free c = true → b_size c < n) ∧
    heap_rep s' (l1 ++ split_block b n ++ l2) ∧
    heap_allocation_failures s' = heap_allocation_failures s)).
Proof.
  intros R Hs n. pose proof (kmalloc_spec s bs size R Hs) as H. fold (kmalloc s size) in H.
  destruct (kmalloc s size) as [s' p]. destruct H as (St & _ & _ & H). split; [done|].
  unfold spec_kmalloc, heap_request in H. fold n in H.
  assert (Hn : size ≤ n) by (subst n; divlia).
  destruct ((size =? 0) || (size >? HEAP_SIZE - HEADER)) eqn:Eg; simpl in H.
  { destruct H as (-> & R' & Ef). left. do 3 (split; [done|]). lia. }
  destruct (alloc_blocks bs n) as [[bs' q]|] eqn:Ea.
  - destruct H as (-> & R' & Ef). right. pose proof (hr_tiled _ _ R) as Ht.
    apply alloc_blocks_Some in Ea as (l1 & b & l2 & -> & Hf & Hle & Hl1 & -> & ->).
    pose proof (tiled_aligned HEAP_START _ HEAP_END b eq_refl Ht ltac:(in_list)) as Hal.
    exists l1, b, l2. do 2 (split; [done|]).
    split; [unfold b_payload, HEADER; clear -Hal; divlia|]. split; [done|]. split; [lia|].
    split; [done|]. split; [|done]. rewrite Forall_forall in Hl1. intros c Hc Hcf.
    specialize (Hl1 c Hc). rewrite Hcf in Hl1. simpl in Hl1. lia.
  - destruct H as (-> & R' & Ef). left. do 3 (split; [done|]). right; right.
    apply alloc_blocks_None in Ea. rewrite Forall_forall in Ea. intros c Hc Hcf.
    specialize (Ea c Hc). rewrite Hcf in Ea. simpl in Ea. lia.
Qed.

Lemma kmalloc_first_fit_witness :
  heap_rep booted [initial_block] ∧
  heap_step [initial_block] booted (kmalloc booted 100).1.
Proof.
  split; [exact booted_rep|].
  pose proof (kmalloc_first_fit booted [initial_block] 100 booted_rep ltac:(lia)) as H.
  cbv zeta in H. destruct (kmalloc booted 100) as [s' p]. exact (proj1 H).
Defined.

(** [kmalloc_aligned] returns a page-aligned pointer with [size] usable
    bytes inside a fresh block, leaving every live payload and everything
    outside the heap untouched; its out-of-range branch is never taken, so it
    fails only when [kmalloc] of the padded size would. *)
Theorem kmalloc_aligned_correct s bs size :
  heap_rep s bs → 0 ≤ size →
  let '(s', p) := kmalloc_aligned s size in
  heap_step bs s s' ∧
  match spec_kmalloc_aligned bs size with
  | Some (bs', q) =>
      p = q ∧ p mod PAGE_SIZE = 0 ∧ heap_rep s' bs' ∧
      (∃ b, b ∈ bs' ∧ fresh_alloc bs bs' p size b) ∧
      heap_allocation_failures s' = heap_allocation_failures s
  | None => p = 0 ∧ heap_rep s' bs ∧
      heap_allocation_failures s' = heap_allocation_failures s +w 1
  end.
Proof.
  intros R Hs. pose proof (kmalloc_aligned_spec s bs size R Hs) as H.
  destruct (kmalloc_aligned s size) as [s' p]. destruct H as (St & _ & _ & H). split; [done|].
  destruct (spec_kmalloc_aligned bs size) as [[bs' q]|] eqn:Esp; [|done].
  destruct H as (-> & R' & Ef).
  destruct (aligned_fresh bs size bs' q (hr_tiled _ _ R) Hs Esp) as (b & Fr & Hal).
  do 3 (split; [done|]). split; [|done]. exists b. split; [|done]. apply Fr; [apply Fr|by right].
Qed.

Lemma kmalloc_aligned_correct_witness :
  heap_step demo_blocks demo_heap (kmalloc_aligned demo_heap 5000).1.
Proof.
  pose proof (kmalloc_aligned_correct demo_heap demo_blocks 5000 (proj2 demo_kmalloc) ltac:(lia)) as H.
  destruct (kmalloc_aligned demo_heap 5000) as [s' p]. exact (proj1 H).
Defined.

(** A pointer outside the heap window belongs to no block. *)
Lemma outside_pointer m ptr :
  ptr < HEAP_START ∨ HEAP_END ≤ ptr →
  heap_block_from_pointer m ptr = 0 ∧ heap_pointer_was_freed m ptr = false.
Proof.
  intros Hp. unfold heap_block_from_pointer, heap_pointer_was_freed.
  assert (Hr : heap_range_contains ptr 1 = false).
  { unfold heap_range_contains. destruct (_ || _) eqn:E; [done|].
    assert (ptr = HEAP_END) as -> by lia. done. }
  rewrite Hr. by destruct (ptr =? 0).
Qed.

(** C4: [kfree] of a live pointer marks its block free and merges it with its
    free neighbours, so that afterwards no two adjacent blocks are free; it
    preserves the other live payloads and changes no counter.  A null pointer
    is ignored and a pointer outside the heap only counts a refused free. *)
Theorem kfree_correct s bs :
  heap_rep s bs →
  (∀ b, b ∈ bs → b_free b = false →
     let s' := kfree s (b_user b) in
     s' = s <| phys := phys s' |> ∧ heap_rep s' (free_blocks bs (b_user b)) ∧
     compact (free_blocks bs (b_user b)) = true ∧
     preserved (free_blocks bs (b_user b)) (phys s) (phys s')) ∧
  kfree s 0 = s ∧
  (∀ ptr, ptr ≠ 0 → ptr < HEAP_START ∨ HEAP_END ≤ ptr →
     kfree s ptr = s <| heap_invalid_frees ::= λ n, n +w 1 |>).
Proof.
  intros R. split; [|split; [done|]].
  - intros b Hb Hf. destruct (kfree_live s bs b R Hb Hf) as (E & R' & P).
    split; [done|]. split; [done|]. split; [apply R'|done].
  - intros ptr Hne Hout. destruct (outside_pointer (phys s) ptr Hout) as [E1 E2].
    unfold kfree. rewrite E1, E2. by replace (ptr =? 0) with false by lia.
Qed.

Lemma kfree_correct_witness :
  heap_rep (kfree demo_heap (HEAP_START + HEADER)) [initial_block].
Proof.
  destruct (kfree_correct demo_heap demo_blocks (proj2 demo_kmalloc)) as (H & _ & _).
  destruct (H demo_block ltac:(unfold demo_blocks; in_list) eq_refl) as (_ & R & _).
  exact R.
Defined.

(** Whether the block before a position is free. *)
Definition prev_free (l : list block) : bool :=
  match last l with Some c => b_free c | None => false end.

(** A payload address whose header is still linked, but free. *)
Lemma freed_pointer_linked m l1 x l2 :
  tiled HEAP_START (l1 ++ x :: l2) HEAP_END → linked m 0 (l1 ++ x :: l2) 0 → b_free x = true →
  heap_block_from_pointer m (b_payload x) = 0 ∧ heap_pointer_was_freed m (b_payload x) = false.
Proof.
  intros Ht Hl Hf. pose proof (payload_not_aligned _ _ _ _ Ht Hl) as Hna.
  pose proof (from_pointer_payload _ _ _ _ Ht Hl) as ->.
  pose proof (tiled_focus _ _ _ Ht) as (Hlo & Hhi & (Hs & _ & Hu) & _). rewrite Hf in Hu.
  apply linked_app in Hl as [_ [[H1 _ _ _ _ _] _]]. rewrite Hu.
  replace (0 =? b_payload x) with false by (unfold_heap; unfold_bounds; lia). split; [done|].
  unfold heap_pointer_was_freed. rewrite Hna, andb_false_r, !andb_false_l.
  replace (b_payload x -w HEADER) with (b_addr x)
    by (unfold_heap; rewrite u32_small by (unfold_bounds; lia); lia).
  rewrite H1. replace (HEAP_MAGIC =? HEAP_MAGIC_FREED) with false by done. rewrite andb_false_r.
  by repeat case_match.
Qed.

(** A payload address whose header was left behind by a merge. *)
Lemma freed_pointer_merged m a :
  HEAP_START ≤ a → a + 32 ≤ HEAP_END → hb_magic m a = HEAP_MAGIC_FREED →
  hb_prev m a = 0 → hb_user_ptr m a = 0 →
  heap_block_from_pointer m (a + HEADER) = 0 ∧ heap_pointer_was_freed m (a + HEADER) = true.
Proof.
  intros Hlo Hhi H1 H2 H3. unfold_heap. unfold heap_block_from_pointer, heap_pointer_was_freed.
  unfold ALIGNED_HEADER, HEADER. rewrite (u32_small (a + 24 - 8)), (u32_small (a + 24 - 24)) by (unfold_bounds; lia).
  replace (a + 24 - 8) with (a + 16) by lia. replace (a + 24 - 24) with a by lia.
  rewrite H2. replace (0 =? HEAP_MAGIC_ALIGNED) with false by done.
  rewrite andb_false_r, !andb_false_l.
  replace (a + 24 =? 0) with false by (unfold_bounds; lia).
  replace (a + 24 <? HEAP_START + 24) with false by lia.
  unfold heap_block_matches, hb_magic, hb_user_ptr. rewrite H1, H3.
  rewrite !range_contains_spec by (unfold_bounds; lia).
  replace (a + 24 + 1 <=? HEAP_END) with true by lia. unfold HEADER.
  replace (a + 24 <=? HEAP_END) with true by lia. cbn [negb andb orb].
  split; [by destruct (_ || _)|]. rewrite range_contains_spec by (unfold_bounds; lia).
  by replace (a + 24 <=? HEAP_END) with true by lia.
Qed.

(** Freeing a [kmalloc] pointer twice changes no memory the second time,
    but the counter that records it depends on the neighbourhood: it is
    [heap_double_frees] when the block was merged into a free predecessor,
    and [heap_invalid_frees] otherwise. *)
Theorem kfree_twice s l1 b l2 :
  heap_rep s (l1 ++ b :: l2) → b_free b = false → b_user b = b_payload b →
  let s1 := kfree s (b_user b) in
  kfree s1 (b_user b)
  = if prev_free l1 then s1 <| heap_double_frees ::= λ n, n +w 1 |>
    else s1 <| heap_invalid_frees ::= λ n, n +w 1 |>.
Proof.
  intros R Hf Hu s1.
  assert (Hin : b ∈ l1 ++ b :: l2) by in_list.
  destruct (heap_rep_live _ _ b R Hin Hf) as (Eb & Hl & Hok).
  destruct (kfree_live s _ b R Hin Hf) as (Es & R1 & _). fold s1 in R1, Es.
  assert (Hbase : heap_base s1 = HEAP_START) by (rewrite Es; exact Eb). clear Es.
  pose proof (hr_tiled _ _ R) as Ht. destruct (compact_split _ _ _ (hr_compact _ _ R)) as [Hc1 Hc2].
  pose proof (tiled_focus _ _ _ Ht) as (Hlo & Hhi & [Hs _] & _).
  assert (Hmark := mark_free_at _ _ _ _ _ Ht Hf).
  pose proof (mark_free_tiled (b_user b) _ _ _ Ht) as Htm. unfold free_blocks in R1. rewrite Hmark in *.
  set (b' := Block (b_addr b) (b_size b) true 0) in *.
  assert (Hout : if prev_free l1 then heap_block_from_pointer (phys s1) (b_payload b) = 0 ∧
                      heap_pointer_was_freed (phys s1) (b_payload b) = true
                 else heap_block_from_pointer (phys s1) (b_payload b) = 0 ∧
                      heap_pointer_was_freed (phys s1) (b_payload b) = false).
  { destruct (prev_free l1) eqn:Hp.
    - destruct l1 as [|c l _] using rev_ind; [done|]. unfold prev_free in Hp. rewrite last_snoc in Hp.
      assert (Em : phys s1 = release_block (phys s) (b_addr b)).
      { subst s1. unfold kfree. rewrite Forall_app, Forall_cons in Hok. destruct Hok as (_ & Hub & _).
        rewrite (from_pointer_live _ _ _ _ Ht Hl Hf Hub).
        pose proof Hl as [_ [[_ _ H3 _ _ _] _]]%linked_app. rewrite H3, Hf.
        replace (b_user b =? 0) with false by (rewrite Hu; unfold_heap; unfold_bounds; lia).
        replace (b_addr b =? 0) with false by (unfold_bounds; lia). done. }
      destruct (release_merged (phys s) l c b l2 Htm Hl Hp) as (M1 & M2 & M3).
      rewrite <-Em in M1, M2, M3. apply freed_pointer_merged; [done|unfold_heap; lia|done..].
    - rewrite coalesce_after_used in R1; try done.
      2:{ intros l c ->. unfold prev_free in Hp. by rewrite last_snoc in Hp. }
      destruct (absorb_head b' l2 eq_refl) as (x & r & Ex & Hx & Eax). rewrite Ex in R1.
      destruct R1 as [Ht1 _ [[Ebs _]|(_ & Hl1 & _)]].
      + by rewrite Hbase in Ebs.
      + pose proof (freed_pointer_linked _ _ _ _ Ht1 Hl1 Hx) as H.
        unfold b_payload in H |- *. by rewrite Eax in H. }
  rewrite Hu. unfold kfree. replace (b_payload b =? 0) with false by (unfold_heap; unfold_bounds; lia).
  by destruct (prev_free l1); destruct Hout as [-> ->].
Qed.

Lemma kfree_twice_witness :
  let s1 := kfree demo_heap (HEAP_START + HEADER) in
  kfree s1 (HEAP_START + HEADER) = s1 <| heap_invalid_frees ::= λ n, n +w 1 |>.
Proof.
  exact (kfree_twice demo_heap [] demo_block [Block (HEAP_START + 128) (HEAP_SIZE - 152) true 0]
           (proj2 demo_kmalloc) eq_refl eq_refl).
Defined.

Definition fragmentation (bs : list block) : Z :=
  let free := tally (size_if b_free) bs in
  if free =? 0 then 0 else (free - largest_free bs) * 100 / free.

(** The heap statistics are exact: the walk reaches the end of the list
    within its bound, the list is reported valid, no counter wraps, and the
    byte and block counts, the largest free block and the fragmentation are
    those of the block list. *)
Theorem heap_stats_exact s bs :
  heap_rep s bs → heap_base s ≠ 0 →
  memory_get_heap_stats s =
  HeapStats (tally b_size bs) (tally (size_if in_use) bs) (tally (size_if b_free) bs)
    (tally (one_if in_use) bs) (tally (one_if b_free) bs) (largest_free bs) (fragmentation bs)
    (heap_allocation_failures s) (heap_invalid_frees s) (heap_double_frees s) 1 1.
Proof.
  intros [Ht Hc [[? _]|(Eb & Hl & _)]] Hne; [done|]. unfold memory_get_heap_stats, heap_measure.
  rewrite Eb. change (HEAP_START =? 0) with false. cbn [negb].
  set (st := _ <| hs_double_frees := _ |>).
  assert (Hst : st = stats_of [] st) by done.
  assert (Hhead : HEAP_START = head_or 0 bs).
  { destruct bs as [|b bs]; [done|]. by destruct Ht. }
  rewrite Hst, Hhead. change 0 with (last_or 0 []) at 2.
  rewrite (measure_loop_spec bs [] _ _ _ Ht Hl (blocks_bound bs Ht)). cbn [negb app].
  pose proof (tally_prefix (size_if b_free) bs [] ltac:(by rewrite app_nil_r) (size_if_bound _)).
  pose proof (largest_free_nonneg bs).
  assert (largest_free bs ≤ tally (size_if b_free) bs).
  { apply largest_free_le. intros b Hb. destruct (tiled_in _ _ _ _ Ht Hb) as (_ & _ & [? _]).
    unfold_heap. lia. }
  subst st. stats_cbn. unfold fragmentation, heap_stats_zero.
  destruct (Z.eqb_spec (tally (size_if b_free) bs) 0); cbn [negb fst]; [done|].
  unfold_bounds. by rewrite (u32_small (_ - _)), (u32_small (_ * 100)) by lia.
Qed.

Lemma heap_stats_exact_witness :
  hs_used_bytes (memory_get_heap_stats demo_heap) = 104 ∧
  hs_fragmentation_percent (memory_get_heap_stats demo_heap) = 0.
Proof.
  assert (Hb : heap_base demo_heap ≠ 0).
  { destruct (heap_rep_live _ _ demo_block (proj2 demo_kmalloc)) as [-> _];
      [unfold demo_blocks; in_list|done|done]. }
  rewrite (heap_stats_exact demo_heap demo_blocks (proj2 demo_kmalloc) Hb). split; reflexivity.
Defined.
