(* ===== verification/PageOwner.v ===== *)
(** * Pages and their owners

    memory.c hands out physical pages to its clients: the slab allocator, the page
    tables and the frames of processes.  [page_owned m p] says that page [p] is handed
    out.  A client may write what it owns, an allocation returns pages nobody owned, and
    what is not part of a call keeps its owner and its contents. *)

From S2P Require Import Prelude Memory Pmm Heap HeapRefine MemorySystem.

(** Page [p] exists and is owned. *)
Definition page_owned (m : memory_t) (p : Z) : bool :=
  (0 <=? p) && (p <? mi_total_pages (mem_info m)) && pmm_page_is_owned m p.

Lemma run_wf s live : run s live → pmm_wf s.
Proof. intros H%run_inv_holds. apply H. Qed.

Lemma page_owned_high m p : pmm_wf m → page_owned m p = true → FIRST_FREE_PAGE ≤ p < mi_total_pages (mem_info m).
Proof.
  intros W [[H1 H2]%andb_true_iff H3]%andb_true_iff. split; [|lia].
  destruct (decide (FIRST_FREE_PAGE ≤ p)); [done|]. destruct (wf_reserved _ W p) as [_ E]; [lia|]. congruence.
Qed.

(** The bytes of owned pages are outside the arrays of the page manager. *)
Lemma owned_byte_high m b : pmm_wf m → page_owned m (b / PAGE_SIZE) = true → PMM_BITMAP_STORAGE_END ≤ b.
Proof.
  intros W H%page_owned_high; [|done]. change FIRST_FREE_PAGE with 5120 in H.
  unfold PMM_BITMAP_STORAGE_END, PAGE_SIZE in *. divlia.
Qed.

Lemma free_not_owned m p :
  pmm_wf m → 0 ≤ p < mi_total_pages (mem_info m) → pmm_page_is_free m p = true → pmm_page_is_owned m p = false.
Proof.
  intros W Hp Hf. rewrite (wf_agree _ W) in Hf by done. unfold pmm_page_is_owned.
  by rewrite (tag_not_owned_of_free _ Hf).
Qed.

(** Writing into owned pages byte by byte. *)
Lemma write_owned s live b v :
  run s live → page_owned s (b / PAGE_SIZE) = true →
  run (s <| phys ::= λ h, store8 h b v |>) live ∧
  ∀ p, page_owned (s <| phys ::= λ h, store8 h b v |>) p = page_owned s p.
Proof.
  intros Hr Ho. pose proof (run_wf _ _ Hr) as W. pose proof (owned_byte_high s b W Ho) as Hb. split.
  - pose proof (page_owned_high s _ W Ho) as Hp. pose proof Ho as [_ Ho']%andb_true_iff.
    pose proof (run_write_page s live (b / PAGE_SIZE) (b mod PAGE_SIZE) v Hr) as H.
    replace (b / PAGE_SIZE * PAGE_SIZE + b mod PAGE_SIZE) with b in H
      by (pose proof (Z.div_mod b PAGE_SIZE); unfold PAGE_SIZE in *; lia).
    apply H; [change FIRST_FREE_PAGE with 5120 in Hp; lia|done|apply Z.mod_pos_bound; done].
  - intros p. unfold page_owned. change (mem_info (s <| phys ::= _ |>)) with (mem_info s).
    destruct (Z.leb_spec 0 p), (Z.ltb_spec p (mi_total_pages (mem_info s))); try done. cbn [andb].
    apply (same_pmm_owned s); [apply W| |done]. split; [by split|]. intros a Ha.
    apply load8_store8_ne. lia.
Qed.

Lemma run_memset s live dst v n :
  run s live → (∀ b, dst ≤ b < dst + n → page_owned s (b / PAGE_SIZE) = true) →
  run (s <| phys ::= λ h, kmemset h dst v n |>) live ∧
  ∀ p, page_owned (s <| phys ::= λ h, kmemset h dst v n |>) p = page_owned s p.
Proof.
  intros Hr Ho. destruct (decide (0 ≤ n)) as [Hn|Hn]; cycle 1.
  { unfold kmemset. rewrite range_nil by lia. by destruct s. }
  change (s <| phys ::= λ h, kmemset h dst v n |>) with (s <| phys := kmemset (phys s) dst v n |>).
  unfold kmemset. apply (foldl_range_ind (λ i h, run (s <| phys := h |>) live ∧
     ∀ p, page_owned (s <| phys := h |>) p = page_owned s p) (λ h i, store8 h (dst + i) v) 0 n (phys s));
    [done|by destruct s|].
  intros i h Hi [IH1 IH2]. destruct (write_owned (s <| phys := h |>) live (dst + i) v IH1) as [H1 H2].
  { rewrite IH2. apply Ho. lia. }
  split; [exact H1|]. intros p. rewrite <-IH2. apply H2.
Qed.

Lemma alloc_law live m n zone m' a :
  run m live → 0 < n < 2 ^ 32 → pmm_alloc_pages_in_zone m n zone = (m', a) →
  run m' live ∧ (∀ b, page_owned m (b / PAGE_SIZE) = true → load8 (phys m') b = load8 (phys m) b) ∧
  ((a = 0 ∧ ∀ p, page_owned m' p = page_owned m p) ∨
   ∃ first, a = first * PAGE_SIZE ∧ FIRST_FREE_PAGE ≤ first ∧ first + n ≤ mi_total_pages (mem_info m) ∧
     (∀ p, in_run first n p = true → page_owned m p = false) ∧
     ∀ p, page_owned m' p = in_run first n p || page_owned m p).
Proof.
  intros Hr Hn Ea. pose proof (run_wf _ _ Hr) as W.
  assert (run m' live) as Hr'.
  { replace m' with (pmm_alloc_pages_in_zone m n zone).1 by (by rewrite Ea). apply run_pmm_alloc; [done|lia]. }
  pose proof (alloc_in_zone_spec m n zone W ltac:(lia)) as Hs. rewrite Ea in Hs.
  destruct Hs as [W' Hs]. split; [done|]. destruct (alloc_frame _ _ _ _ _ Hs) as [_ Hfr]. split.
  { intros b Hb. apply Hfr. right. by apply owned_byte_high in Hb. }
  inversion Hs as [_ E1 E2|s1 first Hz _ Hfree _ Hlow RC E1 E2]; subst; [left; done|right].
  destruct Hfree as (H0 & Hle & Hf). change FIRST_FREE_PAGE with 5120 in *.
  exists first. split; [done|]. split; [lia|]. split; [lia|].
  split; intros p; unfold page_owned.
  + intros Hin. unfold in_run in Hin. assert (first ≤ p < first + n) as Hp by lia.
    rewrite (free_not_owned m p); [by rewrite andb_false_r|done|lia|by apply Hf].
  + rewrite (rc_total _ _ _ _ _ RC). unfold in_run.
    destruct ((0 <=? p) && (p <? mi_total_pages (mem_info m))) eqn:Er; cbn [andb]; [|lia].
    unfold pmm_page_is_owned. rewrite (rc_tag _ _ _ _ _ RC) by lia. unfold in_run.
    destruct ((first <=? p) && (p <? first + n)); [by apply allocatable_tag|done].
Qed.

(** The counters after an allocation; one page is refused only when none is free. *)
Lemma alloc_counts live m n zone m' a :
  run m live → 0 < n < 2 ^ 32 → pmm_alloc_pages_in_zone m n zone = (m', a) →
  mi_total_memory (mem_info m') = mi_total_memory (mem_info m) ∧
  mi_free_pages (mem_info m') = mi_free_pages (mem_info m) - (if a =? 0 then 0 else n) ∧
  (a = 0 → n = 1 → pmm_zone_is_allocatable zone = true → mi_free_pages (mem_info m) = 0).
Proof.
  intros Hr Hn E. pose proof (run_wf _ _ Hr) as W. pose proof (alloc_in_zone_spec m n zone W ltac:(lia)) as Hs.
  rewrite E in Hs. destruct Hs as [W' Hs]. rewrite (wf_total _ W'), (wf_total _ W).
  inversion Hs as [Hfail E1 E2|s1 first Hz _ Hfree _ Hlow RC E1 E2]; subst.
  - split; [done|]. split; [rewrite Z.eqb_refl, Z.sub_0_r; done|].
    intros _ -> Hz. destruct Hfail as [Hf|[Hf|Hf]]; [congruence|lia|]. rewrite (wf_free _ W).
    pose proof (pl_pages _ (wf_layout _ W)). apply (count_range_const _ _ _ false); [lia|]. intros p Hp.
    destruct (pmm_page_is_free m p) eqn:Ep; [|done]. destruct (Hf p). split; [lia|]. split; [lia|].
    intros q Hq. by replace q with p by lia.
  - change FIRST_FREE_PAGE with 5120 in Hlow. assert ((first * PAGE_SIZE =? 0) = false) as Hnz by (unfold PAGE_SIZE; lia).
    rewrite (rc_total _ _ _ _ _ RC), (rc_pages _ _ _ _ _ RC), Hnz. split; [done|]. split; [done|]. lia.
Qed.

Lemma free_law live m first n :
  run m live → 0 < n → 0 < first → first + n < 2 ^ 20 + 1 → (∀ p, in_run first n p = true → page_owned m p = true) →
  let m' := pmm_free_pages m (first * PAGE_SIZE) n in
  run m' live ∧ (∀ b, page_owned m (b / PAGE_SIZE) = true → load8 (phys m') b = load8 (phys m) b) ∧
  mi_total_memory (mem_info m') = mi_total_memory (mem_info m) ∧
  ∀ p, page_owned m' p = negb (in_run first n p) && page_owned m p.
Proof.
  intros Hr Hn H0 Hend Ho m'. pose proof (run_wf _ _ Hr) as W.
  assert (0 ≤ first * PAGE_SIZE < 2 ^ 32) as Ha by (unfold PAGE_SIZE; lia).
  assert (run m' live) as Hr' by (apply run_pmm_free; [done|lia|lia]).
  destruct (free_pages_spec m (first * PAGE_SIZE) n W (proj1 Ha) ltac:(lia)) as [W' Hs].
  destruct (free_frame m (first * PAGE_SIZE) n W (proj1 Ha) ltac:(lia)) as [_ Hfr]. split; [done|]. split.
  { intros b Hb. apply Hfr. right. by apply owned_byte_high in Hb. }
  assert (first * PAGE_SIZE / PAGE_SIZE = first) as Ef by (by apply Z.div_mul).
  assert (releasable m (first * PAGE_SIZE) n) as HR.
  { assert (∀ q, first ≤ q < first + n → page_owned m q = true) as Hq
      by (intros q Hq; apply Ho; unfold in_run; lia).
    unfold releasable, owned_run. rewrite Ef. split; [unfold PAGE_SIZE; lia|]. split; [done|]. split; [by apply Z.mod_mul|].
    pose proof (page_owned_high m _ W (Hq (first + n - 1) ltac:(lia))) as Hlast.
    split; [lia|]. split; [lia|]. intros q Hqr.
    pose proof (Hq q Hqr) as Hoq. pose proof (page_owned_high m _ W Hoq) as Hb.
    apply andb_true_iff in Hoq as [_ Hoq]. split; [done|]. change FIRST_FREE_PAGE with 5120 in Hb.
    apply not_true_iff_false. intros Hfq. rewrite (free_not_owned m q) in Hoq; [done|done|lia|done]. }
  destruct Hs as [[_ RR]|[HN _]]; [|done]. rewrite Ef in RR. fold m' in RR.
  fold m' in W'. split; [by rewrite (wf_total _ W'), (wf_total _ W), (rr_total _ _ _ _ RR)|]. intros p. unfold page_owned. rewrite (rr_total _ _ _ _ RR).
  destruct ((0 <=? p) && (p <? mi_total_pages (mem_info m))) eqn:Er; cbn [andb]; [|by rewrite andb_false_r].
  unfold pmm_page_is_owned. rewrite (rr_tag _ _ _ _ RR) by lia. by destruct (in_run _ _ _).
Qed.

(** ** Pages as arrays of words *)

(** Entry [j] of page [p], read as an array of 1024 words. *)
Definition word (m : memory_t) (p j : Z) : Z := load32 (phys m) (p * PAGE_SIZE + 4 * j).
Definition put_word (m : memory_t) (p j v : Z) : memory_t := m <| phys ::= λ h, store32 h (p * PAGE_SIZE + 4 * j) v |>.
Definition zero_page (m : memory_t) (p : Z) : memory_t := m <| phys ::= λ h, kmemset h (p * PAGE_SIZE) 0 PAGE_SIZE |>.

Lemma word_range m p j : 0 ≤ word m p j < 2 ^ 32.
Proof. apply load32_range. Qed.

Lemma word_put m p j v q k :
  0 ≤ j < 1024 → 0 ≤ k < 1024 →
  word (put_word m p j v) q k = if (q =? p) && (k =? j) then u32 v else word m q k.
Proof.
  intros Hj Hk. unfold word, put_word. change (phys (m <| phys ::= ?f |>)) with (f (phys m)). cbv beta.
  destruct (Z.eqb_spec q p) as [->|]; destruct (Z.eqb_spec k j) as [->|]; cbn [andb];
    [apply load32_store32_eq|apply load32_store32_ne; unfold PAGE_SIZE; lia..].
Qed.

Lemma word_bytes m m' p j :
  0 ≤ j < 1024 → (∀ b, b / PAGE_SIZE = p → load8 (phys m') b = load8 (phys m) b) → word m' p j = word m p j.
Proof. intros Hj H. apply load32_ext. intros i Hi. apply H. unfold PAGE_SIZE in *. divlia. Qed.

Lemma word_zero m p q j : 0 ≤ j < 1024 → word (zero_page m p) q j = if q =? p then 0 else word m q j.
Proof.
  intros Hj. unfold zero_page. destruct (Z.eqb_spec q p) as [->|Hq].
  - unfold word. Transparent load32. unfold load32. Opaque load32.
    change (phys (m <| phys ::= ?f |>)) with (f (phys m)). cbv beta. rewrite !load8_kmemset.
    assert (∀ x, 0 ≤ x < 4096 → (p * PAGE_SIZE <=? p * PAGE_SIZE + x) && (p * PAGE_SIZE + x <? p * PAGE_SIZE + PAGE_SIZE) = true)
      as H by (unfold PAGE_SIZE; lia).
    rewrite <-!Z.add_assoc, !H by lia. done.
  - apply word_bytes; [done|]. intros b Hb. change (phys (m <| phys ::= ?f |>)) with (f (phys m)). cbv beta.
    rewrite load8_kmemset. replace (_ && _) with false by (unfold PAGE_SIZE in *; divlia). done.
Qed.

(** ** Calls on single pages *)

Section calls.
Context (m : memory_t) (live : gmap Z (list Z)) (Hr : run m live).

Lemma put_word_law p j v :
  page_owned m p = true → 0 ≤ j < 1024 →
  run (put_word m p j v) live ∧ ∀ q, page_owned (put_word m p j v) q = page_owned m q.
Proof.
  intros Hp Hj. Transparent store32. unfold put_word, store32. Opaque store32.
  assert (∀ k, 0 ≤ k < 4096 → page_owned m ((p * PAGE_SIZE + k) / PAGE_SIZE) = true) as Ho.
  { intros k Hk. replace (_ / _) with p; [done|]. unfold PAGE_SIZE. divlia. }
  set (a := p * PAGE_SIZE + 4 * j).
  destruct (write_owned m live a v Hr) as [H1 O1]; [apply Ho; lia|].
  destruct (write_owned _ live (a + 1) (v / 2 ^ 8) H1) as [H2 O2]; [rewrite O1; unfold a; rewrite <-Z.add_assoc; apply Ho; lia|].
  destruct (write_owned _ live (a + 2) (v / 2 ^ 16) H2) as [H3 O3];
    [rewrite O2, O1; unfold a; rewrite <-Z.add_assoc; apply Ho; lia|].
  destruct (write_owned _ live (a + 3) (v / 2 ^ 24) H3) as [H4 O4];
    [rewrite O3, O2, O1; unfold a; rewrite <-Z.add_assoc; apply Ho; lia|].
  split; [exact H4|]. intros q. rewrite <-O1, <-O2, <-O3, <-O4. done.
Qed.

Lemma zero_page_law p :
  page_owned m p = true → run (zero_page m p) live ∧ ∀ q, page_owned (zero_page m p) q = page_owned m q.
Proof.
  intros Hp. apply run_memset; [done|]. intros b Hb. replace (b / PAGE_SIZE) with p; [done|]. unfold PAGE_SIZE in *. divlia.
Qed.

Lemma alloc_page_law zone m' a :
  pmm_alloc_page_in_zone m zone = (m', a) →
  run m' live ∧ (∀ p j, page_owned m p = true → 0 ≤ j < 1024 → word m' p j = word m p j) ∧
  mi_total_memory (mem_info m') = mi_total_memory (mem_info m) ∧
  ((a = 0 ∧ ∀ p, page_owned m' p = page_owned m p) ∨
   ∃ p, a = p * PAGE_SIZE ∧ 0 < p < 2 ^ 20 ∧ page_owned m p = false ∧ ∀ q, page_owned m' q = (q =? p) || page_owned m q).
Proof.
  intros E. pose proof (run_wf _ _ Hr) as W. destruct (alloc_law live m 1 zone m' a Hr ltac:(lia) E) as (Hr' & Hb & Hc).
  split; [done|]. split; [|split].
  - intros p j Hp Hj. apply word_bytes; [done|]. intros b Hbp. apply Hb. by rewrite Hbp.
  - by apply (alloc_counts live m 1 zone m' a).
  - destruct Hc as [?|(p & -> & Hf & Hl & Hfree & Ho)]; [by left|right]. exists p.
    pose proof (pl_pages _ (wf_layout _ W)). change FIRST_FREE_PAGE with 5120 in Hf.
    split; [done|]. split; [lia|]. split; [apply Hfree; unfold in_run; lia|].
    intros q. rewrite Ho. unfold in_run. f_equal. lia.
Qed.

Lemma free_page_law p :
  page_owned m p = true →
  let m' := pmm_free_page m (p * PAGE_SIZE) in
  run m' live ∧ (∀ q j, page_owned m q = true → 0 ≤ j < 1024 → word m' q j = word m q j) ∧
  (∀ q, page_owned m' q = negb (q =? p) && page_owned m q) ∧
  mi_total_memory (mem_info m') = mi_total_memory (mem_info m).
Proof.
  intros Hp m'. pose proof (run_wf _ _ Hr) as W. pose proof (page_owned_high m p W Hp) as Hb.
  pose proof (pl_pages _ (wf_layout _ W)). change FIRST_FREE_PAGE with 5120 in Hb.
  destruct (free_law live m p 1 Hr) as (H1 & H2 & HT & H3); [lia..| |].
  { intros q Hq. unfold in_run in Hq. by replace q with p by lia. }
  split; [exact H1|]. split.
  - intros q j Hq Hj. apply word_bytes; [done|]. intros b Hbq. apply H2. by rewrite Hbq.
  - split; [|exact HT]. intros q. rewrite H3. f_equal. unfold in_run. f_equal. lia.
Qed.
End calls.

(** ** Calls on the heap *)

(** A call of the heap, or a client writing into its allocation. *)
Inductive heap_call (m : memory_t) (live : gmap Z (list Z)) : memory_t → gmap Z (list Z) → Prop :=
| call_kmalloc size m' p :
    0 ≤ size < 2 ^ 32 → kmalloc m size = (m', p) →
    heap_call m live m' (if p =? 0 then live else <[p := bytes_at (phys m') p size]> live)
| call_kmalloc_aligned size m' p :
    0 ≤ size < 2 ^ 32 → kmalloc_aligned m size = (m', p) →
    heap_call m live m' (if p =? 0 then live else <[p := bytes_at (phys m') p size]> live)
| call_kfree p : is_Some (live !! p) → heap_call m live (kfree m p) (delete p live)
| call_write p data i v :
    live !! p = Some data → (i < length data)%nat →
    heap_call m live (m <| phys ::= λ h, store8 h (p + Z.of_nat i) v |>) (<[p := <[i := u8 v]> data]> live).

(** Same page manager variables, same bytes outside the heap. *)
Lemma heap_frame m live m' live' :
  run m live → heap_call m live m' live' →
  run m' live' ∧ heap_only m m' ∧ ∀ a, a < HEAP_START ∨ HEAP_END ≤ a → load8 (phys m') a = load8 (phys m) a.
Proof.
  intros Hr Hc. pose proof (run_inv_holds _ _ Hr) as (W & bs & R & LR). split.
  { destruct Hc; [by eapply run_kmalloc|by eapply run_kmalloc_aligned|by apply run_kfree|by apply run_write]. }
  destruct Hc as [size m' p Hs E|size m' p Hs E|p [data Hp]|p data i v Hp Hi].
  - pose proof (kmalloc_spec m bs size R ltac:(lia)) as Hk. unfold kmalloc in E. rewrite E in Hk.
    destruct Hk as ([Ho Hp] & _). split; [done|]. intros a Ha. apply Hp. destruct Ha; [by left|right; by left].
  - pose proof (kmalloc_aligned_spec m bs size R ltac:(lia)) as Hk. rewrite E in Hk.
    destruct Hk as ([Ho Hp] & _). split; [done|]. intros a Ha. apply Hp. destruct Ha; [by left|right; by left].
  - destruct (lr_block _ _ _ LR p data Hp) as (b & Hb & Hf & <- & _).
    destruct (kfree_live m bs b R Hb Hf) as (Es & _ & Hpr). split; [rewrite Es; by split|].
    intros a Ha. apply Hpr. destruct Ha; [by left|right; by left].
  - split; [by split|]. intros a Ha. destruct (lr_block _ _ _ LR p data Hp) as (b & Hb & Hf & Hu & Hl & _).
    destruct (tiled_in _ _ _ _ (hr_tiled _ _ R) Hb) as (Hlo & Hhi & (_ & _ & Ub)). rewrite Hf in Ub.
    apply load8_store8_ne. unfold_heap. lia.
Qed.

(** Pages are not affected. *)
Lemma heap_call_law m live m' live' :
  run m live → heap_call m live m' live' →
  run m' live' ∧ (∀ p, page_owned m' p = page_owned m p) ∧
  (∀ p j, page_owned m p = true → 0 ≤ j < 1024 → word m' p j = word m p j) ∧
  mi_total_memory (mem_info m') = mi_total_memory (mem_info m).
Proof.
  intros Hr Hc. pose proof (run_wf _ _ Hr) as W. destruct (heap_frame _ _ _ _ Hr Hc) as (Hr' & Ho & HF).
  split; [done|]. assert (same_pmm m m') as SP.
  { split; [done|]. intros a Ha. apply HF. left. change PMM_BITMAP_STORAGE_END with 0x98000 in Ha. unfold_bounds. lia. }
  split; [|split; [|by rewrite (ho_info _ _ Ho)]].
  - intros p. unfold page_owned. rewrite (ho_info _ _ Ho). destruct (Z.leb_spec 0 p); [|done].
    destruct (Z.ltb_spec p (mi_total_pages (mem_info m))); [|done]. cbn [andb].
    apply (same_pmm_owned m m' (wf_layout _ W) SP). lia.
  - intros p j Hp Hj. apply word_bytes; [done|]. intros b Hb. apply HF. right.
    pose proof (page_owned_high m p W Hp) as Hh. change FIRST_FREE_PAGE with 5120 in Hh.
    unfold PAGE_SIZE in Hb. unfold_bounds. divlia.
Qed.
