(* ===== verification/Paging.v ===== *)
(** * Address translation: src/memory/paging.c

    Page directories and page tables are pages of physical memory, read and written
    here as the words they are.  The kernel maps itself and all of RAM to the same
    addresses, so a pointer to a directory or a table is its physical address.  A
    user process has a directory of its own that shares the kernel's tables and has
    private tables for the window from [USER_SPACE_START] to [USER_SPACE_END].

    The state holds the memory of memory.c and the static variables of the file.  The
    processor's copies of entries (the TLB) are not modelled: the code invalidates
    them after every change.  The variants for tests on a host and log lines are left
    out. *)

From S2P Require Import Prelude Registry Memory Pmm.

(** ** Data *)

Definition PAGING_FLAG_PRESENT : Z := 0x01.
Definition PAGING_FLAG_WRITE : Z := 0x02.
Definition PAGING_FLAG_USER : Z := 0x04.
Definition USER_SPACE_START : Z := 0x00800000.
Definition USER_SPACE_END : Z := 0x01000000.
Definition USER_CODE_BASE : Z := 0x00800000.
Definition USER_DATA_BASE : Z := 0x00801000.
Definition USER_LAUNCH_BASE : Z := 0x00802000.
Definition USER_STACK_BASE : Z := 0x00C00000.
Definition USER_STACK_TOP : Z := 0x00C01000.
Definition PAGING_MAX_USER_DIRECTORIES : Z := 64.
Definition PAGING_MAX_DIRECTORIES : Z := 128.
Definition PAGING_TABLE_ENTRIES : Z := 1024.
Definition BOOT_CONTEXT_PAGE_START : Z := 0x00002000.
Definition BOOT_CONTEXT_PAGE_END : Z := 0x00003000.
Definition BOOT_TRANSITION_START : Z := 0x00004000.
Definition BOOT_TRANSITION_END : Z := 0x00010000.

Record paging_user_stats_t := UserStats {
  u_active_directories : Z; u_active_pages : Z; u_directories_created : Z; u_directories_released : Z;
  u_rejected_releases : Z; u_initialized : bool
}.
#[export] Instance user_stats_eta : Eta paging_user_stats_t := λ r,
  UserStats (u_active_directories r) (u_active_pages r) (u_directories_created r) (u_directories_released r)
    (u_rejected_releases r) (u_initialized r).
Definition user_stats_zero : paging_user_stats_t := UserStats 0 0 0 0 0 false.

Record paging_boot_stats_t := BootStats {
  b_identity_pages : Z; b_page_tables_created : Z; b_init_ticks : Z; b_initialized : bool
}.
#[export] Instance boot_stats_eta : Eta paging_boot_stats_t := λ r,
  BootStats (b_identity_pages r) (b_page_tables_created r) (b_init_ticks r) (b_initialized r).
Definition boot_stats_zero : paging_boot_stats_t := BootStats 0 0 0 false.

(** The static variables of the file, over the memory they point into. *)
Record paging_t := Paging {
  pg_memory : memory_t;
  current_directory : Z;
  kernel_directory : Z;
  paging_initialized : bool;
  user_directories : list Z;
  paging_directories : list Z;
  user_paging_stats : paging_user_stats_t;
  paging_boot_stats : paging_boot_stats_t
}.
#[export] Instance paging_eta : Eta paging_t := λ r,
  Paging (pg_memory r) (current_directory r) (kernel_directory r) (paging_initialized r) (user_directories r)
    (paging_directories r) (user_paging_stats r) (paging_boot_stats r).

(** What paging.c reads of the video mode. *)
Record vesa_mode_t := VesaMode { vm_initialized : bool; vm_framebuffer : Z; vm_pitch : Z; vm_height : Z }.

(** ** Entries *)

Definition load_word (s : paging_t) (address : Z) : Z := load32 (phys (pg_memory s)) address.
Definition store_word (s : paging_t) (address v : Z) : paging_t :=
  s <| pg_memory ::= λ m, m <| phys ::= λ h, store32 h address v |> |>.
Definition memset_page (s : paging_t) (address : Z) : paging_t :=
  s <| pg_memory ::= λ m, m <| phys ::= λ h, kmemset h address 0 PAGE_SIZE |> |>.
Definition free_page (s : paging_t) (address : Z) : paging_t := s <| pg_memory ::= λ m, pmm_free_page m address |>.
Definition alloc_page (s : paging_t) (zone : memory_zone_t) : paging_t * Z :=
  let '(m, address) := pmm_alloc_page_in_zone (pg_memory s) zone in (s <| pg_memory := m |>, address).
Definition user_stat (s : paging_t) (f : paging_user_stats_t → paging_user_stats_t) : paging_t := s <| user_paging_stats ::= f |>.
Definition boot_stat (s : paging_t) (f : paging_boot_stats_t → paging_boot_stats_t) : paging_t := s <| paging_boot_stats ::= f |>.

(** [dir->entries[index]] and [&table->entries[index]] *)
Definition entry_address (base index : Z) : Z := base + 4 * index.
Definition dir_entry (s : paging_t) (dir index : Z) : Z := load_word s (entry_address dir index).
Definition set_dir_entry (s : paging_t) (dir index v : Z) : paging_t := store_word s (entry_address dir index) v.

(** The bit fields of [page_entry_t]. *)
Definition entry_present (w : Z) : bool := Z.testbit w 0.
Definition entry_rw (w : Z) : bool := Z.testbit w 1.
Definition entry_user (w : Z) : bool := Z.testbit w 2.
Definition entry_frame (w : Z) : Z := Z.shiftr w 12.
Definition put_bit (w i : Z) (b : bool) : Z := if b then Z.setbit w i else Z.clearbit w i.
(** [page->frame = frame; page->present = 1; page->rw = rw; page->user = user;] *)
Definition entry_fill (w frame : Z) (rw user : bool) : Z :=
  let w := (w &w 0xFFF) |w ((frame &w 0xFFFFF) <<w 12) in
  let w := put_bit w 0 true in
  let w := put_bit w 1 rw in
  put_bit w 2 user.

(** A flag of a directory entry or of an argument. *)
Definition has (flags flag : Z) : bool := negb (flags &w flag =? 0).
Definition entry_table (entry : Z) : Z := entry &w 0xFFFFF000.
Definition table_index (virtual : Z) : Z := virtual / (PAGE_SIZE * 1024).
Definition page_index (virtual : Z) : Z := (virtual / PAGE_SIZE) mod 1024.

Definition paging_free_table_entry (s : paging_t) (entry : Z) : paging_t := free_page s (entry_table entry).

(** [*entry_out], where it is written. *)
Definition paging_build_table_entry (table : Z) : option Z * status :=
  if table =? 0 then (None, ERR_NULL) else
  let entry := table |w PAGING_FLAG_PRESENT |w PAGING_FLAG_WRITE in
  if entry_table entry =? 0 then (None, ERR_OVERFLOW) else (Some entry, OK).

(** ** Registers of directories *)

(** The index, or [None] for -1. *)
Definition paging_user_directory_index (s : paging_t) (dir : Z) : option nat :=
  if dir =? 0 then None else find_slot dir (user_directories s).
Definition paging_directory_index (s : paging_t) (dir : Z) : option nat :=
  if dir =? 0 then None else find_slot dir (paging_directories s).
Definition paging_is_managed_directory (s : paging_t) (dir : Z) : bool := bool_decide (is_Some (paging_directory_index s dir)).
Definition paging_is_registered_user_directory (s : paging_t) (dir : Z) : bool :=
  bool_decide (is_Some (paging_user_directory_index s dir)).

Definition paging_register_directory (s : paging_t) (dir : Z) : paging_t * bool :=
  if dir =? 0 then (s, false) else
  match find_slot 0 (paging_directories s) with
  | Some i => (s <| paging_directories ::= λ l, <[i := dir]> l |>, true)
  | None => (s, false)
  end.
Definition paging_unregister_directory (s : paging_t) (dir : Z) : paging_t :=
  match paging_directory_index s dir with
  | Some i => s <| paging_directories ::= λ l, <[i := 0]> l |>
  | None => s
  end.
Definition paging_register_user_directory (s : paging_t) (dir : Z) : paging_t * bool :=
  if dir =? 0 then (s, false) else
  match find_slot 0 (user_directories s) with
  | Some i =>
      (user_stat (s <| user_directories ::= λ l, <[i := dir]> l |>)
         (λ u, u <| u_active_directories ::= λ n, n +w 1 |> <| u_directories_created ::= λ n, n +w 1 |>), true)
  | None => (s, false)
  end.
Definition paging_unregister_user_directory (s : paging_t) (index : nat) : paging_t :=
  if (Z.of_nat index >=? PAGING_MAX_USER_DIRECTORIES) || (nth index (user_directories s) 0 =? 0) then s else
  user_stat (s <| user_directories ::= λ l, <[index := 0]> l |>)
    (λ u, u <| u_active_directories ::= λ n, if n >? 0 then n -w 1 else n |> <| u_directories_released ::= λ n, n +w 1 |>).

Definition paging_create_directory (s : paging_t) : paging_t * Z :=
  let '(s, dir) := alloc_page s MEMORY_ZONE_KERNEL in
  if dir =? 0 then (s, 0) else
  match paging_register_directory s dir with
  | (s, false) => (free_page s dir, 0)
  | (s, true) => (memset_page s dir, dir)
  end.

(** ** Looking up and mapping pages *)

(** The address of the entry; 0 for null.  [create] is 0 or 1. *)
Definition paging_get_page_in_directory (s : paging_t) (dir virtual_addr : Z) (create : bool) : paging_t * Z :=
  if dir =? 0 then (s, 0) else
  if negb (paging_is_managed_directory s dir) then (s, 0) else
  if create && paging_is_registered_user_directory s dir && (virtual_addr <? USER_SPACE_START) then (s, 0) else
  let table_idx := table_index virtual_addr in
  let page_idx := page_index virtual_addr in
  let directory_entry := dir_entry s dir table_idx in
  if has directory_entry 0x01 then
    let table := entry_table directory_entry in
    if table =? 0 then (s, 0) else (s, entry_address table page_idx)
  else if negb create then (s, 0) else
  let zone := if paging_is_registered_user_directory s dir then MEMORY_ZONE_PROCESS else MEMORY_ZONE_KERNEL in
  let '(s, table) := alloc_page s zone in
  if table =? 0 then (s, 0) else
  let s := memset_page s table in
  match paging_build_table_entry table with
  | (Some entry, _) => (set_dir_entry s dir table_idx entry, entry_address table page_idx)
  | (None, _) => (free_page s table, 0)
  end.
Definition paging_get_page (s : paging_t) (virtual_addr : Z) (create : bool) : paging_t * Z :=
  if current_directory s =? 0 then (s, 0) else paging_get_page_in_directory s (current_directory s) virtual_addr create.

Definition paging_map_page_in_directory (s : paging_t) (dir virtual physical flags : Z) : paging_t * status :=
  if dir =? 0 then (s, ERR_NULL) else
  if negb (virtual mod PAGE_SIZE =? 0) || negb (physical mod PAGE_SIZE =? 0) then (s, ERR_INVALID) else
  if negb (flags &w ~w 0x07 =? 0) then (s, ERR_INVALID) else
  if has flags PAGING_FLAG_USER && ((virtual <? USER_SPACE_START) || (virtual >=? USER_SPACE_END)) then (s, ERR_INVALID) else
  let user_directory := paging_is_registered_user_directory s dir in
  if has flags PAGING_FLAG_USER && negb user_directory then (s, ERR_STATE) else
  if user_directory && negb (has flags PAGING_FLAG_USER) then (s, ERR_STATE) else
  let table_idx := table_index virtual in
  let directory_entry := dir_entry s dir table_idx in
  if has flags PAGING_FLAG_USER && negb (directory_entry =? 0) && negb (has directory_entry PAGING_FLAG_USER) then (s, ERR_STATE) else
  let '(s, page) := paging_get_page_in_directory s dir virtual true in
  if page =? 0 then (s, ERR_MEM) else
  if has flags PAGING_FLAG_USER && entry_present (load_word s page) then (s, ERR_STATE) else
  let s := if negb (has directory_entry PAGING_FLAG_PRESENT) && has flags PAGING_FLAG_USER
           then set_dir_entry s dir table_idx (dir_entry s dir table_idx |w PAGING_FLAG_USER) else s in
  let s := store_word s page
    (entry_fill (load_word s page) (physical / PAGE_SIZE) (has flags PAGING_FLAG_WRITE) (has flags PAGING_FLAG_USER)) in
  (if has flags PAGING_FLAG_USER then user_stat s (set u_active_pages (λ n, n +w 1)) else s, OK).
Definition paging_map_page (s : paging_t) (virtual physical flags : Z) : paging_t * status :=
  if current_directory s =? 0 then (s, ERR_STATE)
  else paging_map_page_in_directory s (current_directory s) virtual physical flags.

Definition paging_table_is_empty (s : paging_t) (table : Z) : bool :=
  if table =? 0 then true else
  forallb (λ i, negb (entry_present (load_word s (entry_address table i)))) (range 0 PAGING_TABLE_ENTRIES).

Definition paging_unmap_user_page_in_directory (s : paging_t) (dir virtual_addr : Z) : paging_t * status :=
  if dir =? 0 then (s, ERR_NULL) else
  if negb (paging_is_registered_user_directory s dir) then (s, ERR_STATE) else
  if negb (virtual_addr mod PAGE_SIZE =? 0) || (virtual_addr <? USER_SPACE_START) || (virtual_addr >=? USER_SPACE_END)
  then (s, ERR_INVALID) else
  let table_idx := table_index virtual_addr in
  let directory_entry := dir_entry s dir table_idx in
  if negb (has directory_entry PAGING_FLAG_PRESENT) || negb (has directory_entry PAGING_FLAG_USER) then (s, ERR_NOT_FOUND) else
  let table := entry_table directory_entry in
  if table =? 0 then (s, ERR_STATE) else
  let page := entry_address table (page_index virtual_addr) in
  if negb (entry_present (load_word s page)) || negb (entry_user (load_word s page)) then (s, ERR_NOT_FOUND) else
  let physical := entry_frame (load_word s page) *w PAGE_SIZE in
  let s := store_word s page 0 in
  let s := free_page s physical in
  let s := if u_active_pages (user_paging_stats s) =? 0 then s else user_stat s (set u_active_pages (λ n, n -w 1)) in
  let shared_entry := if kernel_directory s =? 0 then 0 else dir_entry s (kernel_directory s) table_idx in
  if negb (entry_table directory_entry =? entry_table shared_entry) && paging_table_is_empty s table then
    (free_page (set_dir_entry s dir table_idx 0) table, OK)
  else (s, OK).

(** ** The kernel's own map *)

Definition paging_switch_directory (s : paging_t) (dir : Z) : paging_t :=
  if dir =? 0 then s else
  if negb (paging_is_managed_directory s dir) then s else
  s <| current_directory := dir |> <| paging_initialized := true |>.

Definition paging_bootstrap_get_table (s : paging_t) (table_index : Z) : paging_t * Z :=
  if (kernel_directory s =? 0) || (table_index >=? PAGING_TABLE_ENTRIES) then (s, 0) else
  let entry := dir_entry s (kernel_directory s) table_index in
  if has entry PAGING_FLAG_PRESENT then
    if has entry PAGING_FLAG_USER then (s, 0) else (s, entry_table entry)
  else
  let '(s, table) := alloc_page s MEMORY_ZONE_KERNEL in
  if table =? 0 then (s, 0) else
  let s := memset_page s table in
  match paging_build_table_entry table with
  | (Some entry, _) =>
      (boot_stat (set_dir_entry s (kernel_directory s) table_index entry) (set b_page_tables_created (λ n, n +w 1)), table)
  | (None, _) => (free_page s table, 0)
  end.

(** The inner loop, over the entries of one table; the address it reached. *)
Fixpoint identity_pages (count : nat) (s : paging_t) (table entry address : Z) : paging_t * Z * status :=
  match count with
  | O => (s, address, OK)
  | S count =>
      let page := entry_address table entry in
      let frame := address / PAGE_SIZE in
      let w := load_word s page in
      if entry_present w && (negb (entry_frame w =? frame) || entry_user w) then (s, address, ERR_STATE) else
      let s := if entry_present w then s else boot_stat s (set b_identity_pages (λ n, n +w 1)) in
      identity_pages count (store_word s page (entry_fill w frame true false)) table (entry + 1) (address +w PAGE_SIZE)
  end.
Fixpoint identity_tables (fuel : nat) (s : paging_t) (address last : Z) : paging_t * status :=
  match fuel with
  | O => (s, OK)
  | S fuel =>
      if address >=? last then (s, OK) else
      let entry_index := page_index address in
      let range_pages := (last - address) / PAGE_SIZE in
      let table_pages := Z.min (PAGING_TABLE_ENTRIES - entry_index) range_pages in
      let '(s, table) := paging_bootstrap_get_table s (table_index address) in
      if table =? 0 then (s, ERR_MEM) else
      match identity_pages (Z.to_nat table_pages) s table entry_index address with
      | (s, address, OK) => identity_tables fuel s address last
      | (s, _, result) => (s, result)
      end
  end.
Definition paging_map_identity_range_fast (s : paging_t) (first last : Z) : paging_t * status :=
  if (first >=? last) || negb (first mod PAGE_SIZE =? 0) || negb (last mod PAGE_SIZE =? 0) then (s, ERR_INVALID)
  else identity_tables 1025 s first last.

Definition paging_map_framebuffer (s : paging_t) (mode : vesa_mode_t) : paging_t * status :=
  if negb (vm_initialized mode) then (s, ERR_NOT_FOUND) else
  if negb (vm_height mode =? 0) && (vm_pitch mode >? 0xFFFFFFFF / vm_height mode) then (s, ERR_OVERFLOW) else
  let fb_phys := vm_framebuffer mode in
  let fb_size := vm_pitch mode *w vm_height mode in
  if (fb_size =? 0) || (fb_phys >? 0xFFFFFFFF - fb_size) then (s, ERR_OVERFLOW) else
  let fb_end := fb_phys +w fb_size in
  if fb_end + PAGE_SIZE - 1 >? MAX_PHYSICAL_ADDRESS then (s, ERR_OVERFLOW) else
  let map_start := fb_phys &w ~w (PAGE_SIZE - 1) in
  let map_end := (fb_end +w PAGE_SIZE -w 1) &w ~w (PAGE_SIZE - 1) in
  paging_map_identity_range_fast s map_start map_end.

(** ** Directories *)

Definition paging_free_directory (s : paging_t) (dir : Z) : paging_t :=
  if dir =? 0 then s else
  if dir =? current_directory s then s else
  if paging_is_registered_user_directory s dir then user_stat s (set u_rejected_releases (λ n, n +w 1)) else
  if negb (paging_is_managed_directory s dir) then s else
  let s := foldl (λ s i, if has (dir_entry s dir i) 0x01
                         then set_dir_entry (paging_free_table_entry s (dir_entry s dir i)) dir i 0 else s) s (range 0 1024) in
  let s := free_page s dir in
  let s := if dir =? kernel_directory s then s <| kernel_directory := 0 |> <| paging_initialized := false |> else s in
  paging_unregister_directory s dir.

Definition paging_abort_init (s : paging_t) (dir : Z) (error_code : status) : paging_t * status :=
  (paging_free_directory (s <| current_directory := 0 |> <| kernel_directory := 0 |> <| paging_initialized := false |>) dir, error_code).

(** The ranges [paging_init] maps before the framebuffer: what boot left, the arrays of
    the page manager and the stack, the kernel and its heap; then the rest of RAM and
    the text screen. *)
Definition boot_ranges : list (Z * Z) :=
  [(BOOT_CONTEXT_PAGE_START, BOOT_CONTEXT_PAGE_END); (BOOT_TRANSITION_START, BOOT_TRANSITION_END);
   (PMM_BITMAP_STORAGE_START, KERNEL_STACK_TOP); (KERNEL_START, KERNEL_END); (HEAP_START, HEAP_START + HEAP_SIZE)].
Definition ram_ranges (physical_end : Z) : list (Z * Z) := [(PHYSICAL_IDENTITY_START, physical_end); (0xB8000, 0xC0000)].
Fixpoint map_ranges (s : paging_t) (l : list (Z * Z)) : paging_t * bool :=
  match l with
  | [] => (s, true)
  | (first, last) :: l =>
      match paging_map_identity_range_fast s first last with
      | (s, OK) => map_ranges s l
      | (s, _) => (s, false)
      end
  end.

(** The maps [paging_init] cannot do without. *)
Definition map_all (s : paging_t) : paging_t * bool :=
  match map_ranges s boot_ranges with
  | (s, false) => (s, false)
  | (s, true) =>
      let physical_end := memory_get_total (pg_memory s) in
      if physical_end <=? PHYSICAL_IDENTITY_START then (s, false) else map_ranges s (ram_ranges physical_end)
  end.

(** [mode] is the result of [vesa_get_mode]; the ticks are those at the start and at
    the end.  The second component is the result of mapping the framebuffer, if it was
    tried: on an error the caller disables the graphics mode. *)
Definition paging_init (s : paging_t) (mode : option vesa_mode_t) (start_ticks end_ticks : Z) : paging_t * option status * status :=
  if paging_initialized s && negb (current_directory s =? 0) then (s, None, OK) else
  let s := s <| user_directories := replicate 64 0 |> <| paging_directories := replicate 128 0 |>
             <| user_paging_stats := user_stats_zero |> <| paging_boot_stats := boot_stats_zero |> in
  let s := user_stat s (set u_initialized (λ _, true)) in
  let '(s, dir) := paging_create_directory s in
  if dir =? 0 then (s, None, ERR_MEM) else
  let s := s <| current_directory := dir |> <| kernel_directory := dir |> in
  match map_all s with
  | (s, false) => let '(s, result) := paging_abort_init s dir ERR_MEM in (s, None, result)
  | (s, true) =>
      let '(s, framebuffer) :=
        match mode with
        | Some mode => if vm_initialized mode then let '(s, result) := paging_map_framebuffer s mode in (s, Some result) else (s, None)
        | None => (s, None)
        end in
      let s := paging_switch_directory s dir in
      (boot_stat s (λ b, b <| b_init_ticks := end_ticks -w start_ticks |> <| b_initialized := true |>), framebuffer, OK)
  end.

Definition paging_is_ready (s : paging_t) : bool := paging_initialized s && negb (current_directory s =? 0).

(** The user pages of one directory entry, counted from [count]; an error stops the
    count. *)
Definition count_page (s : paging_t) (table : Z) (count : Z + status) (j : Z) : Z + status :=
  match count with
  | inr error => inr error
  | inl count =>
      let w := load_word s (entry_address table j) in
      if entry_present w && entry_user w then (if count =? 0xFFFFFFFF then inr ERR_OVERFLOW else inl (count +w 1)) else inl count
  end.
Definition count_table (s : paging_t) (dir : Z) (count : Z + status) (index : Z) : Z + status :=
  match count with
  | inr error => inr error
  | inl count =>
      let directory_entry := dir_entry s dir index in
      let shared_entry := if kernel_directory s =? 0 then 0 else dir_entry s (kernel_directory s) index in
      if negb (has directory_entry PAGING_FLAG_PRESENT) || (entry_table directory_entry =? entry_table shared_entry) then inl count else
      if negb (has directory_entry PAGING_FLAG_USER) then inl count else
      let table := entry_table directory_entry in
      if table =? 0 then inr ERR_STATE else foldl (count_page s table) (inl count) (range 0 PAGING_TABLE_ENTRIES)
  end.
(** [*out_count], where it is written. *)
Definition paging_get_user_page_count (s : paging_t) (dir : Z) : option Z * status :=
  if dir =? 0 then (None, ERR_NULL) else
  if negb (paging_is_ready s) then (None, ERR_STATE) else
  if negb (dir =? kernel_directory s) && negb (paging_is_registered_user_directory s dir) then (None, ERR_STATE) else
  match foldl (count_table s dir) (inl 0) (range 0 PAGING_TABLE_ENTRIES) with
  | inl count => (Some count, OK)
  | inr error => (None, error)
  end.

Definition paging_create_user_directory (s : paging_t) : paging_t * Z :=
  if negb (paging_is_ready s) || (kernel_directory s =? 0) then (s, 0) else
  let '(s, dir) := alloc_page s MEMORY_ZONE_PROCESS in
  if dir =? 0 then (s, 0) else
  match paging_register_directory s dir with
  | (s, false) => (free_page s dir, 0)
  | (s, true) =>
      let s := foldl (λ s i, set_dir_entry s dir i (dir_entry s (kernel_directory s) i &w ~w PAGING_FLAG_USER)) s (range 0 1024) in
      match paging_register_user_directory s dir with
      | (s, false) => (free_page (paging_unregister_directory s dir) dir, 0)
      | (s, true) => (s, dir)
      end
  end.

(** The loops of [paging_free_user_directory], with [released_pages]. *)
Definition release_page (table : Z) (x : paging_t * Z) (j : Z) : paging_t * Z :=
  let '(s, released) := x in
  let w := load_word s (entry_address table j) in
  if entry_present w && entry_user w then (free_page s (entry_frame w *w PAGE_SIZE), released +w 1) else (s, released).
Definition release_table (dir : Z) (x : paging_t * Z) (i : Z) : paging_t * Z :=
  let '(s, released) := x in
  let entry := dir_entry s dir i in
  let shared := if kernel_directory s =? 0 then 0 else dir_entry s (kernel_directory s) i in
  if negb (has entry PAGING_FLAG_PRESENT) || (entry_table entry =? entry_table shared) then (s, released) else
  let table := entry_table entry in
  if table =? 0 then (s, released) else
  let '(s, released) := foldl (release_page table) (s, released) (range 0 1024) in
  (paging_free_table_entry (set_dir_entry s dir i 0) entry, released).
Definition paging_free_user_directory (s : paging_t) (dir : Z) : paging_t :=
  let rejected := user_stat s (set u_rejected_releases (λ n, n +w 1)) in
  if dir =? 0 then rejected else
  if dir =? current_directory s then rejected else
  if dir =? kernel_directory s then rejected else
  match paging_user_directory_index s dir with
  | None => rejected
  | Some directory_index =>
      let '(s, released_pages) := foldl (release_table dir) (s, 0) (range 0 1024) in
      let s := free_page s dir in
      let s := user_stat s (set u_active_pages (λ n, if released_pages >? n then 0 else n -w released_pages)) in
      paging_unregister_directory (paging_unregister_user_directory s directory_index) dir
  end.

(** ** Queries *)

Definition paging_get_current_directory (s : paging_t) : Z := current_directory s.
Definition paging_get_user_stats (s : paging_t) : paging_user_stats_t := user_paging_stats s.
Definition paging_get_boot_stats (s : paging_t) : option paging_boot_stats_t * status :=
  if negb (b_initialized (paging_boot_stats s)) then (None, ERR_STATE) else (Some (paging_boot_stats s), OK).
