(* ===== verification/PagingInv.v ===== *)
(** * The page tables as a structure of owned pages

    Every page that paging.c or a process uses has a role: a directory, a table at an
    index of a directory, or the frame of a user page.  [linked] says that the words of
    these pages are exactly the links the roles describe, so a page has one use only.
    The lemmas are the changes the code makes to the structure: a new table, a new
    mapping, their removal, a new directory and the removal of one. *)

From S2P Require Import Prelude Registry Memory Pmm Heap HeapRefine MemorySystem PageOwner Paging.

(** ** Entries *)

Lemma entry_table_frame e : 0 ≤ e < 2 ^ 32 → entry_table e = entry_frame e * PAGE_SIZE.
Proof.
  intros He. unfold entry_table, entry_frame, PAGE_SIZE. change 0xFFFFF000 with (u32 (Z.lnot (Z.ones 12))).
  rewrite land_u32_lnot, land_lnot_ones, Z.shiftr_div_pow2 by lia. done.
Qed.

(** [v & ~(PAGE_SIZE - 1)] *)
Lemma page_floor v : 0 ≤ v < 2 ^ 32 → v &w ~w (PAGE_SIZE - 1) = v / PAGE_SIZE * PAGE_SIZE.
Proof. intros Hv. change (PAGE_SIZE - 1) with (Z.ones 12). by rewrite land_u32_lnot, land_lnot_ones. Qed.

Lemma entry_frame_range e : 0 ≤ e < 2 ^ 32 → 0 ≤ entry_frame e < 2 ^ 20.
Proof. intros. unfold entry_frame. rewrite Z.shiftr_div_pow2 by lia. divlia. Qed.

Lemma has_present e : has e PAGING_FLAG_PRESENT = entry_present e.
Proof. apply (land_pow2_test e 0). lia. Qed.
Lemma has_write e : has e PAGING_FLAG_WRITE = entry_rw e.
Proof. apply (land_pow2_test e 1). lia. Qed.
Lemma has_user e : has e PAGING_FLAG_USER = entry_user e.
Proof. apply (land_pow2_test e 2). lia. Qed.

(** The entry of a table: the page with the flags below it. *)
Lemma entry_low p k : 0 ≤ k < 4096 →
  entry_present (p * 4096 + k) = Z.testbit k 0 ∧ entry_rw (p * 4096 + k) = Z.testbit k 1 ∧
  entry_user (p * 4096 + k) = Z.testbit k 2 ∧ entry_frame (p * 4096 + k) = p.
Proof.
  intros Hk. unfold entry_present, entry_rw, entry_user, entry_frame. change 4096 with (2 ^ 12) in *.
  assert (∀ i, 0 ≤ i < 12 → Z.testbit (p * 2 ^ 12 + k) i = Z.testbit k i) as H.
  { intros i Hi. rewrite <-(Z.mod_pow2_bits_low (p * 2 ^ 12 + k) 12 i), <-(Z.mod_pow2_bits_low k 12 i) by lia.
    by rewrite Z.add_comm, Z.mod_add. }
  rewrite !H by lia. do 3 (split; [done|]). rewrite Z.shiftr_div_pow2, Z.div_add_l, Z.div_small by lia. lia.
Qed.

Lemma build_table_entry p :
  0 < p < 2 ^ 20 → paging_build_table_entry (p * PAGE_SIZE) = (Some (p * PAGE_SIZE + 3), OK).
Proof.
  intros Hp. unfold paging_build_table_entry, PAGE_SIZE. replace (p * 4096 =? 0) with false by lia.
  assert (p * 4096 |w PAGING_FLAG_PRESENT |w PAGING_FLAG_WRITE = p * 4096 + 3) as ->.
  { rewrite <-Z.lor_assoc, Z.lor_comm. change (PAGING_FLAG_PRESENT |w PAGING_FLAG_WRITE) with 3.
    change 4096 with (2 ^ 12). rewrite lor_low_high by lia. lia. }
  rewrite entry_table_frame by lia. destruct (entry_low p 3) as (_ & _ & _ & ->); [lia|].
  unfold PAGE_SIZE. by replace (p * 4096 =? 0) with false by lia.
Qed.

Lemma lor_user p : (p * PAGE_SIZE + 3) |w PAGING_FLAG_USER = p * PAGE_SIZE + 7.
Proof.
  unfold PAGE_SIZE, PAGING_FLAG_USER. change 4096 with (2 ^ 12).
  rewrite (Z.add_comm _ 3), <-(lor_low_high 3 p 12), <-Z.lor_assoc, (Z.lor_comm _ 4), Z.lor_assoc by lia.
  change (Z.lor 3 4) with 7. rewrite lor_low_high by lia. lia.
Qed.

Lemma put_bit_spec w i b j : 0 ≤ i → 0 ≤ j → Z.testbit (put_bit w i b) j = if j =? i then b else Z.testbit w j.
Proof.
  intros Hi Hj. unfold put_bit. destruct b; [rewrite Z.setbit_eqb by lia|rewrite Z.clearbit_eqb by lia];
    destruct (Z.eqb_spec j i), (Z.eqb_spec i j); subst; cbn; try congruence; by rewrite ?andb_true_r, ?andb_false_r.
Qed.

Lemma entry_fill_testbit w f rw user j :
  0 ≤ f < 2 ^ 20 → 0 ≤ j →
  Z.testbit (entry_fill w f rw user) j =
    if j =? 2 then user else if j =? 1 then rw else if j =? 0 then true
    else if j <? 12 then Z.testbit w j else Z.testbit f (j - 12).
Proof.
  intros Hf Hj. unfold entry_fill. rewrite !put_bit_spec by lia.
  do 3 (destruct (_ =? _); [done|]). change 0xFFF with (Z.ones 12). change 0xFFFFF with (Z.ones 20).
  autorewrite with zbits. destruct (Z.ltb_spec j 12).
  - rewrite (Z.testbit_neg_r _ (j - 12)) by lia. cbn. by rewrite !andb_true_r, andb_false_r, orb_false_r.
  - rewrite Z.testbit_ones_nonneg by lia. rewrite andb_false_r. cbn.
    destruct (Z.ltb_spec (j - 12) 20); [|rewrite (testbit_high 20 f) by lia; by rewrite !andb_false_r].
    rewrite andb_true_r. by replace (j <? 32) with true by lia.
Qed.

Lemma entry_fill_range w f rw user : 0 ≤ f < 2 ^ 20 → 0 ≤ entry_fill w f rw user < 2 ^ 32.
Proof.
  intros Hf. assert (u32 (entry_fill w f rw user) = entry_fill w f rw user) as E; [|rewrite <-E; apply u32_range].
  apply Z.bits_inj_iff'. intros j Hj. rewrite u32_testbit, entry_fill_testbit by lia.
  destruct (Z.ltb_spec j 32); [done|]. replace (j =? 2) with false by lia. replace (j =? 1) with false by lia.
  replace (j =? 0) with false by lia. replace (j <? 12) with false by lia. by rewrite (testbit_high 20 f) by lia.
Qed.

Lemma entry_fill_spec w f rw user :
  0 ≤ f < 2 ^ 20 →
  entry_present (entry_fill w f rw user) = true ∧ entry_rw (entry_fill w f rw user) = rw ∧
  entry_user (entry_fill w f rw user) = user ∧ entry_frame (entry_fill w f rw user) = f.
Proof.
  intros Hf. unfold entry_present, entry_rw, entry_user, entry_frame. rewrite !entry_fill_testbit by lia.
  do 3 (split; [done|]). apply Z.bits_inj_iff'. intros j Hj. rewrite Z.shiftr_spec, entry_fill_testbit by lia.
  replace (j + 12 =? 2) with false by lia. replace (j + 12 =? 1) with false by lia. replace (j + 12 =? 0) with false by lia.
  replace (j + 12 <? 12) with false by lia. f_equal. lia.
Qed.

(** ** Roles of pages *)

(** [KernelTable i] is the table at index [i] of the kernel's directory; [UserTable d i]
    that of the process whose directory is page [d]; [UserFrame d v] is the frame of its
    virtual page [v]. *)
Inductive role :=
| KernelDirectory
| KernelTable (i : Z)
| UserDirectory
| UserTable (d i : Z)
| UserFrame (d v : Z).
#[export] Instance role_eq_dec : EqDecision role.
Proof. solve_decision. Defined.

Record links (e t : Z) (user : bool) : Prop := {
  ln_present : entry_present e = true;
  ln_rw : entry_rw e = true;
  ln_user : entry_user e = user;
  ln_frame : entry_frame e = t
}.

Lemma links_entry p : links (p * PAGE_SIZE + 3) p false ∧ links (p * PAGE_SIZE + 7) p true.
Proof. split; [destruct (entry_low p 3) as (? & ? & ? & ?)|destruct (entry_low p 7) as (? & ? & ? & ?)]; done || lia. Qed.

Lemma links_zero t b : ¬ links 0 t b.
Proof. by intros []. Qed.

(** [W] gives the words of the pages, [kp] is the kernel's directory. *)
Record linked (W : Z → Z → Z) (kp : Z) (roles : gmap Z role) : Prop := {
  lk_kernel p : roles !! p = Some KernelDirectory ↔ p = kp;
  lk_kentry i : 0 ≤ i < 1024 → W kp i = 0 ∨ ∃ t, links (W kp i) t false ∧ roles !! t = Some (KernelTable i);
  lk_ktable t i : roles !! t = Some (KernelTable i) →
    0 ≤ i < 1024 ∧ links (W kp i) t false ∧ ∀ j, 0 ≤ j < 1024 → entry_user (W t j) = false;
  lk_uentry d i : roles !! d = Some UserDirectory → 0 ≤ i < 1024 →
    W d i = W kp i ∨
    W kp i = 0 ∧ 2 ≤ i ≤ 3 ∧ ∃ t, links (W d i) t true ∧ roles !! t = Some (UserTable d i);
  lk_utable t d i : roles !! t = Some (UserTable d i) →
    roles !! d = Some UserDirectory ∧ 2 ≤ i ≤ 3 ∧ W kp i = 0 ∧ links (W d i) t true ∧
    ∀ j, 0 ≤ j < 1024 → entry_present (W t j) = false ∨
      entry_user (W t j) = true ∧ roles !! entry_frame (W t j) = Some (UserFrame d (i * 1024 + j));
  lk_uframe f d v : roles !! f = Some (UserFrame d v) →
    2048 ≤ v < 4096 ∧ ∃ t, roles !! t = Some (UserTable d (v / 1024)) ∧
      entry_present (W t (v mod 1024)) = true ∧ entry_frame (W t (v mod 1024)) = f;
  lk_window i : 2 ≤ i ≤ 3 → W kp i = 0
}.

(** The pages whose contents matter. *)
Definition structural (r : role) : bool := match r with UserFrame _ _ => false | _ => true end.

(** Removing pages whose words nothing else links to. *)
Lemma linked_restrict W W' kp roles roles' :
  linked W kp roles → roles' ⊆ roles → (∀ p, roles !! p = Some KernelDirectory → roles' !! p = roles !! p) →
  (∀ p r j, roles' !! p = Some r → structural r = true → 0 ≤ j < 1024 → W' p j = W p j) →
  (∀ t i, roles !! t = Some (KernelTable i) → roles' !! t = roles !! t) →
  (∀ t d i, roles !! t = Some (UserTable d i) → is_Some (roles' !! d) → roles' !! t = roles !! t) →
  (∀ t d i, roles' !! t = Some (UserTable d i) → is_Some (roles' !! d)) →
  (∀ f d v, roles !! f = Some (UserFrame d v) → is_Some (roles' !! d) → roles' !! f = roles !! f) →
  (∀ f d v, roles' !! f = Some (UserFrame d v) → is_Some (roles' !! d)) →
  linked W' kp roles'.
Proof.
  intros L Hsub HK HW HKT HT HTd HF HFd.
  assert (∀ p r, roles' !! p = Some r → roles !! p = Some r) as Hin by (intros p r H; by apply (lookup_weaken _ _ _ _ H)).
  assert (roles' !! kp = Some KernelDirectory) as Hkp.
  { rewrite HK; by apply (lk_kernel _ _ _ L). }
  assert (∀ j, 0 ≤ j < 1024 → W' kp j = W kp j) as HWk by (intros j; by apply (HW _ _ _ Hkp)).
  split.
  - intros p. split; [intros Hp%Hin; by apply (lk_kernel _ _ _ L)|by intros ->].
  - intros i Hi. rewrite HWk by done. destruct (lk_kentry _ _ _ L i Hi) as [?|(t & Hl & Ht)]; [by left|right].
    exists t. split; [done|]. by rewrite (HKT t i Ht).
  - intros t i Ht. destruct (lk_ktable _ _ _ L t i (Hin _ _ Ht)) as (Hi & Hl & Hj). rewrite HWk by done.
    split; [done|]. split; [done|]. intros j Hjr. rewrite (HW _ _ _ Ht) by done. by apply Hj.
  - intros d i Hd Hi. rewrite HWk, (HW _ _ _ Hd) by done.
    destruct (lk_uentry _ _ _ L d i (Hin _ _ Hd) Hi) as [?|(Hk & Hr & t & Hl & Ht)]; [by left|right].
    do 2 (split; [done|]). exists t. split; [done|]. by rewrite (HT t d i Ht).
  - intros t d i Ht. destruct (lk_utable _ _ _ L t d i (Hin _ _ Ht)) as (Hd & Hi & Hk & Hl & Hj).
    destruct (HTd t d i Ht) as [r Hr]. pose proof (Hin _ _ Hr) as Hr'. rewrite Hd in Hr'. injection Hr' as <-.
    split; [done|]. rewrite HWk, (HW _ _ _ Hr) by (done || lia). do 3 (split; [done|]). intros j Hjr.
    rewrite (HW _ _ _ Ht) by done. destruct (Hj j Hjr) as [?|[Hu Hf]]; [by left|right]. split; [done|].
    by rewrite (HF _ _ _ Hf).
  - intros f d v Hf. destruct (lk_uframe _ _ _ L f d v (Hin _ _ Hf)) as (Hv & t & Ht & Hp & Hfr).
    split; [done|]. exists t. assert (roles' !! t = Some (UserTable d (v / 1024))) as Ht'
      by (rewrite (HT t d _ Ht); [done|by eapply HFd]).
    rewrite (HW _ _ _ Ht') by (done || apply Z.mod_pos_bound; lia). done.
  - intros i Hi. rewrite HWk by lia. by apply (lk_window _ _ _ L).
Qed.

Lemma tables_ext W W' kp roles :
  linked W kp roles →
  (∀ p r j, roles !! p = Some r → structural r = true → 0 ≤ j < 1024 → W' p j = W p j) → linked W' kp roles.
Proof.
  intros L H. apply (linked_restrict W W' kp roles roles L); try done.
  - intros t d i Ht. destruct (lk_utable _ _ _ L t d i Ht) as [-> _]. by eexists.
  - intros f d v Hf. destruct (lk_uframe _ _ _ L f d v Hf) as (_ & t & Ht & _).
    destruct (lk_utable _ _ _ L t d _ Ht) as [-> _]. by eexists.
Qed.

(** A process is left with none of its pages. *)
Definition of_process (d p : Z) (r : role) : bool :=
  match r with
  | UserDirectory => p =? d
  | UserTable d' _ | UserFrame d' _ => d' =? d
  | _ => false
  end.
Definition without (d : Z) (roles : gmap Z role) : gmap Z role := filter (λ x, of_process d x.1 x.2 = false) roles.

Lemma lookup_without d roles p r : without d roles !! p = Some r ↔ roles !! p = Some r ∧ of_process d p r = false.
Proof. unfold without. by rewrite map_lookup_filter_Some. Qed.

Lemma linked_free W W' kp roles d :
  linked W kp roles →
  (∀ p r j, without d roles !! p = Some r → structural r = true → 0 ≤ j < 1024 → W' p j = W p j) →
  linked W' kp (without d roles).
Proof.
  intros L HW. assert (∀ t d' i, roles !! t = Some (UserTable d' i) → roles !! d' = Some UserDirectory) as HT
    by (intros t d' i Ht; apply (lk_utable _ _ _ L t d' i Ht)).
  assert (∀ f d' v, roles !! f = Some (UserFrame d' v) → roles !! d' = Some UserDirectory) as HF.
  { intros f d' v Hf. destruct (lk_uframe _ _ _ L f d' v Hf) as (_ & t & Ht & _). by eapply HT. }
  apply (linked_restrict W W' kp roles _ L); [apply map_filter_subseteq| |done|..].
  - intros p Hp. rewrite Hp. by apply lookup_without.
  - intros t i Ht. rewrite Ht. by apply lookup_without.
  - intros t d' i Ht [r [Hr Ho]%lookup_without]. rewrite Ht. apply lookup_without. split; [done|].
    rewrite (HT _ _ _ Ht) in Hr. by injection Hr as <-.
  - intros t d' i [Ht Ho]%lookup_without. exists UserDirectory. apply lookup_without. split; [by eapply HT|done].
  - intros f d' v Hf [r [Hr Ho]%lookup_without]. rewrite Hf. apply lookup_without. split; [done|].
    rewrite (HF _ _ _ Hf) in Hr. by injection Hr as <-.
  - intros f d' v [Hf Ho]%lookup_without. exists UserDirectory. apply lookup_without. split; [by eapply HF|done].
Qed.

(** ** Changes *)

(** [W'] has the words of [W] in the pages of [roles], but for entry [j] of page [p]. *)
Definition changed (W W' : Z → Z → Z) (roles : gmap Z role) (p j : Z) : Prop :=
  ∀ q r k, roles !! q = Some r → structural r = true → 0 ≤ k < 1024 → q ≠ p ∨ k ≠ j → W' q k = W q k.

Section changes.
Context (W W' : Z → Z → Z) (kp : Z) (roles : gmap Z role) (L : linked W kp roles).

Lemma kernel_role : roles !! kp = Some KernelDirectory.
Proof. by apply (lk_kernel _ _ _ L). Qed.

Lemma frame_table f d v : roles !! f = Some (UserFrame d v) →
  ∃ t, roles !! t = Some (UserTable d (v / 1024)) ∧ entry_present (W t (v mod 1024)) = true ∧
    entry_frame (W t (v mod 1024)) = f.
Proof. intros Hf. by destruct (lk_uframe _ _ _ L f d v Hf) as [_ ?]. Qed.

(** A directory has at most one table for each index, a page at most one frame. *)
Lemma table_unique t t' d i : roles !! t = Some (UserTable d i) → roles !! t' = Some (UserTable d i) → t = t'.
Proof.
  intros (_ & _ & _ & [_ _ _ E1] & _)%(lk_utable _ _ _ L) (_ & _ & _ & [_ _ _ E2] & _)%(lk_utable _ _ _ L). congruence.
Qed.

Lemma linked_add_table t d i :
  roles !! t = None → roles !! d = Some UserDirectory → 2 ≤ i ≤ 3 → W kp i = 0 → W d i = 0 →
  changed W W' roles d i → links (W' d i) t true → (∀ k, 0 ≤ k < 1024 → entry_present (W' t k) = false) →
  linked W' kp (<[t := UserTable d i]> roles).
Proof.
  intros Ht Hd Hi Hki Hdi HW Hl Hz. pose proof kernel_role as Hkp.
  assert (∀ p r, roles !! p = Some r → p ≠ t) as Hne by (intros p r Hp ->; congruence).
  assert (kp ≠ d) as Hkd by congruence.
  assert (∀ k, 0 ≤ k < 1024 → W' kp k = W kp k) as HWk by (intros k Hk; apply (HW _ _ _ Hkp); auto).
  split.
  - intros p. destruct (decide (p = t)) as [->|Hp]; [|rewrite lookup_insert_ne by done; apply (lk_kernel _ _ _ L)].
    rewrite lookup_insert_eq. split; [done|]. intros ->. congruence.
  - intros k Hk. rewrite HWk by done. destruct (lk_kentry _ _ _ L k Hk) as [?|(u & Hu & Hr)]; [by left|right].
    exists u. by rewrite lookup_insert_ne by (by apply not_eq_sym, (Hne _ _ Hr)).
  - intros u k. rewrite lookup_insert_Some. intros [[_ ?]|[_ Hu]]; [done|].
    destruct (lk_ktable _ _ _ L u k Hu) as (Hk & Hlk & Hj). rewrite HWk by done. split; [done|]. split; [done|].
    intros j Hjr. rewrite (HW _ _ _ Hu) by (done || (left; congruence)). by apply Hj.
  - intros c k. rewrite lookup_insert_Some. intros [[_ ?]|[Hct Hc]] Hk; [done|]. rewrite HWk by done.
    destruct (decide (c = d ∧ k = i)) as [[-> ->]|Hck].
    { right. do 2 (split; [done|]). exists t. by rewrite lookup_insert_eq. }
    rewrite (HW _ _ _ Hc) by (done || lia).
    destruct (lk_uentry _ _ _ L c k Hc Hk) as [?|(? & ? & u & Hu & Hr)]; [by left|right]. do 2 (split; [done|]).
    exists u. by rewrite lookup_insert_ne by (by apply not_eq_sym, (Hne _ _ Hr)).
  - intros u c k. rewrite lookup_insert_Some. intros [[<- [= <- <-]]|[Hut Hu]].
    { rewrite lookup_insert_ne, HWk by (try lia; by apply not_eq_sym, (Hne _ _ Hd)). do 4 (split; [done|]). auto. }
    destruct (lk_utable _ _ _ L u c k Hu) as (Hc & Hk & Hkk & Hlk & Hj).
    rewrite lookup_insert_ne, HWk by (try lia; by apply not_eq_sym, (Hne _ _ Hc)). do 3 (split; [done|]).
    assert (c ≠ d ∨ k ≠ i) as Hck.
    { destruct (decide (c = d)) as [->|]; [right|by left]. intros ->. rewrite Hdi in Hlk. by apply links_zero in Hlk. }
    rewrite (HW _ _ _ Hc) by (done || lia). split; [done|]. intros j Hjr.
    rewrite (HW _ _ _ Hu) by (done || (left; congruence)). destruct (Hj j Hjr) as [?|[Hus Hf]]; [by left|right].
    split; [done|]. by rewrite lookup_insert_ne by (by apply not_eq_sym, (Hne _ _ Hf)).
  - intros f c v. rewrite lookup_insert_Some. intros [[_ ?]|[Hft Hf]]; [done|].
    destruct (lk_uframe _ _ _ L f c v Hf) as (Hv & u & Hu & Hp & Hfr). split; [done|]. exists u.
    rewrite lookup_insert_ne by (by apply not_eq_sym, (Hne _ _ Hu)). split; [done|].
    rewrite (HW _ _ _ Hu) by (done || (apply Z.mod_pos_bound; lia) || (left; congruence)). done.
  - intros k Hk. rewrite HWk by lia. by apply (lk_window _ _ _ L).
Qed.

Lemma linked_del_table t d i :
  roles !! t = Some (UserTable d i) → (∀ k, 0 ≤ k < 1024 → entry_present (W t k) = false) →
  changed W W' (delete t roles) d i → W' d i = 0 → linked W' kp (delete t roles).
Proof.
  intros Ht Hz HW H0. pose proof kernel_role as Hkp.
  destruct (lk_utable _ _ _ L t d i Ht) as (Hd & Hi & Hki & Hl & _).
  assert (kp ≠ d) as Hkd by congruence. assert (t ≠ kp ∧ t ≠ d) as [Htk Htd] by (split; congruence).
  assert (∀ k, 0 ≤ k < 1024 → W' kp k = W kp k) as HWk.
  { intros k Hk. apply (HW kp KernelDirectory); auto. by rewrite lookup_delete_ne. }
  split.
  - intros p. rewrite lookup_delete_Some, (lk_kernel _ _ _ L). intuition congruence.
  - intros k Hk. rewrite HWk by done. destruct (lk_kentry _ _ _ L k Hk) as [?|(u & Hu & Hr)]; [by left|right].
    exists u. rewrite lookup_delete_ne by congruence. done.
  - intros u k Hu'. pose proof Hu' as [_ Hu]%lookup_delete_Some.
    destruct (lk_ktable _ _ _ L u k Hu) as (Hk & Hlk & Hj). rewrite HWk by done. split; [done|]. split; [done|].
    intros j Hjr. rewrite (HW _ _ _ Hu') by (done || (left; congruence)). by apply Hj.
  - intros c k Hc' Hk. pose proof Hc' as [_ Hc]%lookup_delete_Some. rewrite HWk by done.
    destruct (decide (c = d ∧ k = i)) as [[-> ->]|Hck]; [left; congruence|].
    rewrite (HW _ _ _ Hc') by (done || lia).
    destruct (lk_uentry _ _ _ L c k Hc Hk) as [?|(? & ? & u & Hu & Hr)]; [by left|right]. do 2 (split; [done|]).
    exists u. rewrite lookup_delete_ne by (intros <-; apply Hck; split; congruence). done.
  - intros u c k Hu'. pose proof Hu' as [Hut Hu]%lookup_delete_Some.
    destruct (lk_utable _ _ _ L u c k Hu) as (Hc & Hk & Hkk & Hlk & Hj).
    assert (delete t roles !! c = Some UserDirectory) as Hc' by (by rewrite lookup_delete_ne by congruence).
    rewrite HWk by lia. do 3 (split; [done|]).
    assert (c ≠ d ∨ k ≠ i) as Hck.
    { destruct (decide (c = d)) as [->|]; [right|by left]. intros ->. destruct Hut. by eapply table_unique. }
    rewrite (HW _ _ _ Hc') by (done || lia). split; [done|]. intros j Hjr.
    rewrite (HW _ _ _ Hu') by (done || (left; congruence)). destruct (Hj j Hjr) as [?|[Hus Hf]]; [by left|right].
    rewrite lookup_delete_ne by congruence. done.
  - intros f c v [Hft Hf]%lookup_delete_Some.
    destruct (lk_uframe _ _ _ L f c v Hf) as (Hv & u & Hu & Hp & Hfr). pose proof (Z.mod_pos_bound v 1024 ltac:(lia)).
    assert (u ≠ t) as Hut by (intros ->; by rewrite Hz in Hp).
    assert (delete t roles !! u = Some (UserTable c (v / 1024))) as Hu' by (by rewrite lookup_delete_ne).
    split; [done|]. exists u. split; [done|]. rewrite (HW _ _ _ Hu') by (done || (left; congruence)). done.
  - intros k Hk. rewrite HWk by lia. by apply (lk_window _ _ _ L).
Qed.

Lemma linked_map f t d i j :
  roles !! f = None → roles !! t = Some (UserTable d i) → 0 ≤ j < 1024 → entry_present (W t j) = false →
  changed W W' roles t j → entry_present (W' t j) = true → entry_user (W' t j) = true → entry_frame (W' t j) = f →
  linked W' kp (<[f := UserFrame d (i * 1024 + j)]> roles).
Proof.
  intros Hf Ht Hj Hp0 HW Hp Hu Hfr. pose proof kernel_role as Hkp.
  destruct (lk_utable _ _ _ L t d i Ht) as (Hd & Hi & Hki & Hl & Htj).
  assert (∀ p r, roles !! p = Some r → f ≠ p) as Hne by (intros p r Hr ->; congruence).
  assert (∀ p r, roles !! p = Some r → p ≠ t → structural r = true → ∀ k, 0 ≤ k < 1024 → W' p k = W p k) as HWn.
  { intros p r Hpr Hpt Hs k Hk. apply (HW _ _ _ Hpr); auto. }
  assert (t ≠ kp) as Htk by congruence.
  split.
  - intros p. rewrite lookup_insert_Some, (lk_kernel _ _ _ L). split; [by intros [[_ ?]|[_ ?]]|]. intros ->. right.
    split; [by apply (Hne _ _ Hkp)|done].
  - intros k Hk. rewrite (HWn _ _ Hkp) by done. destruct (lk_kentry _ _ _ L k Hk) as [?|(u & Hlu & Hr)]; [by left|right].
    exists u. by rewrite lookup_insert_ne by (by apply (Hne _ _ Hr)).
  - intros u k. rewrite lookup_insert_Some. intros [[_ ?]|[_ Hru]]; [done|].
    destruct (lk_ktable _ _ _ L u k Hru) as (Hk & Hlk & Hju). rewrite (HWn _ _ Hkp) by done. split; [done|]. split; [done|].
    intros q Hq. rewrite (HWn _ _ Hru) by (done || congruence). by apply Hju.
  - intros c k. rewrite lookup_insert_Some. intros [[_ ?]|[_ Hc]] Hk; [done|].
    rewrite (HWn _ _ Hkp), (HWn _ _ Hc) by (done || congruence).
    destruct (lk_uentry _ _ _ L c k Hc Hk) as [?|(? & ? & u & Hlu & Hr)]; [by left|right]. do 2 (split; [done|]).
    exists u. by rewrite lookup_insert_ne by (by apply (Hne _ _ Hr)).
  - intros u c k. rewrite lookup_insert_Some. intros [[_ ?]|[Hfu Hru]]; [done|].
    destruct (lk_utable _ _ _ L u c k Hru) as (Hc & Hk & Hkk & Hlk & Hju).
    rewrite lookup_insert_ne, (HWn _ _ Hkp), (HWn _ _ Hc) by (done || lia || congruence || by apply (Hne _ _ Hc)).
    do 4 (split; [done|]). intros q Hq. destruct (decide (u = t ∧ q = j)) as [[-> ->]|Huq].
    { right. split; [done|]. rewrite Ht in Hru. injection Hru as <- <-. by rewrite Hfr, lookup_insert_eq. }
    rewrite (HW _ _ _ Hru) by (done || lia).
    destruct (Hju q Hq) as [?|[Hus Hff]]; [by left|right]. split; [done|].
    by rewrite lookup_insert_ne by (by apply (Hne _ _ Hff)).
  - intros g c v. rewrite lookup_insert_Some. intros [[<- [= <- <-]]|[Hfg Hg]].
    { replace ((i * 1024 + j) / 1024) with i by divlia. replace ((i * 1024 + j) mod 1024) with j by divlia.
      split; [lia|]. exists t. by rewrite lookup_insert_ne by (by apply (Hne _ _ Ht)). }
    destruct (lk_uframe _ _ _ L g c v Hg) as (Hv & u & Hru & Hpu & Hfu). split; [done|]. exists u.
    rewrite lookup_insert_ne by (by apply (Hne _ _ Hru)). split; [done|]. pose proof (Z.mod_pos_bound v 1024 ltac:(lia)).
    rewrite (HW _ _ _ Hru); try done. destruct (decide (u = t)) as [->|]; [right|by left]. intros E. congruence.
  - intros k Hk. rewrite (HWn _ _ Hkp) by (done || lia || congruence). by apply (lk_window _ _ _ L).
Qed.

Lemma linked_unmap f t d i j :
  roles !! t = Some (UserTable d i) → 0 ≤ j < 1024 → entry_present (W t j) = true → entry_frame (W t j) = f →
  changed W W' roles t j → entry_present (W' t j) = false →
  linked W' kp (delete f roles).
Proof.
  intros Ht Hj Hp Hfr HW Hp'. pose proof kernel_role as Hkp.
  destruct (lk_utable _ _ _ L t d i Ht) as (Hd & Hi & Hki & Hl & Htj).
  assert (roles !! f = Some (UserFrame d (i * 1024 + j))) as Hf.
  { destruct (Htj j Hj) as [?|[_ Hf]]; [congruence|]. by rewrite Hfr in Hf. }
  assert (∀ p r, roles !! p = Some r → structural r = true → delete f roles !! p = Some r) as Hkeep.
  { intros p r Hr Hs. apply lookup_delete_Some. split; [|done]. intros ->. rewrite Hf in Hr. by injection Hr as <-. }
  assert (∀ p r, roles !! p = Some r → p ≠ t → structural r = true → ∀ k, 0 ≤ k < 1024 → W' p k = W p k) as HWn.
  { intros p r Hpr Hpt Hs k Hk. apply (HW _ _ _ Hpr); auto. }
  assert (t ≠ kp) as Htk by congruence.
  split.
  - intros p. rewrite lookup_delete_Some, (lk_kernel _ _ _ L). split; [by intros [_ ?]|]. intros ->. split; congruence.
  - intros k Hk. rewrite (HWn _ _ Hkp) by done. destruct (lk_kentry _ _ _ L k Hk) as [?|(u & Hlu & Hr)]; [by left|right].
    exists u. split; [done|]. by apply Hkeep.
  - intros u k [_ Hru]%lookup_delete_Some.
    destruct (lk_ktable _ _ _ L u k Hru) as (Hk & Hlk & Hju). rewrite (HWn _ _ Hkp) by done. split; [done|]. split; [done|].
    intros q Hq. rewrite (HWn _ _ Hru) by (done || congruence). by apply Hju.
  - intros c k [_ Hc]%lookup_delete_Some Hk. rewrite (HWn _ _ Hkp), (HWn _ _ Hc) by (done || congruence).
    destruct (lk_uentry _ _ _ L c k Hc Hk) as [?|(? & ? & u & Hlu & Hr)]; [by left|right]. do 2 (split; [done|]).
    exists u. split; [done|]. by apply Hkeep.
  - intros u c k [_ Hru]%lookup_delete_Some. destruct (lk_utable _ _ _ L u c k Hru) as (Hc & Hk & Hkk & Hlk & Hju).
    rewrite (HWn _ _ Hkp), (HWn _ _ Hc) by (done || lia || congruence). split; [by apply Hkeep|].
    do 3 (split; [done|]). intros q Hq. destruct (decide (u = t ∧ q = j)) as [[-> ->]|Huq]; [by left|].
    rewrite (HW _ _ _ Hru) by (done || lia).
    destruct (Hju q Hq) as [?|[Hus Hff]]; [by left|right]. split; [done|]. apply lookup_delete_Some. split; [|done].
    intros E. rewrite <-E, Hf in Hff. injection Hff as <- Ev. assert (k = i ∧ q = j) as [-> ->] by lia.
    apply Huq. split; [by eapply table_unique|done].
  - intros g c v [Hfg Hg]%lookup_delete_Some.
    destruct (lk_uframe _ _ _ L g c v Hg) as (Hv & u & Hru & Hpu & Hfu). split; [done|]. exists u.
    split; [by apply Hkeep|]. pose proof (Z.mod_pos_bound v 1024 ltac:(lia)).
    rewrite (HW _ _ _ Hru); try done. destruct (decide (u = t)) as [->|]; [right|by left]. intros E. congruence.
  - intros k Hk. rewrite (HWn _ _ Hkp) by (done || lia || congruence). by apply (lk_window _ _ _ L).
Qed.

Lemma linked_add_dir d :
  roles !! d = None → (∀ k, 0 ≤ k < 1024 → W' d k = W kp k) →
  (∀ q r k, roles !! q = Some r → structural r = true → 0 ≤ k < 1024 → W' q k = W q k) →
  linked W' kp (<[d := UserDirectory]> roles).
Proof.
  intros Hd HWd HW. pose proof kernel_role as Hkp.
  assert (∀ p r, roles !! p = Some r → d ≠ p) as Hne by (intros p r Hr ->; congruence).
  split.
  - intros p. rewrite lookup_insert_Some, (lk_kernel _ _ _ L). split; [by intros [[_ ?]|[_ ?]]|]. intros ->. right.
    split; [by apply (Hne _ _ Hkp)|done].
  - intros k Hk. rewrite (HW _ _ _ Hkp) by done. destruct (lk_kentry _ _ _ L k Hk) as [?|(u & Hlu & Hr)]; [by left|right].
    exists u. by rewrite lookup_insert_ne by (by apply (Hne _ _ Hr)).
  - intros u k. rewrite lookup_insert_Some. intros [[_ ?]|[_ Hru]]; [done|].
    destruct (lk_ktable _ _ _ L u k Hru) as (Hk & Hlk & Hju). rewrite (HW _ _ _ Hkp) by done. split; [done|]. split; [done|].
    intros q Hq. rewrite (HW _ _ _ Hru) by done. by apply Hju.
  - intros c k. rewrite lookup_insert_Some. intros [[<- _]|[_ Hc]] Hk.
    { left. rewrite HWd, (HW _ _ _ Hkp) by done. done. }
    rewrite (HW _ _ _ Hkp), (HW _ _ _ Hc) by done.
    destruct (lk_uentry _ _ _ L c k Hc Hk) as [?|(? & ? & u & Hlu & Hr)]; [by left|right]. do 2 (split; [done|]).
    exists u. by rewrite lookup_insert_ne by (by apply (Hne _ _ Hr)).
  - intros u c k. rewrite lookup_insert_Some. intros [[_ ?]|[_ Hru]]; [done|].
    destruct (lk_utable _ _ _ L u c k Hru) as (Hc & Hk & Hkk & Hlk & Hju).
    rewrite lookup_insert_ne, (HW _ _ _ Hkp), (HW _ _ _ Hc) by (done || lia || by apply (Hne _ _ Hc)).
    do 4 (split; [done|]). intros q Hq. rewrite (HW _ _ _ Hru) by done.
    destruct (Hju q Hq) as [?|[Hus Hff]]; [by left|right]. split; [done|].
    by rewrite lookup_insert_ne by (by apply (Hne _ _ Hff)).
  - intros g c v. rewrite lookup_insert_Some. intros [[_ ?]|[_ Hg]]; [done|].
    destruct (lk_uframe _ _ _ L g c v Hg) as (Hv & u & Hru & Hpu & Hfu). split; [done|]. exists u.
    rewrite lookup_insert_ne by (by apply (Hne _ _ Hru)). split; [done|]. pose proof (Z.mod_pos_bound v 1024 ltac:(lia)).
    by rewrite (HW _ _ _ Hru).
  - intros k Hk. rewrite (HW _ _ _ Hkp) by (done || lia). by apply (lk_window _ _ _ L).
Qed.
End changes.

(** ** Translation *)

(** What a pair of entries maps a page to: the frame, and whether writing and access from
    user mode are allowed. *)
Record mapping := Mapping { mp_frame : Z; mp_write : bool; mp_user : bool }.

(** How the processor finds virtual page [n] from directory [c]. *)
Definition walk (W : Z → Z → Z) (c n : Z) : option mapping :=
  let e := W c (n / 1024) in
  if entry_present e then
    let w := W (entry_frame e) (n mod 1024) in
    if entry_present w then Some (Mapping (entry_frame w) (entry_rw e && entry_rw w) (entry_user e && entry_user w)) else None
  else None.

Definition is_dir (roles : gmap Z role) (c : Z) : Prop :=
  roles !! c = Some KernelDirectory ∨ roles !! c = Some UserDirectory.

Lemma walk_absent W c n : W c (n / 1024) = 0 → walk W c n = None.
Proof. intros E. unfold walk. by rewrite E. Qed.

Lemma walk_via W c n t u :
  links (W c (n / 1024)) t u →
  walk W c n = let w := W t (n mod 1024) in
    if entry_present w then Some (Mapping (entry_frame w) (entry_rw w) (u && entry_user w)) else None.
Proof. intros [H1 H2 H3 H4]. unfold walk. by rewrite H1, H2, H3, H4. Qed.

Lemma page_index_split n : n = n / 1024 * 1024 + n mod 1024.
Proof. divlia. Qed.
Lemma page_parts n : 0 ≤ n < 2 ^ 20 → 0 ≤ n / 1024 < 1024 ∧ 0 ≤ n mod 1024 < 1024.
Proof. divlia. Qed.

Section walks.
Context (W W' : Z → Z → Z) (kp : Z) (roles : gmap Z role) (L : linked W kp roles).

(** The entry of a directory: nothing, a table of the kernel, or one of its own. *)
Lemma dir_entry_cases c i : is_dir roles c → 0 ≤ i < 1024 →
  W c i = 0 ∨ (∃ t, links (W c i) t false ∧ roles !! t = Some (KernelTable i)) ∨
  (∃ t, links (W c i) t true ∧ roles !! t = Some (UserTable c i)).
Proof.
  intros Hc Hi. destruct (lk_kentry _ _ _ L i Hi) as [K|K]; destruct Hc as [Hc%(lk_kernel _ _ _ L)|Hc].
  - subst. by left.
  - destruct (lk_uentry _ _ _ L c i Hc Hi) as [->|(_ & _ & ?)]; auto.
  - subst. auto.
  - destruct (lk_uentry _ _ _ L c i Hc Hi) as [->|(_ & _ & ?)]; auto.
Qed.

Lemma is_dir_structural c : is_dir roles c → ∃ r, roles !! c = Some r ∧ structural r = true.
Proof. intros [H|H]; by eexists. Qed.

(** Without changes on the way the result is the same. *)
Lemma walk_same c n :
  is_dir roles c → 0 ≤ n < 2 ^ 20 → W' c (n / 1024) = W c (n / 1024) →
  (∀ t, roles !! t = Some (KernelTable (n / 1024)) ∨ roles !! t = Some (UserTable c (n / 1024)) →
     W' t (n mod 1024) = W t (n mod 1024)) →
  walk W' c n = walk W c n.
Proof.
  intros Hc Hn E Ht. destruct (dir_entry_cases c (n / 1024) Hc) as [E0|[(t & Hl & Hr)|(t & Hl & Hr)]]; [by apply page_parts|..].
  - rewrite !walk_absent by congruence. done.
  - rewrite (walk_via W' c n t false), (walk_via W c n t false) by congruence. by rewrite (Ht t) by auto.
  - rewrite (walk_via W' c n t true), (walk_via W c n t true) by congruence. by rewrite (Ht t) by auto.
Qed.

Lemma walk_unchanged c n roles' :
  (∀ p r j, roles' !! p = Some r → structural r = true → 0 ≤ j < 1024 → W' p j = W p j) →
  is_dir roles c → is_dir roles' c → (∀ t i, roles !! t = Some (KernelTable i) → roles' !! t = Some (KernelTable i)) →
  (∀ t i, roles !! t = Some (UserTable c i) → roles' !! t = Some (UserTable c i)) →
  0 ≤ n < 2 ^ 20 → walk W' c n = walk W c n.
Proof.
  intros HW Hc [Hc'|Hc'] HK HU Hn; pose proof (page_parts n Hn) as [Hi Hj]; apply walk_same; auto;
    [apply (HW _ _ _ Hc'); auto| |apply (HW _ _ _ Hc'); auto|]; intros t [Ht|Ht].
  all: apply HK in Ht || apply HU in Ht; by apply (HW _ _ _ Ht).
Qed.

(** The entries of a table decide its pages. *)
Lemma walk_changed t d i j c n :
  roles !! t = Some (UserTable d i) → 0 ≤ j < 1024 → changed W W' roles t j → is_dir roles c → 0 ≤ n < 2 ^ 20 →
  walk W' c n =
    if (c =? d) && (n =? i * 1024 + j) then
      let w := W' t j in if entry_present w then Some (Mapping (entry_frame w) (entry_rw w) (entry_user w)) else None
    else walk W c n.
Proof.
  intros Ht Hj HW Hc Hn. pose proof (page_parts n Hn) as [Hi Hjn]. pose proof (page_index_split n) as Hsp.
  destruct (is_dir_structural c Hc) as (r & Hr & Hs).
  destruct (lk_utable _ _ _ L t d i Ht) as (Hd & Hi' & Hki & Hl & _).
  assert (c ≠ t) as Hct by (intros ->; rewrite Ht in Hr; destruct Hc; congruence).
  assert (W' c (n / 1024) = W c (n / 1024)) as E by (apply (HW _ _ _ Hr); auto).
  destruct (Z.eqb_spec c d) as [->|Hcd]; [destruct (Z.eqb_spec n (i * 1024 + j)) as [->|Hnj]|]; cbn [andb].
  - replace ((i * 1024 + j) / 1024) with i in * by divlia. replace ((i * 1024 + j) mod 1024) with j in * by divlia.
    rewrite (walk_via W' d (i * 1024 + j) t true); replace ((i * 1024 + j) / 1024) with i by divlia; [|congruence].
    by replace ((i * 1024 + j) mod 1024) with j by divlia.
  - apply walk_same; [done|done|done|]. intros u [Hu|Hu].
    + apply (HW _ _ _ Hu); [done|done|left; congruence].
    + apply (HW _ _ _ Hu); [done|done|]. destruct (decide (u = t)) as [->|]; [right|by left].
      rewrite Ht in Hu. injection Hu as ->. lia.
  - apply walk_same; [done|done|done|]. intros u [Hu|Hu]; apply (HW _ _ _ Hu); (done || left; congruence).
Qed.

Lemma walk_add_table t d i c n :
  roles !! t = None → roles !! d = Some UserDirectory → 0 ≤ i < 1024 → W d i = 0 →
  changed W W' roles d i → links (W' d i) t true → (∀ k, 0 ≤ k < 1024 → entry_present (W' t k) = false) →
  is_dir roles c → 0 ≤ n < 2 ^ 20 → walk W' c n = walk W c n.
Proof.
  intros Ht Hd Hi Hdi HW Hl Hz Hc Hn. pose proof (page_parts n Hn) as [Hin Hjn].
  destruct (is_dir_structural c Hc) as (r & Hr & Hs).
  destruct (decide (c = d ∧ n / 1024 = i)) as [[-> <-]|Hne].
  - rewrite (walk_absent W) by done. rewrite (walk_via W' d n t true) by done. cbn zeta. by rewrite Hz.
  - apply walk_same; [done|done|apply (HW _ _ _ Hr); (done || lia)|].
    intros u [Hu|Hu]; apply (HW _ _ _ Hu); (done || left; congruence).
Qed.

Lemma walk_del_table t d i c n :
  roles !! t = Some (UserTable d i) → (∀ k, 0 ≤ k < 1024 → entry_present (W t k) = false) →
  changed W W' (delete t roles) d i → W' d i = 0 → is_dir roles c → 0 ≤ n < 2 ^ 20 → walk W' c n = walk W c n.
Proof.
  intros Ht Hz HW H0 Hc Hn. pose proof (page_parts n Hn) as [Hin Hjn].
  destruct (is_dir_structural c Hc) as (r & Hr & Hs).
  destruct (lk_utable _ _ _ L t d i Ht) as (Hd & Hi' & Hki & Hl & _).
  assert (c ≠ t) as Hct by (intros ->; rewrite Ht in Hr; destruct Hc; congruence).
  destruct (decide (c = d ∧ n / 1024 = i)) as [[-> <-]|Hne].
  - rewrite (walk_absent W') by done. rewrite (walk_via W d n t true) by done. cbn zeta. by rewrite Hz.
  - apply walk_same; [done|done|apply (HW c r); [by rewrite lookup_delete_ne|done..|lia]|].
    intros u Hu. assert (u ≠ t) as Hut.
    { intros ->. rewrite Ht in Hu. destruct Hu as [|[= -> ->]]; [done|]. lia. }
    destruct Hu as [Hu|Hu]; apply (HW u _ _ (eq_trans (lookup_delete_ne _ _ _ (not_eq_sym Hut)) Hu)); (done || left; congruence).
Qed.

(** A user page is a frame of its own process. *)
Lemma walk_user c n m :
  is_dir roles c → 0 ≤ n < 2 ^ 20 → walk W c n = Some m → mp_user m = true →
  roles !! mp_frame m = Some (UserFrame c n).
Proof.
  intros Hc Hn E Hu. pose proof (page_parts n Hn) as [Hin Hjn].
  destruct (dir_entry_cases c (n / 1024) Hc Hin) as [E0|[(t & Hl & Hr)|(t & Hl & Hr)]].
  - by rewrite walk_absent in E.
  - rewrite (walk_via W c n t false) in E by done. cbn zeta in E. destruct (entry_present _); [|done].
    injection E as <-. done.
  - rewrite (walk_via W c n t true) in E by done. cbn zeta in E.
    destruct (lk_utable _ _ _ L t c (n / 1024) Hr) as (_ & _ & _ & _ & Hj).
    destruct (Hj (n mod 1024) Hjn) as [Hp|[_ Hf]]; [by rewrite Hp in E|].
    destruct (entry_present _); [|done]. injection E as <-. cbn. by rewrite Hf, <-page_index_split.
Qed.

(** In the other direction, each frame is mapped where its role says. *)
Lemma frame_walk f d v :
  roles !! f = Some (UserFrame d v) → ∃ rw, walk W d v = Some (Mapping f rw true) ∧ is_dir roles d ∧ 2048 ≤ v < 4096.
Proof.
  intros Hf. destruct (lk_uframe _ _ _ L f d v Hf) as (Hv & t & Ht & Hp & Hfr).
  destruct (lk_utable _ _ _ L t d _ Ht) as (Hd & Hi & _ & Hl & Hj).
  destruct (Hj (v mod 1024) ltac:(apply Z.mod_pos_bound; lia)) as [|[Hu _]]; [congruence|].
  exists (entry_rw (W t (v mod 1024))). rewrite (walk_via W d v t true) by done. cbn zeta. rewrite Hp, Hfr, Hu.
  split; [done|]. split; [by right|done].
Qed.

(** The kernel's part of the map is the same everywhere and closed to user mode. *)
Lemma walk_kernel c n m :
  is_dir roles c → 0 ≤ n < 2 ^ 20 → walk W kp n = Some m → walk W c n = Some m ∧ mp_user m = false.
Proof.
  intros Hc Hn E. pose proof (page_parts n Hn) as [Hin Hjn].
  destruct (lk_kentry _ _ _ L (n / 1024) Hin) as [E0|(t & Hl & Hr)]; [by rewrite walk_absent in E|]. split.
  - destruct Hc as [->%(lk_kernel _ _ _ L)|Hc]; [done|].
    destruct (lk_uentry _ _ _ L c _ Hc Hin) as [Ec|(E0 & _)]; [|rewrite E0 in Hl; by apply links_zero in Hl].
    rewrite <-E. unfold walk. by rewrite Ec.
  - rewrite (walk_via W kp n t false) in E by done. cbn zeta in E. destruct (entry_present _); [|done]. by injection E as <-.
Qed.
End walks.
