(* ===== verification/PagingCalls.v ===== *)
(** * The calls of paging.c on user directories

    [space s roles] is the invariant of paging.c after initialisation.  Mapping and
    unmapping pages, creating and freeing user directories and switching between them
    preserve it; each lemma also says what the call does to every address space. *)

From S2P Require Import Prelude Registry Memory Pmm Heap HeapRefine MemorySystem PageOwner Paging PagingInv.

(** ** Sums over registers *)

Definition total {A} (f : A → Z) (l : list A) : Z := foldr (λ x n, f x + n) 0 l.

Lemma total_cons {A} (f : A → Z) x l : total f (x :: l) = f x + total f l.
Proof. done. Qed.

Lemma total_perm {A} (f : A → Z) l l' : l ≡ₚ l' → total f l = total f l'.
Proof. induction 1; rewrite ?total_cons; lia. Qed.

Lemma total_ext {A} (f g : A → Z) l : (∀ x, x ∈ l → f x = g x) → total f l = total g l.
Proof.
  induction l as [|x l IH]; intros H; [done|]. rewrite !total_cons, (H x), IH; [done|intros; apply H; by right|by left].
Qed.

Lemma total_change {A} `{EqDecision A} (f g : A → Z) l x :
  NoDup l → x ∈ l → (∀ y, y ∈ l → y ≠ x → g y = f y) → total g l = total f l + (g x - f x).
Proof.
  induction 1 as [|y l Hy Hl IH]; intros Hx H; [by apply not_elem_of_nil in Hx|]. rewrite !total_cons.
  destruct (decide (x = y)) as [->|Hne].
  - rewrite (total_ext g f l); [lia|]. intros z Hz. apply H; [by right|]. by intros ->.
  - apply elem_of_cons in Hx as [?|Hx]; [done|]. rewrite IH, (H y); [lia|by left|done|done|].
    intros z Hz. apply H. by right.
Qed.

Lemma total_bound {A} (f : A → Z) l b : (∀ x, x ∈ l → 0 ≤ f x ≤ b) → 0 ≤ total f l ≤ b * Z.of_nat (length l).
Proof.
  induction l as [|x l IH]; intros H; [cbn; lia|]. rewrite total_cons. cbn [length].
  specialize (IH (λ y Hy, H y (list_elem_of_further y x l Hy))). specialize (H x (list_elem_of_here x l)). lia.
Qed.

(** ** The invariant *)

Definition words (s : paging_t) : Z → Z → Z := word (pg_memory s).
Definition owned (s : paging_t) : Z → bool := page_owned (pg_memory s).
Definition kernel_page (s : paging_t) : Z := kernel_directory s / PAGE_SIZE.

(** The user pages of a directory. *)
Definition user_mapped (W : Z → Z → Z) (d n : Z) : bool :=
  match walk W d n with Some m => mp_user m | None => false end.
Definition resident (W : Z → Z → Z) (d : Z) : Z := count_range 0 (2 ^ 20) (user_mapped W d).
Definition residents (W : Z → Z → Z) (dirs : list Z) : Z := total (λ a, resident W (a / PAGE_SIZE)) dirs.

(** Ranges of addresses, as sets of pages. *)
Definition in_range (r : Z * Z) (n : Z) : bool := (r.1 / PAGE_SIZE <=? n) && (n <? r.2 / PAGE_SIZE).
Definition in_ranges (l : list (Z * Z)) (n : Z) : bool := existsb (λ r, in_range r n) l.

Lemma in_ranges_app l k n : in_ranges (l ++ k) n = in_ranges l n || in_ranges k n.
Proof. apply existsb_app. Qed.

(** What the kernel maps for itself before the framebuffer. *)
Definition kernel_ranges (total : Z) : list (Z * Z) := boot_ranges ++ ram_ranges total.

Record space (s : paging_t) (roles : gmap Z role) : Prop := {
  sp_kernel : kernel_directory s = kernel_page s * PAGE_SIZE;
  sp_linked : linked (words s) (kernel_page s) roles;
  sp_owned p r : roles !! p = Some r → owned s p = true;
  sp_users a : a ∈ live (user_directories s) ↔ ∃ p, a = p * PAGE_SIZE ∧ roles !! p = Some UserDirectory;
  sp_nodup : NoDup (live (user_directories s));
  sp_all : live (paging_directories s) ≡ₚ kernel_directory s :: live (user_directories s);
  sp_length : length (user_directories s) = 64%nat ∧ length (paging_directories s) = 128%nat;
  sp_current : current_directory s ∈ live (paging_directories s);
  sp_ready : paging_initialized s = true;
  sp_pages : u_active_pages (user_paging_stats s) = residents (words s) (live (user_directories s));
  sp_dirs : u_active_directories (user_paging_stats s) = Z.of_nat (length (live (user_directories s)));
  sp_ram n : in_ranges (kernel_ranges (mi_total_memory (mem_info (pg_memory s)))) n = true →
    walk (words s) (kernel_page s) n = Some (Mapping n true false)
}.

(** The ranges end below the end of the address space. *)
Lemma ram_range m mem_live n :
  run m mem_live → in_ranges (kernel_ranges (mi_total_memory (mem_info m))) n = true → 0 ≤ n < 2 ^ 20.
Proof.
  intros Hr. pose proof (run_wf _ _ Hr) as W. rewrite (wf_total _ W). pose proof (pl_pages _ (wf_layout _ W)).
  assert (∀ t, t * PAGE_SIZE / PAGE_SIZE = t) as Hd by (intros t; by apply Z.div_mul).
  unfold kernel_ranges, ram_ranges, boot_ranges, in_ranges, in_range. cbn [existsb app fst snd]. rewrite Hd.
  repeat match goal with |- context [?a / PAGE_SIZE] => let v := eval vm_compute in (a / PAGE_SIZE) in change (a / PAGE_SIZE) with v end. lia.
Qed.

Lemma words_range s p j : 0 ≤ words s p j < 2 ^ 32.
Proof. apply word_range. Qed.

Lemma resident_range W d : 0 ≤ resident W d ≤ 2 ^ 20.
Proof. pose proof (count_range_bounds 0 (2 ^ 20) (user_mapped W d)). unfold resident. lia. Qed.

Lemma resident_ext W W' d d' : (∀ n, 0 ≤ n < 2 ^ 20 → walk W' d' n = walk W d n) → resident W' d' = resident W d.
Proof. intros H. apply count_range_ext. intros n Hn. unfold user_mapped. by rewrite H. Qed.

(** One page more or less. *)
Lemma resident_change W W' d v :
  0 ≤ v < 2 ^ 20 → (∀ n, 0 ≤ n < 2 ^ 20 → n ≠ v → walk W' d n = walk W d n) →
  resident W' d = resident W d - (if user_mapped W d v then 1 else 0) + (if user_mapped W' d v then 1 else 0).
Proof.
  intros Hv H. unfold resident.
  rewrite (count_range_update 0 v (v + 1) (2 ^ 20) (user_mapped W d) (user_mapped W' d)); [|lia|lia|].
  - rewrite !count_range_snoc, !(count_range_nil v v) by lia. lia.
  - intros n Hn Hne. unfold user_mapped. rewrite H by lia. done.
Qed.

Lemma residents_range W l : 0 ≤ residents W l ≤ 2 ^ 20 * Z.of_nat (length l).
Proof. apply (total_bound (λ a, resident W (a / PAGE_SIZE))). intros a _. apply resident_range. Qed.

(** Counted table by table. *)
Lemma resident_tables W d : resident W d = count_range 0 (1024 * 1024) (user_mapped W d).
Proof. unfold resident. by replace (2 ^ 20) with (1024 * 1024) by lia. Qed.
#[global] Opaque resident.

Section state.
Context (s : paging_t) (mem_live : gmap Z (list Z)) (roles : gmap Z role).
Context (Hr : run (pg_memory s) mem_live) (S : space s roles).

Lemma owned_range p : owned s p = true → 5120 ≤ p < 2 ^ 20.
Proof.
  intros Hp. pose proof (run_wf _ _ Hr) as Wf. pose proof (page_owned_high _ _ Wf Hp) as Hb.
  pose proof (pl_pages _ (wf_layout _ Wf)). change FIRST_FREE_PAGE with 5120 in Hb. lia.
Qed.

Lemma role_range p r : roles !! p = Some r → 5120 ≤ p < 2 ^ 20.
Proof. intros Hp. apply owned_range. by eapply sp_owned. Qed.

Lemma address_nonzero p r : roles !! p = Some r → (p * PAGE_SIZE =? 0) = false.
Proof. intros Hp%role_range. unfold PAGE_SIZE. lia. Qed.

Lemma page_of_address p : p * PAGE_SIZE / PAGE_SIZE = p.
Proof. by apply Z.div_mul. Qed.

Lemma kernel_page_role : roles !! kernel_page s = Some KernelDirectory.
Proof. by apply (lk_kernel _ _ _ (sp_linked _ _ S)). Qed.

Lemma user_live d : roles !! d = Some UserDirectory ↔ d * PAGE_SIZE ∈ live (user_directories s).
Proof.
  rewrite (sp_users _ _ S). split; [by eauto|]. intros (p & E & Hp). unfold PAGE_SIZE in E. by replace d with p by lia.
Qed.

Lemma dir_live c : is_dir roles c ↔ c * PAGE_SIZE ∈ live (paging_directories s).
Proof.
  rewrite (sp_all _ _ S), elem_of_cons, <-user_live. unfold is_dir. rewrite (lk_kernel _ _ _ (sp_linked _ _ S)).
  rewrite (sp_kernel _ _ S). unfold PAGE_SIZE. split; intros [H|H]; auto; left; lia.
Qed.

Lemma kernel_not_user : kernel_directory s ∉ live (user_directories s).
Proof. rewrite (sp_kernel _ _ S), <-user_live. intros H. by rewrite kernel_page_role in H. Qed.

Lemma index_live a (l : list Z) : a ∈ live l ↔ a ≠ 0 ∧ is_Some (find_slot a l).
Proof. by rewrite elem_of_live, find_slot_elem. Qed.

Lemma user_registered_iff a : paging_is_registered_user_directory s a = true ↔ a ∈ live (user_directories s).
Proof.
  unfold paging_is_registered_user_directory, paging_user_directory_index. rewrite bool_decide_eq_true, index_live.
  destruct (Z.eqb_spec a 0) as [->|Ha]; [|tauto]. split; [by intros [? ?]|by intros []].
Qed.

Lemma managed_iff a : paging_is_managed_directory s a = true ↔ a ∈ live (paging_directories s).
Proof.
  unfold paging_is_managed_directory, paging_directory_index. rewrite bool_decide_eq_true, index_live.
  destruct (Z.eqb_spec a 0) as [->|Ha]; [|tauto]. split; [by intros [? ?]|by intros []].
Qed.

Lemma registered_user d : roles !! d = Some UserDirectory → paging_is_registered_user_directory s (d * PAGE_SIZE) = true.
Proof. intros Hd. by apply user_registered_iff, user_live. Qed.
Lemma managed_dir c : is_dir roles c → paging_is_managed_directory s (c * PAGE_SIZE) = true.
Proof. intros Hc. by apply managed_iff, dir_live. Qed.

(** The address of a table from its entry. *)
Lemma entry_table_links e t b : 0 ≤ e < 2 ^ 32 → links e t b → entry_table e = t * PAGE_SIZE.
Proof. intros He []. rewrite entry_table_frame by done. congruence. Qed.

(** ** Looking up a page *)

Lemma table_index_page v : table_index (v * PAGE_SIZE) = v / 1024.
Proof. unfold table_index, PAGE_SIZE. rewrite (Z.mul_comm 4096 1024), Z.div_mul_cancel_r; lia. Qed.
Lemma page_index_page v : page_index (v * PAGE_SIZE) = v mod 1024.
Proof. unfold page_index. by rewrite page_of_address. Qed.

Lemma get_page_table c v t b r create :
  is_dir roles c → links (words s c (v / 1024)) t b → roles !! t = Some r → (create = true → 2048 ≤ v) →
  paging_get_page_in_directory s (c * PAGE_SIZE) (v * PAGE_SIZE) create = (s, entry_address (t * PAGE_SIZE) (v mod 1024)).
Proof.
  intros Hc Hl Ht Hv. unfold paging_get_page_in_directory. rewrite table_index_page, page_index_page.
  assert ((c * PAGE_SIZE =? 0) = false) as -> by (destruct Hc; by eapply address_nonzero).
  rewrite managed_dir by done. cbn [negb].
  assert (create && paging_is_registered_user_directory s (c * PAGE_SIZE) && (v * PAGE_SIZE <? USER_SPACE_START) = false) as ->.
  { destruct create; [|done]. replace (_ <? _) with false; [by rewrite andb_false_r|].
    specialize (Hv eq_refl). unfold PAGE_SIZE, USER_SPACE_START. lia. }
  change (dir_entry s (c * PAGE_SIZE) (v / 1024)) with (words s c (v / 1024)).
  rewrite has_present, (ln_present _ _ _ Hl), (entry_table_links _ t b) by (done || apply words_range).
  by rewrite (address_nonzero _ _ Ht).
Qed.

Lemma get_page_none c v :
  is_dir roles c → words s c (v / 1024) = 0 →
  paging_get_page_in_directory s (c * PAGE_SIZE) (v * PAGE_SIZE) false = (s, 0).
Proof.
  intros Hc E. unfold paging_get_page_in_directory. rewrite table_index_page.
  assert ((c * PAGE_SIZE =? 0) = false) as -> by (destruct Hc; by eapply address_nonzero).
  rewrite managed_dir by done. cbn [negb andb].
  change (dir_entry s (c * PAGE_SIZE) (v / 1024)) with (words s c (v / 1024)). by rewrite E.
Qed.

Lemma get_page_create d v m1 a :
  roles !! d = Some UserDirectory → 2048 ≤ v → words s d (v / 1024) = 0 →
  pmm_alloc_page_in_zone (pg_memory s) MEMORY_ZONE_PROCESS = (m1, a) →
  paging_get_page_in_directory s (d * PAGE_SIZE) (v * PAGE_SIZE) true =
    if a =? 0 then (s <| pg_memory := m1 |>, 0)
    else (s <| pg_memory := put_word (zero_page m1 (a / PAGE_SIZE)) d (v / 1024) (a + 3) |>, entry_address a (v mod 1024)).
Proof.
  intros Hd Hv E Ha. unfold paging_get_page_in_directory. rewrite table_index_page, page_index_page.
  rewrite (address_nonzero _ _ Hd), managed_dir, registered_user by (done || by right). cbn [negb andb].
  replace (v * PAGE_SIZE <? USER_SPACE_START) with false by (unfold PAGE_SIZE, USER_SPACE_START; lia).
  change (dir_entry s (d * PAGE_SIZE) (v / 1024)) with (words s d (v / 1024)). rewrite E.
  change (has 0 1) with false. cbv iota. unfold alloc_page. rewrite Ha.
  destruct (alloc_page_law _ _ Hr _ _ _ Ha) as (_ & _ & _ & [[-> _]|(t & -> & Ht & _)]); [done|].
  replace (t * PAGE_SIZE =? 0) with false by (unfold PAGE_SIZE; lia).
  by rewrite build_table_entry, page_of_address.
Qed.
End state.

(** A change of memory that keeps the directories. *)
Lemma space_update s mem_live roles m' n' roles' :
  space s roles → linked (word m') (kernel_page s) roles' →
  (∀ p r, roles' !! p = Some r → page_owned m' p = true) →
  (∀ p, roles' !! p = Some UserDirectory ↔ roles !! p = Some UserDirectory) →
  n' = residents (word m') (live (user_directories s)) →
  mi_total_memory (mem_info m') = mi_total_memory (mem_info (pg_memory s)) →
  (∀ n, 0 ≤ n < 2 ^ 20 → walk (word m') (kernel_page s) n = walk (words s) (kernel_page s) n) →
  run (pg_memory s) mem_live →
  space (user_stat (s <| pg_memory := m' |>) (set u_active_pages (λ _, n'))) roles'.
Proof.
  intros S Hl Ho Hd -> Et Hw Hr. pose proof S as []. split; try done.
  - intros a. rewrite sp_users0. by setoid_rewrite Hd.
  - intros n Hn. change (mi_total_memory (mem_info m')) with (mi_total_memory (mem_info m')) in Hn.
    change (pg_memory (user_stat _ _)) with m' in Hn. rewrite Et in Hn. rewrite <-(sp_ram0 n Hn). apply Hw.
    by apply (ram_range (pg_memory s) mem_live).
Qed.

Lemma space_memory s mem_live roles m' roles' :
  space s roles → linked (word m') (kernel_page s) roles' →
  (∀ p r, roles' !! p = Some r → page_owned m' p = true) →
  (∀ p, roles' !! p = Some UserDirectory ↔ roles !! p = Some UserDirectory) →
  (∀ c n, is_dir roles c → 0 ≤ n < 2 ^ 20 → walk (word m') c n = walk (words s) c n) →
  mi_total_memory (mem_info m') = mi_total_memory (mem_info (pg_memory s)) → run (pg_memory s) mem_live →
  space (s <| pg_memory := m' |>) roles'.
Proof.
  intros S Hl Ho Hd Hw Et Hr. pose proof (space_update s mem_live roles m' (u_active_pages (user_paging_stats s)) roles' S Hl Ho Hd) as H.
  assert (∀ x, user_stat x (set u_active_pages (λ _, u_active_pages (user_paging_stats x))) = x) as E
    by (intros [? ? ? ? ? ? u ?]; unfold user_stat, set; cbn; by destruct u).
  specialize (E (s <| pg_memory := m' |>)). cbn [user_paging_stats] in E.
  change (user_paging_stats (s <| pg_memory := m' |>)) with (user_paging_stats s) in E. rewrite E in H.
  apply H; [|exact Et|intros n Hn; apply Hw; [left; by apply (lk_kernel _ _ _ (sp_linked _ _ S))|done]|exact Hr].
  rewrite (sp_pages _ _ S). apply total_ext. intros a (p & -> & Hp)%(sp_users _ _ S). rewrite page_of_address.
  apply resident_ext. intros n Hn. symmetry. apply Hw; [by right|done].
Qed.

(** ** What a call leaves alone *)

(** The pages with [P] that were handed out are so still, with their contents. *)
Definition kept (s s' : paging_t) (P : Z → Prop) : Prop :=
  ∀ p, owned s p = true → P p → owned s' p = true ∧ ∀ j, 0 ≤ j < 1024 → words s' p j = words s p j.
(** Frames and pages of other parts of the kernel. *)
Definition plain (roles : gmap Z role) (p : Z) : Prop := ∀ r, roles !! p = Some r → structural r = false.

(** Pages change owner only as their role says: none is lost and none is taken. *)
Definition accounted (s s' : paging_t) (roles roles' : gmap Z role) : Prop :=
  ∀ p, roles' !! p = None → owned s' p = if bool_decide (is_Some (roles !! p)) then false else owned s p.

Record same_registers (s s' : paging_t) : Prop := {
  sr_kernel : kernel_directory s' = kernel_directory s;
  sr_current : current_directory s' = current_directory s;
  sr_users : user_directories s' = user_directories s;
  sr_all : paging_directories s' = paging_directories s
}.

(** ** Mapping a page *)

(** A new page [t], cleared and entered as [v] at entry [i] of page [d]. *)
Definition fresh_table (m1 : memory_t) (t d i v : Z) : memory_t := put_word (zero_page m1 t) d i v.

Record fresh (m m' : memory_t) (mem_live : gmap Z (list Z)) (t d i v : Z) : Prop := {
  fs_run : run m' mem_live;
  fs_free : page_owned m t = false;
  fs_range : 0 < t < 2 ^ 20;
  fs_owned q : page_owned m' q = (q =? t) || page_owned m q;
  fs_zero k : 0 ≤ k < 1024 → word m' t k = 0;
  fs_entry : word m' d i = v;
  fs_words q k : page_owned m q = true → 0 ≤ k < 1024 → q ≠ d ∨ k ≠ i → word m' q k = word m q k;
  fs_total : mi_total_memory (mem_info m') = mi_total_memory (mem_info m)
}.

Lemma fresh_table_law m mem_live zone m1 t d i v :
  run m mem_live → page_owned m d = true → 0 ≤ i < 1024 → 0 ≤ v < 2 ^ 32 →
  pmm_alloc_page_in_zone m zone = (m1, t * PAGE_SIZE) → t * PAGE_SIZE ≠ 0 →
  fresh m (fresh_table m1 t d i v) mem_live t d i v.
Proof.
  intros Hr Hd Hi Hv Ea Hne.
  destruct (alloc_page_law _ _ Hr _ _ _ Ea) as (R1 & W1 & T1 & [[? _]|(t' & Et & Ht & Hfree & O1)]); [done|].
  assert (t' = t) as -> by (unfold PAGE_SIZE in Et; lia).
  destruct (zero_page_law m1 mem_live R1 t) as [R2 O2]; [by rewrite O1, Z.eqb_refl|].
  assert (page_owned m1 d = true) as Od by (rewrite O1, Hd; apply orb_true_r).
  destruct (put_word_law _ mem_live R2 d i v) as [R3 O3]; [by rewrite O2|done|].
  assert (t ≠ d) as Htd by congruence.
  assert (∀ q k, 0 ≤ k < 1024 → word (fresh_table m1 t d i v) q k = if (q =? d) && (k =? i) then v
            else if q =? t then 0 else word m1 q k) as HW.
  { intros q k Hk. unfold fresh_table. rewrite word_put, word_zero by done. destruct (_ && _); [|done]. by apply u32_small. }
  split; [exact R3|exact Hfree|exact Ht| | | | |exact T1].
  - intros q. by rewrite <-O1, <-O2, <-O3.
  - intros k Hk. rewrite HW, Z.eqb_refl by done. by replace (t =? d) with false by lia.
  - by rewrite HW, !Z.eqb_refl by done.
  - intros q k Hq Hk Hqk. rewrite HW by done. replace (_ && _) with false by lia.
    replace (q =? t) with false; [by apply W1|]. destruct (Z.eqb_spec q t); congruence.
Qed.

(** The memory after a new table [t] is linked at entry [i] of directory [d]. *)
Definition linked_table (m1 : memory_t) (t d i : Z) : memory_t :=
  put_word (fresh_table m1 t d i (t * PAGE_SIZE + 3)) d i (t * PAGE_SIZE + 7).

Lemma linked_table_law m mem_live m1 t d i :
  run m mem_live → page_owned m d = true → 0 ≤ i < 1024 →
  pmm_alloc_page_in_zone m MEMORY_ZONE_PROCESS = (m1, t * PAGE_SIZE) → t * PAGE_SIZE ≠ 0 →
  fresh m (linked_table m1 t d i) mem_live t d i (t * PAGE_SIZE + 7).
Proof.
  intros Hr Hd Hi Ea Hne. assert (0 < t < 2 ^ 20) as Ht.
  { destruct (alloc_page_law _ _ Hr _ _ _ Ea) as (_ & _ & _ & [[? _]|(t' & Et & Ht & _)]); [done|]. unfold PAGE_SIZE in Et. lia. }
  destruct (fresh_table_law m mem_live _ m1 t d i (t * PAGE_SIZE + 3) Hr Hd Hi ltac:(unfold PAGE_SIZE; lia) Ea Hne)
    as [R F _ O Z E W T].
  destruct (put_word_law _ mem_live R d i (t * PAGE_SIZE + 7)) as [R4 O4]; [rewrite O, Hd; apply orb_true_r|done|].
  assert (t ≠ d) as Htd by congruence. unfold linked_table.
  split; [exact R4|exact F|exact Ht| | | | |exact T].
  - intros q. by rewrite O4, O.
  - intros k Hk. rewrite word_put by done. replace (t =? d) with false by lia. by apply Z.
  - rewrite word_put, !Z.eqb_refl by done. apply u32_small. unfold PAGE_SIZE. lia.
  - intros q k Hq Hk Hqk. rewrite word_put by done. replace (_ && _) with false by lia. by apply W.
Qed.

Section map.
Context (s : paging_t) (mem_live : gmap Z (list Z)) (roles : gmap Z role).
Context (Hr : run (pg_memory s) mem_live) (S : space s roles).
Context (d v : Z) (Hd : roles !! d = Some UserDirectory) (Hv : 2048 ≤ v < 4096).

Lemma unowned_role p : owned s p = false → roles !! p = None.
Proof. intros Hp. destruct (roles !! p) eqn:E; [|done]. apply (sp_owned _ _ S) in E. congruence. Qed.

Lemma new_table m1 t :
  words s (kernel_page s) (v / 1024) = 0 → words s d (v / 1024) = 0 →
  pmm_alloc_page_in_zone (pg_memory s) MEMORY_ZONE_PROCESS = (m1, t * PAGE_SIZE) → t * PAGE_SIZE ≠ 0 →
  let s4 := s <| pg_memory := linked_table m1 t d (v / 1024) |> in
  run (pg_memory s4) mem_live ∧ space s4 (<[t := UserTable d (v / 1024)]> roles) ∧ owned s t = false ∧
  (∀ q, owned s4 q = (q =? t) || owned s q) ∧ kept s s4 (plain roles) ∧ (∀ k, 0 ≤ k < 1024 → words s4 t k = 0) ∧
  ∀ c n, is_dir roles c → 0 ≤ n < 2 ^ 20 → walk (words s4) c n = walk (words s) c n.
Proof.
  intros Hk Hdi Ea Hne s4. pose proof (page_parts v ltac:(lia)) as [Hi _].
  destruct (linked_table_law _ mem_live m1 t d (v / 1024) Hr (sp_owned _ _ S d _ Hd) Hi Ea Hne)
    as [R4 Hfree Ht O Hz He HWs ET].
  pose proof (unowned_role t Hfree) as Htn.
  assert (changed (words s) (words s4) roles d (v / 1024)) as HC.
  { intros q r k Hq _ Hk' Hqk. apply HWs; [by eapply sp_owned|done|done]. }
  assert (links (words s4 d (v / 1024)) t true) as Hl.
  { change (words s4) with (word (linked_table m1 t d (v / 1024))). rewrite He. apply links_entry. }
  assert (∀ k, 0 ≤ k < 1024 → entry_present (words s4 t k) = false) as Hzp.
  { intros k Hk'. change (words s4) with (word (linked_table m1 t d (v / 1024))). by rewrite Hz. }
  assert (∀ c n, is_dir roles c → 0 ≤ n < 2 ^ 20 → walk (words s4) c n = walk (words s) c n) as Hwk.
  { intros c n Hc Hn. by apply (walk_add_table (words s) (words s4) _ _ (sp_linked _ _ S) t d (v / 1024)). }
  split; [exact R4|]. split; [|split; [exact Hfree|split; [exact O|split; [|split; [exact Hz|exact Hwk]]]]].
  - apply (space_memory s mem_live roles); [done|..].
    + apply (linked_add_table (words s) (words s4) _ roles (sp_linked _ _ S)); [exact Htn|exact Hd|divlia|exact Hk|exact Hdi|exact HC|exact Hl|exact Hzp].
    + intros p r. rewrite O, lookup_insert_Some. intros [[<- _]|[_ Hp]]; [by rewrite Z.eqb_refl|].
      rewrite (sp_owned _ _ S p r Hp : page_owned _ _ = _). apply orb_true_r.
    + intros p. rewrite lookup_insert_Some. split; [by intros [[_ ?]|[_ ?]]|]. intros Hp. right. split; [congruence|done].
    + exact Hwk.
    + exact ET.
    + exact Hr.
  - intros p Hp Hpl. split; [unfold owned in *; change (pg_memory s4) with (linked_table m1 t d (v / 1024));
      rewrite O, Hp; apply orb_true_r|]. intros j Hj. apply HWs; [done|done|left]. intros ->. by specialize (Hpl _ Hd).
Qed.

(** The number of resident pages when only page [v] of [d] changes. *)
Lemma residents_change W' :
  (∀ c n, is_dir roles c → 0 ≤ n < 2 ^ 20 → c ≠ d ∨ n ≠ v → walk W' c n = walk (words s) c n) →
  residents W' (live (user_directories s)) = u_active_pages (user_paging_stats s)
    - (if user_mapped (words s) d v then 1 else 0) + (if user_mapped W' d v then 1 else 0) ∧
  0 ≤ residents W' (live (user_directories s)) < 2 ^ 31.
Proof.
  intros HW. rewrite (sp_pages _ _ S). unfold residents. split.
  - rewrite (total_change (λ a, resident (words s) (a / PAGE_SIZE)) (λ a, resident W' (a / PAGE_SIZE)) _ (d * PAGE_SIZE)).
    + rewrite page_of_address, (resident_change (words s) W' d v); [lia|lia|].
      intros n Hn Hne. apply HW; [by right|done|by right].
    + apply S.
    + by apply (user_live s roles S).
    + intros a (p & -> & Hp)%(sp_users _ _ S) Hne. rewrite page_of_address. apply resident_ext. intros n Hn.
      apply HW; [by right|done|left]. by intros ->.
  - destruct (sp_length _ _ S) as [Hlen _]. pose proof (live_length (user_directories s)).
    pose proof (residents_range W' (live (user_directories s))) as Hb. unfold residents in Hb. lia.
Qed.

Lemma put_page f t wr :
  roles !! t = Some (UserTable d (v / 1024)) → owned s f = true → roles !! f = None →
  entry_present (words s t (v mod 1024)) = false →
  let m' := put_word (pg_memory s) t (v mod 1024) (entry_fill (words s t (v mod 1024)) f wr true) in
  let s' := user_stat (s <| pg_memory := m' |>) (set u_active_pages (λ n, n +w 1)) in
  run (pg_memory s') mem_live ∧ space s' (<[f := UserFrame d v]> roles) ∧
  (∀ q, owned s' q = owned s q) ∧ kept s s' (plain roles) ∧
  ∀ c n, is_dir roles c → 0 ≤ n < 2 ^ 20 →
    walk (words s') c n = if (c =? d) && (n =? v) then Some (Mapping f wr true) else walk (words s) c n.
Proof.
  intros Ht Hf Hfn Hp m' s'. pose proof (page_parts v ltac:(lia)) as [Hi Hj]. pose proof (owned_range s mem_live Hr f Hf) as Hfr.
  set (e := entry_fill (words s t (v mod 1024)) f wr true) in *.
  destruct (entry_fill_spec (words s t (v mod 1024)) f wr true ltac:(lia)) as (E1 & E2 & E3 & E4). fold e in E1, E2, E3, E4.
  destruct (put_word_law _ mem_live Hr t (v mod 1024) e (sp_owned _ _ S t _ Ht) Hj) as [R O].
  assert (∀ q k, 0 ≤ k < 1024 → word m' q k = if (q =? t) && (k =? v mod 1024) then e else words s q k) as HW.
  { intros q k Hk. unfold m'. rewrite word_put by done. destruct (_ && _); [|done]. apply u32_small.
    apply (entry_fill_range (words s t (v mod 1024)) f wr true). lia. }
  assert (word m' t (v mod 1024) = e) as He by (by rewrite HW, !Z.eqb_refl).
  assert (∀ q k, 0 ≤ k < 1024 → q ≠ t ∨ k ≠ v mod 1024 → word m' q k = words s q k) as Hne.
  { intros q k Hk Hqk. rewrite HW by done. by replace (_ && _) with false by lia. }
  assert (changed (words s) (word m') roles t (v mod 1024)) as HC by (intros q r k _ _ Hk Hqk; by apply Hne).
  assert (∀ c n, is_dir roles c → 0 ≤ n < 2 ^ 20 →
    walk (word m') c n = if (c =? d) && (n =? v) then Some (Mapping f wr true) else walk (words s) c n) as Hwk.
  { intros c n Hc Hn. rewrite (walk_changed _ _ _ _ (sp_linked _ _ S) t d (v / 1024) (v mod 1024)) by done.
    rewrite <-page_index_split. destruct (_ && _); [|done]. cbn zeta. by rewrite He, E1, E2, E3, E4. }
  destruct (residents_change (word m')) as [En Hn].
  { intros c n Hc Hn Hcn. rewrite Hwk by done. by replace (_ && _) with false by lia. }
  assert (user_mapped (words s) d v = false) as U0.
  { unfold user_mapped. destruct (lk_utable _ _ _ (sp_linked _ _ S) t d _ Ht) as (_ & _ & _ & Hl & _).
    rewrite (walk_via _ _ _ t true) by done. cbn zeta. by rewrite Hp. }
  assert (user_mapped (word m') d v = true) as U1.
  { unfold user_mapped. rewrite Hwk by (try lia; by right). by rewrite !Z.eqb_refl. }
  assert (mi_total_memory (mem_info m') = mi_total_memory (mem_info (pg_memory s))) as ET by done.
  assert (∀ n, 0 ≤ n < 2 ^ 20 → walk (word m') (kernel_page s) n = walk (words s) (kernel_page s) n) as Hwkp.
  { intros n Hn'. pose proof (kernel_page_role s roles S). rewrite Hwk by (done || by left).
    replace (kernel_page s =? d) with false; [done|]. symmetry. apply Z.eqb_neq. congruence. }
  rewrite U0, U1 in En. split; [exact R|]. split; [|split; [exact O|split; [|exact Hwk]]].
  - assert (s' = user_stat (s <| pg_memory := m' |>) (set u_active_pages (λ _, residents (word m') (live (user_directories s))))) as ->.
    { unfold s', user_stat, set. cbn. do 2 f_equal. rewrite En, u32_small; lia. }
    apply (space_update s mem_live roles); [done| | | |done|exact ET|exact Hwkp|exact Hr].
    + rewrite (page_index_split v) at 1. apply (linked_map (words s) (word m') _ roles (sp_linked _ _ S) f t); try done; congruence.
    + intros p r. rewrite O, lookup_insert_Some. intros [[<- _]|[_ Hpr]]; [done|]. apply (sp_owned _ _ S p r Hpr).
    + intros p. rewrite lookup_insert_Some. split; [by intros [[_ ?]|[_ ?]]|]. intros Hpu. right. split; [congruence|done].
  - intros p Hpo Hpl. split; [unfold owned; by rewrite O|]. intros k Hk. apply Hne; [done|left]. intros ->. by specialize (Hpl _ Ht).
Qed.
End map.

Lemma accounted_grow s s' roles roles' :
  roles ⊆ roles' → (∀ p, roles' !! p = None → owned s' p = owned s p) → accounted s s' roles roles'.
Proof.
  intros Hsub Ho p Hp. rewrite bool_decide_false; [by apply Ho|]. intros [r Hr].
  by rewrite (lookup_weaken _ _ _ _ Hr Hsub) in Hp.
Qed.

Section map_call.
Context (s : paging_t) (mem_live : gmap Z (list Z)) (roles : gmap Z role).
Context (Hr : run (pg_memory s) mem_live) (S : space s roles).
Context (d v : Z) (Hd : roles !! d = Some UserDirectory) (Hv : 2048 ≤ v < 4096).

(** What mapping frame [f] at page [v] of [d] can do. *)
Inductive map_result (f : Z) (wr : bool) : paging_t → status → Prop :=
| map_refused :
    is_Some (walk (words s) d v) → map_result f wr s ERR_STATE
| map_no_memory m1 :
    words s d (v / 1024) = 0 → pmm_alloc_page_in_zone (pg_memory s) MEMORY_ZONE_PROCESS = (m1, 0) →
    map_result f wr (s <| pg_memory := m1 |>) ERR_MEM
| map_done s' roles' :
    walk (words s) d v = None →
    run (pg_memory s') mem_live → space s' roles' → roles ⊆ roles' → roles' !! f = Some (UserFrame d v) →
    (∀ p, is_Some (roles' !! p) → is_Some (roles !! p) ∨ p = f ∨ owned s p = false) →
    (∀ p, roles' !! p = Some UserDirectory ↔ roles !! p = Some UserDirectory) →
    accounted s s' roles roles' → kept s s' (plain roles) → same_registers s s' →
    (∀ c n, is_dir roles c → 0 ≤ n < 2 ^ 20 →
       walk (words s') c n = if (c =? d) && (n =? v) then Some (Mapping f wr true) else walk (words s) c n) →
    map_result f wr s' OK.

(** The tests of [paging_map_page_in_directory] before it looks at the entry. *)
Lemma map_unfold f flags :
  owned s f = true → flags &w ~w 0x07 = 0 → has flags PAGING_FLAG_USER = true →
  paging_map_page_in_directory s (d * PAGE_SIZE) (v * PAGE_SIZE) (f * PAGE_SIZE) flags =
    let e := words s d (v / 1024) in
    if negb (e =? 0) && negb (entry_user e) then (s, ERR_STATE) else
    let '(s, page) := paging_get_page_in_directory s (d * PAGE_SIZE) (v * PAGE_SIZE) true in
    if page =? 0 then (s, ERR_MEM) else
    if entry_present (load_word s page) then (s, ERR_STATE) else
    let s := if negb (entry_present e)
             then set_dir_entry s (d * PAGE_SIZE) (v / 1024) (dir_entry s (d * PAGE_SIZE) (v / 1024) |w PAGING_FLAG_USER) else s in
    (user_stat (store_word s page (entry_fill (load_word s page) f (has flags PAGING_FLAG_WRITE) true))
       (set u_active_pages (λ n, n +w 1)), OK).
Proof.
  intros Hf Hfl Hu. unfold paging_map_page_in_directory. rewrite (address_nonzero s mem_live roles Hr S _ _ Hd).
  unfold PAGE_SIZE at 2 4. rewrite !Z.mod_mul by lia. cbn [Z.eqb negb orb]. rewrite Hfl. cbn [Z.eqb negb]. rewrite Hu.
  replace (v * PAGE_SIZE <? USER_SPACE_START) with false by (unfold PAGE_SIZE, USER_SPACE_START; lia).
  replace (v * PAGE_SIZE >=? USER_SPACE_END) with false by (unfold PAGE_SIZE, USER_SPACE_END; lia).
  rewrite (registered_user s roles S) by done. cbn [negb orb andb]. rewrite table_index_page, page_of_address.
  change (dir_entry s (d * PAGE_SIZE) (v / 1024)) with (words s d (v / 1024)). rewrite has_user, has_present.
  cbn zeta. destruct (negb _ && negb _); [done|]. destruct (paging_get_page_in_directory _ _ _ _) as [s1 page].
  destruct (page =? 0); [done|]. destruct (entry_present (load_word s1 page)); [done|]. by rewrite andb_true_r.
Qed.

(** A page in a table that is there. *)
Lemma map_in_table f t wr :
  roles !! t = Some (UserTable d (v / 1024)) → owned s f = true → roles !! f = None →
  entry_present (words s t (v mod 1024)) = false →
  map_result f wr
    (user_stat (s <| pg_memory := put_word (pg_memory s) t (v mod 1024) (entry_fill (words s t (v mod 1024)) f wr true) |>)
       (set u_active_pages (λ n, n +w 1))) OK.
Proof.
  intros Ht Hf Hfn Hp. destruct (put_page s mem_live roles Hr S d v Hd Hv f t wr Ht Hf Hfn Hp) as (R & S' & O & K & Hw).
  destruct (lk_utable _ _ _ (sp_linked _ _ S) t d _ Ht) as (_ & _ & Hk & Hl & _).
  apply (map_done f wr _ (<[f := UserFrame d v]> roles)); [|exact R|exact S'|by apply insert_subseteq|apply lookup_insert_eq| | | |exact K|by split|exact Hw].
  - rewrite (walk_via _ _ _ t true) by done. cbn zeta. by rewrite Hp.
  - intros p [r Hpr]. apply lookup_insert_Some in Hpr as [[<- _]|[_ Hpr]]; [by right; left|left; by eexists].
  - intros p. rewrite lookup_insert_Some. split; [by intros [[_ ?]|[_ ?]]|]. intros Hpu. right. split; [congruence|done].
  - apply accounted_grow; [by apply insert_subseteq|]. intros p _. apply O.
Qed.

(** A page in a new table. *)
Lemma map_in_new_table f m1 t wr :
  words s (kernel_page s) (v / 1024) = 0 → words s d (v / 1024) = 0 → owned s f = true → roles !! f = None →
  pmm_alloc_page_in_zone (pg_memory s) MEMORY_ZONE_PROCESS = (m1, t * PAGE_SIZE) → t * PAGE_SIZE ≠ 0 →
  let m4 := linked_table m1 t d (v / 1024) in
  map_result f wr
    (user_stat (s <| pg_memory := put_word m4 t (v mod 1024) (entry_fill 0 f wr true) |>) (set u_active_pages (λ n, n +w 1))) OK.
Proof.
  intros Hk Hdi Hf Hfn Ea Hne m4. pose proof (page_parts v ltac:(lia)) as [Hi Hj].
  destruct (new_table s mem_live roles Hr S d v Hd Hv m1 t Hk Hdi Ea Hne) as (R4 & S4 & Ht0 & O4 & K4 & Z4 & W4).
  set (s4 := s <| pg_memory := linked_table m1 t d (v / 1024) |>) in *.
  set (roles4 := <[t := UserTable d (v / 1024)]> roles) in *.
  pose proof (unowned_role s roles S t Ht0) as Htn.
  assert (∀ p r, roles !! p = Some r → roles4 !! p = Some r) as Hold
    by (intros p r Hp; apply lookup_insert_Some; right; split; [congruence|done]).
  assert (owned s4 f = true) as Hf4 by (rewrite O4, Hf; apply orb_true_r).
  assert (f ≠ t) as Hft by congruence.
  destruct (put_page s4 mem_live roles4 R4 S4 d v (Hold _ _ Hd) Hv f t wr) as (R & S' & O & K & Hw).
  { apply lookup_insert_eq. } { done. } { unfold roles4. by rewrite lookup_insert_ne. } { by rewrite Z4. }
  rewrite (Z4 _ Hj) in R, S', O, K, Hw.
  assert (roles ⊆ <[f := UserFrame d v]> roles4) as Hsub.
  { apply insert_subseteq_r; [done|]. by apply insert_subseteq. }
  apply (map_done f wr _ (<[f := UserFrame d v]> roles4)); [by apply walk_absent|exact R|exact S'|exact Hsub|apply lookup_insert_eq| | | | |by split|].
  - intros p [r Hpr]. apply lookup_insert_Some in Hpr as [[<- _]|[_ Hpr]]; [by right; left|].
    apply lookup_insert_Some in Hpr as [[<- _]|[_ Hpr]]; [by right; right|left; by eexists].
  - intros p. unfold roles4. rewrite !lookup_insert_Some. split; [by intros [[_ ?]|[_ [[_ ?]|[_ ?]]]]|]. intros Hpu. right.
    split; [congruence|]. right. split; [congruence|done].
  - apply accounted_grow; [exact Hsub|]. intros p Hp. rewrite O, O4.
    apply lookup_insert_None in Hp as [Hp _]. apply lookup_insert_None in Hp as [_ Hp]. by replace (p =? t) with false by lia.
  - intros p Hp Hpl. destruct (K4 p Hp Hpl) as [K1 K2]. destruct (K p K1) as [K3 K5].
    { intros r. unfold roles4. rewrite lookup_insert_Some. intros [[-> _]|[_ Hpr]]; [congruence|by apply Hpl]. }
    split; [exact K3|]. intros j Hjr. rewrite K5, K2 by done. done.
  - intros c n Hc Hn. rewrite <-(W4 c n Hc Hn). apply Hw; [|done]. destruct Hc as [Hc|Hc]; [left|right]; by apply Hold.
Qed.

(** The state after a new table is linked, as the code builds it. *)
Lemma new_table_state m1 t :
  words s d (v / 1024) = 0 → pmm_alloc_page_in_zone (pg_memory s) MEMORY_ZONE_PROCESS = (m1, t * PAGE_SIZE) → t * PAGE_SIZE ≠ 0 →
  let s1 := s <| pg_memory := put_word (zero_page m1 t) d (v / 1024) (t * PAGE_SIZE + 3) |> in
  let s4 := s <| pg_memory := linked_table m1 t d (v / 1024) |> in
  load_word s1 (entry_address (t * PAGE_SIZE) (v mod 1024)) = 0 ∧
  set_dir_entry s1 (d * PAGE_SIZE) (v / 1024) (dir_entry s1 (d * PAGE_SIZE) (v / 1024) |w PAGING_FLAG_USER) = s4 ∧
  load_word s4 (entry_address (t * PAGE_SIZE) (v mod 1024)) = 0.
Proof.
  intros Hdi Ea Hne s1 s4. pose proof (page_parts v ltac:(lia)) as [Hi Hj].
  destruct (linked_table_law _ mem_live m1 t d (v / 1024) Hr (sp_owned _ _ S d _ Hd) Hi Ea Hne) as [_ Hfree Ht _ Hz _ _ _].
  assert (t ≠ d) as Htd by (pose proof (sp_owned _ _ S d _ Hd); unfold owned in *; congruence).
  split; [|split; [|by apply Hz]].
  - change (word (put_word (zero_page m1 t) d (v / 1024) (t * PAGE_SIZE + 3)) t (v mod 1024) = 0).
    rewrite word_put, word_zero, Z.eqb_refl by done. by replace (t =? d) with false by lia.
  - assert (dir_entry s1 (d * PAGE_SIZE) (v / 1024) = t * PAGE_SIZE + 3) as ->.
    { change (word (put_word (zero_page m1 t) d (v / 1024) (t * PAGE_SIZE + 3)) d (v / 1024) = t * PAGE_SIZE + 3).
      rewrite word_put, !Z.eqb_refl by done. apply u32_small. unfold PAGE_SIZE. lia. }
    by rewrite lor_user.
Qed.

Lemma entry_address_nonzero t j : 0 < t → 0 ≤ j → (entry_address (t * PAGE_SIZE) j =? 0) = false.
Proof. intros. unfold entry_address, PAGE_SIZE. lia. Qed.

Lemma map_user f flags s' st :
  owned s f = true → roles !! f = None → flags &w ~w 0x07 = 0 → has flags PAGING_FLAG_USER = true →
  paging_map_page_in_directory s (d * PAGE_SIZE) (v * PAGE_SIZE) (f * PAGE_SIZE) flags = (s', st) →
  map_result f (has flags PAGING_FLAG_WRITE) s' st.
Proof.
  intros Hf Hfn Hfl Hu E. rewrite map_unfold in E by done. cbn zeta in E. pose proof (page_parts v ltac:(lia)) as [Hi Hj].
  destruct (lk_uentry _ _ _ (sp_linked _ _ S) d _ Hd Hi) as [Ed|(Hk & _ & t & Hl & Ht)].
  - destruct (lk_kentry _ _ _ (sp_linked _ _ S) _ Hi) as [K0|(t & Hl & _)].
    + rewrite K0 in Ed. rewrite Ed in E. change (entry_present 0) with false in E. cbn [negb andb Z.eqb] in E.
      destruct (pmm_alloc_page_in_zone (pg_memory s) MEMORY_ZONE_PROCESS) as [m1 a] eqn:Ea.
      rewrite (get_page_create s mem_live roles Hr S d v m1 a) in E by (done || lia).
      destruct (Z.eqb_spec a 0) as [Ha|Ha]; [rewrite Ha in Ea; injection E as <- <-; by apply map_no_memory|].
      destruct (alloc_page_law _ _ Hr _ _ _ Ea) as (_ & _ & _ & [[? _]|(t & Et & Ht & _)]); [done|]. rewrite Et in *.
      rewrite page_of_address in E. destruct (new_table_state m1 t Ed Ea Ha) as (L1 & E4 & L4).
      rewrite entry_address_nonzero, L1, E4, L4 in E by lia. injection E as <- <-. by apply map_in_new_table.
    + rewrite (lk_window _ _ _ (sp_linked _ _ S)) in Hl by divlia. by apply links_zero in Hl.
  - rewrite (ln_user _ _ _ Hl), andb_false_r in E.
    rewrite (get_page_table s mem_live roles Hr S d v t true _ true (or_intror Hd) Hl Ht) in E by lia.
    pose proof (role_range s mem_live roles Hr S t _ Ht). rewrite entry_address_nonzero in E by lia.
    change (load_word s (entry_address (t * PAGE_SIZE) (v mod 1024))) with (words s t (v mod 1024)) in E.
    rewrite (ln_present _ _ _ Hl) in E. cbn [negb] in E. destruct (entry_present (words s t (v mod 1024))) eqn:Ep.
    + injection E as <- <-. apply map_refused. rewrite (walk_via _ _ _ t true) by done. cbn zeta. rewrite Ep. by eexists.
    + injection E as <- <-. by apply map_in_table.
Qed.
End map_call.

(** ** Unmapping a page *)

Lemma free_page_memory s a : free_page s a = s <| pg_memory := pmm_free_page (pg_memory s) a |>.
Proof. done. Qed.

(** Freeing a page with a role leaves the other pages as they are. *)
Lemma free_page_kept m mem_live p :
  run m mem_live → page_owned m p = true →
  let m' := pmm_free_page m (p * PAGE_SIZE) in
  run m' mem_live ∧ (∀ q, page_owned m' q = negb (q =? p) && page_owned m q) ∧
  (∀ q j, page_owned m q = true → 0 ≤ j < 1024 → word m' q j = word m q j) ∧
  mi_total_memory (mem_info m') = mi_total_memory (mem_info m).
Proof. intros Hr Hp m'. destruct (free_page_law m mem_live Hr p Hp) as (? & ? & ? & ?). by split. Qed.

Section unmap.
Context (s : paging_t) (mem_live : gmap Z (list Z)) (roles : gmap Z role).
Context (Hr : run (pg_memory s) mem_live) (S : space s roles).
Context (d v : Z) (Hd : roles !! d = Some UserDirectory) (Hv : 2048 ≤ v < 4096).

(** The entry is cleared and the frame freed. *)
Lemma clear_page t f :
  roles !! t = Some (UserTable d (v / 1024)) → entry_present (words s t (v mod 1024)) = true →
  entry_frame (words s t (v mod 1024)) = f →
  let m' := pmm_free_page (put_word (pg_memory s) t (v mod 1024) 0) (f * PAGE_SIZE) in
  let s' := user_stat (s <| pg_memory := m' |>) (set u_active_pages (λ n, n -w 1)) in
  u_active_pages (user_paging_stats s) ≠ 0 ∧ roles !! f = Some (UserFrame d v) ∧
  run (pg_memory s') mem_live ∧ space s' (delete f roles) ∧
  (∀ q, owned s' q = negb (q =? f) && owned s q) ∧ kept s s' (λ p, plain roles p ∧ p ≠ f) ∧
  (words s' t (v mod 1024) = 0) ∧ (∀ k, 0 ≤ k < 1024 → k ≠ v mod 1024 → words s' t k = words s t k) ∧
  ∀ c n, is_dir roles c → 0 ≤ n < 2 ^ 20 → walk (words s') c n = if (c =? d) && (n =? v) then None else walk (words s) c n.
Proof.
  intros Ht Hp Hfr m' s'. pose proof (page_parts v ltac:(lia)) as [Hi Hj].
  destruct (lk_utable _ _ _ (sp_linked _ _ S) t d _ Ht) as (_ & _ & _ & Hl & Htj).
  assert (roles !! f = Some (UserFrame d v)) as Hf.
  { destruct (Htj _ Hj) as [|[_ Hf]]; [congruence|]. by rewrite Hfr, <-page_index_split in Hf. }
  assert (t ≠ f) as Htf by congruence.
  destruct (put_word_law _ mem_live Hr t (v mod 1024) 0 (sp_owned _ _ S t _ Ht) Hj) as [R1 O1].
  destruct (free_page_kept _ mem_live f R1) as (R2 & O2 & W2 & ET); [rewrite O1; by eapply sp_owned|]. fold m' in R2, O2, W2, ET.
  assert (∀ q, page_owned m' q = negb (q =? f) && owned s q) as O by (intros q; rewrite O2, O1; done).
  assert (∀ q k, owned s q = true → 0 ≤ k < 1024 → word m' q k = if (q =? t) && (k =? v mod 1024) then 0 else words s q k) as HW.
  { intros q k Hq Hk. rewrite W2, word_put by (done || by rewrite O1). done. }
  assert (word m' t (v mod 1024) = 0) as He by (rewrite HW, !Z.eqb_refl by (done || by eapply sp_owned); done).
  assert (∀ q k, owned s q = true → 0 ≤ k < 1024 → q ≠ t ∨ k ≠ v mod 1024 → word m' q k = words s q k) as Hne.
  { intros q k Hq Hk Hqk. rewrite HW by done. by replace (_ && _) with false by lia. }
  assert (changed (words s) (word m') roles t (v mod 1024)) as HC
    by (intros q r k Hq _ Hk Hqk; apply Hne; [by eapply sp_owned|done|done]).
  assert (∀ c n, is_dir roles c → 0 ≤ n < 2 ^ 20 →
    walk (word m') c n = if (c =? d) && (n =? v) then None else walk (words s) c n) as Hwk.
  { intros c n Hc Hn. rewrite (walk_changed _ _ _ _ (sp_linked _ _ S) t d (v / 1024) (v mod 1024)) by done.
    rewrite <-page_index_split. destruct (_ && _); [|done]. cbn zeta. by rewrite He. }
  destruct (residents_change s roles S d v Hd Hv (word m')) as [En Hn].
  { intros c n Hc Hn Hcn. rewrite Hwk by done. by replace (_ && _) with false by lia. }
  assert (user_mapped (words s) d v = true) as U0.
  { unfold user_mapped. destruct (frame_walk _ _ _ (sp_linked _ _ S) f d v Hf) as (rw & -> & _). done. }
  assert (user_mapped (word m') d v = false) as U1.
  { unfold user_mapped. rewrite Hwk by (lia || by right). by rewrite !Z.eqb_refl. }
  assert (∀ n, 0 ≤ n < 2 ^ 20 → walk (word m') (kernel_page s) n = walk (words s) (kernel_page s) n) as Hwkp.
  { intros n Hn'. pose proof (kernel_page_role s roles S). rewrite Hwk by (done || by left).
    replace (kernel_page s =? d) with false; [done|]. symmetry. apply Z.eqb_neq. congruence. }
  rewrite U0, U1 in En. split; [lia|]. split; [done|]. split; [exact R2|]. split; [|split; [exact O|split; [|split; [exact He|split]]]].
  - assert (s' = user_stat (s <| pg_memory := m' |>) (set u_active_pages (λ _, residents (word m') (live (user_directories s))))) as ->.
    { unfold s', user_stat, set. cbn. do 2 f_equal. rewrite En, u32_small; lia. }
    apply (space_update s mem_live roles); [done| | | |done|exact ET|exact Hwkp|exact Hr].
    + apply (linked_unmap (words s) (word m') _ roles (sp_linked _ _ S) f t d (v / 1024) (v mod 1024)); try done. by rewrite He.
    + intros p r [Hpf Hpr]%lookup_delete_Some. rewrite O, (sp_owned _ _ S p r Hpr). by replace (p =? f) with false by lia.
    + intros p. rewrite lookup_delete_Some. split; [by intros []|]. intros Hpu. split; [congruence|done].
  - intros p Hpo [Hpl Hpf]. split; [change (page_owned m' p = true); rewrite O, Hpo; by replace (p =? f) with false by lia|].
    intros k Hk. apply Hne; [done|done|left]. intros ->. by specialize (Hpl _ Ht).
  - intros k Hk Hkj. apply Hne; [by eapply sp_owned|done|by right].
  - exact Hwk.
Qed.

(** An empty table is unlinked and freed. *)
Lemma drop_table t :
  roles !! t = Some (UserTable d (v / 1024)) → (∀ k, 0 ≤ k < 1024 → entry_present (words s t k) = false) →
  let m' := pmm_free_page (put_word (pg_memory s) d (v / 1024) 0) (t * PAGE_SIZE) in
  let s' := s <| pg_memory := m' |> in
  run (pg_memory s') mem_live ∧ space s' (delete t roles) ∧
  (∀ q, owned s' q = negb (q =? t) && owned s q) ∧ kept s s' (plain roles) ∧
  ∀ c n, is_dir roles c → 0 ≤ n < 2 ^ 20 → walk (words s') c n = walk (words s) c n.
Proof.
  intros Ht Hz m' s'. pose proof (page_parts v ltac:(lia)) as [Hi _].
  assert (d ≠ t) as Hdt by congruence.
  destruct (put_word_law _ mem_live Hr d (v / 1024) 0 (sp_owned _ _ S d _ Hd) Hi) as [R1 O1].
  destruct (free_page_kept _ mem_live t R1) as (R2 & O2 & W2 & ET); [rewrite O1; by eapply sp_owned|]. fold m' in R2, O2, W2, ET.
  assert (∀ q, page_owned m' q = negb (q =? t) && owned s q) as O by (intros q; rewrite O2, O1; done).
  assert (∀ q k, owned s q = true → 0 ≤ k < 1024 → word m' q k = if (q =? d) && (k =? v / 1024) then 0 else words s q k) as HW.
  { intros q k Hq Hk. rewrite W2, word_put by (done || by rewrite O1). done. }
  assert (word m' d (v / 1024) = 0) as He by (rewrite HW, !Z.eqb_refl by (done || by eapply sp_owned); done).
  assert (∀ q k, owned s q = true → 0 ≤ k < 1024 → q ≠ d ∨ k ≠ v / 1024 → word m' q k = words s q k) as Hne.
  { intros q k Hq Hk Hqk. rewrite HW by done. by replace (_ && _) with false by lia. }
  assert (changed (words s) (word m') (delete t roles) d (v / 1024)) as HC
    by (intros q r k [_ Hq]%lookup_delete_Some _ Hk Hqk; apply Hne; [by eapply sp_owned|done|done]).
  assert (∀ c n, is_dir roles c → 0 ≤ n < 2 ^ 20 → walk (word m') c n = walk (words s) c n) as Hwk.
  { intros c n Hc Hn. by apply (walk_del_table _ _ _ _ (sp_linked _ _ S) t d (v / 1024)). }
  split; [exact R2|]. split; [|split; [exact O|split; [|exact Hwk]]].
  - apply (space_memory s mem_live roles); [done|..].
    + by apply (linked_del_table (words s) (word m') _ roles (sp_linked _ _ S) t d (v / 1024)).
    + intros p r [Hpf Hpr]%lookup_delete_Some. rewrite O, (sp_owned _ _ S p r Hpr). by replace (p =? t) with false by lia.
    + intros p. rewrite lookup_delete_Some. split; [by intros []|]. intros Hpu. split; [congruence|done].
    + exact Hwk.
    + exact ET.
    + exact Hr.
  - intros p Hpo Hpl. assert (p ≠ t) by (intros ->; by specialize (Hpl _ Ht)).
    split; [change (page_owned m' p = true); rewrite O, Hpo; by replace (p =? t) with false by lia|].
    intros k Hk. apply Hne; [done|done|left]. intros ->. by specialize (Hpl _ Hd).
Qed.
End unmap.

Section unmap_call.
Context (s : paging_t) (mem_live : gmap Z (list Z)) (roles : gmap Z role).
Context (Hr : run (pg_memory s) mem_live) (S : space s roles).
Context (d v : Z) (Hd : roles !! d = Some UserDirectory) (Hv : 2048 ≤ v < 4096).

Inductive unmap_result : paging_t → status → Prop :=
| unmap_absent : user_mapped (words s) d v = false → unmap_result s ERR_NOT_FOUND
| unmap_done f rw s' roles' :
    walk (words s) d v = Some (Mapping f rw true) → run (pg_memory s') mem_live → space s' roles' →
    roles' ⊆ delete f roles → (∀ g c n, roles !! g = Some (UserFrame c n) → g ≠ f → roles' !! g = Some (UserFrame c n)) →
    (∀ p, roles' !! p = Some UserDirectory ↔ roles !! p = Some UserDirectory) →
    accounted s s' roles roles' → kept s s' (λ p, plain roles p ∧ p ≠ f) → same_registers s s' →
    (∀ c n, is_dir roles c → 0 ≤ n < 2 ^ 20 → walk (words s') c n = if (c =? d) && (n =? v) then None else walk (words s) c n) →
    unmap_result s' OK.

Lemma unmap_unfold :
  paging_unmap_user_page_in_directory s (d * PAGE_SIZE) (v * PAGE_SIZE) =
    let e := words s d (v / 1024) in
    if negb (entry_present e) || negb (entry_user e) then (s, ERR_NOT_FOUND) else
    let table := entry_table e in
    if table =? 0 then (s, ERR_STATE) else
    let page := entry_address table (v mod 1024) in
    if negb (entry_present (load_word s page)) || negb (entry_user (load_word s page)) then (s, ERR_NOT_FOUND) else
    let physical := entry_frame (load_word s page) *w PAGE_SIZE in
    let s := free_page (store_word s page 0) physical in
    let s := if u_active_pages (user_paging_stats s) =? 0 then s else user_stat s (set u_active_pages (λ n, n -w 1)) in
    let shared := if kernel_directory s =? 0 then 0 else dir_entry s (kernel_directory s) (v / 1024) in
    if negb (table =? entry_table shared) && paging_table_is_empty s table then
      (free_page (set_dir_entry s (d * PAGE_SIZE) (v / 1024) 0) table, OK)
    else (s, OK).
Proof.
  unfold paging_unmap_user_page_in_directory. rewrite (address_nonzero s mem_live roles Hr S _ _ Hd).
  rewrite (registered_user s roles S) by done. unfold PAGE_SIZE at 2. rewrite Z.mod_mul by lia.
  replace (v * PAGE_SIZE <? USER_SPACE_START) with false by (unfold PAGE_SIZE, USER_SPACE_START; lia).
  replace (v * PAGE_SIZE >=? USER_SPACE_END) with false by (unfold PAGE_SIZE, USER_SPACE_END; lia).
  cbn [negb orb Z.eqb]. rewrite table_index_page, page_index_page.
  change (dir_entry s (d * PAGE_SIZE) (v / 1024)) with (words s d (v / 1024)). by rewrite has_user, has_present.
Qed.

Lemma table_empty_spec (x : paging_t) t :
  (t * PAGE_SIZE =? 0) = false →
  paging_table_is_empty x (t * PAGE_SIZE) = true ↔ ∀ k, 0 ≤ k < 1024 → entry_present (words x t k) = false.
Proof.
  intros Ht. unfold paging_table_is_empty. rewrite Ht. change (forallb ?f (range ?a ?b)) with (all_range a b f).
  rewrite all_range_spec. by setoid_rewrite negb_true_iff.
Qed.

Lemma plain_delete p q : plain roles p → plain (delete q roles) p.
Proof. intros Hpl r [_ Hpr]%lookup_delete_Some. by apply Hpl. Qed.

Lemma is_dir_delete f r c : roles !! f = Some r → r ≠ KernelDirectory → r ≠ UserDirectory → is_dir roles c → is_dir (delete f roles) c.
Proof. intros Hf H1 H2 [Hc|Hc]; [left|right]; (apply lookup_delete_Some; split; [congruence|done]). Qed.

(** The frame is gone. *)
Lemma unmap_frame f s3 :
  roles !! f = Some (UserFrame d v) → run (pg_memory s3) mem_live → space s3 (delete f roles) →
  (∀ q, owned s3 q = negb (q =? f) && owned s q) → kept s s3 (λ p, plain roles p ∧ p ≠ f) → same_registers s s3 →
  (∀ c n, is_dir roles c → 0 ≤ n < 2 ^ 20 → walk (words s3) c n = if (c =? d) && (n =? v) then None else walk (words s) c n) →
  unmap_result s3 OK.
Proof.
  intros Hf R3 S3 O3 K3 E3 W3. destruct (frame_walk _ _ _ (sp_linked _ _ S) f d v Hf) as (rw & Hw & _).
  apply (unmap_done f rw _ (delete f roles) Hw); [exact R3|exact S3|done| | | |exact K3|exact E3|exact W3].
  - intros g c n Hg Hgf. by apply lookup_delete_Some.
  - intros p. rewrite lookup_delete_Some. split; [by intros (_ & ?)|]. intros Hpu. split; congruence.
  - intros p Hp'. rewrite O3. destruct (decide (p = f)) as [->|Hpf].
    { rewrite bool_decide_true by (by eexists). by rewrite Z.eqb_refl. }
    rewrite lookup_delete_ne in Hp' by done. rewrite bool_decide_false by (rewrite Hp'; by intros []).
    by replace (p =? f) with false by lia.
Qed.

(** The frame and its table are gone. *)
Lemma unmap_frame_table f t s3 s4 :
  roles !! f = Some (UserFrame d v) → roles !! t = Some (UserTable d (v / 1024)) →
  (∀ q, owned s3 q = negb (q =? f) && owned s q) → kept s s3 (λ p, plain roles p ∧ p ≠ f) →
  (∀ c n, is_dir roles c → 0 ≤ n < 2 ^ 20 → walk (words s3) c n = if (c =? d) && (n =? v) then None else walk (words s) c n) →
  run (pg_memory s4) mem_live → space s4 (delete t (delete f roles)) →
  (∀ q, owned s4 q = negb (q =? t) && owned s3 q) → kept s3 s4 (plain (delete f roles)) → same_registers s s4 →
  (∀ c n, is_dir (delete f roles) c → 0 ≤ n < 2 ^ 20 → walk (words s4) c n = walk (words s3) c n) →
  unmap_result s4 OK.
Proof.
  intros Hf Ht O3 K3 W3 R4 S4 O4 K4 E4 W4. destruct (frame_walk _ _ _ (sp_linked _ _ S) f d v Hf) as (rw & Hw & _).
  apply (unmap_done f rw _ (delete t (delete f roles)) Hw); [exact R4|exact S4|apply delete_subseteq| | | | |exact E4|].
  - intros g c n Hg Hgf. apply lookup_delete_Some. split; [congruence|]. by apply lookup_delete_Some.
  - intros p. rewrite !lookup_delete_Some. split; [by intros (_ & _ & ?)|]. intros Hpu. repeat split; congruence.
  - intros p Hp'. rewrite O4, O3. destruct (decide (p = t)) as [->|Hpt].
    { rewrite bool_decide_true by (by eexists). by rewrite Z.eqb_refl. }
    rewrite lookup_delete_ne in Hp' by done. destruct (decide (p = f)) as [->|Hpf].
    { rewrite bool_decide_true by (by eexists). rewrite Z.eqb_refl. apply andb_false_r. }
    rewrite lookup_delete_ne in Hp' by done. rewrite bool_decide_false by (rewrite Hp'; by intros []).
    replace (p =? t) with false by lia. by replace (p =? f) with false by lia.
  - intros p Hpo [Hpl Hpf]. destruct (K3 p Hpo (conj Hpl Hpf)) as [K1 K2].
    destruct (K4 p K1 (plain_delete _ _ Hpl)) as [K5 K6]. split; [done|]. intros j Hj. rewrite K6 by done. by apply K2.
  - intros c n Hc Hn. rewrite W4, W3 by (try done; by eapply is_dir_delete). done.
Qed.

(** After the frame is freed, the table goes if it is empty. *)
Lemma unmap_finish t f :
  roles !! t = Some (UserTable d (v / 1024)) → entry_present (words s t (v mod 1024)) = true →
  entry_frame (words s t (v mod 1024)) = f →
  let s3 := user_stat (s <| pg_memory := pmm_free_page (put_word (pg_memory s) t (v mod 1024) 0) (f * PAGE_SIZE) |>)
    (set u_active_pages (λ n, n -w 1)) in
  words s3 (kernel_page s) (v / 1024) = 0 ∧ kernel_directory s3 = kernel_directory s ∧
  unmap_result (if paging_table_is_empty s3 (t * PAGE_SIZE)
    then free_page (set_dir_entry s3 (d * PAGE_SIZE) (v / 1024) 0) (t * PAGE_SIZE) else s3) OK.
Proof.
  intros Ht Hp Hfr s3. destruct (clear_page s mem_live roles Hr S d v Hd Hv t f Ht Hp Hfr)
    as (_ & Hf & R3 & S3 & O3 & K3 & _ & _ & W3). fold s3 in R3, S3, O3, K3, W3.
  assert (same_registers s s3) as E3 by done. clearbody s3.
  assert (delete f roles !! t = Some (UserTable d (v / 1024))) as Ht3 by (apply lookup_delete_Some; split; [congruence|done]).
  assert (delete f roles !! d = Some UserDirectory) as Hd3 by (apply lookup_delete_Some; split; [congruence|done]).
  split; [|split; [apply E3|]].
  { replace (kernel_page s) with (kernel_page s3) by (unfold kernel_page; by rewrite (sr_kernel _ _ E3)).
    apply (lk_utable _ _ _ (sp_linked _ _ S3) t d _ Ht3). }
  destruct (paging_table_is_empty s3 (t * PAGE_SIZE)) eqn:Ee; [|by apply (unmap_frame f)].
  rewrite table_empty_spec in Ee by (by eapply (address_nonzero s mem_live roles)).
  destruct (drop_table s3 mem_live (delete f roles) R3 S3 d v Hd3 Hv t Ht3 Ee) as (R4 & S4 & O4 & K4 & W4).
  apply (unmap_frame_table f t s3 _ Hf Ht O3 K3 W3 R4 S4 O4 K4); [|exact W4].
  split; apply E3.
Qed.

Lemma unmap_user s' st :
  paging_unmap_user_page_in_directory s (d * PAGE_SIZE) (v * PAGE_SIZE) = (s', st) → unmap_result s' st.
Proof.
  intros E. rewrite unmap_unfold in E. cbn zeta in E. pose proof (page_parts v ltac:(lia)) as [Hi Hj].
  destruct (dir_entry_cases _ _ _ (sp_linked _ _ S) d (v / 1024) (or_intror Hd) Hi) as [E0|[(t & Hl & Ht)|(t & Hl & Ht)]].
  - rewrite E0 in E. injection E as <- <-. apply unmap_absent. unfold user_mapped. by rewrite walk_absent.
  - rewrite (ln_present _ _ _ Hl), (ln_user _ _ _ Hl) in E. injection E as <- <-. apply unmap_absent.
    unfold user_mapped. rewrite (walk_via _ _ _ t false) by done. cbn zeta. by destruct (entry_present _).
  - rewrite (ln_present _ _ _ Hl), (ln_user _ _ _ Hl), (entry_table_links _ t true (words_range _ _ _) Hl) in E.
    rewrite (address_nonzero s mem_live roles Hr S t _ Ht) in E. cbn [negb orb] in E.
    change (load_word s (entry_address (t * PAGE_SIZE) (v mod 1024))) with (words s t (v mod 1024)) in E.
    destruct (lk_utable _ _ _ (sp_linked _ _ S) t d _ Ht) as (_ & _ & _ & _ & Htj).
    destruct (entry_present (words s t (v mod 1024))) eqn:Ep.
    + destruct (Htj _ Hj) as [|[Hu Hf]]; [congruence|]. rewrite Hu in E. cbn [negb orb] in E.
      pose proof (entry_frame_range _ (words_range s t (v mod 1024))) as Hfr.
      rewrite u32_small in E by (unfold PAGE_SIZE; lia).
      destruct (unmap_finish t _ Ht Ep eq_refl) as (K0 & Ek & HF).
      destruct (clear_page s mem_live roles Hr S d v Hd Hv t _ Ht Ep eq_refl) as (Hn & _).
      apply Z.eqb_neq in Hn.
      set (s1 := free_page _ _) in E. assert (u_active_pages (user_paging_stats s1) = u_active_pages (user_paging_stats s)) as Hn1 by done.
      rewrite Hn1, Hn in E. set (s3 := user_stat s1 _) in E.
      change (user_stat _ _) with s3 in K0, Ek, HF. clearbody s3.
      rewrite Ek, (sp_kernel _ _ S), (address_nonzero s mem_live roles Hr S _ _ (kernel_page_role s roles S)) in E.
      change (dir_entry s3 (kernel_page s * PAGE_SIZE) (v / 1024)) with (words s3 (kernel_page s) (v / 1024)) in E.
      rewrite K0 in E. change (entry_table 0) with 0 in E. rewrite (address_nonzero s mem_live roles Hr S t _ Ht) in E.
      cbn [negb andb] in E. destruct (paging_table_is_empty _ _); injection E as <- <-; exact HF.
    + injection E as <- <-. apply unmap_absent. unfold user_mapped. rewrite (walk_via _ _ _ t true) by done. cbn zeta. by rewrite Ep.
Qed.
End unmap_call.
