(* ===== verification/PagingDirs.v ===== *)
(** * User directories: creation, release and page counts

    [paging_create_user_directory] gives a process the kernel's map and nothing else;
    [paging_free_user_directory] returns every page of the process to the page manager
    and no other; [paging_get_user_page_count] counts the pages the process can use. *)

From S2P Require Import Prelude Registry Memory Pmm Heap HeapRefine MemorySystem PageOwner Paging PagingInv PagingCalls.

(** ** Counting the pages of a table *)

Lemma count_range_one p k : count_range k (k + 1) p = if p k then 1 else 0.
Proof. rewrite count_range_snoc, count_range_nil by lia. lia. Qed.

Section count.
Context (s : paging_t) (mem_live : gmap Z (list Z)) (roles : gmap Z role).
Context (Hr : run (pg_memory s) mem_live) (S : space s roles).
Context (d : Z) (Hd : roles !! d = Some UserDirectory).

Lemma user_mapped_table t i j :
  roles !! t = Some (UserTable d i) → 0 ≤ j < 1024 →
  user_mapped (words s) d (i * 1024 + j) = entry_present (words s t j) && entry_user (words s t j).
Proof.
  intros Ht Hj. destruct (lk_utable _ _ _ (sp_linked _ _ S) t d i Ht) as (_ & _ & _ & Hl & _). unfold user_mapped.
  rewrite (walk_via _ _ _ t true); replace ((i * 1024 + j) / 1024) with i by divlia; [|done].
  replace ((i * 1024 + j) mod 1024) with j by divlia. cbn zeta. by destruct (entry_present _).
Qed.

(** Without a table of its own, a directory has no user page there. *)
Lemma user_mapped_shared i n :
  words s d i = words s (kernel_page s) i → i * 1024 ≤ n < (i + 1) * 1024 → 0 ≤ i < 1024 → user_mapped (words s) d n = false.
Proof.
  intros E Hn Hi. assert (n / 1024 = i) as Ei by divlia. unfold user_mapped.
  destruct (lk_kentry _ _ _ (sp_linked _ _ S) i Hi) as [K|(t & Hl & _)].
  - rewrite walk_absent; [done|]. by rewrite Ei, E.
  - rewrite (walk_via _ _ _ t false) by (rewrite Ei, E; done). cbn zeta. by destruct (entry_present _).
Qed.

Lemma count_shared i :
  words s d i = words s (kernel_page s) i → 0 ≤ i < 1024 →
  count_range 0 ((i + 1) * 1024) (user_mapped (words s) d) = count_range 0 (i * 1024) (user_mapped (words s) d).
Proof.
  intros E Hi. rewrite (count_range_split 0 (i * 1024) ((i + 1) * 1024)) by lia.
  rewrite (count_range_const (i * 1024) ((i + 1) * 1024) _ false); [lia|lia|]. intros n Hn. by apply (user_mapped_shared i).
Qed.

(** The two directories have a table in common at an index, or the directory has one of
    its own. *)
Lemma entry_shared i :
  0 ≤ i < 1024 →
  (words s d i = words s (kernel_page s) i ∧
     negb (entry_present (words s d i)) || (entry_table (words s d i) =? entry_table (words s (kernel_page s) i)) = true) ∨
  ∃ t, roles !! t = Some (UserTable d i) ∧ links (words s d i) t true ∧ entry_table (words s d i) = t * PAGE_SIZE ∧
    words s (kernel_page s) i = 0 ∧ (t * PAGE_SIZE =? 0) = false ∧
    negb (entry_present (words s d i)) || (entry_table (words s d i) =? entry_table (words s (kernel_page s) i)) = false.
Proof.
  intros Hi. destruct (lk_uentry _ _ _ (sp_linked _ _ S) d i Hd Hi) as [E|(K0 & _ & t & Hl & Ht)]; [left|right].
  - split; [done|]. rewrite E, Z.eqb_refl. apply orb_true_r.
  - pose proof (address_nonzero s mem_live roles Hr S t _ Ht) as Hz. exists t.
    rewrite (entry_table_links _ t true) by (done || apply words_range). rewrite K0, (ln_present _ _ _ Hl).
    do 5 (split; [done|]). exact Hz.
Qed.

Lemma count_own t i n :
  roles !! t = Some (UserTable d i) → n = count_range 0 (i * 1024) (user_mapped (words s) d) →
  foldl (count_page s (t * PAGE_SIZE)) (inl n) (range 0 PAGING_TABLE_ENTRIES) = inl (count_range 0 ((i + 1) * 1024) (user_mapped (words s) d)).
Proof.
  intros Ht ->. destruct (lk_utable _ _ _ (sp_linked _ _ S) t d i Ht) as (_ & Hi & _).
  replace ((i + 1) * 1024) with (i * 1024 + PAGING_TABLE_ENTRIES) by (unfold PAGING_TABLE_ENTRIES; lia).
  apply (foldl_range_ind (λ j c, c = inl (count_range 0 (i * 1024 + j) (user_mapped (words s) d)))).
  - unfold PAGING_TABLE_ENTRIES. lia.
  - by rewrite Z.add_0_r.
  - intros j c Hj ->. unfold count_page. rewrite Z.add_assoc, count_range_snoc by lia.
    rewrite (user_mapped_table t i j Ht) by (unfold PAGING_TABLE_ENTRIES in Hj; lia).
    change (load_word s (entry_address (t * PAGE_SIZE) j)) with (words s t j). cbn zeta.
    pose proof (count_range_bounds 0 (i * 1024 + j) (user_mapped (words s) d) ltac:(lia)).
    unfold PAGING_TABLE_ENTRIES in Hj. destruct (_ && _); [|f_equal; lia].
    replace (_ =? 0xFFFFFFFF) with false by lia. f_equal. rewrite u32_small; lia.
Qed.

Lemma count_table_fold :
  foldl (count_table s (d * PAGE_SIZE)) (inl 0) (range 0 PAGING_TABLE_ENTRIES) = inl (resident (words s) d).
Proof.
  rewrite resident_tables.
  apply (foldl_range_ind (λ i c, c = inl (count_range 0 (i * 1024) (user_mapped (words s) d))) _ 0 1024); [lia|by rewrite count_range_nil by lia|].
  intros i c Hi ->. unfold count_table. rewrite (sp_kernel _ _ S).
  rewrite (address_nonzero s mem_live roles Hr S _ _ (kernel_page_role s roles S)).
  change (dir_entry s (?p * PAGE_SIZE) i) with (words s p i). rewrite has_present, has_user. cbn zeta.
  destruct (entry_shared i Hi) as [[E ->]|(t & Ht & Hl & Et & _ & Hz & ->)]; [by rewrite count_shared|].
  rewrite (ln_user _ _ _ Hl), Et, Hz. cbn [negb]. by apply count_own.
Qed.

Lemma user_page_count : paging_get_user_page_count s (d * PAGE_SIZE) = (Some (resident (words s) d), OK).
Proof.
  unfold paging_get_user_page_count. rewrite (address_nonzero s mem_live roles Hr S _ _ Hd).
  assert (paging_is_ready s = true) as ->.
  { unfold paging_is_ready. rewrite (sp_ready _ _ S). pose proof (sp_current _ _ S) as [Hc _]%elem_of_live.
    by apply Z.eqb_neq in Hc as ->. }
  rewrite (registered_user s roles S d Hd), count_table_fold. cbn [negb]. by rewrite andb_false_r.
Qed.
End count.

(** ** Creating a directory *)

(** Clearing a flag that is clear. *)
Lemma clear_user_flag e : 0 ≤ e < 2 ^ 32 → entry_user e = false → e &w ~w PAGING_FLAG_USER = e.
Proof.
  intros He Hu. rewrite land_u32_lnot by done. apply Z.bits_inj_iff'. intros i Hi.
  rewrite Z.land_spec, Z.lnot_spec by done. change PAGING_FLAG_USER with (2 ^ 2). rewrite Z.pow2_bits_eqb by lia.
  destruct (Z.eqb_spec 2 i) as [<-|]; [|apply andb_true_r]. unfold entry_user in Hu. by rewrite Hu.
Qed.

(** The loop that copies the kernel's entries into page [p]. *)
Lemma copy_entries s mem_live p s' :
  s' = foldl (λ s i, set_dir_entry s (p * PAGE_SIZE) i (dir_entry s (kernel_directory s) i &w ~w PAGING_FLAG_USER)) s (range 0 1024) →
  run (pg_memory s) mem_live → owned s p = true → kernel_directory s = kernel_page s * PAGE_SIZE → p ≠ kernel_page s →
  (∀ i, 0 ≤ i < 1024 → entry_user (words s (kernel_page s) i) = false) →
  s' = s <| pg_memory := pg_memory s' |> ∧ run (pg_memory s') mem_live ∧ (∀ q, owned s' q = owned s q) ∧
  (∀ q k, q ≠ p → 0 ≤ k < 1024 → words s' q k = words s q k) ∧
  (∀ k, 0 ≤ k < 1024 → words s' p k = words s (kernel_page s) k) ∧
  mem_info (pg_memory s') = mem_info (pg_memory s).
Proof.
  intros -> Hr Hp Hk Hne Hu. apply (foldl_range_ind (λ i s', s' = s <| pg_memory := pg_memory s' |> ∧
    run (pg_memory s') mem_live ∧ (∀ q, owned s' q = owned s q) ∧
    (∀ q k, q ≠ p → 0 ≤ k < 1024 → words s' q k = words s q k) ∧ (∀ k, 0 ≤ k < i → words s' p k = words s (kernel_page s) k) ∧
    mem_info (pg_memory s') = mem_info (pg_memory s)) _ 0 1024);
    [lia|by split; [destruct s|repeat split; try lia]|].
  intros i s' Hi (E & R & O & H1 & H2 & H3).
  assert (kernel_directory s' = kernel_page s * PAGE_SIZE) as -> by (rewrite E; exact Hk).
  change (dir_entry s' (kernel_page s * PAGE_SIZE) i) with (words s' (kernel_page s) i).
  rewrite H1, clear_user_flag by (done || apply words_range || by apply Hu).
  destruct (put_word_law (pg_memory s') mem_live R p i (words s (kernel_page s) i)) as [R' O'];
    [change (owned s' p = true); by rewrite O|done|].
  split; [rewrite E at 1; done|]. split; [exact R'|]. split; [intros q; rewrite <-O; apply O'|].
  assert (∀ q k, 0 ≤ k < 1024 → words (set_dir_entry s' (p * PAGE_SIZE) i (words s (kernel_page s) i)) q k =
    if (q =? p) && (k =? i) then words s (kernel_page s) i else words s' q k) as HW.
  { intros q k Hkr. change (words (set_dir_entry s' (p * PAGE_SIZE) i (words s (kernel_page s) i)) q k)
      with (word (put_word (pg_memory s') p i (words s (kernel_page s) i)) q k).
    rewrite word_put by done. destruct (_ && _); [|done]. apply u32_small, words_range. }
  split; [|split; [|exact H3]].
  - intros q k Hq Hkr. rewrite HW by done. replace (q =? p) with false by lia. by apply H1.
  - intros k Hkr. rewrite HW, Z.eqb_refl by lia. destruct (Z.eqb_spec k i) as [->|]; [done|]. apply H2. lia.
Qed.

Lemma live_full l : find_slot 0 l = None → live l = l.
Proof.
  intros E%find_slot_None. induction l as [|a l IH]; [done|]. apply not_elem_of_cons in E as [Ha Hl]. rewrite live_cons.
  replace (a =? 0) with false by lia. by rewrite IH.
Qed.

Section create.
Context (s : paging_t) (mem_live : gmap Z (list Z)) (roles : gmap Z role).
Context (Hr : run (pg_memory s) mem_live) (S : space s roles).

Inductive create_result : paging_t → Z → Prop :=
| create_failed s' :
    run (pg_memory s') mem_live → space s' roles → (∀ q, owned s' q = owned s q) → kept s s' (λ _, True) →
    same_registers s s' → (∀ c n, is_dir roles c → 0 ≤ n < 2 ^ 20 → walk (words s') c n = walk (words s) c n) →
    mi_free_pages (mem_info (pg_memory s)) = 0 ∨ length (live (user_directories s)) = 64%nat →
    create_result s' 0
| create_done s' p :
    roles !! p = None → owned s p = false →
    run (pg_memory s') mem_live → space s' (<[p := UserDirectory]> roles) →
    (∀ q, owned s' q = (q =? p) || owned s q) → kept s s' (λ _, True) →
    kernel_directory s' = kernel_directory s → current_directory s' = current_directory s →
    live (user_directories s') ≡ₚ (p * PAGE_SIZE) :: live (user_directories s) →
    (∀ c n, is_dir roles c → 0 ≤ n < 2 ^ 20 → walk (words s') c n = walk (words s) c n) →
    (∀ n, 0 ≤ n < 2 ^ 20 → walk (words s') p n = walk (words s) (kernel_page s) n) →
    mi_free_pages (mem_info (pg_memory s')) = mi_free_pages (mem_info (pg_memory s)) - 1 →
    create_result s' (p * PAGE_SIZE).

(** Nothing changes for memory in which the directories and tables are the same. *)
Lemma space_plain m' :
  (∀ p r j, roles !! p = Some r → structural r = true → 0 ≤ j < 1024 → word m' p j = words s p j) →
  (∀ p r, roles !! p = Some r → page_owned m' p = true) →
  mi_total_memory (mem_info m') = mi_total_memory (mem_info (pg_memory s)) →
  space (s <| pg_memory := m' |>) roles ∧
  ∀ c n, is_dir roles c → 0 ≤ n < 2 ^ 20 → walk (word m') c n = walk (words s) c n.
Proof.
  intros HC Ho ET. assert (∀ c n, is_dir roles c → 0 ≤ n < 2 ^ 20 → walk (word m') c n = walk (words s) c n) as Hw
    by (intros c n Hc Hn; by apply (walk_unchanged _ _ _ _ (sp_linked _ _ S) c n roles)).
  split; [|exact Hw]. apply (space_memory s mem_live roles); [done| |done|done|exact Hw|exact ET|exact Hr].
  by apply (tables_ext (words s)); [apply S|].
Qed.

Lemma space_quiet m' :
  (∀ q j, owned s q = true → 0 ≤ j < 1024 → word m' q j = words s q j) →
  (∀ p r, roles !! p = Some r → page_owned m' p = true) →
  mi_total_memory (mem_info m') = mi_total_memory (mem_info (pg_memory s)) →
  space (s <| pg_memory := m' |>) roles ∧
  ∀ c n, is_dir roles c → 0 ≤ n < 2 ^ 20 → walk (word m') c n = walk (words s) c n.
Proof. intros HW. apply space_plain. intros p r j Hp _ Hj. apply HW; [by eapply sp_owned|done]. Qed.

(** The page is given back when it cannot be registered. *)
Lemma create_undo m p :
  owned s p = false → run m mem_live → (∀ q, page_owned m q = (q =? p) || owned s q) →
  (∀ q j, owned s q = true → 0 ≤ j < 1024 → word m q j = words s q j) →
  mi_total_memory (mem_info m) = mi_total_memory (mem_info (pg_memory s)) →
  mi_free_pages (mem_info (pg_memory s)) = 0 ∨ length (live (user_directories s)) = 64%nat →
  create_result (s <| pg_memory := pmm_free_page m (p * PAGE_SIZE) |>) 0.
Proof.
  intros Hp R O HW ET Hwhy. destruct (free_page_kept m mem_live p R) as (R' & O' & W' & ET'); [by rewrite O, Z.eqb_refl|].
  set (m' := pmm_free_page m (p * PAGE_SIZE)) in *. clearbody m'.
  assert (∀ q, page_owned m' q = owned s q) as O2.
  { intros q. rewrite O', O. destruct (Z.eqb_spec q p) as [->|]; [by rewrite Hp|done]. }
  assert (∀ q j, owned s q = true → 0 ≤ j < 1024 → word m' q j = words s q j) as HW2.
  { intros q j Hq Hj. rewrite W', HW by (done || rewrite O, Hq; apply orb_true_r). done. }
  destruct (space_quiet m' HW2) as [S' Hw]; [intros q r Hq; rewrite O2; by eapply sp_owned|congruence|].
  apply create_failed; [exact R'|exact S'|exact O2| |by split|exact Hw|exact Hwhy].
  intros q Hq _. split; [change (page_owned m' q = true); by rewrite O2|]. intros j Hj. by apply HW2.
Qed.

(** The registers with one more directory. *)
Definition registered_as (m : memory_t) (i j : nat) (a : Z) : paging_t :=
  user_stat (s <| pg_memory := m |> <| paging_directories ::= λ l, <[i := a]> l |> <| user_directories ::= λ l, <[j := a]> l |>)
    (λ u, u <| u_active_directories ::= λ n, n +w 1 |> <| u_directories_created ::= λ n, n +w 1 |>).

Lemma create_register m p i j :
  owned s p = false → 0 < p < 2 ^ 20 → run m mem_live → (∀ q, page_owned m q = (q =? p) || owned s q) →
  (∀ q k, owned s q = true → 0 ≤ k < 1024 → word m q k = words s q k) →
  (∀ k, 0 ≤ k < 1024 → word m p k = words s (kernel_page s) k) →
  mi_total_memory (mem_info m) = mi_total_memory (mem_info (pg_memory s)) →
  mi_free_pages (mem_info m) = mi_free_pages (mem_info (pg_memory s)) - 1 →
  paging_directories s !! i = Some 0 → user_directories s !! j = Some 0 →
  create_result (registered_as m i j (p * PAGE_SIZE)) (p * PAGE_SIZE).
Proof.
  intros Hp Hpr R O HW Hpk ET EF Hi Hj. pose proof (unowned_role s roles S p Hp) as Hrp.
  assert (p * PAGE_SIZE ≠ 0) as Hnz by (unfold PAGE_SIZE; lia).
  pose proof (live_insert _ j _ Hj Hnz) as Lu. pose proof (live_insert _ i _ Hi Hnz) as Lp.
  pose proof (kernel_page_role s roles S) as Hkp.
  assert (∀ q r k, roles !! q = Some r → structural r = true → 0 ≤ k < 1024 → word m q k = words s q k) as HC
    by (intros q r k Hq _ Hk; apply HW; [by eapply sp_owned|done]).
  assert (∀ c n, is_dir roles c → 0 ≤ n < 2 ^ 20 → walk (word m) c n = walk (words s) c n) as Hw
    by (intros c n Hc Hn; by apply (walk_unchanged _ _ _ _ (sp_linked _ _ S) c n roles)).
  assert (∀ n, 0 ≤ n < 2 ^ 20 → walk (word m) p n = walk (words s) (kernel_page s) n) as Hwp.
  { intros n Hn. rewrite <-Hw by (done || by left). unfold walk. pose proof (page_parts n Hn) as [Hi' _].
    rewrite Hpk, <-(HC _ _ _ Hkp) by done. done. }
  assert (resident (word m) p = 0) as Hres.
  { rewrite (resident_ext (words s) (word m) (kernel_page s) p) by done. rewrite resident_tables.
    rewrite (count_range_const _ _ _ false); [done|lia|]. intros n Hn. unfold user_mapped.
    destruct (walk (words s) (kernel_page s) n) as [x|] eqn:E; [|done].
    by apply (walk_kernel _ _ _ (sp_linked _ _ S) (kernel_page s) n x (or_introl Hkp)). }
  assert (p * PAGE_SIZE ∉ live (user_directories s)) as Hnew by (rewrite <-(user_live s roles S p); congruence).
  apply (create_done (registered_as m i j (p * PAGE_SIZE)) p Hrp Hp); [exact R| |exact O| |done|done|exact Lu|exact Hw|exact Hwp|exact EF].
  - set (s' := registered_as m i j (p * PAGE_SIZE)).
    assert (paging_directories s' = <[i := p * PAGE_SIZE]> (paging_directories s)) as Ep by done.
    assert (user_directories s' = <[j := p * PAGE_SIZE]> (user_directories s)) as Eu by done.
    split; rewrite ?Ep, ?Eu.
    + apply (sp_kernel _ _ S).
    + by apply (linked_add_dir (words s) (word m) _ roles (sp_linked _ _ S)).
    + intros q r. rewrite lookup_insert_Some. intros H. change (page_owned m q = true). rewrite O.
      destruct H as [[<- _]|[_ Hq]]; [by rewrite Z.eqb_refl|]. rewrite (sp_owned _ _ S q r Hq). apply orb_true_r.
    + intros a. rewrite Lu, elem_of_cons, (sp_users _ _ S). setoid_rewrite lookup_insert_Some. split.
      * intros [->|(q & -> & Hq)]; [exists p; auto|]. exists q. split; [done|]. right. split; [congruence|done].
      * intros (q & -> & [[<- _]|[_ Hq]]); [by left|right]. by exists q.
    + rewrite Lu. constructor; [done|apply S].
    + rewrite Lp, Lu, (sp_all _ _ S). apply Permutation_swap.
    + rewrite !length_insert. apply S.
    + rewrite Lp. right. apply S.
    + apply S.
    + unfold residents. rewrite (total_perm _ _ _ Lu), total_cons, page_of_address. change (words s') with (word m). rewrite Hres.
      transitivity (u_active_pages (user_paging_stats s)); [done|]. rewrite (sp_pages _ _ S). apply total_ext. intros a (q & -> & Hq)%(sp_users _ _ S). rewrite page_of_address.
      apply resident_ext. intros n Hn. symmetry. apply Hw; [by right|done].
    + rewrite Lu. cbn [length]. change (u_active_directories (user_paging_stats s')) with (u_active_directories (user_paging_stats s) +w 1).
      rewrite (sp_dirs _ _ S). pose proof (live_length (user_directories s)).
      destruct (sp_length _ _ S) as [H64 _]. rewrite u32_small; lia.
    + intros n Hn. change (pg_memory s') with m in Hn. rewrite ET in Hn. rewrite <-(sp_ram _ _ S n Hn). apply Hw; [by left|].
      by apply (ram_range _ _ n Hr).
  - intros q Hq _. split; [change (page_owned m q = true); rewrite O, Hq; apply orb_true_r|]. intros k Hk. by apply HW.
Qed.

Lemma ready : paging_is_ready s = true.
Proof.
  unfold paging_is_ready. rewrite (sp_ready _ _ S). pose proof (sp_current _ _ S) as [Hc _]%elem_of_live.
  by apply Z.eqb_neq in Hc as ->.
Qed.

(** Registering a directory and taking it out again. *)
Lemma unregister_registered l i a :
  a ∉ l → l !! i = Some 0 → a ≠ 0 → find_slot a (<[i := a]> l) = Some i ∧ <[i := 0]> (<[i := a]> l) = l.
Proof.
  intros Ha Hi Hz. split.
  - destruct (find_slot a (<[i := a]> l)) as [k|] eqn:E.
    + apply find_slot_Some in E. destruct (decide (k = i)) as [->|Hne]; [done|].
      rewrite list_lookup_insert_ne in E by done. destruct Ha. by eapply list_elem_of_lookup_2.
    + apply find_slot_None in E. destruct E. apply list_elem_of_lookup. exists i.
      apply list_lookup_insert_eq. by apply lookup_lt_Some in Hi.
  - rewrite list_insert_insert_eq. by apply list_insert_id.
Qed.

(** The end of [paging_create_user_directory], with the page filled in. *)
Definition create_tail (x : paging_t) (dir : Z) : paging_t * Z :=
  match paging_register_user_directory x dir with
  | (s, false) => (free_page (paging_unregister_directory s dir) dir, 0)
  | (s, true) => (s, dir)
  end.

Definition listed_as (m : memory_t) (i : nat) (a : Z) : paging_t :=
  s <| pg_memory := m |> <| paging_directories ::= λ l, <[i := a]> l |>.

Lemma unlisted m i a :
  a ∉ paging_directories s → paging_directories s !! i = Some 0 → a ≠ 0 →
  paging_unregister_directory (listed_as m i a) a = s <| pg_memory := m |>.
Proof.
  intros Ha Hi Hz. destruct (unregister_registered _ i a Ha Hi Hz) as [E1 E2].
  unfold paging_unregister_directory, paging_directory_index. apply Z.eqb_neq in Hz. rewrite Hz.
  change (paging_directories (listed_as m i a)) with (<[i := a]> (paging_directories s)). rewrite E1.
  unfold listed_as, set. cbn [paging_directories pg_memory current_directory kernel_directory paging_initialized
      user_directories user_paging_stats paging_boot_stats]. by rewrite E2.
Qed.

Lemma create_tail_spec m p i x a :
  owned s p = false → 0 < p < 2 ^ 20 → run m mem_live → (∀ q, page_owned m q = (q =? p) || owned s q) →
  (∀ q k, owned s q = true → 0 ≤ k < 1024 → word m q k = words s q k) →
  (∀ k, 0 ≤ k < 1024 → word m p k = words s (kernel_page s) k) →
  mi_total_memory (mem_info m) = mi_total_memory (mem_info (pg_memory s)) →
  mi_free_pages (mem_info m) = mi_free_pages (mem_info (pg_memory s)) - 1 →
  paging_directories s !! i = Some 0 → create_tail (listed_as m i (p * PAGE_SIZE)) (p * PAGE_SIZE) = (x, a) → create_result x a.
Proof.
  intros Hp Hpr R O HW Hpk ET EF Hi E. assert (p * PAGE_SIZE ≠ 0) as Hnz by (unfold PAGE_SIZE; lia).
  unfold create_tail, paging_register_user_directory in E. pose proof Hnz as Hnb. apply Z.eqb_neq in Hnb. rewrite Hnb in E.
  change (user_directories (listed_as m i (p * PAGE_SIZE))) with (user_directories s) in E.
  destruct (find_slot 0 (user_directories s)) as [j|] eqn:Ej.
  - injection E as <- <-. apply find_slot_Some in Ej. by apply (create_register m p i j).
  - rewrite unlisted in E; [|..|done|done].
    + injection E as <- <-. apply (create_undo m p); try done. right. rewrite (live_full _ Ej). apply (sp_length _ _ S).
    + intros Hin. pose proof (unowned_role s roles S p Hp). assert (is_dir roles p) as Hd
        by (apply (dir_live s roles S); by apply elem_of_live). destruct Hd; congruence.
Qed.

(** The middle of the call: the entries are copied. *)
Lemma create_copy m1 p i y :
  owned s p = false → run m1 mem_live → (∀ q, page_owned m1 q = (q =? p) || owned s q) →
  (∀ q k, owned s q = true → 0 ≤ k < 1024 → word m1 q k = words s q k) →
  y = foldl (λ s i, set_dir_entry s (p * PAGE_SIZE) i (dir_entry s (kernel_directory s) i &w ~w PAGING_FLAG_USER))
        (listed_as m1 i (p * PAGE_SIZE)) (range 0 1024) →
  ∃ m, y = listed_as m i (p * PAGE_SIZE) ∧ run m mem_live ∧ (∀ q, page_owned m q = (q =? p) || owned s q) ∧
    (∀ q k, owned s q = true → 0 ≤ k < 1024 → word m q k = words s q k) ∧
    (∀ k, 0 ≤ k < 1024 → word m p k = words s (kernel_page s) k) ∧ mem_info m = mem_info m1.
Proof.
  intros Hp R1 O1 W1 Ey. pose proof (unowned_role s roles S p Hp) as Hrp. pose proof (kernel_page_role s roles S) as Hkp.
  destruct (copy_entries _ mem_live p y Ey) as (E3 & R3 & O3 & H1 & H2 & H3).
  { exact R1. } { change (page_owned m1 p = true). by rewrite O1, Z.eqb_refl. } { apply (sp_kernel _ _ S). }
  { change (p ≠ kernel_page s). congruence. }
  { intros k Hk. change (entry_user (word m1 (kernel_page s) k) = false).
    rewrite W1; [|exact (sp_owned _ _ S _ _ Hkp)|exact Hk].
    destruct (lk_kentry _ _ _ (sp_linked _ _ S) k Hk) as [K|(t & Hl & _)]; [by rewrite K|apply Hl]. }
  clear Ey. exists (pg_memory y).
  split; [rewrite E3 at 1; done|]. split; [exact R3|]. split; [intros q; rewrite <-O1; apply O3|]. split; [|split; [|exact H3]].
  - intros q k Hq Hk. transitivity (word m1 q k); [|by apply W1]. apply H1; [|done]. intros ->. unfold owned in *. congruence.
  - intros k Hk. transitivity (word m1 (kernel_page s) k); [by apply H2|]. apply W1; [by apply (sp_owned _ _ S _ _ Hkp)|done].
Qed.

(** There are more entries for directories than for processes. *)
Lemma directory_room : find_slot 0 (paging_directories s) ≠ None.
Proof.
  intros E%live_full. destruct (sp_length _ _ S) as [H1 H2]. pose proof (Permutation_length (sp_all _ _ S)) as HP.
  rewrite E, H2 in HP. cbn [length] in HP. pose proof (live_length (user_directories s)). lia.
Qed.

Lemma create_user s' a : paging_create_user_directory s = (s', a) → create_result s' a.
Proof.
  intros E. unfold paging_create_user_directory in E. rewrite ready in E.
  pose proof (kernel_page_role s roles S) as Hkp. pose proof (address_nonzero s mem_live roles Hr S _ _ Hkp) as Hkz.
  rewrite (sp_kernel _ _ S), Hkz in E. cbn [negb orb] in E. unfold alloc_page in E.
  destruct (pmm_alloc_page_in_zone (pg_memory s) MEMORY_ZONE_PROCESS) as [m1 dir] eqn:Ea.
  destruct (alloc_page_law _ _ Hr _ _ _ Ea) as (R1 & W1 & T1 & [[-> O1]|(p & -> & Hp & Hfree & O1)]).
  { injection E as <- <-. destruct (space_quiet m1 W1) as [S' Hw]; [intros q r Hq; rewrite O1; by apply (sp_owned _ _ S q r)|exact T1|].
    apply create_failed; [exact R1|exact S'|exact O1| |by split|exact Hw|].
    2: { left. destruct (alloc_counts _ _ 1 _ _ _ Hr ltac:(lia) Ea) as (_ & _ & H0). by apply H0. }
    intros q Hq _. split; [change (page_owned m1 q = true); by rewrite O1|]. intros j Hj. by apply W1. }
  assert (p * PAGE_SIZE ≠ 0) as Hnz by (unfold PAGE_SIZE; lia). pose proof Hnz as Hnb. apply Z.eqb_neq in Hnb. rewrite Hnb in E.
  unfold paging_register_directory in E. rewrite Hnb in E.
  change (paging_directories (s <| pg_memory := m1 |>)) with (paging_directories s) in E.
  destruct (find_slot 0 (paging_directories s)) as [i|] eqn:Ei; [|by destruct directory_room].
  apply find_slot_Some in Ei. destruct (create_copy m1 p i _ Hfree R1 O1 W1 eq_refl) as (m & Em & R & O & HW & Hpk & ET).
  change (s <| pg_memory := m1 |> <| paging_directories ::= _ |>) with (listed_as m1 i (p * PAGE_SIZE)) in E.
  rewrite Em in E. destruct (alloc_counts _ _ 1 _ _ _ Hr ltac:(lia) Ea) as (_ & Hf & _). rewrite Hnb in Hf.
  apply (create_tail_spec m p i); rewrite ?ET; done.
Qed.
End create.
