(* ===== verification/PagingFree.v ===== *)
(** * Releasing the directory of a process

    [paging_free_user_directory] walks the directory and gives back each frame, then
    each table, then the directory.  It frees exactly the pages of that process. *)

From S2P Require Import Prelude Registry Memory Pmm Heap HeapRefine MemorySystem PageOwner Paging PagingInv PagingCalls PagingDirs.

Section free.
Context (s : paging_t) (mem_live : gmap Z (list Z)) (roles : gmap Z role).
Context (Hr : run (pg_memory s) mem_live) (S : space s roles).
Context (d : Z) (Hd : roles !! d = Some UserDirectory).

(** The pages released when the frames of the virtual pages below [k] and the tables
    below [t] are. *)
Definition gone (k t p : Z) : bool :=
  match roles !! p with
  | Some (UserFrame d' v) => (d' =? d) && (v <? k)
  | Some (UserTable d' i) => (d' =? d) && (i <? t)
  | _ => false
  end.

(** The state of the loops. *)
Record releasing (k t : Z) (x : paging_t) : Prop := {
  re_state : x = s <| pg_memory := pg_memory x |>;
  re_run : run (pg_memory x) mem_live;
  re_owned p : owned x p = negb (gone k t p) && owned s p;
  re_words p j : owned x p = true → p ≠ d → 0 ≤ j < 1024 → words x p j = words s p j;
  re_entries i : t ≤ i < 1024 → words x d i = words s d i;
  re_total : mi_total_memory (mem_info (pg_memory x)) = mi_total_memory (mem_info (pg_memory s))
}.

Abbreviation counted k := (count_range 0 k (user_mapped (words s) d)).

Lemma gone_kernel k t : gone k t (kernel_page s) = false.
Proof. unfold gone. by rewrite (kernel_page_role s roles S). Qed.
Lemma gone_directory k t : gone k t d = false.
Proof. unfold gone. by rewrite Hd. Qed.

Lemma releasing_start : releasing 0 0 s.
Proof.
  split; [by destruct s|done| |done|done|done]. intros p. unfold gone. destruct (roles !! p) as [[]|] eqn:E; try done.
  - destruct (lk_utable _ _ _ (sp_linked _ _ S) _ _ _ E) as (_ & Hi & _). replace (i <? 0) with false by lia.
    by rewrite andb_false_r.
  - destruct (lk_uframe _ _ _ (sp_linked _ _ S) _ _ _ E) as (Hi & _). replace (v <? 0) with false by lia.
    by rewrite andb_false_r.
Qed.

(** Frames of a table of [d] are those its entries name. *)
Lemma frame_of_table t i j f :
  roles !! t = Some (UserTable d i) → 0 ≤ j < 1024 →
  roles !! f = Some (UserFrame d (i * 1024 + j)) ↔ entry_present (words s t j) = true ∧ entry_frame (words s t j) = f.
Proof.
  intros Ht Hj. destruct (lk_utable _ _ _ (sp_linked _ _ S) t d i Ht) as (_ & _ & _ & _ & Htj). split.
  - intros Hf. destruct (lk_uframe _ _ _ (sp_linked _ _ S) f d _ Hf) as (_ & t' & Ht' & Hp & Hfr).
    replace ((i * 1024 + j) / 1024) with i in Ht' by divlia. replace ((i * 1024 + j) mod 1024) with j in * by divlia.
    by rewrite (table_unique _ _ _ (sp_linked _ _ S) t t' d i Ht Ht').
  - intros [Hp <-]. destruct (Htj j Hj) as [|[_ ?]]; [congruence|done].
Qed.

(** Only the frame of page [k] goes when its entry is passed. *)
Lemma gone_step t i j p :
  roles !! t = Some (UserTable d i) → 0 ≤ j < 1024 →
  gone (i * 1024 + j + 1) i p =
    gone (i * 1024 + j) i p || (entry_present (words s t j) && (p =? entry_frame (words s t j))).
Proof.
  intros Ht Hj. pose proof (frame_of_table t i j p Ht Hj) as HF. unfold gone.
  destruct (entry_present (words s t j) && (p =? entry_frame (words s t j))) eqn:Ep.
  - apply andb_true_iff in Ep as [Ep Ef]. assert (roles !! p = Some (UserFrame d (i * 1024 + j))) as -> by (apply HF; split; [done|lia]).
    rewrite Z.eqb_refl. cbn [andb]. lia.
  - rewrite orb_false_r. destruct (roles !! p) as [[]|] eqn:E; try done.
    destruct (Z.eqb_spec d0 d) as [->|]; [|done]. cbn [andb].
    assert (v ≠ i * 1024 + j) as Hne; [|lia]. intros ->.
    destruct (proj1 HF eq_refl) as [H1 H2]. rewrite H1 in Ep. cbn [andb] in Ep. lia.
Qed.

(** One entry of a table. *)
Lemma release_page_step t i j x n :
  roles !! t = Some (UserTable d i) → 0 ≤ j < 1024 → releasing (i * 1024 + j) i x → n = counted (i * 1024 + j) →
  let '(x', n') := release_page (t * PAGE_SIZE) (x, n) j in releasing (i * 1024 + j + 1) i x' ∧ n' = counted (i * 1024 + j + 1).
Proof.
  intros Ht Hj [E R O HW HE ET] ->. destruct (lk_utable _ _ _ (sp_linked _ _ S) t d i Ht) as (_ & Hi & _ & _ & Htj).
  assert (owned x t = true) as Hot.
  { rewrite O, (sp_owned _ _ S t _ Ht). unfold gone. rewrite Ht, Z.eqb_refl. by replace (i <? i) with false by lia. }
  assert (words x t j = words s t j) as Hw by (apply HW; [done|congruence|done]).
  unfold release_page. change (load_word x (entry_address (t * PAGE_SIZE) j)) with (words x t j). rewrite Hw.
  rewrite count_range_snoc, (user_mapped_table s roles S d t i j Ht Hj) by lia.
  pose proof (count_range_bounds 0 (i * 1024 + j) (user_mapped (words s) d) ltac:(lia)) as Hb.
  destruct (Htj j Hj) as [Hp|[Hu Hf]].
  - rewrite Hp. cbn [andb]. split; [|lia]. split; [done|done| |done|done|done].
    intros p. rewrite O, (gone_step t i j p Ht Hj), Hp. by rewrite orb_false_r.
  - rewrite Hu, andb_true_r. destruct (entry_present (words s t j)) eqn:Hp.
    + pose proof (role_range s mem_live roles Hr S _ _ Hf) as Hfr. rewrite (u32_small (_ * _)) by (unfold PAGE_SIZE; lia).
      set (f := entry_frame (words s t j)) in *.
      destruct (free_page_kept (pg_memory x) mem_live f R) as (R' & O' & W' & T').
      { change (owned x f = true). rewrite O, (sp_owned _ _ S f _ Hf). unfold gone. rewrite Hf, Z.eqb_refl.
        by replace (_ <? _) with false by lia. }
      split; [|rewrite u32_small; lia]. split.
      * rewrite free_page_memory. rewrite E at 1. done.
      * exact R'.
      * intros p. rewrite (O' p : owned (free_page x (f * PAGE_SIZE)) p = _), (gone_step t i j p Ht Hj), Hp.
        change (page_owned (pg_memory x) p) with (owned x p). rewrite O. fold f. cbn [andb].
        by destruct (gone (i * 1024 + j) i p), (p =? f).
      * intros p k Hpo Hpd Hk. assert (owned x p = true) as Hxp.
        { rewrite (O' p : owned (free_page x (f * PAGE_SIZE)) p = _) in Hpo. by apply andb_true_iff in Hpo as [_ ?]. }
        rewrite (W' p k Hxp Hk : words (free_page x (f * PAGE_SIZE)) p k = _). by apply HW.
      * intros k Hk. rewrite (W' d k : page_owned _ _ = true → _ → words (free_page x (f * PAGE_SIZE)) d k = _); [by apply HE| |lia].
        change (owned x d = true). rewrite O, gone_directory. apply (sp_owned _ _ S d _ Hd).
      * rewrite <-ET. exact T'.
    + cbn. split; [|lia]. split; [done|done| |done|done|done].
      intros p. rewrite O, (gone_step t i j p Ht Hj), Hp. by rewrite orb_false_r.
Qed.

Lemma release_pages t i x n :
  roles !! t = Some (UserTable d i) → releasing (i * 1024) i x → n = counted (i * 1024) →
  let '(x', n') := foldl (release_page (t * PAGE_SIZE)) (x, n) (range 0 1024) in
  releasing ((i + 1) * 1024) i x' ∧ n' = counted ((i + 1) * 1024).
Proof.
  intros Ht Hx Hn. replace ((i + 1) * 1024) with (i * 1024 + 1024) by lia.
  apply (foldl_range_ind (λ j x, let '(x', n') := x in releasing (i * 1024 + j) i x' ∧ n' = counted (i * 1024 + j))); [lia|by rewrite Z.add_0_r|].
  intros j [x' n'] Hj [Hx' Hn']. rewrite Z.add_assoc. by apply release_page_step.
Qed.

Lemma gone_table t i p k : roles !! t = Some (UserTable d i) → gone k (i + 1) p = gone k i p || (p =? t).
Proof.
  intros Ht. unfold gone. destruct (Z.eqb_spec p t) as [->|Hne].
  - rewrite Ht, Z.eqb_refl. cbn [andb]. lia.
  - rewrite orb_false_r. destruct (roles !! p) as [[]|] eqn:E; try done.
    destruct (Z.eqb_spec d0 d) as [->|]; [|done]. cbn [andb]. assert (i0 ≠ i); [|lia]. intros ->.
    destruct Hne. by apply (table_unique _ _ _ (sp_linked _ _ S) p t d i).
Qed.

(** The table itself. *)
Lemma release_own_table t i x :
  roles !! t = Some (UserTable d i) → releasing ((i + 1) * 1024) i x →
  releasing ((i + 1) * 1024) (i + 1) (free_page (set_dir_entry x (d * PAGE_SIZE) i 0) (t * PAGE_SIZE)).
Proof.
  intros Ht [E R O HW HE ET]. destruct (lk_utable _ _ _ (sp_linked _ _ S) t d i Ht) as (_ & Hi & _).
  assert (owned x d = true) as Hod by (rewrite O, gone_directory; apply (sp_owned _ _ S d _ Hd)).
  destruct (put_word_law (pg_memory x) mem_live R d i 0 Hod ltac:(lia)) as [R1 O1].
  destruct (free_page_kept _ mem_live t R1) as (R2 & O2 & W2 & T2).
  { rewrite O1. change (owned x t = true). rewrite O, (sp_owned _ _ S t _ Ht). unfold gone. rewrite Ht, Z.eqb_refl.
    by replace (i <? i) with false by lia. }
  change (put_word (pg_memory x) d i 0) with (pg_memory (set_dir_entry x (d * PAGE_SIZE) i 0)) in *.
  set (x' := free_page (set_dir_entry x (d * PAGE_SIZE) i 0) (t * PAGE_SIZE)).
  assert (∀ p, owned x' p = negb (p =? t) && owned x p) as O' by (intros p; rewrite (O2 p : owned x' p = _), O1; done).
  assert (∀ p k, owned x p = true → 0 ≤ k < 1024 → p ≠ d ∨ k ≠ i → words x' p k = words x p k) as HW'.
  { intros p k Hp Hk Hpk. rewrite (W2 p k : _ → _ → words x' p k = _) by (done || by rewrite O1).
    change (pg_memory (set_dir_entry x (d * PAGE_SIZE) i 0)) with (put_word (pg_memory x) d i 0).
    rewrite word_put by lia. by replace (_ && _) with false by lia. }
  assert (x' = s <| pg_memory := pg_memory x' |>) as E' by (unfold x'; rewrite E; done).
  assert (run (pg_memory x') mem_live) as R' by exact R2.
  assert (mi_total_memory (mem_info (pg_memory x')) = mi_total_memory (mem_info (pg_memory s))) as ET' by (rewrite <-ET; exact T2). clearbody x'. split; [exact E'|exact R'|..].
  - intros p. rewrite O', O, (gone_table t i p _ Ht). by destruct (gone _ _ p), (p =? t).
  - intros p k Hp Hpd Hk. rewrite O' in Hp. apply andb_true_iff in Hp as [_ Hp]. rewrite HW' by auto. by apply HW.
  - intros k Hk. rewrite HW' by (done || lia). apply HE. lia.
  - exact ET'.
Qed.

(** Nothing of [d] is at an index it shares with the kernel. *)
Lemma gone_shared i p :
  words s d i = words s (kernel_page s) i → 0 ≤ i < 1024 → gone ((i + 1) * 1024) (i + 1) p = gone (i * 1024) i p.
Proof.
  intros E Hi. assert (∀ t, roles !! t ≠ Some (UserTable d i)) as HT.
  { intros t Ht. destruct (lk_utable _ _ _ (sp_linked _ _ S) t d i Ht) as (_ & _ & K0 & Hl & _).
    rewrite E, K0 in Hl. by apply links_zero in Hl. }
  unfold gone. destruct (roles !! p) as [[]|] eqn:Ep; try done.
  - destruct (Z.eqb_spec d0 d) as [->|]; [|done]. cbn [andb]. assert (i0 ≠ i); [|lia]. intros ->. by apply (HT p).
  - destruct (Z.eqb_spec d0 d) as [->|]; [|done]. cbn [andb].
    destruct (lk_uframe _ _ _ (sp_linked _ _ S) p d v Ep) as (_ & t & Ht & _).
    assert (v / 1024 ≠ i) by (intros Ev; rewrite Ev in Ht; by apply (HT t)). divlia.
Qed.

Lemma release_table_step i x n :
  0 ≤ i < 1024 → releasing (i * 1024) i x → n = counted (i * 1024) →
  let '(x', n') := release_table (d * PAGE_SIZE) (x, n) i in releasing ((i + 1) * 1024) (i + 1) x' ∧ n' = counted ((i + 1) * 1024).
Proof.
  intros Hi Hx Hn. pose proof Hx as [E R O HW HE ET]. unfold release_table.
  assert (kernel_directory x = kernel_page s * PAGE_SIZE) as -> by (rewrite E; apply (sp_kernel _ _ S)).
  pose proof (kernel_page_role s roles S) as Hkp. rewrite (address_nonzero s mem_live roles Hr S _ _ Hkp).
  change (dir_entry x (?p * PAGE_SIZE) i) with (words x p i). rewrite HE by lia. rewrite HW; [|..|done]; cycle 1.
  { rewrite O, gone_kernel. apply (sp_owned _ _ S _ _ Hkp). } { congruence. }
  rewrite has_present. cbn zeta.
  destruct (entry_shared s mem_live roles Hr S d Hd i Hi) as [[Es ->]|(t & Ht & Hl & Et & _ & Hz & ->)].
  - rewrite (count_shared s roles S d i Es Hi). split; [|done]. split; [done|done| |done| |done].
    + intros p. by rewrite gone_shared.
    + intros k Hk. apply HE. lia.
  - unfold paging_free_table_entry. rewrite Et, Hz. pose proof (release_pages t i x n Ht Hx Hn) as HP.
    destruct (foldl (release_page (t * PAGE_SIZE)) (x, n) (range 0 1024)) as [x' n']. destruct HP as [Hx' Hn'].
    split; [by apply release_own_table|done].
Qed.

Lemma release_tables :
  let '(x, n) := foldl (release_table (d * PAGE_SIZE)) (s, 0) (range 0 1024) in
  releasing (1024 * 1024) 1024 x ∧ n = resident (words s) d.
Proof.
  rewrite resident_tables.
  apply (foldl_range_ind (λ i x, let '(x', n') := x in releasing (i * 1024) i x' ∧ n' = counted (i * 1024)) _ 0 1024); [lia|..].
  - split; [apply releasing_start|]. by rewrite count_range_nil by lia.
  - intros i [x n] Hi [Hx Hn]. by apply release_table_step.
Qed.

(** All pages of the process. *)
Lemma gone_all p r : roles !! p = Some r → p ≠ d → gone (1024 * 1024) 1024 p = of_process d p r.
Proof.
  intros Hp Hpd. unfold gone. rewrite Hp. destruct r; cbn; try done.
  - by apply Z.eqb_neq in Hpd as ->.
  - destruct (lk_utable _ _ _ (sp_linked _ _ S) p d0 i Hp) as (_ & Hi & _). replace (i <? 1024) with true by lia. apply andb_true_r.
  - destruct (lk_uframe _ _ _ (sp_linked _ _ S) p d0 v Hp) as (Hv & _). replace (v <? 1024 * 1024) with true by lia. apply andb_true_r.
Qed.

(** Page [p] belongs to the process. *)
Definition belongs (p : Z) : bool := match roles !! p with Some r => of_process d p r | None => false end.

Record freed (s' : paging_t) : Prop := {
  fr_run : run (pg_memory s') mem_live;
  fr_space : space s' (without d roles);
  fr_owned p : owned s' p = negb (belongs p) && owned s p;
  fr_words p j : owned s' p = true → 0 ≤ j < 1024 → words s' p j = words s p j;
  fr_kernel : kernel_directory s' = kernel_directory s;
  fr_current : current_directory s' = current_directory s;
  fr_users : live (user_directories s) ≡ₚ (d * PAGE_SIZE) :: live (user_directories s');
  fr_walk c n : is_dir roles c → c ≠ d → 0 ≤ n < 2 ^ 20 → walk (words s') c n = walk (words s) c n
}.

(** Memory after all pages are released. *)
Lemma released_memory x :
  releasing (1024 * 1024) 1024 x →
  let m := pmm_free_page (pg_memory x) (d * PAGE_SIZE) in
  run m mem_live ∧ (∀ p, page_owned m p = negb (belongs p) && owned s p) ∧
  (∀ p j, page_owned m p = true → 0 ≤ j < 1024 → word m p j = words s p j) ∧
  mi_total_memory (mem_info m) = mi_total_memory (mem_info (pg_memory s)).
Proof.
  intros [E R O HW HE ET] m. destruct (free_page_kept (pg_memory x) mem_live d R) as (R' & O' & W' & T').
  { change (owned x d = true). rewrite O, gone_directory. apply (sp_owned _ _ S d _ Hd). }
  fold m in R', O', W', T'. clearbody m. split; [done|]. split; [|split; [|congruence]].
  - intros p. rewrite O'. change (page_owned (pg_memory x) p) with (owned x p). rewrite O. unfold belongs.
    destruct (Z.eqb_spec p d) as [->|Hpd]; [rewrite Hd; cbn; by rewrite Z.eqb_refl|]. cbn [negb andb].
    destruct (roles !! p) as [r|] eqn:Er; [by rewrite (gone_all p r)|]. unfold gone. by rewrite Er.
  - intros p j Hp Hj. rewrite O' in Hp. apply andb_true_iff in Hp as [Hpd Hp]. rewrite W' by done.
    apply HW; [done|lia|done].
Qed.

(** The registers without the directory. *)
Definition released_as (m : memory_t) (i j : nat) (n : Z) : paging_t :=
  user_stat (s <| pg_memory := m |> <| paging_directories ::= λ l, <[i := 0]> l |> <| user_directories ::= λ l, <[j := 0]> l |>)
    (λ u, u <| u_active_pages ::= λ a, if n >? a then 0 else a -w n |>
            <| u_active_directories ::= λ a, if a >? 0 then a -w 1 else a |> <| u_directories_released ::= λ a, a +w 1 |>).

Lemma released_spec m i j :
  run m mem_live → (∀ p, page_owned m p = negb (belongs p) && owned s p) →
  (∀ p k, page_owned m p = true → 0 ≤ k < 1024 → word m p k = words s p k) →
  mi_total_memory (mem_info m) = mi_total_memory (mem_info (pg_memory s)) →
  paging_directories s !! i = Some (d * PAGE_SIZE) → user_directories s !! j = Some (d * PAGE_SIZE) →
  d * PAGE_SIZE ≠ current_directory s → freed (released_as m i j (resident (words s) d)).
Proof.
  intros R O HW ET Hi Hj Hcur. assert (d * PAGE_SIZE ≠ 0) as Hnz by (pose proof (role_range s mem_live roles Hr S d _ Hd); unfold PAGE_SIZE; lia).
  pose proof (live_clear _ j _ Hj Hnz) as Lu. pose proof (live_clear _ i _ Hi Hnz) as Lp.
  assert (∀ p r, without d roles !! p = Some r → page_owned m p = true) as Ho.
  { intros p r [Hp Hb]%lookup_without. rewrite O, (sp_owned _ _ S p r Hp). unfold belongs. by rewrite Hp, Hb. }
  assert (∀ p r k, without d roles !! p = Some r → structural r = true → 0 ≤ k < 1024 → word m p k = words s p k) as HC
    by (intros p r k Hp _ Hk; apply HW; [by eapply Ho|done]).
  assert (∀ c n, is_dir roles c → c ≠ d → 0 ≤ n < 2 ^ 20 → walk (word m) c n = walk (words s) c n) as Hw.
  { intros c n Hc Hcd Hn. apply (walk_unchanged _ _ _ _ (sp_linked _ _ S) c n (without d roles)); try done.
    - destruct Hc as [Hc|Hc]; [left|right]; apply lookup_without; (split; [done|]); cbn; lia.
    - intros t k Ht. by apply lookup_without.
    - intros t k Ht. apply lookup_without. split; [done|]. cbn. lia. }
  assert (∀ a, a ∈ live (<[j := 0]> (user_directories s)) → ∃ q, a = q * PAGE_SIZE ∧ q ≠ d ∧ roles !! q = Some UserDirectory) as HU.
  { intros a Ha. pose proof (sp_nodup _ _ S) as ND. rewrite Lu in ND. apply NoDup_cons in ND as [ND _].
    assert (a ∈ live (user_directories s)) as (q & -> & Hq)%(sp_users _ _ S) by (rewrite Lu; by right).
    exists q. split; [done|]. split; [|done]. by intros ->. }
  assert (residents (words s) (live (user_directories s)) =
    resident (words s) d + residents (word m) (live (<[j := 0]> (user_directories s)))) as Hres.
  { unfold residents. rewrite (total_perm _ _ _ Lu), total_cons, page_of_address. apply (f_equal (Z.add (resident (words s) d))), total_ext.
    intros a (q & -> & Hqd & Hq)%HU. rewrite page_of_address. apply resident_ext. intros n Hn. symmetry. apply Hw; [by right|done|done]. }
  pose proof (resident_range (words s) d). set (s' := released_as m i j (resident (words s) d)).
  assert (paging_directories s' = <[i := 0]> (paging_directories s)) as Ep by done.
  assert (user_directories s' = <[j := 0]> (user_directories s)) as Eu by done.
  split; [exact R| |exact O|exact HW|done|done|by rewrite Eu|exact Hw].
  split; rewrite ?Ep, ?Eu.
  - apply (sp_kernel _ _ S).
  - by apply (linked_free (words s) (word m) _ roles d (sp_linked _ _ S)).
  - exact Ho.
  - intros a. split.
    + intros (q & -> & Hqd & Hq)%HU. exists q. split; [done|]. apply lookup_without. split; [done|]. cbn. lia.
    + intros (q & -> & [Hq Hb]%lookup_without). apply (user_live s roles S) in Hq. rewrite Lu in Hq.
      apply elem_of_cons in Hq as [E|?]; [|done]. unfold PAGE_SIZE in E. cbn in Hb. lia.
  - pose proof (sp_nodup _ _ S) as ND. rewrite Lu in ND. by apply NoDup_cons in ND as [_ ?].
  - pose proof (sp_all _ _ S) as P. rewrite Lp, Lu in P. rewrite (Permutation_swap (d * PAGE_SIZE) (kernel_directory s)) in P.
    by apply Permutation_cons_inv in P.
  - rewrite !length_insert. apply S.
  - pose proof (sp_current _ _ S) as Hc. rewrite Lp in Hc. apply elem_of_cons in Hc as [?|?]; [congruence|done].
  - apply S.
  - change (u_active_pages (user_paging_stats s')) with (let a := u_active_pages (user_paging_stats s) in
      if resident (words s) d >? a then 0 else a -w resident (words s) d). cbn zeta.
    change (words s') with (word m). rewrite (sp_pages _ _ S), Hres.
    pose proof (residents_range (word m) (live (<[j := 0]> (user_directories s)))) as Hb. pose proof (live_length (<[j := 0]> (user_directories s))) as Hl.
    rewrite length_insert in Hl. destruct (sp_length _ _ S) as [H64 _]. clear Hres.
    replace (_ >? _) with false by lia. rewrite u32_small; lia.
  - change (u_active_directories (user_paging_stats s')) with (let a := u_active_directories (user_paging_stats s) in
      if a >? 0 then a -w 1 else a). cbn zeta. rewrite (sp_dirs _ _ S).
    pose proof (Permutation_length Lu) as El. cbn [length] in El.
    pose proof (live_length (user_directories s)) as Hl. destruct (sp_length _ _ S) as [H64 _].
    replace (_ >? 0) with true by lia. rewrite u32_small; lia.
  - intros n Hn. change (pg_memory s') with m in Hn. rewrite ET in Hn. rewrite <-(sp_ram _ _ S n Hn).
    pose proof (kernel_page_role s roles S) as Hkp. apply Hw; [by left|congruence|]. by apply (ram_range _ _ n Hr).
Qed.

Lemma released_code m i j n :
  find_slot (d * PAGE_SIZE) (paging_directories s) = Some i → user_directories s !! j = Some (d * PAGE_SIZE) →
  paging_unregister_directory (paging_unregister_user_directory
    (user_stat (s <| pg_memory := m |>) (set u_active_pages (λ a, if n >? a then 0 else a -w n))) j) (d * PAGE_SIZE)
  = released_as m i j n.
Proof.
  intros Hi Hj. pose proof (address_nonzero s mem_live roles Hr S d _ Hd) as Hz. destruct (sp_length _ _ S) as [H64 _].
  assert (j < 64)%nat as Hj64 by (rewrite <-H64; by apply lookup_lt_Some in Hj).
  set (y := user_stat _ _). assert (user_directories y = user_directories s) as Eu by done.
  unfold paging_unregister_user_directory. rewrite Eu. rewrite (nth_lookup_Some _ _ 0 _ Hj), Hz.
  replace (Z.of_nat j >=? PAGING_MAX_USER_DIRECTORIES) with false by (unfold PAGING_MAX_USER_DIRECTORIES; lia). cbn [orb].
  unfold paging_unregister_directory, paging_directory_index. rewrite Hz.
  change (paging_directories (user_stat _ _)) with (paging_directories s). by rewrite Hi.
Qed.

Lemma free_user : d * PAGE_SIZE ≠ current_directory s → freed (paging_free_user_directory s (d * PAGE_SIZE)).
Proof.
  intros Hcur. unfold paging_free_user_directory. pose proof (address_nonzero s mem_live roles Hr S d _ Hd) as Hz. rewrite Hz.
  replace (d * PAGE_SIZE =? current_directory s) with false by lia.
  assert (kernel_page s ≠ d) as Hkd by (pose proof (kernel_page_role s roles S); congruence).
  replace (d * PAGE_SIZE =? kernel_directory s) with false by (rewrite (sp_kernel _ _ S); unfold PAGE_SIZE; lia).
  unfold paging_user_directory_index. rewrite Hz.
  assert (d * PAGE_SIZE ∈ live (user_directories s)) as Hu by (by apply (user_live s roles S)).
  assert (d * PAGE_SIZE ∈ live (paging_directories s)) as Ha by (apply (dir_live s roles S); by right).
  apply index_live in Hu as [_ [j Hj]]. apply index_live in Ha as [_ [i Hi]]. rewrite Hj. apply find_slot_Some in Hj.
  pose proof release_tables as HR. destruct (foldl (release_table (d * PAGE_SIZE)) (s, 0) (range 0 1024)) as [x n].
  destruct HR as [Hx ->]. destruct (released_memory x Hx) as (R & O & HW & ET).
  assert (Hx' := re_state _ _ _ Hx). set (m := pmm_free_page (pg_memory x) (d * PAGE_SIZE)) in *.
  assert (free_page x (d * PAGE_SIZE) = s <| pg_memory := m |>) as -> by (unfold m; rewrite Hx'; done).
  clearbody m. clear Hx Hx' x.
  rewrite (released_code m i j _ Hi Hj). apply find_slot_Some in Hi. by apply released_spec.
Qed.
End free.
