(* ===== verification/PagingBoot.v ===== *)
(** * Building the kernel's map

    RAM and the kernel's own ranges are mapped to the same addresses, for the kernel
    only.  The loop over the tables of a range ends after at most 1024 tables. *)

From S2P Require Import Prelude Registry Memory Pmm Heap HeapRefine MemorySystem PageOwner Paging PagingInv PagingCalls PagingDirs.

(** ** The structure while it is built *)

(** The pages [M] are mapped to themselves; [tables] gives the index of each table.  [m0]
    is the memory before. *)
Definition built (kp : Z) (tables : gmap Z Z) (p : Z) : bool := (p =? kp) || bool_decide (is_Some (tables !! p)).

Record boot (mem_live : gmap Z (list Z)) (m0 : memory_t) (x : paging_t) (kp : Z) (tables : gmap Z Z) (M : Z → bool) : Prop := {
  bt_run : run (pg_memory x) mem_live;
  bt_kernel : kernel_directory x = kp * PAGE_SIZE;
  bt_fresh : tables !! kp = None;
  bt_owned p : owned x p = built kp tables p || page_owned m0 p;
  bt_new p : built kp tables p = true → page_owned m0 p = false;
  bt_kept p j : page_owned m0 p = true → 0 ≤ j < 1024 → words x p j = word m0 p j;
  bt_total : mi_total_memory (mem_info (pg_memory x)) = mi_total_memory (mem_info m0);
  bt_free : mi_free_pages (mem_info (pg_memory x)) = mi_free_pages (mem_info m0) - 1 - Z.of_nat (size tables);
  bt_entry i : 0 ≤ i < 1024 →
    (words x kp i = 0 ∧ ∀ n, n / 1024 = i → M n = false) ∨ ∃ t, links (words x kp i) t false ∧ tables !! t = Some i;
  bt_table t i : tables !! t = Some i →
    0 ≤ i < 1024 ∧ links (words x kp i) t false ∧
    ∀ j, 0 ≤ j < 1024 → entry_user (words x t j) = false ∧ entry_present (words x t j) = M (i * 1024 + j) ∧
      (M (i * 1024 + j) = true → entry_rw (words x t j) = true ∧ entry_frame (words x t j) = i * 1024 + j);
  bt_window t i : tables !! t = Some i → i < 2 ∨ 3 < i
}.

Lemma boot_ext mem_live m0 x kp tables M M' :
  (∀ n, 0 ≤ n → M' n = M n) → boot mem_live m0 x kp tables M → boot mem_live m0 x kp tables M'.
Proof.
  intros HM [R K F O N P TM FR E T WD]. split; try done.
  - intros i Hi. destruct (E i Hi) as [[E0 HN]|?]; [left|by right]. split; [done|]. intros n Hn. rewrite HM by divlia. by apply HN.
  - intros t i Ht. destruct (T t i Ht) as (Hi & Hl & Hj). do 2 (split; [done|]). intros j Hjr. rewrite HM by lia. by apply Hj.
Qed.

(** Only memory and the kernel's directory matter. *)
Lemma boot_same mem_live m0 x y kp tables M :
  pg_memory y = pg_memory x → kernel_directory y = kernel_directory x →
  boot mem_live m0 x kp tables M → boot mem_live m0 y kp tables M.
Proof.
  intros Em Ek [R K F O N P TM FR E T WD]. split; unfold owned, words in *; rewrite ?Em; try done. by rewrite Ek.
Qed.

(** The map, as the processor reads it. *)
Lemma boot_walk mem_live m0 x kp tables M n :
  boot mem_live m0 x kp tables M → 0 ≤ n < 2 ^ 20 → walk (words x) kp n = if M n then Some (Mapping n true false) else None.
Proof.
  intros B Hn. pose proof (page_parts n Hn) as [Hi Hj].
  destruct (bt_entry _ _ _ _ _ _ B _ Hi) as [[E0 HN]|(t & Hl & Ht)].
  - rewrite walk_absent by done. by rewrite HN.
  - rewrite (walk_via _ _ _ t false) by done. cbn zeta.
    destruct (bt_table _ _ _ _ _ _ B t _ Ht) as (_ & _ & HT). destruct (HT _ Hj) as (Hu & Hp & HM).
    rewrite <-page_index_split in *. rewrite Hp. destruct (M n); [|done]. by destruct (HM eq_refl) as [-> ->].
Qed.

(** With no process yet, it is the structure of [linked]. *)
Definition boot_roles (kp : Z) (tables : gmap Z Z) : gmap Z role := <[kp := KernelDirectory]> (KernelTable <$> tables).

Lemma lookup_boot_roles kp tables p r :
  tables !! kp = None →
  boot_roles kp tables !! p = Some r ↔ p = kp ∧ r = KernelDirectory ∨ ∃ i, tables !! p = Some i ∧ r = KernelTable i.
Proof.
  intros Hk. unfold boot_roles. rewrite lookup_insert_Some, lookup_fmap, fmap_Some. split.
  - intros [[<- <-]|[_ (i & Hi & ->)]]; [by left|right; by exists i].
  - intros [[-> ->]|(i & Hi & ->)]; [by left|right]. split; [congruence|by exists i].
Qed.

Lemma boot_linked mem_live m0 x kp tables M : boot mem_live m0 x kp tables M → linked (words x) kp (boot_roles kp tables).
Proof.
  intros [R K F O N P TM FR E T WD]. split.
  - intros p. rewrite lookup_boot_roles by done. split; [by intros [[? _]|(i & _ & ?)]|by left].
  - intros i Hi. destruct (E i Hi) as [[E0 _]|(t & Hl & Ht)]; [by left|right]. exists t. split; [done|].
    apply lookup_boot_roles; [done|]. right. by exists i.
  - intros t i. rewrite lookup_boot_roles by done. intros [[_ ?]|(k & Ht & [= ->])]; [done|].
    destruct (T t k Ht) as (Hi & Hl & Hj). do 2 (split; [done|]). intros j Hjr. by apply Hj.
  - intros d i. rewrite lookup_boot_roles by done. by intros [[_ ?]|(k & _ & ?)].
  - intros t d i. rewrite lookup_boot_roles by done. by intros [[_ ?]|(k & _ & ?)].
  - intros f d v. rewrite lookup_boot_roles by done. by intros [[_ ?]|(k & _ & ?)].
  - intros i Hi. destruct (E i ltac:(lia)) as [[E0 _]|(t & _ & Ht)]; [done|]. destruct (WD t i Ht); lia.
Qed.

(** ** Tables *)

Lemma size_list_to_set_le (l : list Z) : (size (list_to_set l : gset Z) ≤ length l)%nat.
Proof.
  induction l as [|x l IH]; [done|]. cbn [list_to_set length].
  pose proof (size_union_alt ({[x]} : gset Z) (list_to_set l)) as E. rewrite size_singleton in E.
  assert (size (list_to_set l ∖ {[x]} : gset Z) ≤ size (list_to_set l : gset Z))%nat; [|lia].
  apply subseteq_size. by apply subseteq_difference_l.
Qed.

Section boot.
Context (mem_live : gmap Z (list Z)) (m0 : memory_t).

Lemma built_kernel kp tables : built kp tables kp = true.
Proof. unfold built. by rewrite Z.eqb_refl. Qed.
Lemma built_table kp tables t i : tables !! t = Some i → built kp tables t = true.
Proof. intros Ht. unfold built. rewrite Ht, bool_decide_true by (by eexists). apply orb_true_r. Qed.
Lemma built_insert kp tables t i p : built kp (<[t := i]> tables) p = (p =? t) || built kp tables p.
Proof.
  unfold built. destruct (Z.eqb_spec p t) as [->|Hp]; cbn [orb].
  - rewrite lookup_insert_eq, bool_decide_true by (by eexists). apply orb_true_r.
  - by rewrite lookup_insert_ne by done.
Qed.

Section step.
Context (x : paging_t) (kp : Z) (tables : gmap Z Z) (M : Z → bool) (B : boot mem_live m0 x kp tables M).

Lemma built_owned p : built kp tables p = true → owned x p = true.
Proof. intros Hp. by rewrite (bt_owned _ _ _ _ _ _ B), Hp. Qed.
Lemma owned_kernel : owned x kp = true.
Proof. apply built_owned, built_kernel. Qed.
Lemma owned_table t i : tables !! t = Some i → owned x t = true.
Proof. intros Ht. by eapply built_owned, built_table. Qed.
Lemma built_range p : built kp tables p = true → 5120 ≤ p < 2 ^ 20.
Proof. intros Hp%built_owned. eapply (owned_range x mem_live); [apply B|done]. Qed.

(** There is at most one table for each of the 1024 entries. *)
Lemma tables_bound : Z.of_nat (size tables) ≤ 1024.
Proof.
  rewrite <-(size_dom tables). assert (dom tables ⊆ list_to_set (C := gset Z) (map (λ i, entry_frame (words x kp i)) (range 0 1024))) as Hsub.
  { intros t [i Ht]%elem_of_dom. apply elem_of_list_to_set, list_elem_of_fmap. exists i.
    destruct (bt_table _ _ _ _ _ _ B t i Ht) as (Hi & Hl & _). split; [symmetry; apply Hl|by apply elem_of_range]. }
  apply subseteq_size in Hsub. pose proof (size_list_to_set_le (map (λ i, entry_frame (words x kp i)) (range 0 1024))) as Hle.
  rewrite length_map in Hle. change (length (range 0 1024)) with 1024%nat in Hle. lia.
Qed.

(** Memory that keeps what is handed out. *)
Lemma boot_quiet m :
  run m mem_live → (∀ p, page_owned m p = owned x p) →
  (∀ p j, owned x p = true → 0 ≤ j < 1024 → word m p j = words x p j) →
  mi_total_memory (mem_info m) = mi_total_memory (mem_info (pg_memory x)) →
  mi_free_pages (mem_info m) = mi_free_pages (mem_info (pg_memory x)) →
  boot mem_live m0 (x <| pg_memory := m |>) kp tables M.
Proof.
  intros R' O' HW Et Ef. pose proof B as [R K F O N P TM FR E T WD]. split; [done|done|done|..].
  - intros p. rewrite <-O. apply O'.
  - done.
  - intros p j Hp Hj. rewrite <-P by done. apply HW; [|done]. rewrite O, Hp. apply orb_true_r.
  - rewrite <-TM. exact Et.
  - rewrite <-FR. exact Ef.
  - intros i Hi. change (words (x <| pg_memory := m |>)) with (word m). rewrite HW; [by apply E|apply owned_kernel|done].
  - intros t i Ht. change (words (x <| pg_memory := m |>)) with (word m). destruct (T t i Ht) as (Hi & Hl & Hj).
    rewrite HW; [|apply owned_kernel|done]. do 2 (split; [done|]). intros j Hjr.
    rewrite HW; [by apply Hj|by eapply owned_table|done].
  - done.
Qed.

Lemma boot_add_table m t i :
  0 ≤ i < 1024 → i < 2 ∨ 3 < i → words x kp i = 0 → owned x t = false → run m mem_live →
  (∀ p, page_owned m p = (p =? t) || owned x p) → links (word m kp i) t false → (∀ j, 0 ≤ j < 1024 → word m t j = 0) →
  (∀ p j, owned x p = true → 0 ≤ j < 1024 → p ≠ kp ∨ j ≠ i → word m p j = words x p j) →
  mi_total_memory (mem_info m) = mi_total_memory (mem_info (pg_memory x)) →
  mi_free_pages (mem_info m) = mi_free_pages (mem_info (pg_memory x)) - 1 →
  boot mem_live m0 (x <| pg_memory := m |>) kp (<[t := i]> tables) M.
Proof.
  intros Hi Hwin E0 Ht R' O' Hl Hz HW Et Ef. pose proof B as [R K F O N P TM FR E T WD]. pose proof owned_kernel as Hok.
  assert (t ≠ kp) as Htk by congruence.
  assert (∀ u k, tables !! u = Some k → u ≠ t) as Hne by (intros u k Hu%owned_table; congruence).
  assert (page_owned m0 t = false) as Ht0 by (rewrite O in Ht; by apply orb_false_iff in Ht as [_ ?]).
  assert (∀ n, n / 1024 = i → M n = false) as HN.
  { destruct (E i Hi) as [[_ HN]|(u & Hu & _)]; [done|]. rewrite E0 in Hu. by apply links_zero in Hu. }
  split; [done|done|by rewrite lookup_insert_ne|..].
  - intros p. change (page_owned m p = built kp (<[t := i]> tables) p || page_owned m0 p).
    rewrite O', O, built_insert. apply orb_assoc.
  - intros p. rewrite built_insert. destruct (Z.eqb_spec p t) as [->|]; [done|]. apply N.
  - intros p j Hp Hj. rewrite <-P by done. apply HW; [by rewrite O, Hp, orb_true_r|done|left].
    intros ->. by rewrite N in Hp by apply built_kernel.
  - rewrite <-TM. exact Et.
  - change (mi_free_pages (mem_info m) = mi_free_pages (mem_info m0) - 1 - Z.of_nat (size (<[t := i]> tables))).
    rewrite map_size_insert_None; [lia|]. destruct (tables !! t) as [k|] eqn:Ek; [|done]. by destruct (Hne t k Ek).
  - intros k Hk. change (words (x <| pg_memory := m |>)) with (word m). destruct (decide (k = i)) as [->|Hki].
    { right. exists t. by rewrite lookup_insert_eq. }
    rewrite HW; [|done|done|by right]. destruct (E k Hk) as [?|(u & Hu & Hr)]; [by left|right].
    exists u. rewrite lookup_insert_ne by (by apply not_eq_sym, (Hne _ _ Hr)). done.
  - intros u k. change (words (x <| pg_memory := m |>)) with (word m). rewrite lookup_insert_Some. intros [[<- <-]|[Hut Hu]].
    + do 2 (split; [done|]). intros j Hj. rewrite Hz by done. rewrite HN by divlia. done.
    + destruct (T u k Hu) as (Hk & Hlk & Hj). assert (k ≠ i) as Hki.
      { intros ->. rewrite E0 in Hlk. by apply links_zero in Hlk. }
      rewrite HW; [|done|done|by right]. do 2 (split; [done|]). intros j Hjr.
      rewrite HW; [by apply Hj|by eapply owned_table|done|left]. congruence.
  - intros u k. rewrite lookup_insert_Some. intros [[<- <-]|[_ Hu]]; [done|by eapply WD].
Qed.

(** One page mapped to itself. *)
Definition with_page (n : Z) : Z → bool := λ k, (k =? n) || M k.

Lemma boot_add_page m t i j e :
  tables !! t = Some i → 0 ≤ j < 1024 → run m mem_live → (∀ p, page_owned m p = owned x p) →
  (∀ p k, 0 ≤ k < 1024 → word m p k = if (p =? t) && (k =? j) then e else words x p k) →
  mi_total_memory (mem_info m) = mi_total_memory (mem_info (pg_memory x)) →
  mi_free_pages (mem_info m) = mi_free_pages (mem_info (pg_memory x)) →
  entry_present e = true → entry_rw e = true → entry_user e = false → entry_frame e = i * 1024 + j →
  boot mem_live m0 (x <| pg_memory := m |>) kp tables (with_page (i * 1024 + j)).
Proof.
  intros Ht Hj R' O' HW Et Ef E1 E2 E3 E4. pose proof B as [R K F O N P TM FR E T WD]. pose proof owned_kernel as Hok.
  assert (t ≠ kp) as Htk by congruence. destruct (T t i Ht) as (Hi & Hl & HT).
  assert (∀ p k, p ≠ t → 0 ≤ k < 1024 → word m p k = words x p k) as Hne.
  { intros p k Hp Hk. rewrite HW by done. by replace (p =? t) with false by lia. }
  assert (∀ k, k / 1024 ≠ i → with_page (i * 1024 + j) k = M k) as Hout.
  { intros k Hk. unfold with_page. replace (k =? i * 1024 + j) with false; [done|]. divlia. }
  split; [done|done|done|..].
  - intros p. rewrite <-O. apply O'.
  - done.
  - intros p k Hp Hk. rewrite <-P by done. apply Hne; [|done]. intros ->. by rewrite N in Hp by (by eapply built_table).
  - rewrite <-TM. exact Et.
  - rewrite <-FR. exact Ef.
  - intros k Hk. change (words (x <| pg_memory := m |>)) with (word m). rewrite Hne by done.
    destruct (E k Hk) as [[E0 HN]|?]; [left|by right]. split; [done|]. intros n Hn.
    rewrite Hout; [by apply HN|]. rewrite Hn. intros ->. rewrite E0 in Hl. by apply links_zero in Hl.
  - intros u k Hu. change (words (x <| pg_memory := m |>)) with (word m). destruct (T u k Hu) as (Hk & Hlk & HTu).
    rewrite Hne by done. do 2 (split; [done|]). intros q Hq. rewrite HW by done.
    destruct (Z.eqb_spec u t) as [->|Hut]; cbn [andb].
    + rewrite Ht in Hu. injection Hu as <-. unfold with_page. destruct (Z.eqb_spec q j) as [->|Hqj].
      * rewrite Z.eqb_refl. cbn [orb]. done.
      * replace (i * 1024 + q =? i * 1024 + j) with false by lia. by apply HT.
    + assert (k ≠ i) as Hki.
      { intros ->. destruct Hut. pose proof (ln_frame _ _ _ Hl). pose proof (ln_frame _ _ _ Hlk). congruence. }
      rewrite Hout by divlia. by apply HTu.
  - done.
Qed.
End step.

(** Building the map changes memory and the boot statistics only. *)
Record follows (x y : paging_t) : Prop := {
  fo_current : current_directory y = current_directory x;
  fo_kernel : kernel_directory y = kernel_directory x;
  fo_initialized : paging_initialized y = paging_initialized x;
  fo_users : user_directories y = user_directories x;
  fo_all : paging_directories y = paging_directories x;
  fo_stats : user_paging_stats y = user_paging_stats x
}.
Instance follows_preorder : PreOrder follows.
Proof. split; [by split|]. intros x y z [] []. split; congruence. Qed.

Lemma bootstrap_table x kp tables M i x' a :
  boot mem_live m0 x kp tables M → 0 ≤ i < 1024 → i < 2 ∨ 3 < i → paging_bootstrap_get_table x i = (x', a) →
  follows x x' ∧
  (a = 0 ∧ boot mem_live m0 x' kp tables M ∧ mi_free_pages (mem_info (pg_memory x')) = 0 ∨
   ∃ t tables', a = t * PAGE_SIZE ∧ (a =? 0) = false ∧ boot mem_live m0 x' kp tables' M ∧ tables' !! t = Some i).
Proof.
  intros B Hi Hwin E. pose proof (built_range x kp tables M B kp (built_kernel _ _)) as Hkr.
  unfold paging_bootstrap_get_table in E. rewrite (bt_kernel _ _ _ _ _ _ B) in E.
  replace (kp * PAGE_SIZE =? 0) with false in E by (unfold PAGE_SIZE; lia).
  replace (i >=? PAGING_TABLE_ENTRIES) with false in E by (unfold PAGING_TABLE_ENTRIES; lia). cbn [orb] in E.
  change (dir_entry x (kp * PAGE_SIZE) i) with (words x kp i) in E. rewrite has_present, has_user in E. cbn zeta in E.
  destruct (bt_entry _ _ _ _ _ _ B i Hi) as [[E0 _]|(t & Hl & Ht)].
  - rewrite E0 in E. change (entry_present 0) with false in E. cbv iota in E. unfold alloc_page in E.
    destruct (pmm_alloc_page_in_zone (pg_memory x) MEMORY_ZONE_KERNEL) as [m1 b] eqn:Ea.
    destruct (alloc_page_law _ _ (bt_run _ _ _ _ _ _ B) _ _ _ Ea) as (R1 & W1 & T1 & [[-> O1]|(t & -> & Ht & Hfree & O1)]).
    + injection E as <- <-. split; [by split|]. left. split; [done|].
      destruct (alloc_counts _ _ 1 _ _ _ (bt_run _ _ _ _ _ _ B) ltac:(lia) Ea) as (_ & Hf & H0). cbn [Z.eqb] in Hf. rewrite Z.sub_0_r in Hf.
      split; [by apply boot_quiet|]. change (mi_free_pages (mem_info m1) = 0). rewrite Hf. by apply H0.
    + assert ((t * PAGE_SIZE =? 0) = false) as Hz by (unfold PAGE_SIZE; lia). rewrite Hz, build_table_entry in E by done.
      change (kernel_directory (memset_page (x <| pg_memory := m1 |>) (t * PAGE_SIZE))) with (kernel_directory x) in E.
      rewrite (bt_kernel _ _ _ _ _ _ B) in E. injection E as <- <-.
      pose proof (owned_kernel x kp tables M B) as Hok.
      destruct (fresh_table_law _ mem_live _ m1 t kp i (t * PAGE_SIZE + 3) (bt_run _ _ _ _ _ _ B) Hok Hi
        ltac:(unfold PAGE_SIZE; lia) Ea ltac:(lia)) as [R F _ O Z He W T].
      split; [by split|]. right. exists t, (<[t := i]> tables). split; [done|]. split; [done|]. split; [|by rewrite lookup_insert_eq].
      apply (boot_same _ _ (x <| pg_memory := fresh_table m1 t kp i (t * PAGE_SIZE + 3) |>)); [done|done|].
      apply (boot_add_table x kp tables M B _ t i Hi Hwin E0 F R O); [|exact Z|exact W|exact T|].
      { rewrite He. apply links_entry. }
      destruct (alloc_counts _ _ 1 _ _ _ (bt_run _ _ _ _ _ _ B) ltac:(lia) Ea) as (_ & Hf & _). rewrite Hz in Hf. exact Hf.
  - rewrite (ln_present _ _ _ Hl), (ln_user _ _ _ Hl), (entry_table_links _ t false (words_range _ _ _) Hl) in E.
    injection E as <- <-. split; [done|]. right. exists t, tables. split; [done|]. split; [|done].
    pose proof (built_range x kp tables M B t (built_table _ _ _ _ Ht)). unfold PAGE_SIZE. lia.
Qed.

(** ** Ranges *)

Definition with_range (M : Z → bool) (lo hi : Z) : Z → bool := λ n, (lo <=? n) && (n <? hi) || M n.

Lemma with_range_page M n k : with_range M n (n + 1) k = with_page M n k.
Proof. unfold with_range, with_page. f_equal. lia. Qed.
Lemma with_range_nil M n k : with_range M n n k = M k.
Proof. unfold with_range. by replace ((n <=? k) && (k <? n)) with false by lia. Qed.
Lemma with_range_join M a b c k : a ≤ b ≤ c → with_range (with_range M a b) b c k = with_range M a c k.
Proof. intros. unfold with_range. rewrite orb_assoc. f_equal. lia. Qed.

(** One entry of the inner loop: it cannot conflict. *)
Lemma identity_page x kp tables M t i j n :
  boot mem_live m0 x kp tables M → tables !! t = Some i → 0 ≤ j < 1024 → n = i * 1024 + j →
  let w := words x t j in
  entry_present w && (negb (entry_frame w =? n) || entry_user w) = false ∧
  ∀ y, pg_memory y = pg_memory x → kernel_directory y = kernel_directory x →
    boot mem_live m0 (store_word y (entry_address (t * PAGE_SIZE) j) (entry_fill w n true false)) kp tables (with_page M n).
Proof.
  intros B Ht Hj -> w. destruct (bt_table _ _ _ _ _ _ B t i Ht) as (Hi & _ & HT). destruct (HT j Hj) as (Hu & Hp & HM).
  fold w in Hu, Hp, HM. split.
  - rewrite Hp, Hu. destruct (M _); [|done]. destruct (HM eq_refl) as [_ ->]. by rewrite Z.eqb_refl.
  - intros y Em Ek. assert (0 ≤ i * 1024 + j < 2 ^ 20) as Hn by lia.
    destruct (entry_fill_spec w (i * 1024 + j) true false Hn) as (E1 & E2 & E3 & E4).
    destruct (put_word_law _ mem_live (bt_run _ _ _ _ _ _ B) t j (entry_fill w (i * 1024 + j) true false)) as [R O];
      [by apply (owned_table x kp tables M B t i)|done|].
    apply (boot_same _ _ (x <| pg_memory := put_word (pg_memory x) t j (entry_fill w (i * 1024 + j) true false) |>)).
    { unfold store_word. change (pg_memory (y <| pg_memory ::= ?f |>)) with (f (pg_memory y)). by rewrite Em. }
    { exact Ek. }
    apply (boot_add_page x kp tables M B _ t i j (entry_fill w (i * 1024 + j) true false)); try done.
    intros p k Hk. rewrite word_put by done. destruct (_ && _); [|done]. apply u32_small, entry_fill_range. lia.
Qed.

Lemma identity_pages_spec t i tables kp count : ∀ x M e,
  boot mem_live m0 x kp tables M → tables !! t = Some i → 0 ≤ e → e + Z.of_nat count ≤ 1024 →
  i * 1024 + e + Z.of_nat count < 2 ^ 20 →
  ∃ x', identity_pages count x (t * PAGE_SIZE) e ((i * 1024 + e) * PAGE_SIZE) =
      (x', (i * 1024 + e + Z.of_nat count) * PAGE_SIZE, OK) ∧
    follows x x' ∧ boot mem_live m0 x' kp tables (with_range M (i * 1024 + e) (i * 1024 + e + Z.of_nat count)).
Proof.
  induction count as [|count IH]; intros x M e B Ht He Hc Hb.
  - exists x. rewrite Z.add_0_r. split; [done|]. split; [done|]. eapply boot_ext; [|exact B]. intros n _. apply with_range_nil.
  - cbn [identity_pages]. rewrite page_of_address.
    change (load_word x (entry_address (t * PAGE_SIZE) e)) with (words x t e).
    destruct (identity_page x kp tables M t i e (i * 1024 + e) B Ht ltac:(lia) eq_refl) as [-> HB].
    destruct (bt_table _ _ _ _ _ _ B t i Ht) as (Hi & _). rewrite u32_small by (unfold PAGE_SIZE; lia).
    replace ((i * 1024 + e) * PAGE_SIZE + PAGE_SIZE) with ((i * 1024 + (e + 1)) * PAGE_SIZE) by (unfold PAGE_SIZE; lia).
    set (y := if entry_present (words x t e) then x else _). assert (pg_memory y = pg_memory x ∧ follows x y) as [Em Hf]
      by (unfold y; by destruct (entry_present _)). specialize (HB y Em (fo_kernel _ _ Hf)). clearbody y.
    destruct (IH _ _ (e + 1) HB Ht ltac:(lia) ltac:(lia) ltac:(lia)) as (x' & -> & Hf' & B').
    exists x'. split; [do 2 f_equal; f_equal; lia|]. split; [etrans; [exact Hf|]; etrans; [|exact Hf']; by split|].
    eapply boot_ext; [|exact B']. intros n _. unfold with_range, with_page. lia.
Qed.

Lemma identity_tables_spec kp fuel : ∀ x tables M a b,
  boot mem_live m0 x kp tables M → 0 ≤ a ≤ b → b < 2 ^ 20 → b ≤ 2048 ∨ 4096 ≤ a → b ≤ a ∨ 1024 - a / 1024 ≤ Z.of_nat fuel →
  ∃ x' st tables' c, identity_tables fuel x (a * PAGE_SIZE) (b * PAGE_SIZE) = (x', st) ∧ follows x x' ∧ a ≤ c ≤ b ∧
    boot mem_live m0 x' kp tables' (with_range M a c) ∧ (st = OK ∧ c = b ∨ st = ERR_MEM ∧ mi_free_pages (mem_info (pg_memory x')) = 0).
Proof.
  induction fuel as [|fuel IH]; intros x tables M a b B Ha Hb Hwin Hfuel.
  - assert (a = b) as -> by divlia. exists x, OK, tables, b. split; [done|]. split; [done|]. split; [lia|]. split; [|by left].
    eapply boot_ext; [|exact B]. intros n _. apply with_range_nil.
  - cbn [identity_tables]. destruct (decide (a = b)) as [->|Hab].
    { replace (_ >=? _) with true by lia. exists x, OK, tables, b. split; [done|]. split; [done|]. split; [lia|]. split; [|by left].
      eapply boot_ext; [|exact B]. intros n _. apply with_range_nil. }
    replace (a * PAGE_SIZE >=? b * PAGE_SIZE) with false by (unfold PAGE_SIZE; lia).
    rewrite table_index_page, page_index_page. pose proof (page_parts a ltac:(lia)) as [Hi Hj].
    replace ((b * PAGE_SIZE - a * PAGE_SIZE) / PAGE_SIZE) with (b - a)
      by (rewrite <-Z.mul_sub_distr_r; symmetry; by apply Z.div_mul).
    set (tp := Z.min (PAGING_TABLE_ENTRIES - a mod 1024) (b - a)).
    assert (0 < tp ≤ b - a ∧ tp ≤ 1024 - a mod 1024 ∧ (tp = b - a ∨ (a + tp) / 1024 = a / 1024 + 1)) as (H1 & H2 & H3).
    { unfold tp, PAGING_TABLE_ENTRIES. divlia. }
    clearbody tp. destruct (paging_bootstrap_get_table x (a / 1024)) as [x1 table] eqn:Et.
    destruct (bootstrap_table x kp tables M (a / 1024) x1 table B Hi ltac:(divlia) Et) as [F1 [(-> & B1 & H0)|(t & tables1 & -> & -> & B1 & Ht)]].
    + exists x1, ERR_MEM, tables, a. split; [done|]. split; [done|]. split; [lia|]. split; [|by right].
      eapply boot_ext; [|exact B1]. intros n _. apply with_range_nil.
    + destruct (identity_pages_spec t (a / 1024) tables1 kp (Z.to_nat tp) x1 M (a mod 1024) B1 Ht) as (x2 & E2 & F2 & B2);
        [lia|lia|rewrite <-page_index_split; lia|].
      rewrite <-page_index_split, Z2Nat.id in E2, B2 by lia. rewrite E2.
      destruct (IH x2 tables1 _ (a + tp) b B2) as (x3 & st & tables3 & c & E3 & F3 & Hc & B3 & Hst);
        [lia|lia|lia|destruct H3; [left; lia|right; lia]|].
      exists x3, st, tables3, c. split; [exact E3|]. split; [etrans; [exact F1|etrans; [exact F2|exact F3]]|]. split; [lia|].
      split; [|done]. eapply boot_ext; [|exact B3]. intros n _. symmetry. apply with_range_join. lia.
Qed.

(** A range of whole pages outside user space. *)
Definition outside_user_space (first last : Z) : bool := (last <=? USER_SPACE_START) || (USER_SPACE_END <=? first).
Definition page_range (first last : Z) : bool :=
  (0 <=? first) && (first <? last) && (last <? 2 ^ 32) && (first mod PAGE_SIZE =? 0) && (last mod PAGE_SIZE =? 0) &&
  outside_user_space first last.

(** The map grows by a part of [P]; by all of it when [full]. *)
Definition grown (M M' P : Z → bool) (full : bool) : Prop :=
  ∀ n, 0 ≤ n → (M n = true → M' n = true) ∧ (M' n = true → P n || M n = true) ∧ (full = true → M' n = P n || M n).

Lemma page_range_pages first last :
  page_range first last = true →
  ∃ a b, first = a * PAGE_SIZE ∧ last = b * PAGE_SIZE ∧ 0 ≤ a ∧ a < b ∧ b < 2 ^ 20 ∧ (b ≤ 2048 ∨ 4096 ≤ a).
Proof.
  unfold page_range, outside_user_space, USER_SPACE_START, USER_SPACE_END. intros H.
  exists (first / PAGE_SIZE), (last / PAGE_SIZE). unfold PAGE_SIZE in *. divlia.
Qed.

Lemma fuel_enough a b : 0 ≤ a → b ≤ a ∨ 1024 - a / 1024 ≤ Z.of_nat 1025.
Proof. intros Ha. right. pose proof (Z.div_pos a 1024 Ha). lia. Qed.

Lemma map_fast_code x a b :
  a < b → paging_map_identity_range_fast x (a * PAGE_SIZE) (b * PAGE_SIZE) = identity_tables 1025 x (a * PAGE_SIZE) (b * PAGE_SIZE).
Proof.
  intros H. unfold paging_map_identity_range_fast. rewrite !Z.mod_mul by done.
  by replace (a * PAGE_SIZE >=? b * PAGE_SIZE) with false by (unfold PAGE_SIZE; lia).
Qed.

Lemma map_fast x kp tables M first last :
  boot mem_live m0 x kp tables M → page_range first last = true →
  ∃ x' st tables' M', paging_map_identity_range_fast x first last = (x', st) ∧ follows x x' ∧
    boot mem_live m0 x' kp tables' M' ∧ grown M M' (in_range (first, last)) (bool_decide (st = OK)) ∧
    (st = OK ∨ st = ERR_MEM ∧ mi_free_pages (mem_info (pg_memory x')) = 0).
Proof.
  intros B (a & b & -> & -> & Ha & Hab & Hb & Hwin)%page_range_pages. rewrite map_fast_code by done.
  destruct (identity_tables_spec kp 1025 x tables M a b B) as (x' & st & tables' & c & -> & F & Hc & B' & Hst);
    [lia|lia|lia|by apply fuel_enough|].
  exists x', st, tables', (with_range M a c). split; [done|]. split; [done|]. split; [done|]. split; [|destruct Hst as [[-> _]|[-> H0]]; auto].
  intros n Hn. unfold in_range, with_range. cbn [fst snd]. rewrite !page_of_address. split; [intros ->; apply orb_true_r|].
  destruct Hst as [[-> ->]|[-> _]]; [done|]. split; [|done]. lia.
Qed.

Lemma map_ranges_spec kp l : ∀ x tables M,
  boot mem_live m0 x kp tables M → forallb (λ r, page_range r.1 r.2) l = true →
  ∃ x' ok tables' M', map_ranges x l = (x', ok) ∧ follows x x' ∧ boot mem_live m0 x' kp tables' M' ∧ grown M M' (in_ranges l) ok ∧
    (ok = false → mi_free_pages (mem_info (pg_memory x')) = 0).
Proof.
  induction l as [|[first last] l IH]; intros x tables M B Hl.
  - exists x, true, tables, M. split; [done|]. split; [done|]. split; [done|]. split; [|done]. by intros n _.
  - cbn [forallb fst snd] in Hl. apply andb_true_iff in Hl as [Hr Hl]. cbn [map_ranges].
    destruct (map_fast x kp tables M first last B Hr) as (x1 & st & tables1 & M1 & -> & F1 & B1 & G1 & Hst).
    destruct Hst as [-> |[-> H0]].
    + destruct (IH x1 tables1 M1 B1 Hl) as (x2 & ok & tables2 & M2 & -> & F2 & B2 & G2 & H2).
      exists x2, ok, tables2, M2. split; [done|]. split; [by etrans|]. split; [done|]. split; [|done].
      intros n Hn. destruct (G1 n Hn) as (G11 & G12 & G13). destruct (G2 n Hn) as (G21 & G22 & G23).
      rewrite bool_decide_true in G13 by done. specialize (G13 eq_refl). rewrite G13 in *.
      cbn [in_ranges existsb]. fold (in_ranges l n). destruct (in_range (first, last) n), (in_ranges l n), (M n), (M2 n), ok; naive_solver.
    + exists x1, false, tables1, M1. split; [done|]. split; [done|]. split; [done|]. split; [|done].
      intros n Hn. destruct (G1 n Hn) as (G11 & G12 & _). cbn [in_ranges existsb]. fold (in_ranges l n).
      destruct (in_range (first, last) n), (in_ranges l n), (M n), (M1 n); naive_solver.
Qed.

(** ** The ranges of [paging_init] *)

Lemma grown_trans M1 M2 M3 P Q full :
  grown M1 M2 P true → grown M2 M3 Q full → grown M1 M3 (λ n, P n || Q n) full.
Proof.
  intros G1 G2 n Hn. destruct (G1 n Hn) as (_ & _ & G13). destruct (G2 n Hn) as (G21 & G22 & G23). specialize (G13 eq_refl).
  rewrite G13 in *. destruct (P n), (Q n), (M1 n), (M3 n), full; naive_solver.
Qed.

Lemma grown_weaken M M' P Q : grown M M' P false → (∀ n, P n = true → Q n = true) → grown M M' Q false.
Proof.
  intros G HQ n Hn. destruct (G n Hn) as (G1 & G2 & _). split; [done|]. split; [|done]. intros H%G2.
  apply orb_true_iff in H as [->%HQ| ->]; [done|apply orb_true_r].
Qed.

Lemma total_range m : run m mem_live → page_range PHYSICAL_IDENTITY_START (mi_total_memory (mem_info m)) = true.
Proof.
  intros Hr. pose proof (run_wf _ _ Hr) as W. rewrite (wf_total _ W). pose proof (pl_pages _ (wf_layout _ W)).
  pose proof (wf_min _ W) as Hm. change (MIN_USABLE_MEMORY_END / PAGE_SIZE) with 8160 in Hm. unfold page_range.
  change PHYSICAL_IDENTITY_START with (5120 * PAGE_SIZE). rewrite !Z.mod_mul by done. unfold outside_user_space, USER_SPACE_END, PAGE_SIZE. lia.
Qed.

Lemma map_all_spec x kp tables M :
  boot mem_live m0 x kp tables M →
  ∃ x' ok tables' M', map_all x = (x', ok) ∧ follows x x' ∧ boot mem_live m0 x' kp tables' M' ∧
    grown M M' (in_ranges (kernel_ranges (mi_total_memory (mem_info m0)))) ok ∧
    (ok = false → mi_free_pages (mem_info (pg_memory x')) = 0).
Proof.
  intros B. unfold map_all, kernel_ranges.
  destruct (map_ranges_spec kp boot_ranges x tables M B eq_refl) as (x1 & ok & tables1 & M1 & -> & F1 & B1 & G1 & H1). destruct ok.
  - unfold memory_get_total. pose proof (total_range _ (bt_run _ _ _ _ _ _ B1)) as Ht. rewrite (bt_total _ _ _ _ _ _ B1) in *.
    set (total := mi_total_memory (mem_info m0)) in *. clearbody total.
    replace (total <=? PHYSICAL_IDENTITY_START) with false by (unfold page_range in Ht; lia).
    destruct (map_ranges_spec kp (ram_ranges total) x1 tables1 M1 B1) as (x2 & ok & tables2 & M2 & -> & F2 & B2 & G2 & H2).
    { cbn [ram_ranges forallb fst snd]. by rewrite Ht. }
    exists x2, ok, tables2, M2. split; [done|]. split; [by etrans|]. split; [done|]. split; [|done].
    pose proof (grown_trans _ _ _ _ _ _ G1 G2) as G. intros n Hn. rewrite in_ranges_app. by apply G.
  - exists x1, false, tables1, M1. split; [done|]. split; [done|]. split; [done|]. split; [|done].
    eapply grown_weaken; [exact G1|]. intros n Hn. by rewrite in_ranges_app, Hn.
Qed.

(** The pages of the framebuffer. *)
Definition framebuffer_range (mode : vesa_mode_t) : Z * Z :=
  (vm_framebuffer mode / PAGE_SIZE * PAGE_SIZE,
   (vm_framebuffer mode + vm_pitch mode * vm_height mode + PAGE_SIZE - 1) / PAGE_SIZE * PAGE_SIZE).
Definition mode_typed (mode : vesa_mode_t) : Prop :=
  0 ≤ vm_framebuffer mode < 2 ^ 32 ∧ 0 ≤ vm_pitch mode < 2 ^ 32 ∧ 0 ≤ vm_height mode < 2 ^ 32 ∧
  outside_user_space (framebuffer_range mode).1 (framebuffer_range mode).2 = true.

Lemma grown_refl M P : grown M M P false.
Proof. intros n _. split; [done|]. split; [intros ->; apply orb_true_r|done]. Qed.

Lemma not_mapped x kp tables M P st :
  boot mem_live m0 x kp tables M → st ≠ OK →
  ∃ x' st' tables' M', (x, st) = (x', st') ∧ follows x x' ∧ boot mem_live m0 x' kp tables' M' ∧ grown M M' P (bool_decide (st' = OK)).
Proof.
  intros B Hst. exists x, st, tables, M. rewrite bool_decide_false by done. split; [done|]. split; [done|]. split; [done|]. apply grown_refl.
Qed.

Lemma map_framebuffer x kp tables M mode :
  boot mem_live m0 x kp tables M → mode_typed mode →
  ∃ x' st tables' M', paging_map_framebuffer x mode = (x', st) ∧ follows x x' ∧ boot mem_live m0 x' kp tables' M' ∧
    grown M M' (in_range (framebuffer_range mode)) (bool_decide (st = OK)).
Proof.
  intros B (Hf & Hp & Hh & Hout). unfold paging_map_framebuffer.
  destruct (vm_initialized mode); cbn [negb]; [|by eapply not_mapped].
  destruct (negb (vm_height mode =? 0) && (vm_pitch mode >? 0xFFFFFFFF / vm_height mode)) eqn:E1;
    [by eapply not_mapped|].
  assert (0 ≤ vm_pitch mode * vm_height mode < 2 ^ 32) as Hsz.
  { destruct (Z.eqb_spec (vm_height mode) 0) as [->|Hz]; [lia|]. cbn [negb andb] in E1.
    pose proof (Z.mul_div_le 0xFFFFFFFF (vm_height mode) ltac:(lia)). nia. }
  rewrite (u32_small (vm_pitch mode * vm_height mode)) by lia. set (size := vm_pitch mode * vm_height mode) in *.
  destruct ((size =? 0) || (vm_framebuffer mode >? 0xFFFFFFFF - size)) eqn:E2;
    [by eapply not_mapped|].
  rewrite (u32_small (vm_framebuffer mode + size)) by lia.
  destruct (vm_framebuffer mode + size + PAGE_SIZE - 1 >? MAX_PHYSICAL_ADDRESS) eqn:E3;
    [by eapply not_mapped|].
  unfold MAX_PHYSICAL_ADDRESS in E3. 
  assert ((vm_framebuffer mode + size) +w PAGE_SIZE -w 1 = vm_framebuffer mode + size + PAGE_SIZE - 1) as ->.
  { unfold u32. rewrite Zminus_mod_idemp_l. apply Z.mod_small. unfold PAGE_SIZE in *. lia. }
  rewrite !page_floor by (unfold PAGE_SIZE in *; lia).
  destruct (map_fast x kp tables M (vm_framebuffer mode / PAGE_SIZE * PAGE_SIZE)
    ((vm_framebuffer mode + size + PAGE_SIZE - 1) / PAGE_SIZE * PAGE_SIZE) B) as (x' & st & tables' & M' & -> & F & B' & G & _).
  - unfold page_range. rewrite !Z.mod_mul by done. cbn [Z.eqb].
    unfold framebuffer_range in Hout. cbn [fst snd] in Hout. fold size in Hout. rewrite Hout, !andb_true_r. clear Hout. unfold PAGE_SIZE in *. divlia.
  - by exists x', st, tables', M'.
Qed.

End boot.

(** ** The loop over tables ends *)

(** The loop of [paging_map_identity_range_fast], run until it stops. *)
Inductive identity_loop : paging_t → Z → Z → paging_t * status → Prop :=
| loop_end s address last : last ≤ address → identity_loop s address last (s, OK)
| loop_no_table s address last s1 :
    address < last → paging_bootstrap_get_table s (table_index address) = (s1, 0) → identity_loop s address last (s1, ERR_MEM)
| loop_conflict s address last s1 table s2 address2 st :
    address < last → paging_bootstrap_get_table s (table_index address) = (s1, table) → table ≠ 0 →
    identity_pages (Z.to_nat (Z.min (PAGING_TABLE_ENTRIES - page_index address) ((last - address) / PAGE_SIZE)))
      s1 table (page_index address) address = (s2, address2, st) → st ≠ OK →
    identity_loop s address last (s2, st)
| loop_next s address last s1 table s2 address2 r :
    address < last → paging_bootstrap_get_table s (table_index address) = (s1, table) → table ≠ 0 →
    identity_pages (Z.to_nat (Z.min (PAGING_TABLE_ENTRIES - page_index address) ((last - address) / PAGE_SIZE)))
      s1 table (page_index address) address = (s2, address2, OK) →
    identity_loop s2 address2 last r → identity_loop s address last r.

Lemma identity_pages_address count : ∀ s table e a s' address,
  0 ≤ a → a + Z.of_nat count < 2 ^ 20 → identity_pages count s table e (a * PAGE_SIZE) = (s', address, OK) →
  address = (a + Z.of_nat count) * PAGE_SIZE.
Proof.
  induction count as [|count IH]; intros s table e a s' address Ha Hb; cbn [identity_pages].
  - intros [= _ <-]. by rewrite Z.add_0_r.
  - destruct (_ && _); [done|]. rewrite u32_small by (unfold PAGE_SIZE; lia).
    replace (a * PAGE_SIZE + PAGE_SIZE) with ((a + 1) * PAGE_SIZE) by lia. intros E. apply IH in E; lia.
Qed.

(** Each round starts a new table or reaches the end. *)
Lemma identity_tables_loop fuel : ∀ s a b,
  0 ≤ a ≤ b → b < 2 ^ 20 → b ≤ a ∨ 1024 - a / 1024 ≤ Z.of_nat fuel →
  identity_loop s (a * PAGE_SIZE) (b * PAGE_SIZE) (identity_tables fuel s (a * PAGE_SIZE) (b * PAGE_SIZE)).
Proof.
  induction fuel as [|fuel IH]; intros s a b Ha Hb Hf.
  - apply loop_end. unfold PAGE_SIZE. divlia.
  - cbn [identity_tables]. destruct (Z.geb_spec (a * PAGE_SIZE) (b * PAGE_SIZE)) as [H|H]; [by apply loop_end|].
    assert (a < b) as Hab by (unfold PAGE_SIZE in H; lia).
    destruct (paging_bootstrap_get_table s (table_index (a * PAGE_SIZE))) as [s1 table] eqn:Et.
    destruct (Z.eqb_spec table 0) as [->|Ht]; [by apply loop_no_table|].
    destruct (identity_pages _ s1 table _ (a * PAGE_SIZE)) as [[s2 address] st] eqn:Ep.
    destruct (decide (st = OK)) as [->|Hst]; [|by destruct st; try done; eapply loop_conflict].
    eapply loop_next; [done..|]. apply identity_pages_address in Ep as ->; [|lia|]; rewrite page_index_page in *;
      replace ((b * PAGE_SIZE - a * PAGE_SIZE) / PAGE_SIZE) with (b - a) in *
        by (rewrite <-Z.mul_sub_distr_r; symmetry; by apply Z.div_mul); unfold PAGING_TABLE_ENTRIES in *.
    + apply IH; [divlia|done|]. destruct Hf as [?|Hf]; [lia|]. divlia.
    + divlia.
Qed.
