(* ===== verification/PagingInit.v ===== *)
(** * Initialisation of paging

    [paging_init] turns paging on with the kernel's map, or, when memory runs out, gives
    every page it took back. *)

From S2P Require Import Prelude Registry Memory Pmm Heap HeapRefine MemorySystem PageOwner Paging PagingInv PagingCalls PagingDirs PagingBoot.

(** ** Giving everything back *)

Section undo.
Context (mem_live : gmap Z (list Z)) (m0 : memory_t).

Definition cut (tables : gmap Z Z) (k p : Z) : bool := match tables !! p with Some i => i <? k | None => false end.

(** [z] has the static variables during the release. *)
Record undoing (z x : paging_t) (kp : Z) (tables : gmap Z Z) (k : Z) (y : paging_t) : Prop := {
  un_state : y = z <| pg_memory := pg_memory y |>;
  un_run : run (pg_memory y) mem_live;
  un_owned p : owned y p = negb (cut tables k p) && owned x p;
  un_entries i : k ≤ i < 1024 → words y kp i = words x kp i;
  un_kept p j : page_owned m0 p = true → 0 ≤ j < 1024 → words y p j = word m0 p j
}.

Lemma undo_step z x kp tables M k y :
  boot mem_live m0 x kp tables M → 0 ≤ k < 1024 → undoing z x kp tables k y →
  undoing z x kp tables (k + 1)
    (if has (dir_entry y (kp * PAGE_SIZE) k) 0x01
     then set_dir_entry (paging_free_table_entry y (dir_entry y (kp * PAGE_SIZE) k)) (kp * PAGE_SIZE) k 0 else y).
Proof.
  intros B Hk [E R O HE P]. change (dir_entry y (kp * PAGE_SIZE) k) with (words y kp k). rewrite HE by lia.
  rewrite (has_present (words x kp k) : has _ 1 = _). pose proof (owned_kernel mem_live m0 x kp tables M B) as Hok.
  assert (∀ p i, tables !! p = Some i → i ≠ k → cut tables (k + 1) p = cut tables k p) as Hcut.
  { intros p i Hp Hi. unfold cut. rewrite Hp. lia. }
  destruct (bt_entry _ _ _ _ _ _ B k Hk) as [[E0 _]|(t & Hl & Ht)].
  - rewrite E0. change (entry_present 0) with false. cbv iota. split; [done|done| |intros i Hi; apply HE; lia|done].
    intros p. rewrite O. f_equal. f_equal. destruct (tables !! p) as [i|] eqn:Ep; [|unfold cut; by rewrite Ep].
    symmetry. apply (Hcut p i Ep). intros ->. destruct (bt_table _ _ _ _ _ _ B p k Ep) as (_ & Hl & _).
    rewrite E0 in Hl. by apply links_zero in Hl.
  - rewrite (ln_present _ _ _ Hl). cbv iota. unfold paging_free_table_entry.
    rewrite (entry_table_links _ t false (words_range _ _ _) Hl).
    assert (owned y t = true) as Hyt.
    { rewrite O, (owned_table mem_live m0 x kp tables M B t k Ht). unfold cut. rewrite Ht. by replace (k <? k) with false by lia. }
    destruct (free_page_kept (pg_memory y) mem_live t R Hyt) as (R1 & O1 & W1 & _).
    assert (t ≠ kp) as Htk by (intros ->; rewrite (bt_fresh _ _ _ _ _ _ B) in Ht; done).
    assert (cut tables k kp = false) as Hck by (unfold cut; by rewrite (bt_fresh _ _ _ _ _ _ B)).
    assert (owned y kp = true) as Hyk by (rewrite O, Hok, Hck; done).
    destruct (put_word_law _ mem_live R1 kp k 0) as [R2 O2]; [|done|].
    { rewrite O1. replace (kp =? t) with false by lia. exact Hyk. }
    set (m := put_word (pmm_free_page (pg_memory y) (t * PAGE_SIZE)) kp k 0) in *.
    assert (set_dir_entry (free_page y (t * PAGE_SIZE)) (kp * PAGE_SIZE) k 0 = y <| pg_memory := m |>) as -> by done.
    assert (∀ p j, owned y p = true → 0 ≤ j < 1024 → p ≠ kp ∨ j ≠ k → word m p j = words y p j) as HW.
    { intros p j Hp Hj Hpj. unfold m. rewrite word_put by done. replace (_ && _) with false by lia. by apply W1. }
    clearbody m. split; [rewrite E; done|exact R2| | |].
    + intros p. change (page_owned m p = negb (cut tables (k + 1) p) && owned x p). rewrite O2, O1.
      change (page_owned (pg_memory y) p) with (owned y p). rewrite O. destruct (Z.eqb_spec p t) as [->|Hpt].
      * unfold cut. rewrite Ht. by replace (k <? k + 1) with true by lia.
      * cbn [negb andb]. f_equal. f_equal. destruct (tables !! p) as [i|] eqn:Ep; [|unfold cut; by rewrite Ep].
        symmetry. apply (Hcut p i Ep). intros ->. destruct (bt_table _ _ _ _ _ _ B p k Ep) as (_ & Hlp & _).
        destruct Hpt. rewrite <-(ln_frame _ _ _ Hlp). apply Hl.
    + intros i Hi. change (word m kp i = words x kp i). rewrite HW by (done || lia). apply HE. lia.
    + intros p j Hp Hj. change (word m p j = word m0 p j). rewrite <-P by done. apply HW; [|done|left].
      * rewrite O, (bt_owned _ _ _ _ _ _ B), Hp, orb_true_r. unfold cut. destruct (tables !! p) as [i|] eqn:Ep; [|done].
        rewrite (bt_new _ _ _ _ _ _ B p (built_table _ _ _ _ Ep)) in Hp. done.
      * intros ->. by rewrite (bt_new _ _ _ _ _ _ B kp (built_kernel _ _)) in Hp.
Qed.

(** What a failed initialisation leaves. *)
Record undone (s' : paging_t) : Prop := {
  ud_run : run (pg_memory s') mem_live;
  ud_owned p : owned s' p = page_owned m0 p;
  ud_kept p j : page_owned m0 p = true → 0 ≤ j < 1024 → words s' p j = word m0 p j;
  ud_kernel : kernel_directory s' = 0;
  ud_current : current_directory s' = 0;
  ud_ready : paging_is_ready s' = false
}.

Lemma undo_loop z x kp tables M :
  boot mem_live m0 x kp tables M → pg_memory z = pg_memory x →
  undoing z x kp tables 1024
    (foldl (λ s i, if has (dir_entry s (kp * PAGE_SIZE) i) 0x01
                   then set_dir_entry (paging_free_table_entry s (dir_entry s (kp * PAGE_SIZE) i)) (kp * PAGE_SIZE) i 0 else s) z (range 0 1024)).
Proof.
  intros B Em. apply (foldl_range_ind (λ i y, undoing z x kp tables i y) _ 0 1024); [lia| |].
  - split; [by destruct z|..]; unfold owned, words; rewrite Em; [apply B| |done|apply B].
    intros p. unfold cut. destruct (tables !! p) as [i|] eqn:Ep; [|done].
    destruct (bt_table _ _ _ _ _ _ B p i Ep) as (Hi & _). by replace (i <? 0) with false by lia.
  - intros i y Hi Hy. by eapply undo_step.
Qed.

(** The memory after the last page, the directory, is freed. *)
Lemma undo_memory z x kp tables M y :
  boot mem_live m0 x kp tables M → undoing z x kp tables 1024 y →
  run (pg_memory (free_page y (kp * PAGE_SIZE))) mem_live ∧
  (∀ p, owned (free_page y (kp * PAGE_SIZE)) p = page_owned m0 p) ∧
  ∀ p j, page_owned m0 p = true → 0 ≤ j < 1024 → words (free_page y (kp * PAGE_SIZE)) p j = word m0 p j.
Proof.
  intros B [E R O HE P].
  assert (∀ p, owned y p = (p =? kp) || page_owned m0 p) as O'.
  { intros p. rewrite O, (bt_owned _ _ _ _ _ _ B). unfold cut, built. destruct (tables !! p) as [i|] eqn:Ep.
    - destruct (bt_table _ _ _ _ _ _ B p i Ep) as (Hi & _). replace (i <? 1024) with true by lia. cbn [negb andb].
      rewrite (bt_new _ _ _ _ _ _ B p (built_table _ _ _ _ Ep)). rewrite orb_false_r. symmetry. apply Z.eqb_neq.
      intros ->. by rewrite (bt_fresh _ _ _ _ _ _ B) in Ep.
    - rewrite bool_decide_false by (by intros [? ?]). cbn [negb andb]. by rewrite orb_false_r. }
  destruct (free_page_kept (pg_memory y) mem_live kp R) as (R1 & O1 & W1 & _); [change (owned y kp = true); by rewrite O', Z.eqb_refl|].
  pose proof (bt_new _ _ _ _ _ _ B kp (built_kernel _ _)) as Hk0.
  split; [exact R1|]. split.
  - intros p. rewrite (O1 p : owned (free_page y (kp * PAGE_SIZE)) p = _). change (page_owned (pg_memory y) p) with (owned y p).
    rewrite O'. destruct (Z.eqb_spec p kp) as [->|]; [by rewrite Hk0|done].
  - intros p j Hp Hj. rewrite <-P by done. apply W1; [|done]. change (owned y p = true). rewrite O', Hp. apply orb_true_r.
Qed.

Lemma abort_spec x kp tables M :
  boot mem_live m0 x kp tables M → user_directories x = replicate 64 0 →
  paging_directories x = <[0%nat := kp * PAGE_SIZE]> (replicate 128 0) →
  ∃ x', paging_abort_init x (kp * PAGE_SIZE) ERR_MEM = (x', ERR_MEM) ∧ undone x'.
Proof.
  intros B Eu Ep. unfold paging_abort_init. eexists. split; [done|].
  set (z := x <| current_directory := 0 |> <| kernel_directory := 0 |> <| paging_initialized := false |>).
  pose proof (built_range mem_live m0 x kp tables M B kp (built_kernel _ _)) as Hkr.
  assert ((kp * PAGE_SIZE =? 0) = false) as Hz by (unfold PAGE_SIZE; lia).
  unfold paging_free_directory. change (current_directory z) with 0. rewrite Hz.
  assert (paging_is_registered_user_directory z (kp * PAGE_SIZE) = false) as ->.
  { unfold paging_is_registered_user_directory, paging_user_directory_index. rewrite Hz.
    change (user_directories z) with (user_directories x). rewrite Eu. apply bool_decide_false. rewrite find_slot_elem.
    intros H. apply elem_of_replicate in H as [H _]. lia. }
  assert (paging_is_managed_directory z (kp * PAGE_SIZE) = true) as ->.
  { unfold paging_is_managed_directory, paging_directory_index. rewrite Hz.
    change (paging_directories z) with (paging_directories x). rewrite Ep. apply bool_decide_true. cbn. by rewrite Z.eqb_refl. }
  cbn [negb]. pose proof (undo_loop z x kp tables M B eq_refl) as HU. generalize dependent (foldl (λ s i, if has (dir_entry s (kp * PAGE_SIZE) i) 0x01
    then set_dir_entry (paging_free_table_entry s (dir_entry s (kp * PAGE_SIZE) i)) (kp * PAGE_SIZE) i 0 else s) z (range 0 1024)).
  intros y HU. destruct (undo_memory z x kp tables M y B HU) as (R & O & P). pose proof (un_state _ _ _ _ _ _ HU) as Ey.
  assert (kernel_directory (free_page y (kp * PAGE_SIZE)) = 0 ∧ current_directory (free_page y (kp * PAGE_SIZE)) = 0 ∧
    paging_initialized (free_page y (kp * PAGE_SIZE)) = false) as (K1 & K2 & K3) by (rewrite Ey; done).
  generalize dependent (free_page y (kp * PAGE_SIZE)). intros w R O P K1 K2 K3. rewrite K1, Hz.
  unfold paging_unregister_directory. destruct (paging_directory_index w (kp * PAGE_SIZE));
    (split; [exact R|exact O|exact P|exact K1|exact K2|]; unfold paging_is_ready; change (paging_initialized (w <| paging_directories ::= _ |>))
      with (paging_initialized w) || idtac; by rewrite K3).
Qed.
End undo.

(** ** [paging_init] *)

Lemma live_replicate n : live (replicate n 0) = [].
Proof. induction n as [|n IH]; [done|]. cbn [replicate]. by rewrite live_cons, Z.eqb_refl. Qed.

Section init.
Context (mem_live : gmap Z (list Z)) (s : paging_t).
Context (Hr : run (pg_memory s) mem_live).

(** The values of the static variables before paging is on. *)
Definition paging_off (x : paging_t) : Prop :=
  kernel_directory x = 0 ∧ current_directory x = 0 ∧ paging_initialized x = false.

(** The registers while the kernel's map is built. *)
Record starting (kp : Z) (x : paging_t) : Prop := {
  st_kernel : kernel_directory x = kp * PAGE_SIZE;
  st_current : current_directory x = kp * PAGE_SIZE;
  st_users : user_directories x = replicate 64 0;
  st_all : paging_directories x = <[0%nat := kp * PAGE_SIZE]> (replicate 128 0);
  st_stats : user_paging_stats x = UserStats 0 0 0 0 0 true
}.

Lemma starting_follows kp x y : starting kp x → follows x y → starting kp y.
Proof. intros [] []. split; congruence. Qed.

Definition reset_state : paging_t :=
  user_stat (s <| user_directories := replicate 64 0 |> <| paging_directories := replicate 128 0 |>
    <| user_paging_stats := user_stats_zero |> <| paging_boot_stats := boot_stats_zero |>) (set u_initialized (λ _, true)).

Lemma create_first x dir :
  paging_create_directory reset_state = (x, dir) →
  (dir = 0 ∧ run (pg_memory x) mem_live ∧ (∀ p, owned x p = owned s p) ∧
     (∀ p j, owned s p = true → 0 ≤ j < 1024 → words x p j = words s p j) ∧ (paging_off s → paging_off x) ∧
     mi_free_pages (mem_info (pg_memory s)) = 0) ∨
  ∃ kp, dir = kp * PAGE_SIZE ∧ (dir =? 0) = false ∧
    let y := x <| current_directory := dir |> <| kernel_directory := dir |> in
    boot mem_live (pg_memory s) y kp ∅ (λ _, false) ∧ starting kp y.
Proof.
  intros E. unfold paging_create_directory, alloc_page in E. change (pg_memory reset_state) with (pg_memory s) in E.
  destruct (pmm_alloc_page_in_zone (pg_memory s) MEMORY_ZONE_KERNEL) as [m1 a] eqn:Ea.
  destruct (alloc_page_law _ _ Hr _ _ _ Ea) as (R1 & W1 & T1 & [[-> O1]|(kp & -> & Hk & Hfree & O1)]).
  - injection E as <- <-. left. split; [done|]. split; [exact R1|]. split; [exact O1|]. split; [exact W1|]. split; [done|].
    destruct (alloc_counts _ _ 1 _ _ _ Hr ltac:(lia) Ea) as (_ & _ & H0). by apply H0.
  - assert ((kp * PAGE_SIZE =? 0) = false) as Hz by (unfold PAGE_SIZE; lia). rewrite Hz in E.
    unfold paging_register_directory in E. rewrite Hz in E.
    change (paging_directories (reset_state <| pg_memory := m1 |>)) with (replicate 128 0) in E.
    change (find_slot 0 (replicate 128 0)) with (Some 0%nat) in E. injection E as <- <-.
    right. exists kp. split; [done|]. split; [done|]. cbn zeta.
    destruct (zero_page_law m1 mem_live R1 kp) as [R2 O2]; [by rewrite O1, Z.eqb_refl|].
    split; [|by split].
    apply (boot_same _ _ (Paging (zero_page m1 kp) 0 (kp * PAGE_SIZE) false [] [] user_stats_zero boot_stats_zero)); [done|done|].
    assert (∀ p j, 0 ≤ j < 1024 → word (zero_page m1 kp) p j = if p =? kp then 0 else word m1 p j) as HW
      by (intros p j Hj; by apply word_zero).
    split; [exact R2|done|apply lookup_empty|..].
    + intros p. change (page_owned (zero_page m1 kp) p = built kp ∅ p || page_owned (pg_memory s) p). rewrite O2, O1.
      unfold built. rewrite lookup_empty, bool_decide_false by (by intros [? ?]). by rewrite orb_false_r.
    + intros p. unfold built. rewrite lookup_empty, bool_decide_false by (by intros [? ?]). rewrite orb_false_r.
      by intros ->%Z.eqb_eq.
    + intros p j Hp Hj. change (word (zero_page m1 kp) p j = word (pg_memory s) p j). rewrite HW by done.
      replace (p =? kp) with false; [by apply W1|]. destruct (Z.eqb_spec p kp); congruence.
    + exact T1.
    + destruct (alloc_counts _ _ 1 _ _ _ Hr ltac:(lia) Ea) as (_ & Hf & _). rewrite Hz in Hf.
      change (mi_free_pages (mem_info m1) = mi_free_pages (mem_info (pg_memory s)) - 1 - 0). by rewrite Hf, Z.sub_0_r.
    + intros i Hi. left. split; [|done]. change (word (zero_page m1 kp) kp i = 0). by rewrite HW, Z.eqb_refl.
    + intros t i. by rewrite lookup_empty.
    + intros t i. by rewrite lookup_empty.
Qed.

(** The pages of the framebuffer of a mode that is on. *)
Definition framebuffer_page (mode : option vesa_mode_t) (n : Z) : bool :=
  match mode with Some mode => vm_initialized mode && in_range (framebuffer_range mode) n | None => false end.

(** Paging is on: the kernel's map is built and there is no process. *)
Record started (mode : option vesa_mode_t) (framebuffer : option status) (s' : paging_t) : Prop := {
  bo_kernel : kernel_directory s' ≠ 0;
  bo_run : run (pg_memory s') mem_live;
  bo_space : ∃ tables, space s' (boot_roles (kernel_page s') tables) ∧
    (∀ p, owned s' p = built (kernel_page s') tables p || owned s p) ∧
    (∀ p, built (kernel_page s') tables p = true → owned s p = false);
  bo_kept p j : owned s p = true → 0 ≤ j < 1024 → words s' p j = words s p j;
  bo_current : current_directory s' = kernel_directory s';
  bo_free : mi_free_pages (mem_info (pg_memory s)) - 1025 ≤ mi_free_pages (mem_info (pg_memory s'));
  bo_users : live (user_directories s') = [];
  bo_map : ∃ M : Z → bool, (∀ n, 0 ≤ n < 2 ^ 20 → walk (words s') (kernel_page s') n = if M n then Some (Mapping n true false) else None) ∧
    grown (in_ranges (kernel_ranges (mi_total_memory (mem_info (pg_memory s))))) M
      (framebuffer_page mode) (bool_decide (framebuffer = None ∨ framebuffer = Some OK))
}.

Lemma started_intro mode framebuffer kp x tables M init_ticks :
  boot mem_live (pg_memory s) x kp tables M → starting kp x →
  grown (in_ranges (kernel_ranges (mi_total_memory (mem_info (pg_memory s))))) M
    (framebuffer_page mode) (bool_decide (framebuffer = None ∨ framebuffer = Some OK)) →
  started mode framebuffer (boot_stat (paging_switch_directory x (kp * PAGE_SIZE))
    (λ b, b <| b_init_ticks := init_ticks |> <| b_initialized := true |>)).
Proof.
  intros B [K C U A St] G. pose proof (built_range mem_live (pg_memory s) x kp tables M B kp (built_kernel _ _)) as Hkr.
  assert (kp * PAGE_SIZE ≠ 0) as Hnz by (unfold PAGE_SIZE; lia). pose proof Hnz as Hz. apply Z.eqb_neq in Hz.
  assert (live (paging_directories x) ≡ₚ [kp * PAGE_SIZE]) as LA.
  { rewrite A, live_insert by done. by rewrite live_replicate. }
  assert (paging_is_managed_directory x (kp * PAGE_SIZE) = true) as Hm by (apply managed_iff; rewrite LA; by left).
  unfold paging_switch_directory. rewrite Hz, Hm. cbn [negb].
  set (s' := boot_stat (x <| current_directory := kp * PAGE_SIZE |> <| paging_initialized := true |>) _).
  assert (kernel_page s' = kp) as Ek by (unfold kernel_page; change (kernel_directory s') with (kernel_directory x); rewrite K; apply page_of_address).
  assert (boot mem_live (pg_memory s) s' kp tables M) as B' by (by apply (boot_same _ _ x)).
  split; rewrite ?Ek.
  - change (kernel_directory s') with (kernel_directory x). congruence.
  - apply B'.
  - exists tables. split; [|split; [apply B'|apply B']]. split; rewrite ?Ek.
    + exact K.
    + by eapply boot_linked.
    + intros p r. rewrite lookup_boot_roles by apply B'. intros Hp. rewrite (bt_owned _ _ _ _ _ _ B').
      destruct Hp as [[-> _]|(i & Hi & _)]; [by rewrite built_kernel|by rewrite (built_table _ _ _ _ Hi)].
    + intros a. change (user_directories s') with (user_directories x). rewrite U, live_replicate. split; [by intros ?%not_elem_of_nil|].
      intros (p & _ & Hp). apply lookup_boot_roles in Hp as [[_ ?]|(i & _ & ?)]; [done|done|apply B'].
    + change (user_directories s') with (user_directories x). rewrite U, live_replicate. constructor.
    + change (user_directories s') with (user_directories x). rewrite U, live_replicate.
      change (kernel_directory s') with (kernel_directory x). rewrite K. exact LA.
    + change (user_directories s') with (user_directories x). change (paging_directories s') with (paging_directories x).
      rewrite U, A. by rewrite length_insert, !length_replicate.
    + change (paging_directories s') with (paging_directories x). rewrite LA. by left.
    + done.
    + change (user_paging_stats s') with (user_paging_stats x). change (user_directories s') with (user_directories x).
      by rewrite St, U, live_replicate.
    + change (user_paging_stats s') with (user_paging_stats x). change (user_directories s') with (user_directories x).
      by rewrite St, U, live_replicate.
    + intros n Hn. rewrite (bt_total _ _ _ _ _ _ B') in Hn. pose proof (ram_range _ _ n Hr Hn) as Hn'.
      by rewrite (boot_walk _ _ s' kp tables M n B' Hn'), (proj1 (G n (proj1 Hn')) Hn).
  - apply B'.
  - by rewrite (K : kernel_directory s' = _).
  - rewrite (bt_free _ _ _ _ _ _ B'). pose proof (tables_bound mem_live (pg_memory s) x kp tables M B). lia.
  - change (user_directories s') with (user_directories x). by rewrite U, live_replicate.
  - exists M. split; [|exact G]. intros n Hn. by eapply boot_walk.
Qed.

(** The framebuffer, when there is one. *)
Lemma try_framebuffer kp x tables M mode :
  boot mem_live (pg_memory s) x kp tables M → (∀ m, mode = Some m → mode_typed m) →
  ∃ x' fb tables' M',
    (match mode with
     | Some mode => if vm_initialized mode then let '(s, result) := paging_map_framebuffer x mode in (s, Some result) else (x, None)
     | None => (x, None)
     end) = (x', fb) ∧ follows x x' ∧ boot mem_live (pg_memory s) x' kp tables' M' ∧
    grown M M' (framebuffer_page mode) (bool_decide (fb = None ∨ fb = Some OK)).
Proof.
  intros B Hm. assert (∀ P, (∀ n, P n = false) → ∃ x' fb tables' M', (x, None) = (x', fb) ∧ follows x x' ∧
    boot mem_live (pg_memory s) x' kp tables' M' ∧ grown M M' P (bool_decide (fb = None ∨ fb = Some OK))) as HN.
  { intros P HP. exists x, None, tables, M. split; [done|]. split; [done|]. split; [done|]. intros n Hn. by rewrite HP. }
  unfold framebuffer_page. destruct mode as [mode|]; [|by apply HN]. destruct (vm_initialized mode); [|by apply HN].
  destruct (map_framebuffer mem_live (pg_memory s) x kp tables M mode B (Hm mode eq_refl)) as (x' & st & tables' & M' & -> & F & B' & G).
  exists x', (Some st), tables', M'. split; [done|]. split; [done|]. split; [done|].
  rewrite (bool_decide_ext (Some st = None ∨ Some st = Some OK) (st = OK)); [exact G|]. split; [by intros [?|[= ->]]|by intros ->; right].
Qed.

Lemma init_spec mode start_ticks end_ticks s' fb st :
  paging_off s → (∀ m, mode = Some m → mode_typed m) → paging_init s mode start_ticks end_ticks = (s', fb, st) →
  (st = OK ∧ started mode fb s') ∨ (st = ERR_MEM ∧ undone mem_live (pg_memory s) s' ∧ mi_free_pages (mem_info (pg_memory s)) ≤ 1025).
Proof.
  intros Hoff Hm E. unfold paging_init in E. pose proof Hoff as (K0 & C0 & I0). rewrite I0 in E. cbn [andb] in E.
  change (user_stat _ (set u_initialized (λ _, true))) with reset_state in E.
  destruct (paging_create_directory reset_state) as [x dir] eqn:Ec.
  destruct (create_first x dir Ec) as [(-> & R & O & P & Ho & H0)|(kp & -> & Hz & B & St)].
  - injection E as <- <- <-. right. split; [done|]. split; [|lia]. destruct (Ho Hoff) as (K1 & C1 & I1).
    split; [done|done|done|done|done|]. unfold paging_is_ready. by rewrite I1.
  - rewrite Hz in E. set (y := x <| current_directory := kp * PAGE_SIZE |> <| kernel_directory := kp * PAGE_SIZE |>) in *. clearbody y.
    destruct (map_all_spec mem_live (pg_memory s) y kp ∅ _ B) as (x1 & ok & tables1 & M1 & E1 & F1 & B1 & G1 & H1). rewrite E1 in E.
    pose proof (starting_follows _ _ _ St F1) as St1. destruct ok.
    + destruct (try_framebuffer kp x1 tables1 M1 mode B1 Hm) as (x2 & fb2 & tables2 & M2 & E2 & F2 & B2 & G2). rewrite E2 in E.
      injection E as <- <- <-. left. split; [done|].
      apply (started_intro mode fb2 kp x2 tables2 M2 _ B2 (starting_follows _ _ _ St1 F2)).
      intros n Hn. destruct (G1 n Hn) as (_ & _ & G13). destruct (G2 n Hn) as (G21 & G22 & G23).
      rewrite (G13 eq_refl), orb_false_r in *. done.
    + destruct (abort_spec mem_live (pg_memory s) x1 kp tables1 M1 B1 (st_users _ _ St1) (st_all _ _ St1)) as (x' & Ex & HU).
      rewrite Ex in E. injection E as <- <- <-. right. split; [done|]. split; [done|].
      pose proof (bt_free _ _ _ _ _ _ B1) as Hf. rewrite (H1 eq_refl) in Hf. pose proof (tables_bound mem_live (pg_memory s) x1 kp tables1 M1 B1). lia.
Qed.
End init.
