(* ===== verification/PagingReach.v ===== *)
(** * The states paging.c can reach

    [reach s mem_live others] is every state the kernel can reach: memory and paging are
    initialised, directories are created, released and switched, pages of user space are
    mapped and unmapped, the other clients of memory.c allocate, free and write their
    pages ([others]) and the heap ([mem_live]), and programs store through their own map.
    [system] is an invariant of all of them. *)

From S2P Require Import Prelude Registry Memory Pmm Heap HeapRefine MemorySystem PageOwner Paging.
From S2P Require Import PagingInv PagingCalls PagingDirs PagingFree PagingBoot PagingInit.

(** ** The invariant *)

(** Every page handed out has one use: it is one of [others] or has a role. *)
Record system (s : paging_t) (mem_live : gmap Z (list Z)) (others : gset Z) (roles : gmap Z role) : Prop := {
  sy_run : run (pg_memory s) mem_live;
  sy_space : space s roles;
  sy_owned p : owned s p = true ↔ p ∈ others ∨ is_Some (roles !! p);
  sy_others p : p ∈ others → roles !! p = None
}.

(** What a step does to processes: the directories are the same, page [n] of directory [c]
    is now [M c n], and the pages with [K] keep their contents. *)
Record effect (s s' : paging_t) (roles roles' : gmap Z role) (M : Z → Z → option mapping) (K : Z → Z → Prop) : Prop := {
  ef_dirs d : roles' !! d = Some UserDirectory ↔ roles !! d = Some UserDirectory;
  ef_current : current_directory s' = current_directory s;
  ef_walk c n : roles !! c = Some UserDirectory → 0 ≤ n < 2 ^ 20 → walk (words s') c n = M c n;
  ef_words c n f rw j :
    roles !! c = Some UserDirectory → 0 ≤ n < 2 ^ 20 → walk (words s) c n = Some (Mapping f rw true) → K c n → 0 ≤ j < 1024 →
    words s' f j = words s f j
}.
Definition all_pages (c n : Z) : Prop := True.
(** The map of [s] with one page changed. *)
Definition remap (s : paging_t) (d v : Z) (o : option mapping) (c n : Z) : option mapping :=
  if (c =? d) && (n =? v) then o else walk (words s) c n.

(** A byte stored by the processor through directory [dir], if the map allows it in user
    mode. *)
Definition user_store (s : paging_t) (dir virtual v : Z) : option paging_t :=
  match walk (words s) (dir / PAGE_SIZE) (virtual / PAGE_SIZE) with
  | Some (Mapping f true true) =>
      Some (s <| pg_memory ::= λ m, m <| phys ::= λ h, store8 h (f * PAGE_SIZE + virtual mod PAGE_SIZE) v |> |>)
  | _ => None
  end.

(** The static variables before [paging_init]. *)
Definition paging_boot (m : memory_t) : paging_t :=
  Paging m 0 0 false (replicate 64 0) (replicate 128 0) user_stats_zero boot_stats_zero.

Definition after_map (others : gset Z) (f : Z) (st : status) : gset Z := if decide (st = OK) then others ∖ {[f]} else others.

Inductive reach : paging_t → gmap Z (list Z) → gset Z → Prop :=
| reach_init m mem_live others mode start_ticks end_ticks s framebuffer :
    run m mem_live → (∀ p, p ∈ others ↔ page_owned m p = true) → (∀ v, mode = Some v → mode_typed v) →
    paging_init (paging_boot m) mode start_ticks end_ticks = (s, framebuffer, OK) → reach s mem_live others
| reach_create s mem_live others : reach s mem_live others → reach (paging_create_user_directory s).1 mem_live others
| reach_release s mem_live others dir : reach s mem_live others → reach (paging_free_user_directory s dir) mem_live others
| reach_switch s mem_live others dir : reach s mem_live others → reach (paging_switch_directory s dir) mem_live others
| reach_map s mem_live others dir virtual f flags s' st :
    reach s mem_live others → f ∈ others → has flags PAGING_FLAG_USER = true →
    paging_map_page_in_directory s dir virtual (f * PAGE_SIZE) flags = (s', st) → reach s' mem_live (after_map others f st)
| reach_unmap s mem_live others dir virtual :
    reach s mem_live others → reach (paging_unmap_user_page_in_directory s dir virtual).1 mem_live others
| reach_alloc s mem_live others zone m a :
    reach s mem_live others → pmm_alloc_page_in_zone (pg_memory s) zone = (m, a) →
    reach (s <| pg_memory := m |>) mem_live (if a =? 0 then others else {[a / PAGE_SIZE]} ∪ others)
| reach_free s mem_live others p :
    reach s mem_live others → p ∈ others →
    reach (s <| pg_memory := pmm_free_page (pg_memory s) (p * PAGE_SIZE) |>) mem_live (others ∖ {[p]})
| reach_write s mem_live others p i v :
    reach s mem_live others → p ∈ others → 0 ≤ i < PAGE_SIZE →
    reach (s <| pg_memory ::= λ m, m <| phys ::= λ h, store8 h (p * PAGE_SIZE + i) v |> |>) mem_live others
| reach_heap s mem_live others m mem_live' :
    reach s mem_live others → heap_call (pg_memory s) mem_live m mem_live' → reach (s <| pg_memory := m |>) mem_live' others
| reach_store s mem_live others dir virtual v s' :
    reach s mem_live others → dir ∈ live (paging_directories s) → 0 ≤ virtual < 2 ^ 32 → user_store s dir virtual v = Some s' → reach s' mem_live others.

(** ** Every step keeps it *)

(** Memory changes that leave directories and tables alone. *)
Lemma system_memory s mem_live others roles m mem_live' others' :
  system s mem_live others roles → run m mem_live' →
  (∀ p, page_owned m p = true ↔ p ∈ others' ∨ is_Some (roles !! p)) → (∀ p, p ∈ others' → roles !! p = None) →
  (∀ p r j, roles !! p = Some r → structural r = true → 0 ≤ j < 1024 → word m p j = words s p j) →
  mi_total_memory (mem_info m) = mi_total_memory (mem_info (pg_memory s)) →
  system (s <| pg_memory := m |>) mem_live' others' roles ∧
  ∀ c n, is_dir roles c → 0 ≤ n < 2 ^ 20 → walk (word m) c n = walk (words s) c n.
Proof.
  intros [R S O N] R' O' N' HW HT.
  destruct (space_plain s mem_live roles R S m HW) as [S' Hw]; [intros p r Hp; apply O'; right; by eexists|done|]. by split.
Qed.

(** The same when all pages in use keep their words. *)
Lemma system_quiet s mem_live others roles m mem_live' others' :
  system s mem_live others roles → run m mem_live' →
  (∀ p, page_owned m p = true ↔ p ∈ others' ∨ is_Some (roles !! p)) → (∀ p, p ∈ others' → roles !! p = None) →
  (∀ p j, owned s p = true → 0 ≤ j < 1024 → word m p j = words s p j) →
  mi_total_memory (mem_info m) = mi_total_memory (mem_info (pg_memory s)) →
  system (s <| pg_memory := m |>) mem_live' others' roles ∧
  effect s (s <| pg_memory := m |>) roles roles (walk (words s)) all_pages.
Proof.
  intros Sy R' O' N' HW HT. pose proof (sp_owned _ _ (sy_space _ _ _ _ Sy)) as Ho.
  destruct (system_memory s mem_live others roles m mem_live' others') as [S' Hw]; [done..| |done|].
  { intros p r j Hp _ Hj. by apply HW; [apply (Ho p r)|]. }
  split; [exact S'|]. split; [done|done|intros c n Hc; apply Hw; by right|]. intros c n f rw j Hc Hn Hf _ Hj. apply HW; [|done].
  exact (Ho f _ (walk_user _ _ _ (sp_linked _ _ (sy_space _ _ _ _ Sy)) c n _ (or_intror Hc) Hn Hf eq_refl)).
Qed.

Section steps.
Context (s : paging_t) (mem_live : gmap Z (list Z)) (others : gset Z) (roles : gmap Z role).
Context (Sy : system s mem_live others roles).
Let R : run (pg_memory s) mem_live := sy_run _ _ _ _ Sy.
Let S : space s roles := sy_space _ _ _ _ Sy.

Lemma other_owned p : p ∈ others → owned s p = true.
Proof. intros Hp. apply (sy_owned _ _ _ _ Sy). by left. Qed.

Lemma frame_role c n f rw :
  walk (words s) c n = Some (Mapping f rw true) → roles !! c = Some UserDirectory → 0 ≤ n < 2 ^ 20 → roles !! f = Some (UserFrame c n).
Proof. intros Hw Hc Hn. exact (walk_user _ _ _ (sp_linked _ _ S) c n _ (or_intror Hc) Hn Hw eq_refl). Qed.

Lemma frame_plain f c n : roles !! f = Some (UserFrame c n) → plain roles f.
Proof. intros Hf r Hr. rewrite Hf in Hr. by injection Hr as <-. Qed.

(** A new directory [d], which maps nothing for programs. *)
Record created (d : Z) (s' : paging_t) : Prop := {
  cr_new : roles !! d = None;
  cr_system : system s' mem_live others (<[d := UserDirectory]> roles);
  cr_current : current_directory s' = current_directory s;
  cr_walk c n : roles !! c = Some UserDirectory → 0 ≤ n < 2 ^ 20 → walk (words s') c n = walk (words s) c n;
  cr_empty n : 0 ≤ n < 2 ^ 20 → user_mapped (words s') d n = false;
  cr_words c n f rw j :
    roles !! c = Some UserDirectory → 0 ≤ n < 2 ^ 20 → walk (words s) c n = Some (Mapping f rw true) → 0 ≤ j < 1024 →
    words s' f j = words s f j
}.

Lemma create_system s' a :
  paging_create_user_directory s = (s', a) →
  (a = 0 ∧ system s' mem_live others roles ∧ effect s s' roles roles (walk (words s)) all_pages) ∨
  ∃ d, a = d * PAGE_SIZE ∧ created d s'.
Proof.
  intros E. destruct (create_user s mem_live roles R S s' a E) as [s' R' S' O K Hr Hw _|s' p Hp Hf R' S' O K _ Hcur _ Hw Hpw _].
  - left. split; [done|]. split; [split; [done|done| |apply Sy]; intros p; rewrite O; apply Sy|].
    split; [done|apply Hr|intros c n Hc; apply Hw; by right|]. intros c n f rw j Hc Hn Hw' _ Hj.
    apply (K f); [|done|done]. exact (sp_owned _ _ S f _ (frame_role c n f rw Hw' Hc Hn)).
  - right. exists p. split; [done|]. split; [done| |done|intros c n Hc; apply Hw; by right| |].
    + split; [done|done|..].
      * intros q. rewrite O, orb_true_iff, (sy_owned _ _ _ _ Sy). destruct (Z.eqb_spec q p) as [->|Hq].
        -- rewrite lookup_insert_eq. split; [right; by eexists|by left].
        -- rewrite lookup_insert_ne by done. split; [by intros [?|?]|by right].
      * intros q Hq. rewrite lookup_insert_ne; [by apply Sy|]. intros ->. apply other_owned in Hq. congruence.
    + intros n Hn. unfold user_mapped. rewrite Hpw by done. destruct (walk (words s) (kernel_page s) n) as [m|] eqn:Ew; [|done].
      by apply (walk_kernel _ _ _ (sp_linked _ _ S) (kernel_page s) n m (or_introl (kernel_page_role s roles S)) Hn Ew).
    + intros c n f rw j Hc Hn Hw' Hj. apply (K f); [|done|done]. exact (sp_owned _ _ S f _ (frame_role c n f rw Hw' Hc Hn)).
Qed.

Lemma system_create : ∃ roles', system (paging_create_user_directory s).1 mem_live others roles'.
Proof.
  destruct (paging_create_user_directory s) as [s' a] eqn:E.
  destruct (create_system s' a E) as [(_ & ? & _)|(d & _ & C)]; [by exists roles|]. exists (<[d := UserDirectory]> roles). apply C.
Qed.

(** Counting a refused call. *)
Lemma system_rejected : system (user_stat s (set u_rejected_releases (λ n, n +w 1))) mem_live others roles.
Proof. split; [done| |apply Sy|apply Sy]. destruct S. by split. Qed.

Lemma release_rejected dir :
  ¬ (dir ∈ live (user_directories s) ∧ dir ≠ current_directory s) →
  paging_free_user_directory s dir = user_stat s (set u_rejected_releases (λ n, n +w 1)).
Proof.
  intros Hno. unfold paging_free_user_directory. destruct (Z.eqb_spec dir 0) as [->|Hz]; [done|].
  destruct (Z.eqb_spec dir (current_directory s)) as [->|Hcur]; [done|]. destruct (Z.eqb_spec dir (kernel_directory s)); [done|].
  destruct (paging_user_directory_index s dir) as [i|] eqn:Ei; [|done]. destruct Hno. split; [|done].
  apply index_live. split; [done|]. unfold paging_user_directory_index in Ei. apply Z.eqb_neq in Hz. rewrite Hz in Ei. by eexists.
Qed.

Record released (d : Z) (s' : paging_t) : Prop := {
  rl_system : system s' mem_live others (without d roles);
  rl_current : current_directory s' = current_directory s;
  rl_walk c n : roles !! c = Some UserDirectory → c ≠ d → 0 ≤ n < 2 ^ 20 → walk (words s') c n = walk (words s) c n
}.

Lemma release_system d :
  roles !! d = Some UserDirectory → d * PAGE_SIZE ≠ current_directory s → released d (paging_free_user_directory s (d * PAGE_SIZE)).
Proof.
  intros Hd Hc. destruct (free_user s mem_live roles R S d Hd Hc) as [R' S' O W' _ Hcur _ Hw].
  split; [|done|intros c n Hcd; apply Hw; by right]. split; [done|done|..].
  - intros p. rewrite O, andb_true_iff, (sy_owned _ _ _ _ Sy). unfold belongs. destruct (roles !! p) as [r|] eqn:Ep.
    + destruct (without d roles !! p) as [r'|] eqn:Ew.
      * apply lookup_without in Ew as [Er Ho]. rewrite Ep in Er. injection Er as <-. rewrite Ho.
        split; [intros _; right; by eexists|]. intros _. split; [done|]. right. by eexists.
      * destruct (of_process d p r) eqn:Ho.
        -- split; [by intros [? _]|]. intros [Hp|[? ?]]; [|done]. by rewrite (sy_others _ _ _ _ Sy p Hp) in Ep.
        -- assert (without d roles !! p = Some r) as E by (by apply lookup_without). congruence.
    + assert (without d roles !! p = None) as ->.
      { destruct (without d roles !! p) as [r|] eqn:Ew; [|done]. apply lookup_without in Ew as [? _]. congruence. }
      split; [by intros [_ ?]|]. by intros ?.
  - intros p Hp. destruct (without d roles !! p) as [r|] eqn:Ew; [|done]. apply lookup_without in Ew as [Ew _].
    by rewrite (sy_others _ _ _ _ Sy p Hp) in Ew.
Qed.

Lemma system_release dir : ∃ roles', system (paging_free_user_directory s dir) mem_live others roles'.
Proof.
  destruct (decide (dir ∈ live (user_directories s) ∧ dir ≠ current_directory s)) as [[Hu Hc]|Hno].
  - apply (sp_users _ _ S) in Hu as (d & -> & Hd). exists (without d roles). by apply release_system.
  - exists roles. rewrite (release_rejected dir Hno). apply system_rejected.
Qed.

Lemma system_switch dir : system (paging_switch_directory s dir) mem_live others roles.
Proof.
  unfold paging_switch_directory. destruct (dir =? 0); [done|]. destruct (paging_is_managed_directory s dir) eqn:Em; cbn [negb]; [|done].
  apply managed_iff in Em. split; [done| |apply Sy|apply Sy]. destruct S. by split.
Qed.

(** The checks of the arguments. *)
Lemma map_guard dir virtual physical flags s' st :
  has flags PAGING_FLAG_USER = true → paging_map_page_in_directory s dir virtual physical flags = (s', st) →
  (s' = s ∧ st ≠ OK) ∨
  ∃ d v, dir = d * PAGE_SIZE ∧ roles !! d = Some UserDirectory ∧ virtual = v * PAGE_SIZE ∧ 2048 ≤ v < 4096 ∧ flags &w ~w 0x07 = 0.
Proof.
  intros Hu E. unfold paging_map_page_in_directory in E. rewrite Hu in E. cbn [negb andb] in E.
  destruct (dir =? 0); [injection E as <- <-; by left|].
  destruct (negb (virtual mod PAGE_SIZE =? 0) || negb (physical mod PAGE_SIZE =? 0)) eqn:E1; [injection E as <- <-; by left|].
  destruct (negb (flags &w ~w 0x07 =? 0)) eqn:E2; [injection E as <- <-; by left|].
  destruct ((virtual <? USER_SPACE_START) || (virtual >=? USER_SPACE_END)) eqn:E3; [injection E as <- <-; by left|].
  destruct (paging_is_registered_user_directory s dir) eqn:E4; cbn [negb] in E; [|injection E as <- <-; by left].
  right. apply user_registered_iff, (sp_users _ _ S) in E4 as (d & -> & Hd). exists d, (virtual / PAGE_SIZE).
  unfold USER_SPACE_START, USER_SPACE_END, PAGE_SIZE in *. split; [done|]. split; [done|]. split; [divlia|]. split; [divlia|lia].
Qed.

(** Mapping a page that is not handed to anyone else. *)
Inductive mapped (d v f : Z) (wr : bool) (s' : paging_t) : status → Prop :=
| mapped_refused : is_Some (walk (words s) d v) → s' = s → mapped d v f wr s' ERR_STATE
| mapped_full : mi_free_pages (mem_info (pg_memory s)) = 0 → system s' mem_live others roles → effect s s' roles roles (walk (words s)) all_pages → mapped d v f wr s' ERR_MEM
| mapped_done roles' :
    walk (words s) d v = None → system s' mem_live (others ∖ {[f]}) roles' →
    effect s s' roles roles' (remap s d v (Some (Mapping f wr true))) all_pages →
    (∀ j, 0 ≤ j < 1024 → words s' f j = words s f j) → mapped d v f wr s' OK.

Lemma map_system d v f flags s' st :
  f ∈ others → roles !! d = Some UserDirectory → 2048 ≤ v < 4096 → flags &w ~w 0x07 = 0 → has flags PAGING_FLAG_USER = true →
  paging_map_page_in_directory s (d * PAGE_SIZE) (v * PAGE_SIZE) (f * PAGE_SIZE) flags = (s', st) →
  mapped d v f (has flags PAGING_FLAG_WRITE) s' st.
Proof.
  intros Hf Hd Hv Hfl Hu E. pose proof (sy_others _ _ _ _ Sy f Hf) as Hfn. pose proof (other_owned f Hf) as Hfo.
  destruct (map_user s mem_live roles R S d v Hd Hv f flags s' st Hfo Hfn Hfl Hu E) as [Hw|m1 _ Ea|s' roles' Hw R' S' Hsub Hff Hnew Hdirs Hac Hk Hr Hwk].
  - by apply mapped_refused.
  - destruct (alloc_page_law _ _ R _ _ _ Ea) as (R1 & W1 & T1 & [[_ O1]|(p & Ep & Hp & _)]); [|unfold PAGE_SIZE in Ep; lia].
    destruct (system_quiet s mem_live others roles m1 mem_live others) as [S1 E1]; [done|done| |apply Sy|done|done|].
    { intros p. rewrite O1. apply Sy. }
    apply mapped_full; [|done|done]. destruct (alloc_counts _ _ 1 _ _ _ R ltac:(lia) Ea) as (_ & _ & H0). by apply H0.
  - apply (mapped_done _ _ _ _ _ roles'); [done| | |].
    + split; [done|done|..].
      * intros p. destruct (roles' !! p) as [r|] eqn:Ep; [split; [intros _; right; by eexists|intros _; by eapply sp_owned]|].
        rewrite (Hac p Ep). assert (roles !! p = None) as Hpn by (by eapply lookup_weaken_None).
        rewrite Hpn, bool_decide_false by (by intros [? ?]). rewrite (sy_owned _ _ _ _ Sy), Hpn.
        assert (p ≠ f) as Hpf by congruence. rewrite elem_of_difference, elem_of_singleton. split; [intros [?|[? ?]]; [by left|done]|].
        intros [[? _]|[? ?]]; [by left|done].
      * intros p Hp. destruct (roles' !! p) as [r|] eqn:Ep; [|done]. apply elem_of_difference in Hp as [Hpo Hpf%not_elem_of_singleton].
        destruct (Hnew p ltac:(by eexists)) as [[r' Hr']|[?|Hno]]; [|done|].
        -- by rewrite (sy_others _ _ _ _ Sy p Hpo) in Hr'.
        -- apply other_owned in Hpo. congruence.
    + split; [done|apply Hr|intros c n Hc; apply Hwk; by right|]. intros c n g rw j Hc Hn Hg%frame_role _ Hj; [|done|done].
      apply (Hk g); [by apply (sp_owned _ _ S g _ Hg)|by apply (frame_plain g c n)|done].
    + intros j Hj. apply (Hk f Hfo); [|done]. intros r Hr'. by rewrite Hfn in Hr'.
Qed.

Lemma system_map dir virtual f flags s' st :
  f ∈ others → has flags PAGING_FLAG_USER = true →
  paging_map_page_in_directory s dir virtual (f * PAGE_SIZE) flags = (s', st) → ∃ roles', system s' mem_live (after_map others f st) roles'.
Proof.
  intros Hf Hu E. unfold after_map.
  destruct (map_guard dir virtual _ flags s' st Hu E) as [[-> Hst]|(d & v & -> & Hd & -> & Hv & Hfl)].
  { exists roles. by rewrite decide_False. }
  destruct (map_system d v f flags s' st Hf Hd Hv Hfl Hu E) as [_ ->|_ S' _|roles' _ S' _ _].
  - exists roles. by rewrite decide_False.
  - exists roles. by rewrite decide_False.
  - exists roles'. by rewrite decide_True.
Qed.

Lemma unmap_guard dir virtual s' st :
  paging_unmap_user_page_in_directory s dir virtual = (s', st) →
  (s' = s ∧ st ≠ OK) ∨
  ∃ d v, dir = d * PAGE_SIZE ∧ roles !! d = Some UserDirectory ∧ virtual = v * PAGE_SIZE ∧ 2048 ≤ v < 4096.
Proof.
  intros E. unfold paging_unmap_user_page_in_directory in E. destruct (dir =? 0); [injection E as <- <-; by left|].
  destruct (paging_is_registered_user_directory s dir) eqn:E4; cbn [negb] in E; [|injection E as <- <-; by left].
  destruct (negb (virtual mod PAGE_SIZE =? 0) || (virtual <? USER_SPACE_START) || (virtual >=? USER_SPACE_END)) eqn:E3;
    [injection E as <- <-; by left|].
  right. apply user_registered_iff, (sp_users _ _ S) in E4 as (d & -> & Hd). exists d, (virtual / PAGE_SIZE).
  unfold USER_SPACE_START, USER_SPACE_END, PAGE_SIZE in *. split; [done|]. split; [done|]. divlia.
Qed.

Lemma unmap_system d v s' st :
  roles !! d = Some UserDirectory → 2048 ≤ v < 4096 →
  paging_unmap_user_page_in_directory s (d * PAGE_SIZE) (v * PAGE_SIZE) = (s', st) →
  (s' = s ∧ st = ERR_NOT_FOUND ∧ user_mapped (words s) d v = false) ∨
  ∃ f rw roles', st = OK ∧ walk (words s) d v = Some (Mapping f rw true) ∧ system s' mem_live others roles' ∧
    effect s s' roles roles' (remap s d v None) (λ c n, c ≠ d ∨ n ≠ v).
Proof.
  intros Hd Hv E. destruct (unmap_user s mem_live roles R S d v Hd Hv s' st E) as [?|f rw s' roles' Hw R' S' Hsub Hfr Hdirs Hac Hk Hr Hwk]; [by left|].
  assert (∀ p r, roles' !! p = Some r → roles !! p = Some r) as Hin.
  { intros p r Hp. apply (lookup_weaken _ _ _ _ Hp) in Hsub. by apply lookup_delete_Some in Hsub as [_ ?]. }
  right. exists f, rw, roles'. split; [done|]. split; [done|]. split.
  - split; [done|done|..].
    + intros p. destruct (roles' !! p) as [r|] eqn:Ep; [split; [intros _; right; by eexists|intros _; by eapply sp_owned]|].
      rewrite (Hac p Ep). destruct (roles !! p) as [r|] eqn:Er.
      * rewrite bool_decide_true by (by eexists). split; [done|]. intros [Hp|[? ?]]; [|done]. by rewrite (sy_others _ _ _ _ Sy p Hp) in Er.
      * rewrite bool_decide_false by (by intros [? ?]). rewrite (sy_owned _ _ _ _ Sy), Er. done.
    + intros p Hp. destruct (roles' !! p) as [r|] eqn:Ep; [|done]. apply Hin in Ep. by rewrite (sy_others _ _ _ _ Sy p Hp) in Ep.
  - split; [done|apply Hr|intros c n Hc; apply Hwk; by right|]. intros c n g rw' j Hc Hn Hg%frame_role Hne Hj; [|done|done].
    apply frame_role in Hw; [|done|lia]. apply (Hk g); [by apply (sp_owned _ _ S g _ Hg)| |done].
    split; [by apply (frame_plain g c n)|]. intros ->. rewrite Hw in Hg. injection Hg as -> ->. lia.
Qed.

Lemma system_unmap dir virtual : ∃ roles', system (paging_unmap_user_page_in_directory s dir virtual).1 mem_live others roles'.
Proof.
  destruct (paging_unmap_user_page_in_directory s dir virtual) as [s' st] eqn:E. cbn [fst].
  destruct (unmap_guard dir virtual s' st E) as [[-> _]|(d & v & -> & Hd & -> & Hv)]; [by exists roles|].
  destruct (unmap_system d v s' st Hd Hv E) as [(-> & _)|(f & rw & roles' & _ & _ & S' & _)]; [by exists roles|by exists roles'].
Qed.

Lemma system_alloc zone m a :
  pmm_alloc_page_in_zone (pg_memory s) zone = (m, a) →
  system (s <| pg_memory := m |>) mem_live (if a =? 0 then others else {[a / PAGE_SIZE]} ∪ others) roles ∧
  effect s (s <| pg_memory := m |>) roles roles (walk (words s)) all_pages.
Proof.
  intros E. destruct (alloc_page_law _ _ R _ _ _ E) as (R1 & W1 & T1 & [[-> O1]|(p & -> & Hp & Hfree & O1)]).
  - rewrite Z.eqb_refl. apply (system_quiet s mem_live others); [done|done| |apply Sy|done|done]. intros p. rewrite O1. apply Sy.
  - replace (p * PAGE_SIZE =? 0) with false by (unfold PAGE_SIZE; lia). rewrite page_of_address.
    apply (system_quiet s mem_live others); [done|done| | |done|done].
    + intros q. rewrite O1, orb_true_iff, (sy_owned _ _ _ _ Sy q : page_owned (pg_memory s) q = true ↔ _), elem_of_union, elem_of_singleton, Z.eqb_eq. tauto.
    + intros q [->%elem_of_singleton|Hq]%elem_of_union; [by apply (unowned_role s roles S)|by apply Sy].
Qed.

Lemma system_free p :
  p ∈ others → let s' := s <| pg_memory := pmm_free_page (pg_memory s) (p * PAGE_SIZE) |> in
  system s' mem_live (others ∖ {[p]}) roles ∧ effect s s' roles roles (walk (words s)) all_pages.
Proof.
  intros Hp. destruct (free_page_kept _ _ p R (other_owned p Hp)) as (R' & O' & W' & T').
  apply (system_quiet s mem_live others); [done|done| | |done|done].
  - intros q. rewrite O', andb_true_iff, negb_true_iff, Z.eqb_neq, (sy_owned _ _ _ _ Sy q : page_owned (pg_memory s) q = true ↔ _), elem_of_difference, elem_of_singleton.
    pose proof (sy_others _ _ _ _ Sy p Hp) as Hn. split; [intros [Hq [?|?]]; tauto|]. intros [[? ?]|[r Hq]]; [tauto|].
    split; [congruence|right; by eexists].
  - intros q [Hq _]%elem_of_difference. by apply Sy.
Qed.

(** A byte written into a page that is neither a directory nor a table. *)
Lemma system_byte p i v :
  owned s p = true → plain roles p → 0 ≤ i < PAGE_SIZE →
  let s' := s <| pg_memory ::= λ m, m <| phys ::= λ h, store8 h (p * PAGE_SIZE + i) v |> |> in
  system s' mem_live others roles ∧ (∀ c n, is_dir roles c → 0 ≤ n < 2 ^ 20 → walk (words s') c n = walk (words s) c n) ∧
  ∀ q j, q ≠ p → 0 ≤ j < 1024 → words s' q j = words s q j.
Proof.
  intros Hp Hpl Hi s'. assert ((p * PAGE_SIZE + i) / PAGE_SIZE = p) as Ea by (unfold PAGE_SIZE in *; divlia).
  destruct (write_owned (pg_memory s) mem_live (p * PAGE_SIZE + i) v R) as [R' O']; [by rewrite Ea|].
  set (m := (pg_memory s) <| phys ::= λ h, store8 h (p * PAGE_SIZE + i) v |>) in *.
  assert (∀ q j, q ≠ p → 0 ≤ j < 1024 → word m q j = words s q j) as HW.
  { intros q j Hq Hj. apply word_bytes; [done|]. intros b Hb. apply load8_store8_ne. unfold PAGE_SIZE in *. divlia. }
  destruct (system_memory s mem_live others roles m mem_live others) as [S' Hw]; [done|exact R'| |apply Sy| |done|].
  - intros q. rewrite (O' q : page_owned m q = _). apply Sy.
  - intros q r j Hq Hs Hj. apply HW; [|done]. intros ->. rewrite (Hpl r Hq) in Hs. done.
  - split; [exact S'|]. by split.
Qed.

Lemma system_heap m mem_live' :
  heap_call (pg_memory s) mem_live m mem_live' →
  system (s <| pg_memory := m |>) mem_live' others roles ∧ effect s (s <| pg_memory := m |>) roles roles (walk (words s)) all_pages.
Proof.
  intros Hc. destruct (heap_call_law _ _ _ _ R Hc) as (R' & O' & W' & T').
  apply (system_quiet s mem_live others); [done|done| |apply Sy|done|done]. intros p. rewrite O'. apply Sy.
Qed.

(** A store in user mode reaches a frame of that process only. *)
Lemma store_frame dir virtual v s' :
  dir ∈ live (paging_directories s) → 0 ≤ virtual < 2 ^ 32 → user_store s dir virtual v = Some s' →
  ∃ d f, dir = d * PAGE_SIZE ∧ roles !! f = Some (UserFrame d (virtual / PAGE_SIZE)) ∧
    walk (words s) d (virtual / PAGE_SIZE) = Some (Mapping f true true) ∧
    s' = s <| pg_memory ::= λ m, m <| phys ::= λ h, store8 h (f * PAGE_SIZE + virtual mod PAGE_SIZE) v |> |>.
Proof.
  intros Hd Hv E. assert (∃ d, dir = d * PAGE_SIZE ∧ is_dir roles d) as (d & -> & Hdir).
  { pose proof Hd as Hd'. rewrite (sp_all _ _ S) in Hd'. apply elem_of_cons in Hd' as [->|(d & -> & _)%(sp_users _ _ S)].
    - exists (kernel_page s). rewrite (sp_kernel _ _ S), (dir_live s roles S), <-(sp_kernel _ _ S). done.
    - exists d. by rewrite (dir_live s roles S). }
  unfold user_store in E. rewrite page_of_address in E. assert (0 ≤ virtual / PAGE_SIZE < 2 ^ 20) as Hn by (unfold PAGE_SIZE; divlia).
  destruct (walk (words s) d (virtual / PAGE_SIZE)) as [[f [] []]|] eqn:Ew; try done. injection E as <-.
  exists d, f. split; [done|]. split; [|done]. by apply (walk_user _ _ _ (sp_linked _ _ S) d _ _ Hdir Hn Ew).
Qed.

Lemma system_store dir virtual v s' :
  dir ∈ live (paging_directories s) → 0 ≤ virtual < 2 ^ 32 → user_store s dir virtual v = Some s' → system s' mem_live others roles.
Proof.
  intros Hd Hv E. destruct (store_frame dir virtual v s' Hd Hv E) as (d & f & -> & Hf & _ & ->).
  apply system_byte; [by apply (sp_owned _ _ S f _ Hf)| |apply Z.mod_pos_bound; done]. intros r Hr. rewrite Hf in Hr. by injection Hr as <-.
Qed.
End steps.

Lemma system_init mem_live m others mode start_ticks end_ticks s framebuffer :
  run m mem_live → (∀ p, p ∈ others ↔ page_owned m p = true) → (∀ v, mode = Some v → mode_typed v) →
  paging_init (paging_boot m) mode start_ticks end_ticks = (s, framebuffer, OK) → ∃ roles, system s mem_live others roles.
Proof.
  intros R Ho Hm E. destruct (init_spec mem_live (paging_boot m) R mode start_ticks end_ticks s framebuffer OK) as [[_ B]|[? _]]; [by repeat split|done|done|..|done].
  destruct (bo_space _ _ _ _ _ B) as (tables & S & HO & HN). exists (boot_roles (kernel_page s) tables).
  assert (∀ p, is_Some (boot_roles (kernel_page s) tables !! p) ↔ built (kernel_page s) tables p = true) as HB.
  { intros p. unfold built, boot_roles. rewrite orb_true_iff, Z.eqb_eq, bool_decide_eq_true.
    destruct (decide (p = kernel_page s)) as [->|Hp]; [rewrite lookup_insert_eq; split; [by left|by eexists]|].
    rewrite lookup_insert_ne, lookup_fmap, fmap_is_Some by done. tauto. }
  split; [apply B|exact S|..].
  - intros p. rewrite HO, orb_true_iff, HB, Ho. tauto.
  - intros p Hp. apply Ho in Hp. destruct (boot_roles (kernel_page s) tables !! p) eqn:Ep; [|done].
    rewrite (HN p : _ → page_owned m p = false) in Hp; [done|]. apply HB. by eexists.
Qed.

Lemma reach_system s mem_live others : reach s mem_live others → ∃ roles, system s mem_live others roles.
Proof.
  induction 1 as [|? ? ? _ [roles Sy]|? ? ? ? _ [roles Sy]|? ? ? ? _ [roles Sy]|? ? ? ? ? ? ? ? ? _ [roles Sy]|? ? ? ? ? _ [roles Sy]|
    ? ? ? ? ? ? _ [roles Sy]|? ? ? ? _ [roles Sy]|? ? ? p i v _ [roles Sy] Hp|? ? ? ? ? _ [roles Sy]|? ? ? ? ? ? ? _ [roles Sy]].
  - by eapply system_init.
  - by eapply system_create.
  - by eapply system_release.
  - exists roles. by apply system_switch.
  - by eapply system_map.
  - by eapply system_unmap.
  - exists roles. by apply (proj1 (system_alloc _ _ _ _ Sy _ _ _ H)).
  - exists roles. by apply system_free.
  - exists roles. apply system_byte; [done|by eapply other_owned| |done]. intros r Hr. by rewrite (sy_others _ _ _ _ Sy p Hp) in Hr.
  - exists roles. by apply (proj1 (system_heap _ _ _ _ Sy _ _ H)).
  - exists roles. by eapply system_store.
Qed.
