(* ===== verification/PagingDemo.v ===== *)
(** * A machine with one process

    The 32 MiB machine of MemorySystem.v with paging on, a process and one page of its
    window mapped.  That these calls succeed follows from the number of free pages; the
    witnesses of the theorems about paging use these states. *)

From S2P Require Import Prelude Registry Memory Pmm Heap HeapRefine MemorySystem PageOwner Paging PagingInv.
From S2P Require Import PagingCalls PagingDirs PagingFree PagingBoot PagingInit PagingReach.

Lemma booted_pages : mi_total_pages (mem_info booted) = 8192.
Proof. rewrite (ini_total _ _ _ booted_ok). done. Qed.

Lemma booted_free : 3072 ≤ mi_free_pages (mem_info booted).
Proof.
  rewrite (wf_free _ booted_wf), booted_pages.
  apply (count_range_run 0 5120 8192 8192 _ true); [lia|lia|]. intros p Hp.
  apply (ini_free _ _ _ booted_ok); [rewrite booted_pages; lia|]. change FIRST_FREE_PAGE with 5120. split; [lia|].
  exists (MmapEntry 0x100000 0 0x1F00000 0 1 0). split; [apply list_elem_of_In; cbn; auto|].
  unfold entry_covers. change (entry_base _) with 0x100000. change (u64 _) with 0x2000000.
  change MAX_PHYSICAL_ADDRESS with 0xFFFFFFFF. unfold PAGE_SIZE. cbn [mmap_type]. lia.
Qed.

Lemma none_owned m p : pmm_wf m → pmm_owned_pages m = 0 → page_owned m p = false.
Proof.
  intros W H0. destruct (page_owned m p) eqn:E; [|done]. exfalso. unfold page_owned in E.
  apply andb_true_iff in E as [[H1 H2]%andb_true_iff H3]. rewrite (wf_owned _ W) in H0.
  pose proof (count_range_run 0 p (p + 1) (mi_total_pages (mem_info m)) (pmm_page_is_owned m) true ltac:(lia) ltac:(lia)) as Hc.
  cbv iota in Hc. rewrite H0 in Hc. assert (p + 1 - p ≤ 0); [|lia]. apply Hc. intros i Hi. by replace i with p by lia.
Qed.
Lemma booted_owned p : page_owned booted p = false.
Proof. exact (none_owned booted p booted_wf (ini_owned _ _ _ booted_ok)). Qed.

(** ** With enough free pages the calls succeed *)

Lemma start_succeeds m mem_live r :
  run m mem_live → 1025 < mi_free_pages (mem_info m) → r = paging_init (paging_boot m) None 0 0 →
  r = (r.1.1, r.1.2, OK) ∧ started mem_live (paging_boot m) None r.1.2 r.1.1.
Proof.
  intros R Hf Er. destruct (init_spec mem_live (paging_boot m) R None 0 0 r.1.1 r.1.2 r.2) as [[H1 H2]|(_ & _ & H)].
  - by repeat split.
  - done.
  - rewrite <-Er. by destruct r as [[? ?] ?].
  - split; [|done]. destruct r as [[? ?] ?]. cbn in *. congruence.
  - exfalso. change (pg_memory (paging_boot m)) with m in H. lia.
Qed.

Lemma create_succeeds s mem_live others r :
  reach s mem_live others → 0 < mi_free_pages (mem_info (pg_memory s)) → live (user_directories s) = [] →
  current_directory s = kernel_directory s → r = paging_create_user_directory s →
  reach r.1 mem_live others ∧ r.2 ∈ live (user_directories r.1) ∧ r.2 ≠ current_directory r.1 ∧
  mi_free_pages (mem_info (pg_memory r.1)) = mi_free_pages (mem_info (pg_memory s)) - 1 ∧
  ∀ n, 0 ≤ n < 2 ^ 20 → walk (words r.1) (r.2 / PAGE_SIZE) n = walk (words s) (kernel_page s) n.
Proof.
  intros Hr Hroom HU HC Er. split; [rewrite Er; by apply reach_create|]. destruct (reach_system _ _ _ Hr) as [roles Sy].
  pose proof (sy_space _ _ _ _ Sy) as S. destruct r as [s' a]. cbn [fst snd]. symmetry in Er.
  destruct (create_user s mem_live roles (sy_run _ _ _ _ Sy) S _ _ Er)
    as [s' _ _ _ _ _ _ [H|H]|s' p Hp Hf _ _ O _ Ek Ec HP Hw Hwp HF]; [lia|by rewrite HU in H|].
  rewrite page_of_address. split; [rewrite HP; by left|]. split; [|by split].
  rewrite Ec, HC, (sp_kernel _ _ S). pose proof (sp_owned _ _ S _ _ (kernel_page_role _ roles S)).
  unfold PAGE_SIZE. intros Eq. assert (p = kernel_page s) by lia. congruence.
Qed.

Lemma page_alloc_succeeds s mem_live r :
  reach s mem_live ∅ → 0 < mi_free_pages (mem_info (pg_memory s)) → r = pmm_alloc_page_in_zone (pg_memory s) MEMORY_ZONE_PROCESS →
  let s' := s <| pg_memory := r.1 |> in
  reach s' mem_live {[r.2 / PAGE_SIZE]} ∧ mi_free_pages (mem_info (pg_memory s')) = mi_free_pages (mem_info (pg_memory s)) - 1 ∧
  user_directories s' = user_directories s ∧ current_directory s' = current_directory s ∧
  ∀ c n, c ∈ live (paging_directories s) → 0 ≤ n < 2 ^ 20 → walk (words s') (c / PAGE_SIZE) n = walk (words s) (c / PAGE_SIZE) n.
Proof.
  intros Hr Hroom E s'. destruct (reach_system _ _ _ Hr) as [roles Sy].
  pose proof (sy_space _ _ _ _ Sy) as S. pose proof (sy_run _ _ _ _ Sy) as R. destruct r as [m a]. cbn [fst snd] in *. symmetry in E.
  destruct (alloc_counts _ _ 1 _ _ _ R ltac:(lia) E) as (T1 & Hf & H0). destruct (alloc_page_law _ _ R _ _ _ E) as (_ & W1 & _ & HO).
  assert ((a =? 0) = false) as Hb by (apply Z.eqb_neq; intros Hz; rewrite (H0 Hz eq_refl eq_refl) in Hroom; lia). rewrite Hb in Hf.
  pose proof (reach_alloc _ _ _ _ _ _ Hr E) as Hr'. rewrite Hb, union_empty_r_L in Hr'. split; [exact Hr'|].
  do 3 (split; [done|]). intros c n Hc Hn. destruct (space_quiet s mem_live roles R S m W1) as [_ Hw]; [|exact T1|].
  - intros p r Hp. pose proof (sp_owned _ _ S p r Hp) as Ho. destruct HO as [[? ?]|(q & _ & _ & _ & ->)]; [lia|].
    rewrite (Ho : page_owned _ p = true). apply orb_true_r.
  - apply Hw; [|done]. rewrite (sp_all _ _ S) in Hc. apply elem_of_cons in Hc as [->|(d & -> & Hd)%(sp_users _ _ S)].
    + left. by apply kernel_page_role.
    + rewrite page_of_address. by right.
Qed.

Lemma map_succeeds s mem_live f dir n r :
  reach s mem_live {[f]} → 0 < mi_free_pages (mem_info (pg_memory s)) → dir ∈ live (user_directories s) → 2048 ≤ n < 4096 →
  walk (words s) (dir / PAGE_SIZE) n = None →
  r = paging_map_page_in_directory s dir (n * PAGE_SIZE) (f * PAGE_SIZE) 7 →
  r = (r.1, OK) ∧ reach r.1 mem_live ∅ ∧ live (user_directories r.1) = live (user_directories s) ∧
  live (paging_directories r.1) = live (paging_directories s) ∧ current_directory r.1 = current_directory s ∧
  walk (words r.1) (dir / PAGE_SIZE) n = Some (Mapping f true true).
Proof.
  intros Hr Hroom Hdir Hn Hnone E. destruct r as [s' st]. cbn [fst snd] in *. symmetry in E.
  destruct (reach_system _ _ _ Hr) as [roles Sy]. pose proof (sy_space _ _ _ _ Sy) as S. pose proof (sy_run _ _ _ _ Sy) as R.
  assert (f ∈ ({[f]} : gset Z)) as Hf by (by apply elem_of_singleton).
  pose proof (reach_map _ _ _ _ _ f 7 s' st Hr Hf eq_refl E) as Hr'. apply (sp_users _ _ S) in Hdir as (d & -> & Hd).
  rewrite page_of_address in Hnone. rewrite page_of_address.
  destruct (map_user s mem_live roles R S d n Hd Hn f 7 s' st (other_owned _ _ _ _ Sy f Hf) (sy_others _ _ _ _ Sy f Hf) eq_refl eq_refl E)
    as [[? Hm]|m1 _ Ea|s' roles' _ _ _ _ _ _ _ _ _ SR Hw]; [congruence| |].
  - destruct (alloc_counts _ _ 1 _ _ _ R ltac:(lia) Ea) as (_ & _ & H0). rewrite H0 in Hroom by done. lia.
  - split; [done|]. unfold after_map in Hr'. rewrite decide_True, difference_diag_L in Hr' by done. split; [exact Hr'|].
    rewrite (sr_users _ _ SR), (sr_all _ _ SR), (sr_current _ _ SR). do 3 (split; [done|]).
    rewrite Hw; [|by right|lia]. by rewrite !Z.eqb_refl.
Qed.

(** A process with the first page of its window mapped to [f]. *)
Record one_process (s1 s2 s3 : paging_t) (dir f : Z) : Prop := {
  op_created : reach s1 ∅ ∅;
  op_dir : dir ∈ live (user_directories s1);
  op_ready : reach s2 ∅ {[f]};
  op_ready_dir : dir ∈ live (user_directories s2);
  op_unmapped : walk (words s2) (dir / PAGE_SIZE) 2048 = None;
  op_map : paging_map_page_in_directory s2 dir (2048 * PAGE_SIZE) (f * PAGE_SIZE) 7 = (s3, OK);
  op_process : reach s3 ∅ ∅;
  op_user : dir ∈ live (user_directories s3);
  op_known : dir ∈ live (paging_directories s3);
  op_stopped : dir ≠ current_directory s3;
  op_mapped : walk (words s3) (dir / PAGE_SIZE) 2048 = Some (Mapping f true true)
}.

Lemma process_succeeds s r1 r2 r3 s2 :
  reach s ∅ ∅ → 3 < mi_free_pages (mem_info (pg_memory s)) → live (user_directories s) = [] →
  current_directory s = kernel_directory s → r1 = paging_create_user_directory s →
  r2 = pmm_alloc_page_in_zone (pg_memory r1.1) MEMORY_ZONE_PROCESS → s2 = r1.1 <| pg_memory := r2.1 |> →
  r3 = paging_map_page_in_directory s2 r1.2 (2048 * PAGE_SIZE) (r2.2 / PAGE_SIZE * PAGE_SIZE) 7 →
  one_process r1.1 s2 r3.1 r1.2 (r2.2 / PAGE_SIZE).
Proof.
  intros Hr Hf HU HC E1 E2 -> E3. destruct (create_succeeds s ∅ ∅ r1 Hr ltac:(lia) HU HC E1) as (Hr1 & Hu & Hc & Hf1 & Hw1).
  destruct (page_alloc_succeeds r1.1 ∅ r2 Hr1 ltac:(lia) E2) as (Hr2 & Hf2 & Eu & Ec & Hw2).
  set (s2 := r1.1 <| pg_memory := r2.1 |>) in *. clearbody s2.
  destruct (reach_system _ _ _ Hr1) as [roles1 Sy1]. destruct (reach_system _ _ _ Hr2) as [roles2 Sy2].
  assert (r1.2 ∈ live (user_directories s2)) as Hu2 by (by rewrite Eu).
  assert (walk (words s2) (r1.2 / PAGE_SIZE) 2048 = None) as Hn.
  { rewrite Hw2; [|rewrite (sp_all _ _ (sy_space _ _ _ _ Sy1)); by right|lia]. rewrite Hw1 by lia.
    destruct (reach_system _ _ _ Hr) as [roles Sy]. apply walk_absent, (lk_window _ _ _ (sp_linked _ _ (sy_space _ _ _ _ Sy))). done. }
  destruct (map_succeeds s2 ∅ _ r1.2 2048 r3 Hr2 ltac:(lia) Hu2 ltac:(lia) Hn E3) as (H1 & H2 & H3 & H4 & H5 & H6).
  split; try done; [by rewrite <-E3|by rewrite H3|rewrite H4, (sp_all _ _ (sy_space _ _ _ _ Sy2)); by right|by rewrite H5, Ec].
Qed.

(** ** The machine *)

(** Paging is on. *)
Definition demo_init : paging_t * option status * status := paging_init (paging_boot booted) None 0 0.
Definition demo_paging : paging_t := demo_init.1.1.

Lemma demo_started : demo_init = (demo_paging, demo_init.1.2, OK) ∧ started ∅ (paging_boot booted) None demo_init.1.2 demo_paging.
Proof. exact (start_succeeds booted ∅ demo_init booted_run ltac:(pose proof booted_free; lia) eq_refl). Qed.
Lemma demo_init_ok : paging_init (paging_boot booted) None 0 0 = (demo_paging, demo_init.1.2, OK).
Proof. exact (proj1 demo_started). Qed.
#[global] Opaque demo_init.

Lemma demo_reach : reach demo_paging ∅ ∅.
Proof.
  apply (reach_init booted ∅ ∅ None 0 0 demo_paging demo_init.1.2); [exact booted_run| |done|exact demo_init_ok].
  intros p. rewrite booted_owned. split; [by intros ?%not_elem_of_empty|done].
Qed.

Lemma demo_room : 2047 ≤ mi_free_pages (mem_info (pg_memory demo_paging)).
Proof. pose proof (bo_free _ _ _ _ _ (proj2 demo_started)) as H. cbn [pg_memory paging_boot] in H. pose proof booted_free. lia. Qed.

(** A process. *)
Definition demo_create : paging_t * Z := paging_create_user_directory demo_paging.
Definition demo_dir : Z := demo_create.2.
(** A frame for it. *)
Definition demo_alloc : memory_t * Z := pmm_alloc_page_in_zone (pg_memory demo_create.1) MEMORY_ZONE_PROCESS.
Definition demo_frame : Z := demo_alloc.2 / PAGE_SIZE.
Definition demo_ready : paging_t := demo_create.1 <| pg_memory := demo_alloc.1 |>.
(** The frame mapped, writable. *)
Definition demo_map_page : paging_t * status :=
  paging_map_page_in_directory demo_ready demo_dir (2048 * PAGE_SIZE) (demo_frame * PAGE_SIZE) 7.
Definition demo_process : paging_t := demo_map_page.1.

Lemma demo_one_process : one_process demo_create.1 demo_ready demo_process demo_dir demo_frame.
Proof.
  exact (process_succeeds demo_paging demo_create demo_alloc demo_map_page demo_ready demo_reach ltac:(pose proof demo_room; lia)
    (bo_users _ _ _ _ _ (proj2 demo_started)) (bo_current _ _ _ _ _ (proj2 demo_started)) eq_refl eq_refl eq_refl eq_refl).
Qed.
#[global] Opaque demo_create demo_alloc demo_ready demo_map_page.
