(* ===== verification/PagingSystem.v ===== *)
(** * paging.c as a whole

    What processes and the kernel can rely on in every state paging.c can reach: the
    frames of a process are its own, a store from user mode changes nothing else, the
    kernel's map is the same in every directory and closed to programs, the counters are
    exact, and no page is lost. *)

From S2P Require Import Prelude Registry Memory Pmm Heap HeapRefine MemorySystem PageOwner Paging PagingInv.
From S2P Require Import PagingCalls PagingDirs PagingFree PagingBoot PagingInit PagingReach PagingDemo.

(** What the processor finds for virtual page [n] with directory [dir] loaded. *)
Definition translate (s : paging_t) (dir n : Z) : option mapping := walk (words s) (dir / PAGE_SIZE) n.

(** ** Directories by their address *)

Lemma directory_page s mem_live others roles dir :
  system s mem_live others roles → dir ∈ live (paging_directories s) → ∃ d, dir = d * PAGE_SIZE ∧ dir / PAGE_SIZE = d ∧ is_dir roles d.
Proof.
  intros Sy Hd. pose proof (sy_space _ _ _ _ Sy) as S. pose proof Hd as Hd'. rewrite (sp_all _ _ S) in Hd'.
  apply elem_of_cons in Hd' as [->|(d & -> & Hr)%(sp_users _ _ S)].
  - exists (kernel_page s). split; [apply (sp_kernel _ _ S)|]. split; [done|]. left. by apply kernel_page_role.
  - exists d. rewrite page_of_address. split; [done|]. split; [done|]. by right.
Qed.

Lemma user_page s mem_live others roles dir :
  system s mem_live others roles → dir ∈ live (user_directories s) →
  ∃ d, dir = d * PAGE_SIZE ∧ dir / PAGE_SIZE = d ∧ roles !! d = Some UserDirectory.
Proof.
  intros Sy (d & -> & Hr)%(sp_users _ _ (sy_space _ _ _ _ Sy)). exists d. by rewrite page_of_address.
Qed.

(** A page a table entry of a directory points to is a table. *)
Lemma entry_role s mem_live others roles d i :
  system s mem_live others roles → is_dir roles d → 0 ≤ i < 1024 → entry_present (words s d i) = true →
  ∃ r, roles !! entry_frame (words s d i) = Some r ∧ structural r = true.
Proof.
  intros Sy Hd Hi Hp. destruct (dir_entry_cases _ _ _ (sp_linked _ _ (sy_space _ _ _ _ Sy)) d i Hd Hi) as [E|[(t & Hl & Ht)|(t & Hl & Ht)]].
  - by rewrite E in Hp.
  - rewrite (ln_frame _ _ _ Hl). by eexists.
  - rewrite (ln_frame _ _ _ Hl). by eexists.
Qed.

(** ** Isolation *)



(** C8: a store from user mode that the map allows is a step to a reachable state in which
    every directory translates as before, every page but the frame written keeps its
    contents (so the kernel's structures, the heap and the other processes do) and the
    variables of paging.c are the same. *)
Theorem user_store_confined s mem_live others dir virtual v s' :
  reach s mem_live others → dir ∈ live (paging_directories s) → 0 ≤ virtual < 2 ^ 32 → user_store s dir virtual v = Some s' →
  reach s' mem_live others ∧ s' = s <| pg_memory := pg_memory s' |> ∧
  (∀ c n, c ∈ live (paging_directories s) → 0 ≤ n < 2 ^ 20 → translate s' c n = translate s c n) ∧
  ∃ f, translate s dir (virtual / PAGE_SIZE) = Some (Mapping f true true) ∧
    load8 (phys (pg_memory s')) (f * PAGE_SIZE + virtual mod PAGE_SIZE) = u8 v ∧
    ∀ p j, p ≠ f → 0 ≤ j < 1024 → word (pg_memory s') p j = word (pg_memory s) p j.
Proof.
  intros Hr Hdir Hv E. split; [by eapply reach_store|]. apply reach_system in Hr as [roles Sy]. pose proof (sy_space _ _ _ _ Sy) as S.
  destruct (store_frame s mem_live others roles Sy dir virtual v s' Hdir Hv E) as (d & f & -> & Hf & Hw & ->).
  destruct (system_byte s mem_live others roles Sy f (virtual mod PAGE_SIZE) v) as (_ & HW & HP);
    [by apply (sp_owned _ _ S f _ Hf)| |by apply Z.mod_pos_bound|].
  { intros r Hr. rewrite Hf in Hr. by injection Hr as <-. }
  split; [by destruct s|]. split.
  - intros c n Hc Hn. destruct (directory_page _ _ _ _ c Sy Hc) as (c' & -> & Ec & Hc'). unfold translate. rewrite Ec. by apply HW.
  - exists f. unfold translate. rewrite page_of_address. split; [done|]. split; [apply load8_store8_eq|exact HP].
Qed.

Lemma demo_store : ∃ s', user_store demo_process demo_dir 0x800123 0x5A = Some s'.
Proof.
  unfold user_store. change (0x800123 / PAGE_SIZE) with 2048. rewrite (op_mapped _ _ _ _ _ demo_one_process). by eexists.
Qed.

Lemma user_store_confined_witness : ∃ s', user_store demo_process demo_dir 0x800123 0x5A = Some s' ∧ reach s' ∅ ∅.
Proof.
  destruct demo_store as [s' E]. exists s'. split; [exact E|].
  destruct (user_store_confined demo_process ∅ ∅ demo_dir 0x800123 0x5A s' (op_process _ _ _ _ _ demo_one_process)
    (op_known _ _ _ _ _ demo_one_process) ltac:(lia) E) as [H _]. exact H.
Defined.



(** ** Accounting *)

(** C14: in every reachable state the counters of user pages and directories are exact:
    [active_pages] is the number of pages all processes map, [active_directories] the
    number of processes, at most 64, and [paging_get_user_page_count] returns the number
    of pages the directory maps for its program. *)
Theorem user_pages_counted s mem_live others :
  reach s mem_live others →
  u_active_pages (user_paging_stats s) = total (λ dir, resident (words s) (dir / PAGE_SIZE)) (live (user_directories s)) ∧
  u_active_directories (user_paging_stats s) = Z.of_nat (length (live (user_directories s))) ∧
  (length (live (user_directories s)) ≤ 64)%nat ∧
  ∀ dir, dir ∈ live (user_directories s) → paging_get_user_page_count s dir = (Some (resident (words s) (dir / PAGE_SIZE)), OK).
Proof.
  intros [roles Sy]%reach_system. pose proof (sy_space _ _ _ _ Sy) as S. split; [apply (sp_pages _ _ S)|]. split; [apply (sp_dirs _ _ S)|].
  split; [pose proof (live_length (user_directories s)); destruct (sp_length _ _ S); lia|].
  intros dir Hd. destruct (user_page _ _ _ _ dir Sy Hd) as (d & -> & -> & Hr). apply (user_page_count s mem_live roles (sy_run _ _ _ _ Sy) S d Hr).
Qed.

Lemma user_pages_counted_witness :
  paging_get_user_page_count demo_process demo_dir = (Some (resident (words demo_process) (demo_dir / PAGE_SIZE)), OK).
Proof.
  exact (proj2 (proj2 (proj2 (user_pages_counted demo_process ∅ ∅ (op_process _ _ _ _ _ demo_one_process)))) demo_dir
    (op_user _ _ _ _ _ demo_one_process)).
Defined.

(** The pages of a process: its directory, the tables only it has and the frames it maps. *)
Definition process_page (s : paging_t) (dir p : Z) : Prop :=
  p = dir / PAGE_SIZE ∨
  (∃ i, 0 ≤ i < 1024 ∧ entry_present (dir_entry s dir i) = true ∧ entry_user (dir_entry s dir i) = true ∧ entry_frame (dir_entry s dir i) = p) ∨
  (∃ n w, 0 ≤ n < 2 ^ 20 ∧ translate s dir n = Some (Mapping p w true)).

Lemma process_page_role s mem_live others roles d p :
  system s mem_live others roles → roles !! d = Some UserDirectory → process_page s (d * PAGE_SIZE) p ↔ belongs roles d p = true.
Proof.
  intros Sy Hd. pose proof (sp_linked _ _ (sy_space _ _ _ _ Sy)) as L. unfold process_page, belongs, translate. rewrite page_of_address. split.
  - intros [->|[(i & Hi & Hp & Hu & <-)|(n & w & Hn & Hw)]].
    + rewrite Hd. cbn. apply Z.eqb_refl.
    + change (dir_entry s (d * PAGE_SIZE) i) with (words s d i) in *.
      destruct (dir_entry_cases _ _ _ L d i (or_intror Hd) Hi) as [E|[(t & Hl & Ht)|(t & Hl & Ht)]].
      * by rewrite E in Hp.
      * rewrite (ln_user _ _ _ Hl) in Hu. done.
      * rewrite (ln_frame _ _ _ Hl), Ht. cbn. apply Z.eqb_refl.
    + rewrite (walk_user _ _ _ L d n _ (or_intror Hd) Hn Hw eq_refl : roles !! p = _). cbn. apply Z.eqb_refl.
  - intros Hb. destruct (roles !! p) as [[]|] eqn:Ep; cbn in Hb; try done.
    + left. lia.
    + right. left. exists i. apply Z.eqb_eq in Hb as ->. destruct (lk_utable _ _ _ L p d i Ep) as (_ & Hi & _ & Hl & _).
      change (dir_entry s (d * PAGE_SIZE) i) with (words s d i). destruct Hl. split; [lia|done].
    + right. right. apply Z.eqb_eq in Hb as ->. destruct (frame_walk _ _ _ L p d v Ep) as (rw & Hw & _ & Hv).
      exists v, rw. split; [lia|done].
Qed.

(** C12: releasing the directory of a process that is not running gives back exactly its
    pages: the directory, its own tables and its frames become free, every other page
    keeps its owner and its contents, every other directory translates as before, and
    the directory is no longer registered.  A call for a directory that is running, that
    is the kernel's or that is not registered changes only the counter of refusals. *)
Theorem release_exact s mem_live others dir :
  reach s mem_live others →
  let s' := paging_free_user_directory s dir in
  if bool_decide (dir ∈ live (user_directories s) ∧ dir ≠ current_directory s) then
    live (user_directories s) ≡ₚ dir :: live (user_directories s') ∧
    (∀ p, page_owned (pg_memory s') p = true ↔ page_owned (pg_memory s) p = true ∧ ¬ process_page s dir p) ∧
    (∀ p j, page_owned (pg_memory s') p = true → 0 ≤ j < 1024 → word (pg_memory s') p j = word (pg_memory s) p j) ∧
    (∀ c n, c ∈ live (paging_directories s) → c ≠ dir → 0 ≤ n < 2 ^ 20 → translate s' c n = translate s c n)
  else s' = user_stat s (set u_rejected_releases (λ n, n +w 1)).
Proof.
  intros [roles Sy]%reach_system s'. pose proof (sy_space _ _ _ _ Sy) as S. unfold s'. destruct (bool_decide _) eqn:Eb.
  - apply bool_decide_eq_true in Eb as [Hu Hc]. destruct (user_page _ _ _ _ dir Sy Hu) as (d & -> & _ & Hd).
    destruct (free_user s mem_live roles (sy_run _ _ _ _ Sy) S d Hd Hc) as [_ _ O W' _ _ HU Hw].
    split; [exact HU|]. split; [|split; [exact W'|]].
    + intros p. rewrite (O p : page_owned _ p = _), andb_true_iff, negb_true_iff, (process_page_role _ _ _ _ d p Sy Hd).
      destruct (belongs roles d p); split; intros [H1 H2]; try done; by destruct H2.
    + intros c n Hcl Hne Hn. destruct (directory_page _ _ _ _ c Sy Hcl) as (c' & -> & Ec & Hc'). unfold translate. rewrite Ec.
      apply Hw; [done|congruence|done].
  - apply bool_decide_eq_false in Eb. by apply release_rejected.
Qed.

Lemma release_exact_witness : page_owned (pg_memory (paging_free_user_directory demo_process demo_dir)) demo_frame ≠ true.
Proof.
  pose proof (op_process _ _ _ _ _ demo_one_process) as Hr. pose proof (op_user _ _ _ _ _ demo_one_process) as Hu.
  pose proof (op_stopped _ _ _ _ _ demo_one_process) as Hs. pose proof (op_mapped _ _ _ _ _ demo_one_process) as Hm.
  revert Hr Hu Hs Hm. generalize demo_process demo_dir demo_frame. intros s dir f Hr Hu Hs Hm.
  pose proof (release_exact s ∅ ∅ dir Hr) as H. cbv zeta in H. rewrite bool_decide_true in H by done.
  destruct H as (_ & H & _). intros [_ Hno]%H. apply Hno. right. right. exists 2048, true. split; [lia|exact Hm].
Defined.

(** ** Mapping, unmapping and creating *)



(** C11: unmapping a page of a process takes exactly that page out of its map and gives the
    frame back to the page allocator; no other translation of any directory changes.  A
    page that is not mapped is reported with [ERR_NOT_FOUND] and nothing changes. *)
Theorem unmap_page_exact s mem_live others dir n s' st :
  reach s mem_live others → dir ∈ live (user_directories s) → 2048 ≤ n < 4096 →
  paging_unmap_user_page_in_directory s dir (n * PAGE_SIZE) = (s', st) →
  match translate s dir n with
  | None => st = ERR_NOT_FOUND ∧ s' = s
  | Some m =>
      st = OK ∧ page_owned (pg_memory s) (mp_frame m) = true ∧ page_owned (pg_memory s') (mp_frame m) = false ∧
      (∀ p, p ∈ others → page_owned (pg_memory s') p = true) ∧
      (∀ c k, c ∈ live (paging_directories s) → 0 ≤ k < 2 ^ 20 →
         translate s' c k = if (c =? dir) && (k =? n) then None else translate s c k)
  end.
Proof.
  intros [roles Sy]%reach_system Hdir Hn E. pose proof (sy_space _ _ _ _ Sy) as S. pose proof (sy_run _ _ _ _ Sy) as R.
  destruct (user_page _ _ _ _ dir Sy Hdir) as (d & -> & Ed & Hd). unfold translate. rewrite Ed.
  destruct (unmap_user s mem_live roles R S d n Hd Hn s' st E) as [Hm|f rw s' roles' Hm _ _ Hsub _ _ Hac K _ Hw].
  - unfold user_mapped in Hm. pose proof (page_parts n ltac:(lia)) as [Hi Hj].
    destruct (walk (words s) d n) as [m|] eqn:Ew; [|done].
    assert (walk (words s) (kernel_page s) n = None) as Hk.
    { apply walk_absent, (lk_window _ _ _ (sp_linked _ _ S)). divlia. }
    destruct (lk_uentry _ _ _ (sp_linked _ _ S) d _ Hd Hi) as [E0|(_ & _ & t & Hl & Ht)].
    { unfold walk in Ew, Hk. rewrite E0 in Ew. congruence. }
    rewrite (walk_via _ _ _ t true) in Ew by done. cbn zeta in Ew. destruct (lk_utable _ _ _ (sp_linked _ _ S) t d _ Ht) as (_ & _ & _ & _ & HT).
    destruct (HT _ Hj) as [Hp|[Hus _]]; [by rewrite Hp in Ew|]. destruct (entry_present _); [|done]. rewrite Hus in Ew.
    injection Ew as <-. done.
  - rewrite Hm. cbn [mp_frame]. pose proof (walk_user _ _ _ (sp_linked _ _ S) d n _ (or_intror Hd) ltac:(lia) Hm eq_refl) as Hf. cbn [mp_frame] in Hf.
    assert (roles' !! f = None) as Hf'.
    { destruct (roles' !! f) eqn:Ef; [|done]. apply (lookup_weaken _ _ _ _ Ef) in Hsub. by rewrite lookup_delete_eq in Hsub. }
    split; [done|]. split; [by apply (sp_owned _ _ S f _ Hf)|]. split; [|split].
    + rewrite (Hac f Hf' : page_owned _ f = _). by rewrite bool_decide_true by (by eexists).
    + intros p Hp. apply K; [by eapply other_owned|]. pose proof (sy_others _ _ _ _ Sy p Hp). split; [intros r Hr; congruence|congruence].
    + intros c k Hc Hk. destruct (directory_page _ _ _ _ c Sy Hc) as (c' & -> & -> & Hc'). rewrite Hw by done.
      by replace (c' * PAGE_SIZE =? d * PAGE_SIZE) with (c' =? d) by (unfold PAGE_SIZE; lia).
Qed.

Lemma unmap_page_exact_witness : (paging_unmap_user_page_in_directory demo_process demo_dir (2048 * PAGE_SIZE)).2 = OK.
Proof.
  pose proof (op_process _ _ _ _ _ demo_one_process) as Hr. pose proof (op_user _ _ _ _ _ demo_one_process) as Hu.
  pose proof (op_mapped _ _ _ _ _ demo_one_process) as Hm. revert Hr Hu Hm.
  generalize demo_process demo_dir demo_frame. intros s dir f Hr Hu Hm.
  destruct (paging_unmap_user_page_in_directory s dir (2048 * PAGE_SIZE)) as [s' st] eqn:E.
  pose proof (unmap_page_exact s ∅ ∅ dir 2048 s' st Hr Hu ltac:(lia) E) as H.
  rewrite (Hm : translate s dir 2048 = _) in H. exact (proj1 H).
Defined.

(** Creating a directory for a process fails only when no page is free or 64 processes
    have one, and then changes no translation and no owner.  Otherwise the new directory
    is a page nobody owned, it maps exactly what the kernel's directory maps and no page
    of its own, and the translations of all others are the same. *)
Theorem create_directory_exact s mem_live others s' dir :
  reach s mem_live others → paging_create_user_directory s = (s', dir) →
  (∀ c k, c ∈ live (paging_directories s) → 0 ≤ k < 2 ^ 20 → translate s' c k = translate s c k) ∧
  (if dir =? 0 then
     (mi_free_pages (mem_info (pg_memory s)) = 0 ∨ length (live (user_directories s)) = 64%nat) ∧
     user_directories s' = user_directories s ∧ ∀ p, page_owned (pg_memory s') p = page_owned (pg_memory s) p
   else
     page_owned (pg_memory s) (dir / PAGE_SIZE) = false ∧ live (user_directories s') ≡ₚ dir :: live (user_directories s) ∧
     (∀ p, page_owned (pg_memory s') p = (p =? dir / PAGE_SIZE) || page_owned (pg_memory s) p) ∧
     (∀ k, 0 ≤ k < 2 ^ 20 → translate s' dir k = translate s (kernel_directory s) k)).
Proof.
  intros [roles Sy]%reach_system E. pose proof (sy_space _ _ _ _ Sy) as S. pose proof (sy_run _ _ _ _ Sy) as R.
  assert (∀ c, c ∈ live (paging_directories s) → ∃ c', c = c' * PAGE_SIZE ∧ c / PAGE_SIZE = c' ∧ is_dir roles c') as HC
    by (intros c Hc; by eapply directory_page). unfold translate.
  destruct (create_user s mem_live roles R S s' dir E) as [s' _ _ O _ SR Hw Hwhy|s' p Hp Hf _ S' O _ _ _ HU Hw Hwp _].
  - split; [intros c k Hc Hk; destruct (HC c Hc) as (c' & -> & -> & Hc'); by apply Hw|]. cbn [Z.eqb]. split; [done|]. split; [apply SR|exact O].
  - split; [intros c k Hc Hk; destruct (HC c Hc) as (c' & -> & -> & Hc'); by apply Hw|]. rewrite page_of_address.
    destruct (Z.eqb_spec (p * PAGE_SIZE) 0) as [E0|_].
    { pose proof (Permutation_in _ (symmetry HU) (or_introl eq_refl)) as Hin. apply list_elem_of_In, elem_of_live in Hin as [? _]. done. }
    split; [done|]. split; [done|]. split; [exact O|exact Hwp].
Qed.

Lemma create_directory_exact_witness :
  ∃ s' dir, paging_create_user_directory demo_paging = (s', dir) ∧ translate s' (kernel_directory demo_paging) 256 = translate demo_paging (kernel_directory demo_paging) 256.
Proof.
  pose proof demo_reach as Hr. revert Hr. generalize demo_paging. intros s Hr.
  destruct (paging_create_user_directory s) as [s' dir] eqn:E. exists s', dir. split; [reflexivity|].
  destruct (reach_system _ _ _ Hr) as [roles Sy].
  apply (proj1 (create_directory_exact s ∅ ∅ s' dir Hr E)); [|lia]. rewrite (sp_all _ _ (sy_space _ _ _ _ Sy)). by left.
Defined.

(** ** Initialisation *)

(** C13: [paging_init] on initialised memory has two outcomes.  Either paging is on, the
    kernel's directory maps exactly the ranges the kernel asks for, and the framebuffer
    when that succeeded, to themselves and for the kernel only, and what other clients
    own is untouched.  Or it reports [ERR_MEM], memory has at most 1025 free pages, and
    every page it took is given back. *)
Theorem paging_init_exact m mem_live mode start_ticks end_ticks s framebuffer st :
  run m mem_live → (∀ v, mode = Some v → mode_typed v) →
  paging_init (paging_boot m) mode start_ticks end_ticks = (s, framebuffer, st) →
  (∀ p j, page_owned m p = true → 0 ≤ j < 1024 → page_owned (pg_memory s) p = true ∧ word (pg_memory s) p j = word m p j) ∧
  ((st = OK ∧ paging_is_ready s = true ∧ current_directory s = kernel_directory s ∧
   ∃ M : Z → bool, (∀ n, 0 ≤ n < 2 ^ 20 → translate s (kernel_directory s) n = if M n then Some (Mapping n true false) else None) ∧
     (∀ n, 0 ≤ n → in_ranges (kernel_ranges (memory_get_total m)) n = true → M n = true) ∧
     (∀ n, 0 ≤ n → M n = true → in_ranges (kernel_ranges (memory_get_total m)) n = true ∨ framebuffer_page mode n = true) ∧
     (framebuffer = None ∨ framebuffer = Some OK → ∀ n, 0 ≤ n → framebuffer_page mode n = true → M n = true))
   ∨ st = ERR_MEM ∧ paging_is_ready s = false ∧ mi_free_pages (mem_info m) ≤ 1025 ∧
     ∀ p, page_owned (pg_memory s) p = page_owned m p).
Proof.
  intros R Hm E. destruct (init_spec mem_live (paging_boot m) R mode start_ticks end_ticks s framebuffer st) as [[-> B]|(-> & U & Hf)];
    [by repeat split|done|done|..].
  - destruct B as [Hk R' (tables & S & HO & HN) HK Hc Hfree Hu (M & HM & G)]. split.
    { intros p j Hp Hj. split; [|by apply HK]. change (owned s p = true). rewrite HO. change (owned (paging_boot m) p) with (page_owned m p).
      rewrite Hp. apply orb_true_r. }
    left. split; [done|]. split; [unfold paging_is_ready; rewrite (sp_ready _ _ S), Hc; by apply Z.eqb_neq in Hk as ->|]. split; [done|].
    exists M. split; [exact HM|]. change (memory_get_total m) with (mi_total_memory (mem_info m)). split; [|split].
    + intros n Hn. by apply (G n).
    + intros n Hn HMn. apply or_comm, orb_true_iff. by apply (G n).
    + intros Hfb n Hn Hp. destruct (G n Hn) as (_ & _ & G3). rewrite G3 by (by apply bool_decide_true). by rewrite Hp.
  - destruct U as [_ O K _ _ Hr]. split; [|right; by repeat split].
    intros p j Hp Hj. split; [|by apply K]. change (owned s p = true). by rewrite O.
Qed.

Lemma paging_init_exact_witness : paging_is_ready demo_paging = true.
Proof.
  destruct (paging_init_exact booted ∅ None 0 0 demo_paging demo_init.1.2 OK booted_run ltac:(done) demo_init_ok) as (_ & [(_ & H & _)|(H & _)]);
    [exact H|discriminate H].
Defined.

(** C15: the loop of [paging_map_identity_range_fast] ends for every range of whole pages,
    whatever is in memory: the model's result is the result of the loop run without a
    bound on its rounds. *)
Theorem identity_map_terminates s a b :
  0 ≤ a < b → b < 2 ^ 20 → identity_loop s (a * PAGE_SIZE) (b * PAGE_SIZE) (paging_map_identity_range_fast s (a * PAGE_SIZE) (b * PAGE_SIZE)).
Proof. intros H1 H2. rewrite map_fast_code by lia. apply identity_tables_loop; [lia|done|apply fuel_enough; lia]. Qed.

Lemma identity_map_terminates_witness :
  identity_loop (paging_boot (memory_boot ∅)) 0x1000 0x3000 (paging_map_identity_range_fast (paging_boot (memory_boot ∅)) 0x1000 0x3000).
Proof. exact (identity_map_terminates (paging_boot (memory_boot ∅)) 1 3 ltac:(lia) ltac:(lia)). Defined.
