(* ===== verification/Compress.v ===== *)
(** * The LZSS codec of src/memory/compress.c

    The input of each function is a list of bytes, its output a buffer (a
    byte memory indexed from 0) of a given capacity.  The encoder is proved
    to produce a token stream that expands to its input, and the decoder to
    expand such a stream: decompressing a compressed block gives it back.
    The source and destination buffers are distinct and not null. *)

From S2P Require Import Prelude.

(** ** The code *)

Definition COMPRESS_LZSS_N : Z := 4096.
Definition COMPRESS_LZSS_F : Z := 18.
Definition COMPRESS_LZSS_THRESHOLD : Z := 2.
Definition COMPRESS_UINT32_MAX : Z := 0xFFFFFFFF.

Record compress_stats_t := CompressStats {
  cst_original_size : Z; cst_compressed_size : Z; cst_enabled : Z;
  cst_total_compressed : Z; cst_total_saved : Z; cst_compression_count : Z
}.

(** The static variables. *)
Record compress_t := Compress {
  cp_stats : compress_stats_t; cp_enabled : Z;
  cp_compress_ring : mem; cp_decompress_ring : mem
}.
#[export] Instance compress_stats_eta : Eta compress_stats_t := λ r,
  CompressStats (cst_original_size r) (cst_compressed_size r) (cst_enabled r)
    (cst_total_compressed r) (cst_total_saved r) (cst_compression_count r).
#[export] Instance compress_eta : Eta compress_t := λ r,
  Compress (cp_stats r) (cp_enabled r) (cp_compress_ring r) (cp_decompress_ring r).

Definition compress_init (s : compress_t) : compress_t :=
  let s := s <| cp_stats := CompressStats 0 0 0 0 0 0 |> in
  let s := s <| cp_enabled := 0 |> in
  s <| cp_stats ::= set cst_enabled (λ _, 0) |>.
Definition compress_enable (s : compress_t) : compress_t :=
  s <| cp_enabled := 1 |> <| cp_stats ::= set cst_enabled (λ _, 1) |>.
Definition compress_disable (s : compress_t) : compress_t :=
  s <| cp_enabled := 0 |> <| cp_stats ::= set cst_enabled (λ _, 0) |>.
Definition compress_is_enabled (s : compress_t) : Z := cp_enabled s.
Definition compress_get_stats (s : compress_t) : compress_stats_t := cp_stats s.

Definition compress_get_max_size (original_size : Z) : Z :=
  let overhead := original_size / 8 +w 64 in
  if original_size >? COMPRESS_UINT32_MAX -w overhead then COMPRESS_UINT32_MAX
  else original_size +w overhead.

(** The loop that measures a match; at most [COMPRESS_LZSS_F - 1] rounds. *)
Fixpoint match_loop (n : nat) (src : list Z) (candidate si length : Z) : Z :=
  match n with
  | O => length
  | S n =>
      if (length <? COMPRESS_LZSS_F - 1) && (candidate +w length <? si)
         && (si +w length <? len src)
         && (at_ src (candidate +w length) =? at_ src (si +w length))
      then match_loop n src candidate si (length +w 1) else length
  end.

(** The search over the candidates, nearest first. *)
Fixpoint search_loop (candidates : list Z) (src : list Z) (si best_len best_pos : Z) : Z * Z :=
  match candidates with
  | [] => (best_len, best_pos)
  | candidate :: candidates =>
      let length := match_loop (Z.to_nat (COMPRESS_LZSS_F - 1)) src candidate si 0 in
      if (length >? best_len) && (length >=? COMPRESS_LZSS_THRESHOLD) then
        if length =? COMPRESS_LZSS_F - 1 then (length, candidate)
        else search_loop candidates src si length candidate
      else search_loop candidates src si best_len best_pos
  end.

Definition find_match (src : list Z) (si : Z) : Z * Z :=
  if si >=? COMPRESS_LZSS_THRESHOLD then
    let search_start := if si >=? COMPRESS_LZSS_N then si -w COMPRESS_LZSS_N else 0 in
    search_loop (reverse (range search_start si)) src si 0 0
  else (0, 0).

(** The local variables of [compress_data]. *)
Record encoder := Encoder {
  e_si : Z; e_di : Z; e_flags : Z; e_flag_pos : Z; e_flag_offset : Z;
  e_r : Z; e_ring : mem; e_dst : mem
}.
#[export] Instance encoder_eta : Eta encoder := λ r,
  Encoder (e_si r) (e_di r) (e_flags r) (e_flag_pos r) (e_flag_offset r)
    (e_r r) (e_ring r) (e_dst r).

Definition put (e : encoder) (v : Z) : encoder :=
  e <| e_dst ::= λ m, store8 m (e_di e) v |> <| e_di ::= λ n, n +w 1 |>.

(** [compress_ring[r] = src[si]; r = (r + 1) & (N - 1); si++;] *)
Definition consume (src : list Z) (e : encoder) : encoder :=
  e <| e_ring ::= λ m, store8 m (e_r e) (at_ src (e_si e)) |>
    <| e_r ::= λ r, (r +w 1) &w (COMPRESS_LZSS_N - 1) |>
    <| e_si ::= λ n, n +w 1 |>.

(** One round of the main loop; [inl] is the return of [ERR_OVERFLOW], with
    the buffers as they are at that point. *)
Definition encode_token (src : list Z) (dst_capacity : Z) (e : encoder) : encoder + encoder :=
  let '(best_len, best_pos) := find_match src (e_si e) in
  if best_len >=? COMPRESS_LZSS_THRESHOLD then
    if e_di e +w 2 >? dst_capacity then inl e else
    let pos := u16 ((COMPRESS_LZSS_N - COMPRESS_LZSS_F +w best_pos) &w (COMPRESS_LZSS_N - 1)) in
    let e := put e (u8 (pos &w 0xFF)) in
    let e := put e (u8 (((pos >>w 8) &w 0x0F)
                        |w ((best_len -w COMPRESS_LZSS_THRESHOLD) <<w 4))) in
    let e := e <| e_flags ::= λ f, u8 (f |w Z.shiftl 1 (e_flag_pos e)) |> in
    inr (Nat.iter (Z.to_nat best_len) (consume src) e)
  else
    if e_di e +w 1 >? dst_capacity then inl e else
    inr (consume src (put e (at_ src (e_si e)))).

Definition close_token (src : list Z) (dst_capacity : Z) (e : encoder) : encoder + encoder :=
  let e := e <| e_flag_pos ::= λ n, n +w 1 |> in
  if e_flag_pos e =? 8 then
    let e := e <| e_dst ::= λ m, store8 m (e_flag_offset e) (e_flags e) |> in
    let e := e <| e_flags := 0 |> <| e_flag_pos := 0 |> in
    if e_si e <? len src then
      if e_di e >=? dst_capacity then inl e
      else inr (e <| e_flag_offset := e_di e |> <| e_di ::= λ n, n +w 1 |>)
    else inr e
  else inr e.

(** The main loop; every round consumes at least one byte, so [length src]
    rounds are enough. *)
Fixpoint encode_loop (fuel : nat) (src : list Z) (dst_capacity : Z) (e : encoder)
    : encoder + encoder :=
  if e_si e <? len src then
    match fuel with
    | O => inl e
    | S fuel =>
        match encode_token src dst_capacity e with
        | inl e => inl e
        | inr e =>
            match close_token src dst_capacity e with
            | inl e => inl e
            | inr e => encode_loop fuel src dst_capacity e
            end
        end
    end
  else inr e.

(** The result of both functions: the static state, the destination buffer,
    the value of [*dst_size] and the return code. *)
Record codec_result := CodecResult {
  cr_state : compress_t; cr_dst : mem; cr_size : Z; cr_status : status
}.

Definition compress_data (s : compress_t) (src : list Z) (dst : mem) (dst_capacity : Z)
    : codec_result :=
  if dst_capacity =? 0 then CodecResult s dst 0 ERR_OVERFLOW else
  let ring := kmemset (cp_compress_ring s) 0 0x20 COMPRESS_LZSS_N in
  let e := Encoder 0 1 0 0 0 (COMPRESS_LZSS_N - COMPRESS_LZSS_F) ring dst in
  match encode_loop (length src) src dst_capacity e with
  | inl e => CodecResult (s <| cp_compress_ring := e_ring e |>) (e_dst e) 0 ERR_OVERFLOW
  | inr e =>
      let e := if e_flag_pos e >? 0
               then e <| e_dst ::= λ m, store8 m (e_flag_offset e) (e_flags e) |> else e in
      let s := s <| cp_compress_ring := e_ring e |>
                 <| cp_stats ::= λ st,
                      st <| cst_original_size := len src |>
                         <| cst_compressed_size := e_di e |>
                         <| cst_total_compressed ::= λ n, n +w e_di e |>
                         <| cst_total_saved ::= λ n,
                              n +w (if len src >? e_di e then len src -w e_di e else 0) |>
                         <| cst_compression_count ::= λ n, n +w 1 |> |> in
      CodecResult s (e_dst e) (e_di e) OK
  end.

(** The local variables of [decompress_data]. *)
Record decoder := Decoder { d_si : Z; d_di : Z; d_r : Z; d_ring : mem; d_dst : mem }.
#[export] Instance decoder_eta : Eta decoder := λ r,
  Decoder (d_si r) (d_di r) (d_r r) (d_ring r) (d_dst r).

(** [dst[di++] = c; decompress_ring[r] = c; r = (r + 1) & (N - 1);] *)
Definition produce (c : Z) (d : decoder) : decoder :=
  d <| d_dst ::= λ m, store8 m (d_di d) c |> <| d_di ::= λ n, n +w 1 |>
    <| d_ring ::= λ m, store8 m (d_r d) c |>
    <| d_r ::= λ r, (r +w 1) &w (COMPRESS_LZSS_N - 1) |>.

(** The copy loop of a reference, [n] rounds left at offset [k]. *)
Fixpoint copy_loop (n : nat) (pos k dst_capacity : Z) (d : decoder) : (decoder * status) + decoder :=
  match n with
  | O => inr d
  | S n =>
      if d_di d >=? dst_capacity then inl (d, ERR_OVERFLOW) else
      let c := load8 (d_ring d) ((pos +w k) &w (COMPRESS_LZSS_N - 1)) in
      copy_loop n pos (k +w 1) dst_capacity (produce c d)
  end.

(** The body of the loop over the bits of a flag byte. *)
Definition decode_token (src : list Z) (flags bit dst_capacity : Z) (d : decoder)
    : (decoder * status) + decoder :=
  if negb (flags &w Z.shiftl 1 bit =? 0) then
    if d_si d +w 1 >=? len src then inl (d, ERR_INVALID) else
    let b1 := at_ src (d_si d) in
    let d := d <| d_si ::= λ n, n +w 1 |> in
    let b2 := at_ src (d_si d) in
    let d := d <| d_si ::= λ n, n +w 1 |> in
    let pos := u16 (b1 |w Z.shiftl (b2 &w 0x0F) 8) in
    let length := ((b2 >>w 4) &w 0x0F) +w COMPRESS_LZSS_THRESHOLD in
    copy_loop (Z.to_nat length) pos 0 dst_capacity d
  else
    if d_si d >=? len src then inl (d, ERR_INVALID) else
    let c := at_ src (d_si d) in
    let d := d <| d_si ::= λ n, n +w 1 |> in
    if d_di d >=? dst_capacity then inl (d, ERR_OVERFLOW) else inr (produce c d).

(** [for (bit = 0; bit < 8 && si < src_size; bit++)], [n] bits left. *)
Fixpoint bit_loop (n : nat) (src : list Z) (flags dst_capacity : Z) (d : decoder)
    : (decoder * status) + decoder :=
  match n with
  | O => inr d
  | S n' =>
      if d_si d <? len src then
        match decode_token src flags (8 - Z.of_nat n) dst_capacity d with
        | inl r => inl r
        | inr d => bit_loop n' src flags dst_capacity d
        end
      else inr d
  end.

(** The outer loop; every round consumes a flag byte. *)
Fixpoint decode_loop (fuel : nat) (src : list Z) (dst_capacity : Z) (d : decoder)
    : (decoder * status) + decoder :=
  if d_si d <? len src then
    match fuel with
    | O => inl (d, ERR_STATE)
    | S fuel =>
        let flags := at_ src (d_si d) in
        let d := d <| d_si ::= λ n, n +w 1 |> in
        if d_si d =? len src then
          if (len src =? 1) && (d_di d =? 0) && (flags =? 0) then inr d
          else inl (d, ERR_INVALID)
        else
          match bit_loop 8 src flags dst_capacity d with
          | inl r => inl r
          | inr d => decode_loop fuel src dst_capacity d
          end
    end
  else inr d.

Definition decompress_data (s : compress_t) (src : list Z) (dst : mem) (dst_capacity : Z)
    : codec_result :=
  let ring := kmemset (cp_decompress_ring s) 0 0x20 COMPRESS_LZSS_N in
  let d := Decoder 0 0 (COMPRESS_LZSS_N - COMPRESS_LZSS_F) ring dst in
  match decode_loop (length src) src dst_capacity d with
  | inl (d, err) => CodecResult (s <| cp_decompress_ring := d_ring d |>) (d_dst d) 0 err
  | inr d => CodecResult (s <| cp_decompress_ring := d_ring d |>) (d_dst d) (d_di d) OK
  end.

(** ** Tokens *)

(** A literal byte, or a reference to [length] bytes from index [b]. *)
Inductive token := Lit (c : Z) | Ref (b length : Z).

Definition tok_len (t : token) : Z := match t with Lit _ => 1 | Ref _ l => l end.
Definition tok_bit (t : token) : bool := match t with Lit _ => false | Ref _ _ => true end.

(** The ring position of the byte with index [b]. *)
Definition ring_pos (b : Z) : Z := (COMPRESS_LZSS_N - COMPRESS_LZSS_F + b) mod COMPRESS_LZSS_N.

Definition tok_bytes (t : token) : list Z :=
  match t with
  | Lit c => [c]
  | Ref b l => [ring_pos b mod 256; ring_pos b / 256 + (l - 2) * 16]
  end.

Fixpoint flags_of (ts : list token) : Z :=
  match ts with
  | [] => 0
  | t :: ts => Z.b2z (tok_bit t) + 2 * flags_of ts
  end.

Definition group_bytes (g : list token) : list Z := flags_of g :: mjoin (map tok_bytes g).
Definition stream (gs : list (list token)) : list Z := mjoin (map group_bytes gs).

(** [b], [l] name a match for the text at [t]: inside the window, behind [t],
    and equal to what follows. *)
Definition good_match (src : list Z) (t b l : Z) : Prop :=
  2 ≤ l ≤ 17 ∧ 0 ≤ b ∧ t - COMPRESS_LZSS_N ≤ b ∧ b + l ≤ t ∧ t + l ≤ len src ∧
  ∀ k, 0 ≤ k < l → at_ src (b + k) = at_ src (t + k).

Definition good_token (src : list Z) (t : Z) (tok : token) : Prop :=
  match tok with
  | Lit c => t < len src ∧ c = at_ src t
  | Ref b l => good_match src t b l
  end.

(** The tokens spell the bytes of [src] from index [t] to [t']. *)
Fixpoint spells (src : list Z) (t : Z) (ts : list token) (t' : Z) : Prop :=
  match ts with
  | [] => t = t'
  | tok :: ts => good_token src t tok ∧ spells src (t + tok_len tok) ts t'
  end.

Lemma spells_app src t ts us t' :
  spells src t (ts ++ us) t' ↔ ∃ m, spells src t ts m ∧ spells src m us t'.
Proof.
  revert t. induction ts as [|x ts IH]; intros t; simpl.
  - split; [eauto|]. by intros (m & -> & ?).
  - rewrite IH. split; [intros (? & m & ? & ?)|intros (m & (? & ?) & ?)]; eauto 10.
Qed.

Lemma tok_len_pos src t tok : good_token src t tok → 1 ≤ tok_len tok ∧ t + tok_len tok ≤ len src.
Proof. destruct tok; simpl; [lia|]. intros (? & ? & ? & ? & ? & ?). lia. Qed.

Lemma spells_bounds src t ts t' :
  spells src t ts t' → t + Z.of_nat (length ts) ≤ t' ∧ (t ≤ len src → t' ≤ len src).
Proof.
  revert t. induction ts as [|x ts IH]; intros t; simpl; [intros ->; lia|].
  intros [Hx Hs]. apply IH in Hs as [H1 H2]. apply tok_len_pos in Hx. lia.
Qed.

Lemma flags_of_range ts : 0 ≤ flags_of ts < 2 ^ Z.of_nat (length ts).
Proof.
  induction ts as [|t ts IH]; simpl; [lia|].
  replace (Z.of_nat (S (length ts))) with (Z.succ (Z.of_nat (length ts))) by lia.
  rewrite Z.pow_succ_r by lia. destruct (tok_bit t); simpl; lia.
Qed.

Lemma flags_of_byte ts : (length ts ≤ 8)%nat → 0 ≤ flags_of ts < 256.
Proof.
  intros H. pose proof (flags_of_range ts). change 256 with (2 ^ 8).
  assert (2 ^ Z.of_nat (length ts) ≤ 2 ^ 8) by (apply Z.pow_le_mono_r; lia). lia.
Qed.

Lemma flags_of_testbit ts i t :
  ts !! i = Some t → Z.testbit (flags_of ts) (Z.of_nat i) = tok_bit t.
Proof.
  revert i. induction ts as [|u ts IH]; intros i; [done|]. cbn [flags_of].
  rewrite (Z.add_comm (Z.b2z _)). destruct i as [|i].
  - intros [= ->]. change (Z.of_nat 0) with 0. by rewrite Z.testbit_0_r.
  - intros Hi. replace (Z.of_nat (S i)) with (Z.succ (Z.of_nat i)) by lia.
    rewrite Z.testbit_succ_r by lia. by apply IH.
Qed.

(** Appending a token sets its bit. *)
Lemma flags_of_snoc ts t :
  flags_of (ts ++ [t]) = flags_of ts |w (Z.b2z (tok_bit t) * 2 ^ Z.of_nat (length ts)).
Proof.
  apply Z.bits_inj_iff'. intros i Hi. rewrite Z.lor_spec, <-Z.shiftl_mul_pow2 by lia.
  rewrite Z.shiftl_spec by done. destruct (decide (i < Z.of_nat (length ts))).
  - rewrite (Z.testbit_neg_r (Z.b2z _)) by lia. rewrite orb_false_r.
    destruct (ts !! Z.to_nat i) as [u|] eqn:Hu.
    + rewrite <-(Z2Nat.id i) by lia. rewrite (flags_of_testbit _ _ u Hu).
      apply flags_of_testbit. by apply lookup_app_l_Some.
    + apply lookup_ge_None in Hu. lia.
  - rewrite (testbit_high (Z.of_nat (length ts)) (flags_of ts)) by (apply flags_of_range || lia).
    simpl. destruct (decide (i = Z.of_nat (length ts))) as [->|].
    + rewrite (flags_of_testbit _ _ t) by (by rewrite lookup_app_r, Nat.sub_diag by lia).
      rewrite Z.sub_diag. by destruct (tok_bit t).
    + rewrite (testbit_high (Z.of_nat (length (ts ++ [t]))));
        [|apply flags_of_range|rewrite length_app; simpl; lia].
      symmetry. apply (testbit_high 1); [|lia]. by destruct (tok_bit t).
Qed.

(** ** The search finds only matches *)

Section search.
Context (src : list Z) (si : Z).
Hypothesis Hsi : 0 ≤ si ≤ len src.
Hypothesis Hsize : len src < 2 ^ 31.

Lemma match_loop_spec n candidate length :
  0 ≤ candidate ≤ si → 0 ≤ length ≤ 17 → candidate + length ≤ si → si + length ≤ len src →
  (∀ k, 0 ≤ k < length → at_ src (candidate + k) = at_ src (si + k)) →
  let l := match_loop n src candidate si length in
  0 ≤ l ≤ 17 ∧ candidate + l ≤ si ∧ si + l ≤ len src ∧
  ∀ k, 0 ≤ k < l → at_ src (candidate + k) = at_ src (si + k).
Proof.
  revert length. induction n as [|n IH]; intros length Hc Hl H1 H2 Heq; simpl; [done|].
  unfold COMPRESS_LZSS_F. rewrite !(u32_small (_ + length)) by lia.
  destruct (_ && _) eqn:E; [|done]. apply andb_true_iff in E as [E1 E2%Z.eqb_eq].
  rewrite u32_small by lia. apply IH; [lia..|]. intros k Hk.
  destruct (decide (k = length)) as [->|]; [done|]. apply Heq. lia.
Qed.

Lemma search_loop_spec candidates best_len best_pos :
  (∀ c, c ∈ candidates → 0 ≤ c < si ∧ si - COMPRESS_LZSS_N ≤ c) →
  best_len = 0 ∨ good_match src si best_pos best_len →
  let '(l, b) := search_loop candidates src si best_len best_pos in
  l = 0 ∨ good_match src si b l.
Proof.
  revert best_len best_pos. induction candidates as [|c cs IH]; intros bl bp Hc Hb; [done|].
  cbn [search_loop]. destruct (Hc c) as [Hc1 Hc2]; [in_list|].
  pose proof (match_loop_spec (Z.to_nat (COMPRESS_LZSS_F - 1)) c 0) as Hm.
  set (l := match_loop _ src c si 0) in *. clearbody l.
  destruct Hm as (Hl & H1 & H2 & Heq); [lia..|].
  unfold COMPRESS_LZSS_THRESHOLD.
  destruct ((l >? bl) && (l >=? 2)) eqn:E.
  - assert (Hg : good_match src si c l) by (unfold good_match; repeat (split; [lia|]); done).
    destruct (l =? COMPRESS_LZSS_F - 1); [by right|]. apply IH; [|by right].
    intros d Hd. apply Hc. in_list.
  - apply IH; [|done]. intros d Hd. apply Hc. in_list.
Qed.

Lemma find_match_spec :
  let '(l, b) := find_match src si in l = 0 ∨ good_match src si b l.
Proof.
  unfold find_match. destruct (si >=? COMPRESS_LZSS_THRESHOLD); [|by left].
  apply search_loop_spec; [|by left]. intros c Hc.
  rewrite elem_of_reverse, elem_of_range in Hc. unfold COMPRESS_LZSS_N in *.
  destruct (Z.geb_spec si 4096); [rewrite u32_small in Hc|]; lia.
Qed.
End search.

(** ** The encoder *)

Lemma land_window v : 0 ≤ v → v &w (COMPRESS_LZSS_N - 1) = v mod COMPRESS_LZSS_N.
Proof. intros. change (COMPRESS_LZSS_N - 1) with (Z.ones 12). by rewrite Z.land_ones by lia. Qed.

Lemma iter_consume src n e :
  let e' := Nat.iter n (consume src) e in
  0 ≤ e_si e → e_si e + Z.of_nat n < 2 ^ 32 →
  e_si e' = e_si e + Z.of_nat n ∧ e_di e' = e_di e ∧ e_flags e' = e_flags e ∧
  e_flag_pos e' = e_flag_pos e ∧ e_flag_offset e' = e_flag_offset e ∧ e_dst e' = e_dst e.
Proof.
  induction n as [|n IH]; intros e' H1 H2; [subst e'; simpl; repeat split; lia|].
  destruct IH as (I1 & I2 & I3 & I4 & I5 & I6); [lia|lia|].
  subst e'. change (Nat.iter (S n) (consume src) e) with (consume src (Nat.iter n (consume src) e)).
  set (e' := Nat.iter n (consume src) e) in *. clearbody e'.
  unfold consume, set; simpl. rewrite I1, u32_small by lia. repeat split; try done; lia.
Qed.

(** The two bytes of a reference, as [compress_data] computes them. *)
Lemma ref_bytes b l :
  0 ≤ b < 2 ^ 31 → 2 ≤ l ≤ 17 →
  let pos := u16 ((COMPRESS_LZSS_N - COMPRESS_LZSS_F +w b) &w (COMPRESS_LZSS_N - 1)) in
  u8 (pos &w 0xFF) = ring_pos b mod 256 ∧
  u8 (((pos >>w 8) &w 0x0F) |w ((l -w COMPRESS_LZSS_THRESHOLD) <<w 4))
  = ring_pos b / 256 + (l - 2) * 16.
Proof.
  intros Hb Hl. cbv zeta. rewrite land_window by apply u32_range.
  rewrite (u32_small (_ - _ + b)) by (unfold COMPRESS_LZSS_N, COMPRESS_LZSS_F; lia).
  fold (ring_pos b). assert (Hp : 0 ≤ ring_pos b < 4096) by (apply Z.mod_pos_bound; done).
  rewrite (u16_small (ring_pos b)) by lia. unfold COMPRESS_LZSS_THRESHOLD.
  rewrite (u32_small (l - 2)) by lia.
  change 0xFF with (Z.ones 8). change 0x0F with (Z.ones 4). rewrite !Z.land_ones by lia.
  rewrite Z.shiftr_div_pow2 by lia. change (2 ^ 8) with 256. change (2 ^ 4) with 16.
  assert (Hd : 0 ≤ ring_pos b / 256 < 16) by divlia.
  rewrite (Z.mod_small (ring_pos b / 256)) by lia.
  rewrite Z.shiftl_mul_pow2, (u32_small (_ * _)) by lia. change (2 ^ 4) with 16.
  split; [apply u8_small; divlia|].
  change 16 with (2 ^ 4). rewrite lor_low_high by lia. apply u8_small. lia.
Qed.

Definition body (ts : list token) : list Z := mjoin (map tok_bytes ts).

Lemma body_app ts us : body (ts ++ us) = body ts ++ body us.
Proof. unfold body. by rewrite map_app, join_app. Qed.
Lemma stream_app gs hs : stream (gs ++ hs) = stream gs ++ stream hs.
Proof. unfold stream. by rewrite map_app, join_app. Qed.
Lemma stream_one g : stream [g] = flags_of g :: body g.
Proof. unfold stream. simpl. by rewrite app_nil_r. Qed.
Lemma body_one t : body [t] = tok_bytes t.
Proof. unfold body. simpl. by rewrite app_nil_r. Qed.

(** A token never takes more bytes than the text it stands for. *)
Lemma body_len src t ts t' : spells src t ts t' → len (body ts) ≤ t' - t.
Proof.
  revert t. induction ts as [|x ts IH]; intros t; simpl; [intros ->; unfold body, len; simpl; lia|].
  intros [Hx Hs%IH]. change (x :: ts) with ([x] ++ ts). rewrite body_app, body_one, len_app.
  destruct x as [c|b l]; unfold len at 1; simpl in *; [lia|]. destruct Hx as [? _]. lia.
Qed.

Lemma stream_len gs :
  Forall (λ g, length g = 8%nat) gs →
  len (stream gs) = Z.of_nat (length gs) + len (body (mjoin gs)) ∧
  length (mjoin gs) = (8 * length gs)%nat.
Proof.
  induction 1 as [|g gs Hg _ [IH1 IH2]]; [done|].
  change (g :: gs) with ([g] ++ gs). rewrite stream_app, stream_one, len_app, len_cons, IH1.
  rewrite join_app, body_app, len_app, !length_app, IH2. simpl. rewrite app_nil_r. lia.
Qed.

Section encoder.
Context (src : list Z) (cap : Z) (dst0 : mem).
Hypothesis Hbytes : Forall (λ v, 0 ≤ v < 256) src.
Hypothesis Hsize : len src < 2 ^ 31.
Hypothesis Hcap : cap < 2 ^ 32 - 2.

Lemma byte_at_range i : 0 ≤ at_ src i < 256.
Proof.
  unfold at_. destruct (decide (Z.to_nat i < length src)%nat).
  - rewrite Forall_forall in Hbytes. apply Hbytes, list_elem_of_In, nth_In. done.
  - rewrite nth_overflow by lia. lia.
Qed.

(** Bytes outside the destination are never written. *)
Definition framed (m : mem) : Prop := ∀ i, i < 0 ∨ cap ≤ i → load8 m i = load8 dst0 i.

(** [gs] are the finished groups, [cur] the tokens of the group being filled;
    [open] tells whether its flag byte has been reserved. *)
Record enc_inv (e : encoder) (gs : list (list token)) (cur : list token) (open : bool) : Prop := {
  ei_spells : spells src 0 (mjoin gs ++ cur) (e_si e);
  ei_groups : Forall (λ g, length g = 8%nat) gs;
  ei_cur : (length cur < 8)%nat;
  ei_pos : e_flag_pos e = Z.of_nat (length cur);
  ei_flags : e_flags e = flags_of cur;
  ei_closed : bytes_at (e_dst e) 0 (len (stream gs)) = stream gs;
  ei_open : if open
    then e_flag_offset e = len (stream gs) ∧ e_di e = len (stream gs) + 1 + len (body cur) ∧
         bytes_at (e_dst e) (len (stream gs) + 1) (len (body cur)) = body cur ∧
         (cur = [] → e_si e < len src ∨ src = [])
    else cur = [] ∧ gs ≠ [] ∧ e_di e = len (stream gs) ∧ len src ≤ e_si e;
  ei_cap : e_di e ≤ cap;
  ei_frame : framed (e_dst e)
}.

Lemma enc_inv_bounds e gs cur open :
  enc_inv e gs cur open → 0 ≤ e_si e ≤ len src ∧ 0 ≤ e_di e ∧
  e_di e ≤ e_si e + e_si e / 8 + 1 ∧ len (stream gs) ≤ e_si e + e_si e / 8.
Proof.
  intros [Hs Hg _ _ _ _ Ho _ _]. pose proof (spells_bounds _ _ _ _ Hs) as [H1 H2].
  pose proof (body_len _ _ _ _ Hs) as Hb. destruct (stream_len gs Hg) as [E1 E2].
  rewrite body_app, len_app in Hb. rewrite length_app in H1.
  pose proof (len_nonneg (body cur)). pose proof (len_nonneg (body (mjoin gs))). pose proof (len_nonneg src).
  assert (Z.of_nat (length gs) ≤ e_si e / 8) by divlia.
  destruct open; lia.
Qed.

(** What one token does to the output. *)
Record token_out (e e' : encoder) (cur : list token) (tok : token) : Prop := {
  to_good : good_token src (e_si e) tok;
  to_si : e_si e' = e_si e + tok_len tok;
  to_di : e_di e' = e_di e + len (tok_bytes tok);
  to_cap : e_di e' ≤ cap;
  to_flags : e_flags e' = flags_of (cur ++ [tok]);
  to_pos : e_flag_pos e' = e_flag_pos e;
  to_offset : e_flag_offset e' = e_flag_offset e;
  to_bytes : bytes_at (e_dst e') (e_di e) (len (tok_bytes tok)) = tok_bytes tok;
  to_frame : ∀ i, i < e_di e ∨ e_di e' ≤ i → load8 (e_dst e') i = load8 (e_dst e) i
}.

Lemma encode_token_spec e gs cur :
  enc_inv e gs cur true → e_si e < len src →
  match encode_token src cap e with
  | inl e' => e_dst e' = e_dst e ∧
      ∃ tok, good_token src (e_si e) tok ∧ cap < e_di e + len (tok_bytes tok)
  | inr e' => ∃ tok, token_out e e' cur tok
  end.
Proof.
  intros I Hlt. destruct (enc_inv_bounds _ _ _ _ I) as (Hsi & Hdi & _ & _).
  pose proof (ei_cap _ _ _ _ I) as Hc. pose proof (ei_pos _ _ _ _ I) as Hpos.
  pose proof (ei_flags _ _ _ _ I) as Hfl. pose proof (ei_cur _ _ _ _ I) as Hcur.
  unfold encode_token. pose proof (find_match_spec src (e_si e) Hsi Hsize) as Hm.
  destruct (find_match src (e_si e)) as [l b]. unfold COMPRESS_LZSS_THRESHOLD at 1.
  rewrite (u32_small (e_di e + 2)), (u32_small (e_di e + 1)) by lia.
  destruct (Z.geb_spec l 2).
  - destruct Hm as [->|Hg]; [lia|]. pose proof Hg as (Hl & Hb & _ & Hbl & Hsl & _).
    destruct (Z.gtb_spec (e_di e + 2) cap).
    { split; [done|]. by exists (Ref b l). }
    destruct (ref_bytes b l) as [B1 B2]; [lia|lia|]. cbv zeta in B1, B2.
    set (pos := u16 _) in *. rewrite B1, B2. set (e1 := set e_flags _ _).
    destruct (iter_consume src (Z.to_nat l) e1) as (I1 & I2 & I3 & I4 & I5 & I6);
      [subst e1; unfold put, set; simpl; lia..|].
    exists (Ref b l). subst e1. unfold put, set in *; simpl in *.
    rewrite (u32_small (e_di e + 1)), ?(u32_small (e_di e + 1 + 1)) in * by lia.
    split; rewrite ?I1, ?I2, ?I3, ?I4, ?I5, ?I6; simpl; try done; try lia.
    + unfold len; simpl. lia.
    + rewrite Hfl, Hpos, Z.shiftl_1_l, <-(Z.mul_1_l (2 ^ _)).
      change 1 with (Z.b2z (tok_bit (Ref b l))) at 1. rewrite <-flags_of_snoc.
      apply u8_small, flags_of_byte. rewrite length_app. simpl. lia.
    + change (len _) with 2. rewrite bytes_at_2, load8_store8_eq, load8_store8_ne, load8_store8_eq by lia.
      rewrite <-B1, <-B2. by rewrite !(u8_small (u8 _)) by apply u8_range.
    + intros i Hi. by rewrite !load8_store8_ne by lia.
  - destruct (Z.gtb_spec (e_di e + 1) cap).
    { split; [done|]. by exists (Lit (at_ src (e_si e))). }
    exists (Lit (at_ src (e_si e))). unfold consume, put, set; simpl.
    rewrite !u32_small by lia. split; simpl; try done; try lia.
    + rewrite Hfl, flags_of_snoc. simpl. by rewrite Z.lor_0_r.
    + change (len _) with 1. rewrite bytes_at_1, load8_store8_eq, u8_small by apply byte_at_range. done.
    + intros i Hi. by rewrite load8_store8_ne by lia.
Qed.
(** The group with the new token, as it lies in the buffer. *)
Lemma token_out_bytes e e1 gs cur tok :
  enc_inv e gs cur true → token_out e e1 cur tok →
  spells src 0 (mjoin gs ++ cur ++ [tok]) (e_si e1) ∧
  bytes_at (e_dst e1) 0 (len (stream gs)) = stream gs ∧
  bytes_at (e_dst e1) (len (stream gs) + 1) (len (body (cur ++ [tok]))) = body (cur ++ [tok]) ∧
  e_di e1 = len (stream gs) + 1 + len (body (cur ++ [tok])) ∧ framed (e_dst e1).
Proof.
  intros I T. destruct (enc_inv_bounds _ _ _ _ I) as (Hsi & _ & _ & _).
  pose proof (len_nonneg (stream gs)). pose proof (len_nonneg (body cur)).
  pose proof (len_nonneg (tok_bytes tok)).
  destruct I as [Hs Hg Hcur Hpos Hfl Hcl (Ho1 & Ho2 & Ho3 & Ho4) Hc Hf].
  destruct T as [Tg Ts Td Tc Tf Tp To Tb Tr].
  rewrite body_app, body_one, len_app. split; [|split; [|split; [|split]]].
  - rewrite app_assoc. apply spells_app. exists (e_si e). split; [done|]. rewrite Ts. by split.
  - rewrite <-Hcl at 2. apply bytes_at_ext. intros i Hi. apply Tr. lia.
  - rewrite bytes_at_app by lia. f_equal.
    + rewrite <-Ho3 at 2. apply bytes_at_ext. intros i Hi. apply Tr. lia.
    + rewrite <-Tb at 2. f_equal. lia.
  - lia.
  - intros i Hi. rewrite Tr by lia. by apply Hf.
Qed.

Lemma mjoin_snoc {A} (gs : list (list A)) g : mjoin (gs ++ [g]) = mjoin gs ++ g.
Proof. rewrite join_app. simpl. by rewrite app_nil_r. Qed.

Lemma stream_snoc_bytes m gs g :
  bytes_at m 0 (len (stream gs)) = stream gs →
  bytes_at m (len (stream gs) + 1) (len (body g)) = body g →
  (length g ≤ 8)%nat →
  let m' := store8 m (len (stream gs)) (flags_of g) in
  bytes_at m' 0 (len (stream (gs ++ [g]))) = stream (gs ++ [g]).
Proof.
  intros H1 H2 Hg m'. pose proof (len_nonneg (stream gs)). pose proof (len_nonneg (body g)).
  rewrite stream_app, stream_one, len_app, len_cons. rewrite bytes_at_app, (bytes_at_app _ _ 1) by lia.
  rewrite bytes_at_1, !Z.add_0_l. subst m'. f_equal; [|simpl; f_equal].
  - rewrite <-H1 at 3. apply bytes_at_ext. intros i Hi. apply load8_store8_ne. lia.
  - rewrite load8_store8_eq. by apply u8_small, flags_of_byte.
  - rewrite <-H2 at 2. apply bytes_at_ext. intros i Hi. apply load8_store8_ne. lia.
Qed.

Lemma close_token_spec e e1 gs cur tok :
  enc_inv e gs cur true → token_out e e1 cur tok →
  match close_token src cap e1 with
  | inl e2 => framed (e_dst e2) ∧ cap < len src + len src / 8 + 1
  | inr e2 => e_si e < e_si e2 ∧ ∃ gs' cur' open, enc_inv e2 gs' cur' open
  end.
Proof.
  intros I T. destruct (token_out_bytes _ _ _ _ _ I T) as (Hs' & Hcl' & Hb' & Hd' & Hf').
  pose proof (tok_len_pos _ _ _ (to_good _ _ _ _ T)) as [Hpos1 Hend].
  pose proof (ei_groups _ _ _ _ I) as Hg. pose proof (ei_cur _ _ _ _ I) as Hcur.
  pose proof (ei_pos _ _ _ _ I) as Hpos. destruct (ei_open _ _ _ _ I) as (Ho1 & _).
  destruct T as [_ Ts _ Tc Tf Tp To _ _].
  assert (Hlen : length (cur ++ [tok]) = S (length cur)) by (rewrite length_app; simpl; lia).
  unfold close_token, set; simpl. rewrite Tp, Hpos, (u32_small (_ + 1)) by lia.
  pose proof (len_nonneg (stream gs)). pose proof (len_nonneg (body (cur ++ [tok]))).
  destruct (Z.eqb_spec (Z.of_nat (length cur) + 1) 8) as [E8|Hne8].
  - assert (Hg8 : (length (cur ++ [tok]) ≤ 8)%nat) by lia.
    pose proof (stream_snoc_bytes (e_dst e1) gs (cur ++ [tok]) Hcl' Hb' Hg8) as Hall. cbv zeta in Hall.
    assert (Hsl : len (stream (gs ++ [cur ++ [tok]])) = e_di e1)
      by (rewrite stream_app, stream_one, len_app, len_cons; lia).
    assert (Hgs : Forall (λ g, length g = 8%nat) (gs ++ [cur ++ [tok]]))
      by (apply Forall_app; split; [done|]; constructor; [lia|constructor]).
    assert (Hsp : spells src 0 (mjoin (gs ++ [cur ++ [tok]]) ++ []) (e_si e1))
      by (by rewrite app_nil_r, mjoin_snoc).
    rewrite To, Ho1, Tf.
    assert (Hfr : framed (store8 (e_dst e1) (len (stream gs)) (flags_of (cur ++ [tok]))))
      by (intros i Hi; rewrite load8_store8_ne by lia; by apply Hf').
    rewrite Hsl in Hall. destruct (Z.ltb_spec (e_si e1) (len src)) as [Hlt|Hge].
    + destruct (Z.geb_spec (e_di e1) cap).
      * split; [done|]. pose proof (body_len _ _ _ _ Hs') as Hbl. pose proof (spells_bounds _ _ _ _ Hs') as [Hcnt _].
        destruct (stream_len _ Hgs) as [Hstr Hn]. rewrite mjoin_snoc in Hstr, Hn.
        rewrite length_app in Hn, Hcnt. rewrite (length_app gs) in *. simpl in *.
        assert (Z.of_nat (length gs + 1) ≤ e_si e1 / 8) by divlia.
        assert (e_si e1 / 8 ≤ len src / 8) by (apply Z.div_le_mono; lia). lia.
      * split; [simpl; lia|]. exists (gs ++ [cur ++ [tok]]), [], true. split; simpl; try done; try lia.
        { by rewrite Hsl. }
        rewrite Hsl. change (len (body [])) with 0. rewrite u32_small by lia.
        split; [done|]. split; [lia|]. split; [done|]. intros _. by left.
        rewrite u32_small; lia.
    + split; [simpl; lia|]. exists (gs ++ [cur ++ [tok]]), [], false. split; simpl; try done; try lia.
      { by rewrite Hsl. }
      split; [done|]. split; [by destruct gs|]. by rewrite Hsl.
  - split; [simpl; lia|]. exists gs, (cur ++ [tok]), true. split; simpl; try done; try lia.
    split; [congruence|]. split; [done|]. split; [done|]. intros Hnil. by destruct cur.
Qed.
Lemma encode_loop_spec fuel e gs cur open :
  enc_inv e gs cur open → len src - e_si e ≤ Z.of_nat fuel →
  match encode_loop fuel src cap e with
  | inl e' => framed (e_dst e') ∧ cap < len src + len src / 8 + 1
  | inr e' => e_si e' = len src ∧ ∃ gs' cur' open', enc_inv e' gs' cur' open'
  end.
Proof.
  revert e gs cur open. induction fuel as [|fuel IH]; intros e gs cur open I Hfuel;
    destruct (enc_inv_bounds _ _ _ _ I) as (Hsi & Hdi & Hdib & _); cbn [encode_loop].
  { destruct (Z.ltb_spec (e_si e) (len src)); [lia|]. split; [lia|eauto]. }
  destruct (Z.ltb_spec (e_si e) (len src)) as [Hlt|]; [|split; [lia|eauto]].
  destruct open; [|by destruct (ei_open _ _ _ _ I) as (_ & _ & _ & ?); lia].
  pose proof (encode_token_spec e gs cur I Hlt) as Ht.
  destruct (encode_token src cap e) as [e1|e1].
  - destruct Ht as [-> (tok & Hg & Hov)]. split; [apply I|].
    pose proof (tok_len_pos _ _ _ Hg) as [Hp Hend].
    assert (len (tok_bytes tok) ≤ tok_len tok).
    { destruct tok; unfold len; simpl in *; [lia|]. destruct Hg as [? _]. lia. }
    assert (e_si e / 8 ≤ len src / 8) by (apply Z.div_le_mono; lia). lia.
  - destruct Ht as [tok T]. pose proof (close_token_spec e e1 gs cur tok I T) as Hc.
    destruct (close_token src cap e1) as [e2|e2]; [done|].
    destruct Hc as (Hadv & gs' & cur' & open' & I'). eapply IH; [done|]. lia.
Qed.
End encoder.

(** Every group but the last is full, and no group is empty. *)
Fixpoint groups_ok (gs : list (list token)) : Prop :=
  match gs with
  | [] => True
  | [g] => (1 ≤ length g ≤ 8)%nat
  | g :: gs => length g = 8%nat ∧ groups_ok gs
  end.

Lemma groups_ok_full gs : Forall (λ g, length g = 8%nat) gs → groups_ok gs.
Proof. induction 1 as [|g gs Hg _ IH]; [done|]. destruct gs; simpl in *; [lia|done]. Qed.
Lemma groups_ok_snoc gs g :
  Forall (λ g, length g = 8%nat) gs → (1 ≤ length g ≤ 8)%nat → groups_ok (gs ++ [g]).
Proof.
  intros Hgs Hg. induction Hgs as [|h hs Hh _ IH]; [done|].
  simpl. destruct (hs ++ [g]) eqn:E; [by destruct hs|]. split; [done|]. by rewrite <-E in *.
Qed.

Lemma compress_data_spec s src dst cap :
  Forall (λ v, 0 ≤ v < 256) src → len src < 2 ^ 31 → 0 < cap < 2 ^ 32 - 2 → src ≠ [] →
  let r := compress_data s src dst cap in
  (∀ i, i < 0 ∨ cap ≤ i → load8 (cr_dst r) i = load8 dst i) ∧
  ((cr_status r = ERR_OVERFLOW ∧ cr_size r = 0 ∧ cap < len src + len src / 8 + 1) ∨
   (cr_status r = OK ∧ 0 < cr_size r ≤ cap ∧ cr_size r ≤ len src + len src / 8 + 1 ∧
    ∃ gs, gs ≠ [] ∧ groups_ok gs ∧ spells src 0 (mjoin gs) (len src) ∧
      bytes_at (cr_dst r) 0 (cr_size r) = stream gs)).
Proof.
  intros Hb Hs Hc Hne. unfold compress_data. replace (cap =? 0) with false by lia.
  set (e0 := Encoder _ _ _ _ _ _ _ _).
  assert (Hpos : 0 < len src) by (destruct src; [done|]; rewrite len_cons; pose proof (len_nonneg src); lia).
  assert (I0 : enc_inv src cap dst e0 [] [] true).
  { split; simpl; try done; try lia. change (len (stream [])) with 0.
    change (len (body [])) with 0. split; [done|]. split; [lia|]. split; [done|]. by left. }
  pose proof (encode_loop_spec src cap dst Hb Hs ltac:(lia) (length src) e0 [] [] true I0) as Hl.
  destruct (encode_loop _ _ _ _) as [e|e]; (destruct Hl as [H1 H2]; [subst e0; unfold len; simpl; lia|]); simpl.
  { split; [done|]. by left. }
  destruct H2 as (gs & cur & open & I). destruct (enc_inv_bounds _ _ _ _ _ _ _ I) as (_ & Hd0 & Hdb & _).
  pose proof (len_nonneg (stream gs)). pose proof (len_nonneg (body cur)). rewrite H1 in Hdb.
  destruct I as [Is Ig Ic Ip If Icl Io Icap Ifr]. rewrite H1 in Is. rewrite Ip.
  destruct (Z.gtb_spec (Z.of_nat (length cur)) 0) as [Hcp|Hcz].
  - destruct open; [|destruct Io as [-> _]; simpl in Hcp; lia]. destruct Io as (Io1 & Io2 & Io3 & _).
    unfold set; simpl. rewrite Io1, If. split.
    { intros i Hi. rewrite load8_store8_ne by lia. by apply Ifr. }
    right. split; [done|]. split; [lia|]. split; [lia|]. exists (gs ++ [cur]).
    split; [by destruct gs|]. split; [apply groups_ok_snoc; [done|lia]|]. split; [by rewrite mjoin_snoc|].
    replace (e_di e) with (len (stream (gs ++ [cur])))
      by (rewrite stream_app, stream_one, len_app, len_cons; lia).
    apply stream_snoc_bytes; [done..|lia].
  - assert (cur = []) as -> by (destruct cur; [done|simpl in *; lia]). rewrite app_nil_r in Is.
    destruct open; [destruct Io as (_ & _ & _ & Io); destruct (Io eq_refl); [lia|done]|].
    destruct Io as (_ & Hgs & Io & _). split; [done|]. right. split; [done|].
    assert (0 < e_di e).
    { rewrite Io. destruct gs as [|g gs]; [done|]. change (g :: gs) with ([g] ++ gs).
      rewrite stream_app, stream_one, len_app, len_cons.
      pose proof (len_nonneg (body g)). pose proof (len_nonneg (stream gs)). lia. }
    split; [lia|]. split; [lia|]. exists gs. split; [done|]. split; [by apply groups_ok_full|].
    split; [done|]. by rewrite Io.
Qed.

(** ** The decoder *)

(** Reading a list through its suffixes. *)
Lemma drop_cons l i x r :
  0 ≤ i → drop (Z.to_nat i) l = x :: r →
  at_ l i = x ∧ drop (Z.to_nat (i + 1)) l = r ∧ i + 1 + len r = len l.
Proof.
  intros Hi E.
  assert (Hl : l !! Z.to_nat i = Some x).
  { replace (Z.to_nat i) with (Z.to_nat i + 0)%nat by lia. by rewrite <-lookup_drop, E. }
  split; [by apply nth_lookup_Some|]. rewrite Z2Nat.inj_add by lia. split.
  - rewrite <-drop_drop, E. done.
  - apply lookup_lt_Some in Hl. assert (H := f_equal length E). rewrite length_drop in H.
    unfold len. simpl in H. lia.
Qed.

Section decoder.
Context (data : list Z) (cap : Z).
Hypothesis Hbytes : Forall (λ v, 0 ≤ v < 256) data.
Hypothesis Hsize : len data < 2 ^ 31.
Hypothesis Hcap : len data ≤ cap.

(** The first [t] bytes of [data] are in the destination and the last
    [COMPRESS_LZSS_N] of them in the ring. *)
Record dec_inv (d : decoder) (t : Z) : Prop := {
  di_t : 0 ≤ t ≤ len data;
  di_di : d_di d = t;
  di_r : d_r d = ring_pos t;
  di_dst : bytes_at (d_dst d) 0 t = take (Z.to_nat t) data;
  di_ring : ∀ u, 0 ≤ u < t → t - COMPRESS_LZSS_N ≤ u →
    load8 (d_ring d) (ring_pos u) = at_ data u
}.

Lemma ring_pos_inj u v : u < v → v - u < COMPRESS_LZSS_N → ring_pos u ≠ ring_pos v.
Proof. unfold ring_pos, COMPRESS_LZSS_N, COMPRESS_LZSS_F. divlia. Qed.

Lemma ring_pos_add b k : (ring_pos b + k) mod COMPRESS_LZSS_N = ring_pos (b + k).
Proof. unfold ring_pos. rewrite Zplus_mod_idemp_l. f_equal. lia. Qed.

Lemma produce_spec d t :
  dec_inv d t → t < len data →
  dec_inv (produce (at_ data t) d) (t + 1) ∧ d_si (produce (at_ data t) d) = d_si d.
Proof.
  intros [H1 H2 H3 H4 H5] Ht. split; [|done].
  assert (Hb : 0 ≤ at_ data t < 256) by (by apply byte_at_range).
  unfold produce, set. split; simpl.
  - lia.
  - rewrite H2. apply u32_small. lia.
  - assert (0 ≤ ring_pos t < 4096) by (apply Z.mod_pos_bound; done).
    rewrite H3, u32_small, land_window by lia. apply ring_pos_add.
  - rewrite bytes_at_snoc, Z.add_0_l, H2, load8_store8_eq, u8_small by lia.
    rewrite Z2Nat.inj_add, Nat.add_1_r by lia.
    rewrite (take_S_r _ _ (at_ data t)).
    + f_equal. rewrite <-H4. apply bytes_at_ext. intros i Hi. apply load8_store8_ne. lia.
    + apply at_lookup. lia.
  - intros u Hu Hw. rewrite H3. destruct (decide (u = t)) as [->|].
    + rewrite load8_store8_eq. by apply u8_small.
    + rewrite load8_store8_ne; [apply H5; lia|].
      apply not_eq_sym, ring_pos_inj; [lia|]. unfold COMPRESS_LZSS_N in *. lia.
Qed.
Lemma copy_loop_spec n b l t k d :
  good_match data t b l → Z.of_nat n + k = l → 0 ≤ k → dec_inv d (t + k) →
  ∃ d', copy_loop n (ring_pos b) k cap d = inr d' ∧ dec_inv d' (t + l) ∧ d_si d' = d_si d.
Proof.
  intros G. pose proof G as (Hl & Hb & Hw & Hbl & Htl & Heq).
  revert k d. induction n as [|n IH]; intros k d Hk Hk0 I; cbn [copy_loop].
  { exists d. replace (t + l) with (t + k) by lia. done. }
  pose proof (di_t _ _ I) as Ht. rewrite (di_di _ _ I). destruct (Z.geb_spec (t + k) cap); [lia|].
  assert (0 ≤ ring_pos b < 4096) by (apply Z.mod_pos_bound; done).
  rewrite (u32_small (ring_pos b + k)), land_window, ring_pos_add by lia.
  rewrite (di_ring _ _ I) by (unfold COMPRESS_LZSS_N in *; lia). rewrite Heq by lia.
  destruct (produce_spec d (t + k) I) as [I' E]; [lia|]. rewrite u32_small by lia.
  rewrite <-E. apply IH; [lia|lia|]. by rewrite Z.add_assoc.
Qed.

(** One token of the stream. *)
Lemma decode_token_spec src flags bit t tok rest d :
  len src < 2 ^ 32 - 2 → 0 ≤ bit → 0 ≤ d_si d →
  good_token data t tok → dec_inv d t → Z.testbit flags bit = tok_bit tok →
  drop (Z.to_nat (d_si d)) src = tok_bytes tok ++ rest →
  ∃ d', decode_token src flags bit cap d = inr d' ∧ dec_inv d' (t + tok_len tok) ∧
    d_si d' = d_si d + len (tok_bytes tok) ∧ drop (Z.to_nat (d_si d')) src = rest.
Proof.
  intros Hsrc Hbit Hsi G I Hflag Hdrop. unfold decode_token.
  rewrite Z.shiftl_1_l, land_pow2_test, Hflag by done. destruct tok as [c|b l]; simpl in *.
  - destruct (drop_cons _ _ _ _ Hsi Hdrop) as (-> & Hdr & Hlen). pose proof (len_nonneg rest).
    destruct (Z.geb_spec (d_si d) (len src)); [lia|]. destruct G as [Ht ->].
    set (d1 := d <| d_si ::= λ n, n +w 1 |>).
    assert (E1 : d_si d1 = d_si d + 1) by (unfold d1, set; simpl; by rewrite u32_small by lia).
    assert (I1 : dec_inv d1 t) by (by destruct I).
    destruct (Z.geb_spec (d_di d) cap) as [Hge|]; [rewrite (di_di _ _ I) in Hge; lia|].
    destruct (produce_spec _ t I1 Ht) as [I2 E2]. eexists. split; [done|]. split; [done|].
    rewrite E2, E1. split; [done|]. done.
  - destruct (drop_cons _ _ _ _ Hsi Hdrop) as (E1 & Hdr & Hlen). rewrite len_cons in Hlen.
    pose proof (len_nonneg rest). rewrite (u32_small (d_si d + 1)) by lia.
    destruct (drop_cons src (d_si d + 1) _ _ ltac:(lia) Hdr) as (E2 & Hdr2 & _).
    destruct (Z.geb_spec (d_si d + 1) (len src)); [lia|].
    pose proof G as (Hl & Hb & _). assert (Hp : 0 ≤ ring_pos b < 4096) by (apply Z.mod_pos_bound; done).
    unfold set; simpl. rewrite (u32_small (d_si d + 1)), E1, E2, (u32_small (d_si d + 1 + 1)) by lia.
    assert (Hhi : 0 ≤ ring_pos b / 256 < 16) by divlia.
    change 0x0F with (Z.ones 4). rewrite !Z.land_ones, Z.shiftr_div_pow2, Z.shiftl_mul_pow2 by lia.
    change (2 ^ 4) with 16. change (2 ^ 8) with 256.
    replace ((ring_pos b / 256 + (l - 2) * 16) mod 16) with (ring_pos b / 256) by divlia.
    replace ((ring_pos b / 256 + (l - 2) * 16) / 16) with (l - 2) by divlia.
    rewrite (Z.mod_small (l - 2)) by lia.
    assert (Hj : ring_pos b mod 256 |w ring_pos b / 256 * 256 = ring_pos b).
    { change 256 with (2 ^ 8). rewrite lor_low_high by (change (2 ^ 8) with 256; divlia).
      change (2 ^ 8) with 256. divlia. }
    rewrite Hj.
    rewrite u16_small, (u32_small (l - 2 + _)) by (unfold COMPRESS_LZSS_THRESHOLD; lia).
    edestruct (copy_loop_spec (Z.to_nat (l - 2 + COMPRESS_LZSS_THRESHOLD)) b l t 0) as (d' & -> & I' & Es);
      [done|unfold COMPRESS_LZSS_THRESHOLD; lia|lia| |].
    2:{ exists d'. split; [done|]. split; [done|]. rewrite Es. simpl.
        split; [unfold len; simpl; lia|]. done. }
    rewrite Z.add_0_r. by destruct I.
Qed.
(** The tokens left in a group: either all remaining bits are used, or the
    stream ends with the group. *)
Lemma bit_loop_spec src flags n ts t t' rest d :
  len src < 2 ^ 32 - 2 → 0 ≤ d_si d → (n ≤ 8)%nat →
  spells data t ts t' → dec_inv d t →
  (∀ i u, ts !! i = Some u → Z.testbit flags (8 - Z.of_nat n + Z.of_nat i) = tok_bit u) →
  drop (Z.to_nat (d_si d)) src = body ts ++ rest →
  length ts = n ∨ ((length ts ≤ n)%nat ∧ rest = []) →
  ∃ d', bit_loop n src flags cap d = inr d' ∧ dec_inv d' t' ∧
    d_si d' = d_si d + len (body ts) ∧ drop (Z.to_nat (d_si d')) src = rest.
Proof.
  intros Hsrc. revert ts t d. induction n as [|n IH]; intros ts t d Hsi Hn Hs I Hfl Hd Hlen.
  { assert (ts = []) as -> by (destruct ts; [done|simpl in *; lia]). simpl in Hs. subst t'.
    exists d. change (len (body [])) with 0. rewrite Z.add_0_r. done. }
  cbn [bit_loop]. destruct ts as [|tok ts].
  { destruct Hlen as [|[_ ->]]; [done|]. simpl in Hs. subst t'.
    exists d. change (len (body [])) with 0. rewrite Z.add_0_r. split; [|done].
    destruct (Z.ltb_spec (d_si d) (len src)); [|done].
    apply (f_equal length) in Hd. rewrite length_drop in Hd. simpl in Hd. unfold len in *. lia. }
  destruct Hs as [G Hs]. change (tok :: ts) with ([tok] ++ ts) in Hd. rewrite body_app, body_one, <-app_assoc in Hd.
  assert (Hlt : d_si d < len src).
  { apply (f_equal length) in Hd. rewrite length_drop, length_app in Hd.
    assert (0 < length (tok_bytes tok))%nat by (destruct tok; simpl; lia). unfold len. lia. }
  destruct (Z.ltb_spec (d_si d) (len src)); [|lia].
  edestruct (decode_token_spec src flags (8 - Z.of_nat (S n)) t tok (body ts ++ rest) d)
    as (d1 & -> & I1 & E1 & D1); [done|lia|done|done|done| |done|].
  { rewrite <-(Z.add_0_r (8 - _)). by apply (Hfl 0%nat). }
  pose proof (len_nonneg (tok_bytes tok)).
  destruct (IH ts (t + tok_len tok) d1) as (d' & -> & I' & E' & D'); [lia|lia|done|done| |done| |].
  - intros i u Hi. rewrite <-(Hfl (S i) u Hi). f_equal. lia.
  - simpl in Hlen. destruct Hlen as [|[? ?]]; [left; lia|right; split; [lia|done]].
  - exists d'. split; [done|]. split; [done|]. split; [|done].
    change (tok :: ts) with ([tok] ++ ts). rewrite body_app, body_one, len_app. lia.
Qed.

Lemma decode_loop_spec src gs fuel t d :
  len src < 2 ^ 32 - 2 → 0 ≤ d_si d → groups_ok gs →
  spells data t (mjoin gs) (len data) → dec_inv d t →
  drop (Z.to_nat (d_si d)) src = stream gs → (length (stream gs) ≤ fuel)%nat →
  ∃ d', decode_loop fuel src cap d = inr d' ∧ dec_inv d' (len data).
Proof.
  intros Hsrc. revert fuel t d. induction gs as [|g gs IH]; intros fuel t d Hsi Hok Hs I Hd Hfuel.
  { simpl in Hs. subst t. exists d. split; [|done].
    assert (len src ≤ d_si d) by (apply (f_equal length) in Hd; rewrite length_drop in Hd;
      unfold len; simpl in Hd; lia).
    destruct fuel; cbn [decode_loop]; destruct (Z.ltb_spec (d_si d) (len src)); (lia || done). }
  assert (Hg : (1 ≤ length g ≤ 8)%nat) by (destruct gs; simpl in Hok; lia).
  change (g :: gs) with ([g] ++ gs) in Hs, Hd, Hfuel.
  rewrite stream_app, stream_one in Hd, Hfuel. simpl in Hd, Hfuel.
  rewrite join_app in Hs. simpl in Hs. rewrite app_nil_r in Hs.
  apply spells_app in Hs as (m & Hs1 & Hs2).
  destruct (drop_cons _ _ _ _ Hsi Hd) as (Ef & Hd1 & Hl1).
  destruct fuel as [|fuel]; [simpl in Hfuel; lia|]. cbn [decode_loop]. rewrite Ef.
  pose proof (len_nonneg (body g ++ stream gs)).
  destruct (Z.ltb_spec (d_si d) (len src)); [|lia].
  set (d1 := d <| d_si ::= λ n, n +w 1 |>).
  assert (E1 : d_si d1 = d_si d + 1) by (unfold d1, set; simpl; by rewrite u32_small by lia).
  assert (I1 : dec_inv d1 t) by (by destruct I).
  assert (Hb : 0 < len (body g)).
  { destruct g as [|tok g]; [simpl in Hg; lia|]. change (tok :: g) with ([tok] ++ g).
    rewrite body_app, body_one, len_app. pose proof (len_nonneg (body g)).
    destruct tok; unfold len at 1; simpl; lia. }
  rewrite len_app in Hl1. pose proof (len_nonneg (stream gs)).
  replace (d_si d1 =? len src) with false by lia.
  destruct (bit_loop_spec src (flags_of g) 8 g t m (stream gs) d1) as (d2 & -> & I2 & E2 & D2);
    [done|lia|lia|done|done| |by rewrite E1| |].
  { intros i u Hi. by apply flags_of_testbit. }
  { destruct gs; [right; split; [lia|done]|left; apply Hok]. }
  apply (IH fuel m d2); [lia| |done|done|done|].
  - destruct gs; [done|apply Hok].
  - rewrite length_app in Hfuel. lia.
Qed.
End decoder.

(** ** The decoder on arbitrary input *)

Section any_input.
Context (src : list Z) (cap : Z) (dst0 : mem).
Hypothesis Hsrc : len src < 2 ^ 32 - 2.
Hypothesis Hcap : 0 ≤ cap < 2 ^ 32.

(** The decoder stays inside both buffers. *)
Record dec_safe (d : decoder) : Prop := {
  ds_si : 0 ≤ d_si d ≤ len src;
  ds_di : 0 ≤ d_di d ≤ cap;
  ds_frame : ∀ i, i < 0 ∨ cap ≤ i → load8 (d_dst d) i = load8 dst0 i
}.

Definition safe_result (d : decoder) (r : (decoder * status) + decoder) : Prop :=
  match r with
  | inl (d', err) => dec_safe d' ∧ (err = ERR_INVALID ∨ err = ERR_OVERFLOW)
  | inr d' => dec_safe d' ∧ d_si d ≤ d_si d'
  end.

Lemma produce_safe c d : dec_safe d → d_di d < cap → dec_safe (produce c d) ∧ d_si (produce c d) = d_si d.
Proof.
  intros [H1 H2 H3] Hd. split; [|done]. unfold produce, set. split; simpl; [done|rewrite u32_small; lia|].
  intros i Hi. rewrite load8_store8_ne by lia. by apply H3.
Qed.

Lemma copy_loop_safe n pos k d : dec_safe d → safe_result d (copy_loop n pos k cap d).
Proof.
  revert k d. induction n as [|n IH]; intros k d D; cbn [copy_loop]; [split; [done|lia]|].
  destruct (Z.geb_spec (d_di d) cap); [split; [done|by right]|].
  match goal with |- context [produce ?c d] => destruct (produce_safe c d D) as [D' E]; [lia|] end.
  specialize (IH (k +w 1) _ D'). unfold safe_result in *. by rewrite E in IH.
Qed.

Lemma skip_safe d : dec_safe d → d_si d < len src →
  dec_safe (d <| d_si ::= λ n, n +w 1 |>) ∧ d_si (d <| d_si ::= λ n, n +w 1 |>) = d_si d + 1.
Proof.
  intros [H1 H2 H3] Hlt. unfold set; simpl. rewrite u32_small by lia. split; [|done]. split; simpl; [lia|done..].
Qed.

Lemma decode_token_safe flags bit d :
  dec_safe d → d_si d < len src → safe_result d (decode_token src flags bit cap d).
Proof.
  intros D Hlt. unfold decode_token. pose proof (ds_si _ D).
  destruct (negb _).
  - rewrite (u32_small (d_si d + 1)) by lia.
    destruct (Z.geb_spec (d_si d + 1) (len src)); [split; [done|by left]|].
    destruct (skip_safe d D Hlt) as [D1 E1]. set (d1 := d <| d_si ::= λ n, n +w 1 |>) in *. clearbody d1.
    destruct (skip_safe d1 D1) as [D2 E2]; [lia|]. set (d2 := d1 <| d_si ::= λ n, n +w 1 |>) in *. clearbody d2.
    pose proof (copy_loop_safe (Z.to_nat (((at_ src (d_si d1) >>w 4) &w 15) +w COMPRESS_LZSS_THRESHOLD))
      (u16 (at_ src (d_si d) |w Z.shiftl (at_ src (d_si d1) &w 15) 8)) 0 d2 D2) as Hs.
    destruct (copy_loop _ _ _ _ _) as [[d' err]|d']; [done|]. destruct Hs. split; [done|lia].
  - destruct (Z.geb_spec (d_si d) (len src)); [lia|].
    destruct (skip_safe d D Hlt) as [D1 E1]. set (d1 := d <| d_si ::= λ n, n +w 1 |>) in *. clearbody d1.
    destruct (Z.geb_spec (d_di d1) cap); [split; [done|by right]|].
    destruct (produce_safe (at_ src (d_si d)) d1 D1) as [D2 E2]; [lia|]. split; [done|lia].
Qed.

Lemma bit_loop_safe flags n d : dec_safe d → safe_result d (bit_loop n src flags cap d).
Proof.
  revert d. induction n as [|n IH]; intros d D; [split; [done|lia]|]. cbn [bit_loop].
  destruct (Z.ltb_spec (d_si d) (len src)) as [Hlt|]; [|split; [done|lia]].
  pose proof (decode_token_safe flags (8 - Z.of_nat (S n)) d D Hlt) as Ht.
  destruct (decode_token _ _ _ _ _) as [[d' err]|d']; [done|]. destruct Ht as [D' Hle].
  specialize (IH d' D'). destruct (bit_loop _ _ _ _ _) as [[d2 err]|d2]; [done|].
  destruct IH. split; [done|lia].
Qed.

Lemma decode_loop_safe fuel d :
  dec_safe d → len src - d_si d ≤ Z.of_nat fuel → safe_result d (decode_loop fuel src cap d).
Proof.
  revert d. induction fuel as [|fuel IH]; intros d D Hf; cbn [decode_loop].
  { destruct (Z.ltb_spec (d_si d) (len src)); [lia|]. split; [done|lia]. }
  destruct (Z.ltb_spec (d_si d) (len src)) as [Hlt|]; [|split; [done|lia]].
  destruct (skip_safe d D Hlt) as [D1 E1]. set (d1 := d <| d_si ::= λ n, n +w 1 |>) in *. clearbody d1.
  destruct (d_si d1 =? len src).
  { destruct (_ && _); [split; [done|lia]|split; [done|by left]]. }
  pose proof (bit_loop_safe (at_ src (d_si d)) 8 d1 D1) as Hb.
  destruct (bit_loop _ _ _ _ _) as [[d2 err]|d2]; [done|]. destruct Hb as [D2 Hle].
  specialize (IH d2 D2 ltac:(lia)). destruct (decode_loop _ _ _ _) as [[d3 err]|d3]; [done|].
  destruct IH. split; [done|lia].
Qed.
End any_input.

(** ** Theorems *)

Definition is_bytes : list Z → Prop := Forall is_byte.

Lemma decompress_stream s data gs dst cap :
  is_bytes data → len data < 2 ^ 31 → len data ≤ cap → groups_ok gs →
  spells data 0 (mjoin gs) (len data) → len (stream gs) < 2 ^ 32 - 2 →
  let r := decompress_data s (stream gs) dst cap in
  cr_status r = OK ∧ cr_size r = len data ∧ bytes_at (cr_dst r) 0 (len data) = data.
Proof.
  intros Hb Hs Hc Hok Hsp Hlen. unfold decompress_data.
  destruct (decode_loop_spec data cap Hb Hs Hc (stream gs) gs (length (stream gs)) 0
    (Decoder 0 0 (COMPRESS_LZSS_N - COMPRESS_LZSS_F)
      (kmemset (cp_decompress_ring s) 0 0x20 COMPRESS_LZSS_N) dst)) as (d & -> & I); try done.
  { split; simpl; try done; [|lia]. split; [done|apply len_nonneg]. }
  destruct I as [I1 I2 I3 I4 I5]. split; [done|]. split; [done|]. simpl. rewrite I4.
  apply take_ge. unfold len. lia.
Qed.

(** C19: Decompressing what [compress_data] produced gives back the input, for
    every non-empty input of up to 2 GiB, whatever the destination buffers and
    the rings held before. *)
Theorem compress_roundtrip s s' src dst dst' cap cap' :
  is_bytes src → src ≠ [] → len src < 2 ^ 31 → 0 < cap < 2 ^ 32 - 2 → len src ≤ cap' →
  let r := compress_data s src dst cap in
  cr_status r = OK →
  let r' := decompress_data s' (bytes_at (cr_dst r) 0 (cr_size r)) dst' cap' in
  cr_status r' = OK ∧ cr_size r' = len src ∧ bytes_at (cr_dst r') 0 (len src) = src.
Proof.
  intros Hb Hne Hs Hc Hc' r Hr. destruct (compress_data_spec s src dst cap Hb Hs Hc Hne) as [_ H].
  fold r in H. destruct H as [[E _]|(_ & Hsz & _ & gs & _ & Hok & Hsp & Hst)]; [congruence|].
  assert (Hlen : len (stream gs) = cr_size r) by (rewrite <-Hst; apply len_bytes_at; lia).
  cbv zeta. rewrite Hst. apply decompress_stream; try done. lia.
Qed.

Definition demo_text : list Z := [97; 98; 99; 97; 98; 99; 97; 98; 99; 97].
Definition compress_zero : compress_t := Compress (CompressStats 0 0 0 0 0 0) 0 ∅ ∅.

Lemma demo_text_bytes : is_bytes demo_text.
Proof. unfold is_bytes, is_byte, demo_text. repeat (constructor; [lia|]). constructor. Qed.

Lemma compress_roundtrip_witness :
  let r := compress_data compress_zero demo_text ∅ 64 in
  let r' := decompress_data compress_zero (bytes_at (cr_dst r) 0 (cr_size r)) ∅ 10 in
  cr_status r' = OK ∧ cr_size r' = 10 ∧ bytes_at (cr_dst r') 0 10 = demo_text.
Proof.
  apply (compress_roundtrip compress_zero compress_zero demo_text ∅ ∅ 64 10);
    [exact demo_text_bytes|discriminate|reflexivity|split; reflexivity|discriminate|].
  vm_compute. reflexivity.
Defined.

(** [compress_get_max_size] is an upper bound: with a destination of that
    size [compress_data] always succeeds, writes only inside it, and its
    output exceeds the input by at most one byte, plus one per eight bytes. *)
Theorem compress_max_size_suffices s src dst :
  is_bytes src → src ≠ [] → len src < 2 ^ 31 →
  let cap := compress_get_max_size (len src) in
  let r := compress_data s src dst cap in
  cr_status r = OK ∧ cr_size r ≤ len src + len src / 8 + 1 ∧
  ∀ i, i < 0 ∨ cap ≤ i → load8 (cr_dst r) i = load8 dst i.
Proof.
  intros Hb Hne Hs cap r. pose proof (len_nonneg src) as Hn.
  assert (Ecap : cap = len src + (len src / 8 + 64)).
  { subst cap. unfold compress_get_max_size, COMPRESS_UINT32_MAX.
    rewrite (u32_small (len src / 8 + 64)), (u32_small (_ - _)), u32_small by divlia.
    destruct (Z.gtb_spec (len src) (0xFFFFFFFF - (len src / 8 + 64))); [divlia|done]. }
  destruct (compress_data_spec s src dst cap Hb Hs ltac:(rewrite Ecap; divlia) Hne) as [Hf H].
  fold r in Hf, H. destruct H as [(_ & _ & Hov)|(E & _ & Hsz & _)]; [rewrite Ecap in Hov; divlia|].
  done.
Qed.

Lemma compress_max_size_suffices_witness :
  cr_status (compress_data compress_zero demo_text ∅ (compress_get_max_size 10)) = OK.
Proof.
  exact (proj1 (compress_max_size_suffices compress_zero demo_text ∅ demo_text_bytes
                  ltac:(discriminate) ltac:(reflexivity))).
Defined.

(** C20: On any input, valid or not, [decompress_data] terminates, never writes
    outside the destination, never reports a size above its capacity, and
    returns only [OK], [ERR_INVALID] or [ERR_OVERFLOW]. *)
Theorem decompress_total_safe s src dst cap :
  len src < 2 ^ 32 - 2 → 0 ≤ cap < 2 ^ 32 →
  let r := decompress_data s src dst cap in
  (cr_status r = OK ∨ cr_status r = ERR_INVALID ∨ cr_status r = ERR_OVERFLOW) ∧
  0 ≤ cr_size r ≤ cap ∧ ∀ i, i < 0 ∨ cap ≤ i → load8 (cr_dst r) i = load8 dst i.
Proof.
  intros Hs Hc. unfold decompress_data. set (d0 := Decoder _ _ _ _ _).
  assert (D0 : dec_safe src cap dst d0) by (split; simpl; [pose proof (len_nonneg src); lia|lia|done]).
  pose proof (decode_loop_safe src cap dst Hs Hc (length src) d0 D0) as H.
  destruct (decode_loop _ _ _ _) as [[d err]|d]; (destruct H as [[? ? ?] ?]; [unfold len, d0; simpl; lia|]).
  - simpl. split; [tauto|]. split; [lia|done].
  - simpl. split; [by left|]. done.
Qed.

Lemma decompress_total_safe_witness :
  cr_status (decompress_data compress_zero [255; 1] ∅ 8) = ERR_INVALID ∧
  0 ≤ cr_size (decompress_data compress_zero [255; 1] ∅ 8) ≤ 8.
Proof.
  split; [vm_compute; reflexivity|].
  apply (decompress_total_safe compress_zero [255; 1] ∅ 8); [reflexivity|lia].
Defined.

(** C21: The empty input is the exception to the round trip: [compress_data]
    reports one byte of output without writing it, so decompressing the result
    fails unless the buffer happened to hold a zero. *)
Theorem compress_empty_unwritten s s' dst dst' cap cap' :
  0 < cap →
  let r := compress_data s [] dst cap in
  cr_status r = OK ∧ cr_size r = 1 ∧ cr_dst r = dst ∧
  cr_status (decompress_data s' (bytes_at (cr_dst r) 0 1) dst' cap')
  = if load8 dst 0 =? 0 then OK else ERR_INVALID.
Proof.
  intros Hc. unfold compress_data. replace (cap =? 0) with false by lia. simpl.
  do 3 (split; [done|]). rewrite bytes_at_1. unfold decompress_data. cbn [length decode_loop].
  change (len [load8 dst 0]) with 1. change (at_ [load8 dst 0] _) with (load8 dst 0).
  cbn [d_si d_di Z.ltb Z.compare]. set (d1 := (Decoder _ _ _ _ _) <| d_si ::= _ |>).
  change (d_si d1 =? 1) with true. change (d_di d1 =? 0) with true. cbn [andb Z.eqb Pos.eqb].
  by destruct (load8 dst 0 =? 0).
Qed.

Lemma compress_empty_unwritten_witness :
  cr_status (decompress_data compress_zero
    (bytes_at (cr_dst (compress_data compress_zero [] (store8 ∅ 0 7) 16)) 0 1) ∅ 8) = ERR_INVALID.
Proof.
  destruct (compress_empty_unwritten compress_zero compress_zero (store8 ∅ 0 7) ∅ 16 8 ltac:(lia))
    as (_ & _ & _ & E).
  rewrite E. reflexivity.
Defined.
