(* ===== verification/Route.v ===== *)
(** * The IPv4 routing table of src/core/route.c

    Sixteen entries, a base configuration to go back to, and counters.  The
    specification reads an entry as an interval of addresses: the theorems
    show that the mask scan accepts exactly the contiguous masks, that lookup
    returns the smallest interval containing the destination, and that the
    table's own consistency check holds in every reachable state.  Output
    pointers are not null; an interface identifier may be ([None]). *)

From S2P Require Import Prelude.

(** ** The code *)

Definition ROUTE_TABLE_CAPACITY : Z := 16.
Definition IPV4_INTERFACE_ID_SIZE : Z := 20.
Definition IPV4_BROADCAST : Z := 0xFFFFFFFF.
Definition IPV4_LOOPBACK_PREFIX : Z := 127.
Definition IPV4_MULTICAST_MIN : Z := 224.
Definition IPV4_MULTICAST_MAX : Z := 239.

(** [interface_id] is the text before the terminator. *)
Record route_entry_t := RouteEntry {
  re_used : Z; re_prefix_length : Z; re_network : Z; re_subnet_mask : Z;
  re_gateway : Z; re_interface_id : list Z
}.
Record route_status_t := RouteStatus {
  rs_initialized : Z; rs_entry_count : Z; rs_lookups : Z; rs_matches : Z;
  rs_misses : Z; rs_adds : Z; rs_deletes : Z; rs_replacements : Z;
  rs_last_error : status
}.
Record route_match_t := RouteMatch {
  rm_matched : Z; rm_via_gateway : Z; rm_entry : route_entry_t; rm_next_hop : Z
}.

(** The static variables. *)
Record route_t := Route {
  route_entries : list route_entry_t;
  route_base_direct : route_entry_t;
  route_base_default : route_entry_t;
  route_status : route_status_t;
  route_base_valid : Z
}.
#[export] Instance route_entry_eta : Eta route_entry_t := λ r,
  RouteEntry (re_used r) (re_prefix_length r) (re_network r) (re_subnet_mask r)
    (re_gateway r) (re_interface_id r).
#[export] Instance route_status_eta : Eta route_status_t := λ r,
  RouteStatus (rs_initialized r) (rs_entry_count r) (rs_lookups r) (rs_matches r)
    (rs_misses r) (rs_adds r) (rs_deletes r) (rs_replacements r) (rs_last_error r).
#[export] Instance route_eta : Eta route_t := λ r,
  Route (route_entries r) (route_base_direct r) (route_base_default r)
    (route_status r) (route_base_valid r).

Definition entry_zero : route_entry_t := RouteEntry 0 0 0 0 0 [].
Definition status_zero : route_status_t := RouteStatus 0 0 0 0 0 0 0 0 OK.
Definition match_zero : route_match_t := RouteMatch 0 0 entry_zero 0.
Definition entries_zero : list route_entry_t := replicate (Z.to_nat ROUTE_TABLE_CAPACITY) entry_zero.
Definition route_boot : route_t := Route entries_zero entry_zero entry_zero status_zero 0.

(** [ipv4_address_is_unicast] and [ipv4_mask_is_valid] of core/ipv4.c. *)
Definition ipv4_address_is_unicast (ip_address : Z) : bool :=
  let first_octet := u8 (ip_address >>w 24) in
  if (ip_address =? 0) || (ip_address =? IPV4_BROADCAST) then false else
  if first_octet =? IPV4_LOOPBACK_PREFIX then false else
  (first_octet <? IPV4_MULTICAST_MIN) || (first_octet >? IPV4_MULTICAST_MAX).

(** The scan of a mask from its top bit: the prefix length, or [None] when a
    one follows a zero.  [route_mask_prefix] and [ipv4_mask_is_valid] contain
    the same loop. *)
Fixpoint mask_scan (bits : list Z) (subnet_mask prefix_length : Z) (saw_zero : bool) : option Z :=
  match bits with
  | [] => Some prefix_length
  | bit :: bits =>
      if negb (subnet_mask &w (0x80000000 >>w bit) =? 0) then
        if saw_zero then None
        else mask_scan bits subnet_mask (u8 (prefix_length + 1)) saw_zero
      else mask_scan bits subnet_mask prefix_length true
  end.

Definition route_mask_prefix (subnet_mask : Z) : option Z :=
  mask_scan (range 0 32) subnet_mask 0 false.

Definition ipv4_mask_is_valid (subnet_mask : Z) : bool :=
  match mask_scan (range 0 32) subnet_mask 0 false with
  | Some prefix => (prefix >=? 1) && (prefix <=? 30)
  | None => false
  end.

(** [route_copy_text] into a zeroed destination: the text left there and the
    return code. *)
Definition route_copy_text (capacity : Z) (source : list Z) : list Z * status :=
  if capacity <=? len source
  then (take (Z.to_nat (capacity - 1)) source, ERR_OVERFLOW)
  else if len source =? 0 then ([], ERR_INVALID) else (source, OK).

(** The entry left behind and the return code. *)
Definition route_prepare_entry (entry : route_entry_t) (network subnet_mask gateway : Z)
    (interface_id : option (list Z)) : route_entry_t * status :=
  match interface_id with
  | None => (entry, ERR_NULL)
  | Some interface_id =>
      let entry := entry_zero in
      match route_mask_prefix subnet_mask with
      | None => (entry, ERR_INVALID)
      | Some prefix =>
          let entry := entry <| re_prefix_length := prefix |> in
          if negb (network =? network &w subnet_mask) then (entry, ERR_INVALID) else
          if negb (gateway =? 0) && negb (ipv4_address_is_unicast gateway)
          then (entry, ERR_INVALID) else
          let '(text, result) := route_copy_text IPV4_INTERFACE_ID_SIZE interface_id in
          let entry := entry <| re_interface_id := text |> in
          if negb (is_ok result) then (entry, result) else
          (entry <| re_network := network |> <| re_subnet_mask := subnet_mask |>
                 <| re_gateway := gateway |> <| re_used := 1 |>, OK)
      end
  end.

Definition is_used (e : route_entry_t) : bool := negb (re_used e =? 0).
Definition has_key (network subnet_mask : Z) (e : route_entry_t) : bool :=
  is_used e && (re_network e =? network) && (re_subnet_mask e =? subnet_mask).

(** The first index that passes a test; [None] is -1. *)
Fixpoint find_index (p : route_entry_t → bool) (l : list route_entry_t) : option nat :=
  match l with
  | [] => None
  | e :: l => if p e then Some O else S <$> find_index p l
  end.

Definition route_find (s : route_t) (network subnet_mask : Z) : option nat :=
  find_index (has_key network subnet_mask) (route_entries s).
Definition route_find_free (s : route_t) : option nat :=
  find_index (λ e, negb (is_used e)) (route_entries s).

Definition route_insert (s : route_t) (entry : route_entry_t) : route_t * status :=
  match route_find_free s with
  | None => (s, ERR_OVERFLOW)
  | Some index =>
      let s := s <| route_entries ::= λ l, <[index := entry]> l |> in
      (s <| route_status ::= set rs_entry_count (λ n, u8 (n + 1)) |>, OK)
  end.

Definition route_clear_entries (s : route_t) : route_t :=
  s <| route_entries := entries_zero |> <| route_status ::= set rs_entry_count (λ _, 0) |>.

Definition set_error (s : route_t) (e : status) : route_t :=
  s <| route_status ::= set rs_last_error (λ _, e) |>.

Definition route_init (s : route_t) : route_t * status :=
  if negb (rs_initialized (route_status s) =? 0) then (s, OK) else
  let s := s <| route_status := status_zero |> in
  let s := s <| route_entries := entries_zero |> in
  let s := s <| route_base_direct := entry_zero |> in
  let s := s <| route_base_default := entry_zero |> in
  let s := s <| route_status ::= set rs_initialized (λ _, 1) |> in
  (set_error s OK, OK).

Definition initialized (s : route_t) : bool := negb (rs_initialized (route_status s) =? 0).

Definition route_reset (s : route_t) : route_t * status :=
  if negb (initialized s) then (s, ERR_STATE) else
  let s := route_clear_entries s in
  if route_base_valid s =? 0 then (set_error s ERR_STATE, ERR_STATE) else
  let '(s, result) := route_insert s (route_base_direct s) in
  let '(s, result) := if is_ok result && is_used (route_base_default s)
    then route_insert s (route_base_default s) else (s, result) in
  if negb (is_ok result) then (set_error s result, result) else
  (set_error s OK, OK).

Definition route_clear (s : route_t) : route_t * status :=
  if negb (initialized s) then (s, ERR_STATE) else
  let s := route_clear_entries s in
  let s := s <| route_base_direct := entry_zero |> in
  let s := s <| route_base_default := entry_zero |> in
  let s := s <| route_base_valid := 0 |> in
  (set_error s OK, OK).

Definition route_set_base (s : route_t) (local_ip subnet_mask gateway : Z)
    (interface_id : option (list Z)) : route_t * status :=
  if negb (initialized s) then (s, ERR_STATE) else
  match interface_id with
  | None => (s, ERR_NULL)
  | Some _ =>
      if negb (ipv4_address_is_unicast local_ip) || negb (ipv4_mask_is_valid subnet_mask)
      then (s, ERR_INVALID) else
      let network := local_ip &w subnet_mask in
      let broadcast := network |w ~w subnet_mask in
      if (local_ip =? network) || (local_ip =? broadcast)
         || (negb (gateway =? 0)
             && (negb (ipv4_address_is_unicast gateway)
                 || negb (gateway &w subnet_mask =? network) || (gateway =? local_ip)
                 || (gateway =? network) || (gateway =? broadcast)))
      then (s, ERR_INVALID) else
      let s := s <| route_base_direct := entry_zero |> in
      let '(entry, result) :=
        route_prepare_entry (route_base_direct s) network subnet_mask 0 interface_id in
      let s := s <| route_base_direct := entry |> in
      if negb (is_ok result) then (s, result) else
      let s := s <| route_base_default := entry_zero |> in
      let '(s, result) :=
        if negb (gateway =? 0) then
          let '(entry, result) :=
            route_prepare_entry (route_base_default s) 0 0 gateway interface_id in
          (s <| route_base_default := entry |>, result)
        else (s, OK) in
      if negb (is_ok result) then (s, result) else
      route_reset (s <| route_base_valid := 1 |>)
  end.

Definition route_add (s : route_t) (network subnet_mask gateway : Z)
    (interface_id : option (list Z)) : route_t * status :=
  if negb (initialized s) then (s, ERR_STATE) else
  let '(entry, result) := route_prepare_entry entry_zero network subnet_mask gateway interface_id in
  if negb (is_ok result) then (set_error s result, result) else
  match route_find s network subnet_mask with
  | Some _ => (set_error s ERR_STATE, ERR_STATE)
  | None =>
      let '(s, result) := route_insert s entry in
      if negb (is_ok result) then (set_error s result, result) else
      let s := s <| route_status ::= set rs_adds (λ n, n +w 1) |> in
      (set_error s OK, OK)
  end.

Definition route_delete (s : route_t) (network subnet_mask : Z) : route_t * status :=
  if negb (initialized s) then (s, ERR_STATE) else
  if negb (bool_decide (is_Some (route_mask_prefix subnet_mask)))
     || negb (network =? network &w subnet_mask) then (s, ERR_INVALID) else
  match route_find s network subnet_mask with
  | None => (set_error s ERR_NOT_FOUND, ERR_NOT_FOUND)
  | Some index =>
      let s := s <| route_entries ::= λ l, <[index := entry_zero]> l |> in
      let s := if negb (rs_entry_count (route_status s) =? 0)
        then s <| route_status ::= set rs_entry_count (λ n, u8 (n - 1)) |> else s in
      let s := s <| route_status ::= set rs_deletes (λ n, n +w 1) |> in
      (set_error s OK, OK)
  end.

Definition route_set_default (s : route_t) (gateway : Z) (interface_id : option (list Z))
    : route_t * status :=
  if gateway =? 0 then (s, ERR_INVALID) else
  let '(entry, result) := route_prepare_entry entry_zero 0 0 gateway interface_id in
  if negb (is_ok result) then (s, result) else
  if negb (initialized s) then (s, ERR_STATE) else
  match route_find s 0 0 with
  | Some index =>
      let s := s <| route_entries ::= λ l, <[index := entry]> l |> in
      let s := s <| route_status ::= set rs_replacements (λ n, n +w 1) |> in
      (set_error s OK, OK)
  | None =>
      let '(s, result) := route_insert s entry in
      if negb (is_ok result) then (set_error s result, result) else
      let s := s <| route_status ::= set rs_adds (λ n, n +w 1) |> in
      (set_error s OK, OK)
  end.

Definition entry_matches (destination_ip : Z) (e : route_entry_t) : bool :=
  is_used e && (destination_ip &w re_subnet_mask e =? re_network e).

(** The loop of [route_lookup]: the best entry so far. *)
Definition lookup_step (destination_ip : Z) (best : option route_entry_t) (e : route_entry_t)
    : option route_entry_t :=
  if negb (entry_matches destination_ip e) then best else
  match best with
  | None => Some e
  | Some b => if re_prefix_length e >? re_prefix_length b then Some e else best
  end.

Definition route_lookup (s : route_t) (destination_ip : Z) : route_t * route_match_t * status :=
  if negb (initialized s) then (s, match_zero, ERR_STATE) else
  let s := s <| route_status ::= set rs_lookups (λ n, n +w 1) |> in
  match foldl (lookup_step destination_ip) None (route_entries s) with
  | None =>
      let s := s <| route_status ::= set rs_misses (λ n, n +w 1) |> in
      (set_error s ERR_NOT_FOUND, match_zero, ERR_NOT_FOUND)
  | Some e =>
      let via_gateway := negb (re_gateway e =? 0) in
      let m := RouteMatch 1 (if via_gateway then 1 else 0) e
                 (if via_gateway then re_gateway e else destination_ip) in
      let s := s <| route_status ::= set rs_matches (λ n, n +w 1) |> in
      (set_error s OK, m, OK)
  end.

Definition route_get_status (s : route_t) : option route_status_t * status :=
  if negb (initialized s) then (None, ERR_STATE) else (Some (route_status s), OK).
Definition route_get_entry (s : route_t) (index : Z) : option route_entry_t * status :=
  if index >=? ROUTE_TABLE_CAPACITY then (None, ERR_INVALID) else
  if negb (initialized s) then (None, ERR_STATE) else
  (route_entries s !! Z.to_nat index, OK).

(** The checks [route_validate_state] makes on one used entry. *)
Definition entry_is_consistent (e : route_entry_t) : bool :=
  match route_mask_prefix (re_subnet_mask e) with
  | None => false
  | Some prefix_length =>
      (prefix_length =? re_prefix_length e)
      && (re_network e =? re_network e &w re_subnet_mask e)
      && negb (len (re_interface_id e) =? 0)
      && ((re_gateway e =? 0) || ipv4_address_is_unicast (re_gateway e))
  end.

(** The double loop: the number of used entries, [None] on an inconsistency. *)
Fixpoint validate_loop (l : list route_entry_t) (count : Z) : option Z :=
  match l with
  | [] => Some count
  | e :: l =>
      if negb (is_used e) then validate_loop l count else
      if negb (entry_is_consistent e) then None else
      if existsb (has_key (re_network e) (re_subnet_mask e)) l then None
      else validate_loop l (count +w 1)
  end.

Definition route_validate_state (s : route_t) : status :=
  if negb (initialized s) then ERR_STATE else
  match validate_loop (route_entries s) 0 with
  | None => ERR_STATE
  | Some count =>
      if negb (count =? rs_entry_count (route_status s)) || (count >? ROUTE_TABLE_CAPACITY)
      then ERR_STATE else OK
  end.

Record route_self_test_result_t := SelfTest {
  st_lifecycle : bool; st_direct_route : bool; st_default_route : bool;
  st_longest_prefix : bool; st_delete_route : bool; st_duplicate_route : bool;
  st_overflow : bool; st_invalid_input : bool; st_reset : bool; st_invariants : bool;
  st_passed : Z; st_failed : Z
}.

(** The two counters of [route_test_count], for the ten calls. *)
Definition route_test_count (counts : Z * Z) (passed : bool) : Z * Z :=
  if passed then (counts.1 +w 1, counts.2) else (counts.1, counts.2 +w 1).

(** The characters of "net-pci-00:03.0". *)
Definition test_interface : list Z :=
  [110; 101; 116; 45; 112; 99; 105; 45; 48; 48; 58; 48; 51; 46; 48].

Definition is_status (a b : status) : bool := bool_decide (a = b).

(** The loop that fills the table; it stops at the first failure. *)
Fixpoint fill_loop (indices : list Z) (s : route_t) (result : status) : route_t * status :=
  match indices with
  | [] => (s, result)
  | index :: indices =>
      let '(s, result) := route_add s (index <<w 24) 0xFF000000 0 (Some test_interface) in
      if negb (is_ok result) then (s, result) else fill_loop indices s result
  end.

Definition route_self_test (s : route_t)
    : route_t * option route_self_test_result_t * status :=
  if negb (initialized s) then (s, None, ERR_STATE) else
  let saved := s in
  let s := route_clear_entries s in
  let s := s <| route_base_valid := 0 |> in
  let lifecycle := is_ok (route_validate_state s) in
  let counts := route_test_count (0, 0) lifecycle in
  let '(s, result) := route_set_default s 0x0A000001 (Some test_interface) in
  let default_route := is_ok result in
  let '(s, result) := route_add s 0x0A010000 0xFFFF0000 0 (Some test_interface) in
  let direct_route := is_ok result in
  let counts := route_test_count counts direct_route in
  let '(s, m, result) := route_lookup s 0x0A010203 in
  let longest_prefix := is_ok result && negb (rm_matched m =? 0)
    && (rm_via_gateway m =? 0) && (re_prefix_length (rm_entry m) =? 16) in
  let counts := route_test_count counts longest_prefix in
  let '(s, m, result) := route_lookup s 0xC0000201 in
  let default_route := default_route && is_ok result
    && negb (rm_via_gateway m =? 0) && (rm_next_hop m =? 0x0A000001) in
  let counts := route_test_count counts default_route in
  let '(s, r) := route_add s 0 0 0x0A000001 (Some test_interface) in
  let duplicate_route := is_status r ERR_STATE in
  let counts := route_test_count counts duplicate_route in
  let '(s, r1) := route_add s 0x0A000000 0xFF00FF00 0 (Some test_interface) in
  let '(s, r2) := route_add s 0x0A020000 0xFFFF0000 0xE0000001 (Some test_interface) in
  let '(s, r3) := route_add s 0x0A030000 0xFFFF0000 0 (Some []) in
  let invalid_input :=
    is_status r1 ERR_INVALID && is_status r2 ERR_INVALID && is_status r3 ERR_INVALID in
  let counts := route_test_count counts invalid_input in
  let '(s, r) := route_delete s 0x0A010000 0xFFFF0000 in
  let '(s, delete_route) :=
    if is_ok r then
      let '(s, m, r) := route_lookup s 0x0A010203 in
      (s, is_ok r && negb (rm_via_gateway m =? 0))
    else (s, false) in
  let counts := route_test_count counts delete_route in
  let s := route_clear_entries s in
  let '(s, result) := fill_loop (range 0 ROUTE_TABLE_CAPACITY) s result in
  let '(s, overflow) :=
    if is_ok result then
      let '(s, r) := route_add s 0xF0000000 0xFF000000 0 (Some test_interface) in
      (s, is_status r ERR_OVERFLOW)
    else (s, false) in
  let counts := route_test_count counts overflow in
  let '(s, r) := route_set_base s 0x0A00020F 0xFFFFFF00 0x0A000202 (Some test_interface) in
  let '(s, reset) :=
    if is_ok r then
      let '(s, r) := route_reset s in
      (s, is_ok r && (rs_entry_count (route_status s) =? 2))
    else (s, false) in
  let counts := route_test_count counts reset in
  let invariants := is_ok (route_validate_state s) in
  let counts := route_test_count counts invariants in
  let s := s <| route_entries := route_entries saved |> in
  let s := s <| route_base_direct := route_base_direct saved |> in
  let s := s <| route_base_default := route_base_default saved |> in
  let s := s <| route_status := route_status saved |> in
  let s := s <| route_base_valid := route_base_valid saved |> in
  let report := SelfTest lifecycle direct_route default_route longest_prefix delete_route
    duplicate_route overflow invalid_input reset invariants counts.1 counts.2 in
  (s, Some report, if negb (counts.2 =? 0) then ERR_STATE else OK).

(** ** Masks and intervals *)

Lemma mask_bit m i k :
  0 ≤ k → 0 ≤ i → i + k = 31 → negb (m &w (0x80000000 >>w i) =? 0) = Z.testbit m k.
Proof.
  intros Hk Hi0 Hi. rewrite <-(land_pow2_test m k Hk). do 3 f_equal.
  rewrite Z.shiftr_div_pow2 by lia.
  replace 0x80000000 with (2 ^ k * 2 ^ i) by (rewrite <-Z.pow_add_r by lia; replace (k + i) with 31 by lia; done).
  apply Z.div_mul. lia.
Qed.

Lemma mod_pow2_succ m k :
  0 ≤ k → m mod 2 ^ (k + 1) = (if Z.testbit m k then 2 ^ k else 0) + m mod 2 ^ k.
Proof.
  intros Hk. rewrite Z.pow_add_r, Z.rem_mul_r by lia. change (2 ^ 1) with 2.
  rewrite Z.testbit_eqb by lia. destruct (Z.eqb_spec ((m / 2 ^ k) mod 2) 1) as [E|E]; [rewrite E; lia|].
  pose proof (Z.mod_pos_bound (m / 2 ^ k) 2). assert ((m / 2 ^ k) mod 2 = 0) as -> by lia. lia.
Qed.

Lemma mask_scan_zero n i m p :
  i + Z.of_nat n = 32 → 0 ≤ i →
  mask_scan (range i 32) m p true = if m mod 2 ^ Z.of_nat n =? 0 then Some p else None.
Proof.
  revert i. induction n as [|n IH]; intros i Hi H0.
  { rewrite range_nil by lia. rewrite Z.mod_1_r. done. }
  rewrite range_cons by lia. cbn [mask_scan].
  rewrite (mask_bit m i (Z.of_nat n)) by lia.
  replace (Z.of_nat (S n)) with (Z.of_nat n + 1) by lia.
  rewrite mod_pow2_succ by lia. pose proof (Z.mod_pos_bound m (2 ^ Z.of_nat n)).
  destruct (Z.testbit m (Z.of_nat n)).
  - destruct (Z.eqb_spec (2 ^ Z.of_nat n + m mod 2 ^ Z.of_nat n) 0); [lia|done].
  - apply IH; lia.
Qed.

Lemma mask_scan_ones n i m p :
  i + Z.of_nat n = 32 → 0 ≤ i →
  mask_scan (range i 32) m i false = Some p ↔
  i ≤ p ≤ 32 ∧ m mod 2 ^ Z.of_nat n = 2 ^ Z.of_nat n - 2 ^ (32 - p).
Proof.
  revert i. induction n as [|n IH]; intros i Hi H0.
  { rewrite range_nil by lia. rewrite Z.mod_1_r. split.
    - intros [= <-]. replace i with 32 by lia. split; [lia|done].
    - intros [? _]. cbn; f_equal. lia. }
  rewrite range_cons by lia. cbn [mask_scan].
  rewrite (mask_bit m i (Z.of_nat n)) by lia.
  replace (Z.of_nat (S n)) with (Z.of_nat n + 1) by lia.
  rewrite mod_pow2_succ by lia. pose proof (Z.mod_pos_bound m (2 ^ Z.of_nat n)).
  assert (2 ^ (Z.of_nat n + 1) = 2 * 2 ^ Z.of_nat n) as E by (rewrite Z.pow_add_r; lia).
  assert (∀ q, i < q ≤ 32 → 0 < 2 ^ (32 - q) ≤ 2 ^ Z.of_nat n) as Hq.
  { intros q ?. split; [lia|]. apply Z.pow_le_mono_r; lia. }
  destruct (Z.testbit m (Z.of_nat n)).
  - rewrite u8_small, IH by lia. split.
    + intros [? ?]. split; lia.
    + intros [? ?]. destruct (decide (p = i)) as [->|?].
      { replace (32 - i) with (Z.of_nat n + 1) in * by lia. lia. }
      split; lia.
  - rewrite (mask_scan_zero n) by lia.
    destruct (Z.eqb_spec (m mod 2 ^ Z.of_nat n) 0) as [E0|E0]; split.
    + intros [= <-]. replace (32 - i) with (Z.of_nat n + 1) by lia. lia.
    + intros [? ?]. destruct (decide (p = i)) as [->|?]; [done|]. specialize (Hq p). lia.
    + done.
    + intros [? ?]. destruct (decide (p = i)) as [->|?]; [|specialize (Hq p); lia].
      replace (32 - i) with (Z.of_nat n + 1) in * by lia. lia.
Qed.

Lemma mask_prefix_spec m p :
  0 ≤ m < 2 ^ 32 → route_mask_prefix m = Some p ↔ 0 ≤ p ≤ 32 ∧ m = 2 ^ 32 - 2 ^ (32 - p).
Proof.
  intros Hm. unfold route_mask_prefix. rewrite (mask_scan_ones 32) by lia.
  change (2 ^ Z.of_nat 32) with (2 ^ 32). rewrite Z.mod_small by lia. done.
Qed.

Definition is_u32 (z : Z) : Prop := 0 ≤ z < 2 ^ 32.

(** The mask of prefix length [32 - q]. *)
Lemma land_mask d q :
  0 ≤ q ≤ 32 → is_u32 d → d &w (2 ^ 32 - 2 ^ q) = d - d mod 2 ^ q.
Proof.
  intros Hq Hd. assert (0 < 2 ^ q ≤ 2 ^ 32) by (split; [lia|apply Z.pow_le_mono_r; lia]).
  replace (2 ^ 32 - 2 ^ q) with (~w (Z.ones q))
    by (unfold u32, Z.lnot; rewrite Z.ones_equiv; divlia).
  rewrite land_u32_lnot, land_lnot_ones by (done || lia).
  pose proof (Z.div_mod d (2 ^ q)). lia.
Qed.

Lemma lor_host_bits n q :
  0 ≤ q ≤ 32 → n mod 2 ^ q = 0 → n |w ~w (2 ^ 32 - 2 ^ q) = n + 2 ^ q - 1.
Proof.
  intros Hq Hn. assert (0 < 2 ^ q ≤ 2 ^ 32) by (split; [lia|apply Z.pow_le_mono_r; lia]).
  replace (~w (2 ^ 32 - 2 ^ q)) with (2 ^ q - 1) by (unfold u32, Z.lnot; divlia).
  replace n with (n / 2 ^ q * 2 ^ q) at 1 by (pose proof (Z.div_mod n (2 ^ q)); lia).
  rewrite Z.lor_comm, lor_low_high by lia. pose proof (Z.div_mod n (2 ^ q)). lia.
Qed.

(** An entry stands for the addresses from its network on, [2 ^ (32 - prefix)]
    of them. *)
Definition covers (e : route_entry_t) (d : Z) : Prop :=
  re_network e ≤ d < re_network e + 2 ^ (32 - re_prefix_length e).

Record entry_ok (e : route_entry_t) : Prop := EntryOk {
  eo_prefix : 0 ≤ re_prefix_length e ≤ 32;
  eo_mask : re_subnet_mask e = 2 ^ 32 - 2 ^ (32 - re_prefix_length e);
  eo_network : 0 ≤ re_network e < 2 ^ 32;
  eo_aligned : re_network e mod 2 ^ (32 - re_prefix_length e) = 0;
  eo_interface : 0 < len (re_interface_id e) < IPV4_INTERFACE_ID_SIZE;
  eo_gateway : re_gateway e = 0 ∨ ipv4_address_is_unicast (re_gateway e) = true
}.

Lemma pow_le_32 q : 0 ≤ q ≤ 32 → 0 < 2 ^ q ≤ 2 ^ 32.
Proof. intros. split; [lia|]. apply Z.pow_le_mono_r; lia. Qed.

Lemma entry_mask_u32 e : entry_ok e → is_u32 (re_subnet_mask e).
Proof.
  intros [? -> _ _ _ _]. pose proof (pow_le_32 (32 - re_prefix_length e)).
  unfold is_u32. lia.
Qed.

Lemma entry_matches_covers e d :
  entry_ok e → is_u32 d → entry_matches d e = true ↔ is_used e = true ∧ covers e d.
Proof.
  intros [Hp Hm Hn Ha _ _] Hd. unfold entry_matches, covers. rewrite Hm, land_mask by (done || lia).
  rewrite andb_true_iff, Z.eqb_eq. pose proof (pow_le_32 (32 - re_prefix_length e)).
  set (w := 2 ^ (32 - re_prefix_length e)) in *. unfold is_u32 in Hd.
  split; (intros [? ?]; split; [done|]); [divlia|].
  assert (d = (d - re_network e) + w * (re_network e / w)) as E.
  { pose proof (Z.div_mod (re_network e) w). lia. }
  assert (d mod w = d - re_network e); [|lia].
  rewrite E at 1. rewrite Z.mul_comm, Z.mod_add by lia. apply Z.mod_small. lia.
Qed.

(** Of two entries covering an address, the longer prefix is the smaller
    interval, and equal prefixes are equal networks. *)
Lemma covers_same_prefix e e' d :
  entry_ok e → entry_ok e' → covers e d → covers e' d →
  re_prefix_length e = re_prefix_length e' →
  re_network e = re_network e' ∧ re_subnet_mask e = re_subnet_mask e'.
Proof.
  intros [? Hm ? Ha _ _] [? Hm' ? Ha' _ _] Hc Hc' Hp. unfold covers in *. rewrite <-Hp in *.
  split; [|congruence]. pose proof (pow_le_32 (32 - re_prefix_length e)).
  set (w := 2 ^ (32 - re_prefix_length e)) in *.
  pose proof (Z.div_mod (re_network e) w). pose proof (Z.div_mod (re_network e') w).
  assert (re_network e / w = re_network e' / w) by nia. lia.
Qed.

Lemma entry_consistent e : entry_ok e → entry_is_consistent e = true.
Proof.
  intros He. pose proof (entry_mask_u32 e He) as Hu. destruct He as [Hp Hm Hn Ha Hi Hg].
  unfold entry_is_consistent.
  assert (route_mask_prefix (re_subnet_mask e) = Some (re_prefix_length e)) as ->.
  { apply mask_prefix_spec; done. }
  rewrite Hm, land_mask by (done || lia). rewrite Ha, Z.sub_0_r, !Z.eqb_refl.
  destruct Hg as [-> | ->]; [|rewrite orb_true_r]; cbn; rewrite ?andb_true_r;
    destruct (Z.eqb_spec (len (re_interface_id e)) 0); (done || lia).
Qed.

(** ** The table as a finite map *)

Definition key (e : route_entry_t) : Z * Z := (re_network e, re_subnet_mask e).
Definition used (l : list route_entry_t) : list route_entry_t := filter (λ e, is_used e = true) l.
Definition table (l : list route_entry_t) : gmap (Z * Z) route_entry_t :=
  list_to_map ((λ e, (key e, e)) <$> used l).

Record table_ok (l : list route_entry_t) : Prop := TableOk {
  to_length : length l = Z.to_nat ROUTE_TABLE_CAPACITY;
  to_entries : Forall entry_ok (used l);
  to_keys : NoDup (key <$> used l)
}.

Lemma used_cons e l : used (e :: l) = if is_used e then e :: used l else used l.
Proof.
  unfold used. destruct (is_used e) eqn:E.
  - by rewrite filter_cons_True.
  - rewrite filter_cons_False; [done|]. congruence.
Qed.

Lemma has_key_spec n m e : has_key n m e = true ↔ is_used e = true ∧ key e = (n, m).
Proof.
  unfold has_key, key. rewrite !andb_true_iff, !Z.eqb_eq. split.
  - intros [[? ->] ->]. done.
  - intros [? [= -> ->]]. done.
Qed.

Lemma find_index_Some p l i :
  find_index p l = Some i → ∃ e, l !! i = Some e ∧ p e = true.
Proof.
  revert i. induction l as [|e l IH]; intros i H; cbn in H; [done|].
  destruct (p e) eqn:E; [injection H as <-; by exists e|].
  destruct (find_index p l) as [j|]; [|done]. injection H as <-. by apply IH.
Qed.

Lemma find_index_None p l : find_index p l = None ↔ Forall (λ e, p e = false) l.
Proof.
  induction l as [|e l IH]; cbn; [done|]. rewrite Forall_cons. destruct (p e).
  - split; [done|]. by intros [? _].
  - rewrite <-IH. destruct (find_index p l); cbn; split; try done. by intros [_ ?].
Qed.

(** Writing an entry over a free slot, clearing a slot, and replacing one. *)
Lemma used_insert l i e e' :
  l !! i = Some e' → is_used e' = false → is_used e = true →
  used (<[i := e]> l) ≡ₚ e :: used l.
Proof.
  revert i. induction l as [|x l IH]; intros [|i] Hl Hu He; try done.
  - injection Hl as ->. change (<[0%nat := e]> (e' :: l)) with (e :: l). rewrite !used_cons, Hu, He. done.
  - change (<[S i := e]> (x :: l)) with (x :: <[i := e]> l).
    rewrite !used_cons. destruct (is_used x); [|by apply IH].
    rewrite (IH i Hl Hu He). constructor.
Qed.

Lemma used_clear l i e :
  l !! i = Some e → is_used e = true → used l ≡ₚ e :: used (<[i := entry_zero]> l).
Proof.
  intros Hl He. rewrite <-(list_insert_id l i e) at 1 by done.
  rewrite <-(list_insert_insert_eq l i e entry_zero).
  apply (used_insert _ _ _ entry_zero); [|done|done].
  apply list_lookup_insert_eq. by apply lookup_lt_Some in Hl.
Qed.

Lemma used_replace l i e e' :
  l !! i = Some e' → is_used e' = true → is_used e = true →
  used (<[i := e]> l) ≡ₚ e :: used (<[i := entry_zero]> l).
Proof.
  intros Hl Hu He. pose proof (lookup_lt_Some _ _ _ Hl).
  rewrite <-(list_insert_insert_eq l i e entry_zero).
  apply (used_insert _ _ _ entry_zero); [|done|done]. by apply list_lookup_insert_eq.
Qed.

Lemma used_length l : (length (used l) ≤ length l)%nat.
Proof. apply length_filter. Qed.

Lemma free_exists l :
  (∃ i, find_index (λ e, negb (is_used e)) l = Some i) ↔ (length (used l) < length l)%nat.
Proof.
  induction l as [|e l IH]; cbn [find_index length]; [split; [intros [? ?]; done|cbn; lia]|].
  rewrite used_cons. pose proof (used_length l). destruct (is_used e); cbn [negb length].
  - rewrite <-Nat.succ_lt_mono, <-IH. destruct (find_index _ l); cbn; split; intros [? ?]; by eauto.
  - split; [lia|]. by exists O.
Qed.

(** The map of a table that permutes to [e :: l]. *)
Lemma map_of_perm l l' e :
  used l ≡ₚ e :: used l' → NoDup (key <$> used l) →
  table l = <[key e := e]> (table l').
Proof.
  intros Hp Hn. unfold table.
  rewrite (list_to_map_proper _ ((λ e, (key e, e)) <$> e :: used l')); [done|..].
  - rewrite <-list_fmap_compose. done.
  - by rewrite Hp.
Qed.

Lemma table_lookup l e : NoDup (key <$> used l) → e ∈ used l → table l !! key e = Some e.
Proof.
  intros Hn He. unfold table. apply elem_of_list_to_map_1.
  - rewrite <-list_fmap_compose. done.
  - apply list_elem_of_fmap. by exists e.
Qed.

Lemma table_lookup_2 l k e : table l !! k = Some e → e ∈ used l ∧ key e = k.
Proof.
  intros H. apply elem_of_list_to_map_2 in H. apply list_elem_of_fmap in H as (e' & E & ?).
  injection E as -> ->. done.
Qed.

Lemma table_lookup_None l k : table l !! k = None ↔ k ∉ key <$> used l.
Proof.
  unfold table. rewrite <-not_elem_of_list_to_map, <-list_fmap_compose. done.
Qed.

Lemma table_size l : NoDup (key <$> used l) → size (table l) = length (used l).
Proof.
  intros Hn. unfold table. rewrite map_size_list_to_map.
  - apply length_fmap.
  - rewrite <-list_fmap_compose. done.
Qed.

Lemma find_key_None l n m :
  find_index (has_key n m) l = None ↔ table l !! (n, m) = None.
Proof.
  rewrite find_index_None, table_lookup_None, Forall_forall, list_elem_of_fmap. split.
  - intros H (e & Hk & He). apply list_elem_of_filter in He as [Hu He].
    specialize (H e He). assert (has_key n m e = true); [|congruence].
    by apply has_key_spec.
  - intros H e He. apply not_true_iff_false. intros Hk. apply has_key_spec in Hk as [Hu Hk].
    apply H. exists e. split; [done|]. by apply list_elem_of_filter.
Qed.

(** ** The invariant and the operations on entries *)

Definition base_ok (direct default : route_entry_t) : Prop :=
  is_used direct = true ∧ entry_ok direct ∧ 1 ≤ re_prefix_length direct ∧
  (is_used default = true → entry_ok default ∧ key default = (0, 0)).

Record route_inv (s : route_t) : Prop := RouteInv {
  ri_init : initialized s = true;
  ri_table : table_ok (route_entries s);
  ri_count : rs_entry_count (route_status s) = Z.of_nat (length (used (route_entries s)));
  ri_base : route_base_valid s ≠ 0 → base_ok (route_base_direct s) (route_base_default s)
}.

(** The counters other than [entry_count] and [last_error] do not matter. *)
Lemma route_inv_status s f :
  (∀ st, rs_initialized (f st) = rs_initialized st) →
  (∀ st, rs_entry_count (f st) = rs_entry_count st) →
  route_inv s → route_inv (s <| route_status ::= f |>).
Proof.
  intros Hi Hc [Hin Ht Hn Hb]. destruct s as [l d g st v].
  change (route_inv (Route l d g (f st) v)). unfold initialized in *. simpl in *.
  split; [unfold initialized|..]; simpl; [by rewrite Hi|done|by rewrite Hc|done].
Qed.

Lemma set_error_inv s e : route_inv s → route_inv (set_error s e).
Proof. by apply route_inv_status. Qed.

Lemma mask_prefix_u32 m p :
  is_u32 m → route_mask_prefix m = Some p → 0 ≤ p ≤ 32 ∧ m = 2 ^ 32 - 2 ^ (32 - p).
Proof. intros Hm. by apply mask_prefix_spec. Qed.

Lemma prepare_entry_ok e0 n m g id e :
  is_u32 n → is_u32 m → route_prepare_entry e0 n m g id = (e, OK) →
  entry_ok e ∧ is_used e = true ∧ key e = (n, m) ∧ re_gateway e = g ∧ Some (re_interface_id e) = id.
Proof.
  intros Hn Hm H. unfold route_prepare_entry in H. destruct id as [id|]; [|done].
  destruct (route_mask_prefix m) as [p|] eqn:Hp; [|done].
  apply mask_prefix_u32 in Hp as [Hp Em]; [|done].
  destruct (Z.eqb_spec n (n &w m)) as [En|]; [|done]. cbn -[Z.pow route_copy_text] in H.
  destruct (negb (g =? 0) && negb (ipv4_address_is_unicast g)) eqn:Hg; [done|].
  unfold route_copy_text in H. destruct (Z.leb_spec IPV4_INTERFACE_ID_SIZE (len id)); [done|].
  destruct (Z.eqb_spec (len id) 0); [done|]. cbn -[Z.pow] in H. injection H as <-.
  pose proof (len_nonneg id). rewrite Em, land_mask in En by (done || lia).
  assert (g = 0 ∨ ipv4_address_is_unicast g = true).
  { destruct (Z.eqb_spec g 0); [by left|right]. by destruct (ipv4_address_is_unicast g). }
  split; [|done]. change (entry_ok (RouteEntry 1 p n m g id)).
  split; cbn [re_prefix_length re_subnet_mask re_network re_interface_id re_gateway]; done || lia.
Qed.

Definition with_entries (s : route_t) (l : list route_entry_t) (n : Z) : route_t :=
  s <| route_entries := l |> <| route_status ::= set rs_entry_count (λ _, n) |>.

Lemma route_inv_entries s l :
  route_inv s → table_ok l → route_inv (with_entries s l (Z.of_nat (length (used l)))).
Proof. intros [Hi _ _ Hb] Hl. destruct s as [? ? ? [] ?]. by split. Qed.

Lemma table_ok_perm l l' e :
  length l' = length l → used l' ≡ₚ e :: used l → table_ok l → entry_ok e →
  table l !! key e = None → table_ok l' ∧ table l' = <[key e := e]> (table l).
Proof.
  intros Hl Hp [Hn He Hk] Ho Hf. assert (NoDup (key <$> used l')) as Hk'.
  { rewrite Hp. cbn. apply NoDup_cons. split; [|done]. by apply table_lookup_None. }
  split; [|by apply map_of_perm]. split; [congruence| |done].
  rewrite Hp. by constructor.
Qed.

(** Insertion into the first free slot, full table included. *)
Lemma insert_spec s e :
  route_inv s → entry_ok e → is_used e = true → table (route_entries s) !! key e = None →
  if 16 <=? Z.of_nat (size (table (route_entries s)))
  then route_insert s e = (s, ERR_OVERFLOW)
  else ∃ l, route_insert s e = (with_entries s l (Z.of_nat (length (used l))), OK) ∧
    table_ok l ∧ table l = <[key e := e]> (table (route_entries s)).
Proof.
  intros Hs He Hu Hk. destruct Hs as [Hi Ht Hc Hb]. pose proof (to_length _ Ht) as Hlen.
  rewrite table_size by apply Ht. unfold route_insert, route_find_free.
  pose proof (free_exists (route_entries s)) as Hfree. rewrite Hlen in Hfree.
  change (Z.to_nat ROUTE_TABLE_CAPACITY) with 16%nat in *.
  destruct (find_index _ _) as [i|] eqn:Hf.
  - assert (length (used (route_entries s)) < 16)%nat by (apply Hfree; eauto).
    destruct (Z.leb_spec 16 (Z.of_nat (length (used (route_entries s))))); [lia|].
    apply find_index_Some in Hf as (e' & Hl & He'). apply negb_true_iff in He'.
    pose proof (used_insert _ _ e _ Hl He' Hu) as Hp. exists (<[i := e]> (route_entries s)).
    split.
    + rewrite Hp. destruct s as [? ? ? [] ?]. cbn [route_entries route_status rs_entry_count] in *. unfold with_entries, set; simpl.
      rewrite Hc, u8_small by lia. do 3 f_equal. lia.
    + apply table_ok_perm; try done. apply length_insert.
  - destruct (Z.leb_spec 16 (Z.of_nat (length (used (route_entries s))))); [done|].
    destruct Hfree as [_ Hfree]. destruct Hfree; [lia|done].
Qed.

Lemma clear_spec s i e :
  route_inv s → route_entries s !! i = Some e → is_used e = true →
  let l := <[i := entry_zero]> (route_entries s) in
  table_ok l ∧ table l = delete (key e) (table (route_entries s)) ∧
  Z.of_nat (length (used l)) = rs_entry_count (route_status s) - 1.
Proof.
  intros [_ [Hn He Hk] Hc _] Hl Hu l. pose proof (used_clear _ _ _ Hl Hu) as Hp. fold l in Hp.
  assert (NoDup (key <$> e :: used l)) as Hk' by (by rewrite <-Hp).
  cbn in Hk'. apply NoDup_cons in Hk' as [Hni Hk'].
  split; [|split].
  - split; [by rewrite <-Hn; apply length_insert| |done].
    rewrite Hp in He. by apply Forall_cons in He as [_ ?].
  - rewrite (map_of_perm _ l e Hp Hk), delete_insert_id; [done|]. by apply table_lookup_None.
  - rewrite Hc, Hp. cbn. lia.
Qed.

Lemma replace_spec s i e e' :
  route_inv s → route_entries s !! i = Some e' → is_used e' = true → key e' = key e →
  entry_ok e → is_used e = true →
  let l := <[i := e]> (route_entries s) in
  table_ok l ∧ table l = <[key e := e]> (table (route_entries s)) ∧
  Z.of_nat (length (used l)) = rs_entry_count (route_status s).
Proof.
  intros Hs Hl Hu Hk Ho Hue l. pose proof (used_replace _ _ e _ Hl Hu Hue) as Hp. fold l in Hp.
  destruct (clear_spec s i e' Hs Hl Hu) as (Ht & Hm & Hc). set (l0 := <[i := entry_zero]> _) in *.
  assert (length l = length l0) as Hlen by (unfold l, l0; by rewrite !length_insert).
  assert (table l0 !! key e = None) by (rewrite Hm, Hk; apply lookup_delete_eq).
  destruct (table_ok_perm l0 l e Hlen Hp Ht Ho) as [? E]; [done|].
  split; [done|]. split; [|rewrite Hp; cbn; lia].
  rewrite E, Hm, Hk. apply insert_delete_eq.
Qed.

(** ** The specification: a finite map and the base routes *)

Record rib := Rib {
  rib_table : gmap (Z * Z) route_entry_t;
  rib_base : option (route_entry_t * option route_entry_t)
}.

Definition abs (s : route_t) : rib :=
  Rib (table (route_entries s))
    (if route_base_valid s =? 0 then None
     else Some (route_base_direct s,
       if is_used (route_base_default s) then Some (route_base_default s) else None)).

(** What a valid request describes. *)
Definition entry_for (n m g : Z) (id : option (list Z)) : route_entry_t + status :=
  let '(e, r) := route_prepare_entry entry_zero n m g id in
  if is_ok r then inl e else inr r.

Definition rib_insert (r : rib) (e : route_entry_t) : rib * status :=
  if 16 <=? Z.of_nat (size (rib_table r)) then (r, ERR_OVERFLOW)
  else (Rib (<[key e := e]> (rib_table r)) (rib_base r), OK).

Definition rib_add (r : rib) (n m g : Z) (id : option (list Z)) : rib * status :=
  match entry_for n m g id with
  | inr err => (r, err)
  | inl e => if rib_table r !! (n, m) is Some _ then (r, ERR_STATE) else rib_insert r e
  end.

Definition rib_delete (r : rib) (n m : Z) : rib * status :=
  match route_mask_prefix m with
  | None => (r, ERR_INVALID)
  | Some p =>
      if negb (n mod 2 ^ (32 - p) =? 0) then (r, ERR_INVALID)
      else if rib_table r !! (n, m) is Some _ then (Rib (delete (n, m) (rib_table r)) (rib_base r), OK)
      else (r, ERR_NOT_FOUND)
  end.

Definition rib_set_default (r : rib) (g : Z) (id : option (list Z)) : rib * status :=
  if g =? 0 then (r, ERR_INVALID) else
  match entry_for 0 0 g id with
  | inr err => (r, err)
  | inl e =>
      if rib_table r !! (0, 0) is Some _ then (Rib (<[key e := e]> (rib_table r)) (rib_base r), OK)
      else rib_insert r e
  end.

Definition base_table (b : route_entry_t * option route_entry_t) : gmap (Z * Z) route_entry_t :=
  match b.2 with
  | Some f => <[key f := f]> {[ key b.1 := b.1 ]}
  | None => {[ key b.1 := b.1 ]}
  end.

Definition rib_reset (r : rib) : rib * status :=
  match rib_base r with
  | None => (Rib ∅ None, ERR_STATE)
  | Some b => (Rib (base_table b) (Some b), OK)
  end.

(** A host address of the block of [2 ^ q] addresses at [n]. *)
Definition is_host (n q a : Z) : bool := (n <? a) && (a <? n + 2 ^ q - 1).

Definition rib_set_base (r : rib) (ip m g : Z) (id : option (list Z)) : rib * status :=
  if id is None then (r, ERR_NULL) else
  match route_mask_prefix m with
  | None => (r, ERR_INVALID)
  | Some p =>
      let q := 32 - p in
      let n := ip - ip mod 2 ^ q in
      if (1 <=? p) && (p <=? 30) && ipv4_address_is_unicast ip && is_host n q ip
         && ((g =? 0) || ipv4_address_is_unicast g && is_host n q g && negb (g =? ip))
      then
        let direct := RouteEntry 1 p n m 0 (default [] id) in
        let default := RouteEntry 1 0 0 0 g (default [] id) in
        let b := (direct, if g =? 0 then None else Some default) in
        (Rib (base_table b) (Some b), OK)
      else (r, ERR_INVALID)
  end.

Definition rib_covering (r : rib) (d : Z) : gmap (Z * Z) route_entry_t :=
  filter (λ kv, covers kv.2 d) (rib_table r).

Lemma abs_status s f : abs (s <| route_status ::= f |>) = abs s.
Proof. by destruct s. Qed.
Lemma abs_error s e : abs (set_error s e) = abs s.
Proof. apply abs_status. Qed.
Lemma abs_entries s l n : abs (with_entries s l n) = Rib (table l) (rib_base (abs s)).
Proof. by destruct s. Qed.

(** What every operation is shown to do: keep the invariant and refine [spec]. *)
Definition refines (spec : rib * status) (out : route_t * status) : Prop :=
  route_inv out.1 ∧ (abs out.1, out.2) = spec.

Lemma refines_error s e : route_inv s → refines (abs s, e) (set_error s e, e).
Proof. intros Hs. split; cbn; [by apply set_error_inv|by rewrite abs_error]. Qed.

Lemma refines_same s e : route_inv s → refines (abs s, e) (s, e).
Proof. by split. Qed.

(** The common end of an insertion: count it and record the result. *)
Lemma refines_insert s e :
  route_inv s → entry_ok e → is_used e = true → table (route_entries s) !! key e = None →
  refines (rib_insert (abs s) e)
    (let '(s, result) := route_insert s e in
     if negb (is_ok result) then (set_error s result, result) else
     let s := s <| route_status ::= set rs_adds (λ n, n +w 1) |> in
     (set_error s OK, OK)).
Proof.
  intros Hs He Hu Hk. pose proof (insert_spec s e Hs He Hu Hk) as Hi. unfold rib_insert.
  change (rib_table (abs s)) with (table (route_entries s)).
  destruct (16 <=? _); [rewrite Hi; by apply refines_error|].
  destruct Hi as (l & -> & Hl & Ht). split; cbn [fst snd negb is_ok].
  - by apply set_error_inv, route_inv_status, route_inv_entries.
  - rewrite abs_error, abs_status, abs_entries, Ht. done.
Qed.

Lemma find_key_Some s n m i :
  route_find s n m = Some i →
  ∃ e, route_entries s !! i = Some e ∧ is_used e = true ∧ key e = (n, m).
Proof.
  intros H. apply find_index_Some in H as (e & Hl & Hk). apply has_key_spec in Hk as [? ?]. eauto.
Qed.

Lemma table_find s n m i :
  route_inv s → route_find s n m = Some i → ∃ e, table (route_entries s) !! (n, m) = Some e.
Proof.
  intros Hs H. apply find_key_Some in H as (e & Hl & Hu & Hk). exists e. rewrite <-Hk.
  apply table_lookup; [apply Hs|]. apply list_elem_of_filter. split; [done|].
  by apply list_elem_of_lookup_2 in Hl.
Qed.

Lemma add_refines s n m g id :
  route_inv s → is_u32 n → is_u32 m → refines (rib_add (abs s) n m g id) (route_add s n m g id).
Proof.
  intros Hs Hn Hm. unfold route_add, rib_add, entry_for. rewrite (ri_init s Hs); cbn [negb].
  destruct (route_prepare_entry entry_zero n m g id) as [e r] eqn:He.
  destruct r; cbn [is_ok negb]; try by apply refines_error.
  apply prepare_entry_ok in He as (He & Hu & Hk & _); [|done..].
  destruct (route_find s n m) as [i|] eqn:Hf.
  - destruct (table_find s n m i Hs Hf) as [e' Et]. cbn [rib_table abs]. rewrite Et.
    by apply refines_error.
  - apply find_key_None in Hf. cbn [rib_table abs]. rewrite Hf. rewrite <-Hk in Hf.
    by apply refines_insert.
Qed.

Lemma delete_refines s n m :
  route_inv s → is_u32 n → is_u32 m → refines (rib_delete (abs s) n m) (route_delete s n m).
Proof.
  intros Hs Hn Hm. unfold route_delete, rib_delete. rewrite (ri_init s Hs); cbn [negb].
  destruct (route_mask_prefix m) as [p|] eqn:Hp; [|rewrite bool_decide_eq_false_2 by
    (by intros [? ?]); by apply refines_same].
  rewrite bool_decide_eq_true_2 by eauto. cbn [negb orb].
  apply mask_prefix_u32 in Hp as [Hp Em]; [|done].
  assert ((n =? n &w m) = (n mod 2 ^ (32 - p) =? 0)) as ->
    by (rewrite Em, land_mask by (done || lia); lia).
  destruct (n mod 2 ^ (32 - p) =? 0); cbn [negb]; [|by apply refines_same].
  destruct (route_find s n m) as [i|] eqn:Hf; cbn [rib_table abs].
  - destruct (table_find s n m i Hs Hf) as [e' ->].
    apply find_key_Some in Hf as (e & Hl & Hu & Hk).
    destruct (clear_spec s i e Hs Hl Hu) as (Ht & Hm' & Hc). rewrite Hk in Hm'.
    set (l := <[i := entry_zero]> (route_entries s)) in *.
    assert (0 ≤ rs_entry_count (route_status s) - 1 ≤ 16) as Hr.
    { pose proof (used_length l) as Hlen. rewrite (to_length _ Ht) in Hlen.
      change (Z.to_nat ROUTE_TABLE_CAPACITY) with 16%nat in Hlen. lia. }
    assert ((rs_entry_count (route_status (s <| route_entries := l |>)) =? 0) = false) as Hz.
    { change (route_status (s <| route_entries := l |>)) with (route_status s). lia. }
    assert (s <| route_entries := l |> <| route_status ::= set rs_entry_count (λ n, u8 (n - 1)) |>
      = with_entries s l (Z.of_nat (length (used l)))) as E.
    { rewrite Hc. destruct s as [? ? ? [] ?]. unfold with_entries, set. simpl in *.
      rewrite u8_small by lia. done. }
    change (s <| route_entries ::= _ |>) with (s <| route_entries := l |>).
    rewrite Hz, E. split; cbn [fst snd negb].
    + by apply set_error_inv, route_inv_status, route_inv_entries.
    + rewrite abs_error, abs_status, abs_entries, Hm'. done.
  - apply find_key_None in Hf. rewrite Hf. by apply refines_error.
Qed.

Lemma set_default_refines s g id :
  route_inv s → refines (rib_set_default (abs s) g id) (route_set_default s g id).
Proof.
  intros Hs. unfold route_set_default, rib_set_default, entry_for.
  destruct (g =? 0); [by apply refines_same|].
  destruct (route_prepare_entry entry_zero 0 0 g id) as [e r] eqn:He.
  destruct r; cbn [is_ok negb]; try by apply refines_same.
  rewrite (ri_init s Hs); cbn [negb].
  apply prepare_entry_ok in He as (He & Hu & Hk & _); [|unfold is_u32; lia..].
  destruct (route_find s 0 0) as [i|] eqn:Hf; cbn [rib_table abs].
  - destruct (table_find s 0 0 i Hs Hf) as [e'' ->].
    apply find_key_Some in Hf as (e' & Hl & Hu' & Hk').
    destruct (replace_spec s i e e' Hs Hl Hu') as (Ht & Hm & Hc); try congruence.
    set (l := <[i := e]> (route_entries s)) in *.
    assert (s <| route_entries ::= λ l, <[i := e]> l |>
      = with_entries s l (Z.of_nat (length (used l)))) as ->.
    { rewrite Hc. by destruct s as [? ? ? [] ?]. }
    split; cbn [fst snd].
    + by apply set_error_inv, route_inv_status, route_inv_entries.
    + rewrite abs_error, abs_status, abs_entries, Hm. done.
  - apply find_key_None in Hf. rewrite Hf. rewrite <-Hk in Hf. by apply refines_insert.
Qed.

Lemma used_zero : used entries_zero = [].
Proof. reflexivity. Qed.

Lemma clear_entries_inv s :
  initialized s = true →
  (route_base_valid s ≠ 0 → base_ok (route_base_direct s) (route_base_default s)) →
  route_inv (route_clear_entries s).
Proof.
  intros Hi Hb. destruct s as [? ? ? [] ?]. split; try done. split; try done; constructor.
Qed.

Lemma base_key_ne d f : base_ok d f → is_used f = true → key f ≠ key d.
Proof.
  intros (_ & [Hp Hm _ _ _ _] & Hp1 & Hf) Hu Hk. destruct (Hf Hu) as [_ Hk0].
  rewrite Hk0 in Hk. injection Hk as _ Hk. rewrite Hm in Hk.
  assert (2 ^ (32 - re_prefix_length d) < 2 ^ 32) by (apply Z.pow_lt_mono_r; lia). lia.
Qed.

Lemma reset_refines s :
  initialized s = true →
  (route_base_valid s ≠ 0 → base_ok (route_base_direct s) (route_base_default s)) →
  refines (rib_reset (abs s)) (route_reset s).
Proof.
  intros Hi Hb. unfold route_reset. rewrite Hi; cbn [negb].
  pose proof (clear_entries_inv s Hi Hb) as Hs. remember (route_clear_entries s) as c eqn:Ec.
  assert (route_entries c = entries_zero ∧ route_base_valid c = route_base_valid s ∧
    route_base_direct c = route_base_direct s ∧ route_base_default c = route_base_default s)
    as (Ee & Ev & Ed & Ef) by (by subst c). clear Ec.
  assert (rib_reset (abs s) = rib_reset (abs c)) as ->
    by (unfold rib_reset, abs; by rewrite Ev, Ed, Ef).
  rewrite <-Ev, <-Ed, <-Ef in Hb. clear Ev Ed Ef Hi s.
  unfold rib_reset. cbn [rib_base abs].
  destruct (Z.eqb_spec (route_base_valid c) 0) as [E0|E0].
  { split; cbn [fst snd]; [by apply set_error_inv|]. rewrite abs_error. unfold abs.
    by rewrite E0, Ee. }
  destruct (Hb E0) as (Hu & Ho & Hp & Hf).
  pose proof (insert_spec c (route_base_direct c) Hs Ho Hu) as H1. rewrite Ee in H1.
  destruct H1 as (l & E1 & Hl & Tl); [done|]. rewrite E1. cbn [is_ok andb].
  set (c1 := with_entries c l _). assert (route_inv c1) as Hs1 by (by apply route_inv_entries).
  change (route_base_default c1) with (route_base_default c).
  assert (rib_base (abs c1) = rib_base (abs c)) as Eb by done.
  unfold abs in Eb at 2. cbn [rib_base] in Eb. rewrite (proj2 (Z.eqb_neq _ _) E0) in Eb.
  assert (abs c1 = Rib {[key (route_base_direct c) := route_base_direct c]} (rib_base (abs c1)))
    as Ea by (unfold c1; rewrite abs_entries, Tl; done).
  destruct (is_used (route_base_default c)) eqn:Hd.
  - assert (table (route_entries c1) !! key (route_base_default c) = None) as Hk.
    { change (route_entries c1) with l. rewrite Tl. rewrite lookup_insert_ne; [done|].
      by apply not_eq_sym, base_key_ne; [apply Hb|]. }
    pose proof (insert_spec c1 _ Hs1 (proj1 (Hf eq_refl)) Hd Hk) as H2.
    change (route_entries c1) with l in H2 at 1. rewrite Tl in H2.
    rewrite map_size_insert_None in H2 by done.
    destruct H2 as (l2 & E2 & Hl2 & Tl2). rewrite E2. cbn [is_ok negb].
    split; cbn [fst snd]; [by apply set_error_inv, route_inv_entries|].
    rewrite abs_error, abs_entries, Tl2, Eb. change (route_entries c1) with l. by rewrite Tl.
  - cbn [is_ok negb]. split; cbn [fst snd]; [by apply set_error_inv|].
    rewrite abs_error, Ea, Eb. done.
Qed.

(** [route_set_base] with an interface identifier that fits. *)
Definition id_fits (id : option (list Z)) : Prop :=
  match id with Some i => 0 < len i < IPV4_INTERFACE_ID_SIZE | None => True end.

Lemma prepare_entry_fits e0 n m g i p :
  route_mask_prefix m = Some p → n = n &w m →
  g = 0 ∨ ipv4_address_is_unicast g = true → 0 < len i < IPV4_INTERFACE_ID_SIZE →
  route_prepare_entry e0 n m g (Some i) = (RouteEntry 1 p n m g i, OK).
Proof.
  intros Hp Hn Hg Hi. unfold route_prepare_entry. rewrite Hp, <-Hn, Z.eqb_refl.
  assert (negb (g =? 0) && negb (ipv4_address_is_unicast g) = false) as ->
    by (destruct Hg as [-> | ->]; [done|by rewrite andb_false_r]).
  unfold route_copy_text. destruct (Z.leb_spec IPV4_INTERFACE_ID_SIZE (len i)); [lia|].
  destruct (Z.eqb_spec (len i) 0); [lia|]. done.
Qed.

(** The argument checks of [route_set_base] in terms of the address block. *)
Lemma base_args_spec ip m g p :
  is_u32 ip → is_u32 m → is_u32 g → route_mask_prefix m = Some p →
  let q := 32 - p in
  let n := ip - ip mod 2 ^ q in
  let b := n |w ~w m in
  ip &w m = n ∧
  ((ip =? n) || (ip =? b)
   || (negb (g =? 0) && (negb (ipv4_address_is_unicast g) || negb (g &w m =? n)
         || (g =? ip) || (g =? n) || (g =? b)))) =
  negb (is_host n q ip
    && ((g =? 0) || ipv4_address_is_unicast g && is_host n q g && negb (g =? ip))).
Proof.
  intros Hip Hm Hg Hp q n b. apply mask_prefix_u32 in Hp as [Hp Em]; [|done]. fold q in Em.
  assert (0 ≤ q ≤ 32) as Hq by lia. pose proof (pow_le_32 q Hq).
  pose proof (Z.mod_pos_bound ip (2 ^ q)). pose proof (Z.mod_pos_bound g (2 ^ q)).
  pose proof (Z.div_mod ip (2 ^ q)) as Dip. pose proof (Z.div_mod g (2 ^ q)) as Dg.
  assert (n mod 2 ^ q = 0) as Hn.
  { replace n with (ip / 2 ^ q * 2 ^ q) by lia. by apply Z.mod_mul; lia. }
  assert (b = n + 2 ^ q - 1) as Eb by (unfold b; rewrite Em; by apply lor_host_bits).
  rewrite Em, !land_mask by done. split; [done|]. rewrite Eb. unfold is_host.
  assert ((g - g mod 2 ^ q =? n) = ((n <=? g) && (g <=? n + 2 ^ q - 1))) as ->.
  { apply eq_true_iff_eq. rewrite Z.eqb_eq, andb_true_iff, !Z.leb_le. split; [lia|].
    intros [? ?]. assert (g / 2 ^ q = ip / 2 ^ q) by nia. lia. }
  destruct (ipv4_address_is_unicast g), (Z.eqb_spec g 0); lia.
Qed.

Lemma set_base_refines s ip m g id :
  route_inv s → is_u32 ip → is_u32 m → is_u32 g → id_fits id →
  refines (rib_set_base (abs s) ip m g id) (route_set_base s ip m g id).
Proof.
  intros Hs Hip Hm Hg Hid. unfold route_set_base, rib_set_base. rewrite (ri_init s Hs); cbn [negb].
  destruct id as [i|]; [|by apply refines_same].
  unfold ipv4_mask_is_valid. fold (route_mask_prefix m).
  destruct (route_mask_prefix m) as [p|] eqn:Hp; [|rewrite orb_true_r; by apply refines_same].
  destruct (base_args_spec ip m g p Hip Hm Hg Hp) as [Hn Hargs].
  rewrite Hn. cbn zeta in Hargs |- *. rewrite Hargs.
  set (n := ip - ip mod 2 ^ (32 - p)) in *. set (q := 32 - p) in *.
  destruct (ipv4_address_is_unicast ip); [|rewrite !andb_false_r; by apply refines_same].
  assert ((p >=? 1) && (p <=? 30) = (1 <=? p) && (p <=? 30)) as -> by lia.
  rewrite andb_true_r.
  destruct ((1 <=? p) && (p <=? 30)) eqn:Hr; cbn [negb orb andb]; [|by apply refines_same].
  destruct (is_host n q ip && _) eqn:Hc; cbn [negb]; [|by apply refines_same].
  assert (n = n &w m) as Hnn by (rewrite <-Hn, <-Z.land_assoc, Z.land_diag; done).
  assert (g = 0 ∨ ipv4_address_is_unicast g = true) as Hg'.
  { destruct (Z.eqb_spec g 0); [by left|right]. by destruct (ipv4_address_is_unicast g), (is_host n q ip). }
  rewrite (prepare_entry_fits _ n m 0 i p) by (done || by left). cbn [is_ok negb].
  set (d := RouteEntry 1 p n m 0 i). set (f := RouteEntry 1 0 0 0 g i).
  assert (base_ok d f) as Hb.
  { assert (is_u32 n) as Hun.
    { unfold is_u32 in *. pose proof (pow_le_32 q). pose proof (Z.mod_pos_bound ip (2 ^ q)).
      pose proof (Z.mod_le ip (2 ^ q)). unfold n. fold q. lia. }
    destruct (prepare_entry_ok entry_zero n m 0 (Some i) d) as (Hd & _); try done.
    { apply prepare_entry_fits; (done || by left). }
    destruct (prepare_entry_ok entry_zero 0 0 g (Some i) f) as (Hf & _); try (unfold is_u32; lia).
    { by apply prepare_entry_fits. }
    split; [done|]. split; [done|]. split; [cbn; lia|]. done. }
  destruct (Z.eqb_spec g 0) as [E|E]; cbn [negb is_ok].
  - set (s1 := set route_base_valid _ _).
    change (refines (rib_reset (abs s1)) (route_reset s1)).
    apply reset_refines; [apply (ri_init s Hs)|]. intros _. destruct Hb as (? & ? & ? & _). done.
  - rewrite (prepare_entry_fits _ 0 0 g i 0) by done. cbn [negb is_ok].
    set (s1 := set route_base_valid _ _).
    change (refines (rib_reset (abs s1)) (route_reset s1)).
    apply reset_refines; [apply (ri_init s Hs)|]. done.
Qed.

(** ** Lookup, validation and the self test *)

Lemma lookup_step_spec d acc x :
  match lookup_step d acc x with
  | None => acc = None ∧ entry_matches d x = false
  | Some b =>
      (acc = Some b ∨ b = x ∧ entry_matches d b = true) ∧
      ∀ e, acc = Some e ∨ e = x ∧ entry_matches d e = true →
        re_prefix_length e ≤ re_prefix_length b
  end.
Proof.
  unfold lookup_step. destruct (entry_matches d x) eqn:Hx; cbn [negb].
  - destruct acc as [a|]; [destruct (Z.gtb_spec (re_prefix_length x) (re_prefix_length a))|].
    all: split; [tauto|]; intros e [[= <-]|[-> _]]; lia.
  - destruct acc as [a|]; [|done]. split; [by left|].
    intros e [[= <-]|[-> ?]]; [lia|congruence].
Qed.

Lemma lookup_fold d l acc :
  match foldl (lookup_step d) acc l with
  | None => acc = None ∧ ∀ e, e ∈ l → entry_matches d e = false
  | Some b =>
      (acc = Some b ∨ b ∈ l ∧ entry_matches d b = true) ∧
      ∀ e, acc = Some e ∨ e ∈ l ∧ entry_matches d e = true →
        re_prefix_length e ≤ re_prefix_length b
  end.
Proof.
  revert acc. induction l as [|x l IH]; intros acc; cbn.
  { destruct acc as [b|]; [|split; [done|by intros ? ?%elem_of_nil]].
    split; [by left|]. intros e [[= ->]|[[]%elem_of_nil _]]. lia. }
  specialize (IH (lookup_step d acc x)). pose proof (lookup_step_spec d acc x) as Hx.
  destruct (foldl (lookup_step d) _ l) as [b|].
  - destruct IH as [H1 H2]. destruct (lookup_step d acc x) as [y|].
    + destruct Hx as [Hx1 Hx2]. pose proof (H2 y (or_introl eq_refl)). split.
      * destruct H1 as [[= <-]|[? ?]]; [|right; split; [in_list|done]].
        destruct Hx1 as [?|[-> ?]]; [by left|right; split; [in_list|done]].
      * intros e [He|[[-> |He]%elem_of_cons Hm]]; [| |by apply H2; right].
        -- specialize (Hx2 e (or_introl He)). lia.
        -- specialize (Hx2 x (or_intror (conj eq_refl Hm))). lia.
    + destruct Hx as [-> Hx]. split; [destruct H1 as [|[? ?]]; [done|right; split; [in_list|done]]|].
      intros e [?|[[-> |He]%elem_of_cons Hm]]; [done|congruence|by apply H2; right].
  - destruct IH as [E IH]. rewrite E in Hx. destruct Hx as [? ?]. split; [done|].
    intros e [-> |?]%elem_of_cons; auto.
Qed.

Lemma entries_used s e : e ∈ route_entries s → is_used e = true → e ∈ used (route_entries s).
Proof. intros. by apply list_elem_of_filter. Qed.

Lemma matching_table s d e :
  route_inv s → is_u32 d → e ∈ route_entries s ∧ entry_matches d e = true ↔
  table (route_entries s) !! key e = Some e ∧ covers e d.
Proof.
  intros [_ [_ Ho Hk] _ _] Hd. rewrite Forall_forall in Ho. split.
  - intros [Hin Hm]. assert (is_used e = true) as Hu by (by apply andb_true_iff in Hm as [? _]).
    pose proof (entries_used s e Hin Hu) as He.
    split; [by apply table_lookup|]. by apply entry_matches_covers; [apply Ho| |].
  - intros [Ht Hc]. apply table_lookup_2 in Ht as [He _].
    pose proof He as [Hu Hin]%list_elem_of_filter. split; [done|].
    apply entry_matches_covers; auto.
Qed.

(** The first part of [route_lookup]'s result: the state only counts. *)
Lemma lookup_state s d :
  route_inv s → route_inv (route_lookup s d).1.1 ∧ abs (route_lookup s d).1.1 = abs s.
Proof.
  intros Hs. unfold route_lookup. rewrite (ri_init s Hs). cbn [negb].
  assert (route_inv (s <| route_status ::= set rs_lookups (λ n, n +w 1) |>))
    by by apply route_inv_status.
  destruct (foldl _ _ _); cbn [fst]; rewrite abs_error, !abs_status;
    by split; [apply set_error_inv, route_inv_status|].
Qed.

Lemma validate_loop_ok l c :
  Forall entry_ok (used l) → NoDup (key <$> used l) → 0 ≤ c → c + Z.of_nat (length l) < 2 ^ 32 →
  validate_loop l c = Some (c + Z.of_nat (length (used l))).
Proof.
  revert c. induction l as [|e l IH]; intros c Ho Hk Hc Hl; [cbn; f_equal; lia|].
  cbn [validate_loop length] in *. rewrite used_cons in *. destruct (is_used e) eqn:Hu; cbn [negb].
  - apply Forall_cons in Ho as [He Ho]. cbn in Hk. apply NoDup_cons in Hk as [Hn Hk].
    rewrite entry_consistent by done. cbn [negb].
    assert (existsb (has_key (re_network e) (re_subnet_mask e)) l = false) as ->.
    { apply not_true_iff_false. intros (e' & Hin & [? ?]%has_key_spec)%existsb_exists.
      apply Hn, list_elem_of_fmap. exists e'. split; [done|].
      apply list_elem_of_filter. by split; [|apply list_elem_of_In]. }
    rewrite u32_small, IH by (done || lia). cbn [length]. f_equal. lia.
  - apply IH; (done || lia).
Qed.

Lemma validate_ok s : route_inv s → route_validate_state s = OK.
Proof.
  intros [Hi [Hl Ho Hk] Hc Hb]. unfold route_validate_state. rewrite Hi; cbn [negb].
  pose proof (used_length (route_entries s)) as Hu. rewrite Hl in Hu.
  change (Z.to_nat ROUTE_TABLE_CAPACITY) with 16%nat in *.
  rewrite validate_loop_ok by (done || lia). rewrite Z.add_0_l, <-Hc, Z.eqb_refl. cbn [negb orb].
  unfold ROUTE_TABLE_CAPACITY. destruct (Z.gtb_spec (rs_entry_count (route_status s)) 16); [lia|done].
Qed.

Definition all_passed : route_self_test_result_t :=
  SelfTest true true true true true true true true true true 10 0.

Lemma self_test_ok s : initialized s = true → route_self_test s = (s, Some all_passed, OK).
Proof.
  destruct s as [l d f [[|p|p] c n1 n2 n3 n4 n5 n6 e] v]; intros Hi; [done| |];
    vm_compute; reflexivity.
Qed.

(** ** Sequences of calls *)

Inductive route_op :=
| RInit | RReset | RClear
| RSetBase (ip m g : Z) (id : option (list Z))
| RAdd (n m g : Z) (id : option (list Z))
| RDelete (n m : Z)
| RSetDefault (g : Z) (id : option (list Z))
| RLookup (d : Z)
| RSelfTest.

Definition exec (op : route_op) (s : route_t) : route_t * status :=
  match op with
  | RInit => route_init s
  | RReset => route_reset s
  | RClear => route_clear s
  | RSetBase ip m g id => route_set_base s ip m g id
  | RAdd n m g id => route_add s n m g id
  | RDelete n m => route_delete s n m
  | RSetDefault g id => route_set_default s g id
  | RLookup d => let '(s, _, r) := route_lookup s d in (s, r)
  | RSelfTest => let '(s, _, r) := route_self_test s in (s, r)
  end.

Definition rib_exec (op : route_op) (r : rib) : rib * status :=
  match op with
  | RInit => (r, OK)
  | RReset => rib_reset r
  | RClear => (Rib ∅ None, OK)
  | RSetBase ip m g id => rib_set_base r ip m g id
  | RAdd n m g id => rib_add r n m g id
  | RDelete n m => rib_delete r n m
  | RSetDefault g id => rib_set_default r g id
  | RLookup d => (r, if bool_decide (rib_covering r d = ∅) then ERR_NOT_FOUND else OK)
  | RSelfTest => (r, OK)
  end.

(** Arguments are 32-bit, and a base configuration names an interface. *)
Definition op_ok (op : route_op) : Prop :=
  match op with
  | RSetBase ip m g id => is_u32 ip ∧ is_u32 m ∧ is_u32 g ∧ id_fits id
  | RAdd n m g id => is_u32 n ∧ is_u32 m
  | RDelete n m => is_u32 n ∧ is_u32 m
  | RLookup d => is_u32 d
  | _ => True
  end.

Definition exec_all (ops : list route_op) (s : route_t) : route_t :=
  foldl (λ s op, (exec op s).1) s ops.
Definition rib_exec_all (ops : list route_op) (r : rib) : rib :=
  foldl (λ r op, (rib_exec op r).1) r ops.

Lemma lookup_status s d :
  route_inv s → is_u32 d →
  (route_lookup s d).2 = if bool_decide (rib_covering (abs s) d = ∅) then ERR_NOT_FOUND else OK.
Proof.
  intros Hs Hd. unfold route_lookup. rewrite (ri_init s Hs). cbn [negb].
  change (route_entries (s <| route_status ::= _ |>)) with (route_entries s).
  pose proof (lookup_fold d (route_entries s) None) as Hf.
  destruct (foldl _ _ _) as [b|]; cbn [snd].
  - destruct Hf as [[?|Hb] _]; [done|]. apply (matching_table s d b Hs Hd) in Hb as [Ht Hc].
    rewrite bool_decide_eq_false_2; [done|]. intros E.
    assert (rib_covering (abs s) d !! key b = Some b) as Hl; [|by rewrite E in Hl].
    by apply map_lookup_filter_Some.
  - destruct Hf as [_ Hf]. rewrite bool_decide_eq_true_2; [done|].
    apply map_empty. intros k. destruct (rib_covering (abs s) d !! k) as [e|] eqn:He; [|done].
    apply map_lookup_filter_Some in He as [Ht Hc]. cbn in Hc.
    pose proof Ht as [_ Hk]%table_lookup_2. rewrite <-Hk in Ht.
    destruct (proj2 (matching_table s d e Hs Hd) (conj Ht Hc)) as [Hin Hm].
    rewrite (Hf e Hin) in Hm. done.
Qed.

Lemma exec_refines op s :
  route_inv s → op_ok op → refines (rib_exec op (abs s)) (exec op s).
Proof.
  intros Hs Hop. destruct op as [| | |ip m g id|n m g id|n m|g id|d|]; cbn [exec rib_exec op_ok] in *.
  - unfold route_init. pose proof (ri_init s Hs) as Hi. unfold initialized in Hi. rewrite Hi.
    by apply refines_same.
  - apply reset_refines; apply Hs.
  - unfold route_clear. rewrite (ri_init s Hs). cbn [negb].
    split; cbn [fst snd]; [|rewrite abs_error; done]. apply set_error_inv.
    pose proof (clear_entries_inv s (ri_init s Hs) (ri_base s Hs)) as [? ? ? _]. by split.
  - destruct Hop as (? & ? & ? & ?). by apply set_base_refines.
  - destruct Hop. by apply add_refines.
  - destruct Hop. by apply delete_refines.
  - by apply set_default_refines.
  - pose proof (lookup_state s d Hs) as [Hi Ha]. pose proof (lookup_status s d Hs Hop) as Hr.
    destruct (route_lookup s d) as [[s' m] r]. cbn [fst snd] in *. split; cbn; [done|].
    by rewrite Ha, Hr.
  - rewrite self_test_ok by apply Hs. by apply refines_same.
Qed.

Lemma init_inv : route_inv (route_init route_boot).1.
Proof. by apply (clear_entries_inv (route_init route_boot).1). Qed.

Lemma exec_all_refines ops s :
  route_inv s → Forall op_ok ops →
  route_inv (exec_all ops s) ∧ abs (exec_all ops s) = rib_exec_all ops (abs s).
Proof.
  revert s. induction ops as [|op ops IH]; intros s Hs Hok; [done|].
  apply Forall_cons in Hok as [Hop Hok]. cbn.
  destruct (exec_refines op s Hs Hop) as [Hs' Hr].
  destruct (IH _ Hs' Hok) as [? E]. split; [done|].
  unfold exec_all, rib_exec_all in *. cbn. rewrite E. by rewrite <-Hr.
Qed.

(** ** Theorems *)


Definition demo_ops : list route_op :=
  [RDelete 0 0; RLookup 0x0A000205; RAdd 0x0A000000 0xFF000000 0x0A000203 (Some test_interface);
   RSetBase 0x0A00020F 0xFFFFFF00 0x0A000202 (Some test_interface)].
Lemma demo_ops_ok : Forall op_ok demo_ops.
Proof. repeat constructor; unfold is_u32; vm_compute; lia || done. Qed.
Definition demo_state : route_t := exec_all (rev (tail demo_ops)) (route_init route_boot).1.


(** C23: [route_lookup] is longest-prefix matching.  On success the entry
    returned covers the destination (an address interval), every other entry
    that covers it has a strictly shorter prefix, and the next hop is the
    gateway, or the destination itself on a direct route; on [ERR_NOT_FOUND]
    no entry covers it.  No other status is returned and no route changes. *)
Theorem route_lookup_longest_prefix s d s' m r :
  route_inv s → is_u32 d → route_lookup s d = (s', m, r) →
  abs s' = abs s ∧
  match r with
  | OK => ∃ e, table (route_entries s) !! key e = Some e ∧ covers e d ∧
      (∀ k e', table (route_entries s) !! k = Some e' → covers e' d →
         e' = e ∨ re_prefix_length e' < re_prefix_length e) ∧
      m = if re_gateway e =? 0 then RouteMatch 1 0 e d else RouteMatch 1 1 e (re_gateway e)
  | ERR_NOT_FOUND => m = match_zero ∧
      ∀ k e, table (route_entries s) !! k = Some e → ¬ covers e d
  | _ => False
  end.
Proof.
  intros Hs Hd H. pose proof (lookup_state s d Hs) as [_ Ha]. rewrite H in Ha. split; [done|].
  clear Ha. unfold route_lookup in H. rewrite (ri_init s Hs) in H. cbn [negb] in H.
  change (route_entries (s <| route_status ::= _ |>)) with (route_entries s) in H.
  pose proof (lookup_fold d (route_entries s) None) as Hf.
  assert (∀ k e, table (route_entries s) !! k = Some e → covers e d →
    e ∈ route_entries s ∧ entry_matches d e = true) as Hin.
  { intros k e Ht Hc. pose proof Ht as [_ <-]%table_lookup_2. by apply matching_table. }
  destruct (foldl _ _ _) as [b|]; injection H as _ <- <-.
  - destruct Hf as [[?|Hb] Hmax]; [done|].
    apply (matching_table s d b Hs Hd) in Hb as [Ht Hc]. exists b.
    split; [done|]. split; [done|]. split; [|by destruct (re_gateway b =? 0)].
    intros k e' Ht' Hc'. pose proof (Hmax e' (or_intror (Hin k e' Ht' Hc'))) as Hle.
    destruct (decide (re_prefix_length e' = re_prefix_length b)) as [E|]; [left|right; lia].
    pose proof (to_entries _ (ri_table s Hs)) as Ho. rewrite Forall_forall in Ho.
    pose proof Ht' as [? Hk]%table_lookup_2. pose proof Ht as [? _]%table_lookup_2.
    destruct (covers_same_prefix e' b d) as [E1 E2]; auto.
    assert (k = key b) as -> by (rewrite <-Hk; unfold key; congruence). congruence.
  - split; [done|]. intros k e Ht Hc. destruct (Hin k e Ht Hc) as [? Hm].
    destruct Hf as [_ Hf]. rewrite Hf in Hm; done.
Qed.

Lemma demo_inv : route_inv demo_state.
Proof.
  apply exec_all_refines; [apply init_inv|]. apply Forall_rev, (Forall_inv_tail demo_ops_ok).
Qed.

Lemma route_lookup_longest_prefix_witness :
  is_u32 0x0A000205 ∧ (route_lookup demo_state 0x0A000205).2 = OK ∧
  abs (route_lookup demo_state 0x0A000205).1.1 = abs demo_state.
Proof.
  assert (is_u32 0x0A000205) as Hd by (unfold is_u32; lia).
  destruct (route_lookup demo_state 0x0A000205) as [[s' m] r] eqn:E.
  split; [exact Hd|]. destruct (route_lookup_longest_prefix _ _ _ _ _ demo_inv Hd E) as [Ha _].
  split; [|exact Ha]. change r with (snd (s', m, r)). rewrite <-E. vm_compute. reflexivity.
Defined.

(** The mask scan accepts exactly the contiguous masks, and returns the
    number of leading ones. *)
Theorem route_mask_prefix_contiguous m p :
  is_u32 m → route_mask_prefix m = Some p ↔ 0 ≤ p ≤ 32 ∧ m = 2 ^ 32 - 2 ^ (32 - p).
Proof. apply mask_prefix_spec. Qed.

Lemma route_mask_prefix_contiguous_witness :
  is_u32 0xFFFFFF00 ∧ 0xFFFFFF00 = 2 ^ 32 - 2 ^ (32 - 24).
Proof.
  assert (is_u32 0xFFFFFF00) as H by (unfold is_u32; lia). split; [exact H|].
  apply (route_mask_prefix_contiguous 0xFFFFFF00 24 H). vm_compute. reflexivity.
Defined.

(** On every initialised table the self test passes its ten checks and
    puts back the table, the base configuration and the counters. *)
Theorem route_self_test_restores s :
  initialized s = true → route_self_test s = (s, Some all_passed, OK).
Proof. apply self_test_ok. Qed.

Lemma route_self_test_restores_witness :
  (route_self_test (route_init route_boot).1).2 = OK.
Proof. rewrite (route_self_test_restores (route_init route_boot).1 eq_refl). reflexivity. Defined.

(** A base entry whose identifier did not fit is left unused. *)
Lemma prepare_entry_overflow e0 n m g i e :
  route_prepare_entry e0 n m g (Some i) = (e, ERR_OVERFLOW) → is_used e = false.
Proof.
  unfold route_prepare_entry. destruct (route_mask_prefix m); [|done].
  destruct (negb (n =? _)); [done|]. destruct (_ && _); [done|].
  destruct (route_copy_text _ i) as [t r]. destruct r; cbn [is_ok negb]; try done.
  by intros [= <-].
Qed.

Lemma set_base_overflow s ip m g i s' :
  route_inv s → is_u32 ip → is_u32 m → is_u32 g →
  route_set_base s ip m g (Some i) = (s', ERR_OVERFLOW) →
  ∃ e, is_used e = false ∧ s' = s <| route_base_direct := e |>.
Proof.
  intros Hs Hip Hm Hg H.
  destruct (decide (0 < len i < IPV4_INTERFACE_ID_SIZE)) as [Hi|Hi].
  { destruct (set_base_refines s ip m g (Some i) Hs Hip Hm Hg Hi) as [_ Hr]. rewrite H in Hr.
    unfold rib_set_base in Hr. destruct (route_mask_prefix m); [|done]. by destruct (_ && _). }
  unfold route_set_base in H. rewrite (ri_init s Hs) in H. cbn [negb] in H.
  destruct (_ || _); [done|]. destruct (_ || _); [done|].
  destruct (route_prepare_entry _ _ m 0 (Some i)) as [e r] eqn:He.
  destruct r; cbn [is_ok negb] in H; try done.
  - apply prepare_entry_ok in He as (He & _ & _ & _ & [= <-]); [|unfold is_u32 in *|done].
    + by destruct He.
    + pose proof (land_le_l ip m). lia.
  - injection H as <-. exists e. split; [by eapply prepare_entry_overflow|]. by destruct s.
Qed.

(** A reset from an unused base entry: the count is one too many. *)
Lemma reset_unused s :
  initialized s = true → route_base_valid s ≠ 0 → is_used (route_base_direct s) = false →
  (route_reset s).2 = OK ∧ route_validate_state (route_reset s).1 = ERR_STATE.
Proof.
  intros Hi Hv Hd. unfold route_reset. rewrite Hi. cbn [negb].
  destruct s as [l d f st v]. destruct st as [n c a1 a2 a3 a4 a5 a6 e].
  unfold initialized in Hi. cbn in Hv, Hd, Hi.
  change (route_base_valid (route_clear_entries _)) with v. rewrite (proj2 (Z.eqb_neq v 0) Hv).
  set (c0 := route_clear_entries _). assert (route_insert c0 (route_base_direct c0) =
    (Route (d :: replicate 15 entry_zero) d f (RouteStatus n 1 a1 a2 a3 a4 a5 a6 e) v, OK))
    as -> by reflexivity.
  cbn [is_ok andb route_base_default]. destruct (is_used f) eqn:Hf.
  - unfold route_insert, route_find_free. cbn [route_entries find_index]. rewrite Hd. cbn [negb is_ok].
    split; [done|].
    change (route_validate_state _ = ERR_STATE) with
      (route_validate_state
         (Route (f :: replicate 15 entry_zero) d f (RouteStatus n 2 a1 a2 a3 a4 a5 a6 OK) v) = ERR_STATE).
    unfold route_validate_state, initialized. cbn -[entry_is_consistent existsb]. rewrite Hi, Hf.
    cbn -[entry_is_consistent existsb]. destruct (entry_is_consistent f); [|done]. cbn [negb].
    by destruct (existsb _ _).
  - split; [done|].
    change (route_validate_state _ = ERR_STATE) with
      (route_validate_state
         (Route (d :: replicate 15 entry_zero) d f (RouteStatus n 1 a1 a2 a3 a4 a5 a6 OK) v) = ERR_STATE).
    unfold route_validate_state, initialized. cbn. by rewrite Hi, Hd.
Qed.

(** C24: A base configuration whose interface identifier is too long is
    refused, and the live routes stay, but the saved base entry has been
    overwritten while the base stays marked valid: the next [route_reset]
    reports success and leaves a state that fails [route_validate_state]. *)
Theorem route_refused_base_breaks_reset s ip m g i s' :
  route_inv s → route_base_valid s ≠ 0 → is_u32 ip → is_u32 m → is_u32 g →
  route_set_base s ip m g (Some i) = (s', ERR_OVERFLOW) →
  route_entries s' = route_entries s ∧ route_validate_state s' = OK ∧
  (route_reset s').2 = OK ∧ route_validate_state (route_reset s').1 = ERR_STATE.
Proof.
  intros Hs Hv Hip Hm Hg H.
  destruct (set_base_overflow s ip m g i s' Hs Hip Hm Hg H) as (e & He & ->).
  split; [done|]. split; [by apply (validate_ok s)|]. apply reset_unused; [apply Hs|done|done].
Qed.

Lemma route_refused_base_breaks_reset_witness :
  let s' := (route_set_base demo_state 0x0A00020F 0xFFFFFF00 0 (Some (replicate 20 65))).1 in
  route_validate_state s' = OK ∧ route_validate_state (route_reset s').1 = ERR_STATE.
Proof.
  intros s'.
  destruct (route_refused_base_breaks_reset demo_state 0x0A00020F 0xFFFFFF00 0
    (replicate 20 65) s' demo_inv) as (_ & H1 & _ & H2); try (unfold is_u32; lia).
  - vm_compute. lia.
  - vm_compute. reflexivity.
  - split; [exact H1|exact H2].
Defined.
