(* ===== verification/NetBuffer.v ===== *)
(** * The network buffer contract of src/core/net_buffer.c

    Descriptors live in the callers' memory; this component tracks which of
    them are active in a registry of 32 pointers and drives each through its
    life cycle (allocated, received, queued, in flight, delivered or dropped,
    freed) with a reference count.  The state holds the descriptors by
    address, the registry and the statistics.  The theorems show that every
    sequence of calls keeps the consistency check [net_buffer_validate_state]
    true, that the counters account exactly for the buffers, and that a
    buffer only moves forward in its life cycle.  Each call runs under the
    lock and is one step; log lines are not modelled. *)

From S2P Require Import Prelude Registry.

(** ** The code *)

Definition NET_BUFFER_TRACKING_CAPACITY : Z := 32.
Definition NET_BUFFER_MAX_ALIGNMENT : Z := 64.
Definition NET_BUFFER_COUNTER_MAX : Z := 0xFFFFFFFF.

(** The enumerations are integers: the code checks their ranges. *)
Definition NET_BUFFER_STATE_INVALID : Z := 0.
Definition NET_BUFFER_STATE_ALLOCATED : Z := 1.
Definition NET_BUFFER_STATE_RX : Z := 2.
Definition NET_BUFFER_STATE_QUEUED : Z := 3.
Definition NET_BUFFER_STATE_IN_FLIGHT : Z := 4.
Definition NET_BUFFER_STATE_DELIVERED : Z := 5.
Definition NET_BUFFER_STATE_DROPPED : Z := 6.
Definition NET_BUFFER_STATE_FREED : Z := 7.
Definition NET_BUFFER_OWNER_NONE : Z := 0.
Definition NET_BUFFER_OWNER_DRIVER : Z := 1.
Definition NET_BUFFER_OWNER_ETHERNET : Z := 2.
Definition NET_BUFFER_OWNER_PROTOCOL : Z := 3.
Definition NET_BUFFER_OWNER_SOCKET : Z := 4.

Record net_buffer_t := NetBuffer {
  nb_state : Z; nb_owner : Z; nb_refcount : Z; nb_capacity : Z; nb_headroom : Z;
  nb_length : Z; nb_tailroom : Z; nb_alignment : Z; nb_completion_error : status
}.
Record net_buffer_stats_t := NetBufferStats {
  ns_initialized : Z; ns_active_buffers : Z; ns_peak_buffers : Z; ns_allocations : Z;
  ns_frees : Z; ns_delivered : Z; ns_dropped : Z; ns_copies : Z; ns_copied_bytes : Z;
  ns_clones : Z; ns_fragments : Z; ns_invalid_transitions : Z;
  ns_duplicate_completions : Z; ns_ref_acquires : Z; ns_ref_releases : Z;
  ns_last_error : status
}.

(** The descriptors by address, and the static variables. *)
Record net_t := Net {
  net_mem : gmap Z net_buffer_t;
  net_buffer_stats : net_buffer_stats_t;
  net_buffer_registry : list Z;
  net_buffer_lock_initialized : Z;
  net_buffer_testing : Z
}.
#[export] Instance net_buffer_eta : Eta net_buffer_t := λ r,
  NetBuffer (nb_state r) (nb_owner r) (nb_refcount r) (nb_capacity r) (nb_headroom r)
    (nb_length r) (nb_tailroom r) (nb_alignment r) (nb_completion_error r).
#[export] Instance net_buffer_stats_eta : Eta net_buffer_stats_t := λ r,
  NetBufferStats (ns_initialized r) (ns_active_buffers r) (ns_peak_buffers r)
    (ns_allocations r) (ns_frees r) (ns_delivered r) (ns_dropped r) (ns_copies r)
    (ns_copied_bytes r) (ns_clones r) (ns_fragments r) (ns_invalid_transitions r)
    (ns_duplicate_completions r) (ns_ref_acquires r) (ns_ref_releases r) (ns_last_error r).
#[export] Instance net_eta : Eta net_t := λ r,
  Net (net_mem r) (net_buffer_stats r) (net_buffer_registry r)
    (net_buffer_lock_initialized r) (net_buffer_testing r).

Definition buffer_zero : net_buffer_t := NetBuffer 0 0 0 0 0 0 0 0 OK.
Definition stats_zero : net_buffer_stats_t := NetBufferStats 0 0 0 0 0 0 0 0 0 0 0 0 0 0 0 OK.
Definition registry_zero : list Z := replicate (Z.to_nat NET_BUFFER_TRACKING_CAPACITY) 0.

Definition buf (s : net_t) (p : Z) : net_buffer_t := default buffer_zero (net_mem s !! p).
Definition write_buf (s : net_t) (p : Z) (b : net_buffer_t) : net_t :=
  s <| net_mem ::= <[p := b]> |>.
Definition count (s : net_t) (f : net_buffer_stats_t → net_buffer_stats_t) : net_t :=
  s <| net_buffer_stats ::= f |>.

Definition net_buffer_owner_valid (owner : Z) : bool :=
  (owner >=? NET_BUFFER_OWNER_DRIVER) && (owner <=? NET_BUFFER_OWNER_SOCKET).

Definition net_buffer_state_owner_valid (state owner : Z) : bool :=
  if state =? NET_BUFFER_STATE_ALLOCATED then net_buffer_owner_valid owner else
  if state =? NET_BUFFER_STATE_RX then
    (owner =? NET_BUFFER_OWNER_DRIVER) || (owner =? NET_BUFFER_OWNER_ETHERNET) else
  if state =? NET_BUFFER_STATE_QUEUED then
    (owner =? NET_BUFFER_OWNER_PROTOCOL) || (owner =? NET_BUFFER_OWNER_SOCKET) else
  if state =? NET_BUFFER_STATE_IN_FLIGHT then net_buffer_owner_valid owner else
  if state =? NET_BUFFER_STATE_DROPPED then owner =? NET_BUFFER_OWNER_NONE else
  if state =? NET_BUFFER_STATE_DELIVERED then
    (owner =? NET_BUFFER_OWNER_NONE) || net_buffer_owner_valid owner
  else false.

Definition net_buffer_alignment_valid (alignment : Z) : bool :=
  if (alignment =? 0) || (alignment >? NET_BUFFER_MAX_ALIGNMENT) then false
  else alignment &w (alignment -w 1) =? 0.

Definition net_buffer_find_locked (s : net_t) (buffer : Z) : option nat :=
  find_slot buffer (net_buffer_registry s).
Definition net_buffer_free_slot_locked (s : net_t) : option nat :=
  find_slot 0 (net_buffer_registry s).

Definition net_buffer_fail_locked (s : net_t) (result : status) (duplicate : bool)
    : net_t * status :=
  let s := count s (set ns_invalid_transitions (λ n, n +w 1)) in
  let s := if duplicate then count s (set ns_duplicate_completions (λ n, n +w 1)) else s in
  (count s (set ns_last_error (λ _, result)), result).

Definition net_buffer_transition_allowed (current next : Z) : bool :=
  if current =? NET_BUFFER_STATE_ALLOCATED then
    (next =? NET_BUFFER_STATE_RX) || (next =? NET_BUFFER_STATE_QUEUED)
    || (next =? NET_BUFFER_STATE_IN_FLIGHT) else
  if current =? NET_BUFFER_STATE_RX then
    (next =? NET_BUFFER_STATE_QUEUED) || (next =? NET_BUFFER_STATE_IN_FLIGHT) else
  if current =? NET_BUFFER_STATE_QUEUED then next =? NET_BUFFER_STATE_IN_FLIGHT
  else false.

Definition is_initialized (s : net_t) : bool := negb (ns_initialized (net_buffer_stats s) =? 0).

Definition net_buffer_check_active_locked (s : net_t) (buffer : Z) : status :=
  if buffer =? 0 then ERR_NULL else
  if negb (is_initialized s) then ERR_STATE else
  match net_buffer_find_locked s buffer with
  | None => ERR_INVALID
  | Some _ =>
      if (nb_refcount (buf s buffer) =? 0)
         || (nb_state (buf s buffer) =? NET_BUFFER_STATE_FREED)
      then ERR_STATE else OK
  end.

Definition is_terminal (b : net_buffer_t) : bool :=
  (nb_state b =? NET_BUFFER_STATE_DELIVERED) || (nb_state b =? NET_BUFFER_STATE_DROPPED).

Definition net_buffer_complete_locked (s : net_t) (buffer : Z) (result : status)
    (delivered_owner : Z) : net_t * status :=
  let validation := net_buffer_check_active_locked s buffer in
  if negb (is_ok validation) then net_buffer_fail_locked s validation false else
  let b := buf s buffer in
  if is_terminal b then net_buffer_fail_locked s ERR_STATE true else
  if is_ok result then
    if negb (nb_state b =? NET_BUFFER_STATE_RX) && negb (nb_state b =? NET_BUFFER_STATE_QUEUED)
       && negb (nb_state b =? NET_BUFFER_STATE_IN_FLIGHT)
    then net_buffer_fail_locked s ERR_STATE false else
    if negb (delivered_owner =? NET_BUFFER_OWNER_NONE)
       && negb (net_buffer_owner_valid delivered_owner)
    then net_buffer_fail_locked s ERR_INVALID false else
    let s := write_buf s buffer
      (b <| nb_state := NET_BUFFER_STATE_DELIVERED |> <| nb_owner := delivered_owner |>) in
    (count s (set ns_delivered (λ n, n +w 1)), OK)
  else
    if negb (nb_state b =? NET_BUFFER_STATE_ALLOCATED) && negb (nb_state b =? NET_BUFFER_STATE_RX)
       && negb (nb_state b =? NET_BUFFER_STATE_QUEUED)
       && negb (nb_state b =? NET_BUFFER_STATE_IN_FLIGHT)
    then net_buffer_fail_locked s ERR_STATE false else
    if negb (delivered_owner =? NET_BUFFER_OWNER_NONE)
    then net_buffer_fail_locked s ERR_INVALID false else
    let s := write_buf s buffer
      (b <| nb_state := NET_BUFFER_STATE_DROPPED |> <| nb_owner := NET_BUFFER_OWNER_NONE |>
         <| nb_completion_error := result |>) in
    (count s (set ns_dropped (λ n, n +w 1)), OK).

Definition net_buffer_init (s : net_t) : net_t * status :=
  let s := if net_buffer_lock_initialized s =? 0
    then s <| net_buffer_lock_initialized := 1 |> else s in
  if is_initialized s then (s, OK) else
  let s := s <| net_buffer_stats := stats_zero |> in
  let s := s <| net_buffer_registry := registry_zero |> in
  let s := count s (set ns_initialized (λ _, 1)) in
  (count s (set ns_last_error (λ _, OK)), OK).

Definition net_buffer_begin (s : net_t) (buffer capacity headroom alignment owner : Z)
    : net_t * status :=
  if buffer =? 0 then (s, ERR_NULL) else
  if (capacity =? 0) || (headroom >? capacity) || negb (net_buffer_alignment_valid alignment)
     || negb (net_buffer_owner_valid owner) then (s, ERR_INVALID) else
  if negb (is_initialized s) then (s, ERR_STATE) else
  if bool_decide (is_Some (net_buffer_find_locked s buffer))
     || negb (nb_state (buf s buffer) =? NET_BUFFER_STATE_INVALID) then (s, ERR_STATE) else
  match net_buffer_free_slot_locked s with
  | None => ((net_buffer_fail_locked s ERR_OVERFLOW false).1, ERR_OVERFLOW)
  | Some slot =>
      let s := write_buf s buffer
        (NetBuffer NET_BUFFER_STATE_ALLOCATED owner 1 capacity headroom 0
           (capacity -w headroom) alignment OK) in
      let s := s <| net_buffer_registry ::= λ l, <[slot := buffer]> l |> in
      let s := count s (set ns_active_buffers (λ n, n +w 1)) in
      let s := count s (set ns_allocations (λ n, n +w 1)) in
      let s := if ns_active_buffers (net_buffer_stats s) >? ns_peak_buffers (net_buffer_stats s)
        then count s (λ st, st <| ns_peak_buffers := ns_active_buffers st |>) else s in
      (s, OK)
  end.

Definition net_buffer_set_layout_locked (s : net_t) (buffer headroom length : Z)
    : net_t * status :=
  let result := net_buffer_check_active_locked s buffer in
  let b := buf s buffer in
  let result := if is_ok result && is_terminal b then ERR_STATE else result in
  let result := if is_ok result && (headroom >? nb_capacity b) then ERR_OVERFLOW else result in
  let result := if is_ok result && (length >? nb_capacity b -w headroom)
    then ERR_OVERFLOW else result in
  if is_ok result then
    (write_buf s buffer
       (b <| nb_headroom := headroom |> <| nb_length := length |>
          <| nb_tailroom := nb_capacity b -w headroom -w length |>), result)
  else ((net_buffer_fail_locked s result false).1, result).

Definition net_buffer_set_layout (s : net_t) (buffer headroom length : Z) : net_t * status :=
  net_buffer_set_layout_locked s buffer headroom length.

Definition net_buffer_set_length (s : net_t) (buffer length : Z) : net_t * status :=
  let result := net_buffer_check_active_locked s buffer in
  if is_ok result then
    let headroom := nb_headroom (buf s buffer) in
    net_buffer_set_layout_locked s buffer headroom length
  else ((net_buffer_fail_locked s result false).1, result).

Definition net_buffer_transition (s : net_t) (buffer next_state next_owner : Z)
    : net_t * status :=
  if negb (net_buffer_owner_valid next_owner) || (next_state =? NET_BUFFER_STATE_INVALID)
     || (next_state =? NET_BUFFER_STATE_FREED) || (next_state =? NET_BUFFER_STATE_DELIVERED)
     || (next_state =? NET_BUFFER_STATE_DROPPED)
  then ((net_buffer_fail_locked s ERR_INVALID false).1, ERR_INVALID) else
  let result := net_buffer_check_active_locked s buffer in
  let b := buf s buffer in
  let result := if is_ok result && negb (net_buffer_transition_allowed (nb_state b) next_state)
    then ERR_STATE else result in
  let result := if is_ok result && negb (net_buffer_state_owner_valid next_state next_owner)
    then ERR_INVALID else result in
  if is_ok result then
    (write_buf s buffer (b <| nb_state := next_state |> <| nb_owner := next_owner |>), result)
  else ((net_buffer_fail_locked s result false).1, result).

Definition net_buffer_complete (s : net_t) (buffer : Z) (result : status) (delivered_owner : Z)
    : net_t * status :=
  net_buffer_complete_locked s buffer result delivered_owner.

Definition net_buffer_retain (s : net_t) (buffer : Z) : net_t * status :=
  let result := net_buffer_check_active_locked s buffer in
  let b := buf s buffer in
  let '(s, result) :=
    if is_ok result then
      if nb_refcount b =? NET_BUFFER_COUNTER_MAX then (s, ERR_OVERFLOW) else
      let s := write_buf s buffer (b <| nb_refcount := nb_refcount b +w 1 |>) in
      (count s (set ns_ref_acquires (λ n, n +w 1)), result)
    else (s, result) in
  if negb (is_ok result) then ((net_buffer_fail_locked s result false).1, result)
  else (s, result).

Definition net_buffer_release (s : net_t) (buffer : Z) : net_t * status :=
  let result := net_buffer_check_active_locked s buffer in
  let b := buf s buffer in
  let result := if is_ok result && negb (is_terminal b) then ERR_STATE else result in
  let '(s, result) :=
    if is_ok result then
      let '(s, result) :=
        if nb_refcount b >? 1 then
          (write_buf s buffer (b <| nb_refcount := nb_refcount b -w 1 |>), result)
        else
          match net_buffer_find_locked s buffer with
          | None => (s, ERR_INVALID)
          | Some slot =>
              let s := write_buf s buffer
                (b <| nb_refcount := 0 |> <| nb_state := NET_BUFFER_STATE_FREED |>
                   <| nb_owner := NET_BUFFER_OWNER_NONE |>) in
              let s := s <| net_buffer_registry ::= λ l, <[slot := 0]> l |> in
              let s := if negb (ns_active_buffers (net_buffer_stats s) =? 0)
                then count s (set ns_active_buffers (λ n, n -w 1)) else s in
              (count s (set ns_frees (λ n, n +w 1)), result)
          end in
      (count s (set ns_ref_releases (λ n, n +w 1)), result)
    else (s, result) in
  if negb (is_ok result) then ((net_buffer_fail_locked s result false).1, result)
  else (s, result).

Definition net_buffer_note_copy (s : net_t) (bytes : Z) : net_t * status :=
  if negb (is_initialized s) then (s, ERR_STATE) else
  if bytes >? NET_BUFFER_COUNTER_MAX -w ns_copied_bytes (net_buffer_stats s)
  then ((net_buffer_fail_locked s ERR_OVERFLOW false).1, ERR_OVERFLOW) else
  let s := count s (set ns_copies (λ n, n +w 1)) in
  (count s (set ns_copied_bytes (λ n, n +w bytes)), OK).
Definition net_buffer_note_clone (s : net_t) : net_t * status :=
  if negb (is_initialized s) then (s, ERR_STATE) else
  (count s (set ns_clones (λ n, n +w 1)), OK).
Definition net_buffer_note_fragment (s : net_t) : net_t * status :=
  if negb (is_initialized s) then (s, ERR_STATE) else
  (count s (set ns_fragments (λ n, n +w 1)), OK).

Definition net_buffer_get_stats (s : net_t) : option net_buffer_stats_t * status :=
  if negb (is_initialized s) then (None, ERR_STATE) else (Some (net_buffer_stats s), OK).

Definition net_buffer_restore_stats (s : net_t) (saved : net_buffer_stats_t) : net_t * status :=
  let result := if existsb (λ p, negb (p =? 0)) (net_buffer_registry s) then ERR_STATE else OK in
  let result :=
    if is_ok result
       && ((ns_initialized saved =? 0) || negb (ns_active_buffers saved =? 0)
           || (ns_frees saved >? ns_allocations saved)
           || (ns_peak_buffers saved <? ns_active_buffers saved))
    then ERR_STATE else result in
  (if is_ok result then s <| net_buffer_stats := saved |> else s, result).

Definition net_buffer_validate_entry_locked (s : net_t) (buffer : Z) : status :=
  let b := buf s buffer in
  if (buffer =? 0) || (nb_refcount b =? 0)
     || negb (net_buffer_state_owner_valid (nb_state b) (nb_owner b)) then ERR_STATE else
  if (nb_state b <? NET_BUFFER_STATE_ALLOCATED) || (nb_state b >? NET_BUFFER_STATE_DROPPED)
     || (nb_capacity b =? 0) || (nb_headroom b >? nb_capacity b)
     || (nb_length b >? nb_capacity b -w nb_headroom b)
     || negb (nb_tailroom b =? nb_capacity b -w nb_headroom b -w nb_length b)
     || negb (net_buffer_alignment_valid (nb_alignment b))
  then ERR_STATE else OK.

(** The scan of the registry: the active count and the result; it stops at
    the first invalid entry. *)
Fixpoint validate_scan (s : net_t) (registry : list Z) (active : Z) (result : status)
    : Z * status :=
  match registry with
  | [] => (active, result)
  | buffer :: l =>
      if buffer =? 0 then validate_scan s l active result else
      let active := active +w 1 in
      if negb (is_ok (net_buffer_validate_entry_locked s buffer)) then (active, ERR_STATE) else
      let result := if existsb (λ other, buffer =? other) l then ERR_STATE else result in
      validate_scan s l active result
  end.

Definition net_buffer_validate_state (s : net_t) : status :=
  if negb (is_initialized s) then
    if negb (ns_active_buffers (net_buffer_stats s) =? 0) then ERR_STATE else OK
  else
    let '(active, result) := validate_scan s (net_buffer_registry s) 0 OK in
    if negb (active =? ns_active_buffers (net_buffer_stats s))
       || (active >? NET_BUFFER_TRACKING_CAPACITY)
       || (ns_frees (net_buffer_stats s) >? ns_allocations (net_buffer_stats s))
       || (ns_peak_buffers (net_buffer_stats s) <? active)
    then ERR_STATE else result.

(** The self tests chain calls while the result is [OK]; some calls must fail
    with a given code. *)
Definition and_then {S} (x : S * status) (f : S → S * status) : S * status :=
  if is_ok x.2 then f x.1 else x.
Definition expecting {S} (want : status) (x : S * status) : S * status :=
  (x.1, if bool_decide (x.2 = want) then OK else ERR_STATE).
#[local] Notation "x >>> f" := (and_then x f) (at level 50, left associativity).

(** [fixture] is the address of the local descriptor. *)
Definition net_buffer_test_delivered (s : net_t) (fixture : Z) : net_t * status :=
  let s := write_buf s fixture buffer_zero in
  net_buffer_begin s fixture 1518 32 1 NET_BUFFER_OWNER_ETHERNET
  >>> (λ s, expecting ERR_STATE (net_buffer_release s fixture))
  >>> (λ s, expecting ERR_INVALID (net_buffer_transition s fixture NET_BUFFER_STATE_DELIVERED
                                     NET_BUFFER_OWNER_NONE))
  >>> (λ s, net_buffer_set_length s fixture 128)
  >>> (λ s, net_buffer_transition s fixture NET_BUFFER_STATE_RX NET_BUFFER_OWNER_ETHERNET)
  >>> (λ s, net_buffer_transition s fixture NET_BUFFER_STATE_QUEUED NET_BUFFER_OWNER_PROTOCOL)
  >>> (λ s, net_buffer_retain s fixture)
  >>> (λ s, net_buffer_transition s fixture NET_BUFFER_STATE_IN_FLIGHT NET_BUFFER_OWNER_SOCKET)
  >>> (λ s, net_buffer_complete s fixture OK NET_BUFFER_OWNER_SOCKET)
  >>> (λ s, net_buffer_release s fixture)
  >>> (λ s, net_buffer_release s fixture)
  >>> (λ s, expecting ERR_INVALID (net_buffer_release s fixture))
  >>> (λ s, (s, if negb (nb_state (buf s fixture) =? NET_BUFFER_STATE_FREED)
                   || negb (nb_refcount (buf s fixture) =? 0)
                   || negb (is_ok (net_buffer_validate_state s))
                then ERR_STATE else OK)).

Definition net_buffer_test_dropped (s : net_t) (fixture : Z) : net_t * status :=
  let s := write_buf s fixture buffer_zero in
  net_buffer_begin s fixture 512 0 1 NET_BUFFER_OWNER_ETHERNET
  >>> (λ s, net_buffer_complete s fixture ERR_TIMEOUT NET_BUFFER_OWNER_NONE)
  >>> (λ s, expecting ERR_STATE (net_buffer_complete s fixture ERR_TIMEOUT NET_BUFFER_OWNER_NONE))
  >>> (λ s, net_buffer_release s fixture)
  >>> (λ s, net_buffer_begin (write_buf s fixture buffer_zero) fixture 512 0 1
              NET_BUFFER_OWNER_ETHERNET)
  >>> (λ s, net_buffer_transition s fixture NET_BUFFER_STATE_QUEUED NET_BUFFER_OWNER_PROTOCOL)
  >>> (λ s, net_buffer_complete s fixture ERR_CANCELLED NET_BUFFER_OWNER_NONE)
  >>> (λ s, expecting ERR_STATE (net_buffer_complete s fixture ERR_CANCELLED
                                   NET_BUFFER_OWNER_NONE))
  >>> (λ s, net_buffer_release s fixture).

Definition net_buffer_self_test (s : net_t) (invalid_fixture delivered_fixture dropped_fixture : Z)
    : net_t * status :=
  match net_buffer_get_stats s with
  | (Some saved, OK) =>
      if negb (ns_active_buffers (net_buffer_stats s) =? 0) || negb (net_buffer_testing s =? 0)
      then (s, ERR_STATE) else
      let s := s <| net_buffer_testing := 1 |> in
      let s := write_buf s invalid_fixture buffer_zero in
      let '(s, result) :=
        expecting OK (net_buffer_begin s invalid_fixture 64 16 1 NET_BUFFER_OWNER_ETHERNET)
        >>> (λ s, expecting ERR_OVERFLOW (net_buffer_set_length s invalid_fixture 49)) in
      let s := if negb (nb_state (buf s invalid_fixture) =? NET_BUFFER_STATE_INVALID) then
          let s := (net_buffer_complete s invalid_fixture ERR_STATE NET_BUFFER_OWNER_NONE).1 in
          (net_buffer_release s invalid_fixture).1
        else s in
      let '(s, result) :=
        (s, result)
        >>> (λ s, net_buffer_test_delivered s delivered_fixture)
        >>> (λ s, net_buffer_test_dropped s dropped_fixture)
        >>> (λ s, expecting OK (net_buffer_note_copy s 128))
        >>> (λ s, expecting OK (net_buffer_note_clone s))
        >>> (λ s, expecting OK (net_buffer_note_fragment s)) in
      let result := if negb (is_ok (net_buffer_validate_state s)) then ERR_STATE else result in
      let result := if negb (ns_active_buffers (net_buffer_stats s) =? 0)
                       || bool_decide (is_Some (net_buffer_find_locked s invalid_fixture))
        then ERR_STATE else result in
      let s := s <| net_buffer_registry := registry_zero |> in
      let s := count s (set ns_active_buffers (λ _, 0)) in
      let s := s <| net_buffer_testing := 0 |> in
      (s <| net_buffer_stats := saved |>, result)
  | _ => (s, ERR_STATE)
  end.

(** ** The invariant *)

Record buffer_ok (b : net_buffer_t) : Prop := BufferOk {
  bo_refcount : 0 < nb_refcount b < 2 ^ 32;
  bo_state : 1 ≤ nb_state b ≤ 6;
  bo_owner : net_buffer_state_owner_valid (nb_state b) (nb_owner b) = true;
  bo_capacity : 0 < nb_capacity b < 2 ^ 32;
  bo_headroom : 0 ≤ nb_headroom b;
  bo_length : 0 ≤ nb_length b;
  bo_room : 0 ≤ nb_tailroom b;
  bo_tiles : nb_headroom b + nb_length b + nb_tailroom b = nb_capacity b;
  bo_alignment : net_buffer_alignment_valid (nb_alignment b) = true
}.

Definition done_ (b : net_buffer_t) : Z := if is_terminal b then 1 else 0.

(** The counters account for the live descriptors [L] read through [β]; [n]
    bounds the number of calls made so far. *)
Record stats_ok (n : Z) (β : Z → net_buffer_t) (L : list Z) (st : net_buffer_stats_t) : Prop :=
  StatsOk {
    so_active : ns_active_buffers st = Z.of_nat (length L);
    so_peak : ns_active_buffers st ≤ ns_peak_buffers st;
    so_allocations : ns_allocations st = ns_frees st + Z.of_nat (length L);
    so_completed : ns_delivered st + ns_dropped st = ns_frees st + sum (λ p, done_ (β p)) L;
    so_references :
      sum (λ p, nb_refcount (β p)) L
      = ns_allocations st + ns_ref_acquires st - ns_ref_releases st;
    so_frees : 0 ≤ ns_frees st;
    so_delivered : 0 ≤ ns_delivered st;
    so_dropped : 0 ≤ ns_dropped st;
    so_acquires : 0 ≤ ns_ref_acquires st;
    so_releases : 0 ≤ ns_ref_releases st;
    so_bound : ns_allocations st + ns_ref_acquires st + ns_ref_releases st ≤ n;
    so_bound_done : ns_delivered st + ns_dropped st ≤ n
  }.

Record net_inv (n : Z) (s : net_t) : Prop := NetInv {
  ni_init : is_initialized s = true;
  ni_length : length (net_buffer_registry s) = Z.to_nat NET_BUFFER_TRACKING_CAPACITY;
  ni_nodup : NoDup (live (net_buffer_registry s));
  ni_buffers : ∀ p, p ∈ live (net_buffer_registry s) → buffer_ok (buf s p);
  ni_stats : stats_ok n (buf s) (live (net_buffer_registry s)) (net_buffer_stats s)
}.

(** Reduces field updates of a state whose records are constructors. *)
Ltac net_cbn :=
  lazy beta iota zeta delta [count write_buf set eta net_eta net_buffer_stats_eta net_buffer_eta
    net_mem net_buffer_stats net_buffer_registry net_buffer_lock_initialized net_buffer_testing
    ns_initialized ns_active_buffers ns_peak_buffers ns_allocations ns_frees ns_delivered
    ns_dropped ns_copies ns_copied_bytes ns_clones ns_fragments ns_invalid_transitions
    ns_duplicate_completions ns_ref_acquires ns_ref_releases ns_last_error].
Ltac buffer_cbn :=
  unfold set; cbn [eta net_buffer_eta nb_state nb_owner nb_refcount nb_capacity nb_headroom nb_length
    nb_tailroom nb_alignment nb_completion_error].

Lemma buf_write s p b q : buf (write_buf s p b) q = if decide (q = p) then b else buf s q.
Proof.
  unfold buf, write_buf. change (net_mem (s <| net_mem ::= _ |>)) with (<[p := b]> (net_mem s)).
  destruct (decide (q = p)) as [->|]; [by rewrite lookup_insert_eq|by rewrite lookup_insert_ne].
Qed.

Lemma buf_count s f p : buf (count s f) p = buf s p.
Proof. done. Qed.

(** More calls allowed: the bound only grows. *)
Lemma stats_ok_mono n n' β L st : n ≤ n' → stats_ok n β L st → stats_ok n' β L st.
Proof. intros ? []. by split; try lia. Qed.

(** Statistics outside the accounting may change. *)
Definition same_counts (st st' : net_buffer_stats_t) : Prop :=
  ns_initialized st' = ns_initialized st ∧ ns_active_buffers st' = ns_active_buffers st ∧
  ns_peak_buffers st' = ns_peak_buffers st ∧ ns_allocations st' = ns_allocations st ∧
  ns_frees st' = ns_frees st ∧ ns_delivered st' = ns_delivered st ∧
  ns_dropped st' = ns_dropped st ∧ ns_ref_acquires st' = ns_ref_acquires st ∧
  ns_ref_releases st' = ns_ref_releases st.

Lemma inv_count n s f :
  (∀ st, same_counts st (f st)) → net_inv n s → net_inv (n + 1) (count s f).
Proof.
  intros Hf [Hi Hl Hn Hb Hs]. destruct s as [m st reg li te].
  change (count _ f) with (Net m (f st) reg li te).
  destruct (Hf st) as (E1 & E2 & E3 & E4 & E5 & E6 & E7 & E8 & E9).
  unfold is_initialized in *. cbn [net_buffer_stats net_buffer_registry] in *.
  split; unfold is_initialized; cbn [net_buffer_stats net_buffer_registry]; [congruence|done..|].
  destruct Hs. split; rewrite ?E2, ?E3, ?E4, ?E5, ?E6, ?E7, ?E8, ?E9; done || lia.
Qed.

Lemma fail_state s r d :
  ∃ f, (∀ st, same_counts st (f st)) ∧ net_buffer_fail_locked s r d = (count s f, r).
Proof.
  exists (λ st, st <| ns_invalid_transitions ::= λ n, n +w 1 |>
    <| ns_duplicate_completions ::= λ n, if d then n +w 1 else n |> <| ns_last_error := r |>).
  split; [by intros []|]. destruct s as [m [] reg li te], d; done.
Qed.

Lemma inv_fail n s r d : net_inv n s → net_inv (n + 1) (net_buffer_fail_locked s r d).1.
Proof. intros Hs. destruct (fail_state s r d) as (f & Hf & ->). by apply inv_count. Qed.

Lemma check_active_spec n s p :
  net_inv n s →
  net_buffer_check_active_locked s p =
    if p =? 0 then ERR_NULL
    else if decide (p ∈ live (net_buffer_registry s)) then OK else ERR_INVALID.
Proof.
  intros Hs. unfold net_buffer_check_active_locked. destruct (Z.eqb_spec p 0) as [|Hp]; [done|].
  rewrite (ni_init n s Hs). cbn [negb]. unfold net_buffer_find_locked.
  destruct (find_slot p (net_buffer_registry s)) as [i|] eqn:E.
  - assert (p ∈ live (net_buffer_registry s)) as Hin.
    { apply elem_of_live. split; [done|]. apply find_slot_elem. by rewrite E. }
    rewrite decide_True by done. destruct (ni_buffers n s Hs p Hin) as [Hr Hst _ _ _ _ _ _ _].
    unfold NET_BUFFER_STATE_FREED. destruct (Z.eqb_spec (nb_refcount (buf s p)) 0); [lia|].
    destruct (Z.eqb_spec (nb_state (buf s p)) 7); [lia|done].
  - rewrite decide_False; [done|]. intros [_ Hin]%elem_of_live. by apply find_slot_None in E.
Qed.

(** Rewriting one live descriptor, with the counters that go with it. *)
Definition counts_change (st st' : net_buffer_stats_t) (finished acquired released : Z) : Prop :=
  ns_initialized st' = ns_initialized st ∧ ns_active_buffers st' = ns_active_buffers st ∧
  ns_peak_buffers st' = ns_peak_buffers st ∧ ns_allocations st' = ns_allocations st ∧
  ns_frees st' = ns_frees st ∧
  ns_delivered st ≤ ns_delivered st' ∧ ns_dropped st ≤ ns_dropped st' ∧
  ns_delivered st' + ns_dropped st' = ns_delivered st + ns_dropped st + finished ∧
  ns_ref_acquires st' = ns_ref_acquires st + acquired ∧
  ns_ref_releases st' = ns_ref_releases st + released ∧
  0 ≤ acquired ∧ 0 ≤ released ∧ acquired + released ≤ 1 ∧ finished ≤ 1.

Lemma inv_update n s p b f fin acq rel :
  net_inv n s → p ∈ live (net_buffer_registry s) → buffer_ok b →
  counts_change (net_buffer_stats s) (f (net_buffer_stats s)) fin acq rel →
  done_ b = done_ (buf s p) + fin → nb_refcount b = nb_refcount (buf s p) + acq - rel →
  net_inv (n + 1) (count (write_buf s p b) f).
Proof.
  intros [Hi Hl Hn Hb Hs] Hp Hok (E1 & E2 & E3 & E4 & E5 & E6 & E7 & E8 & E9 & E10 & E11 & E12 & E13 & E14)
    Hd Hr.
  assert (∀ q, q ≠ p → buf (write_buf s p b) q = buf s q) as Hq.
  { intros q ?. rewrite buf_write, decide_False; done. }
  assert (buf (write_buf s p b) p = b) as Hbp by (rewrite buf_write, decide_True; done).
  split; try done.
  - unfold is_initialized in *. change (net_buffer_stats (count _ f)) with (f (net_buffer_stats s)).
    by rewrite E1.
  - intros q Hin. rewrite buf_count. destruct (decide (q = p)) as [->|]; [by rewrite Hbp|].
    rewrite Hq by done. by apply Hb.
  - change (net_buffer_stats (count _ f)) with (f (net_buffer_stats s)).
    change (net_buffer_registry (count _ f)) with (net_buffer_registry s).
    pose proof (sum_update (λ q, done_ (buf s q)) (λ q, done_ (buf (count (write_buf s p b) f) q))
      _ p Hn Hp ltac:(intros q ?; cbn beta; by rewrite buf_count, Hq)) as S1.
    pose proof (sum_update (λ q, nb_refcount (buf s q))
      (λ q, nb_refcount (buf (count (write_buf s p b) f) q))
      _ p Hn Hp ltac:(intros q ?; cbn beta; by rewrite buf_count, Hq)) as S2.
    cbn beta in S1, S2. rewrite buf_count, Hbp in S1, S2.
    destruct Hs. split; rewrite ?S1, ?S2; lia.
Qed.

Lemma count_id s : count s id = s.
Proof. by destruct s as [? [] ? ? ?]. Qed.

(** The same with no counter involved. *)
Lemma inv_write n s p b :
  net_inv n s → p ∈ live (net_buffer_registry s) → buffer_ok b →
  done_ b = done_ (buf s p) → nb_refcount b = nb_refcount (buf s p) →
  net_inv (n + 1) (write_buf s p b).
Proof.
  intros Hs Hp Hb Hd Hr. rewrite <-count_id.
  apply (inv_update n s p b id 0 0 0); try done; [|lia..].
  unfold counts_change, id. lia.
Qed.

(** A descriptor becomes live. *)
Lemma inv_begin n s p b slot :
  net_inv n s → n + 1 < 2 ^ 32 → p ≠ 0 → p ∉ net_buffer_registry s → buffer_ok b →
  is_terminal b = false → nb_refcount b = 1 →
  find_slot 0 (net_buffer_registry s) = Some slot →
  let s1 := write_buf s p b in
  let s2 := s1 <| net_buffer_registry ::= λ l, <[slot := p]> l |> in
  let s3 := count s2 (set ns_active_buffers (λ n, n +w 1)) in
  let s4 := count s3 (set ns_allocations (λ n, n +w 1)) in
  net_inv (n + 1)
    (if ns_active_buffers (net_buffer_stats s4) >? ns_peak_buffers (net_buffer_stats s4)
     then count s4 (λ st, st <| ns_peak_buffers := ns_active_buffers st |>) else s4).
Proof.
  intros [Hi Hl Hn Hb Hs] Hlt Hp Hni Hok Ht Hr Hslot.
  pose proof (live_insert _ _ p (find_slot_Some _ _ _ Hslot) Hp) as HL.
  assert (∀ q, q ∈ live (net_buffer_registry s) → buf (write_buf s p b) q = buf s q) as Hq.
  { intros q [_ Hin]%elem_of_live. rewrite buf_write, decide_False; [done|]. congruence. }
  assert (buf (write_buf s p b) p = b) as Hbp by (rewrite buf_write, decide_True; done).
  assert (p ∉ live (net_buffer_registry s)) as Hnl by (by intros [_ ?]%elem_of_live).
  assert (done_ b = 0) as Hd by (unfold done_; by rewrite Ht).
  intros s1 s2 s3 s4. fold s1 in Hq, Hbp. destruct Hs as [A1 A2 A3 A4 A5 A6 A7 A8 A9 A10 A11 A12].
  set (L := live (net_buffer_registry s)) in *. set (L' := live (<[slot := p]> _)) in *.
  assert (Z.of_nat (length L') = Z.of_nat (length L) + 1) as HlL by (rewrite HL; cbn; lia).
  assert (∀ g, sum (λ q, g (buf s1 q)) L' = g b + sum (λ q, g (buf s q)) L) as HS.
  { intros g. rewrite (sum_perm _ _ _ HL). cbn. rewrite Hbp. f_equal.
    apply sum_ext. intros q Hin. by rewrite Hq. }
  assert (stats_ok (n + 1) (buf s1) L' ((net_buffer_stats s4) <| ns_peak_buffers :=
    Z.max (ns_active_buffers (net_buffer_stats s4)) (ns_peak_buffers (net_buffer_stats s4)) |>))
    as Hst.
  { pose proof (HS done_) as S1. pose proof (HS nb_refcount) as S2.
    change (net_buffer_stats s4) with (set ns_allocations (λ n, n +w 1)
      (set ns_active_buffers (λ n, n +w 1) (net_buffer_stats s))).
    clearbody s1 L L'. destruct (net_buffer_stats s). cbn in A1, A2, A3, A4, A5, A6, A7, A8, A9, A10, A11, A12.
    split; net_cbn; rewrite ?u32_small by lia; lia. }
  assert (NoDup L' ∧ ∀ q, q ∈ L' → buffer_ok (buf s1 q)) as [Hn' Hb'].
  { split; [rewrite HL; by apply NoDup_cons|]. intros q Hin. rewrite HL in Hin.
    apply elem_of_cons in Hin as [-> |Hin]; [by rewrite Hbp|]. rewrite Hq by done. by apply Hb. }
  assert (length (<[slot := p]> (net_buffer_registry s)) = Z.to_nat NET_BUFFER_TRACKING_CAPACITY)
    as Hl' by (by rewrite length_insert).
  destruct (Z.gtb_spec (ns_active_buffers (net_buffer_stats s4)) (ns_peak_buffers (net_buffer_stats s4))).
  - rewrite Z.max_l in Hst by lia. by split.
  - rewrite Z.max_r in Hst by lia. by split.
Qed.

(** A finished descriptor with one reference left is freed. *)
Lemma inv_free n s p b slot :
  net_inv n s → n + 1 < 2 ^ 32 → p ≠ 0 → find_slot p (net_buffer_registry s) = Some slot →
  is_terminal (buf s p) = true → nb_refcount (buf s p) = 1 →
  let s1 := write_buf s p b in
  let s2 := s1 <| net_buffer_registry ::= λ l, <[slot := 0]> l |> in
  let s3 := if negb (ns_active_buffers (net_buffer_stats s2) =? 0)
    then count s2 (set ns_active_buffers (λ n, n -w 1)) else s2 in
  let s4 := count s3 (set ns_frees (λ n, n +w 1)) in
  net_inv (n + 1) (count s4 (set ns_ref_releases (λ n, n +w 1))) ∧
  p ∉ live (<[slot := 0]> (net_buffer_registry s)).
Proof.
  intros [Hi Hl Hn Hb Hs] Hlt Hp Hslot Ht Hr.
  pose proof (live_clear _ _ p (find_slot_Some _ _ _ Hslot) Hp) as HL.
  intros s1 s2 s3 s4. destruct Hs as [A1 A2 A3 A4 A5 A6 A7 A8 A9 A10 A11 A12].
  set (L := live (net_buffer_registry s)) in *. set (L' := live (<[slot := 0]> _)) in *.
  assert (Z.of_nat (length L) = Z.of_nat (length L') + 1) as HlL by (rewrite HL; cbn; lia).
  pose proof Hn as Hn'. rewrite HL in Hn'. apply NoDup_cons in Hn' as [Hni Hn'].
  assert (∀ q, q ∈ L' → buf s1 q = buf s q) as Hq.
  { intros q Hin. unfold s1. rewrite buf_write, decide_False; [done|]. by intros ->. }
  assert (∀ g, sum (λ q, g (buf s q)) L = g (buf s p) + sum (λ q, g (buf s1 q)) L') as HS.
  { intros g. rewrite (sum_perm _ _ _ HL). cbn. f_equal. apply sum_ext. intros q Hin. by rewrite Hq. }
  assert (done_ (buf s p) = 1) as Hd by (unfold done_; by rewrite Ht).
  assert (s3 = count s2 (set ns_active_buffers (λ n, n -w 1))) as E3.
  { unfold s3. change (net_buffer_stats s2) with (net_buffer_stats s).
    destruct (Z.eqb_spec (ns_active_buffers (net_buffer_stats s)) 0); [lia|done]. }
  split; [|done]. unfold s4. rewrite E3. split.
  - done.
  - rewrite <-Hl. apply length_insert.
  - done.
  - intros q Hin. change (buffer_ok (buf s1 q)). rewrite Hq by done. apply Hb. rewrite HL. by constructor.
  - change (stats_ok (n + 1) (buf s1) L' (set ns_ref_releases (λ n, n +w 1)
      (set ns_frees (λ n, n +w 1) (set ns_active_buffers (λ n, n -w 1) (net_buffer_stats s))))).
    pose proof (HS done_) as S1. pose proof (HS nb_refcount) as S2.
    assert (0 ≤ sum (λ q, nb_refcount (buf s1 q)) L').
    { apply sum_nonneg. intros q Hin. rewrite Hq by done.
      pose proof (bo_refcount _ (Hb q ltac:(rewrite HL; by constructor))). lia. }
    clearbody s1 L L'. destruct (net_buffer_stats s).
    cbn in A1, A2, A3, A4, A5, A6, A7, A8, A9, A10, A11, A12.
    split; net_cbn; rewrite ?u32_small by lia; lia.
Qed.

(** ** Every operation keeps the invariant *)

Definition is_u32 (z : Z) : Prop := 0 ≤ z < 2 ^ 32.

(** Case analysis on the activity check: the two failures, then a live [p]. *)
Ltac check_active Hs p Hp :=
  rewrite (check_active_spec _ _ p Hs);
  destruct (Z.eqb_spec p 0) as [->|?]; [|destruct (decide (p ∈ live _)) as [Hp|?]];
  cbn [is_ok andb negb].

Lemma terminal_done b : is_terminal b = false → done_ b = 0.
Proof. unfold done_. by intros ->. Qed.

Lemma transition_allowed_states a b :
  net_buffer_transition_allowed a b = true → 1 ≤ a ≤ 3 ∧ a < b ≤ 4.
Proof.
  unfold net_buffer_transition_allowed, NET_BUFFER_STATE_ALLOCATED, NET_BUFFER_STATE_RX,
    NET_BUFFER_STATE_QUEUED, NET_BUFFER_STATE_IN_FLIGHT.
  destruct (Z.eqb_spec a 1); [lia|]. destruct (Z.eqb_spec a 2); [lia|].
  destruct (Z.eqb_spec a 3); [lia|done].
Qed.

Lemma is_terminal_spec b : is_terminal b = true ↔ nb_state b = 5 ∨ nb_state b = 6.
Proof.
  unfold is_terminal, NET_BUFFER_STATE_DELIVERED, NET_BUFFER_STATE_DROPPED. lia.
Qed.

Lemma not_terminal_spec b : is_terminal b = false ↔ nb_state b ≠ 5 ∧ nb_state b ≠ 6.
Proof.
  unfold is_terminal, NET_BUFFER_STATE_DELIVERED, NET_BUFFER_STATE_DROPPED. lia.
Qed.

Lemma begin_inv n s p c h a o :
  net_inv n s → n + 1 < 2 ^ 32 → is_u32 c → is_u32 h →
  net_inv (n + 1) (net_buffer_begin s p c h a o).1.
Proof.
  intros Hs Hlt Hc Hh. assert (net_inv (n + 1) s) as Hs1 by
    (destruct Hs; split; try done; by apply (stats_ok_mono n); [lia|]).
  unfold net_buffer_begin. destruct (Z.eqb_spec p 0); [done|].
  destruct ((c =? 0) || _ || _ || _) eqn:Hg; [done|]. rewrite (ni_init n s Hs). cbn [negb].
  destruct (bool_decide _ || _) eqn:Hf; [done|]. apply orb_false_iff in Hf as [Hf _].
  apply bool_decide_eq_false in Hf.
  destruct (net_buffer_free_slot_locked s) as [slot|] eqn:Hslot; [|by apply inv_fail].
  assert (p ∉ net_buffer_registry s) by (by rewrite <-find_slot_elem).
  apply inv_begin; try done. unfold is_u32 in *.
  split; buffer_cbn; rewrite ?u32_small; try lia.
  - done.
  - change (net_buffer_owner_valid o = true). lia.
Qed.

Lemma set_layout_inv n s p h l :
  net_inv n s → is_u32 h → is_u32 l →
  net_inv (n + 1) (net_buffer_set_layout_locked s p h l).1.
Proof.
  intros Hs Hh Hl. unfold net_buffer_set_layout_locked.
  check_active Hs p Hp; [by apply inv_fail| |by apply inv_fail].
  destruct (is_terminal (buf s p)) eqn:Ht; cbn [is_ok andb]; [by apply inv_fail|].
  pose proof (ni_buffers n s Hs p Hp) as Hb. unfold is_u32 in *.
  destruct (Z.gtb_spec h (nb_capacity (buf s p))); cbn [is_ok andb]; [by apply inv_fail|].
  destruct Hb as [B1 B2 B3 B4 B5 B6 B7 B8 B9]. rewrite u32_small by lia.
  destruct (Z.gtb_spec l (nb_capacity (buf s p) - h)); cbn [is_ok andb]; [by apply inv_fail|].
  apply inv_write; try done. split; buffer_cbn; rewrite ?u32_small; (done || lia).
Qed.

Lemma set_length_inv n s p l :
  net_inv n s → is_u32 l → net_inv (n + 1) (net_buffer_set_length s p l).1.
Proof.
  intros Hs Hl. unfold net_buffer_set_length.
  destruct (is_ok (net_buffer_check_active_locked s p)) eqn:E; [|by apply inv_fail].
  apply set_layout_inv; try done. revert E. check_active Hs p Hp; try done. intros _.
  destruct (ni_buffers n s Hs p Hp). unfold is_u32. lia.
Qed.

Lemma transition_inv n s p st o :
  net_inv n s → net_inv (n + 1) (net_buffer_transition s p st o).1.
Proof.
  intros Hs. unfold net_buffer_transition. destruct (_ || _); [by apply inv_fail|].
  check_active Hs p Hp; [by apply inv_fail| |by apply inv_fail].
  destruct (net_buffer_transition_allowed _ st) eqn:Ha; cbn [is_ok andb negb]; [|by apply inv_fail].
  destruct (net_buffer_state_owner_valid st o) eqn:Ho; cbn [is_ok andb negb]; [|by apply inv_fail].
  apply transition_allowed_states in Ha. destruct (ni_buffers n s Hs p Hp).
  apply inv_write; try done.
  - split; buffer_cbn; (done || lia).
  - rewrite !terminal_done; [done|..]; apply not_terminal_spec; buffer_cbn; lia.
Qed.

Lemma complete_inv n s p r o :
  net_inv n s → n + 1 < 2 ^ 32 → net_inv (n + 1) (net_buffer_complete_locked s p r o).1.
Proof.
  intros Hs Hlt. unfold net_buffer_complete_locked.
  check_active Hs p Hp; [by apply inv_fail| |by apply inv_fail].
  destruct (is_terminal (buf s p)) eqn:Ht; [by apply inv_fail|].
  pose proof (ni_buffers n s Hs p Hp) as []. pose proof (ni_stats n s Hs) as [].
  destruct (is_ok r).
  - destruct (_ && _ && _); [by apply inv_fail|]. destruct (_ && _) eqn:Ho; [by apply inv_fail|].
    apply (inv_update n s p _ _ 1 0 0); try done.
    + split; buffer_cbn; (done || unfold NET_BUFFER_STATE_DELIVERED; lia || idtac).
      change ((o =? 0) || net_buffer_owner_valid o = true). unfold NET_BUFFER_OWNER_NONE in Ho. lia.
    + destruct (net_buffer_stats s). unfold counts_change. net_cbn. cbn in *.
      rewrite u32_small by lia. lia.
    + by rewrite (terminal_done _ Ht).
    + buffer_cbn. lia.
  - destruct (_ && _ && _ && _); [by apply inv_fail|]. destruct (negb _); [by apply inv_fail|].
    apply (inv_update n s p _ _ 1 0 0); try done.
    + destruct (net_buffer_stats s). unfold counts_change. net_cbn. cbn in *.
      rewrite u32_small by lia. lia.
    + by rewrite (terminal_done _ Ht).
    + buffer_cbn. lia.
Qed.

Lemma retain_inv n s p :
  net_inv n s → n + 1 < 2 ^ 32 → net_inv (n + 1) (net_buffer_retain s p).1.
Proof.
  intros Hs Hlt. unfold net_buffer_retain.
  check_active Hs p Hp; [by apply inv_fail| |by apply inv_fail].
  pose proof (ni_buffers n s Hs p Hp) as []. pose proof (ni_stats n s Hs) as [].
  unfold NET_BUFFER_COUNTER_MAX.
  destruct (Z.eqb_spec (nb_refcount (buf s p)) 0xFFFFFFFF); [by apply inv_fail|]. cbn [is_ok negb].
  apply (inv_update n s p _ _ 0 1 0); try done.
  - split; buffer_cbn; rewrite ?u32_small by lia; (done || lia).
  - destruct (net_buffer_stats s). unfold counts_change. net_cbn. cbn in *.
    rewrite u32_small by lia. lia.
  - unfold done_, is_terminal. buffer_cbn. lia.
  - buffer_cbn. rewrite u32_small by lia. lia.
Qed.

Lemma live_find s p :
  p ∈ live (net_buffer_registry s) → ∃ slot, net_buffer_find_locked s p = Some slot.
Proof. intros [_ Hin]%elem_of_live. by apply find_slot_elem in Hin. Qed.

Lemma release_inv n s p :
  net_inv n s → n + 1 < 2 ^ 32 → net_inv (n + 1) (net_buffer_release s p).1.
Proof.
  intros Hs Hlt. unfold net_buffer_release.
  check_active Hs p Hp; [by apply inv_fail| |by apply inv_fail].
  destruct (is_terminal (buf s p)) eqn:Ht; cbn [is_ok negb]; [|by apply inv_fail].
  pose proof (ni_buffers n s Hs p Hp) as []. pose proof (ni_stats n s Hs) as [].
  destruct (Z.gtb_spec (nb_refcount (buf s p)) 1).
  - apply (inv_update n s p _ _ 0 0 1); try done.
    + split; buffer_cbn; rewrite ?u32_small by lia; (done || lia).
    + destruct (net_buffer_stats s). unfold counts_change. net_cbn. cbn in *.
      rewrite u32_small by lia. lia.
    + unfold done_, is_terminal. buffer_cbn. lia.
    + buffer_cbn. rewrite u32_small by lia. lia.
  - destruct (live_find s p Hp) as [slot Hslot]. rewrite Hslot.
    by apply inv_free; try done; lia.
Qed.

Inductive net_op :=
| NInit
| NBegin (p c h a o : Z)
| NSetLayout (p h l : Z)
| NSetLength (p l : Z)
| NTransition (p st o : Z)
| NComplete (p : Z) (r : status) (o : Z)
| NRetain (p : Z)
| NRelease (p : Z)
| NCopy (bytes : Z)
| NClone
| NFragment.

Definition exec (op : net_op) (s : net_t) : net_t * status :=
  match op with
  | NInit => net_buffer_init s
  | NBegin p c h a o => net_buffer_begin s p c h a o
  | NSetLayout p h l => net_buffer_set_layout s p h l
  | NSetLength p l => net_buffer_set_length s p l
  | NTransition p st o => net_buffer_transition s p st o
  | NComplete p r o => net_buffer_complete s p r o
  | NRetain p => net_buffer_retain s p
  | NRelease p => net_buffer_release s p
  | NCopy b => net_buffer_note_copy s b
  | NClone => net_buffer_note_clone s
  | NFragment => net_buffer_note_fragment s
  end.

(** Sizes are 32-bit values. *)
Definition op_ok (op : net_op) : Prop :=
  match op with
  | NBegin p c h a o => is_u32 c ∧ is_u32 h
  | NSetLayout p h l => is_u32 h ∧ is_u32 l
  | NSetLength p l => is_u32 l
  | _ => True
  end.

(** The calls since start-up, counted; between calls the owner of a
    descriptor that is not registered may write it. *)
Inductive run : Z → net_t → Prop :=
| run_boot m li te : run 0 (net_buffer_init (Net m stats_zero registry_zero li te)).1
| run_op n s op : run n s → op_ok op → run (n + 1) (exec op s).1
| run_write n s p b : run n s → p ∉ net_buffer_registry s → run n (write_buf s p b).

Lemma exec_inv n s op :
  net_inv n s → n + 1 < 2 ^ 32 → op_ok op → net_inv (n + 1) (exec op s).1.
Proof.
  intros Hs Hlt Hop. assert (net_inv (n + 1) s) as Hs1 by
    (destruct Hs; split; try done; by apply (stats_ok_mono n); [lia|]).
  destruct op; cbn [exec op_ok] in *.
  - unfold net_buffer_init. destruct (_ =? 0).
    + change (is_initialized (s <| net_buffer_lock_initialized := 1 |>)) with (is_initialized s).
      rewrite (ni_init n s Hs). by destruct Hs1.
    + by rewrite (ni_init n s Hs).
  - destruct Hop. by apply begin_inv.
  - destruct Hop. by apply set_layout_inv.
  - by apply set_length_inv.
  - by apply transition_inv.
  - by apply complete_inv.
  - by apply retain_inv.
  - by apply release_inv.
  - unfold net_buffer_note_copy. rewrite (ni_init n s Hs). cbn [negb].
    destruct (_ >? _); [by apply inv_fail|]. apply (inv_count n s (λ st, set ns_copied_bytes _ (set ns_copies _ st))); [|done].
    by intros [].
  - unfold net_buffer_note_clone. rewrite (ni_init n s Hs). cbn [negb]. by apply inv_count.
  - unfold net_buffer_note_fragment. rewrite (ni_init n s Hs). cbn [negb]. by apply inv_count.
Qed.

Lemma boot_inv m li te : net_inv 0 (net_buffer_init (Net m stats_zero registry_zero li te)).1.
Proof.
  unfold net_buffer_init. destruct (_ =? 0); cbn; (split; [done..|constructor| |]);
    (intros p []%elem_of_nil || (by split)).
Qed.

Lemma write_inv n s p b :
  net_inv n s → p ∉ net_buffer_registry s → net_inv n (write_buf s p b).
Proof.
  intros [Hi Hl Hn Hb Hs] Hp.
  assert (∀ q, q ∈ live (net_buffer_registry s) → buf (write_buf s p b) q = buf s q) as Hq.
  { intros q [_ Hin]%elem_of_live. rewrite buf_write, decide_False; [done|]. congruence. }
  split; try done; [intros q Hin; rewrite Hq by done; by apply Hb|].
  change (net_buffer_registry (write_buf s p b)) with (net_buffer_registry s).
  change (net_buffer_stats (write_buf s p b)) with (net_buffer_stats s).
  destruct Hs; split; try done.
  - rewrite (sum_ext _ (λ q, done_ (buf s q))); [done|]. intros q Hin. by rewrite Hq.
  - rewrite (sum_ext _ (λ q, nb_refcount (buf s q))); [done|]. intros q Hin. by rewrite Hq.
Qed.

Lemma run_inv n s : run n s → 0 ≤ n ∧ (n < 2 ^ 32 → net_inv n s).
Proof.
  induction 1 as [m li te|n s op Hr [Hn IH] Hop|n s p b Hr [Hn IH] Hp].
  - split; [lia|]. intros _. apply boot_inv.
  - split; [lia|]. intros Hlt. apply exec_inv; [apply IH|..]; done || lia.
  - split; [lia|]. intros Hlt. by apply write_inv; [apply IH|].
Qed.

Lemma validate_entry_ok s p : p ≠ 0 → buffer_ok (buf s p) → net_buffer_validate_entry_locked s p = OK.
Proof.
  intros Hp [B1 B2 B3 B4 B5 B6 B7 B8 B9]. unfold net_buffer_validate_entry_locked.
  rewrite B3, B9, !u32_small by lia.
  unfold NET_BUFFER_STATE_ALLOCATED, NET_BUFFER_STATE_DROPPED.
  replace (_ || _ || _) with false by lia. by replace (_ || _) with false by lia.
Qed.

Lemma validate_scan_ok s l a :
  NoDup (live l) → (∀ p, p ∈ live l → buffer_ok (buf s p)) → 0 ≤ a →
  a + Z.of_nat (length l) < 2 ^ 32 →
  validate_scan s l a OK = (a + Z.of_nat (length (live l)), OK).
Proof.
  revert a. induction l as [|p l IH]; intros a Hn Hb Ha Hl; [cbn; f_equal; lia|].
  cbn [validate_scan length] in *. rewrite live_cons in *. destruct (Z.eqb_spec p 0) as [|Hp].
  - apply IH; done || lia.
  - apply NoDup_cons in Hn as [Hni Hn].
    rewrite validate_entry_ok by (done || apply Hb; constructor). cbn [is_ok negb].
    assert (existsb (λ other, p =? other) l = false) as ->.
    { apply not_true_iff_false. intros (q & Hin & ->%Z.eqb_eq)%existsb_exists.
      apply Hni, elem_of_live. by split; [|apply list_elem_of_In]. }
    rewrite u32_small, IH; [cbn [length]; f_equal; lia|done| |lia..].
    intros q Hq. apply Hb. by constructor.
Qed.

Lemma net_validate_ok n s : net_inv n s → net_buffer_validate_state s = OK.
Proof.
  intros [Hi Hl Hn Hb Hs]. unfold net_buffer_validate_state. rewrite Hi. cbn [negb].
  pose proof (live_length (net_buffer_registry s)) as Hlen. rewrite Hl in Hlen.
  change (Z.to_nat NET_BUFFER_TRACKING_CAPACITY) with 32%nat in *. destruct Hs.
  rewrite validate_scan_ok by (done || lia). rewrite Z.add_0_l.
  unfold NET_BUFFER_TRACKING_CAPACITY. by replace (_ || _) with false by lia.
Qed.

(** ** The life cycle *)

Definition moves (b b' : net_buffer_t) : Prop :=
  nb_capacity b' = nb_capacity b ∧ nb_alignment b' = nb_alignment b ∧
  (nb_state b' = nb_state b ∨
   net_buffer_transition_allowed (nb_state b) (nb_state b') = true ∨
   is_terminal b = false ∧ is_terminal b' = true).

(** What one call does to the descriptors and the registry. *)
Inductive effect (op : net_op) (s s' : net_t) : Prop :=
| EffectNone :
    net_mem s' = net_mem s → net_buffer_registry s' = net_buffer_registry s → effect op s s'
| EffectMove p b :
    p ∈ live (net_buffer_registry s) → moves (buf s p) b →
    net_mem s' = <[p := b]> (net_mem s) →
    net_buffer_registry s' = net_buffer_registry s → effect op s s'
| EffectBegin p b slot :
    p ∉ net_buffer_registry s → p ≠ 0 → net_buffer_registry s !! slot = Some 0 →
    net_mem s' = <[p := b]> (net_mem s) →
    net_buffer_registry s' = <[slot := p]> (net_buffer_registry s) → effect op s s'
| EffectFree p b slot :
    op = NRelease p → p ≠ 0 → net_buffer_registry s !! slot = Some p →
    is_terminal (buf s p) = true → nb_refcount (buf s p) = 1 →
    nb_state b = NET_BUFFER_STATE_FREED → net_mem s' = <[p := b]> (net_mem s) →
    net_buffer_registry s' = <[slot := 0]> (net_buffer_registry s) → effect op s s'.

Lemma fail_effect op s r d : effect op s (net_buffer_fail_locked s r d).1.
Proof. destruct (fail_state s r d) as (f & _ & ->). by apply EffectNone. Qed.

Lemma set_layout_effect op n s p h l :
  net_inv n s → effect op s (net_buffer_set_layout_locked s p h l).1.
Proof.
  intros Hs. unfold net_buffer_set_layout_locked.
  check_active Hs p Hp; [apply fail_effect| |apply fail_effect].
  destruct (is_terminal (buf s p)); cbn [is_ok andb]; [apply fail_effect|].
  destruct (h >? _); cbn [is_ok andb]; [apply fail_effect|].
  destruct (l >? _); cbn [is_ok andb]; [apply fail_effect|].
  eapply EffectMove; try done. split; [done|]. split; [done|]. by left.
Qed.

Lemma complete_effect op n s p r o :
  net_inv n s → effect op s (net_buffer_complete_locked s p r o).1.
Proof.
  intros Hs. unfold net_buffer_complete_locked.
  check_active Hs p Hp; [apply fail_effect| |apply fail_effect].
  destruct (is_terminal (buf s p)) eqn:Ht; [apply fail_effect|]. destruct (is_ok r).
  - destruct (_ && _ && _); [apply fail_effect|]. destruct (_ && _); [apply fail_effect|].
    eapply EffectMove; try done. split; [done|]. split; [done|]. by right; right.
  - destruct (_ && _ && _ && _); [apply fail_effect|]. destruct (negb _); [apply fail_effect|].
    eapply EffectMove; try done. split; [done|]. split; [done|]. by right; right.
Qed.

Lemma release_effect n s p : net_inv n s → effect (NRelease p) s (net_buffer_release s p).1.
Proof.
  intros Hs. unfold net_buffer_release.
  check_active Hs p Hp; [apply fail_effect| |apply fail_effect].
  destruct (is_terminal (buf s p)) eqn:Ht; cbn [is_ok negb]; [|apply fail_effect].
  pose proof (ni_buffers n s Hs p Hp) as []. destruct (Z.gtb_spec (nb_refcount (buf s p)) 1).
  - eapply EffectMove; try done. split; [done|]. split; [done|]. by left.
  - destruct (live_find s p Hp) as [slot Hslot]. rewrite Hslot. apply find_slot_Some in Hslot.
    destruct (negb (ns_active_buffers _ =? 0)); apply (EffectFree _ _ _ p
      ((buf s p) <| nb_refcount := 0 |> <| nb_state := NET_BUFFER_STATE_FREED |>
        <| nb_owner := NET_BUFFER_OWNER_NONE |>) slot); done || lia.
Qed.

Lemma exec_effect n s op : net_inv n s → effect op s (exec op s).1.
Proof.
  intros Hs. destruct op; cbn [exec].
  - unfold net_buffer_init. destruct (_ =? 0).
    + change (is_initialized (s <| net_buffer_lock_initialized := 1 |>)) with (is_initialized s).
      rewrite (ni_init n s Hs). by apply EffectNone.
    + rewrite (ni_init n s Hs). by apply EffectNone.
  - unfold net_buffer_begin. destruct (Z.eqb_spec p 0); [by apply EffectNone|].
    destruct (_ || _ || _ || _); [by apply EffectNone|]. rewrite (ni_init n s Hs). cbn [negb].
    destruct (bool_decide _ || _) eqn:Hf; [by apply EffectNone|].
    apply orb_false_iff in Hf as [Hf%bool_decide_eq_false _].
    destruct (net_buffer_free_slot_locked s) as [slot|] eqn:Hslot; [|apply fail_effect].
    assert (p ∉ net_buffer_registry s) by (by rewrite <-find_slot_elem).
    apply find_slot_Some in Hslot. cbn [fst].
    eapply (EffectBegin _ _ _ p _ slot); try done; by destruct (_ >? _).
  - by apply set_layout_effect with n.
  - unfold net_buffer_set_length.
    destruct (is_ok _); [by apply set_layout_effect with n|apply fail_effect].
  - unfold net_buffer_transition. destruct (_ || _); [apply fail_effect|].
    check_active Hs p Hp; [apply fail_effect| |apply fail_effect].
    destruct (net_buffer_transition_allowed _ st) eqn:Ha; cbn [is_ok andb negb]; [|apply fail_effect].
    destruct (net_buffer_state_owner_valid st o); cbn [is_ok andb negb]; [|apply fail_effect].
    eapply EffectMove; try done. split; [done|]. split; [done|]. by right; left.
  - by apply complete_effect with n.
  - unfold net_buffer_retain. check_active Hs p Hp; [apply fail_effect| |apply fail_effect].
    destruct (_ =? NET_BUFFER_COUNTER_MAX); cbn [is_ok negb]; [apply fail_effect|].
    eapply EffectMove; try done. split; [done|]. split; [done|]. by left.
  - by apply release_effect with n.
  - unfold net_buffer_note_copy. rewrite (ni_init n s Hs). cbn [negb].
    destruct (_ >? _); [apply fail_effect|by apply EffectNone].
  - unfold net_buffer_note_clone. rewrite (ni_init n s Hs). by apply EffectNone.
  - unfold net_buffer_note_fragment. rewrite (ni_init n s Hs). by apply EffectNone.
Qed.

(** ** Theorems *)


(** A descriptor at address 4096 allocated and completed. *)
Definition demo_boot : net_t := (net_buffer_init (Net ∅ stats_zero registry_zero 0 0)).1.
Definition demo_live : net_t := (exec (NBegin 4096 1518 32 1 2) demo_boot).1.
Definition demo_done : net_t := (exec (NComplete 4096 ERR_TIMEOUT 0) demo_live).1.
Lemma net_demo_run : run 2 demo_done.
Proof. apply (run_op 1); [apply (run_op 0); [apply run_boot|unfold op_ok, is_u32; lia]|done]. Qed.




(** A live descriptor only moves forward.  Whatever the next call, a live
    descriptor either stays live, with its capacity and alignment and either
    the same state, a state the transition table allows from it, or a final
    state entered from one that is not; or it was in a final state with one
    reference left and the call is the release that frees it. *)
Theorem net_buffer_life_cycle n s op p :
  run n s → n + 1 < 2 ^ 32 → op_ok op → p ∈ live (net_buffer_registry s) →
  let s' := (exec op s).1 in
  (p ∈ live (net_buffer_registry s') ∧ moves (buf s p) (buf s' p)) ∨
  (op = NRelease p ∧ ¬ p ∈ live (net_buffer_registry s') ∧ is_terminal (buf s p) = true ∧
   nb_refcount (buf s p) = 1 ∧ nb_state (buf s' p) = NET_BUFFER_STATE_FREED).
Proof.
  intros [_ Hs]%run_inv Hlt Hop Hp s'. specialize (Hs ltac:(lia)).
  assert (moves (buf s p) (buf s p)) as Hsame by (split; [done|]; split; [done|]; by left).
  pose proof (exec_effect n s op Hs) as He. fold s' in He. unfold buf in *.
  destruct He as [Hm Hr|q b Hq Hmv Hm Hr|q b slot Hq Hq0 Hsl Hm Hr|q b slot Ho Hq0 Hsl Ht Hc Hst Hm Hr];
    rewrite Hm, Hr.
  - by left.
  - left. split; [done|]. destruct (decide (q = p)) as [->|].
    + by rewrite lookup_insert_eq.
    + by rewrite lookup_insert_ne.
  - left. assert (q ≠ p) by (intros ->; by apply elem_of_live in Hp as [_ ?]).
    rewrite lookup_insert_ne by done. split; [|done].
    rewrite (live_insert _ _ q Hsl Hq0). by constructor.
  - pose proof (live_clear _ _ q Hsl Hq0) as HL. destruct (decide (q = p)) as [->|].
    + right. rewrite lookup_insert_eq. split; [done|]. split; [|done].
      pose proof (ni_nodup n s Hs) as Hn. rewrite HL in Hn. by apply NoDup_cons in Hn as [? _].
    + left. rewrite lookup_insert_ne by done. split; [|done].
      rewrite HL in Hp. apply elem_of_cons in Hp as [|]; [congruence|done].
Qed.

Lemma net_buffer_life_cycle_witness :
  nb_state (buf (exec (NRelease 4096) demo_done).1 4096) = NET_BUFFER_STATE_FREED.
Proof.
  destruct (net_buffer_life_cycle 2 demo_done (NRelease 4096) 4096 net_demo_run ltac:(lia) I)
    as [[H _]|(_ & _ & _ & _ & H)].
  - apply list_elem_of_lookup. exists 0%nat. vm_compute. reflexivity.
  - exfalso. revert H. vm_compute. intros H. inversion H.
  - exact H.
Defined.

(** The self test on a fresh component: all calls behave as it expects. *)
Example self_test_passes :
  let out := net_buffer_self_test demo_boot 4096 8192 12288 in
  out.2 = OK ∧ net_buffer_stats out.1 = net_buffer_stats demo_boot ∧
  net_buffer_registry out.1 = registry_zero.
Proof. vm_compute. done. Qed.

(** A descriptor allocated, dropped, released and cleared again: the registry
    is as before and both counters went up by one. *)
Record idle (a : Z) (s : net_t) : Prop := Idle {
  id_registry : net_buffer_registry s = registry_zero;
  id_mem : net_mem s !! 1 = Some buffer_zero;
  id_init : ns_initialized (net_buffer_stats s) = 1;
  id_active : ns_active_buffers (net_buffer_stats s) = 0;
  id_allocations : ns_allocations (net_buffer_stats s) = u32 a;
  id_frees : ns_frees (net_buffer_stats s) = u32 a
}.

Definition registry_one : list Z := 1 :: replicate 31 0.
Definition begun (b : net_buffer_t) (a : Z) (s : net_t) : Prop :=
  net_buffer_registry s = registry_one ∧ net_mem s !! 1 = Some b ∧
  ns_initialized (net_buffer_stats s) = 1 ∧ ns_active_buffers (net_buffer_stats s) = 1 ∧
  ns_allocations (net_buffer_stats s) = u32 (a + 1) ∧ ns_frees (net_buffer_stats s) = u32 a.

Definition fresh_buffer : net_buffer_t := NetBuffer 1 2 1 64 0 0 64 1 OK.
Definition dropped_buffer : net_buffer_t := NetBuffer 6 0 1 64 0 0 64 1 ERR_TIMEOUT.

Lemma idle_begin a s : idle a s → begun fresh_buffer a (exec (NBegin 1 64 0 1 2) s).1.
Proof.
  intros [H1 H2 H3 H4 H5 H6]. destruct s as [m [i ac pk al fr de dr co cb cl fg iv du aq re le] reg li te].
  cbn in H1, H2, H3, H4, H5, H6. subst.
  set (out pk := Net (<[1 := fresh_buffer]> m)
    (NetBufferStats 1 1 pk (u32 a +w 1) (u32 a) de dr co cb cl fg iv du aq re le) registry_one li te).
  assert (exec (NBegin 1 64 0 1 2) (Net m (NetBufferStats 1 0 pk (u32 a) (u32 a) de dr co cb cl fg
    iv du aq re le) registry_zero li te) = (if 1 >? pk then out 1 else out pk, OK)) as ->.
  { cbn [exec]. unfold net_buffer_begin, buf. cbn [net_mem]. rewrite H2. reflexivity. }
  destruct (1 >? pk); (split; [done|]; split; [apply lookup_insert_eq|]; split; [done|];
    split; [done|]; split; [apply u32_add_l|done]).
Qed.

Lemma begun_complete a s :
  begun fresh_buffer a s → begun dropped_buffer a (exec (NComplete 1 ERR_TIMEOUT 0) s).1.
Proof.
  intros (H1 & H2 & H3 & H4 & H5 & H6).
  destruct s as [m [i ac pk al fr de dr co cb cl fg iv du aq re le] reg li te].
  cbn in H1, H2, H3, H4, H5, H6. subst. cbn [exec].
  unfold net_buffer_complete, net_buffer_complete_locked, net_buffer_check_active_locked, buf.
  cbn [net_mem]. rewrite H2. split; [done|]. split; [apply lookup_insert_eq|done].
Qed.

Lemma begun_release a s :
  begun dropped_buffer a s → ∃ s', exec (NRelease 1) s = (s', OK) ∧
  find_slot 1 (net_buffer_registry s') = None ∧ idle (a + 1) (write_buf s' 1 buffer_zero).
Proof.
  intros (H1 & H2 & H3 & H4 & H5 & H6).
  destruct s as [m [i ac pk al fr de dr co cb cl fg iv du aq re le] reg li te].
  cbn in H1, H2, H3, H4, H5, H6. subst.
  exists (Net (<[1 := dropped_buffer <| nb_refcount := 0 |> <| nb_state := 7 |> <| nb_owner := 0 |>]> m)
    (NetBufferStats 1 0 pk (u32 (a + 1)) (u32 a +w 1) de dr co cb cl fg iv du aq (re +w 1) le)
    registry_zero li te).
  split; [|split; [done|]].
  - cbn [exec]. unfold net_buffer_release, net_buffer_check_active_locked, buf.
    cbn [net_mem]. rewrite H2. reflexivity.
  - split; [done|apply lookup_insert_eq|done..|apply u32_add_l].
Qed.

Lemma idle_reached a : 0 ≤ a → ∃ n s, run n s ∧ idle a s.
Proof.
  intros Ha. pattern a. apply natlike_ind; [| |done].
  - exists 0, (write_buf demo_boot 1 buffer_zero). split; [|by split].
    apply run_write; [apply run_boot|]. by apply find_slot_None.
  - intros x Hx (n & s & Hr & Hs). exists (n + 1 + 1 + 1).
    apply idle_begin in Hs. apply begun_complete in Hs. apply begun_release in Hs as (s' & E & Hni & Hs).
    eexists. split; [|exact Hs]. apply run_write; [|by apply find_slot_None].
    change s' with (s', OK).1. rewrite <-E. do 2 (apply run_op; [|done]).
    apply run_op; [done|]. unfold op_ok, is_u32. lia.
Qed.

(** The bound of 2^32 calls is needed.  The allocation counter wraps at
    the 2^32nd allocation, and then [net_buffer_validate_state], which compares
    it with the free counter, reports [ERR_STATE] on a state with one sound
    live buffer. *)
Theorem net_buffer_counters_wrap :
  ∃ n s, run n s ∧ net_buffer_validate_state s = ERR_STATE ∧
    live (net_buffer_registry s) = [1] ∧ net_buffer_validate_entry_locked s 1 = OK.
Proof.
  destruct (idle_reached (2 ^ 32 - 1) ltac:(lia)) as (n & s & Hr & Hs).
  apply idle_begin in Hs. exists (n + 1), (exec (NBegin 1 64 0 1 2) s).1.
  split; [apply run_op; [done|unfold op_ok, is_u32; lia]|].
  destruct (exec (NBegin 1 64 0 1 2) s) as [s' r]. cbn [fst] in *.
  destruct Hs as (H1 & H2 & H3 & H4 & H5 & H6).
  assert (net_buffer_validate_entry_locked s' 1 = OK) as Hv.
  { unfold net_buffer_validate_entry_locked, buf. by rewrite H2. }
  split; [|split; [by rewrite H1|done]].
  unfold net_buffer_validate_state, is_initialized. rewrite H1, H3, H4, H5, H6.
  cbn [validate_scan registry_one replicate Z.eqb negb]. by rewrite Hv.
Qed.
