(* ===== verification/Sha256.v ===== *)
(** * SHA-256 and the constant-time comparison of src/core/crypto.c

    The incremental hash keeps eight state words, the bytes seen so far and a
    64-byte block being filled.  The reference definition is the one of
    FIPS 180-4, on the whole message: padding, block decomposition, message
    schedule by recursion and the eight-word compression.  The theorems show
    that any sequence of updates followed by the final call gives the
    reference digest of the concatenation.  Pointers are not null. *)

From S2P Require Import Prelude.

(** ** The code *)

Definition SHA256_BLOCK_SIZE : Z := 64.
Definition SHA256_WORD_COUNT : Z := 64.
Definition CRYPTO_SHA256_SIZE : Z := 32.

Definition sha256_constants : list Z := [
  0x428A2F98; 0x71374491; 0xB5C0FBCF; 0xE9B5DBA5;
  0x3956C25B; 0x59F111F1; 0x923F82A4; 0xAB1C5ED5;
  0xD807AA98; 0x12835B01; 0x243185BE; 0x550C7DC3;
  0x72BE5D74; 0x80DEB1FE; 0x9BDC06A7; 0xC19BF174;
  0xE49B69C1; 0xEFBE4786; 0x0FC19DC6; 0x240CA1CC;
  0x2DE92C6F; 0x4A7484AA; 0x5CB0A9DC; 0x76F988DA;
  0x983E5152; 0xA831C66D; 0xB00327C8; 0xBF597FC7;
  0xC6E00BF3; 0xD5A79147; 0x06CA6351; 0x14292967;
  0x27B70A85; 0x2E1B2138; 0x4D2C6DFC; 0x53380D13;
  0x650A7354; 0x766A0ABB; 0x81C2C92E; 0x92722C85;
  0xA2BFE8A1; 0xA81A664B; 0xC24B8B70; 0xC76C51A3;
  0xD192E819; 0xD6990624; 0xF40E3585; 0x106AA070;
  0x19A4C116; 0x1E376C08; 0x2748774C; 0x34B0BCB5;
  0x391C0CB3; 0x4ED8AA4A; 0x5B9CCA4F; 0x682E6FF3;
  0x748F82EE; 0x78A5636F; 0x84C87814; 0x8CC70208;
  0x90BEFFFA; 0xA4506CEB; 0xBEF9A3F7; 0xC67178F2].

Record crypto_sha256_ctx_t := Sha256Ctx {
  ctx_state : list Z; ctx_total_size : Z; ctx_buffer : list Z; ctx_buffer_size : Z
}.
#[export] Instance sha256_ctx_eta : Eta crypto_sha256_ctx_t := λ r,
  Sha256Ctx (ctx_state r) (ctx_total_size r) (ctx_buffer r) (ctx_buffer_size r).

Definition zeros (n : Z) : list Z := replicate (Z.to_nat n) 0.
Definition ctx_zero : crypto_sha256_ctx_t := Sha256Ctx (zeros 8) 0 (zeros 64) 0.

(** Array writes: one element, and [kmemcpy] into an array. *)
Definition put (l : list Z) (i v : Z) : list Z := <[Z.to_nat i := v]> l.
Definition write_at (l : list Z) (i : Z) (src : list Z) : list Z :=
  take (Z.to_nat i) l ++ src ++ drop (Z.to_nat i + length src) l.

Definition sha256_rotate_right (value count : Z) : Z :=
  (value >>w count) |w (value <<w (32 - count)).

Definition sha256_load_be (data : list Z) (i : Z) : Z :=
  (at_ data i <<w 24) |w (at_ data (i + 1) <<w 16) |w (at_ data (i + 2) <<w 8) |w at_ data (i + 3).

(** The four bytes written. *)
Definition sha256_store_be (value : Z) : list Z :=
  [u8 (value >>w 24); u8 (value >>w 16); u8 (value >>w 8); u8 value].

(** One step of each loop of [sha256_expand_words]; the list holds the words
    written so far. *)
Definition load_word (block : list Z) (words : list Z) (index : Z) : list Z :=
  words ++ [sha256_load_be block (index * 4)].
Definition expand_word (words : list Z) (index : Z) : list Z :=
  let first := at_ words (index - 15) in
  let second := at_ words (index - 2) in
  let sigma0 := Z.lxor (Z.lxor (sha256_rotate_right first 7) (sha256_rotate_right first 18))
                  (first >>w 3) in
  let sigma1 := Z.lxor (Z.lxor (sha256_rotate_right second 17) (sha256_rotate_right second 19))
                  (second >>w 10) in
  words ++ [at_ words (index - 16) +w sigma0 +w at_ words (index - 7) +w sigma1].
Definition sha256_expand_words (block : list Z) : list Z :=
  foldl expand_word (foldl (load_word block) [] (range 0 16)) (range 16 SHA256_WORD_COUNT).

(** The eight working variables. *)
Record vars := Vars { va : Z; vb : Z; vc : Z; vd : Z; ve : Z; vf : Z; vg : Z; vh : Z }.

Definition sha256_round (words : list Z) (v : vars) (index : Z) : vars :=
  let '(Vars a b c d e f g h) := v in
  let sigma1 := Z.lxor (Z.lxor (sha256_rotate_right e 6) (sha256_rotate_right e 11))
                  (sha256_rotate_right e 25) in
  let choice := Z.lxor (e &w f) (~w e &w g) in
  let temp1 := h +w sigma1 +w choice +w at_ sha256_constants index +w at_ words index in
  let sigma0 := Z.lxor (Z.lxor (sha256_rotate_right a 2) (sha256_rotate_right a 13))
                  (sha256_rotate_right a 22) in
  let majority := Z.lxor (Z.lxor (a &w b) (a &w c)) (b &w c) in
  let temp2 := sigma0 +w majority in
  Vars (temp1 +w temp2) a b c (d +w temp1) e f g.

Definition sha256_compress (ctx : crypto_sha256_ctx_t) (block : list Z) : crypto_sha256_ctx_t :=
  let st := at_ (ctx_state ctx) in
  let words := sha256_expand_words block in
  let v := foldl (sha256_round words)
             (Vars (st 0) (st 1) (st 2) (st 3) (st 4) (st 5) (st 6) (st 7))
             (range 0 SHA256_WORD_COUNT) in
  ctx <| ctx_state := [st 0 +w va v; st 1 +w vb v; st 2 +w vc v; st 3 +w vd v;
                       st 4 +w ve v; st 5 +w vf v; st 6 +w vg v; st 7 +w vh v] |>.

Definition crypto_sha256_init (ctx : crypto_sha256_ctx_t) : crypto_sha256_ctx_t * status :=
  (Sha256Ctx [0x6A09E667; 0xBB67AE85; 0x3C6EF372; 0xA54FF53A;
              0x510E527F; 0x9B05688C; 0x1F83D9AB; 0x5BE0CD19] 0 (zeros 64) 0, OK).

(** The context and the input left. *)
Definition sha256_copy_input (ctx : crypto_sha256_ctx_t) (data : list Z) (size : Z)
    : crypto_sha256_ctx_t * list Z * Z :=
  let available := SHA256_BLOCK_SIZE -w ctx_buffer_size ctx in
  let copied := if size <? available then size else available in
  let ctx := ctx <| ctx_buffer ::= λ b,
    write_at b (ctx_buffer_size ctx) (take (Z.to_nat copied) data) |> in
  let ctx := ctx <| ctx_buffer_size ::= λ n, n +w copied |> in
  (ctx, drop (Z.to_nat copied) data, size -w copied).

(** The loop of [crypto_sha256_update]; [None] when the fuel runs out. *)
Fixpoint update_loop (fuel : nat) (ctx : crypto_sha256_ctx_t) (data : list Z) (size : Z)
    : option crypto_sha256_ctx_t :=
  if negb (size >? 0) then Some ctx else
  match fuel with
  | O => None
  | S fuel =>
      let '(ctx, data, size) := sha256_copy_input ctx data size in
      let ctx := if ctx_buffer_size ctx =? SHA256_BLOCK_SIZE then
          let ctx := sha256_compress ctx (ctx_buffer ctx) in
          let ctx := ctx <| ctx_buffer_size := 0 |> in
          ctx <| ctx_buffer := zeros 64 |>
        else ctx in
      update_loop fuel ctx data size
  end.

Definition crypto_sha256_update (ctx : crypto_sha256_ctx_t) (data : list Z) (size : Z)
    : option (crypto_sha256_ctx_t * status) :=
  let original_size := size in
  match update_loop (Z.to_nat size) ctx data size with
  | None => None
  | Some ctx => Some (ctx <| ctx_total_size ::= λ n, u64 (n + original_size) |>, OK)
  end.

Definition sha256_append_length (ctx : crypto_sha256_ctx_t) (bit_length : Z) : crypto_sha256_ctx_t :=
  foldl (λ ctx index, ctx <| ctx_buffer ::= λ b, put b (63 - index) (u8 (bit_length >>w (index * 8))) |>)
    ctx (range 0 8).

(** [while (ctx->buffer_size < limit) ctx->buffer[ctx->buffer_size++] = 0]. *)
Fixpoint zero_loop (fuel : nat) (ctx : crypto_sha256_ctx_t) (limit : Z) : crypto_sha256_ctx_t :=
  match fuel with
  | O => ctx
  | S fuel =>
      if ctx_buffer_size ctx <? limit then
        zero_loop fuel (ctx <| ctx_buffer ::= λ b, put b (ctx_buffer_size ctx) 0 |>
                            <| ctx_buffer_size ::= λ n, n +w 1 |>) limit
      else ctx
  end.

(** The wiped context, the digest and the status. *)
Definition crypto_sha256_final (ctx : crypto_sha256_ctx_t)
    : crypto_sha256_ctx_t * list Z * status :=
  let bit_length := u64 (ctx_total_size ctx * 8) in
  let ctx := ctx <| ctx_buffer ::= λ b, put b (ctx_buffer_size ctx) 0x80 |>
                 <| ctx_buffer_size ::= λ n, n +w 1 |> in
  let ctx := if ctx_buffer_size ctx >? 56 then
      let ctx := zero_loop 64 ctx SHA256_BLOCK_SIZE in
      let ctx := sha256_compress ctx (ctx_buffer ctx) in
      let ctx := ctx <| ctx_buffer_size := 0 |> in
      ctx <| ctx_buffer := zeros 64 |>
    else ctx in
  let ctx := zero_loop 64 ctx 56 in
  let ctx := sha256_append_length ctx bit_length in
  let ctx := sha256_compress ctx (ctx_buffer ctx) in
  let hash := concat (map (λ index, sha256_store_be (at_ (ctx_state ctx) index)) (range 0 8)) in
  (ctx_zero, hash, OK).

Definition crypto_sha256 (data : list Z) (size : Z) : option (list Z * status) :=
  let '(ctx, result) := crypto_sha256_init ctx_zero in
  if negb (is_ok result) then Some ([], result) else
  match crypto_sha256_update ctx data size with
  | None => None
  | Some (ctx, result) =>
      if negb (is_ok result) then Some ([], result) else
      let '(_, hash, result) := crypto_sha256_final ctx in Some (hash, result)
  end.

Definition crypto_equal (first second : list Z) (size : Z) : bool :=
  foldl (λ difference index, u8 (Z.lor difference (Z.lxor (at_ first index) (at_ second index))))
    0 (range 0 size) =? 0.

Definition test_message : list Z := [97; 98; 99].
Definition test_expected : list Z := [
  0xBA; 0x78; 0x16; 0xBF; 0x8F; 0x01; 0xCF; 0xEA;
  0x41; 0x41; 0x40; 0xDE; 0x5D; 0xAE; 0x22; 0x23;
  0xB0; 0x03; 0x61; 0xA3; 0x96; 0x17; 0x7A; 0x9C;
  0xB4; 0x10; 0xFF; 0x61; 0xF2; 0x00; 0x15; 0xAD].
Definition crypto_test_sha256 : status :=
  match crypto_sha256 test_message 3 with
  | Some (actual, OK) => if crypto_equal actual test_expected 32 then OK else ERR_INVALID
  | _ => ERR_INVALID
  end.

(** ** The reference: FIPS 180-4 *)

(** The integer [e]-th root of [x], bit by bit. *)
Fixpoint int_root (e x : Z) (bits : nat) (acc : Z) : Z :=
  match bits with
  | O => acc
  | S bits =>
      let next := acc + 2 ^ Z.of_nat bits in
      int_root e x bits (if next ^ e <=? x then next else acc)
  end.

(** The first 32 bits of the fractional parts of the cube roots of the first
    64 primes, and of the square roots of the first 8. *)
Definition primes : list Z :=
  base.filter (λ n, Is_true (forallb (λ d, negb (n mod d =? 0)) (range 2 n))) (range 2 312).
Definition round_constants : list Z :=
  map (λ p, u32 (int_root 3 (p * 2 ^ 96) 40 0)) primes.
Definition initial_hash : list Z :=
  map (λ p, u32 (int_root 2 (p * 2 ^ 64) 40 0)) (take 8 primes).

(** Rotation as arithmetic on 32-bit words. *)
Definition rotr (n x : Z) : Z := x / 2 ^ n + x mod 2 ^ n * 2 ^ (32 - n).
Definition shr (n x : Z) : Z := x / 2 ^ n.
Definition Ch (x y z : Z) : Z := Z.lxor (Z.land x y) (Z.land (u32 (Z.lnot x)) z).
Definition Maj (x y z : Z) : Z := Z.lxor (Z.lxor (Z.land x y) (Z.land x z)) (Z.land y z).
Definition Sigma0 (x : Z) : Z := Z.lxor (Z.lxor (rotr 2 x) (rotr 13 x)) (rotr 22 x).
Definition Sigma1 (x : Z) : Z := Z.lxor (Z.lxor (rotr 6 x) (rotr 11 x)) (rotr 25 x).
Definition sigma0 (x : Z) : Z := Z.lxor (Z.lxor (rotr 7 x) (rotr 18 x)) (shr 3 x).
Definition sigma1 (x : Z) : Z := Z.lxor (Z.lxor (rotr 17 x) (rotr 19 x)) (shr 10 x).

Definition be_value (bytes : list Z) : Z := foldl (λ acc b, 256 * acc + b) 0 bytes.

(** The schedule: the words of the block, then 48 more by the recurrence. *)
Fixpoint schedule (block : list Z) (t : nat) : list Z :=
  match t with
  | O => []
  | S t =>
      let W := schedule block t in
      W ++ [if decide (t < 16)%nat then be_value (take 4 (drop (4 * t) block))
            else u32 (sigma1 (nth (t - 2) W 0) + nth (t - 7) W 0 + sigma0 (nth (t - 15) W 0)
                      + nth (t - 16) W 0)]
  end.

Definition fips_round (v : vars) (kw : Z * Z) : vars :=
  let '(Vars a b c d e f g h) := v in
  let T1 := h + Sigma1 e + Ch e f g + kw.1 + kw.2 in
  let T2 := Sigma0 a + Maj a b c in
  Vars (u32 (T1 + T2)) a b c (u32 (d + T1)) e f g.

Definition fips_compress (H : list Z) (block : list Z) : list Z :=
  let v := foldl fips_round
    (Vars (at_ H 0) (at_ H 1) (at_ H 2) (at_ H 3) (at_ H 4) (at_ H 5) (at_ H 6) (at_ H 7))
    (zip round_constants (schedule block 64)) in
  zip_with (λ x y, u32 (x + y)) H [va v; vb v; vc v; vd v; ve v; vf v; vg v; vh v].

(** [n] as [k] big-endian bytes. *)
Fixpoint be_bytes (k : nat) (n : Z) : list Z :=
  match k with
  | O => []
  | S k => be_bytes k (n / 256) ++ [n mod 256]
  end.

Definition pad (m : list Z) : list Z :=
  m ++ [0x80] ++ zeros ((55 - len m) mod 64) ++ be_bytes 8 (8 * len m).

Fixpoint chunks (fuel : nat) (l : list Z) : list (list Z) :=
  match fuel, l with
  | S fuel, _ :: _ => take 64 l :: chunks fuel (drop 64 l)
  | _, _ => []
  end.

Definition sha256_reference (m : list Z) : list Z :=
  concat (map (be_bytes 4) (foldl fips_compress initial_hash (chunks (length (pad m)) (pad m)))).

Lemma constants_roots : round_constants = sha256_constants.
Proof. vm_compute. reflexivity. Qed.
Lemma initial_roots : initial_hash = ctx_state (crypto_sha256_init ctx_zero).1.
Proof. vm_compute. reflexivity. Qed.
#[local] Opaque round_constants initial_hash.

(** ** Words *)

Lemma rotate_right_rotr n x : 0 < n < 32 → is_word x → sha256_rotate_right x n = rotr n x.
Proof.
  intros Hn Hx. unfold sha256_rotate_right, rotr, is_word in *.
  rewrite Z.shiftr_div_pow2, Z.shiftl_mul_pow2 by lia.
  assert (u32 (x * 2 ^ (32 - n)) = x mod 2 ^ n * 2 ^ (32 - n)) as ->.
  { unfold u32. replace (2 ^ 32) with (2 ^ n * 2 ^ (32 - n)) by (rewrite <-Z.pow_add_r by lia; f_equal; lia).
    apply Z.mul_mod_distr_r; lia. }
  apply lor_low_high; [lia|]. split; [apply Z.div_pos; lia|].
  apply Z.div_lt_upper_bound; [lia|]. rewrite <-Z.pow_add_r by lia.
  replace (n + (32 - n)) with 32 by lia. lia.
Qed.

(** Sums wrapped at each step. *)
Lemma u32_add_4 a b c d : a +w b +w c +w d = u32 (a + b + c + d).
Proof. by rewrite (u32_add_l (a + b) c), u32_add_l. Qed.
Lemma u32_add_5 a b c d e : a +w b +w c +w d +w e = u32 (a + b + c + d + e).
Proof. by rewrite (u32_add_4 a b c d), u32_add_l. Qed.

Lemma shiftr_shr n x : 0 ≤ n → x >>w n = shr n x.
Proof. apply Z.shiftr_div_pow2. Qed.

Lemma load_be_value data i :
  is_byte (at_ data i) → is_byte (at_ data (i + 1)) → is_byte (at_ data (i + 2)) →
  is_byte (at_ data (i + 3)) →
  sha256_load_be data i =
  be_value [at_ data i; at_ data (i + 1); at_ data (i + 2); at_ data (i + 3)].
Proof.
  unfold is_byte, sha256_load_be. intros H0 H1 H2 H3.
  generalize dependent (at_ data i). generalize dependent (at_ data (i + 1)).
  generalize dependent (at_ data (i + 2)). generalize dependent (at_ data (i + 3)).
  intros d Hd c Hc b Hb a Ha. rewrite !Z.shiftl_mul_pow2 by lia.
  rewrite !u32_small by lia.
  replace (a * 2 ^ 24) with (a * 2 ^ 8 * 2 ^ 16) by lia.
  rewrite (Z.lor_comm (a * 2 ^ 8 * 2 ^ 16)).
  replace (Z.lor (b * 2 ^ 16) (a * 2 ^ 8 * 2 ^ 16)) with ((b + a * 2 ^ 8) * 2 ^ 8 * 2 ^ 8).
  2: { rewrite <-(Z.shiftl_mul_pow2 b 16), <-(Z.shiftl_mul_pow2 (a * 2 ^ 8) 16), <-Z.shiftl_lor by lia.
       rewrite lor_low_high by lia. rewrite Z.shiftl_mul_pow2 by lia. lia. }
  rewrite (Z.lor_comm _ (c * 2 ^ 8)).
  rewrite <-(Z.shiftl_mul_pow2 c 8), <-(Z.shiftl_mul_pow2 ((b + a * 2 ^ 8) * 2 ^ 8) 8),
    <-Z.shiftl_lor, (lor_low_high c (b + a * 2 ^ 8) 8), Z.shiftl_mul_pow2, Z.lor_comm by lia.
  rewrite lor_low_high by lia. unfold be_value. cbn -[Z.mul Z.add Z.pow]. lia.
Qed.

Lemma take_drop_4 (l : list Z) i :
  (i + 3 < length l)%nat →
  take 4 (drop i l) = [nth i l 0; nth (i + 1) l 0; nth (i + 2) l 0; nth (i + 3) l 0].
Proof.
  revert i. induction l as [|x l IH]; intros i H; cbn in H; [lia|]. destruct i as [|i].
  - destruct l as [| y [| z [| w l ] ] ]; cbn in H |- *; lia || done.
  - cbn [drop]. rewrite IH by lia. done.
Qed.

Lemma schedule_S block t :
  schedule block (S t) = schedule block t ++
    [if decide (t < 16)%nat then be_value (take 4 (drop (4 * t) block))
     else u32 (sigma1 (nth (t - 2) (schedule block t) 0) + nth (t - 7) (schedule block t) 0
               + sigma0 (nth (t - 15) (schedule block t) 0) + nth (t - 16) (schedule block t) 0)].
Proof. done. Qed.
#[local] Opaque schedule.

Lemma length_schedule block t : length (schedule block t) = t.
Proof. induction t as [|t IH]; [done|]. rewrite schedule_S, length_app, IH. cbn. lia. Qed.

Lemma be_value_4 a b c d :
  is_byte a → is_byte b → is_byte c → is_byte d → is_word (be_value [a; b; c; d]).
Proof. unfold is_byte, is_word, be_value. cbn -[Z.mul Z.add Z.pow]. lia. Qed.

Lemma schedule_words block t :
  length block = 64%nat → Forall is_byte block → Forall is_word (schedule block t).
Proof.
  intros Hl Hb. induction t as [|t IH]; [constructor|]. rewrite schedule_S.
  apply Forall_app. split; [done|]. constructor; [|constructor]. case_decide.
  - rewrite take_drop_4 by lia. by apply be_value_4; apply nth_byte.
  - apply u32_range.
Qed.

Lemma load_words block t :
  length block = 64%nat → Forall is_byte block → (t ≤ 16)%nat →
  foldl (load_word block) [] (range 0 (Z.of_nat t)) = schedule block t.
Proof.
  intros Hl Hb. induction t as [|t IH]; intros Ht; [done|].
  replace (Z.of_nat (S t)) with (Z.of_nat t + 1) by lia.
  rewrite range_snoc, foldl_app, IH, schedule_S by lia. cbn [foldl]. unfold load_word. f_equal. f_equal.
  rewrite decide_True by lia. unfold at_ in *. rewrite load_be_value; unfold at_; try by apply nth_byte.
  rewrite take_drop_4 by lia. do 5 f_equal; [..|f_equal]; f_equal; lia.
Qed.

Lemma sigma_words x :
  is_word x →
  Z.lxor (Z.lxor (sha256_rotate_right x 7) (sha256_rotate_right x 18)) (x >>w 3) = sigma0 x ∧
  Z.lxor (Z.lxor (sha256_rotate_right x 17) (sha256_rotate_right x 19)) (x >>w 10) = sigma1 x.
Proof.
  intros Hx. rewrite !rotate_right_rotr, !shiftr_shr by (done || lia). done.
Qed.

Lemma expand_words block n :
  length block = 64%nat → Forall is_byte block →
  foldl expand_word (schedule block 16) (range 16 (16 + Z.of_nat n)) = schedule block (16 + n).
Proof.
  intros Hl Hb. induction n as [|n IH]; [done|].
  replace (16 + Z.of_nat (S n)) with (16 + Z.of_nat n + 1) by lia.
  rewrite range_snoc, foldl_app, IH by lia. replace (16 + S n)%nat with (S (16 + n)) by lia.
  rewrite schedule_S. cbn [foldl]. unfold expand_word.
  set (W := schedule block (16 + n)).
  assert (∀ i, is_word (nth i W 0)) as HW by (intros; apply nth_word; by apply schedule_words).
  unfold at_. destruct (sigma_words (nth (Z.to_nat (16 + Z.of_nat n - 15)) W 0)) as [-> _]; [done|].
  destruct (sigma_words (nth (Z.to_nat (16 + Z.of_nat n - 2)) W 0)) as [_ ->]; [done|].
  f_equal. f_equal. rewrite decide_False by lia.
  replace (Z.to_nat (16 + Z.of_nat n - 15)) with (16 + n - 15)%nat by lia.
  replace (Z.to_nat (16 + Z.of_nat n - 2)) with (16 + n - 2)%nat by lia.
  replace (Z.to_nat (16 + Z.of_nat n - 16)) with (16 + n - 16)%nat by lia.
  replace (Z.to_nat (16 + Z.of_nat n - 7)) with (16 + n - 7)%nat by lia.
  rewrite u32_add_4. f_equal. ring.
Qed.

Lemma expand_schedule block :
  length block = 64%nat → Forall is_byte block → sha256_expand_words block = schedule block 64.
Proof.
  intros Hl Hb. unfold sha256_expand_words. change 16 with (Z.of_nat 16) at 1.
  rewrite load_words by (done || lia). apply (expand_words block 48 Hl Hb).
Qed.

(** ** Compression *)

Definition vars_ok (v : vars) : Prop := is_word (va v) ∧ is_word (ve v) ∧
  is_word (vb v) ∧ is_word (vc v) ∧ is_word (vd v) ∧ is_word (vf v) ∧ is_word (vg v) ∧ is_word (vh v).

#[local] Opaque sha256_constants at_.

Lemma round_ok words v i :
  vars_ok v →
  sha256_round words v i = fips_round v (at_ sha256_constants i, at_ words i) ∧
  vars_ok (sha256_round words v i).
Proof.
  destruct v as [a b c d e f g h]. unfold vars_ok. cbn. intros (Ha & He & Hb & Hc & Hd & Hf & Hg & Hh).
  split.
  - rewrite !rotate_right_rotr by (done || lia). fold (Sigma0 a). fold (Sigma1 e).
    change (Z.lxor (e &w f) (~w e &w g)) with (Ch e f g).
    change (Z.lxor (Z.lxor (a &w b) (a &w c)) (b &w c)) with (Maj a b c).
    rewrite (u32_add_5 h (Sigma1 e) (Ch e f g)), u32_add_l, !u32_add_r. done.
  - split; [apply u32_range|]. split; [apply u32_range|]. done.
Qed.

Lemma zip_nth (K W : list Z) n :
  length K = n → length W = n → zip K W = map (λ i, (at_ K i, at_ W i)) (range 0 (Z.of_nat n)).
Proof.
  intros HK HW. apply list_eq. intros i. destruct (decide (i < n)%nat) as [Hi|Hi].
  - rewrite lookup_zip_with. rewrite list_lookup_fmap. unfold range.
    rewrite lookup_seqZ_lt by lia.
    pose proof (at_lookup K (Z.of_nat i)) as EK. pose proof (at_lookup W (Z.of_nat i)) as EW.
    unfold len in EK, EW. rewrite Nat2Z.id in EK, EW. rewrite EK, EW by lia. done.
  - rewrite !lookup_ge_None_2; [done|..].
    + unfold range. rewrite length_fmap, length_seqZ. lia.
    + rewrite length_zip_with. lia.
Qed.

Lemma rounds_ok words v (l : list Z) :
  vars_ok v →
  foldl (sha256_round words) v l =
    foldl fips_round v (map (λ i, (at_ sha256_constants i, at_ words i)) l) ∧
  vars_ok (foldl (sha256_round words) v l).
Proof.
  revert v. induction l as [|i l IH]; intros v Hv; [done|]. cbn.
  destruct (round_ok words v i Hv) as [E Hv']. rewrite <-E. by apply IH.
Qed.

Lemma constants_length : length sha256_constants = 64%nat.
Proof. reflexivity. Qed.

(** The state words of a context. *)
Definition state_ok (l : list Z) : Prop := length l = 8%nat ∧ Forall is_word l.

Lemma compress_fips ctx block :
  state_ok (ctx_state ctx) → length block = 64%nat → Forall is_byte block →
  sha256_compress ctx block = ctx <| ctx_state := fips_compress (ctx_state ctx) block |> ∧
  state_ok (fips_compress (ctx_state ctx) block).
Proof.
  intros [Hl Hw] Hb HB. unfold sha256_compress, fips_compress. rewrite constants_roots.
  rewrite expand_schedule by done.
  rewrite (zip_nth sha256_constants (schedule block 64) 64)
    by (apply constants_length || apply length_schedule).
  set (v0 := Vars _ _ _ _ _ _ _ _).
  assert (vars_ok v0) as Hv0.
  { unfold vars_ok, v0. cbn [va vb vc vd ve vf vg vh]. split_and!; by apply at_word. }
  destruct (rounds_ok (schedule block 64) v0 (range 0 SHA256_WORD_COUNT) Hv0) as [E Hv].
  change (Z.of_nat 64) with SHA256_WORD_COUNT. rewrite <-E.
  set (v := foldl _ v0 _) in *. clearbody v. clear E Hv0 v0.
  destruct (ctx_state ctx) as [|h0 [|h1 [|h2 [|h3 [|h4 [|h5 [|h6 [|h7 [|? ?] ] ] ] ] ] ] ] ] eqn:E;
    try discriminate Hl.
  split; [done|]. split; [done|]. repeat constructor; apply u32_range.
Qed.

(** ** The context as a message prefix *)

Definition is_block (b : list Z) : Prop := length b = 64%nat ∧ Forall is_byte b.

(** [ctx] has absorbed the blocks [bs] and holds [rest]. *)
Record holds (ctx : crypto_sha256_ctx_t) (bs : list (list Z)) (rest : list Z) : Prop := Holds {
  ho_blocks : Forall is_block bs;
  ho_rest : len rest < 64;
  ho_bytes : Forall is_byte rest;
  ho_state : ctx_state ctx = foldl fips_compress initial_hash bs;
  ho_state_ok : state_ok (ctx_state ctx);
  ho_buffer : ctx_buffer ctx = rest ++ zeros (64 - len rest);
  ho_size : ctx_buffer_size ctx = len rest
}.

(** Appending to the zero-filled block. *)
Lemma write_at_rest rest src :
  len rest + len src ≤ 64 →
  write_at (rest ++ zeros (64 - len rest)) (len rest) src
  = (rest ++ src) ++ zeros (64 - len (rest ++ src)).
Proof.
  intros H. unfold write_at, zeros, len in *. rewrite Nat2Z.id, take_app_length, <-app_assoc.
  f_equal. f_equal. rewrite drop_app_add, drop_replicate, length_app. f_equal. lia.
Qed.

Lemma absorb ctx bs rest :
  Forall is_block bs → is_block rest → ctx_state ctx = foldl fips_compress initial_hash bs →
  state_ok (ctx_state ctx) →
  holds (((sha256_compress ctx rest) <| ctx_buffer_size := 0 |>) <| ctx_buffer := zeros 64 |>)
    (bs ++ [rest]) [].
Proof.
  intros Hbs [Hl Hb] Hs Hok. destruct (compress_fips ctx rest Hok Hl Hb) as [-> Hok'].
  assert (fips_compress (ctx_state ctx) rest = foldl fips_compress initial_hash (bs ++ [rest])) as E.
  { rewrite foldl_app. cbn [foldl]. by rewrite <-Hs. }
  split; try done.
  apply Forall_app. by repeat constructor.
Qed.

Lemma copy_input_spec ctx bs rest data :
  holds ctx bs rest → len data < 2 ^ 32 →
  ∃ src left, data = src ++ left ∧ (len src = len data ∨ len rest + len src = 64) ∧
    len rest + len src ≤ 64 ∧ (0 < len data → 0 < len src) ∧
    sha256_copy_input ctx data (len data) =
      (Sha256Ctx (ctx_state ctx) (ctx_total_size ctx) ((rest ++ src) ++ zeros (64 - len (rest ++ src)))
         (len (rest ++ src)), left, len left).
Proof.
  intros [_ H2 _ _ _ H6 H7] Hlt. pose proof (len_nonneg rest). pose proof (len_nonneg data).
  unfold sha256_copy_input. rewrite H7. unfold SHA256_BLOCK_SIZE.
  rewrite (u32_small (64 - len rest)) by lia.
  set (c := if _ <? _ then _ else _).
  assert (c = Z.min (len data) (64 - len rest)) as Hc
    by (unfold c; destruct (Z.ltb_spec (len data) (64 - len rest)); lia). clearbody c.
  assert (len (take (Z.to_nat c) data) = c) as Hs by (unfold len in *; rewrite length_take; lia).
  assert (len (drop (Z.to_nat c) data) = len data - c) as Hl
    by (unfold len in *; rewrite length_drop; lia).
  exists (take (Z.to_nat c) data), (drop (Z.to_nat c) data). rewrite take_drop, Hs.
  split; [done|]. split; [lia|]. split; [lia|]. split; [lia|].
  rewrite u32_small, <-Hl by lia. f_equal. f_equal.
  rewrite <-write_at_rest, len_app, Hs by lia. destruct ctx as [st tot bf sz]. cbn in H6, H7. subst.
  unfold set. simpl. rewrite u32_small by lia. done.
Qed.

Lemma update_loop_spec fuel ctx bs rest data :
  holds ctx bs rest → Forall is_byte data → len data < 2 ^ 32 → (length data ≤ fuel)%nat →
  ∃ ctx' bs' rest',
    update_loop fuel ctx data (len data) = Some ctx' ∧ holds ctx' bs' rest' ∧
    ctx_total_size ctx' = ctx_total_size ctx ∧
    concat bs' ++ rest' = concat bs ++ rest ++ data.
Proof.
  revert ctx bs rest data. induction fuel as [|fuel IH]; intros ctx bs rest data Hh Hd Hlt Hf.
  { destruct data; [|cbn in Hf; lia]. exists ctx, bs, rest. by rewrite app_nil_r. }
  cbn [update_loop]. destruct (Z.gtb_spec (len data) 0) as [Hpos|Hpos]; cbn [negb].
  2: { destruct data; [|unfold len in Hpos; cbn in Hpos; lia]. exists ctx, bs, rest.
       by rewrite app_nil_r. }
  destruct (copy_input_spec ctx bs rest data Hh Hlt) as (src & left & -> & Hc & Hle & Hp & ->).
  destruct Hh as [H1 H2 H3 H4 H5 _ _]. apply Forall_app in Hd as [Hbs Hbl].
  set (ctx1 := Sha256Ctx _ _ _ _). change (ctx_buffer_size ctx1) with (len (rest ++ src)).
  specialize (Hp ltac:(lia)). pose proof (len_nonneg left). rewrite len_app in Hlt, Hc.
  assert (length left ≤ fuel)%nat by (unfold len in *; rewrite length_app in Hf; lia).
  assert (Forall is_byte (rest ++ src)) as Hb by (by apply Forall_app).
  assert (∃ bs1 rest1 ctx2, (if len (rest ++ src) =? SHA256_BLOCK_SIZE then
      ((sha256_compress ctx1 (ctx_buffer ctx1)) <| ctx_buffer_size := 0 |>) <| ctx_buffer := zeros 64 |>
    else ctx1) = ctx2 ∧ holds ctx2 bs1 rest1 ∧ ctx_total_size ctx2 = ctx_total_size ctx ∧
    concat bs1 ++ rest1 = concat bs ++ rest ++ src) as (bs1 & rest1 & ctx2 & -> & Hh & Et & Ec).
  { unfold SHA256_BLOCK_SIZE. destruct (Z.eqb_spec (len (rest ++ src)) 64) as [Ef|Ef].
    - assert (ctx_buffer ctx1 = rest ++ src) as ->.
      { cbn. rewrite Ef. apply app_nil_r. }
      exists (bs ++ [rest ++ src]), []. eexists. split; [done|]. split.
      + apply absorb; try done. split; [unfold len in Ef; lia|done].
      + split; [done|]. rewrite concat_app. cbn. by rewrite !app_nil_r.
    - exists bs, (rest ++ src), ctx1. split; [done|]. split; [|done].
      rewrite len_app in Ef. split; try done. rewrite len_app. lia. }
  destruct (IH ctx2 bs1 rest1 left Hh Hbl) as (ctx' & bs' & rest' & E & Hh' & Et' & Ec'); [lia|done|].
  exists ctx', bs', rest'. split; [done|]. split; [done|]. split; [congruence|].
  by rewrite Ec', app_assoc, Ec, <-!app_assoc.
Qed.

(** ** Finishing *)

Lemma put_app X Y j v : 0 ≤ j → put (X ++ Y) (len X + j) v = X ++ put Y j v.
Proof.
  intros Hj. unfold put, len. rewrite Z2Nat.inj_add, Nat2Z.id by lia.
  apply insert_app_r.
Qed.

Lemma zeros_cons n : 0 < n → zeros n = 0 :: zeros (n - 1).
Proof. intros. unfold zeros. replace (Z.to_nat n) with (S (Z.to_nat (n - 1))) by lia. done. Qed.

Lemma len_zeros n : 0 ≤ n → len (zeros n) = n.
Proof. intros. unfold len, zeros. rewrite length_replicate. lia. Qed.

Lemma zeros_app a b : 0 ≤ a → 0 ≤ b → zeros (a + b) = zeros a ++ zeros b.
Proof. intros. unfold zeros. rewrite Z2Nat.inj_add, replicate_add by lia. done. Qed.

Lemma put_rest X v k : 0 < k → put (X ++ zeros k) (len X) v = (X ++ [v]) ++ zeros (k - 1).
Proof.
  intros Hk. replace (len X) with (len X + 0) by lia.
  rewrite put_app, zeros_cons, <-app_assoc by lia. done.
Qed.

Lemma zero_loop_spec fuel st tot X k limit :
  len X ≤ limit ≤ len X + k → limit < 2 ^ 32 → limit - len X ≤ Z.of_nat fuel →
  zero_loop fuel (Sha256Ctx st tot (X ++ zeros k) (len X)) limit
  = Sha256Ctx st tot (X ++ zeros k) limit.
Proof.
  revert X k. induction fuel as [|fuel IH]; intros X k Hl Hlim Hf.
  { cbn. f_equal. lia. }
  cbn [zero_loop ctx_buffer_size]. destruct (Z.ltb_spec (len X) limit) as [Hlt|Hge]; [|f_equal; lia].
  pose proof (len_nonneg X). unfold set. simpl. rewrite put_rest, u32_small by lia.
  assert (len (X ++ [0]) = len X + 1) as E by (by rewrite len_app).
  rewrite <-E, IH by (rewrite ?E; lia).
  f_equal. rewrite (zeros_cons k), <-app_assoc by lia. done.
Qed.

Lemma u8_shift n i : 0 ≤ i → u8 (n >>w i) = n / 2 ^ i mod 256.
Proof. intros. unfold u8. by rewrite Z.shiftr_div_pow2. Qed.

Lemma store_be_bytes v : sha256_store_be v = be_bytes 4 v.
Proof.
  unfold sha256_store_be. rewrite !u8_shift by lia. cbn [be_bytes app].
  rewrite !Z.div_div by lia. done.
Qed.

Lemma append_length_spec st tot X sz n :
  len X = 56 →
  sha256_append_length (Sha256Ctx st tot (X ++ zeros 8) sz) n = Sha256Ctx st tot (X ++ be_bytes 8 n) sz.
Proof.
  intros HX. unfold sha256_append_length. change (range 0 8) with [0; 1; 2; 3; 4; 5; 6; 7].
  cbn [foldl]. unfold set. simpl. f_equal.
  change (63 - 0) with (56 + 7). change (63 - 1) with (56 + 6). change (63 - 2) with (56 + 5).
  change (63 - 3) with (56 + 4). change (63 - 4) with (56 + 3). change (63 - 5) with (56 + 2).
  change (63 - 6) with (56 + 1). change (63 - 7) with (56 + 0). rewrite <-HX, !put_app by lia.
  f_equal. rewrite !u8_shift, !Z.div_div by lia. change (2 ^ (0 * 8)) with 1.
  rewrite Z.div_1_r. reflexivity.
Qed.

Lemma chunks_concat fuel bs :
  (length bs ≤ fuel)%nat → Forall is_block bs → chunks fuel (concat bs) = bs.
Proof.
  revert fuel. induction bs as [|b bs IH]; intros fuel Hf Hb; [by destruct fuel|].
  apply Forall_cons in Hb as [[Hl Hb] Hbs]. destruct fuel as [|fuel]; cbn in Hf; [lia|].
  change (concat (b :: bs)) with (b ++ concat bs).
  assert (take 64 (b ++ concat bs) = b) as Et by (rewrite <-Hl; apply take_app_length).
  assert (drop 64 (b ++ concat bs) = concat bs) as Ed by (rewrite <-Hl; apply drop_app_length).
  destruct (b ++ concat bs) eqn:E; [by destruct b|]. cbn [chunks]. by rewrite Et, Ed, IH by (done || lia).
Qed.

(** The padding completes the absorbed blocks. *)
Lemma pad_split bs rest m :
  Forall is_block bs → len rest < 64 → m = concat bs ++ rest →
  pad m = concat bs ++
    if len rest <=? 55
    then (rest ++ [0x80]) ++ zeros (55 - len rest) ++ be_bytes 8 (8 * len m)
    else ((rest ++ [0x80]) ++ zeros (63 - len rest)) ++ zeros 56 ++ be_bytes 8 (8 * len m).
Proof.
  intros Hb Hr ->. unfold pad.
  assert (len (concat bs) = 64 * Z.of_nat (length bs)) as Hl.
  { clear Hr. induction Hb as [|b bs [Hb _] _ IH]; [done|]. cbn [concat length].
    rewrite len_app, IH. unfold len. lia. }
  pose proof (len_nonneg rest). rewrite len_app at 1. rewrite Hl, <-!app_assoc. f_equal.
  destruct (Z.leb_spec (len rest) 55).
  - replace ((55 - _) mod 64) with (55 - len rest) by divlia. by rewrite <-?app_assoc.
  - replace ((55 - _) mod 64) with (63 - len rest + 56) by divlia.
    rewrite zeros_app by lia. by rewrite <-?app_assoc.
Qed.

Lemma be_bytes_ok k n : Forall is_byte (be_bytes k n) ∧ length (be_bytes k n) = k.
Proof.
  revert n. induction k as [|k IH]; intros n; [done|]. cbn.
  destruct (IH (n / 256)) as [H1 H2]. rewrite length_app, H2. split; [|cbn; lia].
  apply Forall_app. split; [done|]. repeat constructor; unfold is_byte; apply Z.mod_pos_bound; lia.
Qed.

Lemma zeros_bytes n : Forall is_byte (zeros n).
Proof. apply Forall_replicate. unfold is_byte. lia. Qed.

Lemma digest_bytes l :
  state_ok l → concat (map (λ i, sha256_store_be (at_ l i)) (range 0 8)) = concat (map (be_bytes 4) l).
Proof.
  intros [Hl _]. change (range 0 8) with [0; 1; 2; 3; 4; 5; 6; 7].
  destruct l as [|h0 [|h1 [|h2 [|h3 [|h4 [|h5 [|h6 [|h7 [|? ?] ] ] ] ] ] ] ] ]; try discriminate Hl.
  cbn [map]. by rewrite !store_be_bytes.
Qed.

(** From the block with the 0x80 mark on: the last block is hashed. *)
Lemma finish_block st tot X sz bs n :
  st = foldl fips_compress initial_hash bs → state_ok st → Forall is_block bs →
  len X ≤ 56 → Forall is_byte X → sz = len X →
  let ctx := zero_loop 64 (Sha256Ctx st tot (X ++ zeros (64 - len X)) sz) 56 in
  let ctx := sha256_append_length ctx n in
  let ctx := sha256_compress ctx (ctx_buffer ctx) in
  let last := X ++ zeros (56 - len X) ++ be_bytes 8 n in
  is_block last ∧ state_ok (ctx_state ctx) ∧
  ctx_state ctx = foldl fips_compress initial_hash (bs ++ [last]).
Proof.
  intros Hst Hok Hbs HX HB ->. pose proof (len_nonneg X). cbn zeta.
  rewrite zero_loop_spec by lia.
  replace (zeros (64 - len X)) with (zeros (56 - len X) ++ zeros 8)
    by (rewrite <-zeros_app by lia; f_equal; lia).
  assert (len (X ++ zeros (56 - len X)) = 56) as Hl by (rewrite len_app, len_zeros; lia).
  rewrite (app_assoc X _ (zeros 8)), append_length_spec by done. rewrite (app_assoc X _ (be_bytes 8 n)). cbn [ctx_buffer].
  set (last := (X ++ _) ++ _). destruct (be_bytes_ok 8 n) as [Hbb Hbl].
  assert (is_block last) as [Hll Hlb].
  { split; [unfold last; rewrite length_app, Hbl; unfold len in *; lia|].
    apply Forall_app_2; [|done]. apply Forall_app_2; [done|apply zeros_bytes]. }
  destruct (compress_fips (Sha256Ctx st tot last 56) last Hok Hll Hlb) as [E Hok'].
  rewrite E. split; [done|]. split; [done|].
  rewrite foldl_app. cbn [foldl]. by rewrite <-Hst.
Qed.

#[local] Opaque zero_loop sha256_compress sha256_append_length be_bytes fips_compress zeros.

(** The call as its three stages. *)
Definition final_mark (ctx : crypto_sha256_ctx_t) : crypto_sha256_ctx_t :=
  ctx <| ctx_buffer ::= λ b, put b (ctx_buffer_size ctx) 0x80 |> <| ctx_buffer_size ::= λ n, n +w 1 |>.
Definition final_flush (ctx : crypto_sha256_ctx_t) : crypto_sha256_ctx_t :=
  if ctx_buffer_size ctx >? 56 then
    let ctx := zero_loop 64 ctx SHA256_BLOCK_SIZE in
    let ctx := sha256_compress ctx (ctx_buffer ctx) in
    (ctx <| ctx_buffer_size := 0 |>) <| ctx_buffer := zeros 64 |>
  else ctx.
Definition final_last (ctx : crypto_sha256_ctx_t) (n : Z) : crypto_sha256_ctx_t :=
  let ctx := sha256_append_length (zero_loop 64 ctx 56) n in sha256_compress ctx (ctx_buffer ctx).

Lemma final_steps ctx :
  crypto_sha256_final ctx =
  (ctx_zero,
   concat (map (λ index, sha256_store_be (at_ (ctx_state
     (final_last (final_flush (final_mark ctx)) (u64 (ctx_total_size ctx * 8)))) index)) (range 0 8)), OK).
Proof. reflexivity. Qed.

(** What the last stage leaves, from a context that absorbed [bs] and holds [X]. *)
Lemma last_spec st tot X sz bs n :
  st = foldl fips_compress initial_hash bs → state_ok st → Forall is_block bs →
  len X ≤ 56 → Forall is_byte X → sz = len X →
  let last := X ++ zeros (56 - len X) ++ be_bytes 8 n in
  is_block last ∧
  concat (map (λ index, sha256_store_be (at_ (ctx_state
    (final_last (Sha256Ctx st tot (X ++ zeros (64 - len X)) sz) n)) index)) (range 0 8))
  = concat (map (be_bytes 4) (foldl fips_compress initial_hash (bs ++ [last]))).
Proof.
  intros H1 H2 H3 H4 H5 H6. destruct (finish_block st tot X sz bs n H1 H2 H3 H4 H5 H6) as (L1 & L2 & L3).
  split; [done|]. rewrite digest_bytes; [|exact L2]. f_equal. f_equal. exact L3.
Qed.

Lemma flush_spec st tot X bs :
  st = foldl fips_compress initial_hash bs → state_ok st → Forall is_block bs →
  56 < len X ≤ 64 → Forall is_byte X →
  let last := X ++ zeros (64 - len X) in
  is_block last ∧
  holds (final_flush (Sha256Ctx st tot (X ++ zeros (64 - len X)) (len X))) (bs ++ [last]) [].
Proof.
  intros H1 H2 H3 H4 H5. cbn zeta.
  assert (is_block (X ++ zeros (64 - len X))) as Hblk.
  { split; [apply Nat2Z.inj; change (len (X ++ zeros (64 - len X)) = 64); rewrite len_app, len_zeros; lia|].
    apply Forall_app_2; [done|apply zeros_bytes]. }
  split; [done|]. unfold final_flush. cbn [ctx_buffer_size].
  destruct (Z.gtb_spec (len X) 56); [|lia].
  rewrite zero_loop_spec by (unfold SHA256_BLOCK_SIZE; lia). by apply absorb.
Qed.

Lemma concat_singleton (l : list Z) : concat [l] = l.
Proof. apply app_nil_r. Qed.

Lemma final_spec ctx bs rest m :
  holds ctx bs rest → m = concat bs ++ rest → ctx_total_size ctx = len m → len m < 2 ^ 61 →
  crypto_sha256_final ctx = (ctx_zero, sha256_reference m, OK).
Proof.
  intros [H1 H2 H3 H4 H5 H6 H7] Em Ht Hlt. destruct ctx as [st tot bf sz]. cbn in *. subst bf sz tot.
  pose proof (len_nonneg rest). pose proof (len_nonneg m). set (n := 8 * len m).
  rewrite final_steps. unfold final_mark, set. cbn [ctx_total_size ctx_buffer ctx_buffer_size ctx_state].
  replace (u64 (len m * 8)) with n by (rewrite u64_small; lia).
  rewrite put_rest, u32_small by lia. set (X := rest ++ [0x80]).
  assert (len X = len rest + 1) as HX by (by unfold X; rewrite len_app).
  assert (Forall is_byte X) as HXb by (by apply Forall_app_2; [|repeat constructor]).
  replace (64 - len rest - 1) with (64 - len X) by lia. rewrite <-HX.
  pose proof (pad_split bs rest m H1 H2 Em) as Hpad. fold X n in Hpad.
  assert (∀ bs2 last, Forall is_block bs2 → is_block last → pad m = concat (bs2 ++ [last]) →
    chunks (length (pad m)) (pad m) = bs2 ++ [last]) as Hchunks.
  { intros bs2 last Hb2 Hlast E. assert (Forall is_block (bs2 ++ [last])) as Hall
      by (by apply Forall_app_2; [|apply Forall_singleton]).
    rewrite E. apply chunks_concat; [|done]. clear -Hall.
    induction Hall as [|b l [Hb _] _ IH]; [done|]. cbn. rewrite length_app. lia. }
  unfold sha256_reference. f_equal. f_equal.
  destruct (Z.leb_spec (len rest) 55) as [Hsmall|Hbig].
  - unfold final_flush. cbn [ctx_buffer_size]. destruct (Z.gtb_spec (len X) 56); [lia|].
    destruct (last_spec st (len m) X (len X) bs n H4 H5 H1) as (L1 & ->); try (done || lia).
    replace (55 - len rest) with (56 - len X) in Hpad by lia.
    rewrite (Hchunks bs _ H1 L1); [done|]. by rewrite Hpad, concat_app, concat_singleton.
  - destruct (flush_spec st (len m) X bs H4 H5 H1) as (Hblk & Hh); [lia|done|].
    destruct (final_flush _) as [st2 tot2 bf2 sz2]. destruct Hh as [G1 _ _ G4 G5 G6 G7]. cbn in G4, G5, G6, G7.
    subst bf2 sz2. destruct (last_spec st2 tot2 [] 0 _ n G4 G5 G1) as (L1 & L2); try done.
    etransitivity; [exact L2|].
    replace (63 - len rest) with (64 - len X) in Hpad by lia.
    rewrite (Hchunks _ _ G1 L1); [done|].
    by rewrite Hpad, !concat_app, !concat_singleton, <-!app_assoc.
Qed.

(** ** Sequences of updates *)

Fixpoint sha256_updates (ctx : crypto_sha256_ctx_t) (parts : list (list Z)) : option crypto_sha256_ctx_t :=
  match parts with
  | [] => Some ctx
  | data :: parts =>
      match crypto_sha256_update ctx data (len data) with
      | Some (ctx, OK) => sha256_updates ctx parts
      | _ => None
      end
  end.

(** What a caller may pass: bytes, with a 32-bit size. *)
Definition input_ok (data : list Z) : Prop := Forall is_byte data ∧ len data < 2 ^ 32.

Lemma init_holds ctx : holds (crypto_sha256_init ctx).1 [] [].
Proof.
  split; [constructor|done|constructor|by cbn; rewrite initial_roots| |done|done]. split; [done|]. repeat constructor; done.
Qed.

Lemma update_spec ctx bs rest data :
  holds ctx bs rest → input_ok data → ctx_total_size ctx = len (concat bs ++ rest) →
  len (concat bs ++ rest) + len data < 2 ^ 64 →
  ∃ ctx' bs' rest', crypto_sha256_update ctx data (len data) = Some (ctx', OK) ∧
    holds ctx' bs' rest' ∧ concat bs' ++ rest' = (concat bs ++ rest) ++ data ∧
    ctx_total_size ctx' = len (concat bs' ++ rest').
Proof.
  intros Hh [Hb Hlt] Ht H64. pose proof (len_nonneg data). pose proof (len_nonneg (concat bs ++ rest)).
  destruct (update_loop_spec (Z.to_nat (len data)) ctx bs rest data Hh Hb Hlt) as
    (c & bs' & rest' & E & Hh' & Et & Ec); [unfold len; lia|].
  exists (c <| ctx_total_size ::= λ n, u64 (n + len data) |>), bs', rest'.
  unfold crypto_sha256_update. rewrite E. split; [done|]. split; [by destruct c, Hh'|].
  rewrite app_assoc in Ec. split; [done|]. rewrite Ec, len_app. rewrite <-Ht, <-Et.
  destruct c as [st tot bf sz]. cbn in Et. change (u64 (tot + len data) = tot + len data).
  apply u64_small. lia.
Qed.

Lemma updates_spec parts ctx bs rest :
  holds ctx bs rest → Forall input_ok parts → ctx_total_size ctx = len (concat bs ++ rest) →
  len (concat bs ++ rest) + len (concat parts) < 2 ^ 64 →
  ∃ ctx' bs' rest', sha256_updates ctx parts = Some ctx' ∧
    holds ctx' bs' rest' ∧ concat bs' ++ rest' = (concat bs ++ rest) ++ concat parts ∧
    ctx_total_size ctx' = len (concat bs' ++ rest').
Proof.
  revert ctx bs rest. induction parts as [|d parts IH]; intros ctx bs rest Hh Hp Ht H64.
  { exists ctx, bs, rest. by rewrite app_nil_r. }
  apply Forall_cons in Hp as [Hd Hp]. cbn [concat] in H64. rewrite (len_app d) in H64.
  pose proof (len_nonneg (concat parts)).
  destruct (update_spec ctx bs rest d Hh Hd Ht) as (c1 & bs1 & rest1 & E1 & Hh1 & Ec1 & Et1); [lia|].
  destruct (IH c1 bs1 rest1 Hh1 Hp Et1) as (c2 & bs2 & rest2 & E2 & Hh2 & Ec2 & Et2).
  { rewrite Ec1, len_app. lia. }
  exists c2, bs2, rest2. cbn [sha256_updates]. rewrite E1. split; [done|]. split; [done|].
  split; [|done]. by rewrite Ec2, Ec1, <-app_assoc.
Qed.

(** ** The comparison *)

Lemma equal_fold first second (l : list Z) d :
  (∀ i, is_byte (at_ first i)) → (∀ i, is_byte (at_ second i)) → is_byte d →
  foldl (λ difference index, u8 (Z.lor difference (Z.lxor (at_ first index) (at_ second index)))) d l = 0
  ↔ d = 0 ∧ Forall (λ i, at_ first i = at_ second i) l.
Proof.
  intros Hf Hs. revert d. induction l as [|i l IH]; intros d Hd; cbn [foldl].
  { split; [done|by intros [? _]]. }
  assert (is_byte (Z.lor d (Z.lxor (at_ first i) (at_ second i)))) as Hl.
  { apply (lor_bound _ _ 8); [lia|exact Hd|]. apply (lxor_bound _ _ 8); [lia|apply Hf|apply Hs]. }
  replace (u8 _) with (Z.lor d (Z.lxor (at_ first i) (at_ second i)))
    by (symmetry; apply Z.mod_small, Hl).
  rewrite (IH _ Hl), Z.lor_eq_0_iff, Z.lxor_eq_0_iff, Forall_cons. tauto.
Qed.

(** ** Properties *)

(** C27: Incremental hashing computes SHA-256: whatever the context held, after
    crypto_sha256_init any sequence of crypto_sha256_update calls terminates
    with OK, and crypto_sha256_final then returns the FIPS 180-4 digest of the
    concatenated input and wipes the context.  The one-shot crypto_sha256 gives
    the same digest.  The input is shorter than 2^61 bytes, the bound of the
    64-bit length field; each call takes a 32-bit size. *)
Theorem sha256_streaming ctx0 parts data :
  Forall input_ok parts → len (concat parts) < 2 ^ 61 → input_ok data →
  (∃ ctx, sha256_updates (crypto_sha256_init ctx0).1 parts = Some ctx ∧
     crypto_sha256_final ctx = (ctx_zero, sha256_reference (concat parts), OK)) ∧
  crypto_sha256 data (len data) = Some (sha256_reference data, OK).
Proof.
  intros Hp Hl Hd. pose proof (init_holds ctx0) as H0. split.
  - destruct (updates_spec parts _ [] [] H0 Hp) as (c & bs & rest & E & Hh & Ec & Et); [done|change (len (concat [] ++ [])) with 0; lia|].
    exists c. split; [done|]. apply (final_spec c bs rest); [done|by rewrite Ec|by rewrite Et, Ec|done].
  - destruct (update_spec _ [] [] data (init_holds ctx_zero) Hd) as (c & bs & rest & E & Hh & Ec & Et);
      [done|destruct Hd; change (len (concat [] ++ [])) with 0; lia|].
    unfold crypto_sha256. cbn [crypto_sha256_init fst is_ok negb] in E |- *. rewrite E. cbn [is_ok negb].
    rewrite (final_spec c bs rest data); [done..|by rewrite Et, Ec|destruct Hd; lia].
Qed.

Lemma sha256_streaming_witness :
  ∃ ctx, sha256_updates (crypto_sha256_init ctx_zero).1 [[97]; []; [98; 99]] = Some ctx ∧
     crypto_sha256_final ctx = (ctx_zero, sha256_reference [97; 98; 99], OK).
Proof.
  refine (proj1 (sha256_streaming ctx_zero [[97]; []; [98; 99]] [] _ _ _)).
  - repeat constructor; done.
  - reflexivity.
  - split; [constructor|reflexivity].
Defined.

(** crypto_equal answers true exactly when the first [size] bytes of the
    two buffers agree, wherever they differ. *)
Theorem crypto_equal_exact first second size :
  Forall is_byte first → Forall is_byte second → 0 ≤ size ≤ len first → size ≤ len second →
  crypto_equal first second size = true
  ↔ take (Z.to_nat size) first = take (Z.to_nat size) second.
Proof.
  intros Hf Hs H1 H2. unfold crypto_equal. rewrite Z.eqb_eq, equal_fold; [|intros; by apply at_byte..|done].
  rewrite Forall_forall. unfold len in *. split.
  - intros [_ H]. apply list_eq. intros i. destruct (decide (i < Z.to_nat size)%nat) as [Hi|Hi].
    + rewrite !lookup_take_lt by done. specialize (H (Z.of_nat i)). unfold range in H.
      rewrite elem_of_seqZ in H. specialize (H ltac:(lia)).
      pose proof (at_lookup first (Z.of_nat i)) as E1. pose proof (at_lookup second (Z.of_nat i)) as E2.
      rewrite Nat2Z.id in E1, E2. unfold len in E1, E2. rewrite E1, E2 by lia. by rewrite H.
    + rewrite !lookup_take_ge by lia. done.
  - intros E. split; [done|]. intros i Hi. unfold range in Hi. rewrite elem_of_seqZ in Hi.
    apply (f_equal (lookup (Z.to_nat i))) in E. rewrite !lookup_take_lt in E by lia.
    pose proof (at_lookup first i) as E1. pose proof (at_lookup second i) as E2. unfold len in E1, E2.
    rewrite E1, E2 in E by lia. congruence.
Qed.

Lemma crypto_equal_exact_witness :
  crypto_equal [1; 2; 3] [1; 2; 4] 2 = true ↔ take 2 [1; 2; 3] = take 2 [1; 2; 4].
Proof.
  refine (crypto_equal_exact [1; 2; 3] [1; 2; 4] 2 _ _ _ _); [repeat constructor; done..|done|done].
Defined.

(** The self test of the boot sequence passes. *)
Example crypto_test_sha256_passes : crypto_test_sha256 = OK.
Proof. vm_compute. reflexivity. Qed.
