(* ===== verification/Slab.v ===== *)
(** * The slab allocator of src/memory/slab.c

    Caches of equal objects carved out of page runs.  Every slab keeps a
    free list and an allocation bitmap, every cache three doubly linked lists
    of slabs (full, partial, empty) threaded through the slab table.  The page
    manager is used through [PageManager], the interface of its operations;
    [PageManagerLaws] is what the allocator relies on.  SlabPages.v shows that
    memory.c provides it.

    A [kmem_cache_t] pointer is the index of the entry of [cache_table] it
    designates; any other number is a pointer to something else ([NULL_CACHE]
    is null).  Each call is one step under its lock. *)

From S2P Require Import Prelude Memory.

(** ** The page manager, as the slab allocator sees it *)

(** [pm_alloc] is [pmm_alloc_pages_in_zone(count, MEMORY_ZONE_SLAB)],
    [pm_free] is [pmm_free_pages] and [pm_memset] is [kmemset] on physical
    memory. *)
Class PageManager (M : Type) := {
  pm_alloc : M → Z → M * Z;
  pm_free : M → Z → Z → M;
  pm_memset : M → Z → Z → Z → M
}.

(** The pages [p] of the run of [n] pages at address [a]. *)
Definition in_pages (a n p : Z) : bool := (a / PAGE_SIZE <=? p) && (p <? a / PAGE_SIZE + n).

(** A run of pages as the allocator hands them out. *)
Definition page_run (a n : Z) : Prop :=
  0 < n ∧ 0 < a ∧ a mod PAGE_SIZE = 0 ∧ a + n * PAGE_SIZE < 2 ^ 32.

(** What the page manager promises.  [pm_inv] is its invariant, [pm_owned]
    the pages handed out and [pm_byte] the contents of memory. *)
Class PageManagerLaws (M : Type) `{PageManager M} := {
  pm_inv : M → Prop;
  pm_owned : M → Z → bool;
  pm_byte : M → Z → Z;
  pm_alloc_law m n m' a :
    pm_inv m → 0 < n < 2 ^ 32 → pm_alloc m n = (m', a) →
    pm_inv m' ∧ (∀ b, pm_owned m (b / PAGE_SIZE) = true → pm_byte m' b = pm_byte m b) ∧
    ((a = 0 ∧ ∀ p, pm_owned m' p = pm_owned m p) ∨
     (page_run a n ∧ (∀ p, in_pages a n p = true → pm_owned m p = false) ∧
      ∀ p, pm_owned m' p = in_pages a n p || pm_owned m p));
  pm_free_law m a n :
    pm_inv m → page_run a n → (∀ p, in_pages a n p = true → pm_owned m p = true) →
    pm_inv (pm_free m a n) ∧
    (∀ b, pm_owned m (b / PAGE_SIZE) = true → pm_byte (pm_free m a n) b = pm_byte m b) ∧
    ∀ p, pm_owned (pm_free m a n) p = negb (in_pages a n p) && pm_owned m p;
  pm_memset_law m a v n :
    pm_inv m → (∀ b, a ≤ b < a + n → pm_owned m (b / PAGE_SIZE) = true) →
    pm_inv (pm_memset m a v n) ∧
    (∀ p, pm_owned (pm_memset m a v n) p = pm_owned m p) ∧
    ∀ b, pm_byte (pm_memset m a v n) b = if (a <=? b) && (b <? a + n) then u8 v else pm_byte m b
}.

(** ** Data *)

Definition KMEM_CACHE_NAME_LENGTH : Z := 32.
Definition KMEM_CACHE_MAX : Z := 16.
Definition KMEM_SLAB_MAX : Z := 128.
Definition KMEM_SLAB_MAX_OBJECTS : Z := 128.
Definition KMEM_SLAB_MIN_OBJECTS : Z := 8.
Definition KMEM_SLAB_STATE_EMPTY : Z := 0.
Definition KMEM_SLAB_STATE_PARTIAL : Z := 1.
Definition KMEM_SLAB_STATE_FULL : Z := 2.
Definition KMEM_SLAB_LINK_NONE : Z := -1.
Definition NULL_CACHE : Z := -1.

Record kmem_slab_t := KmemSlab {
  ks_owner : Z; ks_memory : Z; ks_pages : Z; ks_object_count : Z; ks_active_objects : Z;
  ks_free_head : Z; ks_next : Z; ks_previous : Z; ks_state : Z; ks_used : bool;
  ks_allocation_bitmap : array Z; ks_free_next : array Z
}.
#[export] Instance kmem_slab_eta : Eta kmem_slab_t := λ r,
  KmemSlab (ks_owner r) (ks_memory r) (ks_pages r) (ks_object_count r) (ks_active_objects r)
    (ks_free_head r) (ks_next r) (ks_previous r) (ks_state r) (ks_used r)
    (ks_allocation_bitmap r) (ks_free_next r).
(** A zeroed record; the zero [owner] pointer is null. *)
Definition slab_zero : kmem_slab_t := KmemSlab NULL_CACHE 0 0 0 0 0 0 0 0 false ∅ ∅.
#[export] Instance kmem_slab_zeroed : Zeroed kmem_slab_t := slab_zero.

(** [kc_name] is the text of the [name] array, without its terminator. *)
Record kmem_cache_t := KmemCache {
  kc_name : list Z; kc_object_size : Z; kc_alignment : Z; kc_object_stride : Z;
  kc_objects_per_slab : Z; kc_slab_pages : Z; kc_active_objects : Z; kc_capacity : Z;
  kc_slab_count : Z; kc_allocation_failures : Z; kc_invalid_frees : Z; kc_double_frees : Z;
  kc_full_head : Z; kc_partial_head : Z; kc_empty_head : Z; kc_used : bool
}.
#[export] Instance kmem_cache_eta : Eta kmem_cache_t := λ r,
  KmemCache (kc_name r) (kc_object_size r) (kc_alignment r) (kc_object_stride r)
    (kc_objects_per_slab r) (kc_slab_pages r) (kc_active_objects r) (kc_capacity r)
    (kc_slab_count r) (kc_allocation_failures r) (kc_invalid_frees r) (kc_double_frees r)
    (kc_full_head r) (kc_partial_head r) (kc_empty_head r) (kc_used r).
Definition cache_zero : kmem_cache_t := KmemCache [] 0 0 0 0 0 0 0 0 0 0 0 0 0 0 false.
#[export] Instance kmem_cache_zeroed : Zeroed kmem_cache_t := cache_zero.

Record kmem_cache_info_t := KmemCacheInfo {
  ki_name : list Z; ki_object_size : Z; ki_alignment : Z; ki_object_stride : Z;
  ki_objects_per_slab : Z; ki_active_objects : Z; ki_capacity : Z; ki_slabs : Z; ki_pages : Z;
  ki_allocation_failures : Z; ki_invalid_frees : Z; ki_double_frees : Z; ki_initialized : bool
}.
Definition info_zero : kmem_cache_info_t := KmemCacheInfo [] 0 0 0 0 0 0 0 0 0 0 0 false.

Record kmem_slab_stats_t := KmemSlabStats {
  kt_caches : Z; kt_slabs : Z; kt_pages : Z; kt_active_objects : Z; kt_capacity : Z;
  kt_allocation_failures : Z; kt_invalid_frees : Z; kt_double_frees : Z;
  kt_initialized : bool; kt_valid : bool
}.

(** The static variables of slab.c, with the page manager they work on.
    [paging_ready] is the answer of [paging_is_ready]. *)
Record slab_t {M : Type} := SlabState {
  pages : M; cache_table : array kmem_cache_t; slab_table : array kmem_slab_t;
  cache_count : Z; slab_count : Z; global_allocation_failures : Z;
  global_invalid_frees : Z; global_double_frees : Z; slab_initialized : bool;
  paging_ready : bool
}.
Arguments slab_t : clear implicits.
Arguments SlabState {M}.
#[export] Instance slab_eta M : Eta (slab_t M) := λ r,
  SlabState (pages r) (cache_table r) (slab_table r) (cache_count r) (slab_count r)
    (global_allocation_failures r) (global_invalid_frees r) (global_double_frees r)
    (slab_initialized r) (paging_ready r).

(** ** Helpers *)

(** The characters copied before the terminator is written. *)
Fixpoint copy_text_loop (index capacity : Z) (source : list Z) : list Z :=
  match source with
  | [] => []
  | c :: source =>
      if index +w 1 <? capacity then c :: copy_text_loop (index +w 1) capacity source else []
  end.
Definition slab_copy_text (capacity : Z) (source : list Z) : list Z :=
  copy_text_loop 0 capacity source.

Definition slab_align_up (value alignment : Z) : Z :=
  if (alignment =? 0) || (value >? 0xFFFFFFFF -w (alignment -w 1)) then 0
  else (value +w alignment -w 1) &w (~w (alignment -w 1)).

Definition slab_power_of_two (value : Z) : bool :=
  negb (value =? 0) && (value &w (value -w 1) =? 0).

(** A cast to [int16_t]. *)
Definition s16 (z : Z) : Z := (z + 2 ^ 15) mod 2 ^ 16 - 2 ^ 15.

(** [int16_t* head], selected by the state of a slab. *)
Definition get_head (cache : kmem_cache_t) (state : Z) : Z :=
  if state =? KMEM_SLAB_STATE_FULL then kc_full_head cache
  else if state =? KMEM_SLAB_STATE_PARTIAL then kc_partial_head cache
  else kc_empty_head cache.
Definition set_head (state head : Z) (cache : kmem_cache_t) : kmem_cache_t :=
  if state =? KMEM_SLAB_STATE_FULL then cache <| kc_full_head := head |>
  else if state =? KMEM_SLAB_STATE_PARTIAL then cache <| kc_partial_head := head |>
  else cache <| kc_empty_head := head |>.

(** Bit [index] of an array of 32-bit words. *)
Definition word_bit (words : array Z) (index : Z) : bool :=
  negb (aget words (index / 32) &w (1 <<w (index mod 32)) =? 0).
Definition set_word_bit (words : array Z) (index : Z) : array Z :=
  aset words (index / 32) (aget words (index / 32) |w (1 <<w (index mod 32))).
Definition clear_word_bit (words : array Z) (index : Z) : array Z :=
  aset words (index / 32) (aget words (index / 32) &w ~w (1 <<w (index mod 32))).

Definition slab_set_bit (slab : kmem_slab_t) (index : Z) (used : bool) : kmem_slab_t :=
  if used then slab <| ks_allocation_bitmap ::= λ b, set_word_bit b index |>
  else slab <| ks_allocation_bitmap ::= λ b, clear_word_bit b index |>.
Definition slab_bit_is_set (slab : kmem_slab_t) (index : Z) : bool :=
  word_bit (ks_allocation_bitmap slab) index.

(** The loop of [slab_prepare_record] that threads the free list. *)
Definition link_free (count : Z) (next : array Z) (index : Z) : array Z :=
  aset next index (if index +w 1 <? count then u16 (index +w 1) else u16 KMEM_SLAB_MAX_OBJECTS).

Section operations.
Context {M : Type} `{PageManager M}.
Abbreviation slab_t := (slab_t M).

Definition get_cache (s : slab_t) (c : Z) : kmem_cache_t := aget (cache_table s) c.
Definition get_slab (s : slab_t) (i : Z) : kmem_slab_t := aget (slab_table s) i.
Definition upd_cache (s : slab_t) (c : Z) (f : kmem_cache_t → kmem_cache_t) : slab_t :=
  s <| cache_table ::= λ t, aset t c (f (aget t c)) |>.
Definition upd_slab (s : slab_t) (i : Z) (f : kmem_slab_t → kmem_slab_t) : slab_t :=
  s <| slab_table ::= λ t, aset t i (f (aget t i)) |>.

Definition slab_cache_registered (s : slab_t) (cache : Z) : bool :=
  if cache =? NULL_CACHE then false else
  existsb (λ index, (index =? cache) && kc_used (get_cache s index)) (range 0 KMEM_CACHE_MAX).

Definition slab_find_cache_slot (s : slab_t) : Z :=
  default (-1) (List.find (λ index, negb (kc_used (get_cache s index))) (range 0 KMEM_CACHE_MAX)).
Definition slab_find_free_record (s : slab_t) : Z :=
  default (-1) (List.find (λ index, negb (ks_used (get_slab s index))) (range 0 KMEM_SLAB_MAX)).

Definition slab_list_remove (s : slab_t) (cache slab_index : Z) : slab_t :=
  let slab := get_slab s slab_index in
  let state := ks_state slab in
  let s := if negb (ks_previous slab =? KMEM_SLAB_LINK_NONE)
    then upd_slab s (ks_previous slab) (λ p, p <| ks_next := ks_next slab |>)
    else upd_cache s cache (set_head state (ks_next slab)) in
  let slab := get_slab s slab_index in
  let s := if negb (ks_next slab =? KMEM_SLAB_LINK_NONE)
    then upd_slab s (ks_next slab) (λ n, n <| ks_previous := ks_previous slab |>)
    else s in
  upd_slab s slab_index (λ slab,
    (slab <| ks_next := KMEM_SLAB_LINK_NONE |>) <| ks_previous := KMEM_SLAB_LINK_NONE |>).

Definition slab_list_add (s : slab_t) (cache slab_index state : Z) : slab_t :=
  let s := upd_slab s slab_index (λ slab, slab <| ks_state := state |>) in
  let head := get_head (get_cache s cache) state in
  let s := upd_slab s slab_index (λ slab,
    (slab <| ks_previous := KMEM_SLAB_LINK_NONE |>) <| ks_next := head |>) in
  let s := if negb (head =? KMEM_SLAB_LINK_NONE)
    then upd_slab s head (λ h, h <| ks_previous := s16 slab_index |>)
    else s in
  upd_cache s cache (set_head state (s16 slab_index)).

Definition slab_prepare_record (s : slab_t) (cache : Z) : slab_t * status :=
  let record_index := slab_find_free_record s in
  if record_index <? 0 then (s, ERR_UNAVAILABLE) else
  let kc := get_cache s cache in
  let '(m, memory) := pm_alloc (pages s) (kc_slab_pages kc) in
  let s := s <| pages := m |> in
  if memory =? 0 then (s, ERR_MEM) else
  let count := kc_objects_per_slab kc in
  let s := upd_slab s record_index (λ _,
    KmemSlab cache memory (kc_slab_pages kc) count 0 0 KMEM_SLAB_LINK_NONE KMEM_SLAB_LINK_NONE
      0 true ∅ (foldl (link_free count) ∅ (range 0 count))) in
  let s := slab_list_add s cache record_index KMEM_SLAB_STATE_EMPTY in
  let s := upd_cache s cache (λ kc, kc <| kc_slab_count ::= λ n, n +w 1 |>) in
  let s := upd_cache s cache (λ kc, kc <| kc_capacity ::= λ n, n +w count |>) in
  (s <| slab_count ::= λ n, n +w 1 |>, OK).

(** The slab and the index of the object, when the function returns 1. *)
Fixpoint location_loop (s : slab_t) (cache address : Z) (indices : list Z) : option (Z * Z) :=
  match indices with
  | [] => None
  | index :: indices =>
      let slab := get_slab s index in
      if negb (ks_used slab) || negb (ks_owner slab =? cache)
      then location_loop s cache address indices else
      let stride := kc_object_stride (get_cache s cache) in
      let start := ks_memory slab in
      let end_ := start +w (stride *w ks_object_count slab) in
      if (address <? start) || (address >=? end_) then location_loop s cache address indices else
      let offset := address -w start in
      if negb (offset mod stride =? 0) then None else
      let object_index := offset / stride in
      if object_index <? ks_object_count slab then Some (index, object_index) else None
  end.
Definition slab_object_location (s : slab_t) (cache object : Z) : option (Z * Z) :=
  if (cache =? NULL_CACHE) || (object =? 0) || (kc_object_stride (get_cache s cache) =? 0)
  then None else location_loop s cache object (range 0 KMEM_SLAB_MAX).

(** ** Validation *)

(** The walk of the free list: [None] when it returns 0, otherwise the last
    [current], the number of entries and the set of entries seen. *)
Fixpoint free_walk (fuel : nat) (slab : kmem_slab_t) (current free_count : Z) (free_seen : array Z)
    : option (Z * Z * array Z) :=
  match fuel with
  | O => Some (current, free_count, free_seen)
  | S fuel =>
      if negb (current =? KMEM_SLAB_MAX_OBJECTS) && (free_count <=? ks_object_count slab) then
        if (current >=? ks_object_count slab) || slab_bit_is_set slab current then None else
        if word_bit free_seen current then None else
        free_walk fuel slab (aget (ks_free_next slab) current) (free_count +w 1)
          (set_word_bit free_seen current)
      else Some (current, free_count, free_seen)
  end.

Definition slab_validate_slab (slab : kmem_slab_t) : bool :=
  if negb (ks_used slab) || (ks_owner slab =? NULL_CACHE) || (ks_memory slab =? 0)
     || (ks_object_count slab <? KMEM_SLAB_MIN_OBJECTS)
     || (ks_object_count slab >? KMEM_SLAB_MAX_OBJECTS) || (ks_pages slab =? 0) then false else
  let active := foldl (λ active index, if slab_bit_is_set slab index then active +w 1 else active)
                  0 (range 0 (ks_object_count slab)) in
  match free_walk (Z.to_nat (ks_object_count slab + 2)) slab (ks_free_head slab) 0 ∅ with
  | None => false
  | Some (current, free_count, free_seen) =>
      if negb (current =? KMEM_SLAB_MAX_OBJECTS)
         || negb (active +w free_count =? ks_object_count slab)
         || negb (active =? ks_active_objects slab) then false else
      if negb (all_range 0 (ks_object_count slab) (λ index,
           slab_bit_is_set slab index || word_bit free_seen index)) then false else
      negb (((active =? 0) && negb (ks_state slab =? KMEM_SLAB_STATE_EMPTY))
         || ((active >? 0) && (active <? ks_object_count slab)
             && negb (ks_state slab =? KMEM_SLAB_STATE_PARTIAL))
         || ((active =? ks_object_count slab) && negb (ks_state slab =? KMEM_SLAB_STATE_FULL)))
  end.

Fixpoint list_walk (fuel : nat) (s : slab_t) (cache head state previous count : Z)
    : option (Z * Z) :=
  match fuel with
  | O => Some (head, count)
  | S fuel =>
      if negb (head =? KMEM_SLAB_LINK_NONE) && (count <=? KMEM_SLAB_MAX) then
        if (head <? 0) || (head >=? KMEM_SLAB_MAX) then None else
        let slab := get_slab s head in
        if negb (ks_used slab) || negb (ks_owner slab =? cache) || negb (ks_state slab =? state)
           || negb (ks_previous slab =? previous) then None else
        list_walk fuel s cache (ks_next slab) state head (count +w 1)
      else Some (head, count)
  end.
Definition slab_validate_list (s : slab_t) (cache head state expected : Z) : bool :=
  match list_walk (Z.to_nat (KMEM_SLAB_MAX + 2)) s cache head state KMEM_SLAB_LINK_NONE 0 with
  | None => false
  | Some (head, count) => (head =? KMEM_SLAB_LINK_NONE) && (count =? expected)
  end.

(** The counters of the inner loop of [kmem_cache_validate]. *)
Record slab_tally := Tally {
  ta_active : Z; ta_capacity : Z; ta_slabs : Z; ta_actual : Z;
  ta_full : Z; ta_partial : Z; ta_empty : Z
}.
Definition tally_slab (s : slab_t) (cache : Z) (t : option slab_tally) (slab_index : Z) : option slab_tally :=
  match t with
  | None => None
  | Some (Tally active capacity slabs actual full partial empty) =>
      let slab := get_slab s slab_index in
      if ks_used slab && (ks_owner slab =? cache) then
        let active := active +w ks_active_objects slab in
        let capacity := capacity +w ks_object_count slab in
        let slabs := slabs +w 1 in
        let actual := actual +w 1 in
        if ks_state slab =? KMEM_SLAB_STATE_FULL
        then Some (Tally active capacity slabs actual (full +w 1) partial empty)
        else if ks_state slab =? KMEM_SLAB_STATE_PARTIAL
        then Some (Tally active capacity slabs actual full (partial +w 1) empty)
        else if ks_state slab =? KMEM_SLAB_STATE_EMPTY
        then Some (Tally active capacity slabs actual full partial (empty +w 1))
        else None
      else t
  end.

(** One cache: the totals of caches and slabs, or [None] for ERR_STATE. *)
Definition validate_cache (s : slab_t) (acc : option (Z * Z)) (index : Z) : option (Z * Z) :=
  match acc with
  | None => None
  | Some (actual_caches, actual_slabs) =>
      let cache := get_cache s index in
      if negb (kc_used cache) then acc else
      match foldl (tally_slab s index) (Some (Tally 0 0 0 actual_slabs 0 0 0)) (range 0 KMEM_SLAB_MAX) with
      | None => None
      | Some t =>
          if negb (slab_validate_list s index (kc_full_head cache) KMEM_SLAB_STATE_FULL (ta_full t))
             || negb (slab_validate_list s index (kc_partial_head cache) KMEM_SLAB_STATE_PARTIAL (ta_partial t))
             || negb (slab_validate_list s index (kc_empty_head cache) KMEM_SLAB_STATE_EMPTY (ta_empty t))
             || negb (ta_active t =? kc_active_objects cache)
             || negb (ta_capacity t =? kc_capacity cache)
             || negb (ta_slabs t =? kc_slab_count cache)
          then None else Some (actual_caches +w 1, ta_actual t)
      end
  end.

Definition kmem_cache_validate (s : slab_t) : status :=
  if negb (slab_initialized s) then ERR_UNAVAILABLE else
  if negb (all_range 0 KMEM_SLAB_MAX (λ index,
       negb (ks_used (get_slab s index)) || slab_validate_slab (get_slab s index))) then ERR_STATE else
  match foldl (validate_cache s) (Some (0, 0)) (range 0 KMEM_CACHE_MAX) with
  | None => ERR_STATE
  | Some (actual_caches, actual_slabs) =>
      if negb (actual_caches =? cache_count s) || negb (actual_slabs =? slab_count s)
      then ERR_STATE else OK
  end.

(** ** The interface of slab.h *)

Definition kmem_cache_init (s : slab_t) : slab_t * status :=
  if slab_initialized s then (s, OK) else
  (SlabState (pages s) ∅ ∅ 0 0 0 0 0 true (paging_ready s), OK).

(** Stride, pages and objects per slab; [None] when the request is refused.
    A null name is an empty one: both are refused. *)
Definition cache_geometry (name : list Z) (object_size alignment : Z) : option (Z * Z * Z) :=
  if match name with [] => true | _ => false end || (object_size =? 0)
     || negb (slab_power_of_two alignment) || (alignment >? PAGE_SIZE) then None else
  if object_size >? 0xFFFFFFFF -w alignment +w 1 then None else
  let stride := slab_align_up object_size alignment in
  if (stride =? 0) || (stride >? 0xFFFFFFFF / KMEM_SLAB_MIN_OBJECTS) then None else
  let required_bytes := stride *w KMEM_SLAB_MIN_OBJECTS in
  if required_bytes >? 0xFFFFFFFF -w (PAGE_SIZE -w 1) then None else
  let pages := (required_bytes +w PAGE_SIZE -w 1) / PAGE_SIZE in
  if (pages =? 0) || (pages >? 0xFFFFFFFF / PAGE_SIZE) then None else
  let objects := (pages *w PAGE_SIZE) / stride in
  let objects := if objects >? KMEM_SLAB_MAX_OBJECTS then KMEM_SLAB_MAX_OBJECTS else objects in
  if objects <? KMEM_SLAB_MIN_OBJECTS then None else Some (stride, pages, objects).

Definition kmem_cache_create (s : slab_t) (name : list Z) (object_size alignment : Z) : slab_t * Z :=
  if negb (slab_initialized s) then (s, NULL_CACHE) else
  match cache_geometry name object_size alignment with
  | None => (s, NULL_CACHE)
  | Some (stride, pages, objects) =>
      let slot := slab_find_cache_slot s in
      if (slot <? 0) || (cache_count s >=? KMEM_CACHE_MAX) then (s, NULL_CACHE) else
      if existsb (λ index, kc_used (get_cache s index)
                           && bool_decide (kc_name (get_cache s index) = name))
           (range 0 KMEM_CACHE_MAX) then (s, NULL_CACHE) else
      let s := upd_cache s slot (λ _,
        KmemCache (slab_copy_text KMEM_CACHE_NAME_LENGTH name) object_size alignment stride
          objects pages 0 0 0 0 0 0
          KMEM_SLAB_LINK_NONE KMEM_SLAB_LINK_NONE KMEM_SLAB_LINK_NONE true) in
      (s <| cache_count ::= λ n, n +w 1 |>, slot)
  end.

Definition fail_global (s : slab_t) : slab_t := s <| global_allocation_failures ::= λ n, n +w 1 |>.
Definition fail_alloc (s : slab_t) (cache : Z) : slab_t :=
  fail_global (upd_cache s cache (λ kc, kc <| kc_allocation_failures ::= λ n, n +w 1 |>)).

(** From a slab with a free object: take it, move the slab to the list of
    its new state, and zero the object. *)
Definition take_object (s : slab_t) (cache slab_index : Z) : slab_t * Z :=
  let object_index := ks_free_head (get_slab s slab_index) in
  let s := upd_slab s slab_index (λ slab,
    slab <| ks_free_head := aget (ks_free_next slab) object_index |>) in
  let s := upd_slab s slab_index (λ slab, slab_set_bit slab object_index true) in
  let s := upd_slab s slab_index (λ slab, slab <| ks_active_objects ::= λ n, n +w 1 |>) in
  let s := upd_cache s cache (λ kc, kc <| kc_active_objects ::= λ n, n +w 1 |>) in
  let s := if ks_active_objects (get_slab s slab_index) =? 1
    then slab_list_add (slab_list_remove s cache slab_index) cache slab_index KMEM_SLAB_STATE_PARTIAL
    else s in
  let s := if ks_active_objects (get_slab s slab_index) =? ks_object_count (get_slab s slab_index)
    then slab_list_add (slab_list_remove s cache slab_index) cache slab_index KMEM_SLAB_STATE_FULL
    else s in
  let kc := get_cache s cache in
  let object := ks_memory (get_slab s slab_index) +w (object_index *w kc_object_stride kc) in
  (s <| pages ::= λ m, pm_memset m object 0 (kc_object_size kc) |>, object).

(** Returns the address of the object, 0 for null. *)
Definition kmem_cache_alloc (s : slab_t) (cache : Z) : slab_t * Z :=
  if negb (slab_initialized s) || negb (slab_cache_registered s cache) then (fail_global s, 0) else
  if negb (paging_ready s) then (fail_alloc s cache, 0) else
  let kc := get_cache s cache in
  let slab_index := if kc_partial_head kc =? KMEM_SLAB_LINK_NONE then kc_empty_head kc
                    else kc_partial_head kc in
  let '(s, slab_index, result) :=
    if slab_index =? KMEM_SLAB_LINK_NONE then
      let '(s, result) := slab_prepare_record s cache in
      (s, kc_empty_head (get_cache s cache), result)
    else (s, slab_index, OK) in
  if negb (is_ok result) then (fail_alloc s cache, 0) else
  if (slab_index <? 0) || (slab_index >=? KMEM_SLAB_MAX) then (fail_alloc s cache, 0) else
  if ks_free_head (get_slab s slab_index) >=? ks_object_count (get_slab s slab_index)
  then (fail_alloc s cache, 0) else
  take_object s cache slab_index.

Definition count_bad_free (s : slab_t) (cache : Z) : slab_t :=
  let s := upd_cache s cache (λ kc, kc <| kc_invalid_frees ::= λ n, n +w 1 |>) in
  s <| global_invalid_frees ::= λ n, n +w 1 |>.
Definition count_double_free (s : slab_t) (cache : Z) : slab_t :=
  let s := upd_cache s cache (λ kc, kc <| kc_double_frees ::= λ n, n +w 1 |>) in
  s <| global_double_frees ::= λ n, n +w 1 |>.

(** From a live object: put it back on the free list and move the slab. *)
Definition put_object (s : slab_t) (cache slab_index object_index : Z) : slab_t :=
  let slab := get_slab s slab_index in
  let previous_state := ks_state slab in
  let s := if (previous_state =? KMEM_SLAB_STATE_FULL)
              || ((previous_state =? KMEM_SLAB_STATE_PARTIAL) && (ks_active_objects slab =? 1))
    then slab_list_remove s cache slab_index else s in
  let s := upd_slab s slab_index (λ slab, slab_set_bit slab object_index false) in
  let s := upd_slab s slab_index (λ slab,
    slab <| ks_free_next ::= λ f, aset f object_index (ks_free_head slab) |>) in
  let s := upd_slab s slab_index (λ slab, slab <| ks_free_head := u16 object_index |>) in
  let s := upd_slab s slab_index (λ slab, slab <| ks_active_objects ::= λ n, n -w 1 |>) in
  let s := upd_cache s cache (λ kc, kc <| kc_active_objects ::= λ n, n -w 1 |>) in
  if ks_active_objects (get_slab s slab_index) =? 0
  then slab_list_add s cache slab_index KMEM_SLAB_STATE_EMPTY
  else if previous_state =? KMEM_SLAB_STATE_FULL
  then slab_list_add s cache slab_index KMEM_SLAB_STATE_PARTIAL else s.

Definition kmem_cache_free (s : slab_t) (cache object : Z) : slab_t :=
  if negb (slab_initialized s) || negb (slab_cache_registered s cache) || (object =? 0)
  then s <| global_invalid_frees ::= λ n, n +w 1 |> else
  match slab_object_location s cache object with
  | None => count_bad_free s cache
  | Some (slab_index, object_index) =>
      let slab := get_slab s slab_index in
      if (ks_active_objects slab =? 0) || (ks_active_objects slab >? ks_object_count slab)
      then count_bad_free s cache else
      if negb (slab_bit_is_set slab object_index) then count_double_free s cache else
      put_object s cache slab_index object_index
  end.

(** One iteration of the loop of [kmem_cache_destroy]. *)
Definition destroy_slab (cache : Z) (s : slab_t) (index : Z) : slab_t :=
  let slab := get_slab s index in
  if negb (ks_used slab) || negb (ks_owner slab =? cache) then s else
  let s := slab_list_remove s cache index in
  let s := s <| pages ::= λ m, pm_free m (ks_memory (get_slab s index)) (ks_pages (get_slab s index)) |> in
  let s := upd_slab s index (λ _, slab_zero) in
  s <| slab_count ::= λ n, n -w 1 |>.

Definition kmem_cache_destroy (s : slab_t) (cache : Z) : slab_t * status :=
  if negb (slab_initialized s) || negb (slab_cache_registered s cache) then (s, ERR_INVALID) else
  if negb (kc_active_objects (get_cache s cache) =? 0) then (s, ERR_STATE) else
  let s := foldl (destroy_slab cache) s (range 0 KMEM_SLAB_MAX) in
  let s := upd_cache s cache (λ _, cache_zero) in
  (s <| cache_count ::= λ n, n -w 1 |>, OK).

Definition slab_copy_info (cache : kmem_cache_t) : kmem_cache_info_t :=
  KmemCacheInfo (slab_copy_text KMEM_CACHE_NAME_LENGTH (kc_name cache)) (kc_object_size cache)
    (kc_alignment cache) (kc_object_stride cache) (kc_objects_per_slab cache)
    (kc_active_objects cache) (kc_capacity cache) (kc_slab_count cache)
    (kc_slab_count cache *w kc_slab_pages cache) (kc_allocation_failures cache)
    (kc_invalid_frees cache) (kc_double_frees cache) (kc_used cache).

(** The destination pointers of the queries are not null. *)
Definition kmem_cache_get_info (s : slab_t) (cache : Z) : option kmem_cache_info_t * status :=
  if negb (slab_cache_registered s cache) then (None, ERR_INVALID) else
  (Some (slab_copy_info (get_cache s cache)), OK).

Definition kmem_cache_get_info_at (s : slab_t) (index : Z) : option kmem_cache_info_t * status :=
  if index >=? KMEM_CACHE_MAX then (None, ERR_INVALID) else
  if negb (kc_used (get_cache s index)) then (Some info_zero, OK) else
  (Some (slab_copy_info (get_cache s index)), OK).

Definition kmem_cache_get_count (s : slab_t) : Z := cache_count s.

Definition kmem_cache_owns (s : slab_t) (cache object : Z) : bool :=
  if negb (slab_cache_registered s cache) || (object =? 0) then false else
  match slab_object_location s cache object with Some _ => true | None => false end.

(** Active objects, capacity and pages of the caches. *)
Definition stats_cache (s : slab_t) (acc : Z * Z * Z) (index : Z) : Z * Z * Z :=
  let '(active, capacity, pages) := acc in
  let cache := get_cache s index in
  if negb (kc_used cache) then acc else
  (active +w kc_active_objects cache, capacity +w kc_capacity cache,
   pages +w (kc_slab_count cache *w kc_slab_pages cache)).

Definition kmem_cache_get_stats (s : slab_t) : kmem_slab_stats_t :=
  let valid := slab_initialized s && is_ok (kmem_cache_validate s) in
  let '(active, capacity, pages) := foldl (stats_cache s) (0, 0, 0) (range 0 KMEM_CACHE_MAX) in
  KmemSlabStats (cache_count s) (slab_count s) pages active capacity
    (global_allocation_failures s) (global_invalid_frees s) (global_double_frees s)
    (slab_initialized s) valid.
End operations.
