(* ===== verification/SlabInv.v ===== *)
(** * The slab allocator keeps its structures consistent

    The three lists of every cache are chains through the slab table, the
    free list of a slab enumerates exactly its clear bits, counters agree with
    the tables, and every used slab owns its pages.  [slab_inv] collects this;
    each operation preserves it, and it makes [kmem_cache_validate] succeed. *)

From S2P Require Import Prelude Memory Slab.

Abbreviation NONE := KMEM_SLAB_LINK_NONE.
Abbreviation EMPTY := KMEM_SLAB_STATE_EMPTY.
Abbreviation PARTIAL := KMEM_SLAB_STATE_PARTIAL.
Abbreviation FULL := KMEM_SLAB_STATE_FULL.

(** ** Chains through the slab table *)

(** From [h] with predecessor [p], the elements [l], ending at [q] with
    next pointer [n]. *)
Fixpoint seg (g : Z → kmem_slab_t) (p h : Z) (l : list Z) (q n : Z) : Prop :=
  match l with
  | [] => h = n ∧ p = q
  | x :: l => h = x ∧ ks_previous (g x) = p ∧ seg g x (ks_next (g x)) l q n
  end.

Definition dll (g : Z → kmem_slab_t) (h : Z) (l : list Z) : Prop := ∃ q, seg g NONE h l q NONE.

Lemma seg_app g p h l1 l2 q n :
  seg g p h (l1 ++ l2) q n ↔ ∃ q1 n1, seg g p h l1 q1 n1 ∧ seg g q1 n1 l2 q n.
Proof.
  revert p h. induction l1 as [|x l1 IH]; intros p h; cbn.
  - split; [by intros; exists p, h|]. by intros (? & ? & [-> ->] & ?).
  - rewrite IH. split.
    + intros (-> & ? & q1 & n1 & ? & ?). by exists q1, n1.
    + intros (q1 & n1 & (-> & ? & ?) & ?). split; [done|]. split; [done|]. by exists q1, n1.
Qed.

Lemma seg_ext g g' p h l q n :
  (∀ x, x ∈ l → ks_next (g' x) = ks_next (g x) ∧ ks_previous (g' x) = ks_previous (g x)) →
  seg g p h l q n → seg g' p h l q n.
Proof.
  revert p h. induction l as [|x l IH]; intros p h E; cbn; [done|].
  destruct (E x) as [-> ->]; [constructor|]. intros (? & ? & ?). split; [done|]. split; [done|].
  apply IH; [|done]. intros y Hy. apply E. by constructor.
Qed.

Lemma dll_ext g g' h l :
  (∀ x, x ∈ l → ks_next (g' x) = ks_next (g x) ∧ ks_previous (g' x) = ks_previous (g x)) →
  dll g h l → dll g' h l.
Proof. intros E [q H]. exists q. by eapply seg_ext. Qed.

Lemma seg_head g p h l q n : seg g p h l q n → h = default n (head l).
Proof. destruct l; cbn; tauto. Qed.

Lemma seg_last g p h l q n : seg g p h l q n → q = default p (last l).
Proof.
  revert p h. induction l as [|x l IH]; intros p h; cbn; [by intros [_ ->]|].
  intros (_ & _ & H%IH). rewrite H. destruct l as [|y l]; [done|].
  change (last (x :: y :: l)) with (last (y :: l)). by destruct (last_is_Some (y :: l)) as [_ [z ->]].
Qed.

Lemma dll_head g h l : dll g h l → h = default NONE (head l).
Proof. intros [q H]. by eapply seg_head. Qed.

(** A new predecessor for the rest of a chain. *)
Lemma seg_new_prev g g' p p' h l q :
  seg g p h l q NONE →
  (∀ x, x ∈ l → ks_next (g' x) = ks_next (g x) ∧
     ks_previous (g' x) = if decide (head l = Some x) then p' else ks_previous (g x)) →
  NoDup l → ∃ q', seg g' p' h l q' NONE.
Proof.
  destruct l as [|x l]; cbn.
  - intros [-> _] _ _. by exists p'.
  - intros (-> & _ & H) E Hn. apply NoDup_cons in Hn as [Hx Hn]. exists q.
    destruct (E x) as [E1 E2]; [constructor|]. rewrite decide_True in E2 by done.
    rewrite E1, E2. split; [done|]. split; [done|]. eapply seg_ext; [|done].
    intros y Hy. destruct (E y) as [E3 E4]; [by constructor|].
    rewrite decide_False in E4 by (intros [= ->]; done). done.
Qed.

(** A new successor for the last element of a chain. *)
Lemma seg_new_next g g' p h l y q n n' :
  seg g p h (l ++ [y]) q n →
  ks_next (g' y) = n' → ks_previous (g' y) = ks_previous (g y) →
  (∀ x, x ∈ l → ks_next (g' x) = ks_next (g x) ∧ ks_previous (g' x) = ks_previous (g x)) →
  seg g' p h (l ++ [y]) y n'.
Proof.
  rewrite !seg_app. intros (q1 & n1 & H1 & (-> & Hp & _)) En Ep E.
  exists q1, y. split; [by eapply seg_ext|]. cbn. by rewrite Ep, En.
Qed.

Lemma dll_split g h l1 x l2 :
  dll g h (l1 ++ x :: l2) →
  seg g NONE h l1 (default NONE (last l1)) x ∧
  ks_previous (g x) = default NONE (last l1) ∧ ks_next (g x) = default NONE (head l2) ∧
  ∃ q, seg g x (ks_next (g x)) l2 q NONE.
Proof.
  intros [q H]. rewrite seg_app in H. destruct H as (q1 & n1 & H1 & (-> & Hp & H2)).
  pose proof (seg_last _ _ _ _ _ _ H1) as ->. split; [done|]. split; [done|].
  split; [by eapply seg_head|]. by exists q.
Qed.

(** Unlinking [x]: its neighbours are joined. *)
Lemma dll_remove g g' h l1 x l2 :
  dll g h (l1 ++ x :: l2) → NoDup (l1 ++ x :: l2) →
  (∀ y, y ∈ l1 ++ l2 → y ≠ NONE) →
  (∀ y, y ∈ l1 ++ l2 →
     ks_next (g' y) = (if decide (last l1 = Some y) then ks_next (g x) else ks_next (g y)) ∧
     ks_previous (g' y) = (if decide (head l2 = Some y) then ks_previous (g x) else ks_previous (g y))) →
  dll g' (if decide (l1 = []) then ks_next (g x) else h) (l1 ++ l2).
Proof.
  intros Hd Hn Hne E. apply dll_split in Hd as (H1 & Hp & Hnx & q & H2).
  apply NoDup_app in Hn as (Hn1 & Hd1 & Hn2). apply NoDup_cons in Hn2 as [_ Hn2].
  assert (∀ y, y ∈ l1 → y ∉ l2) as Hd2 by (intros y Hy1 Hy2; apply (Hd1 y Hy1); by constructor).
  destruct (seg_new_prev g g' x (ks_previous (g x)) (ks_next (g x)) l2 q H2) as [q' H2'].
  { intros y Hy. destruct (E y) as [E1 E2]; [in_list|]. split; [|done].
    rewrite E1, decide_False; [done|]. intros Hl. apply (Hd2 y); [|done].
    by apply last_Some_elem_of in Hl. }
  { done. }
  destruct (decide (l1 = [])) as [->|Hl1].
  - cbn in Hp. rewrite Hp in H2'. by exists q'.
  - destruct l1 as [|y l1 _] using rev_ind; [done|]. rewrite last_snoc in H1, Hp. cbn in H1, Hp.
    exists q'. rewrite seg_app. exists y, (ks_next (g x)). rewrite Hp in H2'. split; [|done].
    apply NoDup_app in Hn1 as (_ & Hdy & _).
    eapply seg_new_next; [exact H1|..].
    + destruct (E y) as [E1 _]; [in_list|]. by rewrite E1, last_snoc, decide_True.
    + destruct (E y) as [_ E2]; [in_list|]. rewrite E2, decide_False; [done|].
      intros Hl. apply (Hd2 y); [in_list|]. by apply head_Some_elem_of in Hl.
    + intros z Hz. destruct (E z) as [E1 E2]; [in_list|]. rewrite E1, E2, last_snoc, !decide_False; [done|..].
      * intros Hl. apply (Hd2 z); [in_list|]. by apply head_Some_elem_of in Hl.
      * intros [= ->]. apply (Hdy z Hz). constructor.
Qed.

(** Linking [x] in front. *)
Lemma dll_add g g' h l x :
  dll g h l → x ∉ l → NoDup l →
  ks_previous (g' x) = NONE → ks_next (g' x) = h →
  (∀ y, y ∈ l → ks_next (g' y) = ks_next (g y) ∧
     ks_previous (g' y) = if decide (head l = Some y) then x else ks_previous (g y)) →
  dll g' x (x :: l).
Proof.
  intros [q H] Hx Hn Hp Hnx E. destruct (seg_new_prev g g' NONE x h l q H E Hn) as [q' H'].
  exists q'. cbn. by rewrite Hp, Hnx.
Qed.

(** ** The lists of the caches *)

(** A slab record without its links and state; a cache without its heads. *)
Definition body (sl : kmem_slab_t) : kmem_slab_t :=
  ((sl <| ks_next := 0 |>) <| ks_previous := 0 |>) <| ks_state := 0 |>.
Definition cbody (c : kmem_cache_t) : kmem_cache_t :=
  ((c <| kc_full_head := 0 |>) <| kc_partial_head := 0 |>) <| kc_empty_head := 0 |>.

Lemma body_fields a b :
  body a = body b →
  ks_owner a = ks_owner b ∧ ks_memory a = ks_memory b ∧ ks_pages a = ks_pages b ∧
  ks_object_count a = ks_object_count b ∧ ks_active_objects a = ks_active_objects b ∧
  ks_free_head a = ks_free_head b ∧ ks_used a = ks_used b ∧
  ks_allocation_bitmap a = ks_allocation_bitmap b ∧ ks_free_next a = ks_free_next b.
Proof. destruct a, b. intros [=]. cbn. auto 10. Qed.

Lemma get_set_head c st st' h :
  0 ≤ st ≤ 2 → 0 ≤ st' ≤ 2 →
  get_head (set_head st h c) st' = if decide (st = st') then h else get_head c st'.
Proof.
  intros H1 H2. unfold get_head, set_head, FULL, PARTIAL.
  assert (st = 0 ∨ st = 1 ∨ st = 2) as [-> | [-> | ->] ] by lia;
  assert (st' = 0 ∨ st' = 1 ∨ st' = 2) as [-> | [-> | ->] ] by lia; done.
Qed.
Lemma cbody_set_head st h c : cbody (set_head st h c) = cbody c.
Proof. unfold set_head. by destruct (st =? FULL), (st =? PARTIAL), c. Qed.
Lemma used_cbody a b : cbody a = cbody b → kc_used a = kc_used b.
Proof. destruct a, b. by intros [=]. Qed.

Section lists.
Context {M : Type} `{PageManager M}.
Implicit Types s : slab_t M.

Lemma get_slab_upd s i f j :
  get_slab (upd_slab s i f) j = if decide (i = j) then f (get_slab s i) else get_slab s j.
Proof. apply aget_aset. Qed.
Lemma get_cache_upd s i f j :
  get_cache (upd_cache s i f) j = if decide (i = j) then f (get_cache s i) else get_cache s j.
Proof. apply aget_aset. Qed.
Lemma get_slab_upd_cache s i f j : get_slab (upd_cache s i f) j = get_slab s j.
Proof. done. Qed.
Lemma get_cache_upd_slab s i f j : get_cache (upd_slab s i f) j = get_cache s j.
Proof. done. Qed.

(** Everything but the two tables. *)
Definition rest s : slab_t M := (s <| cache_table := ∅ |>) <| slab_table := ∅ |>.

(** Slab [i] is in state [st] and belongs to the cache [c]. *)
Definition member s (c st i : Z) : Prop :=
  0 ≤ i < KMEM_SLAB_MAX ∧ ks_used (get_slab s i) = true ∧ ks_owner (get_slab s i) = c ∧
  ks_state (get_slab s i) = st.

(** Every list of every cache holds its slabs, but for [x]. *)
Definition lists_inv s (x : Z) : Prop :=
  ∀ c st, 0 ≤ c < KMEM_CACHE_MAX → kc_used (get_cache s c) = true → 0 ≤ st ≤ 2 →
  ∃ l, dll (get_slab s) (get_head (get_cache s c) st) l ∧ NoDup l ∧
    ∀ i, i ∈ l ↔ member s c st i ∧ i ≠ x.

(** [s'] differs from [s] in links, list heads and the state of [i]. *)
Record list_step s s' (i st : Z) : Prop := {
  ls_body j : body (get_slab s' j) = body (get_slab s j);
  ls_state j : ks_state (get_slab s' j) = if decide (i = j) then st else ks_state (get_slab s j);
  ls_cache c : cbody (get_cache s' c) = cbody (get_cache s c);
  ls_rest : rest s' = rest s
}.

Lemma list_step_trans s1 s2 s3 i st st' :
  list_step s1 s2 i st → list_step s2 s3 i st' → list_step s1 s3 i st'.
Proof.
  intros [A1 A2 A3 A4] [B1 B2 B3 B4]. split; [congruence|..|congruence|congruence].
  intros j. rewrite B2. case_decide; [done|]. by rewrite A2, decide_False.
Qed.

Lemma list_step_member s s' i st c st' j :
  list_step s s' i st → j ≠ i → member s' c st' j ↔ member s c st' j.
Proof.
  intros [A1 A2 _ _] Hj. unfold member. rewrite A2, decide_False by done.
  destruct (body_fields _ _ (A1 j)) as (-> & _ & _ & _ & _ & _ & -> & _). done.
Qed.

Lemma default_none (o : option Z) (P : Prop) :
  (∀ y, o = Some y → y ≠ NONE) → default NONE o = NONE → o = None.
Proof. destruct o; [|done]. cbn. intros Hne ->. by destruct (Hne NONE). Qed.

(** The slab table after unlinking. *)
Lemma remove_get s c i :
  let p := ks_previous (get_slab s i) in let n := ks_next (get_slab s i) in
  p ≠ i → n ≠ i → (p = NONE ∨ p ≠ n) →
  list_step s (slab_list_remove s c i) i (ks_state (get_slab s i)) ∧
  (∀ y, y ≠ i → y ≠ NONE →
     ks_next (get_slab (slab_list_remove s c i) y) = (if decide (p = y) then n else ks_next (get_slab s y)) ∧
     ks_previous (get_slab (slab_list_remove s c i) y) =
       (if decide (n = y) then p else ks_previous (get_slab s y))) ∧
  (∀ d, get_cache (slab_list_remove s c i) d =
     if decide (p = NONE ∧ c = d) then set_head (ks_state (get_slab s i)) n (get_cache s d)
     else get_cache s d).
Proof.
  intros p n Hp Hn Hpn. unfold slab_list_remove. fold p n.
  set (s1 := if negb (p =? NONE) then _ else _).
  assert (∀ j, get_slab s1 j = if decide (p = j ∧ p ≠ NONE) then (get_slab s p) <| ks_next := n |>
            else get_slab s j) as G1.
  { intros j. unfold s1. destruct (Z.eqb_spec p NONE); cbn [negb].
    - rewrite decide_False by tauto. done.
    - rewrite get_slab_upd. by destruct (decide (p = j)); [rewrite decide_True by done|rewrite decide_False by tauto]. }
  assert (∀ d, get_cache s1 d = if decide (p = NONE ∧ c = d)
            then set_head (ks_state (get_slab s i)) n (get_cache s d) else get_cache s d) as C1.
  { intros d. unfold s1. destruct (Z.eqb_spec p NONE); cbn [negb].
    - rewrite get_cache_upd. destruct (decide (c = d)) as [->|]; [by rewrite decide_True|by rewrite decide_False by tauto].
    - by rewrite decide_False by tauto. }
  assert (rest s1 = rest s) as R1 by (unfold s1; by destruct (negb _)).
  clearbody s1. assert (get_slab s1 i = get_slab s i) as Gi by (rewrite G1, decide_False; tauto).
  rewrite Gi. fold p n.
  set (s2 := if negb (n =? NONE) then _ else _).
  assert (∀ j, get_slab s2 j = if decide (n = j ∧ n ≠ NONE) then (get_slab s1 n) <| ks_previous := p |>
            else get_slab s1 j) as G2.
  { intros j. unfold s2. destruct (Z.eqb_spec n NONE); cbn [negb].
    - rewrite decide_False by tauto. done.
    - rewrite get_slab_upd. by destruct (decide (n = j)); [rewrite decide_True by done|rewrite decide_False by tauto]. }
  assert (∀ d, get_cache s2 d = get_cache s1 d) as C2 by (intros; unfold s2; by destruct (negb _)).
  assert (rest s2 = rest s1) as R2 by (unfold s2; by destruct (negb _)).
  assert (get_slab s2 i = get_slab s i) as Gi2 by (rewrite G2, decide_False; tauto).
  clearbody s2. split; [split|split].
  - intros j. rewrite get_slab_upd. destruct (decide (i = j)) as [<-|]; [by rewrite Gi2|].
    rewrite G2, !G1. repeat case_decide; intuition (subst; first [done|congruence]).
  - intros j. rewrite get_slab_upd. destruct (decide (i = j)) as [<-|]; [by rewrite Gi2|].
    rewrite G2, !G1. repeat case_decide; intuition (subst; first [done|congruence]).
  - intros d. rewrite get_cache_upd_slab, C2, C1. destruct (decide (p = NONE ∧ c = d)); [apply cbody_set_head|done].
  - change (rest s2 = rest s). congruence.
  - intros y Hy Hy'. rewrite get_slab_upd, decide_False, G2, !G1 by done.
    repeat case_decide; intuition (subst; first [done|congruence]).
  - intros d. by rewrite get_cache_upd_slab, C2, C1.
Qed.

(** What [slab_list_add] leaves. *)
Lemma add_get s c i st :
  let h := get_head (get_cache s c) st in
  0 ≤ i < KMEM_SLAB_MAX → h ≠ i →
  list_step s (slab_list_add s c i st) i st ∧
  ks_next (get_slab (slab_list_add s c i st) i) = h ∧
  ks_previous (get_slab (slab_list_add s c i st) i) = NONE ∧
  (∀ y, y ≠ i → y ≠ NONE →
     ks_next (get_slab (slab_list_add s c i st) y) = ks_next (get_slab s y) ∧
     ks_previous (get_slab (slab_list_add s c i st) y) =
       (if decide (h = y) then i else ks_previous (get_slab s y))) ∧
  (∀ d, get_cache (slab_list_add s c i st) d =
     if decide (c = d) then set_head st i (get_cache s d) else get_cache s d).
Proof.
  intros h Hi Hh. unfold slab_list_add. rewrite get_cache_upd_slab. fold h.
  replace (s16 i) with i by (unfold s16, KMEM_SLAB_MAX in *; divlia).
  set (s1 := upd_slab (upd_slab s i _) i _).
  assert (∀ j, get_slab s1 j = if decide (i = j) then
     (((get_slab s i) <| ks_state := st |>) <| ks_previous := NONE |>) <| ks_next := h |>
     else get_slab s j) as G1.
  { intros j. unfold s1. rewrite !get_slab_upd.
    destruct (decide (i = i)); [|done]. by destruct (decide (i = j)). }
  assert (∀ d, get_cache s1 d = get_cache s d) as C1 by done.
  assert (rest s1 = rest s) as R1 by done. clearbody s1.
  set (s2 := if negb (h =? NONE) then _ else _).
  assert (∀ j, get_slab s2 j = if decide (h = j ∧ h ≠ NONE) then (get_slab s1 h) <| ks_previous := i |>
            else get_slab s1 j) as G2.
  { intros j. unfold s2. destruct (Z.eqb_spec h NONE); cbn [negb].
    - rewrite decide_False by tauto. done.
    - rewrite get_slab_upd. by destruct (decide (h = j)); [rewrite decide_True by done|rewrite decide_False by tauto]. }
  assert (∀ d, get_cache s2 d = get_cache s1 d) as C2 by (intros; unfold s2; by destruct (negb _)).
  assert (rest s2 = rest s1) as R2 by (unfold s2; by destruct (negb _)).
  clearbody s2. split; [split|split_and!].
  - intros j. rewrite get_slab_upd_cache, G2, !G1.
    repeat case_decide; intuition (subst; first [done|congruence]).
  - intros j. rewrite get_slab_upd_cache, G2, !G1.
    repeat case_decide; intuition (subst; first [done|congruence]).
  - intros d. rewrite get_cache_upd, C2, C2, !C1.
    destruct (decide (c = d)) as [->|]; [apply cbody_set_head|done].
  - change (rest s2 = rest s). congruence.
  - rewrite get_slab_upd_cache, G2, decide_False, G1, decide_True by tauto. done.
  - rewrite get_slab_upd_cache, G2, decide_False, G1, decide_True by tauto. done.
  - intros y Hy Hy'. rewrite get_slab_upd_cache, G2, !G1.
    repeat case_decide; intuition (subst; first [done|congruence]).
  - intros d. rewrite get_cache_upd, C2, C2, !C1. by destruct (decide (c = d)) as [->|].
Qed.

Lemma last_default_elem (l : list Z) : default NONE (last l) = NONE ∨ default NONE (last l) ∈ l.
Proof.
  destruct (last l) eqn:E; [|by left]. right. by apply last_Some_elem_of in E.
Qed.
Lemma head_default_elem (l : list Z) : default NONE (head l) = NONE ∨ default NONE (head l) ∈ l.
Proof. destruct l; cbn; [by left|right; constructor]. Qed.

Lemma member_fun s c st c' st' i : member s c st i → member s c' st' i → c = c' ∧ st = st'.
Proof. unfold member. intros (_ & _ & <- & <-) (_ & _ & <- & <-). done. Qed.

Lemma member_not_none s c st i : member s c st i → i ≠ NONE.
Proof. intros [? _]. unfold NONE. lia. Qed.

(** Unlinking the slab [i] from its list [l1 ++ i :: l2]. *)
Section remove.
Context s (c st i : Z) (l1 l2 : list Z).
Context (Hdll : dll (get_slab s) (get_head (get_cache s c) st) (l1 ++ i :: l2)).
Context (Hnd : NoDup (l1 ++ i :: l2)) (Hst : 0 ≤ st ≤ 2).
Context (Hin : ∀ j, j ∈ l1 ++ i :: l2 ↔ member s c st j ∧ j ≠ NONE).
Abbreviation s' := (slab_list_remove s c i).

Lemma remove_elem y : y ∈ l1 ++ l2 → y ∈ l1 ++ i :: l2 ∧ y ≠ NONE ∧ y ≠ i.
Proof.
  intros Hy. assert (y ∈ l1 ++ i :: l2) as Hy' by (rewrite elem_of_app in *; rewrite elem_of_cons; tauto).
  split; [done|]. split; [apply Hin in Hy'; tauto|]. intros ->.
  pose proof Hnd as (_ & Hd1 & [Hi2 _]%NoDup_cons)%NoDup_app. apply elem_of_app in Hy as [Hy|]; [|done].
  apply (Hd1 i Hy). constructor.
Qed.

Lemma remove_links :
  ks_previous (get_slab s i) = default NONE (last l1) ∧
  ks_next (get_slab s i) = default NONE (head l2) ∧
  (default NONE (last l1) = NONE ∨ default NONE (last l1) ∈ l1 ++ l2) ∧
  (default NONE (head l2) = NONE ∨ default NONE (head l2) ∈ l1 ++ l2).
Proof.
  pose proof (dll_split _ _ _ _ _ Hdll) as (_ & Hp & Hnx & _). split; [done|]. split; [done|].
  destruct (last_default_elem l1), (head_default_elem l2); rewrite !elem_of_app; tauto.
Qed.

Lemma remove_effect :
  list_step s s' i st ∧
  (∀ y, y ≠ i → y ≠ NONE →
     ks_next (get_slab s' y) =
       (if decide (last l1 = Some y) then ks_next (get_slab s i) else ks_next (get_slab s y)) ∧
     ks_previous (get_slab s' y) =
       (if decide (head l2 = Some y) then ks_previous (get_slab s i) else ks_previous (get_slab s y))) ∧
  (∀ d, get_cache s' d =
     if decide (l1 = [] ∧ c = d) then set_head st (ks_next (get_slab s i)) (get_cache s d)
     else get_cache s d).
Proof.
  destruct remove_links as (Hp & Hn & Hpl & Hnl).
  assert (member s c st i ∧ i ≠ NONE) as [Hm Hi] by (apply Hin; in_list).
  destruct (remove_get s c i) as (Hs & Hlk & Hca).
  { rewrite Hp. destruct Hpl as [->|Hpl]; [done|]. by apply remove_elem in Hpl as (_ & _ & ?). }
  { rewrite Hn. destruct Hnl as [->|Hnl]; [done|]. by apply remove_elem in Hnl as (_ & _ & ?). }
  { rewrite Hp, Hn. destruct (last_default_elem l1) as [?|H1]; [by left|right]. intros E.
    pose proof Hnd as (_ & Hd1 & _)%NoDup_app. apply (Hd1 _ H1). constructor. rewrite E.
    destruct (head_default_elem l2) as [H2|]; [|done]. rewrite <-E in H2.
    destruct (remove_elem (default NONE (last l1))) as (_ & ? & _); [in_list|done]. }
  destruct Hm as (_ & _ & _ & Est). rewrite Est in Hs, Hca. split; [done|]. split.
  - intros y Hy Hy'. destruct (Hlk y Hy Hy') as [-> ->]. split.
    + rewrite Hp. destruct (last l1) as [z|]; cbn; repeat case_decide; congruence.
    + rewrite Hn. destruct (head l2) as [z|]; cbn; repeat case_decide; congruence.
  - intros d. rewrite Hca, Hp. destruct (decide (l1 = [])) as [El|Hl].
    + rewrite El. cbn. destruct (decide (c = d)); [by rewrite !decide_True|by rewrite !decide_False by tauto].
    + rewrite !decide_False; [done|tauto|]. intros [E _].
      apply last_is_Some in Hl as [w Hw]. rewrite Hw in E. cbn in E.
      destruct (remove_elem w) as (_ & ? & _); [|done].
      apply elem_of_app. left. by apply last_Some_elem_of.
Qed.

Lemma remove_same_list : dll (get_slab s') (get_head (get_cache s' c) st) (l1 ++ l2).
Proof.
  destruct remove_effect as (_ & Hlk & Hca). rewrite Hca.
  assert (get_head (if decide (l1 = [] ∧ c = c) then set_head st (ks_next (get_slab s i)) (get_cache s c)
    else get_cache s c) st =
    if decide (l1 = []) then ks_next (get_slab s i) else get_head (get_cache s c) st) as ->.
  { destruct (decide (l1 = [])); [|by rewrite decide_False by tauto].
    rewrite decide_True, get_set_head by done. by destruct (decide (st = st)). }
  apply (dll_remove (get_slab s)); [done|done|intros y Hy; apply remove_elem in Hy; tauto|].
  intros y Hy. apply Hlk; apply remove_elem in Hy; tauto.
Qed.

Lemma remove_other_list d st2 l :
  (c ≠ d ∨ st ≠ st2) → 0 ≤ st2 ≤ 2 →
  (∀ j, j ∈ l → (j ∉ l1 ++ i :: l2) ∧ j ≠ NONE) →
  dll (get_slab s) (get_head (get_cache s d) st2) l →
  dll (get_slab s') (get_head (get_cache s' d) st2) l.
Proof.
  intros Hne Hst2 Hdis Hd. destruct remove_effect as (_ & Hlk & Hca). rewrite Hca.
  assert (get_head (if decide (l1 = [] ∧ c = d) then set_head st (ks_next (get_slab s i)) (get_cache s d)
    else get_cache s d) st2 = get_head (get_cache s d) st2) as ->.
  { destruct (decide _) as [[_ <-]|]; [|done]. by rewrite get_set_head, decide_False by (done || tauto). }
  eapply dll_ext; [|exact Hd]. intros y [Hy Hy']%Hdis.
  rewrite elem_of_app, elem_of_cons in Hy.
  destruct (Hlk y) as [-> ->]; [tauto|done|]. rewrite !decide_False; [done|..].
  - intros E%head_Some_elem_of. tauto.
  - intros E%last_Some_elem_of. tauto.
Qed.
End remove.

Lemma remove_lists s c st i :
  lists_inv s NONE → 0 ≤ c < KMEM_CACHE_MAX → kc_used (get_cache s c) = true →
  member s c st i → 0 ≤ st ≤ 2 →
  lists_inv (slab_list_remove s c i) i ∧ list_step s (slab_list_remove s c i) i st.
Proof.
  intros HL Hc Hu Hm Hst. destruct (HL c st Hc Hu Hst) as (l & Hd & Hn & Hin).
  assert (i ∈ l) as Hil by (apply Hin; split; [done|by eapply member_not_none]).
  apply list_elem_of_split in Hil as (l1 & l2 & ->).
  destruct (remove_effect s c st i l1 l2 Hd Hn Hst Hin) as (Hs & _ & _).
  split; [|done]. intros d st2 Hd2 Hu2 Hst2.
  rewrite (used_cbody _ _ (ls_cache _ _ _ _ Hs d)) in Hu2.
  assert (∀ j, member (slab_list_remove s c i) d st2 j ∧ j ≠ i ↔ member s d st2 j ∧ j ≠ i) as Hmem.
  { intros j. split; intros [Hj Hji]; (split; [|done]); by apply (list_step_member s _ i st d st2 j Hs Hji). }
  destruct (decide (c = d ∧ st = st2)) as [[<- <-]|Hdiff].
  - exists (l1 ++ l2). split; [by apply remove_same_list|]. split.
    + apply NoDup_app in Hn as (? & Hd1 & [_ ?]%NoDup_cons). apply NoDup_app. split; [done|].
      split; [|done]. intros y Hy1 Hy2. apply (Hd1 y Hy1). by constructor.
    + intros j. rewrite Hmem. split.
      * intros Hj. destruct (remove_elem s c st i l1 l2 Hn Hst Hin j Hj) as (Hj' & _ & ?).
        apply Hin in Hj' as [? _]. done.
      * intros [Hj Hji]. assert (j ∈ l1 ++ i :: l2) as Hj'
          by (apply Hin; split; [done|by eapply member_not_none]).
        rewrite elem_of_app, elem_of_cons in Hj'. rewrite elem_of_app. tauto.
  - destruct (HL d st2 Hd2 Hu2 Hst2) as (l' & Hd' & Hn' & Hin'). exists l'.
    assert (∀ y, y ∈ l' → (y ∉ l1 ++ i :: l2) ∧ y ≠ NONE) as Hdis.
    { intros y [Hy ?]%Hin'. split; [|done]. intros [Hy' _]%Hin. apply Hdiff. by eapply member_fun. }
    split; [apply (remove_other_list s c st i l1 l2); try done; destruct (decide (c = d)); tauto|].
    split; [done|]. intros j. rewrite Hmem, Hin'. split.
    + intros [Hj Hj']. split; [done|]. intros ->. apply Hdiff. by eapply member_fun.
    + intros [Hj _]. split; [done|]. by eapply member_not_none.
Qed.

Lemma add_lists s c st i :
  lists_inv s i → 0 ≤ c < KMEM_CACHE_MAX → kc_used (get_cache s c) = true →
  0 ≤ i < KMEM_SLAB_MAX → ks_used (get_slab s i) = true → ks_owner (get_slab s i) = c → 0 ≤ st ≤ 2 →
  lists_inv (slab_list_add s c i st) NONE ∧ list_step s (slab_list_add s c i st) i st.
Proof.
  intros HL Hc Hu Hi Hui Ho Hst. destruct (HL c st Hc Hu Hst) as (l & Hd & Hn & Hin).
  pose proof (dll_head _ _ _ Hd) as Hh.
  assert (i ∉ l) as Hil by (intros [_ ?]%Hin; done).
  assert (i ≠ NONE) as Hin0 by (unfold NONE; lia).
  destruct (add_get s c i st Hi) as (Hs & Hnx & Hpv & Hlk & Hca).
  { rewrite Hh. destruct (head_default_elem l); congruence. }
  split; [|done]. intros d st2 Hd2 Hu2 Hst2.
  rewrite (used_cbody _ _ (ls_cache _ _ _ _ Hs d)) in Hu2.
  assert (∀ j, j ≠ i → member (slab_list_add s c i st) d st2 j ↔ member s d st2 j) as Hmem
    by (intros; by apply (list_step_member s _ i st)).
  assert (member (slab_list_add s c i st) c st i) as Hmi.
  { destruct (body_fields _ _ (ls_body _ _ _ _ Hs i)) as (E1 & _ & _ & _ & _ & _ & E2 & _).
    unfold member. rewrite E1, E2, (ls_state _ _ _ _ Hs), decide_True by done. done. }
  destruct (decide (c = d ∧ st = st2)) as [[<- <-]|Hdiff].
  - exists (i :: l). split; [|split].
    + rewrite Hca, decide_True, get_set_head by done. destruct (decide (st = st)); [|done].
      eapply (dll_add (get_slab s)); try done. intros y Hy.
      assert (y ≠ NONE) as Hy0 by (apply Hin in Hy as [? _]; by eapply member_not_none).
      destruct (Hlk y) as [-> ->]; [by intros ->|done|]. split; [done|]. rewrite Hh.
      destruct (head l); cbn; repeat case_decide; congruence.
    + by apply NoDup_cons.
    + intros j. rewrite elem_of_cons, Hin. destruct (decide (j = i)) as [->|Hj].
      * split; [done|by left].
      * rewrite (Hmem j Hj). split; [intros [?|[? ?]]; [done|]|intros [? ?]; by right].
        split; [done|]. by eapply member_not_none.
  - destruct (HL d st2 Hd2 Hu2 Hst2) as (l' & Hd' & Hn' & Hin'). exists l'.
    split; [|split; [done|]].
    + rewrite Hca. replace (get_head _ st2) with (get_head (get_cache s d) st2).
      2: { destruct (decide (c = d)) as [<-|]; [|done]. by rewrite get_set_head, decide_False by (done || tauto). }
      eapply dll_ext; [|exact Hd']. intros y [Hy Hyi]%Hin'. pose proof (member_not_none _ _ _ _ Hy).
      destruct (Hlk y) as [-> ->]; [done..|]. split; [done|]. rewrite decide_False; [done|].
      rewrite Hh. intros E. destruct (head_default_elem l) as [?|Hy']; [congruence|].
      rewrite E in Hy'. apply Hin in Hy' as [Hy' _]. apply Hdiff. by eapply member_fun.
    + intros j. rewrite Hin'. split.
      * intros [Hj Hji]. split; [by apply Hmem|by eapply member_not_none].
      * intros [Hj _]. destruct (decide (j = i)) as [->|Hji]; [|by split; [apply Hmem|] ].
        exfalso. apply Hdiff. by eapply member_fun.
Qed.

(** Changes the lists do not see. *)
Lemma lists_inv_ext s s' x :
  lists_inv s x →
  (∀ i, 0 ≤ i < KMEM_SLAB_MAX →
     ks_next (get_slab s' i) = ks_next (get_slab s i) ∧ ks_previous (get_slab s' i) = ks_previous (get_slab s i) ∧
     ks_state (get_slab s' i) = ks_state (get_slab s i) ∧ ks_used (get_slab s' i) = ks_used (get_slab s i) ∧
     ks_owner (get_slab s' i) = ks_owner (get_slab s i)) →
  (∀ c, kc_used (get_cache s' c) = kc_used (get_cache s c) ∧
     ∀ st, get_head (get_cache s' c) st = get_head (get_cache s c) st) →
  lists_inv s' x.
Proof.
  intros HL G C c st Hc Hu Hst. destruct (C c) as [Eu Eh]. rewrite Eu in Hu. rewrite Eh.
  destruct (HL c st Hc Hu Hst) as (l & Hd & Hn & Hin). exists l.
  assert (∀ i, member s' c st i ↔ member s c st i) as Hm.
  { intros i. unfold member. split; intros (Hi & Hrest); destruct (G i Hi) as (_ & _ & E1 & E2 & E3);
      rewrite E1, E2, E3 in *; done. }
  split; [|split; [done|intros i; by rewrite Hm] ]. eapply dll_ext; [|exact Hd].
  intros i [[Hi _] _]%Hin. destruct (G i Hi) as (-> & -> & _). done.
Qed.

Lemma list_step_refl s i : list_step s s i (ks_state (get_slab s i)).
Proof. split; try done. intros j. by destruct (decide (i = j)) as [->|]. Qed.

(** A slab record that comes into use is in no list yet. *)
Lemma lists_inv_fresh s s' i :
  lists_inv s NONE → ks_used (get_slab s i) = false →
  (∀ j, j ≠ i → get_slab s' j = get_slab s j) → (∀ c, get_cache s' c = get_cache s c) →
  lists_inv s' i.
Proof.
  intros HL Hu G C c st Hc Huc Hst. rewrite C in *. destruct (HL c st Hc Huc Hst) as (l & Hd & Hn & Hin).
  assert (i ∉ l) as Hil by (intros [(_ & ? & _) _]%Hin; congruence).
  exists l. split; [|split; [done|] ].
  - eapply dll_ext; [|exact Hd]. intros y Hy. rewrite G by congruence. done.
  - intros j. rewrite Hin. split.
    + intros [Hj Hj0]. assert (j ≠ i) by (intros ->; destruct Hj as (_ & ? & _); congruence).
      split; [|done]. unfold member in *. by rewrite G.
    + intros [Hj Hji]. unfold member in *. rewrite G in Hj by done. split; [done|].
      unfold NONE. lia.
Qed.

(** A detached slab record goes out of use. *)
Lemma lists_inv_drop s s' i :
  lists_inv s i → ks_used (get_slab s' i) = false →
  (∀ j, j ≠ i → get_slab s' j = get_slab s j) → (∀ c, get_cache s' c = get_cache s c) →
  lists_inv s' NONE.
Proof.
  intros HL Hu G C c st Hc Huc Hst. rewrite C in *. destruct (HL c st Hc Huc Hst) as (l & Hd & Hn & Hin).
  assert (i ∉ l) as Hil by (by intros [_ ?]%Hin).
  exists l. split; [|split; [done|] ].
  - eapply dll_ext; [|exact Hd]. intros y Hy. rewrite G by congruence. done.
  - intros j. rewrite Hin. split.
    + intros [Hj Hji]. split; [unfold member in *; by rewrite G|by eapply member_not_none].
    + intros [Hj _]. assert (j ≠ i) by (intros ->; destruct Hj as (_ & ? & _); congruence).
      split; [unfold member in *; by rewrite G in Hj|done].
Qed.

(** A new cache has empty lists. *)
Lemma lists_inv_create s s' c kc :
  lists_inv s NONE → (∀ i, get_slab s' i = get_slab s i) →
  (∀ d, get_cache s' d = if decide (c = d) then kc else get_cache s d) →
  (∀ st, get_head kc st = NONE) → (∀ st i, ¬ member s c st i) →
  lists_inv s' NONE.
Proof.
  intros HL G C Hh Hm d st Hd Hu Hst. rewrite C in *. destruct (decide (c = d)) as [<-|Hcd].
  - exists []. rewrite Hh. split; [by exists NONE|]. split; [constructor|].
    intros i. unfold member in *. rewrite G. split; [by intros ?%elem_of_nil|]. intros [Hi _]. by destruct (Hm st i).
  - destruct (HL d st Hd Hu Hst) as (l & Hdl & Hn & Hin). exists l.
    split; [eapply dll_ext; [|exact Hdl]; intros; by rewrite G|]. split; [done|].
    intros i. unfold member in *. rewrite G. apply Hin.
Qed.

(** Moving a slab to the list of another state. *)
Lemma move_lists s c st i st' :
  lists_inv s NONE → 0 ≤ c < KMEM_CACHE_MAX → kc_used (get_cache s c) = true →
  member s c st i → 0 ≤ st ≤ 2 → 0 ≤ st' ≤ 2 →
  let s' := slab_list_add (slab_list_remove s c i) c i st' in
  lists_inv s' NONE ∧ list_step s s' i st'.
Proof.
  intros HL Hc Hu Hm Hst Hst'. destruct (remove_lists s c st i) as [HL1 S1]; try done.
  destruct Hm as (Hi & Hui & Ho & _).
  destruct (body_fields _ _ (ls_body _ _ _ _ S1 i)) as (E1 & _ & _ & _ & _ & _ & E2 & _).
  pose proof (used_cbody _ _ (ls_cache _ _ _ _ S1 c)) as Hu1.
  destruct (add_lists (slab_list_remove s c i) c st' i) as [HL2 S2]; try (done || congruence).
  split; [done|]. by eapply list_step_trans.
Qed.
End lists.

(** ** Bits and free lists *)

Lemma word_bit_testbit w i : 0 ≤ i → word_bit w i = Z.testbit (aget w (i / 32)) (i mod 32).
Proof.
  intros Hi. unfold word_bit. rewrite one_shl by (apply Z.mod_pos_bound; lia).
  apply land_pow2_test. divlia.
Qed.

Lemma word_split i j : i = j ↔ i / 32 = j / 32 ∧ i mod 32 = j mod 32.
Proof. split; [by intros ->|]. intros []. rewrite (Z.div_mod i 32), (Z.div_mod j 32) by lia. congruence. Qed.

Lemma word_bit_set w i j :
  0 ≤ i → 0 ≤ j → word_bit (set_word_bit w i) j = (i =? j) || word_bit w j.
Proof.
  intros Hi Hj. rewrite !word_bit_testbit by done. unfold set_word_bit.
  pose proof (word_split i j). pose proof (Z.mod_pos_bound i 32 ltac:(lia)).
  pose proof (Z.mod_pos_bound j 32 ltac:(lia)).
  rewrite aget_aset. destruct (decide (i / 32 = j / 32)) as [E|].
  - rewrite Z.lor_spec, one_shl, E, Z.pow2_bits_eqb by lia.
    rewrite orb_comm. f_equal. lia.
  - replace (i =? j) with false by lia. done.
Qed.

Lemma word_bit_clear w i j :
  0 ≤ i → 0 ≤ j → word_bit (clear_word_bit w i) j = negb (i =? j) && word_bit w j.
Proof.
  intros Hi Hj. rewrite !word_bit_testbit by done. unfold clear_word_bit.
  pose proof (word_split i j). pose proof (Z.mod_pos_bound i 32 ltac:(lia)).
  pose proof (Z.mod_pos_bound j 32 ltac:(lia)).
  rewrite aget_aset. destruct (decide (i / 32 = j / 32)) as [E|].
  - rewrite Z.land_spec, u32_testbit, Z.lnot_spec, one_shl, E, Z.pow2_bits_eqb by lia.
    replace (j mod 32 <? 32) with true by lia. rewrite andb_comm. f_equal. cbn. f_equal. lia.
  - replace (i =? j) with false by lia. done.
Qed.

Lemma word_bit_empty i : 0 ≤ i → word_bit ∅ i = false.
Proof. intros. rewrite word_bit_testbit by done. apply Z.testbit_0_l. Qed.

(** The free list from [h]. *)
Fixpoint chain (next : array Z) (h : Z) (l : list Z) : Prop :=
  match l with
  | [] => h = KMEM_SLAB_MAX_OBJECTS
  | x :: l => h = x ∧ chain next (aget next x) l
  end.

Lemma chain_ext next next' h l :
  (∀ x, x ∈ l → aget next' x = aget next x) → chain next h l → chain next' h l.
Proof.
  revert h. induction l as [|x l IH]; intros h E; cbn; [done|]. intros [-> Hc].
  split; [done|]. rewrite E by constructor. apply IH; [|done]. intros y Hy. apply E. by constructor.
Qed.

(** The free list enumerates the clear bits. *)
Record free_rep (sl : kmem_slab_t) (fl : list Z) : Prop := {
  fr_nodup : NoDup fl;
  fr_chain : chain (ks_free_next sl) (ks_free_head sl) fl;
  fr_free i : i ∈ fl ↔ 0 ≤ i < ks_object_count sl ∧ slab_bit_is_set sl i = false;
  fr_active : ks_active_objects sl = ks_object_count sl - len fl;
  fr_count : KMEM_SLAB_MIN_OBJECTS ≤ ks_object_count sl ≤ KMEM_SLAB_MAX_OBJECTS
}.

(** Only the fields of the free list matter. *)
Lemma free_rep_body a b fl : body a = body b → free_rep b fl → free_rep a fl.
Proof.
  intros (E1 & E2 & E3 & E4 & E5 & E6 & E7 & E8 & E9)%body_fields [H1 H2 H3 H4 H5].
  split; unfold slab_bit_is_set in *; rewrite ?E4, ?E5, ?E6, ?E8, ?E9; done.
Qed.

Lemma free_rep_perm sl fl :
  free_rep sl fl →
  fl ≡ₚ List.filter (λ i, negb (slab_bit_is_set sl i)) (range 0 (ks_object_count sl)).
Proof.
  intros [H1 _ H3 _ _]. apply NoDup_Permutation; [done|apply NoDup_ListNoDup, List.NoDup_filter, NoDup_ListNoDup, range_NoDup|].
  intros i. rewrite H3, list_elem_of_In, filter_In, <-list_elem_of_In, elem_of_range, negb_true_iff. done.
Qed.

Lemma free_rep_active sl fl :
  free_rep sl fl →
  0 ≤ ks_active_objects sl ≤ ks_object_count sl ∧
  ks_active_objects sl = count_range 0 (ks_object_count sl) (slab_bit_is_set sl).
Proof.
  intros R. pose proof (free_rep_perm sl fl R) as P%Permutation_length.
  destruct R as [_ _ _ H4 H5]. unfold KMEM_SLAB_MIN_OBJECTS in H5.
  assert (ks_active_objects sl = count_range 0 (ks_object_count sl) (slab_bit_is_set sl)) as E.
  { rewrite H4. unfold len, count_range. rewrite P.
    pose proof (List.filter_length (slab_bit_is_set sl) (range 0 (ks_object_count sl))) as F.
    rewrite length_range in F. lia. }
  split; [|done]. rewrite E. pose proof (count_range_bounds 0 (ks_object_count sl) (slab_bit_is_set sl)). lia.
Qed.

Definition taken (sl : kmem_slab_t) : kmem_slab_t :=
  (slab_set_bit (sl <| ks_free_head := aget (ks_free_next sl) (ks_free_head sl) |>) (ks_free_head sl) true)
    <| ks_active_objects ::= λ n, n +w 1 |>.

Lemma free_rep_take sl x fl :
  free_rep sl (x :: fl) →
  ks_free_head sl = x ∧ 0 ≤ x < ks_object_count sl ∧ slab_bit_is_set sl x = false ∧
  ks_active_objects (taken sl) = ks_active_objects sl + 1 ∧ free_rep (taken sl) fl.
Proof.
  intros R. pose proof (free_rep_active _ _ R) as [Ha _]. destruct R as [H1 H2 H3 H4 H5].
  destruct H2 as [Hh Hc]. apply NoDup_cons in H1 as [Hx H1].
  assert (0 ≤ x < ks_object_count sl ∧ slab_bit_is_set sl x = false) as [Hr Hb] by (apply H3; constructor).
  rewrite len_cons in H4. pose proof (len_nonneg fl). unfold KMEM_SLAB_MAX_OBJECTS in *.
  assert (ks_active_objects (taken sl) = ks_active_objects sl + 1) as Ea
    by (change (u32 (ks_active_objects sl + 1) = ks_active_objects sl + 1); apply u32_small; lia).
  split; [done|]. split; [done|]. split; [done|]. split; [done|]. split.
  - done.
  - change (chain (ks_free_next sl) (aget (ks_free_next sl) (ks_free_head sl)) fl). by rewrite Hh.
  - intros i. change (ks_object_count (taken sl)) with (ks_object_count sl).
    change (slab_bit_is_set (taken sl) i) with
      (word_bit (set_word_bit (ks_allocation_bitmap sl) (ks_free_head sl)) i). rewrite Hh.
    specialize (H3 i). rewrite elem_of_cons in H3. split.
    + intros Hi. destruct H3 as [H3 _]. destruct H3 as [Hi1 Hi2]; [by right|]. split; [done|].
      rewrite word_bit_set by lia. change (word_bit _ i) with (slab_bit_is_set sl i). rewrite Hi2.
      destruct (Z.eqb_spec x i); [congruence|done].
    + intros [Hi1 Hi2]. rewrite word_bit_set in Hi2 by lia. apply orb_false_iff in Hi2 as [Hi2 Hi3].
      destruct H3 as [_ [-> |?] ]; [done|lia|done].
  - rewrite Ea. change (ks_object_count (taken sl)) with (ks_object_count sl). lia.
  - done.
Qed.

Definition given (sl : kmem_slab_t) (o : Z) : kmem_slab_t :=
  (((slab_set_bit sl o false) <| ks_free_next ::= λ f, aset f o (ks_free_head sl) |>)
    <| ks_free_head := u16 o |>) <| ks_active_objects ::= λ n, n -w 1 |>.

Lemma free_rep_give sl fl o :
  free_rep sl fl → 0 ≤ o < ks_object_count sl → slab_bit_is_set sl o = true →
  ks_active_objects (given sl o) = ks_active_objects sl - 1 ∧ free_rep (given sl o) (o :: fl).
Proof.
  intros R Ho Hb. pose proof (free_rep_active _ _ R) as [Ha Ec]. destruct R as [H1 H2 H3 H4 H5].
  assert (o ∉ fl) as Hof by (intros [_ ?]%H3; congruence). unfold KMEM_SLAB_MAX_OBJECTS in *.
  assert (0 < ks_active_objects sl) as Hpos.
  { rewrite Ec. pose proof (count_range_run 0 o (o + 1) (ks_object_count sl) (slab_bit_is_set sl) true).
    cbn in *. assert (∀ i, o ≤ i < o + 1 → slab_bit_is_set sl i = true).
    { intros i Hi. by replace i with o by lia. } specialize (H ltac:(lia) ltac:(lia) ltac:(done)). lia. }
  assert (ks_active_objects (given sl o) = ks_active_objects sl - 1) as Ea
    by (change (u32 (ks_active_objects sl - 1) = ks_active_objects sl - 1); apply u32_small; lia).
  split; [done|]. split.
  - by constructor.
  - change (u16 o = o ∧ chain (aset (ks_free_next sl) o (ks_free_head sl))
      (aget (aset (ks_free_next sl) o (ks_free_head sl)) o) fl).
    rewrite aget_aset_eq. split; [apply u16_small; lia|]. eapply chain_ext; [|done].
    intros x Hx. apply aget_aset_ne. congruence.
  - intros i. change (ks_object_count (given sl o)) with (ks_object_count sl).
    change (slab_bit_is_set (given sl o) i) with
      (word_bit (clear_word_bit (ks_allocation_bitmap sl) o) i).
    rewrite elem_of_cons. specialize (H3 i). split.
    + intros [->|Hi]; [split; [done|]; rewrite word_bit_clear by lia; by rewrite Z.eqb_refl|].
      apply H3 in Hi as [Hi1 Hi2]. split; [done|]. rewrite word_bit_clear by lia.
      change (word_bit _ i) with (slab_bit_is_set sl i). rewrite Hi2. apply andb_false_r.
    + intros [Hi1 Hi2]. rewrite word_bit_clear in Hi2 by lia.
      destruct (Z.eqb_spec o i); [by left|]. right. apply H3. by split.
  - rewrite Ea. change (ks_object_count (given sl o)) with (ks_object_count sl). rewrite len_cons. lia.
  - done.
Qed.

(** The free list of a new slab. *)
Definition initial_next (count : Z) : array Z := foldl (link_free count) ∅ (range 0 count).

Lemma initial_next_get count i :
  0 ≤ i < count → count ≤ 128 →
  aget (initial_next count) i = if i + 1 <? count then i + 1 else KMEM_SLAB_MAX_OBJECTS.
Proof.
  intros Hi Hc. unfold initial_next.
  apply (foldl_range_ind (λ k m, ∀ i, 0 ≤ i < k →
    aget m i = if i + 1 <? count then i + 1 else KMEM_SLAB_MAX_OBJECTS)); [lia|lia| |done].
  intros k m Hk IH j Hj. unfold link_free. rewrite aget_aset. destruct (decide (k = j)) as [->|].
  - rewrite (u32_small (j + 1)) by lia. unfold KMEM_SLAB_MAX_OBJECTS.
    destruct (Z.ltb_spec (j + 1) count); apply u16_small; lia.
  - apply IH. lia.
Qed.

Lemma initial_chain count n k :
  0 ≤ k → count ≤ 128 → Z.to_nat (count - k) = n →
  chain (initial_next count) (if k <? count then k else KMEM_SLAB_MAX_OBJECTS) (range k count).
Proof.
  revert k. induction n as [|n IH]; intros k Hk Hc Hn.
  - rewrite range_nil by lia. cbn. by replace (k <? count) with false by lia.
  - rewrite range_cons by lia. cbn. replace (k <? count) with true by lia. split; [done|].
    rewrite initial_next_get by lia. apply IH; lia.
Qed.

Lemma free_rep_new c m p count :
  KMEM_SLAB_MIN_OBJECTS ≤ count ≤ KMEM_SLAB_MAX_OBJECTS →
  free_rep (KmemSlab c m p count 0 0 NONE NONE 0 true ∅ (initial_next count)) (range 0 count).
Proof.
  unfold KMEM_SLAB_MIN_OBJECTS, KMEM_SLAB_MAX_OBJECTS. intros Hc. split.
  - apply range_NoDup.
  - cbn. pose proof (initial_chain count (Z.to_nat count) 0) as H.
    replace (0 <? count) with true in H by lia. apply H; lia.
  - intros i. cbn. rewrite elem_of_range. split; [|tauto]. intros Hi. split; [done|].
    apply word_bit_empty. lia.
  - cbn. unfold len. rewrite length_range. lia.
  - done.
Qed.
