(* ===== verification/SlabSystem.v ===== *)
(** * The slab allocator as a whole

    [slab_inv] is the invariant of slab.c; [slab_run] is every state reached
    by its calls, whatever the arguments, with the rest of the kernel using the
    page manager in between.  The theorems state what clients rely on:
    validation never fails, objects are disjoint, aligned and zeroed, and
    frees of anything but a live object change nothing but a counter. *)

From S2P Require Import Prelude Memory Slab SlabInv.

(** The state of a slab with [a] of [n] objects in use. *)
Definition state_of (a n : Z) : Z := if a =? 0 then EMPTY else if a =? n then FULL else PARTIAL.

Lemma state_of_range a n : 0 ≤ state_of a n ≤ 2.
Proof. unfold state_of. by repeat destruct (_ =? _). Qed.

(** What [kmem_cache_create] guarantees of the numbers of a cache. *)
Record cache_geom (c : kmem_cache_t) : Prop := {
  cg_size : 0 < kc_object_size c ≤ kc_object_stride c;
  cg_align : ∃ k, 0 ≤ k ≤ 12 ∧ kc_alignment c = 2 ^ k ∧ kc_object_stride c mod 2 ^ k = 0;
  cg_objects : KMEM_SLAB_MIN_OBJECTS ≤ kc_objects_per_slab c ≤ KMEM_SLAB_MAX_OBJECTS;
  cg_fits : kc_objects_per_slab c * kc_object_stride c ≤ kc_slab_pages c * PAGE_SIZE;
  cg_pages : 0 < kc_slab_pages c < 2 ^ 20
}.

(** A cache without list heads and error counters. *)
Definition cfix (c : kmem_cache_t) : kmem_cache_t :=
  (((cbody c) <| kc_allocation_failures := 0 |>) <| kc_invalid_frees := 0 |>)
    <| kc_double_frees := 0 |>.

Lemma cfix_cbody a b : cbody a = cbody b → cfix a = cfix b.
Proof. unfold cfix. by intros ->. Qed.

Lemma cfix_fields a b :
  cfix a = cfix b →
  kc_object_size a = kc_object_size b ∧ kc_alignment a = kc_alignment b ∧
  kc_object_stride a = kc_object_stride b ∧ kc_objects_per_slab a = kc_objects_per_slab b ∧
  kc_slab_pages a = kc_slab_pages b ∧ kc_active_objects a = kc_active_objects b ∧
  kc_capacity a = kc_capacity b ∧ kc_slab_count a = kc_slab_count b ∧ kc_used a = kc_used b ∧
  kc_name a = kc_name b.
Proof. destruct a, b. intros [=]. cbn. auto 12. Qed.

Lemma cache_geom_ext a b :
  kc_object_size a = kc_object_size b → kc_alignment a = kc_alignment b →
  kc_object_stride a = kc_object_stride b → kc_objects_per_slab a = kc_objects_per_slab b →
  kc_slab_pages a = kc_slab_pages b → cache_geom b → cache_geom a.
Proof. intros E1 E2 E3 E4 E5 []. split; rewrite ?E1, ?E2, ?E3, ?E4, ?E5; done. Qed.

Section invariant.
Context {M : Type} `{PML : PageManagerLaws M}.
Implicit Types s : slab_t M.

(** The slabs of the cache [c], and a sum over them. *)
Definition belongs s (c i : Z) : bool :=
  ks_used (get_slab s i) && (ks_owner (get_slab s i) =? c).
Definition owned_sum s (c : Z) (f : kmem_slab_t → Z) : Z :=
  sum (λ i, if belongs s c i then f (get_slab s i) else 0) (range 0 KMEM_SLAB_MAX).

Definition slab_pages s (i p : Z) : bool := in_pages (ks_memory (get_slab s i)) (ks_pages (get_slab s i)) p.

Record slab_ok s (i : Z) : Prop := {
  so_owner : 0 ≤ ks_owner (get_slab s i) < KMEM_CACHE_MAX;
  so_used : kc_used (get_cache s (ks_owner (get_slab s i))) = true;
  so_count : ks_object_count (get_slab s i) = kc_objects_per_slab (get_cache s (ks_owner (get_slab s i)));
  so_pages : ks_pages (get_slab s i) = kc_slab_pages (get_cache s (ks_owner (get_slab s i)));
  so_run : page_run (ks_memory (get_slab s i)) (ks_pages (get_slab s i));
  so_owned p : slab_pages s i p = true → pm_owned (pages s) p = true;
  so_free : ∃ fl, free_rep (get_slab s i) fl;
  so_state : ks_state (get_slab s i) =
    state_of (ks_active_objects (get_slab s i)) (ks_object_count (get_slab s i))
}.

(** Everything, but for the counters of the cache [x]. *)
Record inv_but (x : Z) s : Prop := {
  si_init : slab_initialized s = true;
  si_lists : lists_inv s NONE;
  si_pm : pm_inv (pages s);
  si_cache c : 0 ≤ c < KMEM_CACHE_MAX → kc_used (get_cache s c) = true → cache_geom (get_cache s c);
  si_slab i : 0 ≤ i < KMEM_SLAB_MAX → ks_used (get_slab s i) = true → slab_ok s i;
  si_disjoint i j p : 0 ≤ i < KMEM_SLAB_MAX → 0 ≤ j < KMEM_SLAB_MAX → i ≠ j →
    ks_used (get_slab s i) = true → ks_used (get_slab s j) = true →
    slab_pages s i p = true → slab_pages s j p = false;
  si_counts c : 0 ≤ c < KMEM_CACHE_MAX → kc_used (get_cache s c) = true → c ≠ x →
    kc_active_objects (get_cache s c) = owned_sum s c ks_active_objects ∧
    kc_capacity (get_cache s c) = owned_sum s c ks_object_count ∧
    kc_slab_count (get_cache s c) = owned_sum s c (λ _, 1);
  si_cache_count : cache_count s = sum (λ c, Z.b2z (kc_used (get_cache s c))) (range 0 KMEM_CACHE_MAX);
  si_slab_count : slab_count s = sum (λ i, Z.b2z (ks_used (get_slab s i))) (range 0 KMEM_SLAB_MAX)
}.
Definition slab_inv s : Prop := inv_but NULL_CACHE s.

(** ** Registered caches *)

Lemma registered_spec s c :
  slab_cache_registered s c = true ↔ 0 ≤ c < KMEM_CACHE_MAX ∧ kc_used (get_cache s c) = true.
Proof.
  unfold slab_cache_registered. destruct (Z.eqb_spec c NULL_CACHE) as [->|Hc].
  { split; [done|]. unfold NULL_CACHE. lia. }
  rewrite existsb_exists. setoid_rewrite <-list_elem_of_In. setoid_rewrite elem_of_range. split.
  - intros (i & Hi & [->%Z.eqb_eq ?]%andb_true_iff). done.
  - intros [Hc' Hu]. exists c. by rewrite Z.eqb_refl, Hu.
Qed.

Lemma belongs_spec s c i :
  belongs s c i = true ↔ ks_used (get_slab s i) = true ∧ ks_owner (get_slab s i) = c.
Proof. unfold belongs. by rewrite andb_true_iff, Z.eqb_eq. Qed.

Lemma belongs_body s s' c i : body (get_slab s' i) = body (get_slab s i) → belongs s' c i = belongs s c i.
Proof.
  intros (E1 & _ & _ & _ & _ & _ & E2 & _)%body_fields. unfold belongs. by rewrite E1, E2.
Qed.

Lemma owned_sum_ext s s' c f :
  (∀ i, 0 ≤ i < KMEM_SLAB_MAX → belongs s' c i = belongs s c i ∧
     (belongs s c i = true → f (get_slab s' i) = f (get_slab s i))) →
  owned_sum s' c f = owned_sum s c f.
Proof.
  intros E. apply sum_ext. intros i Hi%elem_of_range. destruct (E i Hi) as [-> Ef].
  destruct (belongs s c i); [by apply Ef|done].
Qed.

(** One slab changes. *)
Definition share s (c : Z) (f : kmem_slab_t → Z) (i : Z) : Z := if belongs s c i then f (get_slab s i) else 0.

Lemma owned_sum_update s s' c f i :
  0 ≤ i < KMEM_SLAB_MAX →
  (∀ j, j ≠ i → belongs s' c j = belongs s c j ∧ (belongs s c j = true → f (get_slab s' j) = f (get_slab s j))) →
  owned_sum s' c f = owned_sum s c f - share s c f i + share s' c f i.
Proof.
  intros Hi E. apply (sum_update (share s c f)); [apply range_NoDup|by apply elem_of_range|].
  intros j Hj. unfold share. destruct (E j Hj) as [-> Ef]. destruct (belongs s c j); [by apply Ef|done].
Qed.

Lemma owned_sum_bound s c f b :
  (∀ i, 0 ≤ i < KMEM_SLAB_MAX → belongs s c i = true → 0 ≤ f (get_slab s i) ≤ b) → 0 ≤ b →
  0 ≤ owned_sum s c f ≤ b * 128.
Proof.
  intros Hf Hb. pose proof (sum_bound (λ i, if belongs s c i then f (get_slab s i) else 0)
    (range 0 KMEM_SLAB_MAX) b) as B. rewrite length_range in B. apply B.
  intros i Hi%elem_of_range. destruct (belongs s c i) eqn:E; [by apply Hf|lia].
Qed.

(** The bounds of the counters. *)
Lemma slab_bounds s i :
  slab_ok s i → 0 ≤ ks_active_objects (get_slab s i) ≤ ks_object_count (get_slab s i) ∧
  8 ≤ ks_object_count (get_slab s i) ≤ 128.
Proof. intros [_ _ _ _ _ _ [fl R] _]. split; [by eapply free_rep_active|apply (fr_count _ _ R)]. Qed.

Lemma count_bounds x s c :
  inv_but x s → 0 ≤ owned_sum s c ks_active_objects ≤ 16384 ∧
  0 ≤ owned_sum s c ks_object_count ≤ 16384 ∧ 0 ≤ owned_sum s c (λ _, 1) ≤ 128.
Proof.
  intros I. pose proof (owned_sum_bound s c ks_active_objects 128) as B1.
  pose proof (owned_sum_bound s c ks_object_count 128) as B2.
  pose proof (owned_sum_bound s c (λ _, 1) 1) as B3.
  assert (∀ i, 0 ≤ i < KMEM_SLAB_MAX → belongs s c i = true →
    0 ≤ ks_active_objects (get_slab s i) ≤ ks_object_count (get_slab s i) ∧
    8 ≤ ks_object_count (get_slab s i) ≤ 128) as Hb.
  { intros i Hi [Hu _]%belongs_spec. by apply slab_bounds, (si_slab _ _ I). }
  split; [apply B1; [|lia]|split; [apply B2; [|lia]|apply B3; [|lia] ] ].
  - intros i Hi Hbi. pose proof (Hb i Hi Hbi). lia.
  - intros i Hi Hbi. pose proof (Hb i Hi Hbi). lia.
  - lia.
Qed.

(** ** Error counters and other changes the invariant does not see *)

Lemma inv_ext x s s' :
  inv_but x s → slab_initialized s' = true → slab_table s' = slab_table s →
  cache_count s' = cache_count s → slab_count s' = slab_count s →
  (∀ c, cfix (get_cache s' c) = cfix (get_cache s c) ∧
        ∀ st, get_head (get_cache s' c) st = get_head (get_cache s c) st) →
  pm_inv (pages s') → (∀ p, pm_owned (pages s) p = true → pm_owned (pages s') p = true) →
  inv_but x s'.
Proof.
  intros I Hini Hs Hc1 Hc2 Hca Hpm Hown.
  assert (∀ i, get_slab s' i = get_slab s i) as G by (intros; unfold get_slab; by rewrite Hs).
  destruct I as [I1 I2 I3 I4 I5 I6 I7 I8 I9].
  assert (∀ c, kc_used (get_cache s' c) = kc_used (get_cache s c)) as Hu.
  { intros c. destruct (Hca c) as [(_&_&_&_&_&_&_&_&E&_)%cfix_fields _]. done. }
  split; [done|..].
  - intros c st Hc Huc Hst. rewrite Hu in Huc. destruct (I2 c st Hc Huc Hst) as (l & Hd & Hn & Hin).
    exists l. destruct (Hca c) as [_ ->]. split; [eapply dll_ext; [|exact Hd]; intros; by rewrite G|].
    split; [done|]. intros i. unfold member. rewrite G. apply Hin.
  - done.
  - intros c Hc Huc. rewrite Hu in Huc. destruct (Hca c) as [(?&?&?&?&?&_)%cfix_fields _].
    eapply cache_geom_ext; [..|by apply I4]; done.
  - intros i Hi Hui. rewrite G in Hui. destruct (I5 i Hi Hui) as [O1 O2 O3 O4 O5 O6 O7 O8].
    destruct (Hca (ks_owner (get_slab s i))) as [(_&_&_&E4&E5&_)%cfix_fields _].
    split; unfold slab_pages in *; rewrite ?G, ?Hu, ?E4, ?E5; try done. intros p Hp. by apply Hown, O6.
  - intros i j p. unfold slab_pages in *. rewrite !G. apply I6.
  - intros c Hc Huc Hx. rewrite Hu in Huc. destruct (Hca c) as [(_&_&_&_&_&E6&E7&E8&_)%cfix_fields _].
    assert (∀ f, owned_sum s' c f = owned_sum s c f) as Es
      by (intros f; apply owned_sum_ext; intros i _; unfold belongs; by rewrite G).
    rewrite E6, E7, E8, !Es. by apply I7.
  - rewrite Hc1, I8. apply sum_ext. intros c _. by rewrite Hu.
  - rewrite Hc2, I9. apply sum_ext. intros c _. by rewrite G.
Qed.

(** ** One slab takes or gives back an object *)

(** [s'] is [s] where the slab [i] of the cache [c] has the new contents
    [sl], the links being consistent again. *)
Record content_step s s' (c i : Z) (sl : kmem_slab_t) : Prop := {
  cs_body : body (get_slab s' i) = body sl;
  cs_other j : j ≠ i → body (get_slab s' j) = body (get_slab s j) ∧
    ks_state (get_slab s' j) = ks_state (get_slab s j);
  cs_cache d : d ≠ c → cfix (get_cache s' d) = cfix (get_cache s d);
  cs_active : cfix (get_cache s' c) = cfix ((get_cache s c) <| kc_active_objects :=
    kc_active_objects (get_cache s c) - ks_active_objects (get_slab s i) + ks_active_objects sl |>);
  cs_rest : rest s' = rest s
}.

Lemma rest_fields s s' :
  rest s' = rest s → pages s' = pages s ∧ cache_count s' = cache_count s ∧
  slab_count s' = slab_count s ∧ slab_initialized s' = slab_initialized s ∧
  paging_ready s' = paging_ready s.
Proof. destruct s, s'. intros [=]. cbn. auto. Qed.

Lemma cfix_active c v :
  let c' := c <| kc_active_objects := v |> in
  kc_object_size c' = kc_object_size c ∧ kc_alignment c' = kc_alignment c ∧
  kc_object_stride c' = kc_object_stride c ∧ kc_objects_per_slab c' = kc_objects_per_slab c ∧
  kc_slab_pages c' = kc_slab_pages c ∧ kc_active_objects c' = v ∧
  kc_capacity c' = kc_capacity c ∧ kc_slab_count c' = kc_slab_count c ∧ kc_used c' = kc_used c.
Proof. by destruct c. Qed.

Lemma content_step_inv s s' c i sl fl :
  slab_inv s → 0 ≤ i < KMEM_SLAB_MAX → ks_used (get_slab s i) = true → ks_owner (get_slab s i) = c →
  content_step s s' c i sl → lists_inv s' NONE →
  ks_used sl = true → ks_owner sl = c → ks_memory sl = ks_memory (get_slab s i) →
  ks_pages sl = ks_pages (get_slab s i) → ks_object_count sl = ks_object_count (get_slab s i) →
  free_rep sl fl → ks_state (get_slab s' i) = state_of (ks_active_objects sl) (ks_object_count sl) →
  slab_inv s'.
Proof.
  intros [I1 I2 I3 I4 I5 I6 I7 I8 I9] Hi Hu Ho [S1 S2 S3 S4 S5] HL Lu Lo Lm Lp Lc R Hst.
  destruct (rest_fields _ _ S5) as (R1 & R2 & R3 & R4 & _).
  pose proof (body_fields _ _ S1) as (B1 & B2 & B3 & B4 & B5 & _ & B7 & _ & _).
  assert (∀ j, ks_owner (get_slab s' j) = ks_owner (get_slab s j) ∧
    ks_used (get_slab s' j) = ks_used (get_slab s j) ∧ ks_memory (get_slab s' j) = ks_memory (get_slab s j) ∧
    ks_pages (get_slab s' j) = ks_pages (get_slab s j) ∧
    ks_object_count (get_slab s' j) = ks_object_count (get_slab s j)) as G.
  { intros j. destruct (decide (j = i)) as [->|Hj]; [split_and!; congruence|].
    destruct (S2 j Hj) as [(?&?&?&?&?&?&?&?&?)%body_fields _]. done. }
  assert (∀ d, kc_objects_per_slab (get_cache s' d) = kc_objects_per_slab (get_cache s d) ∧
    kc_slab_pages (get_cache s' d) = kc_slab_pages (get_cache s d) ∧
    kc_used (get_cache s' d) = kc_used (get_cache s d) ∧
    kc_capacity (get_cache s' d) = kc_capacity (get_cache s d) ∧
    kc_slab_count (get_cache s' d) = kc_slab_count (get_cache s d) ∧
    (cache_geom (get_cache s d) → cache_geom (get_cache s' d))) as C.
  { intros d. destruct (decide (d = c)) as [->|Hd].
    - destruct (cfix_fields _ _ S4) as (E1&E2&E3&E4&E5&_&E7&E8&E9&_).
      destruct (cfix_active (get_cache s c) (kc_active_objects (get_cache s c)
        - ks_active_objects (get_slab s i) + ks_active_objects sl)) as (F1&F2&F3&F4&F5&_&F7&F8&F9).
      split_and!; try congruence. apply cache_geom_ext; congruence.
    - destruct (cfix_fields _ _ (S3 d Hd)) as (E1&E2&E3&E4&E5&_&E7&E8&E9&_).
      split_and!; try done. apply cache_geom_ext; congruence. }
  assert (∀ d j, belongs s' d j = belongs s d j) as Hb.
  { intros d j. unfold belongs. by destruct (G j) as (-> & -> & _). }
  assert (∀ j p, slab_pages s' j p = slab_pages s j p) as Hp.
  { intros j p. unfold slab_pages. by destruct (G j) as (_ & _ & -> & -> & _). }
  split; [congruence|done|congruence|..].
  - intros d Hd Hud. destruct (C d) as (_ & _ & E & _ & _ & Hg). rewrite E in Hud. by apply Hg, I4.
  - intros j Hj Huj. destruct (G j) as (E1 & E2 & E3 & E4 & E5). rewrite E2 in Huj.
    destruct (I5 j Hj Huj) as [O1 O2 O3 O4 O5 O6 O7 O8].
    destruct (C (ks_owner (get_slab s j))) as (C1 & C2 & C3 & _).
    split; rewrite ?E1, ?E3, ?E4, ?E5, ?C1, ?C2, ?C3, ?R1; try done.
    + intros p. rewrite Hp. apply O6.
    + destruct (decide (j = i)) as [->|Hji]; [exists fl; by eapply free_rep_body|].
      destruct O7 as [fl' R']. exists fl'. eapply free_rep_body; [by apply S2|done].
    + destruct (decide (j = i)) as [->|Hji]; [congruence|].
      destruct (S2 j Hji) as [(_&_&_&_&E&_)%body_fields ->]. congruence.
  - intros j k p Hj Hk Hjk. rewrite !Hp. destruct (G j) as (_ & -> & _), (G k) as (_ & -> & _). by apply I6.
  - intros d Hd Hud Hx. destruct (C d) as (_ & _ & E & E2 & E3 & _). rewrite E in Hud.
    destruct (I7 d Hd Hud Hx) as (A1 & A2 & A3). rewrite E2, E3. split_and!.
    + destruct (decide (d = c)) as [->|Hdc].
      * destruct (cfix_fields _ _ S4) as (_&_&_&_&_&->&_). destruct (cfix_active (get_cache s c)
          (kc_active_objects (get_cache s c) - ks_active_objects (get_slab s i) + ks_active_objects sl))
          as (_&_&_&_&_&->&_).
        rewrite (owned_sum_update s s' c _ i Hi), A1.
        { unfold share. rewrite Hb, (proj2 (belongs_spec s c i)) by done. by rewrite B5. }
        intros j Hj. split; [done|]. intros _. by destruct (S2 j Hj) as [(_&_&_&_&E'&_)%body_fields _].
      * destruct (cfix_fields _ _ (S3 d Hdc)) as (_&_&_&_&_&->&_). rewrite A1. symmetry.
        apply owned_sum_ext. intros j _. split; [done|]. intros Hbj.
        assert (j ≠ i) as Hj by (intros ->; apply belongs_spec in Hbj as [_ ?]; congruence).
        by destruct (S2 j Hj) as [(_&_&_&_&E'&_)%body_fields _].
    + rewrite A2. symmetry. apply owned_sum_ext. intros j _. split; [done|]. intros _. by destruct (G j) as (_&_&_&_&->).
    + rewrite A3. symmetry. by apply owned_sum_ext.
  - rewrite R2, I8. apply sum_ext. intros d _. by destruct (C d) as (_ & _ & -> & _).
  - rewrite R3, I9. apply sum_ext. intros j _. by destruct (G j) as (_ & -> & _).
Qed.

Lemma cbody_active c v : cbody (c <| kc_active_objects := v |>) = (cbody c) <| kc_active_objects := v |>.
Proof. by destruct c. Qed.

(** A slab update between list moves. *)
Lemma list_step_content s s0 s1 s2 c i sl st0 st v :
  list_step s s0 i st0 →
  body (get_slab s1 i) = body sl → (∀ j, j ≠ i → get_slab s1 j = get_slab s0 j) →
  (∀ d, get_cache s1 d = if decide (c = d) then (get_cache s0 c) <| kc_active_objects := v |> else get_cache s0 d) →
  v = kc_active_objects (get_cache s c) - ks_active_objects (get_slab s i) + ks_active_objects sl →
  rest s1 = rest s0 → list_step s1 s2 i st → content_step s s2 c i sl.
Proof.
  intros [K1 K2 K3 K4] E1 E2 E3 Ev Er [L1 L2 L3 L4]. split.
  - by rewrite L1, E1.
  - intros j Hj. by rewrite L1, L2, decide_False, E2, K1, K2, decide_False.
  - intros d Hd. apply cfix_cbody. by rewrite L3, E3, decide_False, K3.
  - rewrite <-Ev. apply cfix_cbody. by rewrite L3, E3, decide_True, !cbody_active, K3.
  - congruence.
Qed.

(** The part of [kmem_cache_alloc] before the object is zeroed. *)
Definition settle s (c i : Z) : slab_t M :=
  let s := if ks_active_objects (get_slab s i) =? 1
    then slab_list_add (slab_list_remove s c i) c i PARTIAL else s in
  if ks_active_objects (get_slab s i) =? ks_object_count (get_slab s i)
  then slab_list_add (slab_list_remove s c i) c i FULL else s.
Definition take_links s (c i : Z) : slab_t M :=
  settle (upd_cache (upd_slab s i taken) c (λ kc, kc <| kc_active_objects ::= λ n, n +w 1 |>)) c i.

Lemma settle_spec s c i a n :
  lists_inv s NONE → 0 ≤ c < KMEM_CACHE_MAX → kc_used (get_cache s c) = true →
  member s c (state_of a n) i → ks_active_objects (get_slab s i) = a + 1 →
  ks_object_count (get_slab s i) = n → 0 ≤ a < n → 1 < n →
  lists_inv (settle s c i) NONE ∧ list_step s (settle s c i) i (state_of (a + 1) n).
Proof.
  intros HL Hc Hu Hm Ea En Ha Hn. unfold settle. rewrite Ea.
  destruct (Z.eqb_spec (a + 1) 1) as [E1|E1].
  - destruct (move_lists s c _ i PARTIAL HL Hc Hu Hm (state_of_range a n)) as [HL2 S2]; [done|].
    destruct (body_fields _ _ (ls_body _ _ _ _ S2 i)) as (_ & _ & _ & -> & -> & _).
    rewrite Ea, En. unfold state_of. replace (a + 1 =? n) with false by lia.
    by replace (a + 1 =? 0) with false by lia.
  - rewrite Ea, En. unfold state_of at 1. replace (a + 1 =? 0) with false by lia.
    destruct (Z.eqb_spec (a + 1) n) as [E2|E2].
    + by destruct (move_lists s c _ i FULL HL Hc Hu Hm (state_of_range a n)).
    + split; [done|]. replace PARTIAL with (ks_state (get_slab s i)); [apply list_step_refl|].
      destruct Hm as (_ & _ & _ & ->). unfold state_of. replace (a =? 0) with false by lia.
      by replace (a =? n) with false by lia.
Qed.

Lemma upd_slab_twice s i f g : upd_slab (upd_slab s i f) i g = upd_slab s i (λ x, g (f x)).
Proof.
  unfold upd_slab, set. cbn. rewrite aget_aset_eq. f_equal. apply aset_aset.
Qed.

Lemma take_object_steps s c i :
  take_object s c i =
  let s' := take_links s c i in
  let kc := get_cache s' c in
  let object := ks_memory (get_slab s' i) +w (ks_free_head (get_slab s i) *w kc_object_stride kc) in
  (s' <| pages ::= λ m, pm_memset m object 0 (kc_object_size kc) |>, object).
Proof.
  unfold take_object, take_links, settle. rewrite !upd_slab_twice.
  assert (upd_slab s i taken = upd_slab s i (λ x, (slab_set_bit
    (x <| ks_free_head := aget (ks_free_next x) (ks_free_head (get_slab s i)) |>)
    (ks_free_head (get_slab s i)) true) <| ks_active_objects ::= λ n, n +w 1 |>)) as <-; [|done].
  unfold upd_slab, set. cbn. done.
Qed.

Lemma taken_links sl :
  ks_owner (taken sl) = ks_owner sl ∧ ks_memory (taken sl) = ks_memory sl ∧
  ks_pages (taken sl) = ks_pages sl ∧ ks_object_count (taken sl) = ks_object_count sl ∧
  ks_used (taken sl) = ks_used sl ∧ ks_next (taken sl) = ks_next sl ∧
  ks_previous (taken sl) = ks_previous sl ∧ ks_state (taken sl) = ks_state sl.
Proof. by destruct sl. Qed.

(** The head of the free list of a slab that is not full. *)
Lemma slab_has_free s i :
  slab_ok s i → ks_active_objects (get_slab s i) ≠ ks_object_count (get_slab s i) →
  ∃ x fl, free_rep (get_slab s i) (x :: fl).
Proof.
  intros [_ _ _ _ _ _ [fl R] _] Hne. destruct fl as [|x fl]; [|by exists x, fl].
  pose proof (fr_active _ _ R) as Ha. change (len []) with 0 in Ha. lia.
Qed.

Lemma take_links_inv s c i :
  slab_inv s → 0 ≤ i < KMEM_SLAB_MAX → ks_used (get_slab s i) = true → ks_owner (get_slab s i) = c →
  ks_active_objects (get_slab s i) ≠ ks_object_count (get_slab s i) →
  slab_inv (take_links s c i) ∧ content_step s (take_links s c i) c i (taken (get_slab s i)).
Proof.
  intros I Hi Hu Ho Hne. pose proof (si_slab _ _ I i Hi Hu) as SO.
  destruct (slab_has_free s i SO Hne) as (x & fl & R).
  destruct (free_rep_take _ _ _ R) as (_ & _ & _ & Ea & R').
  pose proof (slab_bounds s i SO) as [Ba Bc].
  assert (0 ≤ c < KMEM_CACHE_MAX) as Hc by (rewrite <-Ho; apply SO).
  assert (kc_used (get_cache s c) = true) as Huc by (rewrite <-Ho; apply SO).
  assert (kc_active_objects (get_cache s c) +w 1 = kc_active_objects (get_cache s c) + 1) as Eu.
  { destruct (si_counts _ _ I c Hc Huc) as [-> _]; [unfold NULL_CACHE; lia|].
    pose proof (count_bounds _ s c I). apply u32_small. lia. }
  destruct (taken_links (get_slab s i)) as (T1 & T2 & T3 & T4 & T5 & T6 & T7 & T8).
  unfold take_links.
  set (s1 := upd_cache (upd_slab s i taken) c _).
  assert (get_slab s1 i = taken (get_slab s i)) as G1.
  { unfold s1. rewrite get_slab_upd_cache, get_slab_upd, decide_True by done. done. }
  assert (∀ j, j ≠ i → get_slab s1 j = get_slab s j) as G2.
  { intros j Hj. unfold s1. rewrite get_slab_upd_cache, get_slab_upd, decide_False by congruence. done. }
  assert (∀ d, get_cache s1 d = if decide (c = d) then (get_cache s c)
    <| kc_active_objects := kc_active_objects (get_cache s c) + 1 |> else get_cache s d) as G3.
  { intros d. unfold s1. rewrite get_cache_upd, !get_cache_upd_slab. rewrite <-Eu. by destruct (decide (c = d)) as [->|]. }
  assert (rest s1 = rest s) as G4 by done.
  assert (lists_inv s1 NONE) as HL1.
  { eapply lists_inv_ext; [apply I|..].
    - intros j _. destruct (decide (j = i)) as [->|Hj]; [by rewrite G1|by rewrite G2].
    - intros d. rewrite G3. by destruct (decide (c = d)) as [->|]. }
  assert (kc_used (get_cache s1 c) = true) as Huc1 by (rewrite G3; by rewrite decide_True).
  clearbody s1. set (a := ks_active_objects (get_slab s i)) in *. set (n := ks_object_count (get_slab s i)) in *.
  destruct (settle_spec s1 c i a n HL1 Hc Huc1) as [HL2 S2]; [|congruence|congruence|lia|lia|].
  { unfold member. rewrite G1, T1, T5, T8. repeat (split; [done|]). apply SO. }
  assert (content_step s (settle s1 c i) c i (taken (get_slab s i))) as CS.
  { eapply list_step_content; [apply list_step_refl|by rewrite G1|exact G2|exact G3| |exact G4|exact S2]. fold a. lia. }
  split; [|done]. eapply (content_step_inv s _ c i _ _ I Hi Hu Ho CS HL2); [by rewrite T5|by rewrite T1|done..|].
  rewrite (ls_state _ _ _ _ S2), decide_True, Ea, T4 by done. done.
Qed.

Lemma given_links sl o :
  ks_owner (given sl o) = ks_owner sl ∧ ks_memory (given sl o) = ks_memory sl ∧
  ks_pages (given sl o) = ks_pages sl ∧ ks_object_count (given sl o) = ks_object_count sl ∧
  ks_used (given sl o) = ks_used sl ∧ ks_next (given sl o) = ks_next sl ∧
  ks_previous (given sl o) = ks_previous sl ∧ ks_state (given sl o) = ks_state sl.
Proof. by destruct sl. Qed.

Lemma given_body a b o : body a = body b → body (given a o) = body (given b o).
Proof. destruct a, b. by intros [= -> -> -> -> -> -> -> -> ->]. Qed.

Lemma upd_slab_ext s i f g : f (get_slab s i) = g (get_slab s i) → upd_slab s i f = upd_slab s i g.
Proof. intros E. unfold upd_slab, set. cbn. unfold get_slab in E. by rewrite E. Qed.

(** [put_object] with its updates of the slab taken together. *)
Definition unlink s (c i : Z) : slab_t M :=
  if (ks_state (get_slab s i) =? FULL)
     || ((ks_state (get_slab s i) =? PARTIAL) && (ks_active_objects (get_slab s i) =? 1))
  then slab_list_remove s c i else s.
Definition relink s (c i previous_state : Z) : slab_t M :=
  if ks_active_objects (get_slab s i) =? 0 then slab_list_add s c i EMPTY
  else if previous_state =? FULL then slab_list_add s c i PARTIAL else s.

Lemma put_object_steps s c i o :
  put_object s c i o =
  relink (upd_cache (upd_slab (unlink s c i) i (λ sl, given sl o)) c
    (λ kc, kc <| kc_active_objects ::= λ n, n -w 1 |>)) c i (ks_state (get_slab s i)).
Proof.
  unfold put_object, relink, unlink. rewrite !upd_slab_twice.
  set (s0 := if _ || _ then _ else s).
  erewrite (upd_slab_ext s0 i (λ sl, given sl o)); [done|]. by destruct (get_slab s0 i).
Qed.

Lemma relink_spec s c i a n st x :
  lists_inv s x → 0 ≤ c < KMEM_CACHE_MAX → kc_used (get_cache s c) = true →
  member s c st i → st = state_of a n →
  x = (if (st =? FULL) || ((st =? PARTIAL) && (a =? 1)) then i else NONE) →
  ks_active_objects (get_slab s i) = a - 1 → 0 < a ≤ n → 1 < n →
  lists_inv (relink s c i st) NONE ∧ list_step s (relink s c i st) i (state_of (a - 1) n).
Proof.
  intros HL Hc Hu (Hi & Hui & Ho & Hs) -> -> Ea Ha Hn. unfold relink. rewrite Ea.
  unfold state_of in *. replace (a =? 0) with false in * by lia.
  destruct (Z.eqb_spec a n) as [->|Hne].
  - replace (n - 1 =? 0) with false by lia. replace (n - 1 =? n) with false by lia.
    apply add_lists; done.
  - destruct (Z.eqb_spec a 1) as [->|Ha1].
    + apply add_lists; done.
    + replace (a - 1 =? 0) with false by lia. replace (a - 1 =? n) with false by lia.
      split; [done|]. change (list_step s s i PARTIAL). rewrite <-Hs. apply list_step_refl.
Qed.

Lemma put_object_inv s c i o :
  slab_inv s → 0 ≤ i < KMEM_SLAB_MAX → ks_used (get_slab s i) = true → ks_owner (get_slab s i) = c →
  0 ≤ o < ks_object_count (get_slab s i) → slab_bit_is_set (get_slab s i) o = true →
  slab_inv (put_object s c i o) ∧ content_step s (put_object s c i o) c i (given (get_slab s i) o).
Proof.
  intros I Hi Hu Ho Hob Hbit. pose proof (si_slab _ _ I i Hi Hu) as SO.
  destruct (so_free _ _ SO) as [fl R].
  destruct (free_rep_give _ _ _ R Hob Hbit) as (Ea & R').
  pose proof (slab_bounds s i SO) as [Ba Bc].
  pose proof (free_rep_active _ _ R') as [Ba' _].
  assert (0 ≤ c < KMEM_CACHE_MAX) as Hc by (rewrite <-Ho; apply SO).
  assert (kc_used (get_cache s c) = true) as Huc by (rewrite <-Ho; apply SO).
  destruct (given_links (get_slab s i) o) as (T1 & T2 & T3 & T4 & T5 & T6 & T7 & T8).
  assert (1 ≤ kc_active_objects (get_cache s c) < 2 ^ 32) as Eu.
  { destruct (si_counts _ _ I c Hc Huc) as [-> _]; [unfold NULL_CACHE; lia|].
    pose proof (count_bounds _ s c I). split; [|lia]. unfold owned_sum.
    etransitivity; [|apply (sum_le_elem _ _ i); [|by apply elem_of_range] ].
    - cbn beta. rewrite (proj2 (belongs_spec s c i)) by done. lia.
    - intros j Hj%elem_of_range. destruct (belongs s c j) eqn:E; [|lia].
      apply belongs_spec in E as [E _]. apply slab_bounds, (si_slab _ _ I); done. }
  rewrite put_object_steps. set (a := ks_active_objects (get_slab s i)) in *.
  set (n := ks_object_count (get_slab s i)) in *.
  pose proof (so_state _ _ SO) as Est. fold a n in Est.
  set (x := if (ks_state (get_slab s i) =? FULL) || ((ks_state (get_slab s i) =? PARTIAL) && (a =? 1))
            then i else NONE).
  assert (lists_inv (unlink s c i) x ∧ list_step s (unlink s c i) i (ks_state (get_slab s i))) as [HL0 S0].
  { unfold unlink, x. fold a. destruct (_ || _); [|split; [apply I|apply list_step_refl] ].
    apply remove_lists; try done; [apply I|rewrite Est; apply state_of_range]. }
  set (s0 := unlink s c i) in *. clearbody s0.
  destruct (body_fields _ _ (ls_body _ _ _ _ S0 i)) as (B1 & _ & _ & B4 & B5 & _ & B7 & _ & _).
  destruct (given_links (get_slab s0 i) o) as (W1 & _ & _ & W4 & W5 & W6 & W7 & W8).
  pose proof (given_body _ _ o (ls_body _ _ _ _ S0 i)) as GB.
  destruct (body_fields _ _ GB) as (_ & _ & _ & _ & B5' & _).
  set (s1 := upd_cache (upd_slab s0 i _) c _).
  assert (get_slab s1 i = given (get_slab s0 i) o) as G1.
  { unfold s1. rewrite get_slab_upd_cache, get_slab_upd, decide_True by done. done. }
  assert (∀ j, j ≠ i → get_slab s1 j = get_slab s0 j) as G2.
  { intros j Hj. unfold s1. rewrite get_slab_upd_cache, get_slab_upd, decide_False by congruence. done. }
  assert (kc_active_objects (get_cache s0 c) = kc_active_objects (get_cache s c)) as Ec0
    by (by destruct (cfix_fields _ _ (cfix_cbody _ _ (ls_cache _ _ _ _ S0 c))) as (_&_&_&_&_&->&_)).
  assert (∀ d, get_cache s1 d = if decide (c = d) then (get_cache s0 c)
    <| kc_active_objects := kc_active_objects (get_cache s c) - 1 |> else get_cache s0 d) as G3.
  { intros d. unfold s1. rewrite get_cache_upd, !get_cache_upd_slab.
    rewrite <-(u32_small (kc_active_objects _ - 1)) by lia. rewrite <-Ec0. by destruct (decide (c = d)) as [->|]. }
  assert (rest s1 = rest s0) as G4 by done.
  assert (kc_used (get_cache s1 c) = true) as Huc1.
  { rewrite G3, decide_True by done. rewrite <-Huc. exact (used_cbody _ _ (ls_cache _ _ _ _ S0 c)). }
  assert (lists_inv s1 x) as HL1.
  { eapply lists_inv_ext; [exact HL0|..].
    - intros j _. destruct (decide (j = i)) as [->|Hj]; [by rewrite G1|by rewrite G2].
    - intros d. rewrite G3. by destruct (decide (c = d)) as [->|]. }
  clearbody s1.
  assert (0 < a ≤ n) as Han by (rewrite Ea in Ba'; clear -Ba Ba'; lia).
  assert (1 < n) as Hn1 by (clear -Bc; lia).
  destruct (relink_spec s1 c i a n (ks_state (get_slab s i)) x HL1 Hc Huc1) as [HL2 S2];
    [|exact Est|done| |exact Han|exact Hn1|].
  { unfold member. rewrite G1, W1, W5, W8, B1, B7, (ls_state _ _ _ _ S0), decide_True by done. done. }
  { rewrite G1, B5'. exact Ea. }
  assert (content_step s (relink s1 c i (ks_state (get_slab s i))) c i (given (get_slab s i) o)) as CS.
  { eapply list_step_content; [exact S0|by rewrite G1|exact G2|exact G3| |exact G4|exact S2].
    fold a. rewrite Ea. clear. lia. }
  split; [|done]. eapply (content_step_inv s _ c i _ _ I Hi Hu Ho CS HL2); [by rewrite T5|by rewrite T1|done..|].
  rewrite (ls_state _ _ _ _ S2), decide_True, Ea, T4 by done. done.
Qed.

(** ** A new slab *)

Definition new_slab (c memory : Z) (kc : kmem_cache_t) : kmem_slab_t :=
  KmemSlab c memory (kc_slab_pages kc) (kc_objects_per_slab kc) 0 0 NONE NONE 0 true ∅
    (initial_next (kc_objects_per_slab kc)).

(** [s'] is [s] with a slab for the cache [c] in the record [i]. *)
Record grown s s' (c i : Z) : Prop := {
  gr_index : 0 ≤ i < KMEM_SLAB_MAX;
  gr_unused : ks_used (get_slab s i) = false;
  gr_memory : page_run (ks_memory (get_slab s' i)) (kc_slab_pages (get_cache s c));
  gr_fresh p : slab_pages s' i p = true → pm_owned (pages s) p = false;
  gr_body : body (get_slab s' i) = body (new_slab c (ks_memory (get_slab s' i)) (get_cache s c));
  gr_state : ks_state (get_slab s' i) = EMPTY;
  gr_other j : j ≠ i → body (get_slab s' j) = body (get_slab s j) ∧
    ks_state (get_slab s' j) = ks_state (get_slab s j);
  gr_cache d : d ≠ c → cfix (get_cache s' d) = cfix (get_cache s d);
  gr_counts : cfix (get_cache s' c) = cfix (((get_cache s c)
    <| kc_slab_count := kc_slab_count (get_cache s c) + 1 |>)
    <| kc_capacity := kc_capacity (get_cache s c) + kc_objects_per_slab (get_cache s c) |>);
  gr_head : kc_empty_head (get_cache s' c) = i;
  gr_pm : pm_inv (pages s');
  gr_pages p : pm_owned (pages s') p = slab_pages s' i p || pm_owned (pages s) p;
  gr_bytes b : pm_owned (pages s) (b / PAGE_SIZE) = true → pm_byte (pages s') b = pm_byte (pages s) b;
  gr_caches : cache_count s' = cache_count s;
  gr_slabs : slab_count s' = slab_count s + 1;
  gr_init : slab_initialized s' = slab_initialized s;
  gr_paging : paging_ready s' = paging_ready s
}.

Lemma cfix_grow c a b :
  let c' := (c <| kc_slab_count := a |>) <| kc_capacity := b |> in
  kc_object_size c' = kc_object_size c ∧ kc_alignment c' = kc_alignment c ∧
  kc_object_stride c' = kc_object_stride c ∧ kc_objects_per_slab c' = kc_objects_per_slab c ∧
  kc_slab_pages c' = kc_slab_pages c ∧ kc_active_objects c' = kc_active_objects c ∧
  kc_capacity c' = b ∧ kc_slab_count c' = a ∧ kc_used c' = kc_used c.
Proof. by destruct c. Qed.

Lemma grown_inv s s' c i :
  slab_inv s → 0 ≤ c < KMEM_CACHE_MAX → kc_used (get_cache s c) = true →
  grown s s' c i → lists_inv s' NONE → slab_inv s'.
Proof.
  intros [I1 I2 I3 I4 I5 I6 I7 I8 I9] Hc Hu [Hi Hui Hrun Hfr Hb Hst Ho Hca Hcc _ Hpm Hpg _ E1 E2 E3 E4] HL.
  destruct (body_fields _ _ Hb) as (B1 & B2 & B3 & B4 & B5 & _ & B7 & _ & _).
  cbn [new_slab ks_owner ks_memory ks_pages ks_object_count ks_active_objects ks_used] in B1, B2, B3, B4, B5, B7.
  assert (∀ j, j ≠ i → ks_owner (get_slab s' j) = ks_owner (get_slab s j) ∧
    ks_used (get_slab s' j) = ks_used (get_slab s j) ∧ ks_memory (get_slab s' j) = ks_memory (get_slab s j) ∧
    ks_pages (get_slab s' j) = ks_pages (get_slab s j) ∧
    ks_object_count (get_slab s' j) = ks_object_count (get_slab s j) ∧
    ks_active_objects (get_slab s' j) = ks_active_objects (get_slab s j)) as G.
  { intros j Hj. destruct (Ho j Hj) as [(?&?&?&?&?&?&?&?&?)%body_fields _]. done. }
  assert (∀ d, kc_objects_per_slab (get_cache s' d) = kc_objects_per_slab (get_cache s d) ∧
    kc_slab_pages (get_cache s' d) = kc_slab_pages (get_cache s d) ∧
    kc_used (get_cache s' d) = kc_used (get_cache s d) ∧
    kc_active_objects (get_cache s' d) = kc_active_objects (get_cache s d) ∧
    kc_capacity (get_cache s' d) = kc_capacity (get_cache s d) +
      (if decide (d = c) then kc_objects_per_slab (get_cache s c) else 0) ∧
    kc_slab_count (get_cache s' d) = kc_slab_count (get_cache s d) + (if decide (d = c) then 1 else 0) ∧
    (cache_geom (get_cache s d) → cache_geom (get_cache s' d))) as C.
  { intros d. destruct (decide (d = c)) as [->|Hd].
    - destruct (cfix_fields _ _ Hcc) as (F1&F2&F3&F4&F5&F6&F7&F8&F9&_).
      destruct (cfix_grow (get_cache s c) (kc_slab_count (get_cache s c) + 1)
        (kc_capacity (get_cache s c) + kc_objects_per_slab (get_cache s c))) as (D1&D2&D3&D4&D5&D6&D7&D8&D9).
      rewrite D4 in F4. rewrite D5 in F5. rewrite D6 in F6. rewrite D7 in F7. rewrite D8 in F8.
      rewrite D1 in F1. rewrite D2 in F2. rewrite D3 in F3. rewrite D9 in F9.
      do 6 (split; [done|]). by apply cache_geom_ext.
    - destruct (cfix_fields _ _ (Hca d Hd)) as (F1&F2&F3&F4&F5&F6&F7&F8&F9&_).
      rewrite F7, F8, !Z.add_0_r. do 6 (split; [done|]). by apply cache_geom_ext. }
  assert (∀ j p, j ≠ i → slab_pages s' j p = slab_pages s j p) as Hp.
  { intros j p Hj. unfold slab_pages. by destruct (G j Hj) as (_ & _ & -> & -> & _). }
  assert (∀ d f, (∀ j, j ≠ i → f (get_slab s' j) = f (get_slab s j)) →
    owned_sum s' d f = owned_sum s d f + (if decide (d = c) then f (get_slab s' i) else 0)) as Hsum.
  { intros d f Hf. rewrite (owned_sum_update s s' d f i Hi).
    - unfold share, belongs. rewrite Hui, B7, B1. cbn [andb].
      destruct (Z.eqb_spec c d), (decide (d = c)); try done; try ring; by destruct n.
    - intros j Hj. split; [|intros _; by apply Hf]. unfold belongs. by destruct (G j Hj) as (-> & -> & _). }
  split; [congruence|done|done|..].
  - intros d Hd Hud. destruct (C d) as (_ & _ & E & _ & _ & _ & Hg). rewrite E in Hud. by apply Hg, I4.
  - intros j Hj Huj. destruct (decide (j = i)) as [->|Hji].
    + destruct (C c) as (C1 & C2 & C3 & _).
      split; rewrite ?B1, ?B3, ?C1, ?C2, ?C3; try done.
      * intros p Hpp. by rewrite Hpg, Hpp.
      * eexists. eapply free_rep_body; [exact Hb|]. apply free_rep_new, (I4 c Hc Hu).
      * rewrite B5. exact Hst.
    + destruct (G j Hji) as (F1 & F2 & F3 & F4 & F5 & F6). rewrite F2 in Huj.
      destruct (I5 j Hj Huj) as [O1 O2 O3 O4 O5 O6 [fl R] O8].
      destruct (C (ks_owner (get_slab s j))) as (C1 & C2 & C3 & _), (Ho j Hji) as [Hbj Hsj].
      split; rewrite ?F1, ?F3, ?F4, ?F5, ?F6, ?C1, ?C2, ?C3, ?Hsj; try done.
      * intros p. rewrite Hp, Hpg by done. intros Hpp. rewrite (O6 p Hpp). apply orb_true_r.
      * exists fl. by eapply free_rep_body.
  - intros j k p Hj Hk Hjk Huj Huk Hpj.
    destruct (decide (j = i)) as [->|Hji], (decide (k = i)) as [->|Hki]; [done|..].
    + apply not_true_iff_false. intros Hpk. rewrite Hp in Hpk by done. destruct (G k Hki) as (_ & F & _).
      rewrite F in Huk. apply (so_owned _ _ (I5 k Hk Huk)) in Hpk. rewrite Hfr in Hpk; done.
    + apply not_true_iff_false. intros Hpk. rewrite Hp in Hpj by done. destruct (G j Hji) as (_ & F & _).
      rewrite F in Huj. apply (so_owned _ _ (I5 j Hj Huj)) in Hpj. rewrite Hfr in Hpj; done.
    + destruct (G j Hji) as (_ & F1 & _), (G k Hki) as (_ & F2 & _). rewrite Hp in * by done.
      apply (I6 j k p); congruence || done.
  - intros d Hd Hud Hx. destruct (C d) as (_ & _ & F3 & F4 & F5 & F6 & _). rewrite F3 in Hud.
    destruct (I7 d Hd Hud Hx) as (A1 & A2 & A3). rewrite F4, F5, F6, A1, A2, A3.
    rewrite !Hsum; [|done|intros j Hj; apply (G j Hj)..]. rewrite B4, B5. case_decide; split_and!; ring.
  - rewrite E1, I8. apply sum_ext. intros d _. by destruct (C d) as (_ & _ & -> & _).
  - rewrite E2, I9. rewrite (sum_update (λ j, Z.b2z (ks_used (get_slab s j)))
      (λ j, Z.b2z (ks_used (get_slab s' j))) _ i); [rewrite B7, Hui; cbn; lia|apply range_NoDup|by apply elem_of_range|].
    intros j Hj. by destruct (G j Hj) as (_ & -> & _).
Qed.

Lemma find_free_record s :
  let i := slab_find_free_record s in
  (i < 0 ∧ ∀ j, 0 ≤ j < KMEM_SLAB_MAX → ks_used (get_slab s j) = true) ∨
  (0 ≤ i < KMEM_SLAB_MAX ∧ ks_used (get_slab s i) = false).
Proof.
  unfold slab_find_free_record. destruct (List.find _ _) as [i|] eqn:E; cbn.
  - apply find_range_Some in E as (Hi & Hu & _). right. split; [done|]. by apply negb_true_iff.
  - left. split; [done|]. intros j Hj. apply negb_false_iff. by apply (find_range_None _ _ _ E).
Qed.

Lemma slab_total_bound x s : inv_but x s → 0 ≤ slab_count s ≤ 128.
Proof.
  intros I. rewrite (si_slab_count _ _ I).
  pose proof (sum_bound (λ i, Z.b2z (ks_used (get_slab s i))) (range 0 KMEM_SLAB_MAX) 1) as B.
  rewrite length_range in B. apply B. intros i _. by destruct (ks_used _).
Qed.

(** A page allocation that does not concern the slabs. *)
Lemma pages_inv s m :
  slab_inv s → pm_inv m → (∀ p, pm_owned (pages s) p = true → pm_owned m p = true) →
  slab_inv (s <| pages := m |>).
Proof. intros I Hm Ho. eapply inv_ext; try done. apply I. Qed.

(** The successful end of [slab_prepare_record], for the record [i] and the
    pages at [a]. *)
Definition install s (m : M) (a c i : Z) : slab_t M :=
  slab_list_add (upd_slab (s <| pages := m |>) i (λ _, new_slab c a (get_cache s c))) c i EMPTY.
Definition count_slab s (c count : Z) : slab_t M :=
  let s := upd_cache s c (λ kc, kc <| kc_slab_count ::= λ n, n +w 1 |>) in
  let s := upd_cache s c (λ kc, kc <| kc_capacity ::= λ n, n +w count |>) in
  s <| slab_count ::= λ n, n +w 1 |>.

Lemma install_spec s m a c i :
  lists_inv s NONE → 0 ≤ c < KMEM_CACHE_MAX → kc_used (get_cache s c) = true →
  0 ≤ i < KMEM_SLAB_MAX → ks_used (get_slab s i) = false →
  lists_inv (install s m a c i) NONE ∧
  body (get_slab (install s m a c i) i) = body (new_slab c a (get_cache s c)) ∧
  ks_state (get_slab (install s m a c i) i) = EMPTY ∧
  (∀ j, j ≠ i → body (get_slab (install s m a c i) j) = body (get_slab s j) ∧
     ks_state (get_slab (install s m a c i) j) = ks_state (get_slab s j)) ∧
  (∀ d, cbody (get_cache (install s m a c i) d) = cbody (get_cache s d)) ∧
  kc_empty_head (get_cache (install s m a c i) c) = i ∧
  rest (install s m a c i) = rest (s <| pages := m |>).
Proof.
  intros HL Hc Hu Hi Hui. unfold install.
  set (s1 := upd_slab (s <| pages := m |>) i _).
  assert (get_slab s1 i = new_slab c a (get_cache s c)) as G1
    by (unfold s1; rewrite get_slab_upd; by rewrite decide_True).
  assert (∀ j, j ≠ i → get_slab s1 j = get_slab s j) as G2
    by (intros j Hj; unfold s1; rewrite get_slab_upd; by rewrite decide_False by congruence).
  assert (∀ d, get_cache s1 d = get_cache s d) as G3 by done.
  assert (rest s1 = rest (s <| pages := m |>)) as G4 by done. clearbody s1.
  assert (lists_inv s1 i) as HL1 by (by eapply lists_inv_fresh).
  destruct (add_lists s1 c EMPTY i) as [HL2 S2]; try done; [by rewrite G3|by rewrite G1|by rewrite G1|].
  destruct (add_get s1 c i EMPTY Hi) as (_ & _ & _ & _ & Hca).
  { destruct (HL1 c EMPTY) as (l & Hd & _ & Hin); [done|by rewrite G3|done|].
    rewrite (dll_head _ _ _ Hd). intros E. destruct (head_default_elem l) as [E'|Hil].
    - rewrite E in E'. unfold NONE in E'. lia.
    - rewrite E in Hil. by apply Hin in Hil as [_ ?]. }
  split; [done|]. split; [by rewrite (ls_body _ _ _ _ S2), G1|].
  split; [by rewrite (ls_state _ _ _ _ S2), decide_True|]. split.
  { intros j Hj. by rewrite (ls_body _ _ _ _ S2), (ls_state _ _ _ _ S2), decide_False, G2. }
  split; [intros d; by rewrite (ls_cache _ _ _ _ S2), G3|].
  split; [by rewrite Hca, decide_True|]. by rewrite (ls_rest _ _ _ _ S2).
Qed.

Lemma count_slab_caches s c count :
  0 ≤ kc_slab_count (get_cache s c) < 2 ^ 31 → 0 ≤ kc_capacity (get_cache s c) < 2 ^ 31 →
  0 ≤ count < 2 ^ 31 →
  ∀ d, get_cache (count_slab s c count) d = if decide (c = d) then ((get_cache s c)
    <| kc_slab_count := kc_slab_count (get_cache s c) + 1 |>)
    <| kc_capacity := kc_capacity (get_cache s c) + count |> else get_cache s d.
Proof.
  intros H1 H2 H3 d. change (get_cache (count_slab s c count) d) with
    (get_cache (upd_cache (upd_cache s c (λ kc, kc <| kc_slab_count ::= λ n, n +w 1 |>)) c
      (λ k, k <| kc_capacity ::= λ n, n +w count |>)) d).
  rewrite !get_cache_upd. destruct (decide (c = c)); [|done]. destruct (decide (c = d)) as [<-|]; [|done].
  rewrite <-(u32_small (kc_slab_count _ + 1)), <-(u32_small (kc_capacity _ + _)) by lia. done.
Qed.

Lemma cfix_counts a b u v : cbody a = cbody b →
  cfix ((a <| kc_slab_count := u |>) <| kc_capacity := v |>) = cfix ((b <| kc_slab_count := u |>) <| kc_capacity := v |>).
Proof. destruct a, b. by intros [= -> -> -> -> -> -> -> -> -> -> -> -> ->]. Qed.

Lemma install_grown s m a c i :
  slab_inv s → 0 ≤ c < KMEM_CACHE_MAX → kc_used (get_cache s c) = true →
  0 ≤ i < KMEM_SLAB_MAX → ks_used (get_slab s i) = false →
  pm_inv m → (∀ b, pm_owned (pages s) (b / PAGE_SIZE) = true → pm_byte m b = pm_byte (pages s) b) →
  page_run a (kc_slab_pages (get_cache s c)) →
  (∀ p, in_pages a (kc_slab_pages (get_cache s c)) p = true → pm_owned (pages s) p = false) →
  (∀ p, pm_owned m p = in_pages a (kc_slab_pages (get_cache s c)) p || pm_owned (pages s) p) →
  let s' := count_slab (install s m a c i) c (kc_objects_per_slab (get_cache s c)) in
  grown s s' c i ∧ lists_inv s' NONE.
Proof.
  intros I Hc Hu Hi Hui Hm Hby Hrun Hfr Hown s'.
  destruct (install_spec s m a c i (si_lists _ _ I) Hc Hu Hi Hui) as (HL & Hb & Hst & Ho & Hca & Hh & Hr).
  destruct (rest_fields _ _ Hr) as (P1 & P2 & P3 & P4 & P5).
  destruct (si_counts _ _ I c Hc Hu) as (_ & Ecap & Ecnt); [unfold NULL_CACHE; lia|].
  destruct (count_bounds _ s c I) as (_ & Bcap & Bcnt). pose proof (slab_total_bound _ _ I) as Bsl.
  pose proof (cg_objects _ (si_cache _ _ I c Hc Hu)) as Bobj.
  unfold KMEM_SLAB_MAX_OBJECTS, KMEM_SLAB_MIN_OBJECTS in Bobj.
  destruct (cfix_fields _ _ (cfix_cbody _ _ (Hca c))) as (_&_&_&_&_&_&K7&K8&_).
  pose proof (count_slab_caches (install s m a c i) c (kc_objects_per_slab (get_cache s c))
    ltac:(lia) ltac:(lia) ltac:(lia)) as K. fold s' in K.
  assert (∀ j, get_slab s' j = get_slab (install s m a c i) j) as G by done.
  assert (pages s' = m ∧ cache_count s' = cache_count s ∧ slab_initialized s' = slab_initialized s ∧
    paging_ready s' = paging_ready s ∧ slab_count s' = slab_count (install s m a c i) +w 1)
    as (R1 & R2 & R3 & R4 & R5) by done. clearbody s'.
  set (s2 := install s m a c i) in *. clearbody s2.
  destruct (body_fields _ _ Hb) as (_ & M2 & M3 & _).
  cbn [new_slab ks_memory ks_pages] in M2, M3.
  assert (∀ p, slab_pages s' i p = in_pages a (kc_slab_pages (get_cache s c)) p) as Hsp
    by (intros p; unfold slab_pages; by rewrite G, M2, M3).
  split.
  - split; rewrite ?G, ?R1; try done.
    + by rewrite M2.
    + intros p. rewrite Hsp. apply Hfr.
    + by rewrite M2.
    + intros j Hj. rewrite G. by apply Ho.
    + intros d Hd. rewrite K, decide_False by congruence. by apply cfix_cbody.
    + rewrite K, decide_True, K7, K8 by done. by apply cfix_counts.
    + rewrite K, decide_True by done. by destruct (get_cache s2 c).
    + intros p. rewrite Hsp. apply Hown.
    + change (slab_count (s <| pages := m |>)) with (slab_count s) in P3.
      rewrite R5, P3, u32_small; [done|]. clear -Bsl. lia.
  - eapply lists_inv_ext; [exact HL|intros j _; by rewrite G|].
    intros d. rewrite K. destruct (decide (c = d)) as [<-|]; [|done]. by destruct (get_cache s2 c).
Qed.

Lemma prepare_spec s c s' r :
  slab_inv s → 0 ≤ c < KMEM_CACHE_MAX → kc_used (get_cache s c) = true →
  slab_prepare_record s c = (s', r) →
  slab_inv s' ∧
  ((r = OK ∧ ∃ i, grown s s' c i) ∨
   (r ≠ OK ∧ ∃ m, s' = s <| pages := m |> ∧ (∀ p, pm_owned m p = pm_owned (pages s) p) ∧
      ∀ b, pm_owned (pages s) (b / PAGE_SIZE) = true → pm_byte m b = pm_byte (pages s) b)).
Proof.
  intros I Hc Hu. unfold slab_prepare_record.
  pose proof (find_free_record s) as Hf. set (i := slab_find_free_record s) in *. clearbody i.
  destruct Hf as [ [Hneg _]|[Hi Hui] ].
  { replace (i <? 0) with true by lia. intros [= <- <-]. split; [done|]. right. split; [done|].
    exists (pages s). by destruct s. }
  replace (i <? 0) with false by lia.
  assert (0 < kc_slab_pages (get_cache s c) < 2 ^ 32) as Hpg
    by (pose proof (cg_pages _ (si_cache _ _ I c Hc Hu)); lia).
  destruct (pm_alloc (pages s) (kc_slab_pages (get_cache s c))) as [m a] eqn:Ea.
  destruct (pm_alloc_law _ _ _ _ (si_pm _ _ I) Hpg Ea) as (Hm & Hby & [(-> & Hown)|(Hrun & Hfr & Hown)]).
  { intros [= <- <-]. split.
    - apply pages_inv; [done..|]. intros p. by rewrite Hown.
    - right. split; [done|]. by exists m. }
  replace (a =? 0) with false by (destruct Hrun as (_ & ? & _); lia). intros [= <- <-].
  destruct (install_grown s m a c i I Hc Hu Hi Hui Hm Hby Hrun Hfr Hown) as [Gr HL].
  split; [exact (grown_inv _ _ c i I Hc Hu Gr HL)|]. left. split; [done|]. exists i. exact Gr.
Qed.
End invariant.
