(* ===== verification/SlabCalls.v ===== *)
(** * The calls of slab.h on the objects in use

    [live_objects s c] lists the objects of the cache [c] in use.  Allocation
    adds one object that overlaps no other, release removes exactly the object
    given, and both leave the rest of the state alone. *)

From S2P Require Import Prelude Memory Slab SlabInv SlabSystem.

Section calls.
Context {M : Type} `{PML : PageManagerLaws M}.
Implicit Types s : slab_t M.

(** ** Objects *)

Definition object_at s (i k : Z) : Z :=
  ks_memory (get_slab s i) + k * kc_object_stride (get_cache s (ks_owner (get_slab s i))).
Definition slab_live s (i : Z) : list Z :=
  map (object_at s i) (List.filter (slab_bit_is_set (get_slab s i)) (range 0 (ks_object_count (get_slab s i)))).
Definition live_objects s (c : Z) : list Z :=
  concat (map (λ i, if belongs s c i then slab_live s i else []) (range 0 KMEM_SLAB_MAX)).

(** Object [k] of the slab [i] of the cache [c]. *)
Definition slot s (c i k : Z) : Prop :=
  0 ≤ i < KMEM_SLAB_MAX ∧ belongs s c i = true ∧ 0 ≤ k < ks_object_count (get_slab s i).

Lemma elem_slab_live s i o :
  o ∈ slab_live s i ↔ ∃ k, 0 ≤ k < ks_object_count (get_slab s i) ∧
    slab_bit_is_set (get_slab s i) k = true ∧ o = object_at s i k.
Proof.
  unfold slab_live. rewrite list_elem_of_fmap. setoid_rewrite list_elem_of_In. setoid_rewrite filter_In.
  setoid_rewrite <-list_elem_of_In. setoid_rewrite elem_of_range. split.
  - intros (k & -> & Hk & Hb). by exists k.
  - intros (k & Hk & Hb & ->). by exists k.
Qed.

Lemma elem_live s c o :
  o ∈ live_objects s c ↔
  ∃ i k, slot s c i k ∧ slab_bit_is_set (get_slab s i) k = true ∧ o = object_at s i k.
Proof.
  unfold live_objects, slot. rewrite list_elem_of_In, in_concat. setoid_rewrite in_map_iff.
  setoid_rewrite <-list_elem_of_In. setoid_rewrite elem_of_range. split.
  - intros (l & (i & <- & Hi) & Ho). destruct (belongs s c i) eqn:Hb; [|by apply elem_of_nil in Ho].
    apply elem_slab_live in Ho as (k & Hk & Hbit & ->). by exists i, k.
  - intros (i & k & (Hi & Hb & Hk) & Hbit & ->). exists (slab_live s i). split.
    + exists i. by rewrite Hb.
    + apply elem_slab_live. by exists k.
Qed.

Section slots.
Context s (I : slab_inv s).

Lemma slot_ok c i k : slot s c i k → slab_ok s i ∧ cache_geom (get_cache s c) ∧
  ks_owner (get_slab s i) = c ∧ ks_used (get_slab s i) = true ∧
  ks_object_count (get_slab s i) = kc_objects_per_slab (get_cache s c) ∧
  ks_pages (get_slab s i) = kc_slab_pages (get_cache s c).
Proof.
  intros (Hi & [Hu Ho]%belongs_spec & Hk). pose proof (si_slab _ _ I i Hi Hu) as SO.
  split; [done|]. split; [rewrite <-Ho; apply (si_cache _ _ I); apply SO|].
  split; [done|]. split; [done|]. rewrite <-Ho. split; apply SO.
Qed.

Lemma slot_bounds c i k :
  slot s c i k →
  0 < object_at s i k ∧ ks_memory (get_slab s i) ≤ object_at s i k ∧
  object_at s i k + kc_object_stride (get_cache s c)
    ≤ ks_memory (get_slab s i) + ks_object_count (get_slab s i) * kc_object_stride (get_cache s c) ∧
  ks_memory (get_slab s i) + ks_object_count (get_slab s i) * kc_object_stride (get_cache s c)
    ≤ ks_memory (get_slab s i) + ks_pages (get_slab s i) * PAGE_SIZE ∧
  ks_memory (get_slab s i) + ks_pages (get_slab s i) * PAGE_SIZE < 2 ^ 32.
Proof.
  intros Hs. destruct (slot_ok c i k Hs) as (SO & CG & Ho & _ & Ec & Ep). destruct Hs as (_ & _ & Hk).
  destruct (so_run _ _ SO) as (_ & Hm & _ & Hend). pose proof (cg_size _ CG). pose proof (cg_fits _ CG).
  unfold object_at. rewrite Ho, Ep, Ec in *. split_and!; nia.
Qed.

(** The bytes of an object are in the pages of its slab. *)
Lemma slot_pages c i k b :
  slot s c i k → object_at s i k ≤ b < object_at s i k + kc_object_stride (get_cache s c) →
  slab_pages s i (b / PAGE_SIZE) = true.
Proof.
  intros Hs Hb. destruct (slot_bounds c i k Hs) as (_ & B2 & B3 & B4 & _).
  destruct (slot_ok c i k Hs) as (SO & _). destruct (so_run _ _ SO) as (_ & _ & Hal & _).
  unfold slab_pages, in_pages, PAGE_SIZE in *.
  assert (ks_memory (get_slab s i) ≤ b < ks_memory (get_slab s i) + ks_pages (get_slab s i) * 4096) by lia.
  apply andb_true_iff. rewrite Z.leb_le, Z.ltb_lt. divlia.
Qed.

(** Distinct slots do not overlap. *)
Lemma slots_disjoint c i k d j l b :
  slot s c i k → slot s d j l → (i ≠ j ∨ k ≠ l) →
  object_at s i k ≤ b < object_at s i k + kc_object_stride (get_cache s c) →
  ¬ (object_at s j l ≤ b < object_at s j l + kc_object_stride (get_cache s d)).
Proof.
  intros Hs1 Hs2 Hne Hb1 Hb2. destruct (decide (i = j)) as [<-|Hij].
  - assert (d = c) as -> by (destruct (slot_ok _ _ _ Hs1) as (_ & _ & <- & _), (slot_ok _ _ _ Hs2) as (_ & _ & <- & _); done).
    destruct (slot_ok _ _ _ Hs1) as (_ & CG & Ho & _). pose proof (cg_size _ CG).
    unfold object_at in *. rewrite Ho in *. assert (k ≠ l) by tauto.
    assert (k < l ∨ l < k) as [|] by lia; nia.
  - destruct (slot_ok _ _ _ Hs1) as (_ & _ & _ & Hu1 & _), (slot_ok _ _ _ Hs2) as (_ & _ & _ & Hu2 & _).
    pose proof (slot_pages _ _ _ _ Hs1 Hb1) as P1. pose proof (slot_pages _ _ _ _ Hs2 Hb2) as P2.
    destruct Hs1 as (Hi & _), Hs2 as (Hj & _).
    pose proof (si_disjoint _ _ I i j _ Hi Hj Hij Hu1 Hu2 P1). congruence.
Qed.

Lemma object_at_inj c i k d j l :
  slot s c i k → slot s d j l → object_at s i k = object_at s j l → i = j ∧ k = l.
Proof.
  intros Hs1 Hs2 E. destruct (decide (i = j ∧ k = l)) as [|Hne]; [done|]. exfalso.
  assert (i ≠ j ∨ k ≠ l) as Hne' by (destruct (decide (i = j)); tauto).
  destruct (slot_ok _ _ _ Hs1) as (_ & C1 & _), (slot_ok _ _ _ Hs2) as (_ & C2 & _).
  pose proof (cg_size _ C1). pose proof (cg_size _ C2).
  apply (slots_disjoint c i k d j l (object_at s i k) Hs1 Hs2 Hne'); lia.
Qed.

(** Objects keep the alignment of their cache. *)
Lemma object_aligned c i k : slot s c i k → object_at s i k mod kc_alignment (get_cache s c) = 0.
Proof.
  intros Hs. destruct (slot_ok c i k Hs) as (SO & CG & Ho & _). destruct (cg_align _ CG) as (n & Hn & -> & Hst).
  destruct (so_run _ _ SO) as (_ & _ & Hal & _). unfold object_at. rewrite Ho.
  apply Z.mod_divide in Hst; [|lia]. apply Z.mod_divide; [lia|].
  apply Z.divide_add_r; [|by apply Z.divide_mul_r].
  apply Z.mod_divide in Hal; [|done]. etransitivity; [|exact Hal].
  change PAGE_SIZE with (2 ^ 12). exists (2 ^ (12 - n)). rewrite <-Z.pow_add_r by lia. f_equal. lia.
Qed.

(** ** Finding the slot of an address *)

Lemma location_loop_spec c o l :
  (∀ i, i ∈ l → 0 ≤ i < KMEM_SLAB_MAX) → 0 ≤ o < 2 ^ 32 →
  match location_loop s c o l with
  | Some (i, k) => i ∈ l ∧ slot s c i k ∧ o = object_at s i k
  | None => ∀ i k, i ∈ l → slot s c i k → o ≠ object_at s i k
  end.
Proof.
  intros Hl Ho. induction l as [|i l IH]; cbn [location_loop]; [by intros i k ?%elem_of_nil|].
  specialize (IH (λ j Hj, Hl j (list_elem_of_further _ _ _ Hj))).
  destruct (negb (ks_used (get_slab s i)) || negb (ks_owner (get_slab s i) =? c)) eqn:Eb.
  { destruct (location_loop s c o l) as [[j k]|].
    - destruct IH as (? & ? & ?). split; [by constructor|done].
    - intros j k [->|Hj]%elem_of_cons Hs; [|by apply IH]. destruct Hs as (_ & Hb & _).
      unfold belongs in Hb. apply orb_true_iff in Eb as [Eb|Eb]; apply negb_true_iff in Eb; rewrite Eb in Hb;
        [done|by rewrite andb_false_r in Hb]. }
  apply orb_false_iff in Eb as [Eu%negb_false_iff Eo%negb_false_iff%Z.eqb_eq].
  assert (0 ≤ i < KMEM_SLAB_MAX) as Hi by (apply Hl; constructor).
  assert (slot s c i 0) as Hs0.
  { split; [done|]. split; [by apply belongs_spec|].
    pose proof (slab_bounds s i (si_slab _ _ I i Hi Eu)). lia. }
  destruct (slot_ok c i 0 Hs0) as (SO & CG & _ & _ & Ec & Ep). pose proof (cg_size _ CG) as Hsz.
  destruct (slot_bounds c i 0 Hs0) as (_ & _ & _ & B4 & B5). destruct (so_run _ _ SO) as (_ & Hm & _).
  set (st := kc_object_stride (get_cache s c)) in *. set (n := ks_object_count (get_slab s i)) in *.
  assert (0 < n) by (pose proof (slab_bounds s i SO); unfold n; lia).
  rewrite (u32_small (st * n)), (u32_small (_ + st * n)) by nia.
  destruct ((o <? ks_memory (get_slab s i)) || (o >=? ks_memory (get_slab s i) + st * n)) eqn:Er.
  { assert (∀ k, slot s c i k → o ≠ object_at s i k) as Hno.
    { intros k Hk ->. destruct (slot_bounds c i k Hk) as (_ & C2 & C3 & _). fold st n in C3. lia. }
    destruct (location_loop s c o l) as [[j k]|].
    - destruct IH as (? & ? & ?). split; [by constructor|done].
    - intros j k [->|Hj]%elem_of_cons Hs; [by apply Hno|by apply IH]. }
  assert (ks_memory (get_slab s i) ≤ o < ks_memory (get_slab s i) + st * n) as Hin by lia.
  rewrite u32_small by lia.
  assert (∀ j k, slot s c j k → o = object_at s j k → j = i ∧ o = ks_memory (get_slab s i) + k * st) as Huniq.
  { intros j k Hs E. assert (j = i) as ->; [|split; [done|]; rewrite E; unfold object_at; by rewrite Eo].
    destruct (decide (j = i)); [done|]. exfalso.
    set (q := (o - ks_memory (get_slab s i)) / st).
    assert (slot s c i q) as Hq.
    { split; [done|]. split; [by apply belongs_spec|]. fold n. unfold q.
      split; [apply Z.div_pos; lia|apply Z.div_lt_upper_bound; lia]. }
    apply (slots_disjoint c j k c i q o Hs Hq); [tauto|fold st; lia|].
    unfold object_at. rewrite Eo. fold st. unfold q.
    pose proof (Z.div_mod (o - ks_memory (get_slab s i)) st ltac:(lia)).
    pose proof (Z.mod_pos_bound (o - ks_memory (get_slab s i)) st ltac:(lia)). nia. }
  destruct (Z.eqb_spec ((o - ks_memory (get_slab s i)) mod st) 0) as [Em|Em]; cbn [negb].
  - set (q := (o - ks_memory (get_slab s i)) / st).
    assert (o - ks_memory (get_slab s i) = st * q) as Eq
      by (pose proof (Z.div_mod (o - ks_memory (get_slab s i)) st ltac:(lia)); unfold q; lia).
    assert (0 ≤ q < n) by nia. replace (q <? n) with true by lia. split; [constructor|]. split.
    + split; [done|]. split; [by apply belongs_spec|]. done.
    + unfold object_at. rewrite Eo. fold st. lia.
  - intros j k _ Hs E. destruct (Huniq j k Hs E) as [_ E']. apply Em. rewrite E'.
    replace (_ + k * st - _) with (k * st) by lia. apply Z.mod_mul. lia.
Qed.

Lemma location_spec c o :
  0 ≤ c < KMEM_CACHE_MAX → kc_used (get_cache s c) = true → 0 ≤ o < 2 ^ 32 →
  match slab_object_location s c o with
  | Some (i, k) => slot s c i k ∧ o = object_at s i k
  | None => ∀ i k, slot s c i k → o ≠ object_at s i k
  end.
Proof.
  intros Hc Hu Ho. unfold slab_object_location. pose proof (cg_size _ (si_cache _ _ I c Hc Hu)) as Hsz.
  replace (c =? NULL_CACHE) with false by (unfold NULL_CACHE; lia).
  replace (kc_object_stride (get_cache s c) =? 0) with false by lia.
  destruct (Z.eqb_spec o 0) as [->|Hne]; cbn [orb].
  { intros i k Hs. pose proof (slot_bounds c i k Hs). lia. }
  pose proof (location_loop_spec c o (range 0 KMEM_SLAB_MAX)) as HL.
  destruct (location_loop s c o _) as [[i k]|].
  - destruct HL as (_ & ? & ?); [by intros i' ?%elem_of_range|done|done].
  - intros i k Hs. apply HL; [by intros i' ?%elem_of_range|done| |done]. apply elem_of_range, Hs.
Qed.
End slots.

(** ** What a change of one slab does to the objects *)

Section step.
Context s s' (c i : Z) (sl : kmem_slab_t) (CS : content_step s s' c i sl).
Context (Eu : ks_used sl = ks_used (get_slab s i)) (Eo : ks_owner sl = ks_owner (get_slab s i)).
Context (Em : ks_memory sl = ks_memory (get_slab s i)) (En : ks_object_count sl = ks_object_count (get_slab s i)).

Lemma step_fields j :
  ks_used (get_slab s' j) = ks_used (get_slab s j) ∧ ks_owner (get_slab s' j) = ks_owner (get_slab s j) ∧
  ks_memory (get_slab s' j) = ks_memory (get_slab s j) ∧
  ks_object_count (get_slab s' j) = ks_object_count (get_slab s j).
Proof.
  destruct (decide (j = i)) as [->|Hj].
  - destruct (body_fields _ _ (cs_body _ _ _ _ _ CS)) as (-> & -> & _ & -> & _ & _ & -> & _). done.
  - destruct (cs_other _ _ _ _ _ CS j Hj) as [(-> & -> & _ & -> & _ & _ & -> & _)%body_fields _]. done.
Qed.

Lemma step_cache d :
  kc_object_stride (get_cache s' d) = kc_object_stride (get_cache s d) ∧
  kc_object_size (get_cache s' d) = kc_object_size (get_cache s d) ∧
  kc_alignment (get_cache s' d) = kc_alignment (get_cache s d) ∧
  kc_used (get_cache s' d) = kc_used (get_cache s d).
Proof.
  destruct (decide (d = c)) as [->|Hd].
  - destruct (cfix_fields _ _ (cs_active _ _ _ _ _ CS)) as (-> & -> & -> & _ & _ & _ & _ & _ & -> & _).
    by destruct (get_cache s c).
  - by destruct (cfix_fields _ _ (cs_cache _ _ _ _ _ CS d Hd)) as (-> & -> & -> & _ & _ & _ & _ & _ & -> & _).
Qed.

Lemma step_slot d j l : slot s' d j l ↔ slot s d j l.
Proof. unfold slot, belongs. by destruct (step_fields j) as (-> & -> & _ & ->). Qed.

Lemma step_object j l : object_at s' j l = object_at s j l.
Proof.
  unfold object_at. destruct (step_fields j) as (_ & -> & -> & _). by destruct (step_cache (ks_owner (get_slab s j))) as [-> _].
Qed.

Lemma step_bit j l :
  slab_bit_is_set (get_slab s' j) l = if decide (j = i) then slab_bit_is_set sl l else slab_bit_is_set (get_slab s j) l.
Proof.
  unfold slab_bit_is_set. destruct (decide (j = i)) as [->|Hj].
  - by destruct (body_fields _ _ (cs_body _ _ _ _ _ CS)) as (_ & _ & _ & _ & _ & _ & _ & -> & _).
  - by destruct (cs_other _ _ _ _ _ CS j Hj) as [(_ & _ & _ & _ & _ & _ & _ & -> & _)%body_fields _].
Qed.

(** Setting the bit [k] adds its object, clearing it removes the object. *)
Lemma step_live_set (I : slab_inv s) k :
  slot s c i k → (∀ l, 0 ≤ l → slab_bit_is_set sl l = (k =? l) || slab_bit_is_set (get_slab s i) l) →
  ∀ d o, o ∈ live_objects s' d ↔ o ∈ live_objects s d ∨ (d = c ∧ o = object_at s i k).
Proof.
  intros Hs Hb d o. rewrite !elem_live. setoid_rewrite step_slot. setoid_rewrite step_object.
  setoid_rewrite step_bit. split.
  - intros (j & l & Hsl & Hbit & ->). destruct (decide (j = i)) as [->|Hj].
    + rewrite Hb in Hbit by (destruct Hsl as (_ & _ & ? & _); done).
      destruct (Z.eqb_spec k l) as [<-|]; [|left; by exists i, l]. right. split; [|done].
      destruct (slot_ok s I _ _ _ Hs) as (_ & _ & <- & _), (slot_ok s I _ _ _ Hsl) as (_ & _ & <- & _). done.
    + left. by exists j, l.
  - intros [(j & l & Hsl & Hbit & ->)|[-> ->]].
    + exists j, l. split; [done|]. split; [|done]. destruct (decide (j = i)) as [->|]; [|done].
      rewrite Hb, Hbit by (destruct Hsl as (_ & _ & ? & _); done). apply orb_true_r.
    + exists i, k. split; [done|]. split; [|done]. rewrite decide_True by done.
      rewrite Hb by (destruct Hs as (_ & _ & ? & _); done). by rewrite Z.eqb_refl.
Qed.

Lemma step_live_clear (I : slab_inv s) k :
  slot s c i k → (∀ l, 0 ≤ l → slab_bit_is_set sl l = negb (k =? l) && slab_bit_is_set (get_slab s i) l) →
  ∀ d o, o ∈ live_objects s' d ↔ o ∈ live_objects s d ∧ ¬ (d = c ∧ o = object_at s i k).
Proof.
  intros Hs Hb d o. rewrite !elem_live. setoid_rewrite step_slot. setoid_rewrite step_object.
  setoid_rewrite step_bit. split.
  - intros (j & l & Hsl & Hbit & ->). destruct (decide (j = i)) as [->|Hj].
    + rewrite Hb in Hbit by (destruct Hsl as (_ & _ & ? & _); done).
      apply andb_true_iff in Hbit as [Hne%negb_true_iff Hbit]. split; [by exists i, l|].
      intros [-> E]. destruct (object_at_inj s I _ _ _ _ _ _ Hsl Hs E) as [_ ->]. lia.
    + split; [by exists j, l|]. intros [-> E]. by destruct (object_at_inj s I _ _ _ _ _ _ Hsl Hs E) as [-> _].
  - intros [(j & l & Hsl & Hbit & ->) Hne]. exists j, l. split; [done|]. split; [|done].
    destruct (decide (j = i)) as [->|]; [|done]. rewrite Hb, Hbit by (destruct Hsl as (_ & _ & ? & _); done).
    destruct (Z.eqb_spec k l) as [<-|]; [|done]. exfalso. apply Hne. split; [|done].
    destruct (slot_ok s I _ _ _ Hs) as (_ & _ & <- & _), (slot_ok s I _ _ _ Hsl) as (_ & _ & <- & _). done.
Qed.
End step.

(** ** Allocation *)

(** The bytes of an object the client may use. *)
Definition in_object s (c o b : Z) : Prop := o ≤ b < o + kc_object_size (get_cache s c).

(** [s'] is [s] with the new object [o] of the cache [c]. *)
Record allocated s s' (c o : Z) : Prop := {
  al_positive : 0 < o;
  al_end : o + kc_object_size (get_cache s c) < 2 ^ 32;
  al_aligned : o mod kc_alignment (get_cache s c) = 0;
  al_live d x : x ∈ live_objects s' d ↔ x ∈ live_objects s d ∨ (d = c ∧ x = o);
  al_fresh d x b : x ∈ live_objects s d → in_object s c o b → ¬ in_object s d x b;
  al_zero b : in_object s c o b → pm_byte (pages s') b = 0;
  al_frame d x b : x ∈ live_objects s d → in_object s d x b → pm_byte (pages s') b = pm_byte (pages s) b;
  al_caches d : kc_used (get_cache s' d) = kc_used (get_cache s d) ∧
    kc_object_size (get_cache s' d) = kc_object_size (get_cache s d) ∧
    kc_alignment (get_cache s' d) = kc_alignment (get_cache s d);
  al_paging : paging_ready s' = paging_ready s
}.

(** A live object is a slot. *)
Lemma live_slot s d x :
  slab_inv s → x ∈ live_objects s d →
  ∃ j l, slot s d j l ∧ slab_bit_is_set (get_slab s j) l = true ∧ x = object_at s j l ∧
    ∀ b, in_object s d x b → x ≤ b < x + kc_object_stride (get_cache s d).
Proof.
  intros I (j & l & Hs & Hb & ->)%elem_live. exists j, l. do 3 (split; [done|]). intros b Hin.
  destruct (slot_ok s I _ _ _ Hs) as (_ & CG & _). pose proof (cg_size _ CG). unfold in_object in Hin. lia.
Qed.

Lemma take_allocated s c i :
  slab_inv s → 0 ≤ i < KMEM_SLAB_MAX → ks_used (get_slab s i) = true → ks_owner (get_slab s i) = c →
  ks_active_objects (get_slab s i) ≠ ks_object_count (get_slab s i) →
  let '(s', o) := take_object s c i in slab_inv s' ∧ allocated s s' c o.
Proof.
  intros I Hi Hu Ho Hne. rewrite take_object_steps.
  destruct (take_links_inv s c i I Hi Hu Ho Hne) as [I' CS].
  destruct (slab_has_free s i (si_slab _ _ I i Hi Hu) Hne) as (k & fl & R).
  destruct (free_rep_take _ _ _ R) as (Hh & Hk & Hbit & _ & _). rewrite Hh.
  destruct (taken_links (get_slab s i)) as (T1 & T2 & _ & T4 & T5 & _).
  set (s1 := take_links s c i) in *. clearbody s1. cbn zeta.
  destruct (step_fields s s1 c i _ CS T5 T1 T2 T4 i) as (_ & _ & -> & _).
  destruct (step_cache s s1 c i _ CS c) as (-> & -> & _).
  assert (slot s c i k) as Hs by (split; [done|split; [by apply belongs_spec|done] ]).
  destruct (slot_bounds s I _ _ _ Hs) as (B1 & B2 & B3 & B4 & B5).
  destruct (slot_ok s I _ _ _ Hs) as (SO & CG & _). pose proof (cg_size _ CG) as Hsz.
  assert (ks_memory (get_slab s i) +w (k *w kc_object_stride (get_cache s c)) = object_at s i k) as Eobj.
  { unfold object_at in *. rewrite Ho in *. destruct (so_run _ _ SO) as (_ & ? & _).
    assert (0 ≤ k * kc_object_stride (get_cache s c)) by nia.
    rewrite (u32_small (k * _)) by lia. apply u32_small. lia. }
  rewrite Eobj. set (o := object_at s i k) in *.
  assert (pages s1 = pages s) as Ep by apply (rest_fields _ _ (cs_rest _ _ _ _ _ CS)).
  assert (∀ b, o ≤ b < o + kc_object_size (get_cache s c) → pm_owned (pages s1) (b / PAGE_SIZE) = true) as Hown.
  { intros b Hb. rewrite Ep. apply (so_owned _ _ SO). apply (slot_pages s I c i k); [done|]. fold o. lia. }
  destruct (pm_memset_law (pages s1) o 0 (kc_object_size (get_cache s c)) (si_pm _ _ I') Hown) as (M1 & M2 & M3).
  split; [apply pages_inv; [done|done|]; intros p; by rewrite M2|]. split.
  - done.
  - lia.
  - by apply object_aligned.
  - apply (step_live_set s s1 c i (taken (get_slab s i))); try done. intros l Hl.
    change (slab_bit_is_set (taken (get_slab s i)) l) with
      (word_bit (set_word_bit (ks_allocation_bitmap (get_slab s i)) (ks_free_head (get_slab s i))) l).
    rewrite Hh. apply word_bit_set; [apply Hk|done].
  - intros d x b Hx Hb1 Hb2. destruct (live_slot s d x I Hx) as (j & l & Hs2 & Hbl & -> & Hb3).
    unfold in_object in Hb1. refine (slots_disjoint s I c i k d j l b Hs Hs2 _ _ (Hb3 b Hb2)); [|fold o; lia].
    destruct (decide (i = j)) as [<-|]; [|by left]. right. intros <-. congruence.
  - intros b Hb. unfold in_object in Hb. change (pm_byte (pm_memset (pages s1) o 0 (kc_object_size (get_cache s c))) b = 0).
    rewrite M3. replace ((o <=? b) && (b <? o + kc_object_size (get_cache s c))) with true by lia. done.
  - intros d x b Hx Hb2. change (pm_byte (pm_memset (pages s1) o 0 (kc_object_size (get_cache s c))) b = pm_byte (pages s) b).
    rewrite M3, Ep. destruct ((o <=? b) && (b <? o + kc_object_size (get_cache s c))) eqn:Eb; [|done]. exfalso.
    destruct (live_slot s d x I Hx) as (j & l & Hs2 & Hbl & -> & Hb3).
    refine (slots_disjoint s I c i k d j l b Hs Hs2 _ _ (Hb3 b Hb2)); [|fold o; lia].
    destruct (decide (i = j)) as [<-|]; [|by left]. right. intros <-. congruence.
  - intros d. destruct (step_cache s s1 c i _ CS d) as (_ & E1 & E2 & E3). done.
  - apply (rest_fields _ _ (cs_rest _ _ _ _ _ CS)).
Qed.

(** The same objects with the same contents, in the same caches. *)
Record same_objects s s' : Prop := {
  sm_live d x : x ∈ live_objects s' d ↔ x ∈ live_objects s d;
  sm_bytes d x b : x ∈ live_objects s d → in_object s d x b → pm_byte (pages s') b = pm_byte (pages s) b;
  sm_caches d : kc_used (get_cache s' d) = kc_used (get_cache s d) ∧
    kc_object_size (get_cache s' d) = kc_object_size (get_cache s d) ∧
    kc_alignment (get_cache s' d) = kc_alignment (get_cache s d);
  sm_paging : paging_ready s' = paging_ready s
}.

Lemma same_then_allocated s s1 s2 c o : same_objects s s1 → allocated s1 s2 c o → allocated s s2 c o.
Proof.
  intros [S1 S2 S3 S4] [A1 A2 A3 A4 A5 A6 A7 A8 A9].
  assert (∀ d x b, in_object s1 d x b ↔ in_object s d x b) as Hin
    by (intros d x b; unfold in_object; by destruct (S3 d) as (_ & -> & _)).
  destruct (S3 c) as (_ & E1 & E2). rewrite E1 in A2. rewrite E2 in A3. split; try done.
  - intros d x. by rewrite A4, S1.
  - intros d x b Hx. rewrite <-!Hin. by apply A5, S1.
  - intros b Hb. by apply A6, Hin.
  - intros d x b Hx Hb. rewrite <-(S2 d x b) by done. apply (A7 d x); [by apply S1|by apply Hin].
  - intros d. destruct (A8 d) as (-> & -> & ->). apply S3.
  - congruence.
Qed.

(** A new slab holds no object. *)
Lemma grown_same s s' c i : slab_inv s → slab_inv s' → kc_used (get_cache s c) = true → grown s s' c i → same_objects s s'.
Proof.
  intros I I' Huc G. pose proof G as [Hi Hui Hrun Hfr Hb Hst Ho Hca Hcc _ Hpm Hpg Hby _ _ _ Hpr].
  assert (∀ d, kc_used (get_cache s' d) = kc_used (get_cache s d) ∧
    kc_object_size (get_cache s' d) = kc_object_size (get_cache s d) ∧
    kc_alignment (get_cache s' d) = kc_alignment (get_cache s d) ∧
    kc_object_stride (get_cache s' d) = kc_object_stride (get_cache s d)) as Hd.
  { intros d. destruct (decide (d = c)) as [->|Hdc].
    - destruct (cfix_fields _ _ Hcc) as (-> & -> & -> & _ & _ & _ & _ & _ & -> & _). by destruct (get_cache s c).
    - by destruct (cfix_fields _ _ (Hca d Hdc)) as (-> & -> & -> & _ & _ & _ & _ & _ & -> & _). }
  destruct (body_fields _ _ Hb) as (_ & _ & _ & _ & _ & _ & _ & Hbm & _). cbn in Hbm.
  split.
  - intros d x. rewrite !elem_live.
    assert (∀ j l, j ≠ i → (slot s' d j l ↔ slot s d j l) ∧ object_at s' j l = object_at s j l ∧
      slab_bit_is_set (get_slab s' j) l = slab_bit_is_set (get_slab s j) l) as Hj.
    { intros j l Hj. destruct (Ho j Hj) as [(E1 & E2 & _ & E4 & _ & _ & E7 & E8 & _)%body_fields _].
      unfold slot, belongs, object_at, slab_bit_is_set. rewrite E1, E2, E4, E7, E8.
      destruct (Hd (ks_owner (get_slab s j))) as (_ & _ & _ & ->). done. }
    split; intros (j & l & Hs & Hbit & ->); exists j, l.
    + assert (j ≠ i) as Hji.
      { intros ->. unfold slab_bit_is_set in Hbit. rewrite Hbm, word_bit_empty in Hbit; [done|]. apply Hs. }
      destruct (Hj j l Hji) as (E1 & E2 & E3). rewrite E3 in Hbit. rewrite E2. tauto.
    + assert (j ≠ i) as Hji.
      { intros ->. destruct Hs as (_ & [? _]%belongs_spec & _). congruence. }
      destruct (Hj j l Hji) as (E1 & E2 & E3). rewrite E3, E2. tauto.
  - intros d x b Hx Hin. destruct (live_slot s d x I Hx) as (j & l & Hs & _ & -> & Hb2).
    apply Hby. destruct (slot_ok s I _ _ _ Hs) as (SO & _). apply (so_owned _ _ SO).
    eapply slot_pages; [done|exact Hs|by apply Hb2].
  - intros d. by destruct (Hd d) as (? & ? & ? & _).
  - done.
Qed.

(** Changes of error counters and of pages that are not the slabs'. *)
Lemma same_objects_ext s s' :
  slab_inv s → slab_table s' = slab_table s →
  (∀ d, cfix (get_cache s' d) = cfix (get_cache s d)) →
  (∀ b, pm_owned (pages s) (b / PAGE_SIZE) = true → pm_byte (pages s') b = pm_byte (pages s) b) →
  paging_ready s' = paging_ready s →
  same_objects s s'.
Proof.
  intros I Et Ec Eb Ep.
  assert (∀ j, get_slab s' j = get_slab s j) as G by (intros; unfold get_slab; by rewrite Et). split.
  - intros d x. rewrite !elem_live. unfold slot, belongs, object_at.
    setoid_rewrite G. apply exist_proper. intros j. apply exist_proper. intros l.
    by destruct (cfix_fields _ _ (Ec (ks_owner (get_slab s j)))) as (_ & _ & -> & _).
  - intros d x b Hx Hin. destruct (live_slot s d x I Hx) as (j & l & Hs & _ & -> & Hb2).
    apply Eb. destruct (slot_ok s I _ _ _ Hs) as (SO & _). apply (so_owned _ _ SO).
    eapply slot_pages; [done|exact Hs|by apply Hb2].
  - intros d. by destruct (cfix_fields _ _ (Ec d)) as (-> & -> & _ & _ & _ & _ & _ & _ & -> & _).
  - done.
Qed.

Lemma fail_alloc_cache s c d :
  cfix (get_cache (fail_alloc s c) d) = cfix (get_cache s d) ∧
  ∀ st, get_head (get_cache (fail_alloc s c) d) st = get_head (get_cache s d) st.
Proof.
  change (get_cache (fail_alloc s c) d) with (get_cache (upd_cache s c
    (λ kc, kc <| kc_allocation_failures ::= λ n, n +w 1 |>)) d).
  rewrite get_cache_upd. destruct (decide (c = d)) as [<-|]; [|done]. by destruct (get_cache s c).
Qed.

Lemma fail_alloc_inv s c : slab_inv s → slab_inv (fail_alloc s c) ∧ same_objects s (fail_alloc s c).
Proof.
  intros I. split.
  - eapply inv_ext; try done; [apply I|apply fail_alloc_cache|apply I].
  - apply same_objects_ext; try done. intros d. apply fail_alloc_cache.
Qed.

Lemma same_objects_trans s1 s2 s3 : same_objects s1 s2 → same_objects s2 s3 → same_objects s1 s3.
Proof.
  intros [A1 A2 A3 A4] [B1 B2 B3 B4]. split.
  - intros d x. by rewrite B1, A1.
  - intros d x b Hx Hb. rewrite (B2 d x b); [by apply (A2 d x)|by apply A1|].
    unfold in_object in *. by destruct (A3 d) as (_ & -> & _).
  - intros d. destruct (B3 d) as (-> & -> & ->). apply A3.
  - congruence.
Qed.

(** The head of a list that is not empty is a slab with a free object. *)
Lemma head_usable s c st i :
  slab_inv s → 0 ≤ c < KMEM_CACHE_MAX → kc_used (get_cache s c) = true → st = EMPTY ∨ st = PARTIAL →
  get_head (get_cache s c) st = i → i ≠ NONE →
  0 ≤ i < KMEM_SLAB_MAX ∧ ks_used (get_slab s i) = true ∧ ks_owner (get_slab s i) = c ∧
  ks_active_objects (get_slab s i) ≠ ks_object_count (get_slab s i).
Proof.
  intros I Hc Hu Hst Hh Hi. assert (0 ≤ st ≤ 2) as Hr by (destruct Hst as [-> | ->]; done).
  destruct (si_lists _ _ I c st Hc Hu Hr) as (l & Hd & _ & Hin). pose proof (dll_head _ _ _ Hd) as E.
  assert (i ∈ l) as Hil by (destruct (head_default_elem l); congruence).
  apply Hin in Hil as [(H1 & H2 & H3 & H4) _]. do 3 (split; [done|]).
  pose proof (si_slab _ _ I i H1 H2) as SO. pose proof (slab_bounds s i SO) as [_ Bc].
  rewrite (so_state _ _ SO) in H4. unfold state_of in H4. intros E'. rewrite E' in H4.
  replace (ks_object_count (get_slab s i) =? 0) with false in H4 by lia. rewrite Z.eqb_refl in H4.
  destruct Hst; subst st; done.
Qed.

(** When both lists are empty every object is in use. *)
Lemma heads_full s c :
  slab_inv s → 0 ≤ c < KMEM_CACHE_MAX → kc_used (get_cache s c) = true →
  get_head (get_cache s c) PARTIAL = NONE → get_head (get_cache s c) EMPTY = NONE →
  kc_active_objects (get_cache s c) = kc_capacity (get_cache s c).
Proof.
  intros I Hc Hu H1 H2. destruct (si_counts _ _ I c Hc Hu) as (-> & -> & _); [unfold NULL_CACHE; lia|].
  apply sum_ext. intros i Hi%elem_of_range. destruct (belongs s c i) eqn:Eb; [|done].
  apply belongs_spec in Eb as [Eu Eo]. pose proof (si_slab _ _ I i Hi Eu) as SO.
  assert (∀ st, st = EMPTY ∨ st = PARTIAL → ks_state (get_slab s i) ≠ st) as Hno.
  { intros st Hst E. destruct (si_lists _ _ I c st Hc Hu) as (l & Hd & _ & Hin);
      [destruct Hst as [-> | ->]; done|].
    assert (i ∈ l) as Hil by (apply Hin; split; [done|unfold NONE; lia]).
    pose proof (dll_head _ _ _ Hd) as Hh. destruct l as [|j l]; [by apply elem_of_nil in Hil|]. cbn in Hh.
    assert (j ≠ NONE) by (apply (Hin j); constructor). destruct Hst; subst st; congruence. }
  rewrite (so_state _ _ SO) in Hno. unfold state_of in Hno.
  destruct (Z.eqb_spec (ks_active_objects (get_slab s i)) 0); [by destruct (Hno EMPTY); [left|] |].
  destruct (Z.eqb_spec (ks_active_objects (get_slab s i)) (ks_object_count (get_slab s i))); [done|].
  by destruct (Hno PARTIAL); [right|].
Qed.

Lemma usable_passes s c i :
  slab_inv s → 0 ≤ i < KMEM_SLAB_MAX → ks_used (get_slab s i) = true →
  ks_active_objects (get_slab s i) ≠ ks_object_count (get_slab s i) →
  (if (i <? 0) || (i >=? KMEM_SLAB_MAX) then (fail_alloc s c, 0) else
   if ks_free_head (get_slab s i) >=? ks_object_count (get_slab s i) then (fail_alloc s c, 0) else
   take_object s c i) = take_object s c i.
Proof.
  intros I Hi Hu Hne. replace (i <? 0) with false by lia. replace (i >=? KMEM_SLAB_MAX) with false by lia. cbn [orb].
  destruct (slab_has_free s i (si_slab _ _ I i Hi Hu) Hne) as (k & fl & R).
  destruct (free_rep_take _ _ _ R) as (Hh & Hk & _). rewrite Hh.
  by replace (k >=? _) with false by lia.
Qed.

(** The outcomes of [kmem_cache_alloc]. *)
Inductive alloc_result s (c : Z) : slab_t M → Z → Prop :=
| alloc_refused s' :
    slab_inv s' → same_objects s s' →
    (slab_cache_registered s c = false ∨ paging_ready s = false ∨
     (kc_active_objects (get_cache s c) = kc_capacity (get_cache s c) ∧ (slab_prepare_record s c).2 ≠ OK)) →
    alloc_result s c s' 0
| alloc_given s' o :
    slab_inv s' → slab_cache_registered s c = true → allocated s s' c o → alloc_result s c s' o.

Lemma alloc_spec s c :
  slab_inv s → alloc_result s c (kmem_cache_alloc s c).1 (kmem_cache_alloc s c).2.
Proof.
  intros I. unfold kmem_cache_alloc. rewrite (si_init _ _ I). cbn [negb orb].
  destruct (slab_cache_registered s c) eqn:Er; cbn [negb]; cycle 1.
  { apply alloc_refused; [|by apply same_objects_ext|by left].
    eapply inv_ext; try done; apply I. }
  pose proof Er as [Hc Hu]%registered_spec.
  destruct (paging_ready s) eqn:Ep; cbn [negb]; cycle 1.
  { destruct (fail_alloc_inv s c I) as [? ?]. apply alloc_refused; [done..|tauto]. }
  set (i := if kc_partial_head _ =? NONE then _ else _).
  destruct (Z.eqb_spec i NONE) as [Ei|Ei].
  - assert (get_head (get_cache s c) PARTIAL = NONE ∧ get_head (get_cache s c) EMPTY = NONE) as [Hp He].
    { unfold i in Ei. change (get_head _ PARTIAL) with (kc_partial_head (get_cache s c)).
      change (get_head _ EMPTY) with (kc_empty_head (get_cache s c)).
      destruct (Z.eqb_spec (kc_partial_head (get_cache s c)) NONE); [done|congruence]. }
    destruct (slab_prepare_record s c) as [s1 r] eqn:Epr.
    destruct (prepare_spec s c s1 r I Hc Hu Epr) as (I1 & [(-> & j & G)|(Hr & m & E1 & Hown & Hby)]).
    + pose proof (grown_same s s1 c j I I1 Hu G) as Sm. cbn [is_ok negb].
      assert (kc_used (get_cache s1 c) = true) as Hu1 by (by destruct (sm_caches _ _ Sm c) as (-> & _)).
      destruct (head_usable s1 c EMPTY j I1 Hc Hu1) as (H1 & H2 & H3 & H4); [by left|apply G|pose proof (gr_index _ _ _ _ G); unfold NONE; lia|].
      rewrite (gr_head _ _ _ _ G), usable_passes by done.
      pose proof (take_allocated s1 c j I1 H1 H2 H3 H4) as Ht. destruct (take_object s1 c j) as [s2 o].
      destruct Ht as [I2 A]. apply alloc_given; [done..|]. by eapply same_then_allocated.
    + assert (negb (is_ok r) = true) as -> by (by destruct r). destruct (fail_alloc_inv s1 c I1) as [I2 Sm2].
      apply alloc_refused; [done| |].
      * eapply same_objects_trans; [|exact Sm2]. apply same_objects_ext; [done|by rewrite E1|by rewrite E1|..].
        { rewrite E1. apply Hby. } { by rewrite E1. }
      * right. right. split; [by apply heads_full|by rewrite Epr].
  - assert (0 ≤ i < KMEM_SLAB_MAX ∧ ks_used (get_slab s i) = true ∧ ks_owner (get_slab s i) = c ∧
      ks_active_objects (get_slab s i) ≠ ks_object_count (get_slab s i)) as (H1 & H2 & H3 & H4).
    { unfold i in *. destruct (Z.eqb_spec (kc_partial_head (get_cache s c)) NONE).
      - apply (head_usable s c EMPTY); auto.
      - apply (head_usable s c PARTIAL); auto. }
    cbn [is_ok negb]. rewrite usable_passes by done.
    pose proof (take_allocated s c i I H1 H2 H3 H4) as Ht. destruct (take_object s c i) as [s2 o].
    destruct Ht as [I2 A]. by apply alloc_given.
Qed.

(** ** Release *)

Lemma bad_free_cache s c d :
  (cfix (get_cache (count_bad_free s c) d) = cfix (get_cache s d) ∧
   ∀ st, get_head (get_cache (count_bad_free s c) d) st = get_head (get_cache s d) st) ∧
  (cfix (get_cache (count_double_free s c) d) = cfix (get_cache s d) ∧
   ∀ st, get_head (get_cache (count_double_free s c) d) st = get_head (get_cache s d) st).
Proof.
  change (get_cache (count_bad_free s c) d) with (get_cache (upd_cache s c
    (λ kc, kc <| kc_invalid_frees ::= λ n, n +w 1 |>)) d).
  change (get_cache (count_double_free s c) d) with (get_cache (upd_cache s c
    (λ kc, kc <| kc_double_frees ::= λ n, n +w 1 |>)) d).
  rewrite !get_cache_upd. destruct (decide (c = d)) as [<-|]; [|done]. by destruct (get_cache s c).
Qed.

Lemma bad_free_inv s c : slab_inv s → slab_inv (count_bad_free s c) ∧ slab_inv (count_double_free s c).
Proof.
  intros I. split; eapply inv_ext; try done; try apply I; intros d; apply (bad_free_cache s c d).
Qed.

(** The outcomes of [kmem_cache_free]. *)
Inductive free_result s (c o : Z) : slab_t M → Prop :=
| free_unknown :
    slab_cache_registered s c = false ∨ o = 0 →
    free_result s c o (s <| global_invalid_frees ::= λ n, n +w 1 |>)
| free_bad :
    slab_cache_registered s c = true → o ∉ live_objects s c →
    (∀ i k, slot s c i k → o = object_at s i k → ks_active_objects (get_slab s i) = 0) →
    free_result s c o (count_bad_free s c)
| free_twice i k :
    slab_cache_registered s c = true → o ∉ live_objects s c →
    slot s c i k → o = object_at s i k → 0 < ks_active_objects (get_slab s i) →
    free_result s c o (count_double_free s c)
| free_done s' :
    slab_cache_registered s c = true → o ∈ live_objects s c →
    (∀ d x, x ∈ live_objects s' d ↔ x ∈ live_objects s d ∧ ¬ (d = c ∧ x = o)) →
    pages s' = pages s → paging_ready s' = paging_ready s →
    (∀ d, kc_used (get_cache s' d) = kc_used (get_cache s d) ∧
       kc_object_size (get_cache s' d) = kc_object_size (get_cache s d) ∧
       kc_alignment (get_cache s' d) = kc_alignment (get_cache s d)) →
    free_result s c o s'.

Lemma free_spec s c o :
  slab_inv s → 0 ≤ o < 2 ^ 32 →
  slab_inv (kmem_cache_free s c o) ∧ free_result s c o (kmem_cache_free s c o).
Proof.
  intros I Ho. unfold kmem_cache_free. rewrite (si_init _ _ I). cbn [negb orb].
  destruct (negb (slab_cache_registered s c) || (o =? 0)) eqn:Eg.
  { split; [eapply inv_ext; try done; apply I|]. constructor.
    apply orb_true_iff in Eg as [E%negb_true_iff|E]; [by left|right; lia]. }
  apply orb_false_iff in Eg as [Er%negb_false_iff Eo]. pose proof Er as [Hc Hu]%registered_spec.
  pose proof (location_spec s I c o Hc Hu Ho) as Hloc. destruct (bad_free_inv s c I) as [Ib Id].
  destruct (slab_object_location s c o) as [[i k]|]; cycle 1.
  { split; [done|]. apply free_bad; [done| |].
    - intros (i & k & Hs & _ & ->)%elem_live. by destruct (Hloc i k Hs).
    - intros i k Hs E. by destruct (Hloc i k Hs). }
  destruct Hloc as [Hs ->]. destruct (slot_ok s I _ _ _ Hs) as (SO & CG & Howner & Hused & _).
  pose proof (slab_bounds s i SO) as [Ba Bc].
  assert (∀ j l, slot s c j l → object_at s i k = object_at s j l → j = i ∧ l = k) as Huniq.
  { intros j l Hs' E. by apply (object_at_inj s I c j l c i k). }
  assert (slab_bit_is_set (get_slab s i) k = false → object_at s i k ∉ live_objects s c) as Hnot.
  { intros Hb (j & l & Hs' & Hb' & E)%elem_live. destruct (Huniq j l Hs' E) as [-> ->]. congruence. }
  replace (ks_active_objects (get_slab s i) >? ks_object_count (get_slab s i)) with false by lia.
  rewrite orb_false_r. destruct (Z.eqb_spec (ks_active_objects (get_slab s i)) 0) as [E0|E0].
  { split; [done|]. apply free_bad; [done| |].
    - apply Hnot. destruct (so_free _ _ SO) as [fl R]. pose proof (fr_free _ _ R k) as Hf.
      pose proof (free_rep_active _ _ R) as [_ Ea]. rewrite E0 in Ea.
      apply not_true_iff_false. intros Hb. destruct Hs as (_ & _ & Hk).
      pose proof (count_range_run 0 k (k + 1) (ks_object_count (get_slab s i))
        (slab_bit_is_set (get_slab s i)) true ltac:(lia) ltac:(lia)) as Hr. cbn in Hr.
      assert (∀ j, k ≤ j < k + 1 → slab_bit_is_set (get_slab s i) j = true)
        by (intros j Hj; by replace j with k by lia). specialize (Hr ltac:(done)). lia.
    - intros j l Hs' E. by destruct (Huniq j l Hs' E) as [-> _]. }
  destruct (slab_bit_is_set (get_slab s i) k) eqn:Eb; cbn [negb]; cycle 1.
  { split; [done|]. apply (free_twice _ _ _ i k); try done; [by apply Hnot|lia]. }
  pose proof Hs as (Hi & _ & Hk).
  destruct (put_object_inv s c i k I Hi Hused Howner Hk Eb) as [I' CS]. split; [done|].
  destruct (given_links (get_slab s i) k) as (T1 & T2 & _ & T4 & T5 & _).
  apply free_done; [done| | | | |].
  - apply elem_live. by exists i, k.
  - apply (step_live_clear s _ c i (given (get_slab s i) k)); try done. intros l Hl.
    change (slab_bit_is_set (given (get_slab s i) k) l) with
      (word_bit (clear_word_bit (ks_allocation_bitmap (get_slab s i)) k) l).
    apply word_bit_clear; [apply Hk|done].
  - apply (rest_fields _ _ (cs_rest _ _ _ _ _ CS)).
  - apply (rest_fields _ _ (cs_rest _ _ _ _ _ CS)).
  - intros d. by destruct (step_cache s _ c i _ CS d) as (_ & -> & -> & ->).
Qed.

(** ** The number of live objects *)

Lemma live_count s c :
  slab_inv s → 0 ≤ c < KMEM_CACHE_MAX → kc_used (get_cache s c) = true →
  len (live_objects s c) = kc_active_objects (get_cache s c).
Proof.
  intros I Hc Hu. destruct (si_counts _ _ I c Hc Hu) as (-> & _); [unfold NULL_CACHE; lia|].
  unfold live_objects, owned_sum.
  assert (∀ l, (∀ i, i ∈ l → 0 ≤ i < KMEM_SLAB_MAX) →
    len (concat (map (λ i, if belongs s c i then slab_live s i else []) l))
    = sum (λ i, if belongs s c i then ks_active_objects (get_slab s i) else 0) l) as Hl.
  { induction l as [|i l IH]; intros Hl; [done|]. cbn. rewrite len_app, IH by (intros j Hj; apply Hl; by constructor).
    f_equal. destruct (belongs s c i) eqn:Eb; [|done]. apply belongs_spec in Eb as [Eu _].
    pose proof (si_slab _ _ I i (Hl i (list_elem_of_here _ _)) Eu) as SO.
    destruct (so_free _ _ SO) as [fl R]. destruct (free_rep_active _ _ R) as [_ ->].
    unfold slab_live, count_range, len. by rewrite length_map. }
  apply Hl. by intros i ?%elem_of_range.
Qed.

Lemma live_nodup s c : slab_inv s → NoDup (live_objects s c).
Proof.
  intros I. unfold live_objects. pose proof (range_NoDup 0 KMEM_SLAB_MAX) as Hn.
  assert (∀ i, i ∈ range 0 KMEM_SLAB_MAX → 0 ≤ i < KMEM_SLAB_MAX) as Hr by (by intros i ?%elem_of_range).
  induction (range 0 KMEM_SLAB_MAX) as [|i l IH]; [constructor|]. cbn. apply NoDup_cons in Hn as [Hi Hn].
  assert (∀ x j, j ∈ i :: l → x ∈ (if belongs s c j then slab_live s j else []) →
    ∃ k, slot s c j k ∧ x = object_at s j k) as Hx.
  { intros x j Hj Hx. destruct (belongs s c j) eqn:Eb; [|by apply elem_of_nil in Hx].
    apply elem_slab_live in Hx as (k & Hk & _ & ->). exists k. split; [|done]. split; [by apply Hr|done]. }
  apply NoDup_app. split; [|split].
  - destruct (belongs s c i) eqn:Eb; [|constructor]. unfold slab_live. apply NoDup_fmap_2_strong.
    + intros k k' Hk Hk' E. rewrite list_elem_of_In, filter_In, <-list_elem_of_In, elem_of_range in Hk, Hk'.
      assert (0 ≤ i < KMEM_SLAB_MAX) by (apply Hr; constructor).
      eapply (object_at_inj s I c i k c i k'); [..|exact E]; (split; [done|]); (split; [done|]); tauto.
    + apply NoDup_ListNoDup, List.NoDup_filter, NoDup_ListNoDup, range_NoDup.
  - intros x H1 H2. destruct (Hx x i) as (k & Hs1 & E1); [constructor|done|].
    rewrite list_elem_of_In, in_concat in H2. destruct H2 as (l' & H2 & H3).
    apply in_map_iff in H2 as (j & <- & Hj%list_elem_of_In). apply list_elem_of_In in H3.
    destruct (Hx x j) as (k' & Hs2 & E2); [by constructor|done|].
    destruct (object_at_inj s I c i k c j k' Hs1 Hs2) as [-> _]; [congruence|done].
  - apply IH; [done|]. intros j Hj. apply Hr. by constructor.
Qed.
End calls.
