(* ===== verification/SlabSpec.v ===== *)
(** * Creating, destroying and validating caches *)

From S2P Require Import Prelude Memory Slab SlabInv SlabSystem SlabCalls.

(** ** The numbers of a cache *)

Lemma power_of_two_spec v :
  0 ≤ v < 2 ^ 32 → slab_power_of_two v = true → ∃ k, 0 ≤ k ∧ v = 2 ^ k.
Proof.
  intros Hv. unfold slab_power_of_two. destruct (Z.eqb_spec v 0) as [|Hne]; [done|]. cbn [negb andb].
  rewrite u32_small, Z.eqb_eq by lia. intros Hl. exists (Z.log2 v). split; [apply Z.log2_nonneg|].
  destruct (Z.log2_spec v ltac:(lia)) as [H1 H2]. pose proof (Z.log2_nonneg v) as Hn.
  destruct (Z.eq_dec v (2 ^ Z.log2 v)) as [|Hx]; [done|]. exfalso.
  assert (Z.log2 (v - 1) = Z.log2 v) as El by (apply Z.log2_unique; lia).
  assert (Z.testbit (Z.land v (v - 1)) (Z.log2 v) = true) as Hb.
  { rewrite Z.land_spec, Z.bit_log2 by lia. rewrite <-El. apply Z.bit_log2.
    assert (1 < v) by (pose proof (Z.pow_pos_nonneg 2 (Z.log2 v)); lia). lia. }
  by rewrite Hl, Z.testbit_0_l in Hb.
Qed.

Lemma align_up_spec v k :
  0 ≤ v < 2 ^ 32 → 0 ≤ k ≤ 12 → v ≤ 2 ^ 32 - 2 ^ k →
  slab_align_up v (2 ^ k) = (v + 2 ^ k - 1) / 2 ^ k * 2 ^ k.
Proof.
  intros Hv Hk Hle. pose proof (Z.pow_pos_nonneg 2 k ltac:(lia) ltac:(lia)) as Hp.
  assert (2 ^ k ≤ 2 ^ 12) as Hp2 by (apply Z.pow_le_mono_r; lia).
  unfold slab_align_up. replace (2 ^ k =? 0) with false by lia.
  rewrite (u32_small (2 ^ k - 1)), (u32_small (0xFFFFFFFF - _)) by lia.
  destruct (Z.gtb_spec v (0xFFFFFFFF - (2 ^ k - 1))) as [Hg|Hg].
  - cbn [orb]. lia.
  - cbn [orb]. rewrite u32_sub_l, u32_small, land_u32_lnot by lia.
    replace (2 ^ k - 1) with (Z.ones k) by (rewrite Z.ones_equiv; lia).
    by rewrite land_lnot_ones by lia.
Qed.

(** What the accepted requests give. *)
Lemma geometry_spec name size alignment stride pages objects :
  0 ≤ size < 2 ^ 32 → 0 ≤ alignment < 2 ^ 32 →
  cache_geometry name size alignment = Some (stride, pages, objects) →
  name ≠ [] ∧ cache_geom (KmemCache (slab_copy_text KMEM_CACHE_NAME_LENGTH name) size alignment stride
    objects pages 0 0 0 0 0 0 NONE NONE NONE true).
Proof.
  intros Hs Ha. unfold cache_geometry. destruct name as [|c0 name]; [done|]. cbn [orb].
  destruct (Z.eqb_spec size 0) as [|Hs0]; [done|]. cbn [orb].
  destruct (slab_power_of_two alignment) eqn:Ep; [|done]. cbn [negb orb].
  destruct (Z.gtb_spec alignment PAGE_SIZE) as [|Hal]; [done|].
  destruct (power_of_two_spec alignment Ha Ep) as (k & Hk & ->).
  assert (k ≤ 12) as Hk12.
  { apply (Z.pow_le_mono_r_iff 2); [lia..|]. exact Hal. }
  pose proof (Z.pow_pos_nonneg 2 k ltac:(lia) Hk) as Hp.
  assert (2 ^ k ≤ 2 ^ 12) as Hp2 by (apply Z.pow_le_mono_r; lia).
  rewrite (u32_small (0xFFFFFFFF - 2 ^ k)), (u32_small (_ + 1)) by lia.
  destruct (Z.gtb_spec size (0xFFFFFFFF - 2 ^ k + 1)) as [|Hsz]; [done|].
  rewrite align_up_spec by lia. set (st := (size + 2 ^ k - 1) / 2 ^ k * 2 ^ k).
  assert (size ≤ st < size + 2 ^ k) as Hst.
  { unfold st. pose proof (Z.div_mod (size + 2 ^ k - 1) (2 ^ k) ltac:(lia)).
    pose proof (Z.mod_pos_bound (size + 2 ^ k - 1) (2 ^ k) ltac:(lia)). lia. }
  assert (st mod 2 ^ k = 0) as Hmod by (unfold st; apply Z.mod_mul; lia). clearbody st.
  unfold KMEM_SLAB_MIN_OBJECTS, KMEM_SLAB_MAX_OBJECTS, PAGE_SIZE in *.
  change (0xFFFFFFFF / 8) with 536870911. change (0xFFFFFFFF / 4096) with 1048575.
  change (0xFFFFFFFF -w (4096 -w 1)) with 4294963200.
  destruct ((st =? 0) || (st >? 536870911)) eqn:E1; [done|].
  rewrite (u32_small (st * 8)) by lia.
  destruct (Z.gtb_spec (st * 8) 4294963200) as [|E2]; [done|].
  rewrite u32_sub_l, (u32_small (st * 8 + 4096 - 1)) by lia.
  set (n := (st * 8 + 4096 - 1) / 4096).
  assert (st * 8 ≤ n * 4096 < st * 8 + 4096) as Hn by (unfold n; divlia). clearbody n.
  destruct ((n =? 0) || (n >? 1048575)) eqn:E3; [done|].
  rewrite (u32_small (n * 4096)) by lia.
  set (q := n * 4096 / st).
  assert (8 ≤ q ∧ q * st ≤ n * 4096) as [Hq1 Hq2].
  { unfold q. split; [apply Z.div_le_lower_bound; lia|].
    pose proof (Z.mul_div_le (n * 4096) st ltac:(lia)). lia. }
  clearbody q. set (o := if q >? 128 then 128 else q).
  assert (8 ≤ o ≤ 128 ∧ o ≤ q) as [Ho1 Ho2] by (unfold o; destruct (Z.gtb_spec q 128); lia). clearbody o.
  replace (o <? 8) with false by lia. intros [= <- <- <-]. split; [done|].
  split; cbn [kc_object_size kc_object_stride kc_alignment kc_objects_per_slab kc_slab_pages]; try done; try lia.
  - by exists k.
  - unfold PAGE_SIZE. nia.
Qed.

Section caches.
Context {M : Type} `{PML : PageManagerLaws M}.
Implicit Types s : slab_t M.

(** ** Dropping one slab *)

(** [s'] is [s] without the slab [i] of the cache [c]. *)
Record dropped s s' (c i : Z) : Prop := {
  dr_index : 0 ≤ i < KMEM_SLAB_MAX;
  dr_belongs : belongs s c i = true;
  dr_zero : get_slab s' i = slab_zero;
  dr_other j : j ≠ i → body (get_slab s' j) = body (get_slab s j) ∧
    ks_state (get_slab s' j) = ks_state (get_slab s j);
  dr_cache d : cbody (get_cache s' d) = cbody (get_cache s d);
  dr_pm : pm_inv (pages s');
  dr_pages p : pm_owned (pages s') p = negb (slab_pages s i p) && pm_owned (pages s) p;
  dr_bytes b : pm_owned (pages s) (b / PAGE_SIZE) = true → pm_byte (pages s') b = pm_byte (pages s) b;
  dr_caches : cache_count s' = cache_count s;
  dr_slabs : slab_count s' = slab_count s - 1;
  dr_init : slab_initialized s' = slab_initialized s;
  dr_paging : paging_ready s' = paging_ready s
}.

Lemma dropped_inv s s' c i : inv_but c s → dropped s s' c i → lists_inv s' NONE → inv_but c s'.
Proof.
  intros [I1 I2 I3 I4 I5 I6 I7 I8 I9] [Hi Hb Hz Ho Hca Hpm Hpg _ E1 E2 E3 _] HL.
  apply belongs_spec in Hb as [Hui Hoi].
  assert (∀ j, j ≠ i → ks_owner (get_slab s' j) = ks_owner (get_slab s j) ∧
    ks_used (get_slab s' j) = ks_used (get_slab s j) ∧ ks_memory (get_slab s' j) = ks_memory (get_slab s j) ∧
    ks_pages (get_slab s' j) = ks_pages (get_slab s j) ∧
    ks_object_count (get_slab s' j) = ks_object_count (get_slab s j) ∧
    ks_active_objects (get_slab s' j) = ks_active_objects (get_slab s j)) as G.
  { intros j Hj. destruct (Ho j Hj) as [(?&?&?&?&?&?&?&?&?)%body_fields _]. done. }
  assert (∀ d, cfix (get_cache s' d) = cfix (get_cache s d)) as C by (intros d; by apply cfix_cbody).
  assert (∀ j, ks_used (get_slab s' j) = true → j ≠ i) as Hji by (intros j Hj ->; by rewrite Hz in Hj).
  split; [congruence|done|done|..].
  - intros d Hd Hud. destruct (cfix_fields _ _ (C d)) as (F1&F2&F3&F4&F5&_&_&_&F9&_). rewrite F9 in Hud.
    by eapply cache_geom_ext; [..|by apply I4].
  - intros j Hj Huj. pose proof (Hji j Huj) as Hne. destruct (G j Hne) as (F1 & F2 & F3 & F4 & F5 & F6).
    rewrite F2 in Huj. destruct (I5 j Hj Huj) as [O1 O2 O3 O4 O5 O6 [fl R] O8].
    destruct (cfix_fields _ _ (C (ks_owner (get_slab s j)))) as (_&_&_&C4&C5&_&_&_&C9&_).
    destruct (Ho j Hne) as [Hbj Hsj].
    split; rewrite ?F1, ?F3, ?F4, ?F5, ?F6, ?C4, ?C5, ?C9, ?Hsj; try done.
    + intros p Hp. unfold slab_pages in Hp. rewrite F3, F4 in Hp. rewrite Hpg, (O6 p Hp), andb_true_r.
      apply negb_true_iff. by apply (I6 j i p).
    + exists fl. by eapply free_rep_body.
  - intros j k p Hj Hk Hjk Huj Huk. destruct (G j (Hji j Huj)) as (_ & F2 & F3 & F4 & _).
    destruct (G k (Hji k Huk)) as (_ & H2 & H3 & H4 & _). unfold slab_pages. rewrite F3, F4, H3, H4.
    apply (I6 j k p); congruence || done.
  - intros d Hd Hud Hx. destruct (cfix_fields _ _ (C d)) as (_&_&_&_&_&F6&F7&F8&F9&_). rewrite F9 in Hud.
    destruct (I7 d Hd Hud Hx) as (A1 & A2 & A3). rewrite F6, F7, F8, A1, A2, A3.
    assert (∀ j, belongs s' d j = belongs s d j) as Hbd.
    { intros j. unfold belongs. destruct (decide (j = i)) as [->|Hj].
      - rewrite Hz, Hui, Hoi. cbn. lia.
      - by destruct (G j Hj) as (-> & -> & _). }
    assert (∀ j, belongs s d j = true → j ≠ i) as Hbi
      by (intros j [_ Hjo]%belongs_spec ->; congruence).
    split; [|split]; symmetry; apply owned_sum_ext; intros j _; (split; [done|]); intros Hb; try done.
    + by destruct (G j (Hbi j Hb)) as (_ & _ & _ & _ & _ & ->).
    + by destruct (G j (Hbi j Hb)) as (_ & _ & _ & _ & -> & _).
  - rewrite E1, I8. apply sum_ext. intros d _. by destruct (cfix_fields _ _ (C d)) as (_&_&_&_&_&_&_&_&->&_).
  - rewrite E2, I9. rewrite (sum_update (λ j, Z.b2z (ks_used (get_slab s j)))
      (λ j, Z.b2z (ks_used (get_slab s' j))) _ i); [rewrite Hz, Hui; cbn; lia|apply range_NoDup|by apply elem_of_range|].
    intros j Hj. by destruct (G j Hj) as (_ & -> & _).
Qed.

Lemma destroy_slab_dropped s c i :
  inv_but c s → 0 ≤ c < KMEM_CACHE_MAX → kc_used (get_cache s c) = true →
  0 ≤ i < KMEM_SLAB_MAX → belongs s c i = true →
  inv_but c (destroy_slab c s i) ∧ dropped s (destroy_slab c s i) c i.
Proof.
  intros I Hc Hu Hi Hb. pose proof Hb as [Hui Ho]%belongs_spec. unfold destroy_slab.
  rewrite Hui, Ho, Z.eqb_refl. cbn [negb orb].
  pose proof (si_slab _ _ I i Hi Hui) as SO.
  destruct (remove_lists s c (ks_state (get_slab s i)) i) as [HL1 S1]; try done.
  { apply I. } { rewrite (so_state _ _ SO). apply state_of_range. }
  set (s1 := slab_list_remove s c i) in *. clearbody s1.
  destruct (rest_fields _ _ (ls_rest _ _ _ _ S1)) as (P1 & P2 & P3 & P4 & P5).
  destruct (body_fields _ _ (ls_body _ _ _ _ S1 i)) as (_ & -> & -> & _).
  destruct (pm_free_law (pages s) (ks_memory (get_slab s i)) (ks_pages (get_slab s i)) (si_pm _ _ I)
    (so_run _ _ SO) (so_owned _ _ SO)) as (F1 & F2 & F3).
  set (s2 := set slab_count _ _).
  assert (get_slab s2 i = slab_zero) as G1.
  { change (get_slab s2 i) with (get_slab (upd_slab s1 i (λ _, slab_zero)) i). rewrite get_slab_upd.
    by destruct (decide (i = i)). }
  assert (∀ j, j ≠ i → get_slab s2 j = get_slab s1 j) as G2.
  { intros j Hj. change (get_slab s2 j) with (get_slab (upd_slab s1 i (λ _, slab_zero)) j). rewrite get_slab_upd.
    destruct (decide (i = j)); [congruence|done]. }
  assert (∀ d, get_cache s2 d = get_cache s1 d) as G3 by done.
  pose proof (slab_total_bound _ _ I) as Bsl. pose proof (si_slab_count _ _ I) as Esl.
  assert (0 < slab_count s) as Hpos.
  { rewrite Esl. pose proof (sum_le_elem (λ i, Z.b2z (ks_used (get_slab s i))) (range 0 KMEM_SLAB_MAX) i) as Hle.
    cbn beta in Hle. rewrite Hui in Hle. cbn in Hle. apply Z.lt_le_trans with 1; [lia|].
    apply Hle; [intros j _; destruct (ks_used (get_slab s j)); cbn; lia|by apply elem_of_range]. }
  assert (slab_count s2 = slab_count s1 -w 1 ∧ pages s2 = pm_free (pages s) (ks_memory (get_slab s i)) (ks_pages (get_slab s i))
    ∧ cache_count s2 = cache_count s1 ∧ slab_initialized s2 = slab_initialized s1 ∧ paging_ready s2 = paging_ready s1)
    as (R1 & R2 & R3 & R4 & R5) by (split; [done|]; split; [by rewrite <-P1|done]).
  clearbody s2.
  assert (dropped s s2 c i) as D.
  { split; rewrite ?R2; try done; try congruence.
    - intros j Hj. by rewrite G2, (ls_body _ _ _ _ S1), (ls_state _ _ _ _ S1), decide_False.
    - intros d. by rewrite G3, (ls_cache _ _ _ _ S1).
    - rewrite R1, P3, u32_small; [done|]. clear -Hpos Bsl. lia. }
  split; [|done]. eapply dropped_inv; [exact I|exact D|]. eapply lists_inv_drop; [exact HL1|by rewrite G1|done..].
Qed.

(** ** Destroying a cache *)

(** Page [p] belongs to one of the first [k] slabs, of the cache [c]. *)
Definition held_below s (c k p : Z) : bool :=
  existsb (λ i, belongs s c i && slab_pages s i p) (range 0 k).

(** The loop of [kmem_cache_destroy] after [k] iterations. *)
Record destroying s0 (c k : Z) s : Prop := {
  de_inv : inv_but c s;
  de_gone i : 0 ≤ i < k → belongs s0 c i = true → ks_used (get_slab s i) = false;
  de_kept i : belongs s0 c i = false ∨ k ≤ i →
    body (get_slab s i) = body (get_slab s0 i) ∧ ks_state (get_slab s i) = ks_state (get_slab s0 i);
  de_cache d : cbody (get_cache s d) = cbody (get_cache s0 d);
  de_pages p : pm_owned (pages s) p = negb (held_below s0 c k p) && pm_owned (pages s0) p;
  de_bytes b : pm_owned (pages s) (b / PAGE_SIZE) = true → pm_byte (pages s) b = pm_byte (pages s0) b;
  de_caches : cache_count s = cache_count s0;
  de_paging : paging_ready s = paging_ready s0
}.

Lemma held_below_snoc s c k p :
  0 ≤ k → held_below s c (k + 1) p = held_below s c k p || (belongs s c k && slab_pages s k p).
Proof. intros. unfold held_below. rewrite range_snoc, existsb_app by lia. cbn. by rewrite orb_false_r. Qed.

Lemma destroy_step s0 c k s :
  0 ≤ c < KMEM_CACHE_MAX → kc_used (get_cache s0 c) = true → 0 ≤ k < KMEM_SLAB_MAX →
  destroying s0 c k s → destroying s0 c (k + 1) (destroy_slab c s k).
Proof.
  intros Hc Hu Hk [D1 D2 D3 D4 D5 D6 D7 D8].
  destruct (D3 k) as [Bk Sk]; [right; lia|].
  assert (belongs s c k = belongs s0 c k) as Ebk by (by apply belongs_body).
  destruct (belongs s c k) eqn:Eb.
  - assert (kc_used (get_cache s c) = true) as Hus by (by rewrite (used_cbody _ _ (D4 c))).
    destruct (destroy_slab_dropped s c k D1 Hc Hus Hk Eb) as [I' [_ _ X1 X2 X3 X4 X5 X6 X7 _ _ X8] ].
    assert (∀ p, slab_pages s k p = slab_pages s0 k p) as Esp.
    { intros p. unfold slab_pages. by destruct (body_fields _ _ Bk) as (_ & -> & -> & _). }
    split; [done| | | | | |congruence|congruence].
    + intros i Hi Hbi. destruct (decide (i = k)) as [->|Hne]; [by rewrite X1|].
      destruct (X2 i Hne) as [(_ & _ & _ & _ & _ & _ & -> & _)%body_fields _]. apply D2; [lia|done].
    + intros i Hi. assert (i ≠ k) as Hne by (intros ->; destruct Hi as [Hi|]; [congruence|lia]).
      destruct (X2 i Hne) as [-> ->]. apply D3. destruct Hi; [by left|right; lia].
    + intros d. by rewrite X3.
    + intros p. rewrite X5, D5, Esp, held_below_snoc, <-Ebk, negb_orb by lia. cbn [andb].
      rewrite andb_assoc. f_equal. apply andb_comm.
    + intros b Hb. rewrite X5 in Hb. apply andb_true_iff in Hb as [_ Hb]. rewrite X6 by done. by apply D6.
  - assert (destroy_slab c s k = s) as ->.
    { unfold destroy_slab. unfold belongs in Eb. apply andb_false_iff in Eb as [-> | ->]; [done|].
      by rewrite orb_true_r. }
    split; try done.
    + intros i Hi Hbi. destruct (decide (i = k)) as [->|Hne]; [congruence|]. apply D2; [lia|done].
    + intros i Hi. apply D3. destruct Hi; [by left|right; lia].
    + intros p. rewrite D5, held_below_snoc, <-Ebk by lia. cbn [andb]. by rewrite orb_false_r.
Qed.

Lemma destroy_loop s c :
  slab_inv s → 0 ≤ c < KMEM_CACHE_MAX → kc_used (get_cache s c) = true →
  destroying s c KMEM_SLAB_MAX (foldl (destroy_slab c) s (range 0 KMEM_SLAB_MAX)).
Proof.
  intros I Hc Hu. apply (foldl_range_ind (destroying s c)); [done| |].
  - split; try done; [|intros; lia].
    destruct I as [I1 I2 I3 I4 I5 I6 I7 I8 I9]. split; try done. intros d Hd Hud Hx.
    apply I7; [done|done|unfold NULL_CACHE; lia].
  - intros k s' Hk. by apply destroy_step.
Qed.

(** [s'] is [s] without the cache [c] and its slabs. *)
Record destroyed s s' (c : Z) : Prop := {
  ds_gone : kc_used (get_cache s' c) = false;
  ds_live d x : d ≠ c → x ∈ live_objects s' d ↔ x ∈ live_objects s d;
  ds_bytes d x b : d ≠ c → x ∈ live_objects s d → in_object s d x b →
    pm_byte (pages s') b = pm_byte (pages s) b;
  ds_caches d : d ≠ c → kc_used (get_cache s' d) = kc_used (get_cache s d) ∧
    kc_object_size (get_cache s' d) = kc_object_size (get_cache s d) ∧
    kc_alignment (get_cache s' d) = kc_alignment (get_cache s d);
  ds_pages p : pm_owned (pages s') p = negb (held_below s c KMEM_SLAB_MAX p) && pm_owned (pages s) p;
  ds_paging : paging_ready s' = paging_ready s
}.

Lemma held_below_spec s c k p :
  held_below s c k p = true ↔ ∃ i, 0 ≤ i < k ∧ belongs s c i = true ∧ slab_pages s i p = true.
Proof.
  unfold held_below. rewrite existsb_exists. split.
  - intros (i & Hi%list_elem_of_In%elem_of_range & [? ?]%andb_true_iff). by exists i.
  - intros (i & Hi & H1 & H2). exists i. split; [by apply list_elem_of_In, elem_of_range|by rewrite H1, H2].
Qed.

(** The slabs of other caches, before and after. *)
Lemma destroying_other s0 c s d j l :
  slab_inv s0 → destroying s0 c KMEM_SLAB_MAX s → d ≠ c →
  (slot s d j l ↔ slot s0 d j l) ∧
  (slot s0 d j l → object_at s j l = object_at s0 j l ∧
     slab_bit_is_set (get_slab s j) l = slab_bit_is_set (get_slab s0 j) l).
Proof.
  intros I [D1 D2 D3 D4 _ _ _ _] Hd. destruct (belongs s0 c j) eqn:Eb.
  - assert (¬ slot s0 d j l) as H0.
    { intros (_ & [_ E1]%belongs_spec & _). apply belongs_spec in Eb as [_ E2]. congruence. }
    split; [|done]. split; [|done]. intros (Hj & [Hu _]%belongs_spec & _). exfalso.
    rewrite D2 in Hu; done.
  - destruct (D3 j (or_introl Eb)) as [(E1 & E2 & _ & E4 & _ & _ & E7 & E8 & _)%body_fields _].
    unfold slot, belongs, object_at, slab_bit_is_set. rewrite E1, E2, E4, E7, E8.
    destruct (cfix_fields _ _ (cfix_cbody _ _ (D4 (ks_owner (get_slab s0 j))))) as (_ & _ & -> & _). done.
Qed.

Lemma get_cache_count s f d : get_cache (s <| cache_count ::= f |>) d = get_cache s d.
Proof. done. Qed.

(** Forgetting a cache that has no slab left. *)
Lemma forget_inv s c :
  inv_but c s → 0 ≤ c < KMEM_CACHE_MAX → kc_used (get_cache s c) = true →
  (∀ i, 0 ≤ i < KMEM_SLAB_MAX → belongs s c i = false) →
  slab_inv ((upd_cache s c (λ _, cache_zero)) <| cache_count ::= λ n, n -w 1 |>).
Proof.
  intros [I1 I2 I3 I4 I5 I6 I7 I8 I9] Hc Hu Hno. set (s' := set cache_count _ _).
  assert (∀ d, get_cache s' d = if decide (c = d) then cache_zero else get_cache s d) as C.
  { intros d. unfold s'. rewrite get_cache_count. apply get_cache_upd. }
  assert (∀ i, get_slab s' i = get_slab s i) as G by done.
  assert (pages s' = pages s ∧ slab_initialized s' = slab_initialized s ∧ slab_count s' = slab_count s ∧
    cache_count s' = cache_count s -w 1) as (P1 & P2 & P3 & P4) by done. clearbody s'.
  assert (∀ d, kc_used (get_cache s' d) = true → d ≠ c) as Hdc.
  { intros d Hd ->. rewrite C in Hd. by destruct (decide (c = c)). }
  assert (∀ d, d ≠ c → get_cache s' d = get_cache s d) as C' by (intros d Hd; rewrite C; by rewrite decide_False).
  assert (∀ d f, owned_sum s' d f = owned_sum s d f) as Hsum
    by (intros d f; apply owned_sum_ext; intros i _; unfold belongs; by rewrite G).
  split; [congruence| |congruence|..].
  - intros d st Hd Hud Hst. rewrite C' in * by (by apply Hdc).
    destruct (I2 d st Hd Hud Hst) as (l & Hdl & Hn & Hin). exists l.
    split; [eapply dll_ext; [|exact Hdl]; intros; by rewrite G|]. split; [done|].
    intros i. unfold member in *. rewrite G. apply Hin.
  - intros d Hd Hud. rewrite C' in * by (by apply Hdc). by apply I4.
  - intros i Hi Hui. rewrite G in Hui. destruct (I5 i Hi Hui) as [O1 O2 O3 O4 O5 O6 O7 O8].
    assert (ks_owner (get_slab s i) ≠ c) as Hne.
    { intros E. pose proof (Hno i Hi) as Hb. unfold belongs in Hb. rewrite Hui, E, Z.eqb_refl in Hb. done. }
    split; unfold slab_pages in *; rewrite ?G, ?C', ?P1; done.
  - intros i j p. unfold slab_pages. rewrite !G. apply I6.
  - intros d Hd Hud _. pose proof (Hdc d Hud) as Hne. rewrite C' in * by done. rewrite !Hsum. by apply I7.
  - rewrite P4, I8.
    pose proof (sum_update (λ d, Z.b2z (kc_used (get_cache s d))) (λ d, Z.b2z (kc_used (get_cache s' d)))
      (range 0 KMEM_CACHE_MAX) c (range_NoDup _ _) ltac:(by apply elem_of_range)) as Hs.
    cbn beta in Hs. rewrite Hs by (intros d Hd; by rewrite C').
    assert (kc_used (get_cache s' c) = false) as -> by (rewrite C; by destruct (decide (c = c))).
    rewrite Hu. pose proof (sum_bound (λ d, Z.b2z (kc_used (get_cache s d))) (range 0 KMEM_CACHE_MAX) 1) as B.
    pose proof (sum_le_elem (λ d, Z.b2z (kc_used (get_cache s d))) (range 0 KMEM_CACHE_MAX) c) as B2.
    assert (∀ d, 0 ≤ Z.b2z (kc_used (get_cache s d)) ≤ 1) as B0 by (intros d; by destruct (kc_used (get_cache s d))).
    specialize (B (λ d _, B0 d)). rewrite length_range in B. cbn beta in B2. rewrite Hu in B2.
    specialize (B2 (λ d _, proj1 (B0 d)) ltac:(by apply elem_of_range)).
    change (Z.of_nat (Z.to_nat (KMEM_CACHE_MAX - 0))) with 16 in B.
    change (Z.b2z true) with 1 in *. change (Z.b2z false) with 0. clear -B B2.
    set (n := sum _ _) in *. clearbody n. rewrite u32_small; lia.
  - rewrite P3, I9. apply sum_ext. intros j _. by rewrite G.
Qed.

Lemma destroy_accepted s c s1 :
  slab_initialized s = true → slab_cache_registered s c = true → kc_active_objects (get_cache s c) = 0 →
  foldl (destroy_slab c) s (range 0 KMEM_SLAB_MAX) = s1 →
  kmem_cache_destroy s c = ((upd_cache s1 c (λ _, cache_zero)) <| cache_count ::= λ n, n -w 1 |>, OK).
Proof. intros H1 H2 H3 <-. unfold kmem_cache_destroy. by rewrite H1, H2, H3. Qed.

Lemma destroy_spec s c :
  slab_inv s → slab_cache_registered s c = true → kc_active_objects (get_cache s c) = 0 →
  ∃ s', kmem_cache_destroy s c = (s', OK) ∧ slab_inv s' ∧ destroyed s s' c.
Proof.
  intros I Hr Ha. pose proof Hr as [Hc Hu]%registered_spec.
  pose proof (destroy_loop s c I Hc Hu) as D. remember (foldl (destroy_slab c) s (range 0 KMEM_SLAB_MAX)) as s1 eqn:E1.
  rewrite (destroy_accepted s c s1 (si_init _ _ I) Hr Ha (eq_sym E1)). clear E1.
  set (s' := set cache_count _ _). exists s'. split; [done|].
  assert (∀ i, 0 ≤ i < KMEM_SLAB_MAX → belongs s1 c i = false) as Hno.
  { intros i Hi. destruct (belongs s c i) eqn:Eb.
    - unfold belongs. by rewrite (de_gone _ _ _ _ D i Hi Eb).
    - rewrite <-Eb. apply belongs_body. apply (de_kept _ _ _ _ D). by left. }
  assert (slab_inv s') as I'.
  { apply forget_inv; [apply D|done| |done]. by rewrite (used_cbody _ _ (de_cache _ _ _ _ D c)). }
  split; [done|].
  assert (∀ d, get_cache s' d = if decide (c = d) then cache_zero else get_cache s1 d) as C.
  { intros d. unfold s'. rewrite get_cache_count. apply get_cache_upd. }
  assert (∀ d x, d ≠ c → x ∈ live_objects s' d ↔ x ∈ live_objects s d) as HL.
  { intros d x Hd. rewrite !elem_live. apply exist_proper. intros j. apply exist_proper. intros l.
    change (slot s' d j l) with (slot s1 d j l). change (get_slab s' j) with (get_slab s1 j).
    destruct (destroying_other s c s1 d j l I D Hd) as [E1 E2]. rewrite E1.
    split; intros (Hs & Hb & ->); destruct (E2 Hs) as [E3 E4]; (split; [done|]).
    - rewrite E4 in Hb. split; [done|]. rewrite <-E3. apply E1 in Hs. destruct Hs as (_ & [_ Ho]%belongs_spec & _).
      unfold object_at. change (get_slab s' j) with (get_slab s1 j). rewrite C, Ho. by rewrite decide_False by congruence.
    - rewrite E4. split; [done|]. rewrite <-E3. apply E1 in Hs. destruct Hs as (_ & [_ Ho]%belongs_spec & _).
      unfold object_at. change (get_slab s' j) with (get_slab s1 j). rewrite C, Ho. by rewrite decide_False by congruence. }
  split.
  - rewrite C. by destruct (decide (c = c)).
  - done.
  - intros d x b Hd Hx Hin. change (pages s') with (pages s1). apply (de_bytes _ _ _ _ D).
    destruct (live_slot s d x I Hx) as (j & l & Hs & _ & -> & Hb2).
    pose proof (slot_pages s I d j l b Hs (Hb2 b Hin)) as Hp.
    destruct (slot_ok s I _ _ _ Hs) as (SO & _ & Ho & Hu' & _).
    rewrite (de_pages _ _ _ _ D), (so_owned _ _ SO _ Hp), andb_true_r. apply negb_true_iff, not_true_iff_false.
    intros (i & Hi & [Hbu Hbo]%belongs_spec & Hpi)%held_below_spec.
    rewrite (si_disjoint _ _ I i j _ Hi ltac:(apply Hs) ltac:(congruence) Hbu Hu' Hpi) in Hp. done.
  - intros d Hd. rewrite C, decide_False by congruence.
    by destruct (cfix_fields _ _ (cfix_cbody _ _ (de_cache _ _ _ _ D d))) as (-> & -> & _ & _ & _ & _ & _ & _ & -> & _).
  - apply (de_pages _ _ _ _ D).
  - apply (de_paging _ _ _ _ D).
Qed.

(** ** Creating a cache *)

Lemma find_cache_slot s :
  let c := slab_find_cache_slot s in
  c < 0 ∨ (0 ≤ c < KMEM_CACHE_MAX ∧ kc_used (get_cache s c) = false).
Proof.
  unfold slab_find_cache_slot. destruct (List.find _ _) as [i|] eqn:E; cbn.
  - apply find_range_Some in E as (Hi & Hu & _). right. split; [done|]. by apply negb_true_iff.
  - left. done.
Qed.

(** [s'] is [s] with the new cache [c]. *)
Record created s s' (c : Z) (name : list Z) (size alignment : Z) : Prop := {
  cr_index : 0 ≤ c < KMEM_CACHE_MAX;
  cr_unused : kc_used (get_cache s c) = false;
  cr_used : kc_used (get_cache s' c) = true;
  cr_name : kc_name (get_cache s' c) = slab_copy_text KMEM_CACHE_NAME_LENGTH name;
  cr_size : kc_object_size (get_cache s' c) = size;
  cr_alignment : kc_alignment (get_cache s' c) = alignment;
  cr_empty : live_objects s' c = [];
  cr_caches d : d ≠ c → get_cache s' d = get_cache s d;
  cr_slabs : slab_table s' = slab_table s;
  cr_pages : pages s' = pages s;
  cr_paging : paging_ready s' = paging_ready s
}.

Lemma add_cache_inv s c kc :
  slab_inv s → 0 ≤ c < KMEM_CACHE_MAX → kc_used (get_cache s c) = false → cache_geom kc → kc_used kc = true →
  (∀ st, get_head kc st = NONE) → kc_active_objects kc = 0 → kc_capacity kc = 0 → kc_slab_count kc = 0 →
  slab_inv ((upd_cache s c (λ _, kc)) <| cache_count ::= λ n, n +w 1 |>).
Proof.
  intros [I1 I2 I3 I4 I5 I6 I7 I8 I9] Hc Hu Hg Hku Hh K1 K2 K3. set (s' := set cache_count _ _).
  assert (∀ d, get_cache s' d = if decide (c = d) then kc else get_cache s d) as C.
  { intros d. unfold s'. rewrite get_cache_count. apply get_cache_upd. }
  assert (∀ i, get_slab s' i = get_slab s i) as G by done.
  assert (pages s' = pages s ∧ slab_initialized s' = slab_initialized s ∧ slab_count s' = slab_count s ∧
    cache_count s' = cache_count s +w 1) as (P1 & P2 & P3 & P4) by done. clearbody s'.
  assert (∀ i, 0 ≤ i < KMEM_SLAB_MAX → belongs s c i = false) as Hno.
  { intros i Hi. apply not_true_iff_false. intros [Hui Ho]%belongs_spec.
    pose proof (so_used _ _ (I5 i Hi Hui)). congruence. }
  assert (∀ d f, owned_sum s' d f = owned_sum s d f) as Hsum
    by (intros d f; apply owned_sum_ext; intros i _; unfold belongs; by rewrite G).
  split; [congruence| |congruence|..].
  - eapply lists_inv_create; [exact I2|exact G|exact C|exact Hh|].
    intros st i (Hi & Hui & Ho & _). pose proof (Hno i Hi) as Hb. unfold belongs in Hb.
    rewrite Hui, Ho, Z.eqb_refl in Hb. done.
  - intros d Hd Hud. rewrite C in *. destruct (decide (c = d)); [done|by apply I4].
  - intros i Hi Hui. rewrite G in Hui. destruct (I5 i Hi Hui) as [O1 O2 O3 O4 O5 O6 O7 O8].
    assert (c ≠ ks_owner (get_slab s i)) as Hne by congruence.
    split; unfold slab_pages in *; rewrite ?G, ?P1; try done; rewrite C, decide_False by done; done.
  - intros i j p. unfold slab_pages. rewrite !G. apply I6.
  - intros d Hd Hud Hx. rewrite C in *. destruct (decide (c = d)) as [<-|].
    + rewrite K1, K2, K3, !Hsum.
      assert (∀ f, owned_sum s c f = 0) as Hz.
      { intros f. unfold owned_sum. rewrite (sum_ext _ (λ _, 0)).
        - clear. by induction (range 0 KMEM_SLAB_MAX).
        - intros i Hi%elem_of_range. by rewrite Hno. }
      by rewrite !Hz.
    + rewrite !Hsum. by apply I7.
  - rewrite P4, I8.
    pose proof (sum_update (λ d, Z.b2z (kc_used (get_cache s d))) (λ d, Z.b2z (kc_used (get_cache s' d)))
      (range 0 KMEM_CACHE_MAX) c (range_NoDup _ _) ltac:(by apply elem_of_range)) as Hs.
    cbn beta in Hs. rewrite Hs by (intros d Hd; rewrite C; by rewrite decide_False by congruence).
    assert (kc_used (get_cache s' c) = true) as -> by (rewrite C; by destruct (decide (c = c))).
    rewrite Hu. pose proof (sum_bound (λ d, Z.b2z (kc_used (get_cache s d))) (range 0 KMEM_CACHE_MAX) 1) as B.
    rewrite length_range in B. specialize (B (λ d _, ltac:(cbn beta; destruct (kc_used (get_cache s d)); cbn; lia))).
    change (Z.of_nat (Z.to_nat (KMEM_CACHE_MAX - 0))) with 16 in B.
    change (Z.b2z true) with 1 in *. change (Z.b2z false) with 0. clear -B.
    set (n := sum _ _) in *. clearbody n. rewrite u32_small; lia.
  - rewrite P3, I9. apply sum_ext. intros j _. by rewrite G.
Qed.

Lemma create_spec s name size alignment :
  slab_inv s → 0 ≤ size < 2 ^ 32 → 0 ≤ alignment < 2 ^ 32 →
  let '(s', c) := kmem_cache_create s name size alignment in
  slab_inv s' ∧ ((c = NULL_CACHE ∧ s' = s) ∨ created s s' c name size alignment).
Proof.
  intros I Hs Ha. unfold kmem_cache_create. rewrite (si_init _ _ I). cbn [negb].
  destruct (cache_geometry name size alignment) as [ [ [stride n] objects]|] eqn:Eg; [|by split; [|left] ].
  destruct (geometry_spec _ _ _ _ _ _ Hs Ha Eg) as [_ CG].
  pose proof (find_cache_slot s) as Hslot. set (c := slab_find_cache_slot s) in *. clearbody c.
  destruct ((c <? 0) || (cache_count s >=? KMEM_CACHE_MAX)) eqn:Ec; [by split; [|left]|].
  destruct Hslot as [Hneg|[Hc Hu] ]; [lia|].
  destruct (existsb _ _); [by split; [|left]|].
  set (kc := KmemCache _ _ _ _ _ _ _ _ _ _ _ _ _ _ _ _) in *.
  assert (slab_inv ((upd_cache s c (λ _, kc)) <| cache_count ::= λ n, n +w 1 |>)) as I'.
  { apply add_cache_inv; try done. intros st. unfold get_head. by destruct (st =? FULL), (st =? PARTIAL). }
  split; [exact I'|]. right. set (s' := set cache_count _ _) in *.
  assert (∀ d, get_cache s' d = if decide (c = d) then kc else get_cache s d) as C.
  { intros d. unfold s'. rewrite get_cache_count. apply get_cache_upd. }
  assert (get_cache s' c = kc) as Ck by (rewrite C; by destruct (decide (c = c))).
  assert (slab_table s' = slab_table s ∧ pages s' = pages s ∧ paging_ready s' = paging_ready s) as (P1 & P2 & P3) by done.
  clearbody s'. split; rewrite ?Ck; try done.
  - assert (len (live_objects s' c) = 0) as Hl.
    { rewrite live_count; [by rewrite Ck|done|done|by rewrite Ck]. }
    destruct (live_objects s' c); [done|]. rewrite len_cons in Hl. pose proof (len_nonneg l). lia.
  - intros d Hd. rewrite C. by rewrite decide_False by congruence.
Qed.
End caches.
