(* ===== verification/SlabValidate.v ===== *)
(** * [kmem_cache_validate] accepts every consistent state *)

From S2P Require Import Prelude Memory Slab SlabInv SlabSystem.

(** ** Sums *)

Lemma sum_indicator p l : sum (λ i, if (p i : bool) then 1 else 0) l = len (List.filter p l).
Proof.
  induction l as [|i l IH]; [done|]. cbn. rewrite IH. destruct (p i); [by rewrite len_cons|done].
Qed.

Lemma sum_zero l : sum (λ _, 0) l = 0.
Proof. by induction l. Qed.

Lemma sum_add f g l : sum (λ i, f i + g i) l = sum f l + sum g l.
Proof. induction l as [|i l IH]; cbn; lia. Qed.

Lemma sum_exchange (f : Z → Z → Z) A B :
  sum (λ d, sum (f d) B) A = sum (λ i, sum (λ d, f d i) A) B.
Proof.
  induction A as [|d A IH]; cbn; [by rewrite sum_zero|]. rewrite IH. symmetry. apply sum_add.
Qed.

(** Only one index of the range counts. *)
Lemma sum_single f l x v : NoDup l → x ∈ l → f x = v → (∀ y, y ∈ l → y ≠ x → f y = 0) → sum f l = v.
Proof.
  intros Hn Hx Hv H0. apply list_elem_of_split in Hx as (l1 & l2 & ->).
  assert (l1 ++ x :: l2 ≡ₚ x :: l1 ++ l2) as Hp by (by rewrite <-Permutation_middle).
  rewrite (sum_perm _ _ _ Hp). rewrite Hp in Hn. apply NoDup_cons in Hn as [Hx _]. cbn.
  rewrite (sum_ext f (λ _, 0)), sum_zero; [lia|]. intros y Hy. apply H0; [rewrite Hp; by constructor|congruence].
Qed.

(** The number of elements of a list without repetition. *)
Lemma len_indicator l p lo hi :
  NoDup l → (∀ i, i ∈ l ↔ lo ≤ i < hi ∧ p i = true) → len l = sum (λ i, if p i then 1 else 0) (range lo hi).
Proof.
  intros Hn Hin. rewrite sum_indicator. unfold len. f_equal. apply Permutation_length, NoDup_Permutation; [done|..].
  - apply NoDup_ListNoDup, List.NoDup_filter, NoDup_ListNoDup, range_NoDup.
  - intros i. by rewrite Hin, list_elem_of_In, filter_In, <-list_elem_of_In, elem_of_range.
Qed.

(** ** One slab *)

Lemma walk_spec sl fuel h l cnt seen :
  chain (ks_free_next sl) h l → NoDup l →
  (∀ x, x ∈ l → 0 ≤ x < ks_object_count sl ∧ slab_bit_is_set sl x = false ∧ word_bit seen x = false) →
  0 ≤ cnt → cnt + len l ≤ ks_object_count sl ≤ 128 → (length l < fuel)%nat →
  ∃ seen', free_walk fuel sl h cnt seen = Some (KMEM_SLAB_MAX_OBJECTS, cnt + len l, seen') ∧
    ∀ i, 0 ≤ i → word_bit seen' i = bool_decide (i ∈ l) || word_bit seen i.
Proof.
  revert h l cnt seen. induction fuel as [|fuel IH]; intros h l cnt seen Hc Hn Hl Hcnt Hle Hf; [lia|].
  destruct l as [|x l]; cbn [chain] in Hc; cbn [free_walk].
  { rewrite Hc, Z.eqb_refl. exists seen. split; [do 3 f_equal; change (len []) with 0; lia|]. intros i _. done. }
  destruct Hc as [-> Hc]. apply NoDup_cons in Hn as [Hx Hn]. rewrite len_cons in *. pose proof (len_nonneg l).
  destruct (Hl x ltac:(constructor)) as (Hr & Hb & Hs).
  unfold KMEM_SLAB_MAX_OBJECTS at 1. replace (x =? 128) with false by lia. cbn [negb andb].
  replace (cnt <=? ks_object_count sl) with true by lia. replace (x >=? ks_object_count sl) with false by lia.
  rewrite Hb, Hs. cbn [orb]. rewrite u32_small by lia.
  destruct (IH (aget (ks_free_next sl) x) l (cnt + 1) (set_word_bit seen x)) as (seen' & E & Hbits); try done; try lia.
  { intros y Hy. destruct (Hl y ltac:(by constructor)) as (Hr' & Hb' & Hs'). split; [done|]. split; [done|].
    rewrite word_bit_set, Hs', orb_false_r by lia. destruct (Z.eqb_spec x y); [congruence|done]. }
  { cbn in Hf. lia. }
  exists seen'. split; [rewrite E; do 3 f_equal; lia|]. intros i Hi. rewrite Hbits, word_bit_set by lia.
  rewrite orb_assoc. f_equal. apply eq_true_iff_eq.
  rewrite orb_true_iff, !bool_decide_eq_true, elem_of_cons, Z.eqb_eq. split; intros [?|?]; auto.
Qed.

Lemma active_fold sl :
  0 ≤ ks_object_count sl ≤ 128 →
  foldl (λ active index, if slab_bit_is_set sl index then active +w 1 else active) 0 (range 0 (ks_object_count sl))
  = count_range 0 (ks_object_count sl) (slab_bit_is_set sl).
Proof.
  intros Hc. apply (foldl_range_ind (λ k a, a = count_range 0 k (slab_bit_is_set sl))); [lia|done|].
  intros k a Hk ->. rewrite count_range_snoc by lia. pose proof (count_range_bounds 0 k (slab_bit_is_set sl)).
  destruct (slab_bit_is_set sl k); [apply u32_small|]; lia.
Qed.

Lemma validate_slab_ok sl fl :
  free_rep sl fl → ks_used sl = true → ks_owner sl ≠ NULL_CACHE → ks_memory sl ≠ 0 → ks_pages sl ≠ 0 →
  ks_state sl = state_of (ks_active_objects sl) (ks_object_count sl) →
  slab_validate_slab sl = true.
Proof.
  intros R Hu Ho Hm Hp Hst. pose proof (free_rep_active sl fl R) as [Ha Ec]. destruct R as [H1 H2 H3 H4 H5].
  unfold KMEM_SLAB_MIN_OBJECTS, KMEM_SLAB_MAX_OBJECTS in H5. pose proof (len_nonneg fl).
  unfold slab_validate_slab. rewrite Hu. unfold KMEM_SLAB_MIN_OBJECTS, KMEM_SLAB_MAX_OBJECTS at 1.
  replace (ks_owner sl =? NULL_CACHE) with false by lia. replace (ks_memory sl =? 0) with false by lia.
  replace (ks_pages sl =? 0) with false by lia. replace (ks_object_count sl <? 8) with false by lia.
  replace (ks_object_count sl >? 128) with false by lia. cbn [negb orb].
  rewrite active_fold, <-Ec by lia.
  destruct (walk_spec sl (Z.to_nat (ks_object_count sl + 2)) (ks_free_head sl) fl 0 ∅ H2 H1) as (seen & -> & Hb).
  { intros x [Hx Hbx]%H3. split; [done|]. split; [done|]. apply word_bit_empty. lia. }
  { done. } { unfold len in *. lia. } { unfold len in *. lia. }
  rewrite Z.add_0_l, Z.eqb_refl, u32_small by lia.
  replace (ks_active_objects sl + len fl =? ks_object_count sl) with true by lia. rewrite Z.eqb_refl. cbn [negb orb].
  assert (all_range 0 (ks_object_count sl) (λ i, slab_bit_is_set sl i || word_bit seen i) = true) as ->.
  { apply all_range_spec. intros i Hi. destruct (slab_bit_is_set sl i) eqn:Eb; [done|]. cbn.
    rewrite Hb, bool_decide_true by (lia || by apply H3). done. }
  cbn [negb]. rewrite Hst. unfold state_of. clear Hb.
  destruct (Z.eqb_spec (ks_active_objects sl) 0) as [->|Hn0].
  - replace (0 =? ks_object_count sl) with false by lia. done.
  - destruct (Z.eqb_spec (ks_active_objects sl) (ks_object_count sl)) as [->|Hne]; cbn.
    + replace (ks_object_count sl <? ks_object_count sl) with false by lia. by rewrite andb_false_r.
    + by rewrite andb_false_r.
Qed.

Section validate.
Context {M : Type} `{PML : PageManagerLaws M}.
Implicit Types s : slab_t M.

(** ** The lists of a cache *)

Lemma list_walk_spec s c st fuel p h l cnt :
  ∀ q, seg (get_slab s) p h l q NONE → (∀ i, i ∈ l → member s c st i) →
  0 ≤ cnt → cnt + len l ≤ 128 → (length l < fuel)%nat →
  list_walk fuel s c h st p cnt = Some (NONE, cnt + len l).
Proof.
  revert p h l cnt. induction fuel as [|fuel IH]; intros p h l cnt q Hs Hm Hc Hle Hf; [lia|].
  destruct l as [|x l]; cbn [seg] in Hs; cbn [list_walk].
  { destruct Hs as [-> _]. rewrite Z.eqb_refl. cbn. do 2 f_equal. change (len []) with 0. lia. }
  destruct Hs as (-> & Hp & Hs). rewrite len_cons in *. pose proof (len_nonneg l).
  destruct (Hm x ltac:(constructor)) as (Hx & Hu & Ho & Hst). unfold KMEM_SLAB_MAX in *.
  replace (x =? NONE) with false by (unfold NONE; lia). replace (cnt <=? 128) with true by lia.
  replace (x <? 0) with false by lia. replace (x >=? 128) with false by lia. cbn [negb andb orb].
  rewrite Hu, Ho, Hst, Hp, !Z.eqb_refl. cbn [negb orb]. rewrite u32_small by lia.
  rewrite (IH x (ks_next (get_slab s x)) l (cnt + 1) q Hs); [do 2 f_equal; lia|..|lia|lia|cbn in Hf; lia].
  intros i Hi. apply Hm. by constructor.
Qed.

(** Slabs of the cache [c] in the state [st]. *)
Definition in_state s (c st i : Z) : bool := belongs s c i && (ks_state (get_slab s i) =? st).

Lemma validate_list_ok s c st :
  slab_inv s → 0 ≤ c < KMEM_CACHE_MAX → kc_used (get_cache s c) = true → 0 ≤ st ≤ 2 →
  slab_validate_list s c (get_head (get_cache s c) st) st
    (sum (λ i, if in_state s c st i then 1 else 0) (range 0 KMEM_SLAB_MAX)) = true.
Proof.
  intros I Hc Hu Hst. destruct (si_lists _ _ I c st Hc Hu Hst) as (l & [q Hd] & Hn & Hin).
  assert (len l = sum (λ i, if in_state s c st i then 1 else 0) (range 0 KMEM_SLAB_MAX)) as El.
  { apply len_indicator; [done|]. intros i. rewrite Hin. unfold member, in_state.
    rewrite andb_true_iff, belongs_spec, Z.eqb_eq. unfold NONE. split; [tauto|].
    intros (? & ? & ?). split; [tauto|lia]. }
  assert (len l ≤ 128) as Hle.
  { rewrite El, sum_indicator. unfold len.
    pose proof (List.filter_length_le (in_state s c st) (range 0 KMEM_SLAB_MAX)) as Hf.
    rewrite length_range in Hf. unfold KMEM_SLAB_MAX in *. lia. }
  unfold slab_validate_list. rewrite (list_walk_spec s c st _ _ _ l 0 q Hd).
  - rewrite <-El, !Z.add_0_l, !Z.eqb_refl. done.
  - intros i Hi. by apply Hin in Hi as [? _].
  - done.
  - lia.
  - unfold len, KMEM_SLAB_MAX in *. lia.
Qed.

(** ** The totals of a cache *)

(** Sums over the first [k] slabs. *)
Definition part s (c k : Z) (f : kmem_slab_t → Z) : Z := sum (share s c f) (range 0 k).
Definition part_state s (c k st : Z) : Z := sum (λ i, if in_state s c st i then 1 else 0) (range 0 k).

Lemma part_snoc s c k f : 0 ≤ k → part s c (k + 1) f = part s c k f + share s c f k.
Proof. intros. unfold part. rewrite range_snoc, sum_app by lia. cbn. lia. Qed.
Lemma part_state_snoc s c k st :
  0 ≤ k → part_state s c (k + 1) st = part_state s c k st + (if in_state s c st k then 1 else 0).
Proof. intros. unfold part_state. rewrite range_snoc, sum_app by lia. cbn. lia. Qed.

Lemma part_bound s c k f b :
  0 ≤ k → 0 ≤ b → (∀ i, 0 ≤ i < k → belongs s c i = true → 0 ≤ f (get_slab s i) ≤ b) → 0 ≤ part s c k f ≤ b * k.
Proof.
  intros Hk Hb Hf. pose proof (sum_bound (share s c f) (range 0 k) b) as B. rewrite length_range in B.
  replace (Z.of_nat (Z.to_nat (k - 0))) with k in B by lia. apply B. intros i Hi%elem_of_range.
  unfold share. destruct (belongs s c i) eqn:E; [by apply Hf|lia].
Qed.
Lemma part_state_bound s c k st : 0 ≤ k → 0 ≤ part_state s c k st ≤ k.
Proof.
  intros Hk. pose proof (sum_bound (λ i, if in_state s c st i then 1 else 0) (range 0 k) 1) as B.
  rewrite length_range in B. replace (1 * Z.of_nat (Z.to_nat (k - 0))) with k in B by lia. apply B.
  intros i _. by destruct (in_state s c st i).
Qed.

Lemma tally_spec s c n0 :
  slab_inv s → 0 ≤ n0 < 2 ^ 16 →
  foldl (tally_slab s c) (Some (Tally 0 0 0 n0 0 0 0)) (range 0 KMEM_SLAB_MAX) =
  Some (Tally (owned_sum s c ks_active_objects) (owned_sum s c ks_object_count) (owned_sum s c (λ _, 1))
    (n0 + owned_sum s c (λ _, 1)) (part_state s c KMEM_SLAB_MAX FULL) (part_state s c KMEM_SLAB_MAX PARTIAL)
    (part_state s c KMEM_SLAB_MAX EMPTY)).
Proof.
  intros I Hn0. apply (foldl_range_ind (λ k t, t = Some (Tally (part s c k ks_active_objects)
    (part s c k ks_object_count) (part s c k (λ _, 1)) (n0 + part s c k (λ _, 1)) (part_state s c k FULL)
    (part_state s c k PARTIAL) (part_state s c k EMPTY)))); [done|by rewrite Z.add_0_r|].
  intros k t Hk ->. unfold tally_slab. unfold KMEM_SLAB_MAX in Hk.
  assert (∀ i, 0 ≤ i < k → belongs s c i = true → 0 ≤ ks_active_objects (get_slab s i) ≤ 128 ∧
    0 ≤ ks_object_count (get_slab s i) ≤ 128) as Hb.
  { intros i Hi [Hu _]%belongs_spec.
    pose proof (slab_bounds s i (si_slab _ _ I i ltac:(unfold KMEM_SLAB_MAX; lia) Hu)). lia. }
  pose proof (part_bound s c k ks_active_objects 128 ltac:(lia) ltac:(lia) (λ i Hi Hbi, proj1 (Hb i Hi Hbi))) as B1.
  pose proof (part_bound s c k ks_object_count 128 ltac:(lia) ltac:(lia) (λ i Hi Hbi, proj2 (Hb i Hi Hbi))) as B2.
  pose proof (part_bound s c k (λ _, 1) 1 ltac:(lia) ltac:(lia) (λ _ _ _, ltac:(lia))) as B3.
  pose proof (part_state_bound s c k FULL ltac:(lia)). pose proof (part_state_bound s c k PARTIAL ltac:(lia)).
  pose proof (part_state_bound s c k EMPTY ltac:(lia)).
  rewrite !part_snoc, !part_state_snoc by lia. unfold in_state, share. fold (belongs s c k).
  destruct (belongs s c k) eqn:Eb; cbn [andb]; [|by rewrite !Z.add_0_r].
  apply belongs_spec in Eb as [Eu _].
  pose proof (si_slab _ _ I k ltac:(unfold KMEM_SLAB_MAX; lia) Eu) as SO. pose proof (slab_bounds s k SO) as [Ba Bc].
  rewrite (so_state _ _ SO). pose proof (state_of_range (ks_active_objects (get_slab s k)) (ks_object_count (get_slab s k))) as Hr.
  set (st := state_of _ _) in *. clearbody st. clear Hb SO I Eu.
  assert (st = 0 ∨ st = 1 ∨ st = 2) as [-> | [-> | ->] ] by lia; cbn [Z.eqb FULL PARTIAL EMPTY];
    rewrite !u32_small by lia; by rewrite ?Z.add_0_r, ?Z.add_assoc.
Qed.

Lemma validate_cache_ok s k n0 m0 :
  slab_inv s → 0 ≤ k < KMEM_CACHE_MAX → 0 ≤ m0 < 2 ^ 16 → 0 ≤ n0 < 2 ^ 16 →
  validate_cache s (Some (m0, n0)) k =
  Some (m0 + Z.b2z (kc_used (get_cache s k)),
        n0 + if kc_used (get_cache s k) then owned_sum s k (λ _, 1) else 0).
Proof.
  intros I Hk Hm Hn. unfold validate_cache. destruct (kc_used (get_cache s k)) eqn:Hu; cbn [negb];
    [|by rewrite !Z.add_0_r].
  rewrite tally_spec by done. cbn [ta_active ta_capacity ta_slabs ta_actual ta_full ta_partial ta_empty].
  destruct (si_counts _ _ I k Hk Hu) as (-> & -> & ->); [unfold NULL_CACHE; lia|]. rewrite !Z.eqb_refl.
  change (kc_full_head (get_cache s k)) with (get_head (get_cache s k) FULL).
  change (kc_partial_head (get_cache s k)) with (get_head (get_cache s k) PARTIAL).
  change (kc_empty_head (get_cache s k)) with (get_head (get_cache s k) EMPTY).
  unfold part_state. rewrite !validate_list_ok by done. cbn [negb orb Z.b2z]. rewrite u32_small by lia. done.
Qed.

(** Every used slab belongs to one used cache. *)
Lemma slab_total s :
  slab_inv s →
  sum (λ c, if kc_used (get_cache s c) then owned_sum s c (λ _, 1) else 0) (range 0 KMEM_CACHE_MAX) = slab_count s.
Proof.
  intros I. rewrite (si_slab_count _ _ I).
  rewrite (sum_ext _ (λ c, sum (λ i, if kc_used (get_cache s c) && belongs s c i then 1 else 0) (range 0 KMEM_SLAB_MAX))).
  2: { intros c _. unfold owned_sum. destruct (kc_used (get_cache s c)); cbn [andb]; [done|]. by rewrite sum_zero. }
  rewrite sum_exchange. apply sum_ext. intros i Hi%elem_of_range. destruct (ks_used (get_slab s i)) eqn:Eu; cbn [Z.b2z].
  - pose proof (si_slab _ _ I i Hi Eu) as SO.
    apply (sum_single _ _ (ks_owner (get_slab s i))); [apply range_NoDup|apply elem_of_range, SO|..].
    + rewrite (so_used _ _ SO). unfold belongs. by rewrite Eu, Z.eqb_refl.
    + intros c _ Hne. unfold belongs. rewrite Eu. cbn.
      replace (ks_owner (get_slab s i) =? c) with false by lia. by rewrite andb_false_r.
  - rewrite (sum_ext _ (λ _, 0)); [apply sum_zero|]. intros c _. unfold belongs. rewrite Eu. cbn. by rewrite andb_false_r.
Qed.

Lemma slab_validate_ok s : slab_inv s → kmem_cache_validate s = OK.
Proof.
  intros I. unfold kmem_cache_validate. rewrite (si_init _ _ I). cbn [negb].
  assert (all_range 0 KMEM_SLAB_MAX (λ i, negb (ks_used (get_slab s i)) || slab_validate_slab (get_slab s i)) = true) as ->.
  { apply all_range_spec. intros i Hi. destruct (ks_used (get_slab s i)) eqn:Eu; [|done]. cbn.
    pose proof (si_slab _ _ I i Hi Eu) as SO. destruct (so_free _ _ SO) as [fl R].
    destruct (so_run _ _ SO) as (H1 & H2 & _). pose proof (so_owner _ _ SO).
    apply (validate_slab_ok _ fl); try done; try lia; [unfold NULL_CACHE; lia|apply SO]. }
  cbn [negb].
  assert (foldl (validate_cache s) (Some (0, 0)) (range 0 KMEM_CACHE_MAX) = Some (cache_count s, slab_count s)) as ->;
    [|by rewrite !Z.eqb_refl].
  rewrite <-(slab_total s I), (si_cache_count _ _ I).
  apply (foldl_range_ind (λ k t, t = Some (sum (λ c, Z.b2z (kc_used (get_cache s c))) (range 0 k),
    sum (λ c, if kc_used (get_cache s c) then owned_sum s c (λ _, 1) else 0) (range 0 k)))); [done|done|].
  intros k t Hk ->. rewrite range_snoc, !sum_app by lia. cbn [sum]. rewrite !Z.add_0_r. unfold KMEM_CACHE_MAX in Hk.
  apply validate_cache_ok; [done|done|..].
  - pose proof (sum_bound (λ c, Z.b2z (kc_used (get_cache s c))) (range 0 k) 1) as B. rewrite length_range in B.
    assert (∀ c, 0 ≤ Z.b2z (kc_used (get_cache s c)) ≤ 1) as B0 by (intros c; by destruct (kc_used (get_cache s c))).
    specialize (B (λ c _, B0 c)). lia.
  - pose proof (sum_bound (λ c, if kc_used (get_cache s c) then owned_sum s c (λ _, 1) else 0) (range 0 k) 128) as B.
    rewrite length_range in B.
    assert (∀ c, 0 ≤ (if kc_used (get_cache s c) then owned_sum s c (λ _, 1) else 0) ≤ 128) as B0.
    { intros c. pose proof (count_bounds _ s c I). destruct (kc_used (get_cache s c)); lia. }
    specialize (B (λ c _, B0 c)). lia.
Qed.
End validate.

(** ** The walks stop

    The two walks are loops in C.  Each is bounded by its counter, so more fuel
    than the model gives changes nothing, on any table. *)
Lemma free_walk_fuel slab fuel fuel' current n seen :
  0 ≤ n ≤ ks_object_count slab + 1 → ks_object_count slab < 2 ^ 32 - 1 →
  ks_object_count slab + 2 ≤ n + Z.of_nat fuel → (fuel ≤ fuel')%nat →
  free_walk fuel' slab current n seen = free_walk fuel slab current n seen.
Proof.
  intros Hn Hc. revert fuel' current n seen Hn. induction fuel as [|fuel IH]; intros fuel' current n seen Hn Hf Hle; [lia|].
  destruct fuel' as [|fuel']; [lia|]. cbn [free_walk].
  destruct (negb (current =? KMEM_SLAB_MAX_OBJECTS) && (n <=? ks_object_count slab)) eqn:E; [|done].
  apply andb_true_iff in E as [_ E]. destruct ((_ >=? _) || _); [done|]. destruct (word_bit seen current); [done|].
  rewrite u32_small by lia. apply IH; lia.
Qed.

Lemma list_walk_fuel {M} (s : slab_t M) fuel fuel' cache head state previous n :
  0 ≤ n ≤ KMEM_SLAB_MAX + 1 → KMEM_SLAB_MAX + 2 ≤ n + Z.of_nat fuel → (fuel ≤ fuel')%nat →
  list_walk fuel' s cache head state previous n = list_walk fuel s cache head state previous n.
Proof.
  revert fuel' head previous n. induction fuel as [|fuel IH]; intros fuel' head previous n Hn Hf Hle;
    unfold KMEM_SLAB_MAX in *; [lia|].
  destruct fuel' as [|fuel']; [lia|]. cbn [list_walk].
  destruct (negb (head =? KMEM_SLAB_LINK_NONE) && (n <=? KMEM_SLAB_MAX)) eqn:E; [|done].
  apply andb_true_iff in E as [_ E]. destruct ((head <? 0) || _); [done|]. destruct (_ || _ || _ || _); [done|].
  unfold KMEM_SLAB_MAX in *. rewrite u32_small by lia. apply IH; lia.
Qed.
