(* ===== verification/SlabPages.v ===== *)
(** * The slab allocator on the page manager of memory.c

    memory.c provides the interface slab.c needs: [PageManagerLaws] holds of
    [pmm_alloc_pages_in_zone], [pmm_free_pages] and [kmemset], with the
    reachable states of MemorySystem.v as invariant.  So the kernel heap and the
    slab allocator share physical memory safely.  The theorems about slab.c are
    stated for this instance. *)

From S2P Require Import Prelude Memory Pmm Heap HeapRefine MemorySystem PageOwner.
From S2P Require Import Slab SlabInv SlabSystem SlabCalls SlabSpec SlabValidate.

#[export] Instance pmm_pages : PageManager memory_t := {|
  pm_alloc m count := pmm_alloc_pages_in_zone m count MEMORY_ZONE_SLAB;
  pm_free := pmm_free_pages;
  pm_memset m dst val size := m <| phys ::= λ h, kmemset h dst val size |>
|}.

Lemma in_pages_run first n p : in_pages (first * PAGE_SIZE) n p = in_run first n p.
Proof. unfold in_pages, in_run, PAGE_SIZE. by rewrite Z.div_mul. Qed.

Lemma pmm_alloc_law live m n m' a :
  run m live → 0 < n < 2 ^ 32 → pm_alloc m n = (m', a) →
  run m' live ∧ (∀ b, page_owned m (b / PAGE_SIZE) = true → load8 (phys m') b = load8 (phys m) b) ∧
  ((a = 0 ∧ ∀ p, page_owned m' p = page_owned m p) ∨
   (page_run a n ∧ (∀ p, in_pages a n p = true → page_owned m p = false) ∧
    ∀ p, page_owned m' p = in_pages a n p || page_owned m p)).
Proof.
  intros Hr Hn Ea. cbn in Ea. pose proof (run_wf _ _ Hr) as W.
  destruct (alloc_law live m n _ m' a Hr Hn Ea) as (Hr' & Hb & Hc). split; [done|]. split; [done|].
  destruct Hc as [?|(first & -> & Hf & Hl & Hfree & Ho)]; [by left|right].
  pose proof (pl_pages _ (wf_layout _ W)). change FIRST_FREE_PAGE with 5120 in Hf.
  split; [unfold page_run, PAGE_SIZE; rewrite Z.mod_mul; lia|].
  split; intros p; rewrite in_pages_run; [apply Hfree|apply Ho].
Qed.

Lemma pmm_free_law live m a n :
  run m live → page_run a n → (∀ p, in_pages a n p = true → page_owned m p = true) →
  run (pm_free m a n) live ∧
  (∀ b, page_owned m (b / PAGE_SIZE) = true → load8 (phys (pm_free m a n)) b = load8 (phys m) b) ∧
  ∀ p, page_owned (pm_free m a n) p = negb (in_pages a n p) && page_owned m p.
Proof.
  intros Hr (Hn & Ha & Hal & Hend) Ho. unfold PAGE_SIZE in Hend, Hal.
  assert (∃ first, a = first * PAGE_SIZE) as [first ->] by (exists (a / PAGE_SIZE); unfold PAGE_SIZE; divlia).
  unfold PAGE_SIZE in Ha, Hend.
  destruct (free_law live m first n Hr) as (H1 & H2 & _ & H3); [lia|lia|lia|by setoid_rewrite in_pages_run in Ho|].
  split; [exact H1|]. split; [exact H2|]. intros p. rewrite in_pages_run. apply H3.
Qed.

Lemma pmm_memset_law live m a v n :
  run m live → (∀ b, a ≤ b < a + n → page_owned m (b / PAGE_SIZE) = true) →
  run (pm_memset m a v n) live ∧
  (∀ p, page_owned (pm_memset m a v n) p = page_owned m p) ∧
  ∀ b, load8 (phys (pm_memset m a v n)) b = if (a <=? b) && (b <? a + n) then u8 v else load8 (phys m) b.
Proof.
  intros Hr Ho. destruct (run_memset m live a v n Hr Ho) as [H1 H2]. split; [done|]. split; [done|].
  intros b. apply load8_kmemset.
Qed.

(** [live] is the contents of the heap allocations, which the slab allocator
    leaves alone. *)
Definition pmm_pages_laws (live : gmap Z (list Z)) : PageManagerLaws memory_t := {|
  pm_inv m := run m live;
  pm_owned := page_owned;
  pm_byte m b := load8 (phys m) b;
  pm_alloc_law := pmm_alloc_law live;
  pm_free_law := pmm_free_law live;
  pm_memset_law := pmm_memset_law live
|}.
