(* ===== verification/SlabRun.v ===== *)
(** * Theorems about slab.c

    [slab_run s live] is every state slab.c can reach on the memory of
    MemorySystem.v: initialisation, then calls with any arguments, with the rest
    of the kernel running in between.  [live] is the contents of the heap
    allocations. *)

From S2P Require Import Prelude Memory Pmm Heap HeapRefine MemorySystem PageOwner.
From S2P Require Import Slab SlabInv SlabSystem SlabCalls SlabSpec SlabValidate SlabPages.

(** The static variables before [kmem_cache_init]. *)
Definition slab_boot (m : memory_t) (paging : bool) : slab_t memory_t :=
  SlabState m ∅ ∅ 0 0 0 0 0 false paging.

Inductive slab_run : slab_t memory_t → gmap Z (list Z) → Prop :=
| slab_start m live paging :
    run m live → slab_run (kmem_cache_init (slab_boot m paging)).1 live
| slab_init_again s live : slab_run s live → slab_run (kmem_cache_init s).1 live
| slab_create s live name size alignment :
    slab_run s live → 0 ≤ size < 2 ^ 32 → 0 ≤ alignment < 2 ^ 32 →
    slab_run (kmem_cache_create s name size alignment).1 live
| slab_alloc s live cache : slab_run s live → slab_run (kmem_cache_alloc s cache).1 live
| slab_free s live cache object :
    slab_run s live → 0 ≤ object < 2 ^ 32 → slab_run (kmem_cache_free s cache object) live
| slab_destroy s live cache : slab_run s live → slab_run (kmem_cache_destroy s cache).1 live
| slab_other s live m live' paging :
    slab_run s live → run m live' →
    (∀ i p, 0 ≤ i < KMEM_SLAB_MAX → ks_used (get_slab s i) = true → slab_pages s i p = true →
       page_owned m p = true) →
    slab_run ((s <| pages := m |>) <| paging_ready := paging |>) live'.

Abbreviation sinv live := (slab_inv (PML := pmm_pages_laws live)).

(** The rest of the kernel keeps the pages of the slabs. *)
Lemma other_inv s live m live' paging :
  sinv live s → run m live' →
  (∀ i p, 0 ≤ i < KMEM_SLAB_MAX → ks_used (get_slab s i) = true → slab_pages s i p = true →
     page_owned m p = true) →
  sinv live' ((s <| pages := m |>) <| paging_ready := paging |>).
Proof.
  intros [I1 I2 I3 I4 I5 I6 I7 I8 I9] Hm Ho. split; try done.
  intros i Hi Hu. destruct (I5 i Hi Hu) as [O1 O2 O3 O4 O5 O6 O7 O8]. split; try done.
  intros p Hp. by apply (Ho i).
Qed.

Lemma start_inv m live paging : run m live → sinv live (kmem_cache_init (slab_boot m paging)).1.
Proof.
  intros Hm. split; try done; try (intros; done).
Qed.

Lemma slab_run_inv s live : slab_run s live → sinv live s.
Proof.
  induction 1 as [m live paging Hm|s live _ IH|s live name size al _ IH Hs Ha|s live c _ IH|s live c o _ IH Ho|
    s live c _ IH|s live m live' paging _ IH Hm Ho].
  - by apply start_inv.
  - unfold kmem_cache_init. by rewrite (si_init (PML := pmm_pages_laws live) _ _ IH).
  - pose proof (create_spec (PML := pmm_pages_laws live) s name size al IH Hs Ha) as Hc.
    destruct (kmem_cache_create s name size al). apply Hc.
  - by destruct (alloc_spec (PML := pmm_pages_laws live) s c IH).
  - by apply (free_spec (PML := pmm_pages_laws live)).
  - destruct (slab_cache_registered s c) eqn:Er; cycle 1.
    { unfold kmem_cache_destroy. by rewrite (si_init (PML := pmm_pages_laws live) _ _ IH), Er. }
    destruct (Z.eq_dec (kc_active_objects (get_cache s c)) 0) as [E|E].
    + by destruct (destroy_spec (PML := pmm_pages_laws live) s c IH Er E) as (s' & -> & ? & _).
    + unfold kmem_cache_destroy. rewrite (si_init (PML := pmm_pages_laws live) _ _ IH), Er. cbn [negb orb].
      by replace (kc_active_objects (get_cache s c) =? 0) with false by lia.
  - by apply (other_inv s live).
Qed.

Lemma sum_mono f g l : (∀ i, i ∈ l → f i ≤ g i) → sum f l ≤ sum g l.
Proof.
  induction l as [|i l IH]; intros H; cbn; [lia|].
  pose proof (H i ltac:(constructor)). assert (sum f l ≤ sum g l); [|lia].
  apply IH. intros j Hj. apply H. by constructor.
Qed.

Lemma active_le_capacity live s c :
  sinv live s → 0 ≤ c < KMEM_CACHE_MAX → kc_used (get_cache s c) = true →
  kc_active_objects (get_cache s c) ≤ kc_capacity (get_cache s c).
Proof.
  intros I Hc Hu. destruct (si_counts (PML := pmm_pages_laws live) _ _ I c Hc Hu) as (-> & -> & _);
    [unfold NULL_CACHE; lia|].
  apply sum_mono. intros i Hi%elem_of_range. destruct (belongs s c i) eqn:Eb; [|lia].
  apply belongs_spec in Eb as [Eu _].
  apply (slab_bounds (PML := pmm_pages_laws live)), (si_slab (PML := pmm_pages_laws live) _ _ I); done.
Qed.

(** ** A concrete state: one cache of 16-byte objects, two of them in use *)

Definition demo_name : list Z := [100; 101; 109; 111].
Definition demo_on (m : memory_t) : slab_t memory_t :=
  (kmem_cache_create (kmem_cache_init (slab_boot m true)).1 demo_name 16 16).1.
Definition demo_cache : slab_t memory_t := demo_on booted.
Definition demo_one : slab_t memory_t := (kmem_cache_alloc demo_cache 0).1.
Definition demo_two : slab_t memory_t := (kmem_cache_alloc demo_one 0).1.
Definition demo_x : Z := (kmem_cache_alloc demo_cache 0).2.
Definition demo_y : Z := (kmem_cache_alloc demo_one 0).2.

Lemma demo_cache_run : slab_run demo_cache ∅.
Proof. apply slab_create; [|lia|lia]. apply slab_start, booted_run. Qed.
Lemma demo_one_run : slab_run demo_one ∅.
Proof. apply slab_alloc, demo_cache_run. Qed.
Lemma demo_two_run : slab_run demo_two ∅.
Proof. apply slab_alloc, demo_one_run. Qed.

Lemma demo_facts m :
  slab_cache_registered (demo_on m) 0 = true ∧ slab_find_free_record (demo_on m) = 0 ∧
  kc_slab_pages (get_cache (demo_on m) 0) = 1 ∧ pages (demo_on m) = m ∧ paging_ready (demo_on m) = true ∧
  kc_object_size (get_cache (demo_on m) 0) = 16.
Proof. vm_compute. done. Qed.

Lemma demo_prepare : (slab_prepare_record demo_cache 0).2 = OK.
Proof.
  unfold slab_prepare_record. destruct (demo_facts booted) as (_ & E1 & E2 & E3 & _). fold demo_cache in E1, E2, E3.
  rewrite E1, E2, E3. cbn [Z.ltb Z.compare].
  pose proof (alloc_in_zone_spec booted 1 MEMORY_ZONE_SLAB booted_wf ltac:(lia)) as H.
  change (pm_alloc booted 1) with (pmm_alloc_pages_in_zone booted 1 MEMORY_ZONE_SLAB).
  destruct (pmm_alloc_pages_in_zone booted 1 MEMORY_ZONE_SLAB) as [m a]. destruct H as [_ H].
  destruct H as [[H|[H|H]]|m first Hz Hpos Hr Hmin Hlow RC];
    [discriminate|discriminate|destruct (H 5120 booted_free_run)|].
  change FIRST_FREE_PAGE with 5120 in Hlow.
  replace (first * PAGE_SIZE =? 0) with false by (unfold PAGE_SIZE; lia). reflexivity.
Qed.

Lemma demo_empty m : live_objects (demo_on m) 0 = [].
Proof. vm_compute. done. Qed.

Lemma demo_cache_facts :
  slab_cache_registered demo_cache 0 = true ∧ paging_ready demo_cache = true ∧ live_objects demo_cache 0 = [].
Proof. destruct (demo_facts booted) as (F1 & _ & _ & _ & F5 & _). exact (conj F1 (conj F5 (demo_empty booted))). Qed.
#[local] Opaque booted demo_cache.

(** An allocation that cannot be refused. *)
Lemma alloc_succeeds live s c :
  sinv live s → slab_cache_registered s c = true → paging_ready s = true →
  kc_active_objects (get_cache s c) ≠ kc_capacity (get_cache s c) ∨ (slab_prepare_record s c).2 = OK →
  sinv live (kmem_cache_alloc s c).1 ∧
  allocated (PML := pmm_pages_laws live) s (kmem_cache_alloc s c).1 c (kmem_cache_alloc s c).2.
Proof.
  intros I Hr Hp Hroom.
  destruct (alloc_spec (PML := pmm_pages_laws live) s c I) as [s' I' _ [R|[R|[R1 R2]]]|s' o I' _ A];
    [congruence|congruence|destruct Hroom; congruence|by split].
Qed.

Lemma capacity_of_live live s c x :
  sinv live s → x ∈ live_objects s c → slab_cache_registered s c = true ∧ 8 ≤ kc_capacity (get_cache s c).
Proof.
  intros I (i & k & Hs & _ & _)%elem_live.
  destruct (slot_ok (PML := pmm_pages_laws live) s I _ _ _ Hs) as (SO & _ & Ho & _).
  pose proof (so_owner (PML := pmm_pages_laws live) _ _ SO) as Hc. rewrite Ho in Hc.
  pose proof (so_used (PML := pmm_pages_laws live) _ _ SO) as Hu. rewrite Ho in Hu.
  split; [by apply registered_spec|].
  destruct (si_counts (PML := pmm_pages_laws live) _ _ I c Hc Hu) as (_ & -> & _); [unfold NULL_CACHE; lia|].
  destruct Hs as (Hi & Hb & _). unfold owned_sum.
  etransitivity; [|apply (sum_le_elem _ _ i); [|by apply elem_of_range] ].
  - cbn beta. rewrite Hb. apply (slab_bounds (PML := pmm_pages_laws live) s i SO).
  - intros j Hj%elem_of_range. destruct (belongs s c j) eqn:Eb; [|lia]. apply belongs_spec in Eb as [Eu _].
    pose proof (slab_bounds (PML := pmm_pages_laws live) s j (si_slab (PML := pmm_pages_laws live) _ _ I j Hj Eu)). lia.
Qed.

(** From an empty cache that can grow, two allocations succeed. *)
Lemma two_allocations live s :
  sinv live s → slab_cache_registered s 0 = true → paging_ready s = true → live_objects s 0 = [] →
  (slab_prepare_record s 0).2 = OK →
  ∀ s1 x s2 y, kmem_cache_alloc s 0 = (s1, x) → kmem_cache_alloc s1 0 = (s2, y) →
  sinv live s1 ∧ allocated (PML := pmm_pages_laws live) s s1 0 x ∧
  sinv live s2 ∧ allocated (PML := pmm_pages_laws live) s1 s2 0 y.
Proof.
  intros I0 F1 F5 F6 Hp s1 x s2 y E1 E2.
  destruct (alloc_succeeds live s 0 I0 F1 F5 (or_intror Hp)) as [I1 A1]. rewrite E1 in I1, A1. cbn [fst snd] in I1, A1.
  assert (x ∈ live_objects s1 0) as Hx by (apply (al_live (PML := pmm_pages_laws live) _ _ _ _ A1); auto).
  destruct (capacity_of_live live s1 0 x I1 Hx) as [Hr1 Hcap]. pose proof Hr1 as [Hc Hu]%registered_spec.
  destruct (alloc_succeeds live s1 0 I1 Hr1) as [I2 A2].
  { by rewrite (al_paging (PML := pmm_pages_laws live) _ _ _ _ A1). }
  { left. rewrite <-(live_count (PML := pmm_pages_laws live) s1 0 I1 Hc Hu).
    assert (live_objects s1 0 ≡ₚ [x]) as Hl%Permutation_length.
    { apply NoDup_Permutation; [by apply (live_nodup (PML := pmm_pages_laws live))|apply NoDup_singleton|].
      intros z. rewrite (al_live (PML := pmm_pages_laws live) _ _ _ _ A1), F6, elem_of_nil, list_elem_of_singleton.
      tauto. }
    unfold len. rewrite Hl. cbn. lia. }
  by rewrite E2 in I2, A2.
Qed.

Lemma demo_allocated :
  sinv ∅ demo_one ∧ allocated (PML := pmm_pages_laws ∅) demo_cache demo_one 0 demo_x ∧
  sinv ∅ demo_two ∧ allocated (PML := pmm_pages_laws ∅) demo_one demo_two 0 demo_y.
Proof.
  destruct demo_cache_facts as (F1 & F5 & F6).
  apply (two_allocations ∅ demo_cache (slab_run_inv _ _ demo_cache_run) F1 F5 F6 demo_prepare);
    apply surjective_pairing.
Qed.

(** The objects of a state, with the pages they lie in. *)
Lemma live_object_ok live s c x :
  sinv live s → x ∈ live_objects s c →
  slab_cache_registered s c = true ∧ kmem_cache_owns s c x = true ∧
  HEAP_END ≤ x ∧ x + kc_object_size (get_cache s c) < 2 ^ 32 ∧ x mod kc_alignment (get_cache s c) = 0 ∧
  ∀ b, in_object s c x b → page_owned (pages s) (b / PAGE_SIZE) = true.
Proof.
  intros I Hx. pose proof Hx as (i & k & Hs & _ & ->)%elem_live.
  destruct (slot_bounds (PML := pmm_pages_laws live) s I _ _ _ Hs) as (B1 & _ & B3 & B4 & B5).
  destruct (slot_ok (PML := pmm_pages_laws live) s I _ _ _ Hs) as (SO & CG & _). pose proof (cg_size _ CG) as Hsz.
  destruct (capacity_of_live live s c _ I Hx) as [Hr _]. pose proof Hr as [Hc Hu]%registered_spec.
  assert (∀ b, in_object s c (object_at s i k) b → page_owned (pages s) (b / PAGE_SIZE) = true) as Hpg.
  { intros b Hb. apply (so_owned (PML := pmm_pages_laws live) _ _ SO).
    eapply (slot_pages (PML := pmm_pages_laws live)); [done|exact Hs|]. unfold in_object in Hb. lia. }
  split; [done|]. split.
  { unfold kmem_cache_owns. rewrite Hr. replace (object_at s i k =? 0) with false by lia. cbn [negb orb].
    pose proof (location_spec (PML := pmm_pages_laws live) s I c (object_at s i k) Hc Hu ltac:(lia)) as Hl.
    destruct (slab_object_location s c (object_at s i k)) as [[j l]|]; [done|]. by destruct (Hl i k). }
  split.
  { pose proof (run_wf _ _ (si_pm (PML := pmm_pages_laws live) _ _ I)) as W.
    pose proof (page_owned_high _ _ W (Hpg (object_at s i k) ltac:(unfold in_object; lia))) as Hh.
    change FIRST_FREE_PAGE with 5120 in Hh. change HEAP_END with 20971520. unfold PAGE_SIZE in Hh. divlia. }
  split; [lia|]. split; [by apply (object_aligned (PML := pmm_pages_laws live))|done].
Qed.

Lemma live_objects_apart live s c x d y b :
  sinv live s → x ∈ live_objects s c → y ∈ live_objects s d → (c ≠ d ∨ x ≠ y) →
  in_object s c x b → ¬ in_object s d y b.
Proof.
  intros I Hx Hy Hne Hb1 Hb2.
  destruct (live_slot (PML := pmm_pages_laws live) s c x I Hx) as (i & k & Hs1 & _ & -> & E1).
  destruct (live_slot (PML := pmm_pages_laws live) s d y I Hy) as (j & l & Hs2 & _ & -> & E2).
  apply (slots_disjoint (PML := pmm_pages_laws live) s I c i k d j l b Hs1 Hs2); [|by apply E1|by apply E2].
  destruct (decide (i = j)) as [<-|]; [|by left]. destruct (decide (k = l)) as [<-|]; [|by right].
  destruct (slot_ok (PML := pmm_pages_laws live) s I _ _ _ Hs1) as (_ & _ & <- & _).
  destruct (slot_ok (PML := pmm_pages_laws live) s I _ _ _ Hs2) as (_ & _ & <- & _). by destruct Hne.
Qed.

(** ** Theorems *)

(** C28: In every reachable state of the slab allocator [kmem_cache_validate]
    accepts, the memory below is a reachable state with the same heap contents,
    and what [kmem_cache_get_info] reports as active is the number of distinct
    objects in use, at most the capacity. *)
Theorem slab_run_valid s live :
  slab_run s live →
  kmem_cache_validate s = OK ∧ kt_valid (kmem_cache_get_stats s) = true ∧ run (pages s) live ∧
  ∀ c, slab_cache_registered s c = true →
    ∃ info, kmem_cache_get_info s c = (Some info, OK) ∧
      ki_active_objects info = len (live_objects s c) ∧ NoDup (live_objects s c) ∧
      ki_active_objects info ≤ ki_capacity info.
Proof.
  intros I%slab_run_inv. pose proof (slab_validate_ok (PML := pmm_pages_laws live) s I) as HV.
  split; [done|]. split.
  { unfold kmem_cache_get_stats. destruct (foldl _ _ _) as [[? ?] ?]. cbn [kt_valid].
    by rewrite (si_init (PML := pmm_pages_laws live) _ _ I), HV. }
  split; [apply (si_pm (PML := pmm_pages_laws live) _ _ I)|]. intros c Hr. pose proof Hr as [Hc Hu]%registered_spec.
  exists (slab_copy_info (get_cache s c)). unfold kmem_cache_get_info. rewrite Hr. split; [done|].
  split; [symmetry; by apply (live_count (PML := pmm_pages_laws live))|].
  split; [by apply (live_nodup (PML := pmm_pages_laws live))|]. by apply (active_le_capacity live).
Qed.

(** C29: In every reachable state the objects in use lie in pages the page
    manager has handed out, above the kernel heap, aligned as their cache asks,
    and no two of them share a byte, also across caches. *)
Theorem slab_objects_disjoint s live c x d y :
  slab_run s live → x ∈ live_objects s c → y ∈ live_objects s d → (c ≠ d ∨ x ≠ y) →
  HEAP_END ≤ x ∧ x + kc_object_size (get_cache s c) < 2 ^ 32 ∧ x mod kc_alignment (get_cache s c) = 0 ∧
  kmem_cache_owns s c x = true ∧
  ∀ b, in_object s c x b → page_owned (pages s) (b / PAGE_SIZE) = true ∧ ¬ in_object s d y b.
Proof.
  intros I%slab_run_inv Hx Hy Hne. destruct (live_object_ok live s c x I Hx) as (_ & H1 & H2 & H3 & H4 & H5).
  do 4 (split; [done|]). intros b Hb. split; [by apply H5|]. by apply (live_objects_apart live s c x d y b).
Qed.


(** C31: [kmem_cache_free] removes exactly the object given when it is in use,
    and otherwise changes only the error counters: an unknown cache, a pointer
    that is no object of the cache, or an object already released. *)
Theorem slab_free_exact s live c o :
  slab_run s live → 0 ≤ o < 2 ^ 32 → free_result s c o (kmem_cache_free s c o).
Proof. intros I%slab_run_inv Ho. by apply (free_spec (PML := pmm_pages_laws live)). Qed.

(** [kmem_cache_destroy] refuses a cache with an object in use; otherwise
    the cache is gone, exactly the pages of its slabs go back to the page
    manager, and the other caches and their objects are as before. *)
Theorem slab_destroy_releases s live c :
  slab_run s live → slab_cache_registered s c = true →
  (live_objects s c ≠ [] ∧ kmem_cache_destroy s c = (s, ERR_STATE)) ∨
  (live_objects s c = [] ∧ ∃ s', kmem_cache_destroy s c = (s', OK) ∧
     slab_run s' live ∧ destroyed (PML := pmm_pages_laws live) s s' c).
Proof.
  intros Hrun Hr. pose proof (slab_run_inv _ _ Hrun) as I. pose proof Hr as [Hc Hu]%registered_spec.
  pose proof (live_count (PML := pmm_pages_laws live) s c I Hc Hu) as Hl. unfold len in Hl.
  destruct (live_objects s c) as [|x l] eqn:El; cbn in Hl; [right|left].
  - split; [done|]. destruct (destroy_spec (PML := pmm_pages_laws live) s c I Hr) as (s' & E & _ & D); [lia|].
    exists s'. split; [done|]. split; [|done].
    replace s' with (kmem_cache_destroy s c).1 by (by rewrite E). by apply slab_destroy.
  - split; [done|]. unfold kmem_cache_destroy. rewrite (si_init (PML := pmm_pages_laws live) _ _ I), Hr.
    cbn [negb orb]. by replace (kc_active_objects (get_cache s c) =? 0) with false by lia.
Qed.

(** ** Witnesses *)

Lemma demo_size : kc_object_size (get_cache demo_one 0) = 16.
Proof.
  destruct demo_allocated as (_ & A & _). destruct (al_caches (PML := pmm_pages_laws ∅) _ _ _ _ A 0) as (_ & -> & _).
  apply (demo_facts booted).
Qed.

Lemma demo_objects : demo_x ∈ live_objects demo_two 0 ∧ demo_y ∈ live_objects demo_two 0 ∧ demo_x ≠ demo_y.
Proof.
  destruct demo_allocated as (_ & A1 & _ & A2).
  pose proof (proj2 (al_live (PML := pmm_pages_laws ∅) _ _ _ _ A1 0 demo_x) (or_intror (conj eq_refl eq_refl))) as H1.
  split; [exact (proj2 (al_live (PML := pmm_pages_laws ∅) _ _ _ _ A2 0 demo_x) (or_introl H1))|].
  split; [exact (proj2 (al_live (PML := pmm_pages_laws ∅) _ _ _ _ A2 0 demo_y) (or_intror (conj eq_refl eq_refl)))|].
  intros E. apply (al_fresh (PML := pmm_pages_laws ∅) _ _ _ _ A2 0 demo_x demo_x H1); [rewrite E|];
    unfold in_object; rewrite demo_size; lia.
Qed.

Lemma demo_range : 0 ≤ demo_x < 2 ^ 32.
Proof.
  destruct demo_allocated as (_ & A1 & _). pose proof (al_positive (PML := pmm_pages_laws ∅) _ _ _ _ A1).
  pose proof (al_end (PML := pmm_pages_laws ∅) _ _ _ _ A1) as He.
  replace (kc_object_size (get_cache demo_cache 0)) with 16 in He by (symmetry; apply (demo_facts booted)). lia.
Qed.

Lemma demo_registered : slab_cache_registered demo_two 0 = true.
Proof.
  destruct demo_objects as (H & _). destruct demo_allocated as (_ & _ & I & _).
  exact (proj1 (capacity_of_live ∅ demo_two 0 demo_x I H)).
Qed.

Lemma slab_run_valid_witness :
  slab_run demo_two ∅ ∧ kmem_cache_validate demo_two = OK ∧
  ∃ info, kmem_cache_get_info demo_two 0 = (Some info, OK) ∧ ki_active_objects info = len (live_objects demo_two 0).
Proof.
  destruct (slab_run_valid demo_two ∅ demo_two_run) as (H1 & _ & _ & H2).
  destruct (H2 0 demo_registered) as (info & H3 & H4 & _).
  exact (conj demo_two_run (conj H1 (ex_intro _ info (conj H3 H4)))).
Defined.

Lemma slab_objects_disjoint_witness :
  demo_x ∈ live_objects demo_two 0 ∧ demo_y ∈ live_objects demo_two 0 ∧
  ∀ b, in_object demo_two 0 demo_x b →
    page_owned (pages demo_two) (b / PAGE_SIZE) = true ∧ ¬ in_object demo_two 0 demo_y b.
Proof.
  destruct demo_objects as (H1 & H2 & H3).
  destruct (slab_objects_disjoint demo_two ∅ 0 demo_x 0 demo_y demo_two_run H1 H2 (or_intror H3)) as (_ & _ & _ & _ & H).
  exact (conj H1 (conj H2 H)).
Defined.


Lemma slab_free_exact_witness :
  demo_x ∈ live_objects demo_two 0 ∧ free_result demo_two 0 demo_x (kmem_cache_free demo_two 0 demo_x).
Proof. exact (conj (proj1 demo_objects) (slab_free_exact demo_two ∅ 0 demo_x demo_two_run demo_range)). Defined.

Lemma slab_destroy_releases_witness :
  slab_run demo_cache ∅ ∧
  ∃ s', kmem_cache_destroy demo_cache 0 = (s', OK) ∧ destroyed (PML := pmm_pages_laws ∅) demo_cache s' 0.
Proof.
  destruct demo_cache_facts as (F1 & _ & F6). split; [exact demo_cache_run|].
  destruct (slab_destroy_releases demo_cache ∅ 0 demo_cache_run F1) as [[H _]|[_ (s' & H1 & _ & H2)]];
    [destruct (H F6)|exact (ex_intro _ s' (conj H1 H2))].
Defined.

(** ** Long names *)

(** The check for a duplicate compares the whole name with the stored names,
    which keep 31 characters: a longer name can be registered twice. *)
Lemma long_names_registered_twice m :
  let name := repeat 97 40 in
  let '(s1, a) := kmem_cache_create (kmem_cache_init (slab_boot m true)).1 name 16 16 in
  let '(s2, b) := kmem_cache_create s1 name 16 16 in
  a = 0 ∧ b = 1 ∧ kc_name (get_cache s2 0) = kc_name (get_cache s2 1).
Proof. vm_compute. done. Qed.
