(* ===== verification/SkBuff.v ===== *)
(** * Socket buffers: src/core/sk_buff.c

    A socket buffer is an object of a slab cache: the [sk_buff_t] with its four
    pointers, the [net_buffer_t] that drives its life, and 2048 bytes of
    storage.  The component keeps a registry of the buffers in use and moves
    the pointers of a buffer, with the same move made in its lifetime
    descriptor.

    The slab allocator is used through [ObjectCache], the interface of its
    calls; [ObjectCacheLaws] is what this component relies on.  SkbSystem.v
    shows that slab.c provides it.  The objects are seen as records by address:
    [skb_mem] holds the [sk_buff_t] at the start of each object, and the
    descriptors of NetBuffer.v hold its [net_buffer_t].  The bytes of the
    storage are never accessed here.  Each call is one step under its lock; log
    lines are not modelled. *)

From S2P Require Import Prelude Registry Memory Slab NetBuffer.

(** ** The slab allocator, as this component sees it *)

(** The calls [kmem_cache_create], [kmem_cache_alloc], [kmem_cache_free],
    [kmem_cache_owns] and [kmem_cache_get_info]. *)
Class ObjectCache (S : Type) := {
  oc_create : S → list Z → Z → Z → S * Z;
  oc_alloc : S → Z → S * Z;
  oc_free : S → Z → Z → S;
  oc_owns : S → Z → Z → bool;
  oc_get_info : S → Z → option kmem_cache_info_t * status
}.

(** What they promise.  [oc_cache s c size] says that [c] is a cache of objects
    of [size] bytes, [oc_objects s c] lists its objects in use. *)
Class ObjectCacheLaws (S : Type) `{ObjectCache S} := {
  oc_inv : S → Prop;
  oc_cache : S → Z → Z → Prop;
  oc_objects : S → Z → list Z;
  oc_create_law s name size alignment s' c :
    oc_inv s → 0 ≤ size < 2 ^ 32 → 0 ≤ alignment < 2 ^ 32 → oc_create s name size alignment = (s', c) →
    oc_inv s' ∧ (c = NULL_CACHE ∨ (0 ≤ c ∧ oc_cache s' c size ∧ oc_objects s' c = []));
  oc_alloc_law s c size s' o :
    oc_inv s → oc_cache s c size → oc_alloc s c = (s', o) →
    oc_inv s' ∧ oc_cache s' c size ∧
    ((o = 0 ∧ oc_objects s' c ≡ₚ oc_objects s c) ∨ (o ≠ 0 ∧ oc_objects s' c ≡ₚ o :: oc_objects s c));
  oc_free_law s c size o :
    oc_inv s → oc_cache s c size → o ∈ oc_objects s c →
    oc_inv (oc_free s c o) ∧ oc_cache (oc_free s c o) c size ∧
    oc_objects s c ≡ₚ o :: oc_objects (oc_free s c o) c;
  oc_owns_law s c size o :
    oc_inv s → oc_cache s c size → o ∈ oc_objects s c → oc_owns s c o = true;
  oc_info_law s c size :
    oc_inv s → oc_cache s c size →
    ∃ info, oc_get_info s c = (Some info, OK) ∧ ki_active_objects info = len (oc_objects s c);
  oc_apart_law s c size :
    oc_inv s → oc_cache s c size →
    NoDup (oc_objects s c) ∧
    (∀ o, o ∈ oc_objects s c → 0 < o ∧ o + size < 2 ^ 32) ∧
    ∀ o o', o ∈ oc_objects s c → o' ∈ oc_objects s c → o ≠ o' → o + size ≤ o' ∨ o' + size ≤ o
}.

(** ** Data *)

Definition SK_BUFF_STORAGE_SIZE : Z := 2048.
Definition SKB_TRACKING_CAPACITY : Z := NET_BUFFER_TRACKING_CAPACITY.

Record sk_buff_t := SkBuff {
  sk_head : Z; sk_data : Z; sk_tail : Z; sk_end : Z; sk_len : Z; sk_refcount : Z; sk_dev : Z
}.
#[export] Instance sk_buff_eta : Eta sk_buff_t := λ r,
  SkBuff (sk_head r) (sk_data r) (sk_tail r) (sk_end r) (sk_len r) (sk_refcount r) (sk_dev r).
Definition sk_buff_zero : sk_buff_t := SkBuff 0 0 0 0 0 0 0.

Record sk_buff_stats_t := SkBuffStats {
  kb_initialized : bool; kb_active_buffers : Z; kb_peak_buffers : Z; kb_allocations : Z;
  kb_frees : Z; kb_completions : Z; kb_drops : Z; kb_invalid_operations : Z; kb_last_error : status
}.
#[export] Instance sk_buff_stats_eta : Eta sk_buff_stats_t := λ r,
  SkBuffStats (kb_initialized r) (kb_active_buffers r) (kb_peak_buffers r) (kb_allocations r)
    (kb_frees r) (kb_completions r) (kb_drops r) (kb_invalid_operations r) (kb_last_error r).
Definition skb_stats_zero : sk_buff_stats_t := SkBuffStats false 0 0 0 0 0 0 0 OK.

(** The layout of [skb_entry_t]: the [sk_buff_t] is its first field. *)
Definition lifetime_of (entry : Z) : Z := entry + 28.
Definition storage_of (entry : Z) : Z := entry + 64.
Definition SKB_ENTRY_SIZE : Z := 64 + SK_BUFF_STORAGE_SIZE.

(** The static variables, with the memory they refer to. *)
Record skb_t {S : Type} := SkbState {
  slabs : S;
  lifetimes : net_t;
  skb_mem : gmap Z sk_buff_t;
  skb_cache : Z;
  skb_registry : list Z;
  skb_lock_initialized : bool;
  skb_testing : bool;
  skb_stats : sk_buff_stats_t
}.
Arguments skb_t : clear implicits.
Arguments SkbState {S}.
#[export] Instance skb_eta S : Eta (skb_t S) := λ r,
  SkbState (slabs r) (lifetimes r) (skb_mem r) (skb_cache r) (skb_registry r)
    (skb_lock_initialized r) (skb_testing r) (skb_stats r).

(** The text "sk_buff". *)
Definition skb_cache_name : list Z := [115; 107; 95; 98; 117; 102; 102].

(** ** Operations *)

Section operations.
Context {S : Type} `{ObjectCache S}.
Abbreviation skb_t := (skb_t S).

Definition skb_at (s : skb_t) (skb : Z) : sk_buff_t := default sk_buff_zero (skb_mem s !! skb).
Definition life_at (s : skb_t) (entry : Z) : net_buffer_t := buf (lifetimes s) (lifetime_of entry).
Definition write_skb (s : skb_t) (skb : Z) (k : sk_buff_t) : skb_t := s <| skb_mem ::= <[skb := k]> |>.
Definition tick (s : skb_t) (f : sk_buff_stats_t → sk_buff_stats_t) : skb_t := s <| skb_stats ::= f |>.

(** A call of net_buffer.c. *)
Definition on_lifetimes (s : skb_t) (x : net_t * status) : skb_t * status := (s <| lifetimes := x.1 |>, x.2).

Definition skb_record_failure_locked (s : skb_t) (result : status) : skb_t :=
  tick (tick s (set kb_invalid_operations (λ n, n +w 1))) (set kb_last_error (λ _, result)).

Definition skb_find_locked (s : skb_t) (skb : Z) : option nat := find_slot skb (skb_registry s).
Definition skb_free_slot_locked (s : skb_t) : option nat := find_slot 0 (skb_registry s).
Definition skb_registry_count_locked (s : skb_t) : Z :=
  foldl (λ count p, if negb (p =? 0) then count +w 1 else count) 0 (skb_registry s).

(** 0 is null. *)
Definition skb_entry_from_pointer (s : skb_t) (skb : Z) : Z :=
  if (skb =? 0) || (skb_cache s =? NULL_CACHE) || negb (oc_owns (slabs s) (skb_cache s) skb) then 0 else skb.

(** The entry is not null. *)
Definition skb_check_geometry (s : skb_t) (entry : Z) : status :=
  let skb := skb_at s entry in
  let life := life_at s entry in
  if (sk_head skb =? 0) || (sk_data skb =? 0) || (sk_tail skb =? 0) || (sk_end skb =? 0)
     || (sk_head skb >? sk_data skb) || (sk_data skb >? sk_tail skb) || (sk_tail skb >? sk_end skb)
  then ERR_STATE else
  let capacity := sk_end skb -w sk_head skb in
  let headroom := sk_data skb -w sk_head skb in
  let length := sk_tail skb -w sk_data skb in
  if negb (sk_len skb =? length) || negb (nb_capacity life =? capacity)
     || negb (nb_headroom life =? headroom) || negb (nb_length life =? length)
     || negb (nb_tailroom life =? capacity -w headroom -w length)
  then ERR_STATE else OK.

(** The entry found is the buffer itself. *)
Definition skb_validate_locked (s : skb_t) (skb : Z) : status :=
  if skb =? 0 then ERR_NULL else
  let entry := skb_entry_from_pointer s skb in
  if (entry =? 0) || bool_decide (skb_find_locked s skb = None) then ERR_INVALID else
  if (nb_state (life_at s entry) =? NET_BUFFER_STATE_FREED) || (nb_refcount (life_at s entry) =? 0)
  then ERR_STATE else
  if negb (is_ok (skb_check_geometry s entry)) then ERR_STATE else OK.

Definition skb_update_layout (s : skb_t) (entry headroom length : Z) : skb_t * status :=
  on_lifetimes s (net_buffer_set_layout (lifetimes s) (lifetime_of entry) headroom length).

Definition skb_sync_refcount (s : skb_t) (entry : Z) : skb_t :=
  write_skb s entry ((skb_at s entry) <| sk_refcount := nb_refcount (life_at s entry) |>).

Definition skb_init (s : skb_t) : skb_t * status :=
  let s := if skb_lock_initialized s then s else s <| skb_lock_initialized := true |> in
  if kb_initialized (skb_stats s) then (s, OK) else
  let '(s, result) := on_lifetimes s (net_buffer_init (lifetimes s)) in
  if negb (is_ok result) then (s, ERR_STATE) else
  let '(slabs', cache) := oc_create (slabs s) skb_cache_name SKB_ENTRY_SIZE 16 in
  let s := (s <| slabs := slabs' |>) <| skb_cache := cache |> in
  if cache =? NULL_CACHE then (s, ERR_MEM) else
  let s := s <| skb_registry := registry_zero |> in
  let s := s <| skb_stats := skb_stats_zero |> in
  (tick (tick s (set kb_initialized (λ _, true))) (set kb_last_error (λ _, OK)), OK).

(** [kmem_cache_alloc] returns zeroed memory. *)
Definition skb_zeroed (s : skb_t) (entry : Z) : skb_t :=
  (write_skb s entry sk_buff_zero) <| lifetimes ::= λ n, write_buf n (lifetime_of entry) buffer_zero |>.

(** The fields set before the buffer is registered. *)
Definition skb_prepare (s : skb_t) (entry size : Z) : skb_t :=
  skb_sync_refcount
    (write_skb s entry
      ((((((skb_at s entry) <| sk_head := storage_of entry |>) <| sk_data := storage_of entry |>)
         <| sk_tail := storage_of entry |>) <| sk_end := storage_of entry +w size |>)
        <| sk_len := 0 |> <| sk_dev := 0 |>)) entry.

(** Returns the buffer, 0 for null. *)
Definition alloc_skb (s : skb_t) (size : Z) : skb_t * Z :=
  if (size =? 0) || (size >? SK_BUFF_STORAGE_SIZE) then (s, 0) else
  if negb (kb_initialized (skb_stats s)) || (skb_cache s =? NULL_CACHE) then (s, 0) else
  let '(slabs', entry) := oc_alloc (slabs s) (skb_cache s) in
  let s := s <| slabs := slabs' |> in
  if entry =? 0 then (s, 0) else
  let s := skb_zeroed s entry in
  let '(s, result) := on_lifetimes s
    (net_buffer_begin (lifetimes s) (lifetime_of entry) size 0 1 NET_BUFFER_OWNER_ETHERNET) in
  if negb (is_ok result) then (s <| slabs ::= λ c, oc_free c (skb_cache s) entry |>, 0) else
  let s := skb_prepare s entry size in
  match skb_free_slot_locked s with
  | None =>
      let s := skb_record_failure_locked s ERR_OVERFLOW in
      let s := (on_lifetimes s (net_buffer_complete (lifetimes s) (lifetime_of entry) ERR_OVERFLOW
                                  NET_BUFFER_OWNER_NONE)).1 in
      let s := (on_lifetimes s (net_buffer_release (lifetimes s) (lifetime_of entry))).1 in
      (s <| slabs ::= λ c, oc_free c (skb_cache s) entry |>, 0)
  | Some slot =>
      let s := s <| skb_registry ::= λ l, <[slot := entry]> l |> in
      let s := tick s (set kb_active_buffers (λ n, n +w 1)) in
      let s := tick s (set kb_allocations (λ n, n +w 1)) in
      let s := if kb_active_buffers (skb_stats s) >? kb_peak_buffers (skb_stats s)
        then tick s (λ st, st <| kb_peak_buffers := kb_active_buffers st |>) else s in
      (s, entry)
  end.

(** The three calls that move a pointer return the address, 0 for null. *)
Definition skb_put (s : skb_t) (skb len : Z) : skb_t * Z :=
  if negb (skb_lock_initialized s) then (s, 0) else
  let result := skb_validate_locked s skb in
  let k := skb_at s skb in
  let result := if is_ok result && (len >? sk_end k -w sk_tail k) then ERR_OVERFLOW else result in
  let old_tail := sk_tail k in
  let new_length := sk_len k +w len in
  let '(s, result) :=
    if is_ok result then skb_update_layout s skb (sk_data k -w sk_head k) new_length else (s, result) in
  if is_ok result
  then (write_skb s skb (k <| sk_tail := sk_tail k +w len |> <| sk_len := new_length |>), old_tail)
  else (skb_record_failure_locked s result, 0).

Definition skb_push (s : skb_t) (skb len : Z) : skb_t * Z :=
  if negb (skb_lock_initialized s) then (s, 0) else
  let result := skb_validate_locked s skb in
  let k := skb_at s skb in
  let result := if is_ok result && (len >? sk_data k -w sk_head k) then ERR_OVERFLOW else result in
  let new_data := sk_data k -w len in
  let new_length := sk_len k +w len in
  let '(s, result) :=
    if is_ok result then skb_update_layout s skb (new_data -w sk_head k) new_length else (s, result) in
  if is_ok result
  then (write_skb s skb (k <| sk_data := new_data |> <| sk_len := new_length |>), new_data)
  else (skb_record_failure_locked s result, 0).

Definition skb_pull (s : skb_t) (skb len : Z) : skb_t * Z :=
  if negb (skb_lock_initialized s) then (s, 0) else
  let result := skb_validate_locked s skb in
  let k := skb_at s skb in
  let result := if is_ok result && (len >? sk_len k) then ERR_OVERFLOW else result in
  let new_data := sk_data k +w len in
  let new_length := sk_len k -w len in
  let '(s, result) :=
    if is_ok result then skb_update_layout s skb (new_data -w sk_head k) new_length else (s, result) in
  if is_ok result
  then (write_skb s skb (k <| sk_data := new_data |> <| sk_len := new_length |>), new_data)
  else (skb_record_failure_locked s result, 0).

(** [if (result != OK) skb_record_failure_locked(result)] *)
Definition skb_finish (x : skb_t * status) : skb_t * status :=
  let '(s, result) := x in
  (if is_ok result then s else skb_record_failure_locked s result, result).

Definition skb_transition (s : skb_t) (skb next_state next_owner : Z) : skb_t * status :=
  if negb (skb_lock_initialized s) then (s, ERR_STATE) else
  let result := skb_validate_locked s skb in
  skb_finish (if is_ok result then
    let '(s, result) := on_lifetimes s
      (net_buffer_transition (lifetimes s) (lifetime_of skb) next_state next_owner) in
    (skb_sync_refcount s skb, result)
  else (s, result)).

Definition skb_complete (s : skb_t) (skb : Z) (result : status) (delivered_owner : Z) : skb_t * status :=
  if negb (skb_lock_initialized s) then (s, ERR_STATE) else
  let completion_result := skb_validate_locked s skb in
  skb_finish (if is_ok completion_result then
    let '(s, completion_result) := on_lifetimes s
      (net_buffer_complete (lifetimes s) (lifetime_of skb) result delivered_owner) in
    let s := skb_sync_refcount s skb in
    (if is_ok completion_result then
       if is_ok result then tick s (set kb_completions (λ n, n +w 1))
       else tick s (set kb_drops (λ n, n +w 1))
     else s, completion_result)
  else (s, completion_result)).

Definition skb_retain (s : skb_t) (skb : Z) : skb_t * status :=
  if negb (skb_lock_initialized s) then (s, ERR_STATE) else
  let result := skb_validate_locked s skb in
  skb_finish (if is_ok result then
    let '(s, result) := on_lifetimes s (net_buffer_retain (lifetimes s) (lifetime_of skb)) in
    (skb_sync_refcount s skb, result)
  else (s, result)).

(** The part under the lock: the state, [result] and [released]. *)
Definition skb_release_locked (s : skb_t) (skb : Z) : skb_t * status * bool :=
  let result := skb_validate_locked s skb in
  if is_ok result then
    let '(s, result) := on_lifetimes s (net_buffer_release (lifetimes s) (lifetime_of skb)) in
    let s := skb_sync_refcount s skb in
    if is_ok result && (nb_state (life_at s skb) =? NET_BUFFER_STATE_FREED) then
      match skb_find_locked s skb with
      | None => (s, ERR_INVALID, false)
      | Some slot =>
          let s := s <| skb_registry ::= λ l, <[slot := 0]> l |> in
          let s := if negb (kb_active_buffers (skb_stats s) =? 0)
            then tick s (set kb_active_buffers (λ n, n -w 1)) else s in
          (tick s (set kb_frees (λ n, n +w 1)), result, true)
      end
    else (s, result, false)
  else (s, result, false).

Definition skb_release (s : skb_t) (skb : Z) : skb_t * status :=
  if negb (skb_lock_initialized s) then (s, ERR_STATE) else
  let '(s, result, released) := skb_release_locked s skb in
  let s := (skb_finish (s, result)).1 in
  (if released then s <| slabs ::= λ c, oc_free c (skb_cache s) skb |> else s, result).

Definition free_skb (s : skb_t) (skb : Z) : skb_t := (skb_release s skb).1.

(** The destination is not null. *)
Definition skb_get_stats (s : skb_t) : option sk_buff_stats_t * status :=
  if negb (skb_lock_initialized s) then (None, ERR_STATE) else
  if negb (kb_initialized (skb_stats s)) then (None, ERR_STATE) else (Some (skb_stats s), OK).

(** The entry of one registry slot is inconsistent. *)
Definition skb_entry_bad (s : skb_t) (skb : Z) : bool :=
  negb (skb =? 0) &&
  (negb (is_ok (skb_check_geometry s skb))
   || negb (sk_refcount (skb_at s skb) =? nb_refcount (life_at s skb))
   || (nb_state (life_at s skb) =? NET_BUFFER_STATE_FREED)).

Definition skb_validate_state (s : skb_t) : status :=
  if negb (skb_lock_initialized s) then ERR_STATE else
  let result := if negb (is_ok (net_buffer_validate_state (lifetimes s))) then ERR_STATE else OK in
  if negb (kb_initialized (skb_stats s)) || (skb_cache s =? NULL_CACHE) then ERR_STATE else
  let result := if existsb (skb_entry_bad s) (skb_registry s) then ERR_STATE else result in
  match net_buffer_get_stats (lifetimes s), oc_get_info (slabs s) (skb_cache s) with
  | (Some buffer_stats, OK), (Some cache_info, OK) =>
      let st := skb_stats s in
      if negb (ns_active_buffers buffer_stats =? kb_active_buffers st)
         || negb (ki_active_objects cache_info =? kb_active_buffers st)
         || (kb_active_buffers st >? SKB_TRACKING_CAPACITY)
         || (kb_frees st >? kb_allocations st)
         || (kb_peak_buffers st <? kb_active_buffers st)
      then ERR_STATE else result
  | _, _ => ERR_STATE
  end.

(** ** The self test

    Conditions are chained as the code chains them with [||]: the first one that
    fails stops the chain with [ERR_STATE]. *)

#[local] Notation "x >>> f" := (and_then x f) (at level 50, left associativity).
Definition check (b : skb_t → bool) (s : skb_t) : skb_t * status := (s, if b s then OK else ERR_STATE).
Definition pointer (b : bool) (x : skb_t * Z) : skb_t * status :=
  (x.1, if Bool.eqb (negb (x.2 =? 0)) b then OK else ERR_STATE).

(** The loop that drops the references left. *)
Definition skb_release_all (s : skb_t) (skb references : Z) (result : status) : skb_t * status :=
  foldl (λ '(s, result) _,
    let '(s, r) := skb_release s skb in (s, if is_ok r then result else ERR_STATE))
    (s, result) (range 0 references).

Definition skb_test_pointer_ops (s : skb_t) : skb_t * status :=
  let '(s, skb) := alloc_skb s 128 in
  if skb =? 0 then (s, ERR_MEM) else
  let length n := check (λ s, sk_len (skb_at s skb) =? n) in
  let '(s, result) :=
    check (λ s, (sk_head (skb_at s skb) =? sk_data (skb_at s skb))
                && (sk_data (skb_at s skb) =? sk_tail (skb_at s skb))
                && (sk_len (skb_at s skb) =? 0)) s
    >>> (λ s, pointer true (skb_put s skb 32)) >>> length 32
    >>> (λ s, pointer true (skb_pull s skb 8)) >>> length 24
    >>> (λ s, pointer true (skb_push s skb 4)) >>> length 28
    >>> (λ s, pointer false (skb_put s skb 128))
    >>> (λ s, pointer false (skb_pull s skb 64))
    >>> (λ s, pointer false (skb_push s skb 64))
    >>> (λ s, expecting OK (s, skb_validate_state s)) in
  let '(s, result) := (s, result)
    >>> (λ s, expecting OK (skb_transition s skb NET_BUFFER_STATE_RX NET_BUFFER_OWNER_ETHERNET)) in
  let '(s, completion) := skb_complete s skb (if is_ok result then OK else ERR_CANCELLED)
    (if is_ok result then NET_BUFFER_OWNER_PROTOCOL else NET_BUFFER_OWNER_NONE) in
  if negb (is_ok completion) then (s, ERR_STATE) else
  skb_release_all s skb (sk_refcount (skb_at s skb)) result.

Definition skb_test_lifetime (s : skb_t) : skb_t * status :=
  let '(s, skb) := alloc_skb s 256 in
  if skb =? 0 then (s, ERR_MEM) else
  let '(s, result) :=
    expecting ERR_STATE (skb_release s skb)
    >>> (λ s, expecting OK (skb_transition s skb NET_BUFFER_STATE_RX NET_BUFFER_OWNER_DRIVER))
    >>> (λ s, expecting OK (skb_transition s skb NET_BUFFER_STATE_QUEUED NET_BUFFER_OWNER_PROTOCOL))
    >>> (λ s, expecting OK (skb_retain s skb))
    >>> (λ s, expecting OK (skb_transition s skb NET_BUFFER_STATE_IN_FLIGHT NET_BUFFER_OWNER_SOCKET))
    >>> (λ s, expecting OK (skb_complete s skb OK NET_BUFFER_OWNER_SOCKET)) in
  let '(s, completion) := if is_ok result then (s, OK)
    else skb_complete s skb ERR_CANCELLED NET_BUFFER_OWNER_NONE in
  if negb (is_ok completion) then (s, ERR_STATE) else
  skb_release_all s skb (sk_refcount (skb_at s skb)) result.

Definition skb_test_drop (s : skb_t) : skb_t * status :=
  let '(s, skb) := alloc_skb s 256 in
  if skb =? 0 then (s, ERR_MEM) else
  let '(s, result) :=
    expecting OK (skb_transition s skb NET_BUFFER_STATE_IN_FLIGHT NET_BUFFER_OWNER_DRIVER)
    >>> (λ s, expecting OK (skb_complete s skb ERR_TIMEOUT NET_BUFFER_OWNER_NONE)) in
  let completed := is_ok result in
  let '(s, result) := (s, result)
    >>> (λ s, expecting ERR_STATE (skb_complete s skb ERR_TIMEOUT NET_BUFFER_OWNER_NONE)) in
  let '(s, completion) := if completed then (s, OK)
    else skb_complete s skb ERR_CANCELLED NET_BUFFER_OWNER_NONE in
  if negb (is_ok completion) then (s, ERR_STATE) else
  skb_release_all s skb (sk_refcount (skb_at s skb)) result
  >>> (λ s, expecting ERR_INVALID (skb_release s skb)).

Definition skb_self_test (s : skb_t) : skb_t * status :=
  match skb_get_stats s, net_buffer_get_stats (lifetimes s) with
  | (Some saved_stats, OK), (Some saved_buffer_stats, OK) =>
      if negb (kb_active_buffers (skb_stats s) =? 0) || skb_testing s then (s, ERR_STATE) else
      let s := s <| skb_testing := true |> in
      let '(s, result) :=
        expecting OK (skb_test_pointer_ops s)
        >>> (λ s, expecting OK (skb_test_lifetime s))
        >>> (λ s, expecting OK (skb_test_drop s)) in
      let result := if negb (is_ok (skb_validate_state s)) then ERR_STATE else result in
      let result := if negb (kb_active_buffers (skb_stats s) =? 0)
                       || negb (skb_registry_count_locked s =? 0) then ERR_STATE else result in
      let s := s <| skb_stats := saved_stats |> in
      let s := s <| skb_testing := false |> in
      let '(s, restored) := on_lifetimes s (net_buffer_restore_stats (lifetimes s) saved_buffer_stats) in
      (s, if negb (is_ok restored) then ERR_STATE else result)
  | _, _ => (s, ERR_STATE)
  end.
End operations.
