(* ===== verification/SkbInv.v ===== *)
(** * The invariant of sk_buff.c

    The registry of sk_buff.c and the registry of net_buffer.c move in step,
    slot by slot; the objects of the slab cache in use are exactly the
    registered buffers; and the pointers of each buffer describe the layout its
    lifetime descriptor records. *)

From S2P Require Import Prelude Registry Memory Slab NetBuffer SkBuff.

Ltac skb_cbn :=
  lazy beta iota zeta delta [tick write_skb on_lifetimes set eta skb_eta sk_buff_stats_eta slabs lifetimes
    skb_mem skb_cache skb_registry skb_lock_initialized skb_testing skb_stats
    kb_initialized kb_active_buffers kb_peak_buffers kb_allocations kb_frees kb_completions kb_drops
    kb_invalid_operations kb_last_error fst snd].

(** ** Calls of net_buffer.c on one live descriptor *)

Definition layout (b : net_buffer_t) : Z * Z * Z * Z :=
  (nb_capacity b, nb_headroom b, nb_length b, nb_tailroom b).

(** Only the descriptor [q] may have changed, and not its layout; [dv] buffers
    were delivered and [dp] dropped. *)
Record touched (s s' : net_t) (q dv dp : Z) : Prop := {
  to_registry : net_buffer_registry s' = net_buffer_registry s;
  to_other r : r ≠ q → buf s' r = buf s r;
  to_layout : layout (buf s' q) = layout (buf s q);
  to_delivered : ns_delivered (net_buffer_stats s') = ns_delivered (net_buffer_stats s) + dv;
  to_dropped : ns_dropped (net_buffer_stats s') = ns_dropped (net_buffer_stats s) + dp
}.

Lemma touched_count s q f : (∀ st, same_counts st (f st)) → touched s (count s f) q 0 0.
Proof.
  intros Hf. destruct (Hf (net_buffer_stats s)) as (_ & _ & _ & _ & _ & E1 & E2 & _).
  split; [done|done|done|rewrite Z.add_0_r; exact E1|rewrite Z.add_0_r; exact E2].
Qed.

Lemma touched_fail s q r d : touched s (net_buffer_fail_locked s r d).1 q 0 0.
Proof. destruct (fail_state s r d) as (f & Hf & ->). by apply touched_count. Qed.

Lemma touched_write s q b f dv dp :
  layout b = layout (buf s q) →
  ns_delivered (f (net_buffer_stats s)) = ns_delivered (net_buffer_stats s) + dv →
  ns_dropped (f (net_buffer_stats s)) = ns_dropped (net_buffer_stats s) + dp →
  touched s (count (write_buf s q b) f) q dv dp.
Proof.
  intros Hl H1 H2. split; [done| | |exact H1|exact H2].
  - intros r Hr. rewrite buf_count, buf_write. by rewrite decide_False.
  - rewrite buf_count, buf_write. by rewrite decide_True.
Qed.

Lemma touched_write_plain s q b : layout b = layout (buf s q) → touched s (write_buf s q b) q 0 0.
Proof. intros Hl. rewrite <-(count_id (write_buf s q b)). apply touched_write; [done|unfold id; lia..]. Qed.

Lemma transition_touched n s q st o :
  net_inv n s → touched s (net_buffer_transition s q st o).1 q 0 0.
Proof.
  intros Hs. unfold net_buffer_transition. destruct (_ || _); [apply touched_fail|].
  check_active Hs q Hq; [apply touched_fail| |apply touched_fail].
  destruct (net_buffer_transition_allowed _ st); cbn [is_ok andb negb]; [|apply touched_fail].
  destruct (net_buffer_state_owner_valid st o); cbn [is_ok andb negb]; [|apply touched_fail].
  by apply touched_write_plain.
Qed.

Lemma retain_touched n s q : net_inv n s → touched s (net_buffer_retain s q).1 q 0 0.
Proof.
  intros Hs. unfold net_buffer_retain. check_active Hs q Hq; [apply touched_fail| |apply touched_fail].
  destruct (_ =? NET_BUFFER_COUNTER_MAX); cbn [is_ok negb]; [apply touched_fail|].
  apply touched_write; [done|..]; change (ns_delivered (set ns_ref_acquires _ ?x)) with (ns_delivered x);
    change (ns_dropped (set ns_ref_acquires _ ?x)) with (ns_dropped x); lia.
Qed.

Lemma complete_touched n s q r o :
  net_inv n s → n + 1 < 2 ^ 32 →
  let '(s', result) := net_buffer_complete s q r o in
  touched s s' q (Z.b2z (is_ok result && is_ok r)) (Z.b2z (is_ok result && negb (is_ok r))).
Proof.
  intros Hs Hlt. unfold net_buffer_complete, net_buffer_complete_locked.
  assert (∀ e d, is_ok e = false → let '(s', result) := net_buffer_fail_locked s e d in
    touched s s' q (Z.b2z (is_ok result && is_ok r)) (Z.b2z (is_ok result && negb (is_ok r)))) as F.
  { intros e d He. destruct (fail_state s e d) as (f & Hf & ->). rewrite He. by apply touched_count. }
  pose proof (ni_stats n s Hs) as [].
  check_active Hs q Hq; [by apply F| |by apply F]. destruct (is_terminal _); [by apply F|].
  destruct (is_ok r).
  - destruct (_ && _ && _); [by apply F|]. destruct (_ && _); [by apply F|].
    apply touched_write; [done|..].
    + change (ns_delivered (set ns_delivered ?f ?x)) with (f (ns_delivered x)). cbn. rewrite u32_small; lia.
    + cbn. change (ns_dropped (set ns_delivered ?f ?x)) with (ns_dropped x). lia.
  - destruct (_ && _ && _ && _); [by apply F|]. destruct (negb (o =? _)); [by apply F|].
    apply touched_write; [done|..].
    + cbn. change (ns_delivered (set ns_dropped ?f ?x)) with (ns_delivered x). lia.
    + change (ns_dropped (set ns_dropped ?f ?x)) with (f (ns_dropped x)). cbn. rewrite u32_small; lia.
Qed.

(** The release of the last reference clears the slot; any other only touches. *)
Lemma release_cases n s q :
  net_inv n s → q ∈ live (net_buffer_registry s) →
  let '(s', result) := net_buffer_release s q in
  (touched s s' q 0 0) ∨
  (result = OK ∧ nb_state (buf s' q) = NET_BUFFER_STATE_FREED ∧ is_terminal (buf s q) = true ∧
   nb_refcount (buf s q) = 1 ∧
   (∃ slot, find_slot q (net_buffer_registry s) = Some slot ∧
      net_buffer_registry s' = <[slot := 0]> (net_buffer_registry s)) ∧
   (∀ r, r ≠ q → buf s' r = buf s r) ∧
   ns_delivered (net_buffer_stats s') = ns_delivered (net_buffer_stats s) ∧
   ns_dropped (net_buffer_stats s') = ns_dropped (net_buffer_stats s)).
Proof.
  intros Hs Hq. unfold net_buffer_release. check_active Hs q Hq'; [left; apply touched_fail| |done].
  destruct (is_terminal (buf s q)) eqn:Ht; cbn [is_ok negb]; [|left; apply touched_fail].
  pose proof (ni_buffers n s Hs q Hq) as [].
  destruct (Z.gtb_spec (nb_refcount (buf s q)) 1); cbn [is_ok negb].
  - left. apply touched_write; [done|..]; change (ns_delivered (set ns_ref_releases _ ?x)) with (ns_delivered x);
      change (ns_dropped (set ns_ref_releases _ ?x)) with (ns_dropped x); lia.
  - destruct (live_find s q Hq) as [slot Hslot]. rewrite Hslot. cbn [is_ok negb]. right.
    set (b := (_ <| nb_owner := NET_BUFFER_OWNER_NONE |>)). set (s1 := write_buf s q b).
    split; [done|].
    assert (∀ x r, net_mem x = net_mem s1 → buf x r = buf s1 r) as Hm by (intros x r E; unfold buf; by rewrite E).
    assert (∀ r, buf s1 r = if decide (r = q) then b else buf s r) as Hb by (intros r; apply buf_write).
    split; [rewrite (Hm _ q) by (by destruct (negb (_ =? 0))); by rewrite Hb, decide_True|].
    do 2 (split; [done || lia|]).
    split; [exists slot; split; [exact Hslot|]; by destruct (negb (_ =? 0))|].
    split; [intros r Hr; rewrite (Hm _ r) by (by destruct (negb (_ =? 0))); by rewrite Hb, decide_False|].
    by destruct (negb (_ =? 0)).
Qed.

Lemma set_layout_exact n s q h l :
  net_inv n s → q ∈ live (net_buffer_registry s) → is_u32 h → is_u32 l →
  let b := buf s q in
  net_buffer_set_layout s q h l =
    if is_terminal b then ((net_buffer_fail_locked s ERR_STATE false).1, ERR_STATE)
    else if h + l <=? nb_capacity b
    then (write_buf s q (b <| nb_headroom := h |> <| nb_length := l |>
                           <| nb_tailroom := nb_capacity b - h - l |>), OK)
    else ((net_buffer_fail_locked s ERR_OVERFLOW false).1, ERR_OVERFLOW).
Proof.
  intros Hs Hq Hh Hl b. unfold net_buffer_set_layout, net_buffer_set_layout_locked. fold b.
  pose proof Hq as [Hq0 _]%elem_of_live. check_active Hs q Hq'; [done| |done].
  destruct (is_terminal b); cbn [is_ok andb]; [done|].
  pose proof (ni_buffers n s Hs q Hq) as []. fold b in bo_capacity. unfold is_u32 in *.
  destruct (Z.gtb_spec h (nb_capacity b)); cbn [is_ok andb].
  { by replace (h + l <=? nb_capacity b) with false by lia. }
  rewrite (u32_small (nb_capacity b - h)) by lia. destruct (Z.gtb_spec l (nb_capacity b - h)); cbn [is_ok andb].
  { by replace (h + l <=? nb_capacity b) with false by lia. }
  replace (h + l <=? nb_capacity b) with true by lia. by rewrite u32_small by lia.
Qed.

(** ** The two registries *)

Definition lifetime_slot (p : Z) : Z := if p =? 0 then 0 else lifetime_of p.

Lemma find_lifetime p l :
  (∀ x, x ∈ l → 0 ≤ x) → 0 ≤ p → find_slot (lifetime_slot p) (map lifetime_slot l) = find_slot p l.
Proof.
  intros Hl Hp. induction l as [|x l IH]; [done|]. cbn [map find_slot].
  assert (0 ≤ x) by (apply Hl; constructor). rewrite IH by (intros y Hy; apply Hl; by constructor).
  assert ((lifetime_slot x =? lifetime_slot p) = (x =? p)) as ->; [|done].
  unfold lifetime_slot, lifetime_of. destruct (Z.eqb_spec x 0), (Z.eqb_spec p 0); lia.
Qed.

Lemma live_lifetimes l : (∀ x, x ∈ l → 0 ≤ x) → live (map lifetime_slot l) = map lifetime_of (live l).
Proof.
  intros Hl. induction l as [|x l IH]; [done|]. cbn [map]. rewrite !live_cons.
  assert (0 ≤ x) by (apply Hl; constructor). rewrite IH by (intros y Hy; apply Hl; by constructor).
  unfold lifetime_slot, lifetime_of. destruct (Z.eqb_spec x 0); [done|].
  by replace (x + 28 =? 0) with false by lia.
Qed.

(** ** The invariant *)

(** The pointers of a buffer and the layout of its descriptor. *)
Record entry_ok (p : Z) (k : sk_buff_t) (b : net_buffer_t) : Prop := {
  eo_head : sk_head k = storage_of p;
  eo_data : sk_data k = storage_of p + nb_headroom b;
  eo_tail : sk_tail k = storage_of p + nb_headroom b + nb_length b;
  eo_end : sk_end k = storage_of p + nb_capacity b;
  eo_len : sk_len k = nb_length b;
  eo_refcount : sk_refcount k = nb_refcount b;
  eo_capacity : nb_capacity b ≤ SK_BUFF_STORAGE_SIZE
}.

Record kstats_ok (n : Z) (l : list Z) (st : sk_buff_stats_t) (nst : net_buffer_stats_t) : Prop := {
  ko_init : kb_initialized st = true;
  ko_active : kb_active_buffers st = len (live l);
  ko_peak : kb_active_buffers st ≤ kb_peak_buffers st;
  ko_allocations : kb_allocations st = kb_frees st + len (live l);
  ko_frees : 0 ≤ kb_frees st;
  ko_bound : kb_allocations st ≤ n;
  ko_completions : kb_completions st = ns_delivered nst;
  ko_drops : kb_drops st = ns_dropped nst
}.

Section invariant.
Context {S : Type} `{OL : ObjectCacheLaws S}.
Implicit Types s : skb_t S.

Record skb_inv (n : Z) s : Prop := {
  kv_lock : skb_lock_initialized s = true;
  kv_null : skb_cache s ≠ NULL_CACHE;
  kv_slabs : oc_inv (slabs s);
  kv_cache : oc_cache (slabs s) (skb_cache s) SKB_ENTRY_SIZE;
  kv_net : net_inv n (lifetimes s);
  kv_step : net_buffer_registry (lifetimes s) = map lifetime_slot (skb_registry s);
  kv_objects : oc_objects (slabs s) (skb_cache s) ≡ₚ live (skb_registry s);
  kv_nonneg p : p ∈ skb_registry s → 0 ≤ p;
  kv_entry p : p ∈ live (skb_registry s) → entry_ok p (skb_at s p) (life_at s p);
  kv_stats : kstats_ok n (skb_registry s) (skb_stats s) (net_buffer_stats (lifetimes s))
}.

Lemma kv_bounds n s p :
  skb_inv n s → p ∈ live (skb_registry s) → 0 < p ∧ p + SKB_ENTRY_SIZE < 2 ^ 32.
Proof.
  intros I Hp. destruct (oc_apart_law _ _ _ (kv_slabs _ _ I) (kv_cache _ _ I)) as (_ & Hb & _).
  apply Hb. by rewrite (kv_objects _ _ I).
Qed.

Lemma kv_nodup n s : skb_inv n s → NoDup (live (skb_registry s)).
Proof. intros I. rewrite <-(kv_objects _ _ I). by apply (oc_apart_law _ _ _ (kv_slabs _ _ I) (kv_cache _ _ I)). Qed.

Lemma kv_live n s p :
  skb_inv n s → 0 < p →
  lifetime_of p ∈ live (net_buffer_registry (lifetimes s)) ↔ p ∈ live (skb_registry s).
Proof.
  intros I Hp. rewrite (kv_step _ _ I), live_lifetimes by apply I. rewrite list_elem_of_fmap. split.
  - intros (q & E & Hq). unfold lifetime_of in E. by replace p with q by lia.
  - intros Hin. by exists p.
Qed.

Lemma kv_buffer n s p : skb_inv n s → p ∈ live (skb_registry s) → buffer_ok (life_at s p).
Proof.
  intros I Hp. apply (ni_buffers _ _ (kv_net _ _ I)). apply (kv_live _ _ _ I); [|done].
  by destruct (kv_bounds _ _ _ I Hp).
Qed.

Lemma kv_length n s : skb_inv n s → length (skb_registry s) = 32%nat.
Proof.
  intros I. pose proof (ni_length _ _ (kv_net _ _ I)) as Hl. by rewrite (kv_step _ _ I), length_map in Hl.
Qed.

(** ** Validation *)

Lemma geometry_ok p k b :
  0 < p → p + SKB_ENTRY_SIZE < 2 ^ 32 → buffer_ok b → entry_ok p k b →
  sk_head k = p + 64 ∧ 0 ≤ sk_head k ≤ sk_data k ∧ sk_data k ≤ sk_tail k ≤ sk_end k ∧ sk_end k < 2 ^ 32 ∧
  sk_end k ≤ p + SKB_ENTRY_SIZE ∧ sk_tail k = sk_data k + sk_len k ∧ sk_end k = sk_head k + nb_capacity b ∧
  sk_data k = sk_head k + nb_headroom b ∧ sk_len k = nb_length b ∧ sk_end k = sk_tail k + nb_tailroom b.
Proof.
  intros H1 H2 [] []. unfold SKB_ENTRY_SIZE, SK_BUFF_STORAGE_SIZE, storage_of in *. lia.
Qed.

Lemma kv_geometry n s p :
  skb_inv n s → p ∈ live (skb_registry s) →
  let k := skb_at s p in
  let b := life_at s p in
  sk_head k = p + 64 ∧ 0 ≤ sk_head k ≤ sk_data k ∧ sk_data k ≤ sk_tail k ≤ sk_end k ∧ sk_end k < 2 ^ 32 ∧
  sk_end k ≤ p + SKB_ENTRY_SIZE ∧ sk_tail k = sk_data k + sk_len k ∧ sk_end k = sk_head k + nb_capacity b ∧
  sk_data k = sk_head k + nb_headroom b ∧ sk_len k = nb_length b ∧ sk_end k = sk_tail k + nb_tailroom b.
Proof.
  intros I Hp. destruct (kv_bounds _ _ _ I Hp) as [H1 H2].
  apply (geometry_ok _ _ _ H1 H2 (kv_buffer _ _ _ I Hp) (kv_entry _ _ I p Hp)).
Qed.

Lemma check_geometry_ok n s p : skb_inv n s → p ∈ live (skb_registry s) → skb_check_geometry s p = OK.
Proof.
  intros I Hp. destruct (kv_bounds _ _ _ I Hp) as [H1 _]. unfold skb_check_geometry.
  destruct (kv_geometry _ _ _ I Hp) as (G1 & G2 & G3 & G4 & G5 & G6 & G7 & G8 & G9 & G10).
  set (k := skb_at s p) in *. set (b := life_at s p) in *. clearbody k b. clear -H1 G1 G2 G3 G4 G6 G7 G8 G9 G10.
  replace (_ || _) with false by lia. rewrite (u32_small (sk_end k - sk_head k)), (u32_small (sk_data k - sk_head k)), (u32_small (sk_tail k - sk_data k)) by lia.
  rewrite !u32_small by (rewrite ?u32_small; lia). by replace (_ || _) with false by lia.
Qed.

Lemma validate_spec n s p :
  skb_inv n s →
  skb_validate_locked s p =
    if p =? 0 then ERR_NULL else if decide (p ∈ live (skb_registry s)) then OK else ERR_INVALID.
Proof.
  intros I. unfold skb_validate_locked. destruct (Z.eqb_spec p 0) as [|Hp]; [done|].
  destruct (decide (p ∈ live (skb_registry s))) as [Hin|Hin].
  - assert (skb_entry_from_pointer s p = p) as ->.
    { unfold skb_entry_from_pointer. pose proof (kv_null _ _ I).
      rewrite (oc_owns_law _ _ _ _ (kv_slabs _ _ I) (kv_cache _ _ I)) by (by rewrite (kv_objects _ _ I)).
      replace (p =? 0) with false by lia. by replace (skb_cache s =? NULL_CACHE) with false by lia. }
    rewrite bool_decide_eq_false_2.
    2: { unfold skb_find_locked. intros E%find_slot_None. apply E. by apply elem_of_live in Hin as [_ ?]. }
    rewrite (check_geometry_ok n) by done. destruct (kv_buffer _ _ _ I Hin). unfold NET_BUFFER_STATE_FREED.
    replace (p =? 0) with false by lia. cbn [orb]. by replace (_ || _) with false by lia.
  - rewrite bool_decide_eq_true_2; [by rewrite orb_true_r|]. apply find_slot_None. intros E.
    apply Hin, elem_of_live. by split.
Qed.

Lemma skb_validate_ok n s : skb_inv n s → skb_validate_state s = OK.
Proof.
  intros I. unfold skb_validate_state. rewrite (kv_lock _ _ I). cbn [negb].
  rewrite (net_validate_ok n) by apply I. cbn [is_ok negb].
  destruct (kv_stats _ _ I) as [K1 K2 K3 K4 K5 K6 K7 K8]. rewrite K1. pose proof (kv_null _ _ I).
  replace (skb_cache s =? NULL_CACHE) with false by lia. cbn [negb orb].
  assert (existsb (skb_entry_bad s) (skb_registry s) = false) as ->.
  { apply not_true_iff_false. intros (p & Hp%list_elem_of_In & Hbad)%existsb_exists.
    unfold skb_entry_bad in Hbad. apply andb_true_iff in Hbad as [Hp0%negb_true_iff%Z.eqb_neq Hbad].
    assert (p ∈ live (skb_registry s)) as Hin by (by apply elem_of_live).
    rewrite (check_geometry_ok n) in Hbad by done. rewrite (eo_refcount _ _ _ (kv_entry _ _ I p Hin)), Z.eqb_refl in Hbad.
    destruct (kv_buffer _ _ _ I Hin). unfold NET_BUFFER_STATE_FREED in Hbad. cbn in Hbad. lia. }
  unfold net_buffer_get_stats. rewrite (ni_init _ _ (kv_net _ _ I)). cbn [negb].
  destruct (oc_info_law _ _ _ (kv_slabs _ _ I) (kv_cache _ _ I)) as (info & -> & Ha).
  assert (len (oc_objects (slabs s) (skb_cache s)) = len (live (skb_registry s))) as El
    by (unfold len; by rewrite (kv_objects _ _ I)).
  assert (ns_active_buffers (net_buffer_stats (lifetimes s)) = len (live (skb_registry s))) as En.
  { rewrite (so_active _ _ _ _ (ni_stats _ _ (kv_net _ _ I))), (kv_step _ _ I), live_lifetimes by apply I.
    by rewrite length_map. }
  pose proof (live_length (skb_registry s)) as Hlen. rewrite (kv_length _ _ I) in Hlen.
  assert (len (live (skb_registry s)) ≤ 32) by (unfold len; lia). unfold SKB_TRACKING_CAPACITY, NET_BUFFER_TRACKING_CAPACITY.
  assert (0 ≤ len (live (skb_registry s))) by (unfold len; lia).
  by replace (_ || _) with false by lia.
Qed.
End invariant.
