(* ===== verification/SkbCalls.v ===== *)
(** * Every call of sk_buff.h keeps the invariant

    The calls that move a pointer are reduced to one operation, [resize_to],
    that sets the head room and the length of a buffer. *)

From S2P Require Import Prelude Registry Memory Slab NetBuffer SkBuff SkbInv.

Section calls.
Context {S : Type} `{OL : ObjectCacheLaws S}.
Implicit Types s : skb_t S.

Lemma skb_at_write s p k q : skb_at (write_skb s p k) q = if decide (q = p) then k else skb_at s q.
Proof.
  unfold skb_at. change (skb_mem (write_skb s p k)) with (<[p := k]> (skb_mem s)).
  destruct (decide (q = p)) as [->|]; [by rewrite lookup_insert_eq|by rewrite lookup_insert_ne].
Qed.

Lemma net_inv_mono n n' x : n ≤ n' → net_inv n x → net_inv n' x.
Proof. intros Hn []. split; try done. by apply (stats_ok_mono n). Qed.

(** The statistics and the counter bound may move. *)
Lemma inv_stats n n' s st :
  skb_inv n s → n ≤ n' → kstats_ok n' (skb_registry s) st (net_buffer_stats (lifetimes s)) →
  skb_inv n' (s <| skb_stats := st |>).
Proof. intros [] Hn Hk. split; try done. by apply (net_inv_mono n). Qed.

Lemma kstats_mono n n' l st nst : n ≤ n' → kstats_ok n l st nst → kstats_ok n' l st nst.
Proof. intros Hn []. split; done || lia. Qed.

Lemma skb_inv_mono n n' s : n ≤ n' → skb_inv n s → skb_inv n' s.
Proof.
  intros Hn [K1 K2 K3 K4 K5 K6 K7 K8 K9 K10]. split; try done; [by apply (net_inv_mono n)|by apply (kstats_mono n)].
Qed.

Lemma kstats_failure n l st nst r :
  kstats_ok n l st nst →
  kstats_ok n l ((st <| kb_invalid_operations ::= λ n, n +w 1 |>) <| kb_last_error := r |>) nst.
Proof. intros []. by split. Qed.

Lemma inv_failure n s r : skb_inv n s → skb_inv n (skb_record_failure_locked s r).
Proof.
  intros I. apply (inv_stats n n s (((skb_stats s) <| kb_invalid_operations ::= λ n, n +w 1 |>) <| kb_last_error := r |>));
    [done|lia|]. by apply kstats_failure, I.
Qed.

(** A call of net_buffer.c on the descriptor of a registered buffer. *)
Lemma inv_lifetime n s p net' k st :
  skb_inv n s → p ∈ live (skb_registry s) → net_inv (n + 1) net' →
  net_buffer_registry net' = net_buffer_registry (lifetimes s) →
  (∀ r, r ≠ lifetime_of p → buf net' r = buf (lifetimes s) r) →
  entry_ok p k (buf net' (lifetime_of p)) →
  kstats_ok (n + 1) (skb_registry s) st (net_buffer_stats net') →
  skb_inv (n + 1) ((write_skb (s <| lifetimes := net' |>) p k) <| skb_stats := st |>).
Proof.
  intros [K1 K2 K3 K4 K5 K6 K7 K8 K9 K10] Hp N Hr Ho He Hk. split; try done; [exact (eq_trans Hr K6)|].
  intros q Hq. change (skb_at (_ <| skb_stats := st |>) q) with (skb_at (write_skb (s <| lifetimes := net' |>) p k) q).
  rewrite skb_at_write. destruct (decide (q = p)) as [->|Hne]; [done|].
  change (life_at (_ <| skb_stats := st |>) q) with (buf net' (lifetime_of q)).
  rewrite Ho by (unfold lifetime_of; lia). by apply K9.
Qed.

(** A call of net_buffer.c that changes no descriptor. *)
Lemma inv_net n s q net' :
  skb_inv n s → net_inv (n + 1) net' → touched (lifetimes s) net' q 0 0 →
  (∀ r, buf net' r = buf (lifetimes s) r) → skb_inv (n + 1) (s <| lifetimes := net' |>).
Proof.
  intros [K1 K2 K3 K4 K5 K6 K7 K8 K9 K10] N [T1 T2 T3 T4 T5] Hb.
  split; try done; [exact (eq_trans T1 K6)| |].
  - intros p Hp. change (life_at (s <| lifetimes := net' |>) p) with (buf net' (lifetime_of p)).
    rewrite Hb. by apply K9.
  - destruct K10. split; try done; change (lifetimes (s <| lifetimes := net' |>)) with net';
      change (skb_stats (s <| lifetimes := net' |>)) with (skb_stats s); lia.
Qed.

(** ** put, push and pull *)

Definition resize_to s (p h l address : Z) : skb_t S * Z :=
  let k := skb_at s p in
  let b := life_at s p in
  if is_terminal b then
    (skb_record_failure_locked
       (s <| lifetimes ::= λ x, (net_buffer_fail_locked x ERR_STATE false).1 |>) ERR_STATE, 0)
  else
    (write_skb (s <| lifetimes ::= λ x, write_buf x (lifetime_of p)
        (b <| nb_headroom := h |> <| nb_length := l |> <| nb_tailroom := nb_capacity b - h - l |>) |>) p
       (SkBuff (sk_head k) (sk_head k + h) (sk_head k + h + l) (sk_end k) l (sk_refcount k) (sk_dev k)), address).

Lemma resize_inv n s p h l a :
  skb_inv n s → p ∈ live (skb_registry s) → 0 ≤ h → 0 ≤ l → h + l ≤ nb_capacity (life_at s p) →
  skb_inv (n + 1) (resize_to s p h l a).1.
Proof.
  intros I Hp Hh Hl Hc. unfold resize_to. pose proof (kv_buffer _ _ _ I Hp) as B. pose proof (kv_entry _ _ I p Hp) as E.
  destruct (is_terminal (life_at s p)) eqn:Ht; cbn [fst].
  - apply inv_failure. eapply (inv_net n s (lifetime_of p)); [done|apply inv_fail, I|apply touched_fail|].
    intros r. unfold buf. by destruct (fail_state (lifetimes s) ERR_STATE false) as (f & _ & ->).
  - set (b' := set nb_tailroom _ _). set (k' := SkBuff _ _ _ _ _ _ _).
    pose proof (inv_lifetime n s p (write_buf (lifetimes s) (lifetime_of p) b') k' (skb_stats s)) as H'.
    apply H'; clear H'; try done.
    + apply inv_write; [apply I| |..].
      * apply (kv_live _ _ _ I); [|done]. by destruct (kv_bounds _ _ _ I Hp).
      * fold (life_at s p). destruct B. unfold b'. split; buffer_cbn; (done || lia).
      * fold (life_at s p). rewrite !terminal_done; [done|done|]. exact Ht.
      * done.
    + intros r Hr. by rewrite buf_write, decide_False.
    + rewrite buf_write, decide_True by done. destruct E as [E1 E2 E3 E4 E5 E6 E7].
      split; try done; subst k' b'; buffer_cbn; cbn [sk_data sk_tail]; rewrite E1; done.
    + apply (kstats_mono n); [lia|]. apply I.
Qed.

(** Refused before net_buffer.c is called. *)
Definition refuse s (r : status) : skb_t S * Z := (skb_record_failure_locked s r, 0).

Lemma validate_live n s p : skb_inv n s → p ∈ live (skb_registry s) → skb_validate_locked s p = OK.
Proof.
  intros I Hp. rewrite (validate_spec _ _ _ I), decide_True by done. pose proof Hp as [Hp0 _]%elem_of_live.
  by replace (p =? 0) with false by lia.
Qed.

(** A move the descriptor accepts. *)
Lemma update_layout_exact n s p h l :
  skb_inv n s → p ∈ live (skb_registry s) → is_u32 h → is_u32 l → h + l ≤ nb_capacity (life_at s p) →
  skb_update_layout s p h l =
    if is_terminal (life_at s p)
    then (s <| lifetimes ::= λ x, (net_buffer_fail_locked x ERR_STATE false).1 |>, ERR_STATE)
    else (s <| lifetimes ::= λ x, write_buf x (lifetime_of p)
            ((life_at s p) <| nb_headroom := h |> <| nb_length := l |>
                           <| nb_tailroom := nb_capacity (life_at s p) - h - l |>) |>, OK).
Proof.
  intros I Hp Hh Hl Hc. unfold skb_update_layout.
  rewrite (set_layout_exact n); [|apply I| |done|done].
  2: { apply (kv_live _ _ _ I); [|done]. by destruct (kv_bounds _ _ _ I Hp). }
  fold (life_at s p). destruct (is_terminal (life_at s p)); [done|].
  by replace (h + l <=? nb_capacity (life_at s p)) with true by lia.
Qed.

Section resize.
Context n s p len (I : skb_inv n s) (Hp : p ∈ live (skb_registry s)) (Hlen : is_u32 len).

Lemma put_exact :
  let b := life_at s p in
  skb_put s p len =
    if len <=? nb_tailroom b then resize_to s p (nb_headroom b) (nb_length b + len) (sk_tail (skb_at s p))
    else refuse s ERR_OVERFLOW.
Proof.
  intros b. unfold skb_put, is_u32 in *. rewrite (kv_lock _ _ I), (validate_live n) by done. cbn [negb is_ok andb]. destruct (kv_buffer _ _ _ I Hp).
  destruct (kv_geometry _ _ _ I Hp) as (G1 & G2 & G3 & G4 & G5 & G6 & G7 & G8 & G9 & G10).
  fold b in bo_capacity, bo_headroom, bo_length, bo_room, bo_tiles, G7, G8, G9, G10. set (k := skb_at s p) in *.
  rewrite (u32_small (sk_end k - sk_tail k)), (u32_small (sk_data k - sk_head k)) by lia.
  replace (len >? sk_end k - sk_tail k) with (negb (len <=? nb_tailroom b)) by lia.
  destruct (Z.leb_spec len (nb_tailroom b)); cbn [negb is_ok andb]; [|done].
  rewrite (u32_small (sk_len k + len)), (u32_small (sk_tail k + len)) by lia.
  rewrite (update_layout_exact n) by (done || fold b; unfold is_u32; lia). fold b. unfold resize_to. fold b k.
  replace (sk_data k - sk_head k) with (nb_headroom b) by lia. replace (sk_len k + len) with (nb_length b + len) by lia.
  destruct (is_terminal b); cbn [is_ok]; [done|]. do 2 f_equal. rewrite <-G8.
  replace (sk_data k + (nb_length b + len)) with (sk_tail k + len) by lia. by destruct k.
Qed.

Lemma push_exact :
  let b := life_at s p in
  skb_push s p len =
    if len <=? nb_headroom b
    then resize_to s p (nb_headroom b - len) (nb_length b + len) (sk_data (skb_at s p) - len)
    else refuse s ERR_OVERFLOW.
Proof.
  intros b. unfold skb_push, is_u32 in *. rewrite (kv_lock _ _ I), (validate_live n) by done. cbn [negb is_ok andb]. destruct (kv_buffer _ _ _ I Hp).
  destruct (kv_geometry _ _ _ I Hp) as (G1 & G2 & G3 & G4 & G5 & G6 & G7 & G8 & G9 & G10).
  fold b in bo_capacity, bo_headroom, bo_length, bo_room, bo_tiles, G7, G8, G9, G10. set (k := skb_at s p) in *.
  rewrite (u32_small (sk_data k - sk_head k)) by lia.
  replace (len >? sk_data k - sk_head k) with (negb (len <=? nb_headroom b)) by lia.
  destruct (Z.leb_spec len (nb_headroom b)); cbn [negb is_ok andb]; [|done].
  rewrite (u32_small (sk_len k + len)), (u32_small (sk_data k - len)), (u32_small (_ - len - _)) by lia.
  rewrite (update_layout_exact n) by (done || fold b; unfold is_u32; lia). fold b. unfold resize_to. fold b k.
  replace (sk_data k - len - sk_head k) with (nb_headroom b - len) by lia.
  replace (sk_len k + len) with (nb_length b + len) by lia.
  destruct (is_terminal b); cbn [is_ok]; [done|]. do 2 f_equal.
  replace (sk_head k + (nb_headroom b - len)) with (sk_data k - len) by lia.
  replace (sk_data k - len + (nb_length b + len)) with (sk_tail k) by lia. by destruct k.
Qed.

Lemma pull_exact :
  let b := life_at s p in
  skb_pull s p len =
    if len <=? nb_length b
    then resize_to s p (nb_headroom b + len) (nb_length b - len) (sk_data (skb_at s p) + len)
    else refuse s ERR_OVERFLOW.
Proof.
  intros b. unfold skb_pull, is_u32 in *. rewrite (kv_lock _ _ I), (validate_live n) by done. cbn [negb is_ok andb]. destruct (kv_buffer _ _ _ I Hp).
  destruct (kv_geometry _ _ _ I Hp) as (G1 & G2 & G3 & G4 & G5 & G6 & G7 & G8 & G9 & G10).
  fold b in bo_capacity, bo_headroom, bo_length, bo_room, bo_tiles, G7, G8, G9, G10. set (k := skb_at s p) in *.
  replace (len >? sk_len k) with (negb (len <=? nb_length b)) by lia.
  destruct (Z.leb_spec len (nb_length b)); cbn [negb is_ok andb]; [|done].
  rewrite (u32_small (sk_len k - len)), (u32_small (sk_data k + len)), (u32_small (_ + len - _)) by lia.
  rewrite (update_layout_exact n) by (done || fold b; unfold is_u32; lia). fold b. unfold resize_to. fold b k.
  replace (sk_data k + len - sk_head k) with (nb_headroom b + len) by lia.
  replace (sk_len k - len) with (nb_length b - len) by lia.
  destruct (is_terminal b); cbn [is_ok]; [done|]. do 2 f_equal.
  replace (sk_head k + (nb_headroom b + len)) with (sk_data k + len) by lia.
  replace (sk_data k + len + (nb_length b - len)) with (sk_tail k) by lia. by destruct k.
Qed.
End resize.

(** ** The calls that only touch the descriptor *)

Lemma lifetime_live n s p :
  skb_inv n s → p ∈ live (skb_registry s) → lifetime_of p ∈ live (net_buffer_registry (lifetimes s)).
Proof. intros I Hp. apply (kv_live _ _ _ I); [|done]. by destruct (kv_bounds _ _ _ I Hp). Qed.

Lemma entry_sync p k b b' :
  entry_ok p k b → layout b' = layout b → entry_ok p (k <| sk_refcount := nb_refcount b' |>) b'.
Proof.
  intros [] [= E1 E2 E3 E4]. destruct k. cbn in *.
  split; cbn; rewrite ?E1, ?E2, ?E3, ?E4; done.
Qed.

Lemma sync_touched n s p net' dv dp st :
  skb_inv n s → p ∈ live (skb_registry s) → net_inv (n + 1) net' →
  touched (lifetimes s) net' (lifetime_of p) dv dp →
  kb_completions st = kb_completions (skb_stats s) + dv → kb_drops st = kb_drops (skb_stats s) + dp →
  (kb_initialized st, kb_active_buffers st, kb_peak_buffers st, kb_allocations st, kb_frees st) =
  (kb_initialized (skb_stats s), kb_active_buffers (skb_stats s), kb_peak_buffers (skb_stats s),
   kb_allocations (skb_stats s), kb_frees (skb_stats s)) →
  skb_inv (n + 1) ((skb_sync_refcount (s <| lifetimes := net' |>) p) <| skb_stats := st |>).
Proof.
  intros I Hp N [T1 T2 T3 T4 T5] E1 E2 [= E3 E4 E5 E6 E7].
  apply (inv_lifetime n s p net' _ st I Hp N T1 T2).
  - apply entry_sync with (life_at s p); [by apply I|exact T3].
  - destruct (kv_stats _ _ I). split; rewrite ?E3, ?E4, ?E5, ?E6, ?E7; done || lia.
Qed.

Lemma touch_inv n s p net' :
  skb_inv n s → p ∈ live (skb_registry s) → net_inv (n + 1) net' →
  touched (lifetimes s) net' (lifetime_of p) 0 0 →
  skb_inv (n + 1) (skb_sync_refcount (s <| lifetimes := net' |>) p).
Proof.
  intros I Hp N T. apply (sync_touched n s p net' 0 0 (skb_stats s) I Hp N T); [lia|lia|done].
Qed.

Lemma finish_inv n x : skb_inv n x.1 → skb_inv n (skb_finish x).1.
Proof. destruct x as [s r]. cbn. intros I. destruct (is_ok r); [done|by apply inv_failure]. Qed.

(** An argument that is not a registered buffer. *)
Lemma validate_dead n s p :
  skb_inv n s → p ∉ live (skb_registry s) →
  is_ok (skb_validate_locked s p) = false ∧ (skb_validate_locked s p = ERR_NULL ∨ skb_validate_locked s p = ERR_INVALID).
Proof.
  intros I Hp. rewrite (validate_spec _ _ _ I), decide_False by done. destruct (p =? 0); cbn; auto.
Qed.

Lemma skb_transition_inv n s p st o : skb_inv n s → skb_inv (n + 1) (skb_transition s p st o).1.
Proof.
  intros I. unfold skb_transition. rewrite (kv_lock _ _ I). cbn [negb]. apply finish_inv.
  destruct (decide (p ∈ live (skb_registry s))) as [Hp|Hp].
  - rewrite (validate_live n) by done. cbn. apply (touch_inv n s p); [done|done|apply transition_inv, I|].
    apply (transition_touched n), I.
  - destruct (validate_dead n s p I Hp) as [-> _]. apply (skb_inv_mono n); [lia|done].
Qed.

Lemma skb_retain_inv n s p : skb_inv n s → n + 1 < 2 ^ 32 → skb_inv (n + 1) (skb_retain s p).1.
Proof.
  intros I Hlt. unfold skb_retain. rewrite (kv_lock _ _ I). cbn [negb]. apply finish_inv.
  destruct (decide (p ∈ live (skb_registry s))) as [Hp|Hp].
  - rewrite (validate_live n) by done. cbn. apply (touch_inv n s p); [done|done|apply retain_inv; [apply I|done]|].
    apply (retain_touched n), I.
  - destruct (validate_dead n s p I Hp) as [-> _]. apply (skb_inv_mono n); [lia|done].
Qed.

Lemma skb_complete_inv n s p r o : skb_inv n s → n + 1 < 2 ^ 32 → skb_inv (n + 1) (skb_complete s p r o).1.
Proof.
  intros I Hlt. unfold skb_complete. rewrite (kv_lock _ _ I). cbn [negb]. apply finish_inv.
  destruct (decide (p ∈ live (skb_registry s))) as [Hp|Hp]; cycle 1.
  { destruct (validate_dead n s p I Hp) as [-> _]. apply (skb_inv_mono n); [lia|done]. }
  rewrite (validate_live n) by done. cbn [is_ok].
  pose proof (complete_touched n (lifetimes s) (lifetime_of p) r o (kv_net _ _ I) Hlt) as T.
  pose proof (complete_inv n (lifetimes s) (lifetime_of p) r o (kv_net _ _ I) Hlt) as N.
  change (net_buffer_complete_locked (lifetimes s) (lifetime_of p) r o)
    with (net_buffer_complete (lifetimes s) (lifetime_of p) r o) in N.
  destruct (net_buffer_complete (lifetimes s) (lifetime_of p) r o) as [net' result].
  cbn [on_lifetimes fst snd] in *. pose proof (ni_stats _ _ N) as [_ _ _ _ _ _ D1 D2 _ _ _ D3].
  destruct (kv_stats _ _ I) as [_ _ _ _ _ _ K7 K8]. pose proof (to_delivered _ _ _ _ _ T) as T4. pose proof (to_dropped _ _ _ _ _ T) as T5.
  destruct (is_ok result); cbn [andb] in *; [destruct (is_ok r); cbn [negb Z.b2z] in *|].
  - apply (sync_touched n s p net' 1 0 ((skb_stats s) <| kb_completions ::= λ n, n +w 1 |>) I Hp N T); [|symmetry; apply Z.add_0_r|done].
    change (kb_completions (set kb_completions _ ?x)) with (kb_completions x +w 1). rewrite u32_small; lia.
  - apply (sync_touched n s p net' 0 1 ((skb_stats s) <| kb_drops ::= λ n, n +w 1 |>) I Hp N T); [symmetry; apply Z.add_0_r| |done].
    change (kb_drops (set kb_drops _ ?x)) with (kb_drops x +w 1). rewrite u32_small; lia.
  - by apply (touch_inv n s p net').
Qed.

(** ** Releasing *)

(** Entries of a registry after a slot is set. *)
Lemma elem_insert (l : list Z) i x y : y ∈ <[i := x]> l → y = x ∨ y ∈ l.
Proof.
  intros (j & Hj)%list_elem_of_lookup. destruct (decide (i = j)) as [->|Hne].
  - destruct (decide (j < length l)%nat) as [Hlt|Hge].
    + rewrite list_lookup_insert_eq in Hj by done. left. by injection Hj.
    + rewrite list_insert_ge in Hj by lia. right. by apply list_elem_of_lookup_2 in Hj.
  - rewrite list_lookup_insert_ne in Hj by done. right. by apply list_elem_of_lookup_2 in Hj.
Qed.

Definition after_free (st : sk_buff_stats_t) : sk_buff_stats_t :=
  (if negb (kb_active_buffers st =? 0) then st <| kb_active_buffers ::= λ n, n -w 1 |> else st)
    <| kb_frees ::= λ n, n +w 1 |>.

Lemma kstats_free n l slot p st nst nst' :
  kstats_ok n l st nst → n < 2 ^ 32 → l !! slot = Some p → p ≠ 0 →
  ns_delivered nst' = ns_delivered nst → ns_dropped nst' = ns_dropped nst →
  kstats_ok (n + 1) (<[slot := 0]> l) (after_free st) nst'.
Proof.
  intros [] Hn Hl Hp D1 D2. pose proof (live_clear l slot p Hl Hp) as HL%Permutation_length. cbn [length] in HL.
  unfold after_free, len in *. replace (kb_active_buffers st =? 0) with false by lia. destruct st. cbn in *.
  split; skb_cbn; unfold len; rewrite ?u32_small by lia; done || lia.
Qed.

Lemma freed_inv n s p net' slot :
  skb_inv n s → n + 1 < 2 ^ 32 → p ∈ live (skb_registry s) → net_inv (n + 1) net' →
  find_slot p (skb_registry s) = Some slot →
  net_buffer_registry net' = <[slot := 0]> (net_buffer_registry (lifetimes s)) →
  (∀ r, r ≠ lifetime_of p → buf net' r = buf (lifetimes s) r) →
  ns_delivered (net_buffer_stats net') = ns_delivered (net_buffer_stats (lifetimes s)) →
  ns_dropped (net_buffer_stats net') = ns_dropped (net_buffer_stats (lifetimes s)) →
  skb_inv (n + 1) (((((skb_sync_refcount (s <| lifetimes := net' |>) p)
    <| skb_registry ::= λ l, <[slot := 0]> l |>) <| skb_stats ::= after_free |>)
    <| slabs ::= λ c, oc_free c (skb_cache s) p |>)).
Proof.
  intros I Hn Hp N Hslot Hr Ho D1 D2. pose proof (kv_nodup _ _ I) as Hnd. pose proof Hp as [Hp0 _]%elem_of_live.
  pose proof (find_slot_Some _ _ _ Hslot) as Hl. pose proof (live_clear _ _ _ Hl Hp0) as HL.
  rewrite HL in Hnd. apply NoDup_cons in Hnd as [Hni _]. destruct I as [K1 K2 K3 K4 K5 K6 K7 K8 K9 K10].
  destruct (oc_free_law _ _ _ p K3 K4) as (F1 & F2 & F3); [by rewrite K7|].
  split; try done.
  - transitivity (<[slot := 0]> (net_buffer_registry (lifetimes s))); [exact Hr|]. rewrite K6.
    symmetry. apply (list_fmap_insert lifetime_slot).
  - apply (Permutation_cons_inv (a := p)). etransitivity; [symmetry; exact F3|]. by rewrite K7.
  - intros q [->|Hq]%elem_insert; [lia|by apply K8].
  - intros q Hq. assert (q ≠ p) as Hne by (intros ->; by apply Hni).
    change (skb_at _ q) with (skb_at (skb_sync_refcount (s <| lifetimes := net' |>) p) q).
    unfold skb_sync_refcount. rewrite skb_at_write, decide_False by done.
    change (life_at _ q) with (buf net' (lifetime_of q)). rewrite Ho by (unfold lifetime_of; lia).
    apply K9. rewrite HL. by constructor.
  - by apply (kstats_free n _ _ p _ (net_buffer_stats (lifetimes s))); [|lia|..].
Qed.

(** What [skb_release] does to a registered buffer: a reference less, or the
    buffer is gone from the registry. *)
Lemma skb_release_inv n s p :
  skb_inv n s → n + 1 < 2 ^ 32 → skb_inv (n + 1) (skb_release s p).1.
Proof.
  intros I Hlt. unfold skb_release, skb_release_locked. rewrite (kv_lock _ _ I). cbn [negb].
  destruct (decide (p ∈ live (skb_registry s))) as [Hp|Hp]; cycle 1.
  { destruct (validate_dead n s p I Hp) as [-> _]. cbn [fst].
    apply (finish_inv (n + 1) (s, skb_validate_locked s p)). apply (skb_inv_mono n); [lia|done]. }
  rewrite (validate_live n) by done. cbn [is_ok].
  pose proof (release_cases n (lifetimes s) (lifetime_of p) (kv_net _ _ I) (lifetime_live _ _ _ I Hp)) as RC.
  pose proof (release_inv n (lifetimes s) (lifetime_of p) (kv_net _ _ I) Hlt) as N.
  destruct (net_buffer_release (lifetimes s) (lifetime_of p)) as [net' result]. cbn [on_lifetimes fst snd] in *.
  set (s2 := skb_sync_refcount (s <| lifetimes := net' |>) p).
  change (life_at s2 p) with (buf net' (lifetime_of p)).
  destruct RC as [T|(-> & Hst & _ & _ & (slot & Hslot & Hr) & Ho & D1 & D2)].
  - pose proof (touch_inv n s p net' I Hp N T) as I2. fold s2 in I2.
    assert ((nb_state (buf net' (lifetime_of p)) =? NET_BUFFER_STATE_FREED) = false) as ->.
    { destruct (kv_buffer _ _ _ I2 Hp) as [_ B _ _ _ _ _ _ _]. change (life_at s2 p) with (buf net' (lifetime_of p)) in B.
      unfold NET_BUFFER_STATE_FREED. lia. }
    rewrite andb_false_r. apply (finish_inv (n + 1) (s2, result)). exact I2.
  - rewrite Hst. cbn [is_ok andb Z.eqb Pos.eqb NET_BUFFER_STATE_FREED].
    change (skb_find_locked s2 p) with (find_slot p (skb_registry s)).
    assert (find_slot p (skb_registry s) = Some slot) as Hslot'.
    { pose proof (kv_bounds _ _ _ I Hp) as [Hp0 _]. rewrite <-Hslot, (kv_step _ _ I).
      replace (lifetime_of p) with (lifetime_slot p) by (unfold lifetime_slot; by replace (p =? 0) with false by lia).
      symmetry. apply find_lifetime; [apply I|lia]. }
    rewrite Hslot'. pose proof (freed_inv n s p net' slot I Hlt Hp N Hslot' Hr Ho D1 D2) as I2. fold s2 in I2.
    change (set skb_stats after_free ?x) with (x <| skb_stats := after_free (skb_stats s2) |>) in I2.
    unfold after_free in I2. cbn. change (skb_stats (s2 <| skb_registry ::= _ |>)) with (skb_stats s2).
    destruct (negb (kb_active_buffers (skb_stats s2) =? 0)); exact I2.
Qed.

(** ** Allocation *)

Definition fresh_life (size : Z) : net_buffer_t :=
  NetBuffer NET_BUFFER_STATE_ALLOCATED NET_BUFFER_OWNER_ETHERNET 1 size 0 0 size 1 OK.
Definition fresh_skb (p size : Z) : sk_buff_t :=
  SkBuff (storage_of p) (storage_of p) (storage_of p) (storage_of p + size) 0 1 0.

(** [net_buffer_begin] on a zeroed descriptor that is not registered. *)
Lemma begin_exact n x q size :
  net_inv n x → n + 1 < 2 ^ 32 → q ≠ 0 → q ∉ net_buffer_registry x → buf x q = buffer_zero → 0 < size < 2 ^ 32 →
  match find_slot 0 (net_buffer_registry x), net_buffer_begin x q size 0 1 NET_BUFFER_OWNER_ETHERNET with
  | None, (x', r) => r = ERR_OVERFLOW ∧ net_inv (n + 1) x' ∧ touched x x' q 0 0 ∧ ∀ p, buf x' p = buf x p
  | Some slot, (x', r) => r = OK ∧ net_inv (n + 1) x' ∧
      net_buffer_registry x' = <[slot := q]> (net_buffer_registry x) ∧
      (∀ p, buf x' p = if decide (p = q) then fresh_life size else buf x p) ∧
      ns_delivered (net_buffer_stats x') = ns_delivered (net_buffer_stats x) ∧
      ns_dropped (net_buffer_stats x') = ns_dropped (net_buffer_stats x)
  end.
Proof.
  intros I Hn Hq Hr Hb Hs. pose proof (begin_inv n x q size 0 1 NET_BUFFER_OWNER_ETHERNET I Hn) as BI.
  specialize (BI ltac:(unfold is_u32; lia) ltac:(unfold is_u32; lia)). revert BI. unfold net_buffer_begin.
  replace (q =? 0) with false by lia. replace (size =? 0) with false by lia.
  replace (0 >? size) with false by lia. cbn [orb negb]. change (net_buffer_alignment_valid 1) with true.
  change (net_buffer_owner_valid NET_BUFFER_OWNER_ETHERNET) with true. cbn [orb negb].
  rewrite (ni_init _ _ I). cbn [negb].
  rewrite bool_decide_eq_false_2 by (unfold net_buffer_find_locked; by rewrite find_slot_elem).
  rewrite Hb. cbn [orb negb nb_state buffer_zero Z.eqb NET_BUFFER_STATE_INVALID].
  unfold net_buffer_free_slot_locked. destruct (find_slot 0 (net_buffer_registry x)) as [slot|].
  - intros BI. cbn [fst] in BI. split; [done|]. split; [exact BI|]. clear BI.
    set (b := NetBuffer _ _ _ _ _ _ _ _ _). replace b with (fresh_life size)
      by (unfold b, fresh_life; rewrite Z.sub_0_r, u32_small by lia; done). clear b.
    assert (∀ y p, net_mem y = net_mem (write_buf x q (fresh_life size)) →
      buf y p = if decide (p = q) then fresh_life size else buf x p) as Hm.
    { intros y p E. rewrite <-buf_write. unfold buf. by rewrite E. }
    split; [by destruct (_ >? _)|]. split; [intros p; apply Hm; by destruct (_ >? _)|].
    by destruct (_ >? _).
  - intros BI. split; [done|]. split; [exact BI|]. destruct (fail_state x ERR_OVERFLOW false) as (f & Hf & ->).
    split; [by apply touched_count|done].
Qed.

Inductive alloc_outcome (n : Z) s (size : Z) : skb_t S * Z → Prop :=
| alloc_none s' :
    skb_inv (n + 1) s' → skb_registry s' = skb_registry s →
    (∀ q, q ∈ live (skb_registry s) → skb_at s' q = skb_at s q ∧ life_at s' q = life_at s q) →
    (size = 0 ∨ SK_BUFF_STORAGE_SIZE < size ∨ (oc_alloc (slabs s) (skb_cache s)).2 = 0 ∨
     length (live (skb_registry s)) = 32%nat) →
    alloc_outcome n s size (s', 0)
| alloc_some s' p :
    skb_inv (n + 1) s' → p ≠ 0 → p ∉ live (skb_registry s) →
    live (skb_registry s') ≡ₚ p :: live (skb_registry s) →
    skb_at s' p = fresh_skb p size → life_at s' p = fresh_life size →
    (∀ q, q ∈ live (skb_registry s) → skb_at s' q = skb_at s q ∧ life_at s' q = life_at s q) →
    alloc_outcome n s size (s', p).

Definition after_alloc (st : sk_buff_stats_t) : sk_buff_stats_t :=
  let st := (st <| kb_active_buffers ::= λ n, n +w 1 |>) <| kb_allocations ::= λ n, n +w 1 |> in
  if kb_active_buffers st >? kb_peak_buffers st then st <| kb_peak_buffers := kb_active_buffers st |> else st.

Lemma tick_alloc s :
  let s1 := tick (tick s (set kb_active_buffers (λ n, n +w 1))) (set kb_allocations (λ n, n +w 1)) in
  (if kb_active_buffers (skb_stats s1) >? kb_peak_buffers (skb_stats s1)
   then tick s1 (λ st, st <| kb_peak_buffers := kb_active_buffers st |>) else s1) = s <| skb_stats ::= after_alloc |>.
Proof.
  cbn zeta. change (set skb_stats after_alloc s) with (s <| skb_stats := after_alloc (skb_stats s) |>).
  unfold after_alloc. destruct s as [c x m k l li te st]. unfold tick, set. cbn [eta skb_eta skb_stats].
  set (a := kb_active_buffers _). set (b := kb_peak_buffers _). by destruct (a >? b).
Qed.

Lemma kstats_alloc n l slot p st nst nst' :
  kstats_ok n l st nst → n + 1 < 2 ^ 32 → l !! slot = Some 0 → p ≠ 0 →
  ns_delivered nst' = ns_delivered nst → ns_dropped nst' = ns_dropped nst →
  kstats_ok (n + 1) (<[slot := p]> l) (after_alloc st) nst'.
Proof.
  intros [] Hn Hl Hp D1 D2. pose proof (live_insert l slot p Hl Hp) as HL%Permutation_length. cbn [length] in HL.
  unfold after_alloc, len in *. destruct st. cbn in ko_init, ko_active, ko_peak, ko_allocations, ko_frees, ko_bound, ko_completions, ko_drops.
  skb_cbn. rewrite !u32_small by lia.
  destruct (Z.gtb_spec (kb_active_buffers + 1) kb_peak_buffers); split; skb_cbn; unfold len;
    rewrite ?u32_small by lia; done || lia.
Qed.

(** A new object as a zeroed, unregistered entry. *)
Lemma zeroed_inv n s p :
  skb_inv n s → 0 < p → p ∉ live (skb_registry s) → skb_inv n (skb_zeroed s p).
Proof.
  intros I Hp Hni. assert (lifetime_of p ∉ net_buffer_registry (lifetimes s)) as Hnr.
  { intros Hin. apply Hni, (kv_live _ _ _ I Hp), elem_of_live. split; [unfold lifetime_of; lia|done]. }
  destruct I as [K1 K2 K3 K4 K5 K6 K7 K8 K9 K10]. split; try done; [by apply write_inv|].
  intros q Hq. assert (q ≠ p) by (by intros ->).
  change (skb_at (skb_zeroed s p) q) with (skb_at (write_skb s p sk_buff_zero) q).
  rewrite skb_at_write, decide_False by done.
  change (life_at (skb_zeroed s p) q) with (buf (write_buf (lifetimes s) (lifetime_of p) buffer_zero) (lifetime_of q)).
  rewrite buf_write, decide_False by (unfold lifetime_of; lia). by apply K9.
Qed.

Lemma inv_slabs n s c' :
  skb_inv n s → oc_inv c' → oc_cache c' (skb_cache s) SKB_ENTRY_SIZE →
  oc_objects c' (skb_cache s) ≡ₚ oc_objects (slabs s) (skb_cache s) → skb_inv n (s <| slabs := c' |>).
Proof.
  intros [K1 K2 K3 K4 K5 K6 K7 K8 K9 K10] H1 H2 H3. split; try done.
  change (oc_objects c' (skb_cache s) ≡ₚ live (skb_registry s)). by rewrite H3.
Qed.

(** Registering a prepared entry. *)
Lemma registered_inv n s p size slot c' net' :
  skb_inv n s → n + 1 < 2 ^ 32 → 0 < p → p + SKB_ENTRY_SIZE < 2 ^ 32 → 0 < size ≤ SK_BUFF_STORAGE_SIZE →
  oc_inv c' → oc_cache c' (skb_cache s) SKB_ENTRY_SIZE →
  oc_objects c' (skb_cache s) ≡ₚ p :: oc_objects (slabs s) (skb_cache s) →
  p ∉ live (skb_registry s) → find_slot 0 (skb_registry s) = Some slot → net_inv (n + 1) net' →
  net_buffer_registry net' = <[slot := lifetime_of p]> (net_buffer_registry (lifetimes s)) →
  (∀ q, buf net' q = if decide (q = lifetime_of p) then fresh_life size else buf (lifetimes s) q) →
  ns_delivered (net_buffer_stats net') = ns_delivered (net_buffer_stats (lifetimes s)) →
  ns_dropped (net_buffer_stats net') = ns_dropped (net_buffer_stats (lifetimes s)) →
  skb_inv (n + 1) (SkbState c' net' (<[p := fresh_skb p size]> (skb_mem s)) (skb_cache s)
    (<[slot := p]> (skb_registry s)) (skb_lock_initialized s) (skb_testing s) (after_alloc (skb_stats s))).
Proof.
  intros [K1 K2 K3 K4 K5 K6 K7 K8 K9 K10] Hn Hp He Hs C1 C2 C3 Hni Hslot N Hr Hb D1 D2.
  pose proof (find_slot_Some _ _ _ Hslot) as Hl. pose proof (live_insert _ _ p Hl ltac:(lia)) as HL.
  split; try done.
  - transitivity (<[slot := lifetime_of p]> (net_buffer_registry (lifetimes s))); [exact Hr|]. rewrite K6.
    replace (lifetime_of p) with (lifetime_slot p) by (unfold lifetime_slot; by replace (p =? 0) with false by lia).
    symmetry. apply (list_fmap_insert lifetime_slot).
  - change (oc_objects c' (skb_cache s) ≡ₚ live (<[slot := p]> (skb_registry s))). by rewrite C3, HL, K7.
  - intros q [->|Hq]%elem_insert; [lia|by apply K8].
  - intros q Hq. change (q ∈ live (<[slot := p]> (skb_registry s))) in Hq. rewrite HL in Hq.
    unfold skb_at, life_at. cbn [skb_mem lifetimes]. rewrite Hb.
    apply elem_of_cons in Hq as [->|Hq].
    + rewrite lookup_insert_eq, decide_True by done. split; cbn; lia.
    + assert (q ≠ p) by (by intros ->). rewrite lookup_insert_ne, decide_False by (done || unfold lifetime_of; lia).
      by apply K9.
  - apply (kstats_alloc n _ _ p _ (net_buffer_stats (lifetimes s))); done || lia.
Qed.

Lemma full_registry n s :
  skb_inv n s → find_slot 0 (skb_registry s) = None → length (live (skb_registry s)) = 32%nat.
Proof.
  intros I E. pose proof (live_length (skb_registry s)) as Hl. rewrite (kv_length _ _ I) in Hl.
  destruct (decide (length (live (skb_registry s)) = 32%nat)); [done|].
  destruct (proj2 (free_slot_exists (skb_registry s))) as [i Hi]; [rewrite (kv_length _ _ I); lia|congruence].
Qed.

(** The writes to a new entry leave the others alone. *)
Lemma zeroed_others s p q :
  q ≠ p → skb_at (skb_zeroed s p) q = skb_at s q ∧ life_at (skb_zeroed s p) q = life_at s q.
Proof.
  intros Hne. split.
  - change (skb_at (skb_zeroed s p) q) with (skb_at (write_skb s p sk_buff_zero) q).
    by rewrite skb_at_write, decide_False.
  - change (life_at (skb_zeroed s p) q) with (buf (write_buf (lifetimes s) (lifetime_of p) buffer_zero) (lifetime_of q)).
    by rewrite buf_write, decide_False by (unfold lifetime_of; lia).
Qed.

Lemma zeroed_life s p : life_at (skb_zeroed s p) p = buffer_zero.
Proof.
  change (life_at (skb_zeroed s p) p) with (buf (write_buf (lifetimes s) (lifetime_of p) buffer_zero) (lifetime_of p)).
  by rewrite buf_write, decide_True.
Qed.

(** The state [skb_prepare] leaves. *)
Lemma prepare_exact s p size c' net' :
  0 < p → p + SKB_ENTRY_SIZE < 2 ^ 32 → 0 < size ≤ SK_BUFF_STORAGE_SIZE →
  buf net' (lifetime_of p) = fresh_life size →
  skb_prepare (((skb_zeroed s p) <| slabs := c' |>) <| lifetimes := net' |>) p size =
  SkbState c' net' (<[p := fresh_skb p size]> (skb_mem s)) (skb_cache s) (skb_registry s)
    (skb_lock_initialized s) (skb_testing s) (skb_stats s).
Proof.
  intros Hp He Hs Hb. unfold skb_prepare, skb_sync_refcount. rewrite !skb_at_write, decide_True by done.
  change (life_at (write_skb _ _ _) p) with (buf net' (lifetime_of p)). rewrite Hb.
  lazy beta iota zeta delta [skb_zeroed write_skb set eta skb_eta sk_buff_eta slabs lifetimes skb_mem skb_cache
    skb_registry skb_lock_initialized skb_testing skb_stats sk_head sk_data sk_tail sk_end sk_len sk_refcount sk_dev
    nb_refcount fresh_life]. f_equal. rewrite !insert_insert_eq. f_equal.
  unfold fresh_skb, storage_of, SKB_ENTRY_SIZE, SK_BUFF_STORAGE_SIZE in *. f_equal. apply u32_small. lia.
Qed.

Lemma alloc_exact n s size :
  skb_inv n s → n + 1 < 2 ^ 32 → is_u32 size → alloc_outcome n s size (alloc_skb s size).
Proof.
  intros I Hn Hsz. assert (skb_inv (n + 1) s) as I1 by (by apply (skb_inv_mono n); [lia|]).
  unfold alloc_skb. destruct ((size =? 0) || (size >? SK_BUFF_STORAGE_SIZE)) eqn:Es.
  { apply alloc_none; [done|done|done|]. lia. }
  rewrite (ko_init _ _ _ _ (kv_stats _ _ I)). pose proof (kv_null _ _ I).
  replace (skb_cache s =? NULL_CACHE) with false by lia. cbn [negb orb]. unfold is_u32 in Hsz.
  destruct (oc_alloc (slabs s) (skb_cache s)) as [c' p] eqn:Ea.
  destruct (oc_alloc_law _ _ _ _ _ (kv_slabs _ _ I) (kv_cache _ _ I) Ea) as (C1 & C2 & C3).
  destruct (Z.eqb_spec p 0) as [->|Hp0].
  { destruct C3 as [[_ C3]|[? _]]; [|done].
    apply alloc_none; [by apply inv_slabs|done|done|]. right. right. left. by rewrite Ea. }
  destruct C3 as [[? _]|[_ C3]]; [done|].
  destruct (oc_apart_law _ _ _ C1 C2) as (A1 & A2 & _). rewrite C3 in A1. apply NoDup_cons in A1 as [Hni _].
  rewrite (kv_objects _ _ I) in Hni. destruct (A2 p) as [Hp He]; [rewrite C3; constructor|].
  pose proof (zeroed_inv n s p I Hp Hni) as IZ.
  change (skb_zeroed (s <| slabs := c' |>) p) with ((skb_zeroed s p) <| slabs := c' |>).
  change (lifetimes ((skb_zeroed s p) <| slabs := c' |>)) with (lifetimes (skb_zeroed s p)).
  assert (lifetime_of p ∉ net_buffer_registry (lifetimes (skb_zeroed s p))) as Hnr.
  { intros Hin. apply Hni, (kv_live _ _ _ I Hp), elem_of_live. split; [unfold lifetime_of; lia|done]. }
  pose proof (begin_exact n (lifetimes (skb_zeroed s p)) (lifetime_of p) size (kv_net _ _ IZ) Hn
    ltac:(unfold lifetime_of; lia) Hnr (zeroed_life s p) ltac:(lia)) as B.
  assert (find_slot 0 (net_buffer_registry (lifetimes (skb_zeroed s p))) = find_slot 0 (skb_registry s)) as Ef.
  { rewrite (kv_step _ _ IZ). apply (find_lifetime 0); [apply I|lia]. }
  rewrite Ef in B. destruct (net_buffer_begin _ _ _ _ _ _) as [net' r]. cbn [on_lifetimes fst snd].
  destruct (find_slot 0 (skb_registry s)) as [slot|] eqn:Eslot.
  - destruct B as (-> & N & Br & Bb & D1 & D2). cbn [is_ok negb].
    rewrite prepare_exact; [|done|done|lia|by rewrite Bb, decide_True].
    unfold skb_free_slot_locked. cbn [skb_registry]. rewrite Eslot.
    pose proof (registered_inv n (skb_zeroed s p) p size slot c' net') as RI.
    change (skb_mem (skb_zeroed s p)) with (<[p := sk_buff_zero]> (skb_mem s)) in RI. rewrite insert_insert_eq in RI.
    cbn zeta. rewrite tick_alloc.
    match goal with |- alloc_outcome _ _ _ (?x, p) => change x with (SkbState c' net'
      (<[p := fresh_skb p size]> (skb_mem s)) (skb_cache s) (<[slot := p]> (skb_registry s))
      (skb_lock_initialized s) (skb_testing s) (after_alloc (skb_stats s))) end.
    apply alloc_some; [|done|done| | | |].
    + apply RI; clear RI; done || lia.
    + apply live_insert; [by apply find_slot_Some|done].
    + unfold skb_at. cbn [skb_mem]. by rewrite lookup_insert_eq.
    + unfold life_at. cbn [lifetimes]. by rewrite Bb, decide_True.
    + intros q Hq. assert (q ≠ p) as Hne by (by intros ->). unfold skb_at, life_at. cbn [skb_mem lifetimes].
      rewrite lookup_insert_ne by done. split; [done|]. rewrite Bb, decide_False by (unfold lifetime_of; lia).
      by destruct (zeroed_others s p q Hne).
  - destruct B as (-> & N & T & Hb). cbn [is_ok negb].
    destruct (oc_free_law c' (skb_cache s) SKB_ENTRY_SIZE p C1 C2) as (F1 & F2 & F3); [rewrite C3; constructor|].
    apply alloc_none; [|done| |].
    + pose proof (inv_net n (skb_zeroed s p) (lifetime_of p) net' IZ N T Hb) as IN.
      apply (inv_slabs (n + 1) _ (oc_free c' (skb_cache s) p) IN F1 F2).
      apply (Permutation_cons_inv (a := p)). etransitivity; [symmetry; exact F3|exact C3].
    + intros q Hq. assert (q ≠ p) as Hne by (by intros ->).
      destruct (zeroed_others s p q Hne) as [E1 E2]. split; [exact E1|]. rewrite <-E2. apply Hb.
    + do 3 right. by apply (full_registry n).
Qed.

(** ** put, push and pull on any argument *)

Lemma refuse_inv n s r : skb_inv n s → skb_inv (n + 1) (refuse s r).1.
Proof. intros I. apply inv_failure, (skb_inv_mono n); [lia|done]. Qed.

Lemma put_inv n s p len : skb_inv n s → is_u32 len → skb_inv (n + 1) (skb_put s p len).1.
Proof.
  intros I Hl. destruct (decide (p ∈ live (skb_registry s))) as [Hp|Hp].
  - rewrite (put_exact n) by done. destruct (kv_buffer _ _ _ I Hp). unfold is_u32 in *.
    destruct (Z.leb_spec len (nb_tailroom (life_at s p))); [apply resize_inv; done || lia|by apply refuse_inv].
  - unfold skb_put. rewrite (kv_lock _ _ I). destruct (validate_dead n s p I Hp) as [E _].
    repeat (rewrite E; cbn [negb andb]). by apply refuse_inv.
Qed.

Lemma push_inv n s p len : skb_inv n s → is_u32 len → skb_inv (n + 1) (skb_push s p len).1.
Proof.
  intros I Hl. destruct (decide (p ∈ live (skb_registry s))) as [Hp|Hp].
  - rewrite (push_exact n) by done. destruct (kv_buffer _ _ _ I Hp). unfold is_u32 in *.
    destruct (Z.leb_spec len (nb_headroom (life_at s p))); [apply resize_inv; done || lia|by apply refuse_inv].
  - unfold skb_push. rewrite (kv_lock _ _ I). destruct (validate_dead n s p I Hp) as [E _].
    repeat (rewrite E; cbn [negb andb]). by apply refuse_inv.
Qed.

Lemma pull_inv n s p len : skb_inv n s → is_u32 len → skb_inv (n + 1) (skb_pull s p len).1.
Proof.
  intros I Hl. destruct (decide (p ∈ live (skb_registry s))) as [Hp|Hp].
  - rewrite (pull_exact n) by done. destruct (kv_buffer _ _ _ I Hp). unfold is_u32 in *.
    destruct (Z.leb_spec len (nb_length (life_at s p))); [apply resize_inv; done || lia|by apply refuse_inv].
  - unfold skb_pull. rewrite (kv_lock _ _ I). destruct (validate_dead n s p I Hp) as [E _].
    repeat (rewrite E; cbn [negb andb]). by apply refuse_inv.
Qed.

Lemma dev_inv n s p d :
  skb_inv n s → skb_inv n (write_skb s p ((skb_at s p) <| sk_dev := d |>)).
Proof.
  intros [K1 K2 K3 K4 K5 K6 K7 K8 K9 K10]. split; try done. intros q Hq.
  change (life_at (write_skb _ _ _) q) with (life_at s q). rewrite skb_at_write.
  destruct (decide (q = p)) as [->|]; [|by apply K9]. destruct (K9 p Hq). by destruct (skb_at s p).
Qed.

(** ** Initialisation *)

(** The static variables before [skb_init]. *)
Definition skb_boot (c : S) (m : gmap Z net_buffer_t) : skb_t S :=
  SkbState c (Net m stats_zero registry_zero 0 0) ∅ NULL_CACHE registry_zero false false skb_stats_zero.

Lemma skb_init_inv c m s : oc_inv c → skb_init (skb_boot c m) = (s, OK) → skb_inv 0 s.
Proof.
  intros Hc. unfold skb_init, skb_boot. cbn -[oc_create net_buffer_init registry_zero].
  pose proof (boot_inv m 0 0) as N. set (net' := (net_buffer_init _).1) in *.
  change (net_buffer_init (Net m stats_zero registry_zero 0 0)) with (net', OK). cbn [fst snd is_ok negb].
  match goal with |- context [oc_create ?x] => change x with c end. destruct (oc_create c skb_cache_name SKB_ENTRY_SIZE 16) as [c' k] eqn:Ec.
  destruct (oc_create_law c skb_cache_name SKB_ENTRY_SIZE 16 c' k Hc) as [C1 C2];
    [unfold SKB_ENTRY_SIZE, SK_BUFF_STORAGE_SIZE; lia|lia|done|].
  destruct (Z.eqb_spec k NULL_CACHE) as [->|Hk]; [done|]. destruct C2 as [|(C2 & C3 & C4)]; [done|].
  intros [= <-]. split; try done.
  - change (oc_objects c' k ≡ₚ []). by rewrite C4.
  - intros p Hp. change (p ∈ registry_zero) in Hp. apply elem_of_replicate in Hp as [-> _]. lia.
  - by intros p ?%elem_of_nil.
Qed.

(** ** Reachable states *)

(** Every state reached by calls with any arguments, counted.  In between the
    owner of a buffer sets its device and the rest of the kernel uses the
    slab allocator, leaving the objects of this cache alone. *)
Inductive skb_run : Z → skb_t S → Prop :=
| sr_start c m s : oc_inv c → skb_init (skb_boot c m) = (s, OK) → skb_run 0 s
| sr_init n s : skb_run n s → skb_run n (skb_init s).1
| sr_alloc n s size : skb_run n s → is_u32 size → skb_run (n + 1) (alloc_skb s size).1
| sr_put n s p len : skb_run n s → is_u32 len → skb_run (n + 1) (skb_put s p len).1
| sr_push n s p len : skb_run n s → is_u32 len → skb_run (n + 1) (skb_push s p len).1
| sr_pull n s p len : skb_run n s → is_u32 len → skb_run (n + 1) (skb_pull s p len).1
| sr_transition n s p st o : skb_run n s → skb_run (n + 1) (skb_transition s p st o).1
| sr_complete n s p r o : skb_run n s → skb_run (n + 1) (skb_complete s p r o).1
| sr_retain n s p : skb_run n s → skb_run (n + 1) (skb_retain s p).1
| sr_release n s p : skb_run n s → skb_run (n + 1) (skb_release s p).1
| sr_device n s p d : skb_run n s → skb_run n (write_skb s p ((skb_at s p) <| sk_dev := d |>))
| sr_other n s c :
    skb_run n s → oc_inv c → oc_cache c (skb_cache s) SKB_ENTRY_SIZE →
    oc_objects c (skb_cache s) ≡ₚ oc_objects (slabs s) (skb_cache s) → skb_run n (s <| slabs := c |>).

Lemma skb_run_inv n s : skb_run n s → 0 ≤ n ∧ (n < 2 ^ 32 → skb_inv n s).
Proof.
  induction 1 as [c m s Hc Hi|n s _ [Hn IH]|n s size _ [Hn IH] Hs|n s p l _ [Hn IH] Hl|n s p l _ [Hn IH] Hl|
    n s p l _ [Hn IH] Hl|n s p st o _ [Hn IH]|n s p r o _ [Hn IH]|n s p _ [Hn IH]|n s p _ [Hn IH]|
    n s p d _ [Hn IH]|n s c _ [Hn IH] C1 C2 C3]; (split; [lia|]); intros Hlt.
  - by apply (skb_init_inv c m).
  - specialize (IH Hlt). unfold skb_init. rewrite (kv_lock _ _ IH), (ko_init _ _ _ _ (kv_stats _ _ IH)). done.
  - by destruct (alloc_exact n s size (IH ltac:(lia)) Hlt Hs).
  - apply put_inv; [apply IH; lia|done].
  - apply push_inv; [apply IH; lia|done].
  - apply pull_inv; [apply IH; lia|done].
  - apply skb_transition_inv, IH. lia.
  - apply skb_complete_inv; [apply IH; lia|done].
  - apply skb_retain_inv; [apply IH; lia|done].
  - apply skb_release_inv; [apply IH; lia|done].
  - apply dev_inv, IH. lia.
  - by apply inv_slabs; [apply IH|..].
Qed.

(** ** What put, push and pull change *)

(** [s'] is [s] with the data of the buffer [p] at head room [h] and of length [l]. *)
Record resized s s' (p h l : Z) : Prop := {
  rz_registry : skb_registry s' = skb_registry s;
  rz_head : sk_head (skb_at s' p) = sk_head (skb_at s p);
  rz_end : sk_end (skb_at s' p) = sk_end (skb_at s p);
  rz_data : sk_data (skb_at s' p) = sk_head (skb_at s p) + h;
  rz_tail : sk_tail (skb_at s' p) = sk_head (skb_at s p) + h + l;
  rz_len : sk_len (skb_at s' p) = l;
  rz_room : (nb_headroom (life_at s' p), nb_length (life_at s' p), nb_tailroom (life_at s' p))
    = (h, l, nb_capacity (life_at s p) - h - l);
  rz_others q : q ≠ p → skb_at s' q = skb_at s q ∧ life_at s' q = life_at s q
}.

Lemma resized_refl n s s' p :
  skb_inv n s → p ∈ live (skb_registry s) → skb_registry s' = skb_registry s →
  (∀ q, skb_at s' q = skb_at s q ∧ life_at s' q = life_at s q) →
  resized s s' p (nb_headroom (life_at s p)) (nb_length (life_at s p)).
Proof.
  intros I Hp Hr Hq. destruct (kv_entry _ _ I p Hp), (kv_buffer _ _ _ I Hp), (Hq p) as [E1 E2].
  split; try done; rewrite ?E1, ?E2; try congruence; do 2 f_equal; lia.
Qed.

Lemma resize_to_spec n s p h l a :
  skb_inv n s → p ∈ live (skb_registry s) →
  let '(s', a') := resize_to s p h l a in
  if is_terminal (life_at s p)
  then a' = 0 ∧ resized s s' p (nb_headroom (life_at s p)) (nb_length (life_at s p))
  else a' = a ∧ resized s s' p h l.
Proof.
  intros I Hp. unfold resize_to. destruct (is_terminal (life_at s p)) eqn:Et.
  - split; [done|]. apply (resized_refl n); [done|done|done|]. intros q. split; [done|].
    unfold life_at. change (lifetimes (skb_record_failure_locked (s <| lifetimes ::= ?f |>) ERR_STATE)) with (f (lifetimes s)).
    cbn beta. unfold buf. by destruct (fail_state (lifetimes s) ERR_STATE false) as (f & _ & ->).
  - split; [done|]. set (b' := set nb_tailroom _ _). set (k' := SkBuff _ _ _ _ _ _ _).
    assert (∀ q, skb_at (write_skb (s <| lifetimes ::= λ x, write_buf x (lifetime_of p) b' |>) p k') q =
      if decide (q = p) then k' else skb_at s q) as H1 by (intros q; rewrite skb_at_write; done).
    assert (∀ q, life_at (write_skb (s <| lifetimes ::= λ x, write_buf x (lifetime_of p) b' |>) p k') q =
      if decide (lifetime_of q = lifetime_of p) then b' else life_at s q) as H2 by (intros q; apply buf_write).
    split; rewrite ?H1, ?H2, ?decide_True by done; try done.
    intros q Hq. by rewrite H1, H2, !decide_False by (done || unfold lifetime_of; lia).
Qed.

Lemma refuse_spec n s r p :
  skb_inv n s → p ∈ live (skb_registry s) →
  resized s (refuse s r).1 p (nb_headroom (life_at s p)) (nb_length (life_at s p)).
Proof. intros I Hp. by apply (resized_refl n). Qed.
End calls.
