(* ===== verification/SkbSystem.v ===== *)
(** * Socket buffers on the slab allocator

    slab.c provides the interface sk_buff.c needs, with the reachable states of
    SlabRun.v as invariant, so the theorems hold of the whole stack: socket
    buffers, over slabs, over the page manager.  [skb_run n s] is every state
    that [n] calls can reach. *)

From S2P Require Import Prelude Memory Pmm Heap HeapRefine MemorySystem PageOwner.
From S2P Require Import Slab SlabInv SlabSystem SlabCalls SlabSpec SlabValidate SlabPages SlabRun.
From S2P Require Import Registry NetBuffer SkBuff SkbInv SkbCalls.

(** ** slab.c provides the interface *)

#[export] Instance slab_objects : ObjectCache (slab_t memory_t) := {|
  oc_create := kmem_cache_create;
  oc_alloc := kmem_cache_alloc;
  oc_free := kmem_cache_free;
  oc_owns := kmem_cache_owns;
  oc_get_info := kmem_cache_get_info
|}.

Abbreviation memory_slabs := (slab_t memory_t).
Implicit Types s : memory_slabs.

Definition cache_of s (c size : Z) : Prop :=
  slab_cache_registered s c = true ∧ kc_object_size (get_cache s c) = size.
Definition reachable s : Prop := ∃ live, slab_run s live.

Lemma cache_of_same s s' c size :
  cache_of s c size → kc_used (get_cache s' c) = kc_used (get_cache s c) →
  kc_object_size (get_cache s' c) = kc_object_size (get_cache s c) → cache_of s' c size.
Proof. intros [[H1 H2]%registered_spec H3] E1 E2. split; [apply registered_spec|]; by rewrite ?E1, ?E2. Qed.

Lemma objects_nodup s c : reachable s → NoDup (live_objects s c).
Proof. intros (live & I%slab_run_inv). by apply (live_nodup (PML := pmm_pages_laws live)). Qed.

(** Equal sets of objects, without duplicates. *)
Lemma objects_perm s c l : reachable s → NoDup l → (∀ x, x ∈ live_objects s c ↔ x ∈ l) → live_objects s c ≡ₚ l.
Proof. intros Hs Hl Hx. by apply NoDup_Permutation; [apply objects_nodup|..]. Qed.

Lemma slab_create_law s name size al s' c :
  reachable s → 0 ≤ size < 2 ^ 32 → 0 ≤ al < 2 ^ 32 → kmem_cache_create s name size al = (s', c) →
  reachable s' ∧ (c = NULL_CACHE ∨ (0 ≤ c ∧ cache_of s' c size ∧ live_objects s' c = [])).
Proof.
  intros (live & Hr) Hs Ha E. pose proof (slab_run_inv _ _ Hr) as I.
  pose proof (create_spec (PML := pmm_pages_laws live) s name size al I Hs Ha) as H. rewrite E in H.
  split; [exists live; replace s' with (kmem_cache_create s name size al).1 by (by rewrite E); by apply slab_create|].
  destruct H as [_ [[-> _]|[C1 _ C3 _ C5 _ C7 _ _ _ _]]]; [by left|right].
  split; [lia|]. split; [|done]. split; [by apply registered_spec|done].
Qed.

Lemma slab_alloc_law s c size s' o :
  reachable s → cache_of s c size → kmem_cache_alloc s c = (s', o) →
  reachable s' ∧ cache_of s' c size ∧
  ((o = 0 ∧ live_objects s' c ≡ₚ live_objects s c) ∨ (o ≠ 0 ∧ live_objects s' c ≡ₚ o :: live_objects s c)).
Proof.
  intros Hre Hc E. pose proof Hre as (live & Hr). pose proof (slab_run_inv _ _ Hr) as I.
  assert (reachable s') as Hr'
    by (exists live; replace s' with (kmem_cache_alloc s c).1 by (by rewrite E); by apply slab_alloc).
  split; [done|]. pose proof (alloc_spec (PML := pmm_pages_laws live) s c I) as H. rewrite E in H. cbn [fst snd] in H.
  destruct H as [s' _ SO _|s' o _ _ A].
  - destruct (sm_caches (PML := pmm_pages_laws live) _ _ SO c) as (E1 & E2 & _).
    split; [by apply (cache_of_same s)|]. left. split; [done|].
    apply objects_perm; [done|by apply objects_nodup|]. apply SO.
  - destruct (al_caches (PML := pmm_pages_laws live) _ _ _ _ A c) as (E1 & E2 & _).
    pose proof (al_positive (PML := pmm_pages_laws live) _ _ _ _ A) as Ho.
    split; [by apply (cache_of_same s)|]. right. split; [lia|].
    apply objects_perm; [done| |].
    + apply NoDup_cons. split; [|by apply objects_nodup]. intros Hin.
      destruct (capacity_of_live live s c o I Hin) as [Hreg _]. apply registered_spec in Hreg as [R1 R2].
      pose proof (cg_size _ (si_cache (PML := pmm_pages_laws live) _ _ I c R1 R2)) as Hsz.
      apply (al_fresh (PML := pmm_pages_laws live) _ _ _ _ A c o o Hin); unfold in_object; lia.
    + intros x. rewrite (al_live (PML := pmm_pages_laws live) _ _ _ _ A), elem_of_cons. tauto.
Qed.

Lemma slab_free_law s c size o :
  reachable s → cache_of s c size → o ∈ live_objects s c →
  reachable (kmem_cache_free s c o) ∧ cache_of (kmem_cache_free s c o) c size ∧
  live_objects s c ≡ₚ o :: live_objects (kmem_cache_free s c o) c.
Proof.
  intros Hre Hc Ho. pose proof Hre as (live & Hr). pose proof (slab_run_inv _ _ Hr) as I.
  destruct (live_object_ok live s c o I Ho) as (Hreg & _ & O1 & O2 & _).
  pose proof Hreg as [R1 R2]%registered_spec.
  pose proof (cg_size _ (si_cache (PML := pmm_pages_laws live) _ _ I c R1 R2)) as Hsz.
  change HEAP_END with 20971520 in O1. assert (0 ≤ o < 2 ^ 32) as Hrange by lia.
  assert (reachable (kmem_cache_free s c o)) as Hr' by (exists live; by apply slab_free).
  split; [done|]. destruct (free_spec (PML := pmm_pages_laws live) s c o I Hrange) as [_ F].
  destruct F as [[?| ->]|? ? _|i k ? ? _ _ _|s' _ _ F1 _ _ F2]; [congruence|lia|done|done|].
  destruct (F2 c) as (E1 & E2 & _). split; [by apply (cache_of_same s)|].
  apply objects_perm; [done| |].
  - apply NoDup_cons. split; [|by apply objects_nodup]. rewrite F1. tauto.
  - intros x. rewrite elem_of_cons, F1. destruct (decide (x = o)) as [->|]; tauto.
Qed.

Lemma slab_owns_law s c size o :
  reachable s → cache_of s c size → o ∈ live_objects s c → kmem_cache_owns s c o = true.
Proof. intros (live & I%slab_run_inv) _ Ho. by destruct (live_object_ok live s c o I Ho) as (_ & ? & _). Qed.

Lemma slab_info_law s c size :
  reachable s → cache_of s c size →
  ∃ info, kmem_cache_get_info s c = (Some info, OK) ∧ ki_active_objects info = len (live_objects s c).
Proof.
  intros (live & I%slab_run_inv) [Hr _]. exists (slab_copy_info (get_cache s c)). unfold kmem_cache_get_info.
  rewrite Hr. split; [done|]. apply registered_spec in Hr as [R1 R2].
  symmetry. by apply (live_count (PML := pmm_pages_laws live)).
Qed.

Lemma slab_apart_law s c size :
  reachable s → cache_of s c size →
  NoDup (live_objects s c) ∧ (∀ o, o ∈ live_objects s c → 0 < o ∧ o + size < 2 ^ 32) ∧
  ∀ o o', o ∈ live_objects s c → o' ∈ live_objects s c → o ≠ o' → o + size ≤ o' ∨ o' + size ≤ o.
Proof.
  intros Hre [Hreg <-]. split; [by apply objects_nodup|]. pose proof Hre as (live & I%slab_run_inv).
  pose proof Hreg as [R1 R2]%registered_spec.
  pose proof (cg_size _ (si_cache (PML := pmm_pages_laws live) _ _ I c R1 R2)) as Hsz. split.
  - intros o Ho. destruct (live_object_ok live s c o I Ho) as (_ & _ & O1 & O2 & _).
    change HEAP_END with 20971520 in O1. lia.
  - intros o o' Ho Ho' Hne.
    pose proof (live_objects_apart live s c o c o' (Z.max o o') I Ho Ho' (or_intror Hne)) as H.
    unfold in_object in H. lia.
Qed.

#[export] Instance slab_objects_laws : ObjectCacheLaws (slab_t memory_t) := {|
  oc_inv := reachable;
  oc_cache := cache_of;
  oc_objects := live_objects;
  oc_create_law := slab_create_law;
  oc_alloc_law := slab_alloc_law;
  oc_free_law := slab_free_law;
  oc_owns_law := slab_owns_law;
  oc_info_law := slab_info_law;
  oc_apart_law := slab_apart_law
|}.

(** ** Theorems *)

Implicit Types b : skb_t (slab_t memory_t).

(** C32: In every state reached by fewer than 2^32 calls [skb_validate_state]
    succeeds and the slab allocator below validates; the objects of the cache in
    use are exactly the registered buffers, at most 32, so none is leaked; each
    buffer's pointers are ordered and stay in its own storage, and the storages
    of two buffers never overlap. *)
Theorem skb_run_valid n b :
  skb_run n b → n < 2 ^ 32 →
  skb_validate_state b = OK ∧ kmem_cache_validate (slabs b) = OK ∧
  live_objects (slabs b) (skb_cache b) ≡ₚ live (skb_registry b) ∧ (length (live (skb_registry b)) ≤ 32)%nat ∧
  ∀ p, p ∈ live (skb_registry b) →
    let k := skb_at b p in
    storage_of p = sk_head k ∧ sk_head k ≤ sk_data k ∧ sk_data k ≤ sk_tail k ≤ sk_end k ∧
    sk_end k ≤ p + SKB_ENTRY_SIZE ∧ sk_tail k = sk_data k + sk_len k ∧
    ∀ q, q ∈ live (skb_registry b) → p ≠ q → p + SKB_ENTRY_SIZE ≤ q ∨ q + SKB_ENTRY_SIZE ≤ p.
Proof.
  intros [_ I]%skb_run_inv Hlt. specialize (I Hlt). split; [by apply (skb_validate_ok n)|]. split.
  { destruct (kv_slabs _ _ I) as (live & I'%slab_run_inv). by apply (slab_validate_ok (PML := pmm_pages_laws live)). }
  split; [apply (kv_objects _ _ I)|]. split.
  { pose proof (live_length (skb_registry b)). by rewrite (kv_length _ _ I) in *. }
  intros p Hp k. destruct (kv_geometry _ _ _ I Hp) as (G1 & G2 & G3 & _ & G5 & G6 & _). fold k in G1, G2, G3, G5, G6.
  split; [by rewrite G1|]. split; [lia|]. do 3 (split; [done|]). intros q Hq Hne.
  destruct (slab_apart_law _ _ _ (kv_slabs _ _ I) (kv_cache _ _ I)) as (_ & _ & A).
  apply A; [by rewrite (kv_objects _ _ I)..|done].
Qed.


(** [alloc_skb] returns a buffer that was not registered, empty, with all its
    room behind the data and one reference, and changes no other buffer; or it
    returns null with every buffer as it was, and only for a size that is zero
    or above 2048, when the slab allocator gives no object, or with 32 buffers
    registered. *)
Theorem skb_alloc_correct n b size :
  skb_run n b → n + 1 < 2 ^ 32 → is_u32 size → alloc_outcome n b size (alloc_skb b size).
Proof. intros [_ I]%skb_run_inv Hlt Hs. apply alloc_exact; [apply I; lia|done|done]. Qed.

(** ** Witnesses: one buffer of 128 bytes on the booted machine *)

Definition skb_init_on (m : memory_t) : skb_t (slab_t memory_t) * status :=
  skb_init (skb_boot (kmem_cache_init (slab_boot m true)).1 ∅).
Definition skb_demo0 : skb_t (slab_t memory_t) := (skb_init_on booted).1.
Definition skb_demo1 : skb_t (slab_t memory_t) := (alloc_skb skb_demo0 128).1.
Definition skb_demo_p : Z := (alloc_skb skb_demo0 128).2.

Lemma skb_init_facts m :
  (skb_init_on m).2 = OK ∧ let b := (skb_init_on m).1 in
  skb_cache b = 0 ∧ live (skb_registry b) = [] ∧ slab_cache_registered (slabs b) 0 = true ∧
  slab_find_free_record (slabs b) = 0 ∧ kc_slab_pages (get_cache (slabs b) 0) = 5 ∧
  pages (slabs b) = m ∧ paging_ready (slabs b) = true.
Proof. vm_compute. done. Qed.

Lemma skb_demo0_run : skb_run 0 skb_demo0.
Proof.
  apply (sr_start (kmem_cache_init (slab_boot booted true)).1 ∅).
  - exists ∅. apply slab_start, booted_run.
  - etransitivity; [apply surjective_pairing|]. exact (f_equal (pair skb_demo0) (proj1 (skb_init_facts booted))).
Qed.

Lemma skb_demo1_run : skb_run 1 skb_demo1.
Proof. apply (sr_alloc 0); [exact skb_demo0_run|unfold is_u32; lia]. Qed.

(** A run of five pages is free. *)
Lemma prepare_five s :
  slab_find_free_record s = 0 → kc_slab_pages (get_cache s 0) = 5 → pages s = booted →
  (slab_prepare_record s 0).2 = OK.
Proof.
  intros E1 E2 E3. unfold slab_prepare_record. rewrite E1, E2, E3. cbn [Z.ltb Z.compare].
  pose proof (alloc_in_zone_spec booted 5 MEMORY_ZONE_SLAB booted_wf ltac:(lia)) as H.
  change (pm_alloc booted 5) with (pmm_alloc_pages_in_zone booted 5 MEMORY_ZONE_SLAB).
  destruct (pmm_alloc_pages_in_zone booted 5 MEMORY_ZONE_SLAB) as [m a]. destruct H as [_ H].
  destruct H as [[H|[H|H]]|m first Hz Hpos Hr Hmin Hlow RC];
    [discriminate|discriminate|destruct (H 5120 (booted_free_pages 5 ltac:(lia)))|].
  change FIRST_FREE_PAGE with 5120 in Hlow.
  replace (first * PAGE_SIZE =? 0) with false by (unfold PAGE_SIZE; lia). reflexivity.
Qed.

(** An allocation whose cache can grow succeeds. *)
Lemma alloc_can_grow b size :
  skb_run 0 b → skb_cache b = 0 → live (skb_registry b) = [] → slab_cache_registered (slabs b) 0 = true →
  paging_ready (slabs b) = true → (slab_prepare_record (slabs b) 0).2 = OK → 0 < size ≤ SK_BUFF_STORAGE_SIZE →
  (alloc_skb b size).2 ∈ live (skb_registry (alloc_skb b size).1) ∧
  life_at (alloc_skb b size).1 (alloc_skb b size).2 = fresh_life size.
Proof.
  intros Hr Ec El Hreg Hp Hprep Hs. destruct (skb_run_inv _ _ Hr) as [_ I]. specialize (I ltac:(lia)).
  unfold SK_BUFF_STORAGE_SIZE in Hs.
  destruct (alloc_exact 0 b size I) as [b' _ _ _ [H|[H|[H|H]]]|b' p _ _ _ HL _ Hlife _];
    [lia|unfold is_u32; lia|lia|unfold SK_BUFF_STORAGE_SIZE in H; lia| |by rewrite El in H|].
  - exfalso. rewrite Ec in H. destruct (kv_slabs _ _ I) as (live' & I'%slab_run_inv).
    destruct (alloc_succeeds live' (slabs b) 0 I' Hreg Hp (or_intror Hprep)) as [_ A].
    pose proof (al_positive (PML := pmm_pages_laws live') _ _ _ _ A) as Hpos.
    change (oc_alloc (slabs b) 0) with (kmem_cache_alloc (slabs b) 0) in H. lia.
  - split; [|exact Hlife]. cbn [fst snd]. rewrite HL. constructor.
Qed.

Lemma skb_demo_live :
  skb_demo_p ∈ live (skb_registry skb_demo1) ∧ life_at skb_demo1 skb_demo_p = fresh_life 128.
Proof.
  destruct (skb_init_facts booted) as (_ & F1 & F2 & F3 & F4 & F5 & F6 & F7).
  apply (alloc_can_grow skb_demo0 128 skb_demo0_run F1 F2 F3 F7 (prepare_five _ F4 F5 F6)).
  unfold SK_BUFF_STORAGE_SIZE. lia.
Qed.

Lemma skb_run_valid_witness :
  skb_run 1 skb_demo1 ∧ skb_validate_state skb_demo1 = OK ∧
  sk_head (skb_at skb_demo1 skb_demo_p) ≤ sk_data (skb_at skb_demo1 skb_demo_p).
Proof.
  destruct (skb_run_valid 1 skb_demo1 skb_demo1_run ltac:(lia)) as (H1 & _ & _ & _ & H2).
  destruct (H2 skb_demo_p (proj1 skb_demo_live)) as (_ & H3 & _).
  exact (conj skb_demo1_run (conj H1 H3)).
Defined.


Lemma skb_alloc_correct_witness :
  skb_run 0 skb_demo0 ∧ skb_demo_p ∈ live (skb_registry skb_demo1) ∧
  alloc_outcome 0 skb_demo0 128 (alloc_skb skb_demo0 128).
Proof.
  split; [exact skb_demo0_run|]. split; [exact (proj1 skb_demo_live)|].
  exact (skb_alloc_correct 0 skb_demo0 128 skb_demo0_run ltac:(lia) ltac:(unfold is_u32; lia)).
Defined.

(** ** The self test

    On a simple object cache (every allocation takes the next address) the calls
    behave as the self test expects, and the statistics are restored. *)
Definition bump : Type := Z * list Z.
Definition bump_objects : ObjectCache bump := {|
  oc_create c _ _ _ := (c, 0);
  oc_alloc '(next, l) _ := ((next + 4096, next :: l), next);
  oc_free '(next, l) _ o := (next, filter (λ p, p ≠ o) l);
  oc_owns '(_, l) _ o := bool_decide (o ∈ l);
  oc_get_info '(_, l) _ := (Some (KmemCacheInfo [] 0 0 0 0 (len l) 0 0 0 0 0 0 true), OK)
|}.

Example skb_self_test_passes :
  let b := (skb_init (H := bump_objects) (skb_boot (4096, []) ∅)).1 in
  let '(b', result) := skb_self_test (H := bump_objects) b in
  result = OK ∧ skb_stats b' = skb_stats b ∧ live (skb_registry b') = [] ∧ (slabs b').2 = [].
Proof. vm_compute. done. Qed.
