(* ===== verification/VfsPath.v ===== *)
(** * Paths of the virtual file system: src/fs/vfs_path.c

    A C string is the list of its characters up to the terminator.  A buffer
    being filled is the text written so far, and its length the length of that
    text.  [vfs_normalize_from] turns any path into the canonical absolute one,
    with a stack of the positions where the components start; the reference
    ([pieces], [resolve], [render]) works on the list of components.  The rest
    of the file is the mount table: lookup by longest prefix, the volume
    prefixes of old paths, and [vfs_canonicalize], the entry of all path
    operations.  Log lines are not modelled. *)

From S2P Require Import Prelude.

(** ** The code *)

Definition VFS_MAX_PATH : Z := 256.
Definition STORAGE_ID_SIZE : Z := 48.
Definition VFS_MAX_STORAGE_MOUNTS : Z := 4.
Definition VFS_MAX_MOUNTS : Z := VFS_MAX_STORAGE_MOUNTS + 3.

(** Characters. *)
Definition SLASH : Z := 47.
Definition BACKSLASH : Z := 92.
Definition DOT : Z := 46.
Definition COLON : Z := 58.

Definition vfs_mount_next_generation (generation : Z) : Z :=
  let generation := generation +w 1 in
  if negb (generation =? 0) then generation else 1.

Fixpoint path_copy_loop (index capacity : Z) (source : list Z) : list Z :=
  match source with
  | [] => []
  | c :: source => if index +w 1 <? capacity then c :: path_copy_loop (index +w 1) capacity source else []
  end.
(** The destination is not null and has a positive capacity. *)
Definition vfs_path_copy (capacity : Z) (source : list Z) : list Z := path_copy_loop 0 capacity source.

Fixpoint vfs_path_equal (first second : list Z) : bool :=
  match first, second with
  | a :: first, b :: second => if a =? b then vfs_path_equal first second else false
  | [], [] => true
  | _, _ => false
  end.

(** The path after the characters it shares with the whole prefix; [None] when
    the prefix has characters left. *)
Fixpoint strip_prefix (path prefix : list Z) : option (list Z) :=
  match prefix, path with
  | [], _ => Some path
  | p :: prefix, c :: path => if c =? p then strip_prefix path prefix else None
  | _ :: _, [] => None
  end.
Definition vfs_path_prefix (path prefix : list Z) : bool :=
  match strip_prefix path prefix with
  | None => false
  | Some rest =>
      if (len prefix =? 1) && (at_ prefix 0 =? SLASH) then true else
      match rest with
      | [] => true
      | c :: _ => c =? SLASH
      end
  end.

(** The length is the length of [path]. *)
Definition vfs_path_append (path text : list Z) (amount : Z) : list Z * status :=
  if len path +w amount >=? VFS_MAX_PATH then (path, ERR_OVERFLOW)
  else (path ++ take (Z.to_nat amount) text, OK).

Definition is_separator (c : Z) : bool := (c =? SLASH) || (c =? BACKSLASH).

(** [while (combined[cursor] is a separator) cursor++] *)
Fixpoint skip_separators (rest : list Z) : list Z :=
  match rest with
  | c :: l => if is_separator c then skip_separators l else rest
  | [] => []
  end.
(** The component at the cursor and what follows. *)
Fixpoint take_component (rest : list Z) : list Z * list Z :=
  match rest with
  | c :: l => if is_separator c then ([], rest) else let '(component, l) := take_component l in (c :: component, l)
  | [] => ([], [])
  end.

(** The component is appended to the output. *)
Definition add_component (output component : list Z) : option (list Z) :=
  let output' :=
    if len output >? 1 then
      if len output +w 1 >=? VFS_MAX_PATH then None else Some (output ++ [SLASH])
    else Some output in
  match output' with
  | None => None
  | Some output =>
      if len output +w len component >=? VFS_MAX_PATH then None else Some (output ++ component)
  end.

(** The loop on [combined] from the cursor on.  The top of [starts] is
    [segment_starts[segment_count - 1]].  [None] when the fuel runs out. *)
Fixpoint normalize_loop (fuel : nat) (rest output starts : list Z) : option (list Z * status) :=
  match fuel with
  | O => None
  | S fuel =>
      match skip_separators rest with
      | [] => Some (output, OK)
      | rest =>
          let '(component, rest) := take_component rest in
          if (len component =? 1) && (at_ component 0 =? DOT) then normalize_loop fuel rest output starts else
          if (len component =? 2) && (at_ component 0 =? DOT) && (at_ component 1 =? DOT) then
            match starts with
            | [] => Some (output, ERR_INVALID)
            | output_length :: starts => normalize_loop fuel rest (take (Z.to_nat output_length) output) starts
            end
          else
          if len starts >=? VFS_MAX_PATH / 2 then Some (output, ERR_OVERFLOW) else
          let starts := (if len output =? 1 then 1 else len output) :: starts in
          match add_component output component with
          | None => Some (output, ERR_OVERFLOW)
          | Some output => normalize_loop fuel rest output starts
          end
      end
  end.

(** The text in [combined]. *)
Definition combine_path (path cwd : list Z) : list Z * status :=
  let '(combined, result) :=
    if negb (at_ path 0 =? SLASH) && negb (at_ path 0 =? BACKSLASH) then
      let '(combined, result) := vfs_path_append [] cwd (len cwd) in
      if negb (is_ok result) then (combined, ERR_OVERFLOW) else
      if (len combined >? 1) && negb (at_ combined (len combined - 1) =? SLASH)
      then vfs_path_append combined [SLASH] 1
      else (combined, OK)
    else ([], OK) in
  if negb (is_ok result) then (combined, ERR_OVERFLOW) else
  let '(combined, result) := vfs_path_append combined path (len path) in
  (combined, if is_ok result then OK else ERR_OVERFLOW).

(** No pointer is null.  The text is the contents of [output], of use to the
    callers when the status is [OK]. *)
Definition vfs_normalize_from (path cwd : list Z) : option (list Z * status) :=
  match path with
  | [] => Some ([], ERR_INVALID)
  | _ :: _ =>
      if (len path >=? VFS_MAX_PATH) || (len cwd >=? VFS_MAX_PATH) then Some ([], ERR_OVERFLOW) else
      let '(combined, result) := combine_path path cwd in
      if negb (is_ok result) then Some ([], ERR_OVERFLOW) else
      normalize_loop (Datatypes.S (length combined)) combined [SLASH] []
  end.

(** ** The mount table *)

Definition STORAGE_FS_NONE : Z := 0.
Definition STORAGE_FS_FAT12 : Z := 1.
Inductive vfs_mount_kind_t := VFS_MOUNT_STORAGE | VFS_MOUNT_DEVFS | VFS_MOUNT_PROCFS | VFS_MOUNT_SYSFS.

Record vfs_mount_info_t := MountInfo {
  vm_slot : Z; vm_generation : Z; vm_open_files : Z; vm_cwd_references : Z; vm_fs_type : Z;
  vm_used : bool; vm_pinned : bool; vm_read_only : bool; vm_mount_point : list Z;
  vm_volume_id : list Z; vm_kind : vfs_mount_kind_t
}.
Definition mount_zero : vfs_mount_info_t := MountInfo 0 0 0 0 STORAGE_FS_NONE false false false [] [] VFS_MOUNT_STORAGE.

(** The static variables. *)
Record vfs_paths_t := VfsPaths {
  vfs_mount_table : list vfs_mount_info_t;
  vfs_mount_generations : list Z;
  vfs_lookup_count : Z;
  vfs_chdir_count : Z;
  vfs_path_ready : bool
}.

(** Texts: "/", "/dev", "devfs", "/proc", "procfs", "/sys", "sysfs", "system",
    "legacy", "/mnt/boot". *)
Definition text_root : list Z := [47].
Definition text_dev : list Z := [47; 100; 101; 118].
Definition text_devfs : list Z := [100; 101; 118; 102; 115].
Definition text_proc : list Z := [47; 112; 114; 111; 99].
Definition text_procfs : list Z := [112; 114; 111; 99; 102; 115].
Definition text_sys : list Z := [47; 115; 121; 115].
Definition text_sysfs : list Z := [115; 121; 115; 102; 115].
Definition text_system : list Z := [115; 121; 115; 116; 101; 109].
Definition text_legacy : list Z := [108; 101; 103; 97; 99; 121].
Definition text_mnt_boot : list Z := [47; 109; 110; 116; 47; 98; 111; 111; 116].

Definition vfs_devfs_mount_fill : vfs_mount_info_t :=
  MountInfo VFS_MAX_STORAGE_MOUNTS 1 0 0 STORAGE_FS_NONE true true false
    (vfs_path_copy VFS_MAX_PATH text_dev) (vfs_path_copy STORAGE_ID_SIZE text_devfs) VFS_MOUNT_DEVFS.
Definition vfs_procfs_mount_fill : vfs_mount_info_t :=
  MountInfo (VFS_MAX_STORAGE_MOUNTS + 1) 1 0 0 STORAGE_FS_NONE true true true
    (vfs_path_copy VFS_MAX_PATH text_proc) (vfs_path_copy STORAGE_ID_SIZE text_procfs) VFS_MOUNT_PROCFS.
Definition vfs_sysfs_mount_fill : vfs_mount_info_t :=
  MountInfo (VFS_MAX_STORAGE_MOUNTS + 2) 1 0 0 STORAGE_FS_NONE true true true
    (vfs_path_copy VFS_MAX_PATH text_sys) (vfs_path_copy STORAGE_ID_SIZE text_sysfs) VFS_MOUNT_SYSFS.

Definition vfs_path_init : vfs_paths_t * status :=
  let free := Z.to_nat VFS_MAX_STORAGE_MOUNTS in
  (VfsPaths (replicate free mount_zero ++ [vfs_devfs_mount_fill; vfs_procfs_mount_fill; vfs_sysfs_mount_fill])
     (replicate free 0 ++ [1; 1; 1]) 0 0 true, OK).

(** The first slot of the table from [index] on that satisfies [f]; -1 if none. *)
Fixpoint find_mount (f : vfs_mount_info_t → bool) (index : Z) (table : list vfs_mount_info_t) : Z :=
  match table with
  | [] => -1
  | info :: table => if f info then index else find_mount f (index + 1) table
  end.

Definition vfs_find_mount_by_volume_unlocked (s : vfs_paths_t) (volume_id : list Z) : Z :=
  find_mount (λ info, vm_used info && vfs_path_equal (vm_volume_id info) volume_id) 0 (vfs_mount_table s).

Fixpoint mount_for_path_loop (path : list Z) (index selected selected_length : Z)
    (table : list vfs_mount_info_t) : Z :=
  match table with
  | [] => selected
  | info :: table =>
      if negb (vm_used info) || negb (vfs_path_prefix path (vm_mount_point info))
      then mount_for_path_loop path (index + 1) selected selected_length table else
      let length := len (vm_mount_point info) in
      if (selected <? 0) || (length >? selected_length)
      then mount_for_path_loop path (index + 1) index length table
      else mount_for_path_loop path (index + 1) selected selected_length table
  end.
Definition vfs_find_mount_for_path_unlocked (s : vfs_paths_t) (path : list Z) : Z :=
  mount_for_path_loop path 0 (-1) 0 (vfs_mount_table s).

(** ** Canonical paths *)

(** [separator] of [vfs_legacy_prefix]. *)
Fixpoint scan_separator (path : list Z) (separator : Z) : Z :=
  match path with
  | [] => separator
  | c :: path =>
      if negb (c =? COLON) && (separator + 1 <? STORAGE_ID_SIZE)
      then scan_separator path (separator + 1) else separator
  end.

Definition legacy_mount (s : vfs_paths_t) (prefix : list Z) : Z :=
  if vfs_path_equal prefix text_system then vfs_find_mount_for_path_unlocked s text_root else
  if vfs_path_equal prefix text_legacy then
    find_mount (λ info, vm_used info && ((vm_fs_type info =? STORAGE_FS_FAT12)
                          || vfs_path_equal (vm_mount_point info) text_mnt_boot)) 0 (vfs_mount_table s)
  else vfs_find_mount_by_volume_unlocked s prefix.

Definition vfs_legacy_prefix (s : vfs_paths_t) (path : list Z) : option (list Z * status) :=
  let separator := scan_separator path 0 in
  if negb (at_ path separator =? COLON) then Some ([], ERR_NOT_FOUND) else
  let prefix := take (Z.to_nat separator) path in
  let mount_index := legacy_mount s prefix in
  if mount_index <? 0 then Some ([], ERR_NOT_FOUND) else
  let mount_point := vfs_path_copy VFS_MAX_PATH
    (vm_mount_point (default mount_zero (vfs_mount_table s !! Z.to_nat mount_index))) in
  let relative := skip_separators (drop (Z.to_nat (separator + 1)) path) in
  match relative with
  | [] => vfs_normalize_from mount_point text_root
  | _ :: _ =>
      let '(joined, result) := vfs_path_append [] mount_point (len mount_point) in
      let '(joined, result) :=
        if is_ok result && (len joined >? 1) then vfs_path_append joined [SLASH] 1 else (joined, result) in
      let '(joined, result) :=
        if is_ok result then vfs_path_append joined relative (len relative) else (joined, result) in
      if negb (is_ok result) then Some ([], ERR_OVERFLOW) else vfs_normalize_from joined text_root
  end.

(** The current process: none, or the [initialized] flag and the [cwd] of its
    descriptor table. *)
Definition vfs_current_cwd (current : option (bool * list Z)) : list Z * status :=
  match current with
  | None => (text_root, OK)
  | Some (initialized, cwd) =>
      match cwd with
      | [] => (text_root, ERR_STATE)
      | _ :: _ => if initialized then (vfs_path_copy VFS_MAX_PATH cwd, OK) else (text_root, ERR_STATE)
      end
  end.

Definition vfs_canonicalize (s : vfs_paths_t) (current : option (bool * list Z)) (path : list Z)
    : option (list Z * status) :=
  let from_cwd :=
    let '(cwd, result) := vfs_current_cwd current in
    if negb (is_ok result) then Some ([], ERR_STATE) else vfs_normalize_from path cwd in
  if negb (at_ path 0 =? SLASH) && negb (at_ path 0 =? BACKSLASH) then
    match vfs_legacy_prefix s path with
    | Some (canonical, result) =>
        if negb (bool_decide (result = ERR_NOT_FOUND)) then Some (canonical, result) else from_cwd
    | None => None
    end
  else from_cwd.

(** ** The reference: lists of components *)

(** The non-empty runs between separators. *)
Fixpoint pieces (l : list Z) : list (list Z) :=
  match l with
  | [] => []
  | c :: l' =>
      if is_separator c then pieces l' else
      match l' with
      | d :: _ => if is_separator d then [c] :: pieces l' else
          match pieces l' with
          | p :: ps => (c :: p) :: ps
          | [] => [[c]]
          end
      | [] => [[c]]
      end
  end.

Definition dot : list Z := [DOT].
Definition dotdot : list Z := [DOT; DOT].

(** Walking the components down from the root; [None] climbs above it. *)
Fixpoint resolve (stack : list (list Z)) (components : list (list Z)) : option (list (list Z)) :=
  match components with
  | [] => Some stack
  | c :: components =>
      if bool_decide (c = dot) then resolve stack components else
      if bool_decide (c = dotdot) then
        match stack with [] => None | _ => resolve (removelast stack) components end
      else resolve (stack ++ [c]) components
  end.

Definition render (components : list (list Z)) : list Z :=
  match components with [] => [SLASH] | _ => concat (map (cons SLASH) components) end.

(** A component that can stay in a canonical path. *)
Definition component_ok (c : list Z) : Prop :=
  c ≠ [] ∧ Forall (λ x, is_separator x = false) c ∧ c ≠ dot ∧ c ≠ dotdot.

(** ** Splitting *)

Lemma skip_pieces l : pieces (skip_separators l) = pieces l.
Proof. induction l as [|c l IH]; [done|]. cbn [skip_separators]. destruct (is_separator c) eqn:E; [|done]. cbn [pieces]. by rewrite E. Qed.

Lemma skip_head l c l' : skip_separators l = c :: l' → is_separator c = false.
Proof.
  induction l as [|x l IH]; [done|]. cbn [skip_separators]. destruct (is_separator x) eqn:E; [done|]. by intros [= <- <-].
Qed.

Definition starts_clear (l : list Z) : Prop := match l with [] => True | c :: _ => is_separator c = true end.

Lemma skip_length l : starts_clear l → skip_separators l = [] ∨ (length (skip_separators l) < length l)%nat.
Proof.
  assert (∀ l, length (skip_separators l) ≤ length l)%nat as Hle.
  { clear l. intros l. induction l as [|x l IH]; [done|]. cbn [skip_separators]. destruct (is_separator x); cbn [length]; lia. }
  destruct l as [|c l]; [by left|]. cbn [starts_clear skip_separators]. intros ->. right. cbn [length]. pose proof (Hle l). lia.
Qed.

Lemma take_component_spec l :
  let '(p, r) := take_component l in
  l = p ++ r ∧ Forall (λ x, is_separator x = false) p ∧ starts_clear r ∧
  (∀ c l', l = c :: l' → is_separator c = false → p ≠ []) ∧
  (p ≠ [] → pieces l = p :: pieces r).
Proof.
  induction l as [|c l IH]; [done|]. cbn [take_component].
  destruct (is_separator c) eqn:Ec.
  { split; [done|]. split; [constructor|]. split; [done|]. split; [|done]. intros ? ? [= <- <-] ?. congruence. }
  destruct (take_component l) as [p r]. destruct IH as (-> & Hf & Hr & Hne & Hp).
  split; [done|]. split; [by constructor|]. split; [done|]. split; [done|]. intros _. cbn [pieces]. rewrite Ec.
  destruct p as [|d p].
  - destruct r as [|d r]; [done|]. cbn [app]. cbn in Hr. by rewrite Hr.
  - cbn [app]. apply Forall_cons in Hf as [Hd _]. rewrite Hd.
    change (d :: p ++ r) with ((d :: p) ++ r). by rewrite Hp.
Qed.

Lemma pieces_component p l :
  p ≠ [] → Forall (λ x, is_separator x = false) p → starts_clear l → pieces (p ++ l) = p :: pieces l.
Proof.
  intros Hp Hf Hl. induction p as [|c p IH]; [done|]. apply Forall_cons in Hf as [Hc Hf]. cbn [app pieces]. rewrite Hc.
  destruct p as [|d p].
  - destruct l as [|x l]; [done|]. cbn [app]. cbn in Hl. by rewrite Hl.
  - cbn [app]. pose proof Hf as [Hd _]%Forall_cons. rewrite Hd. change (d :: p ++ l) with ((d :: p) ++ l).
    by rewrite IH.
Qed.

Lemma pieces_render cs : Forall component_ok cs → pieces (render cs) = cs.
Proof.
  intros H. destruct cs as [|c cs]; [done|]. unfold render. revert c H.
  induction cs as [|d cs IH]; intros c [(Hne & Hs & _) H]%Forall_cons.
  - cbn [map concat app pieces]. change (is_separator SLASH) with true. cbn iota. by rewrite pieces_component.
  - change (concat (map (cons SLASH) (c :: d :: cs))) with (SLASH :: c ++ concat (map (cons SLASH) (d :: cs))).
    cbn [pieces]. change (is_separator SLASH) with true. cbn iota. by rewrite pieces_component, IH.
Qed.

Lemma resolve_ok stack cs : Forall component_ok cs → resolve stack cs = Some (stack ++ cs).
Proof.
  revert stack. induction cs as [|c cs IH]; intros stack; [by rewrite app_nil_r|].
  intros [(_ & _ & H1 & H2) H]%Forall_cons. cbn [resolve]. rewrite !bool_decide_eq_false_2 by done.
  rewrite IH by done. by rewrite <-app_assoc.
Qed.

Lemma pieces_ok l : Forall (λ p, p ≠ [] ∧ Forall (λ x, is_separator x = false) p) (pieces l).
Proof.
  induction l as [|c l IH]; [constructor|]. cbn [pieces]. destruct (is_separator c) eqn:Ec; [done|].
  destruct l as [|d l]; [by repeat constructor|]. destruct (is_separator d); [by repeat constructor|].
  destruct (pieces (d :: l)) as [|p ps]; [by repeat constructor|].
  apply Forall_cons in IH as [[_ Hp] H]. constructor; [|done]. split; [done|by constructor].
Qed.

Lemma pieces_nonempty d l : is_separator d = false → pieces (d :: l) ≠ [].
Proof.
  intros Hd. cbn [pieces]. rewrite Hd. destruct l as [|x l]; [done|]. destruct (is_separator x); [done|].
  by destruct (pieces (x :: l)).
Qed.

Lemma Forall_removelast {A} (P : A → Prop) l : Forall P l → Forall P (removelast l).
Proof.
  intros H. destruct l as [|x l _] using rev_ind; [done|]. rewrite removelast_last. by apply Forall_app in H as [? _].
Qed.

Lemma resolve_components stack cs out :
  Forall component_ok stack → Forall (λ p, p ≠ [] ∧ Forall (λ x, is_separator x = false) p) cs →
  resolve stack cs = Some out → Forall component_ok out.
Proof.
  revert stack. induction cs as [|c cs IH]; intros stack Hs Hc; cbn [resolve]; [by intros [= <-]|].
  apply Forall_cons in Hc as [[Hne Hf] Hc]. case_bool_decide; [by apply IH|]. case_bool_decide.
  - destruct stack as [|x stack]; [done|]. apply IH; [|done]. by apply Forall_removelast.
  - apply IH; [|done]. apply Forall_app. split; [done|]. by repeat constructor.
Qed.

(** ** The loop refines the reference *)

Lemma is_dot p : (len p =? 1) && (at_ p 0 =? DOT) = bool_decide (p = dot).
Proof.
  unfold len, at_, dot. case_bool_decide as E; [by subst|]. destruct p as [|a [|b p]]; cbn [length]; [done| |lia].
  apply not_true_iff_false. intros H. apply E. change (nth (Z.to_nat 0) [a] 0) with a in H. f_equal. lia.
Qed.

Lemma is_dotdot p : (len p =? 2) && (at_ p 0 =? DOT) && (at_ p 1 =? DOT) = bool_decide (p = dotdot).
Proof.
  unfold len, at_, dotdot. case_bool_decide as E; [by subst|].
  destruct p as [|a [|b [|c p]]]; cbn [length]; [done|done| |lia].
  apply not_true_iff_false. intros H. apply E. change (nth (Z.to_nat 0) [a; b] 0) with a in H.
  change (nth (Z.to_nat 1) [a; b] 0) with b in H. f_equal; [lia|]. f_equal. lia.
Qed.

Lemma render_snoc cs c :
  render (cs ++ [c]) = (match cs with [] => [SLASH] | _ => render cs ++ [SLASH] end) ++ c.
Proof.
  destruct cs as [|d cs]; [cbn; by rewrite app_nil_r|]. unfold render.
  change ((d :: cs) ++ [c]) with (d :: (cs ++ [c])). cbn [map concat].
  rewrite map_app, concat_app. cbn [map concat]. by rewrite app_nil_r, <-!app_assoc.
Qed.

Lemma render_length cs : Forall component_ok cs → 2 * Z.of_nat (length cs) ≤ len (render cs) ∧ 1 ≤ len (render cs).
Proof.
  intros H. destruct cs as [|c cs _] using rev_ind; [unfold len; cbn; lia|]. revert c H.
  induction cs as [|d cs IH] using rev_ind; intros c [Hc (Hne & _)%Forall_singleton]%Forall_app.
  - destruct c; [done|]. unfold len. cbn. lia.
  - destruct (IH d Hc) as [I1 I2]. rewrite render_snoc. destruct (cs ++ [d]) as [|x l] eqn:E; [by destruct cs|].
    rewrite <-E in *. rewrite !len_app, length_app. change (len [SLASH]) with 1.
    assert (1 ≤ len c) by (unfold len; destruct c; [done|cbn; lia]). cbn [length]. lia.
Qed.

Lemma render_longer cs k : Forall component_ok (cs ++ k) → k ≠ [] → len (render cs) < len (render (cs ++ k)).
Proof.
  induction k as [|c k IH] using rev_ind; [done|]. rewrite app_assoc. intros [Hc [Hne _]%Forall_singleton]%Forall_app _.
  assert (1 ≤ len c) by (unfold len; destruct c; [done|cbn; lia]).
  assert (len (render cs) ≤ len (render (cs ++ k))) as Hle.
  { destruct k; [by rewrite app_nil_r|]. apply Z.lt_le_incl. by apply IH. }
  rewrite render_snoc. destruct (cs ++ k) as [|x l]; rewrite !len_app; change (len [SLASH]) with 1; [|lia].
  change (len (render [])) with 1 in Hle. lia.
Qed.

(** [starts] holds the lengths before each component, the last on top. *)
Inductive stack_rep : list (list Z) → list Z → Prop :=
| rep_nil : stack_rep [] []
| rep_snoc cs c st : stack_rep cs st → stack_rep (cs ++ [c]) (len (render cs) :: st).

Lemma rep_length cs st : stack_rep cs st → length st = length cs.
Proof. induction 1; [done|]. rewrite length_app. cbn. lia. Qed.

Lemma take_render cs c : take (Z.to_nat (len (render cs))) (render (cs ++ [c])) = render cs.
Proof.
  unfold len. rewrite Nat2Z.id, render_snoc. destruct cs as [|d cs]; [done|].
  rewrite <-app_assoc. apply take_app_length.
Qed.

(** The [n] characters of input left fit behind the output. *)
Definition room (cs : list (list Z)) (n : Z) : Prop :=
  match cs with [] => n ≤ 255 | _ => len (render cs) + n ≤ 255 end.

Lemma room_le cs n n' : n' ≤ n → room cs n → room cs n'.
Proof. unfold room. destruct cs; lia. Qed.

Lemma room_snoc cs c n :
  Forall component_ok cs → 0 ≤ n → room cs (1 + len c + n) → room (cs ++ [c]) n.
Proof.
  unfold room. intros Hc Hn Hr. destruct (cs ++ [c]) as [|x l] eqn:E; [by destruct cs|]. rewrite <-E, render_snoc.
  destruct cs; rewrite !len_app; change (len [SLASH]) with 1; lia.
Qed.

Lemma room_pop cs c n : Forall component_ok (cs ++ [c]) → room (cs ++ [c]) n → room cs n.
Proof.
  unfold room. intros [_ [(Hne & _) _]%Forall_cons]%Forall_app Hr. destruct (cs ++ [c]) as [|x l] eqn:E; [by destruct cs|].
  rewrite <-E, render_snoc in Hr. destruct cs as [|d cs]; rewrite !len_app in Hr; unfold len in *; cbn in *; lia.
Qed.

Lemma add_component_render cs c :
  Forall component_ok cs → room cs (1 + len c) → add_component (render cs) c = Some (render (cs ++ [c])).
Proof.
  intros Hc Hr. unfold add_component, room in *. rewrite render_snoc. unfold VFS_MAX_PATH.
  assert (0 ≤ len c) by (unfold len; lia). destruct cs as [|d cs].
  - change (render []) with [SLASH]. change (len [SLASH]) with 1. cbn [Z.gtb Z.compare Pos.compare Pos.compare_cont].
    change (len [SLASH]) with 1. rewrite u32_small by lia. by replace (1 + len c >=? 256) with false by lia.
  - assert (1 < len (render (d :: cs))).
    { pose proof (render_length (d :: cs) Hc) as [H' _]. cbn [length] in H'. lia. }
    replace (len (render (d :: cs)) >? 1) with true by lia. rewrite (u32_small (_ + 1)) by lia.
    replace (len (render (d :: cs)) + 1 >=? 256) with false by lia.
    rewrite len_app. change (len [SLASH]) with 1. rewrite u32_small by lia.
    by replace (_ >=? 256) with false by lia.
Qed.

Lemma normalize_loop_spec fuel rest cs st :
  stack_rep cs st → Forall component_ok cs → starts_clear rest → (length rest < fuel)%nat → room cs (len rest) →
  match resolve cs (pieces rest) with
  | Some out => normalize_loop fuel rest (render cs) st = Some (render out, OK) ∧ len (render out) < VFS_MAX_PATH
  | None => ∃ text, normalize_loop fuel rest (render cs) st = Some (text, ERR_INVALID)
  end.
Proof.
  revert rest cs st. induction fuel as [|fuel IH]; intros rest cs st Hst Hcs Hclear Hfuel Hroom; [lia|].
  cbn [normalize_loop]. rewrite <-skip_pieces. pose proof (skip_length rest Hclear) as Hskip.
  destruct (skip_separators rest) as [|x l] eqn:Es.
  { split; [done|]. assert (0 ≤ len rest) by (unfold len; lia).
    destruct cs; unfold room, VFS_MAX_PATH in *; [change (len (render [])) with 1|]; lia. }
  destruct Hskip as [|Hskip]; [done|].
  pose proof (take_component_spec (x :: l)) as Ht. destruct (take_component (x :: l)) as [p r].
  destruct Ht as (El & Hf & Hr & Hne & Hp). specialize (Hne x l eq_refl (skip_head _ _ _ Es)).
  rewrite (Hp Hne). cbn [resolve]. rewrite is_dot, is_dotdot. apply (f_equal length) in El.
  rewrite length_app in El. cbn [length] in El, Hskip.
  assert (0 < length p)%nat by (destruct p; [done|cbn; lia]).
  assert (1 + len p + len r ≤ len rest) as Hlen by (unfold len; lia).
  assert (room cs (1 + len p + len r)) as Hroom1 by (by apply (room_le cs (len rest))).
  assert (room cs (len r)) as Hroom2 by (apply (room_le cs (len rest)); [unfold len in *; lia|done]).
  destruct (bool_decide (p = dot)) eqn:E1; [apply IH; done || lia|]. apply bool_decide_eq_false in E1.
  destruct (bool_decide (p = dotdot)) eqn:E2.
  - destruct Hst as [|cs c st Hst]; [by eexists|].
    assert (match cs ++ [c] with [] => None | _ => resolve (removelast (cs ++ [c])) (pieces r) end
            = resolve cs (pieces r)) as ->.
    { rewrite removelast_last. by destruct (cs ++ [c]) eqn:E; [destruct cs|]. }
    rewrite take_render. apply IH; try done; [by apply Forall_app in Hcs as [? _]|lia|by apply (room_pop cs c)].
  - apply bool_decide_eq_false in E2. pose proof (render_length cs Hcs) as [Hl2 Hl1].
    assert (2 * Z.of_nat (length cs) ≤ 255).
    { destruct cs; [cbn; lia|]. cbn [room] in Hroom. unfold len in Hroom, Hl2. lia. }
    assert (len st = Z.of_nat (length cs)) as Elen by (unfold len; by rewrite (rep_length _ _ Hst)).
    change (VFS_MAX_PATH / 2) with 128. replace (len st >=? 128) with false by lia.
    rewrite add_component_render; [|done|apply (room_le cs (1 + len p + len r)); [unfold len; lia|done]].
    assert ((if len (render cs) =? 1 then 1 else len (render cs)) = len (render cs)) as ->
      by (destruct (Z.eqb_spec (len (render cs)) 1); lia).
    apply IH; [by constructor| |done|lia|apply room_snoc; [done|unfold len; lia|done]].
    apply Forall_app. split; [done|]. by repeat constructor.
Qed.

(** ** The whole function *)

(** The path walked from the root. *)
Definition full_path (path cwd : list Z) : list Z :=
  match path with
  | c :: _ => if is_separator c then path else
      (if (len cwd >? 1) && negb (at_ cwd (len cwd - 1) =? SLASH) then cwd ++ [SLASH] else cwd) ++ path
  | [] => []
  end.

Lemma append_spec l text :
  len l + len text < 2 ^ 32 →
  vfs_path_append l text (len text) =
    if len l + len text <? VFS_MAX_PATH then (l ++ text, OK) else (l, ERR_OVERFLOW).
Proof.
  intros Hb. assert (0 ≤ len l ∧ 0 ≤ len text) by (unfold len; lia). unfold vfs_path_append. rewrite u32_small by lia.
  unfold len at 3. rewrite Nat2Z.id, firstn_all. rewrite Z.geb_leb, Z.leb_antisym.
  by destruct (len l + len text <? VFS_MAX_PATH).
Qed.

Lemma combine_path_spec c path cwd :
  len (c :: path) < VFS_MAX_PATH → len cwd < VFS_MAX_PATH →
  let '(combined, result) := combine_path (c :: path) cwd in
  if len (full_path (c :: path) cwd) <? VFS_MAX_PATH
  then (combined, result) = (full_path (c :: path) cwd, OK) else result = ERR_OVERFLOW.
Proof.
  unfold VFS_MAX_PATH at 1 2. intros Hp Hc. unfold combine_path. change (at_ (c :: path) 0) with c.
  rewrite <-negb_orb. fold (is_separator c). assert (∀ l, 0 ≤ len l) as Hpos by (intros; unfold len; lia).
  pose proof (Hpos cwd). pose proof (Hpos (c :: path)). unfold full_path. destruct (is_separator c); cbn [negb].
  - rewrite append_spec by (cbn [is_ok negb]; change (len []) with 0; lia). change (len []) with 0.
    rewrite Z.add_0_l. cbn [is_ok negb]. by destruct (len (c :: path) <? VFS_MAX_PATH).
  - rewrite append_spec by (change (len []) with 0; lia). change (len []) with 0. rewrite Z.add_0_l. cbn [app].
    replace (len cwd <? VFS_MAX_PATH) with true by (unfold VFS_MAX_PATH; lia). cbn [is_ok negb].
    destruct ((len cwd >? 1) && negb (at_ cwd (len cwd - 1) =? SLASH)).
    + change 1 with (len [SLASH]) at 1. rewrite append_spec by (change (len [SLASH]) with 1; lia).
      rewrite !len_app. change (len [SLASH]) with 1. destruct (Z.ltb_spec (len cwd + 1) VFS_MAX_PATH); cbn [is_ok negb].
      * rewrite append_spec by (rewrite len_app; change (len [SLASH]) with 1; lia).
        rewrite len_app. change (len [SLASH]) with 1.
        by destruct (len cwd + 1 + len (c :: path) <? VFS_MAX_PATH).
      * by replace (len cwd + 1 + len (c :: path) <? VFS_MAX_PATH) with false by lia.
    + cbn [is_ok negb]. rewrite append_spec by lia. rewrite len_app.
      by destruct (len cwd + len (c :: path) <? VFS_MAX_PATH).
Qed.

(** An absolute directory. *)
Definition absolute (cwd : list Z) : Prop := ∃ l, cwd = SLASH :: l.

Lemma full_path_clear path cwd : absolute cwd → starts_clear (full_path path cwd).
Proof.
  intros [l ->]. destruct path as [|c path]; [done|]. unfold full_path. destruct (is_separator c) eqn:E; [done|].
  by destruct (_ && _).
Qed.

Lemma normalize_spec path cwd :
  absolute cwd →
  if (len path =? 0) then vfs_normalize_from path cwd = Some ([], ERR_INVALID)
  else if (VFS_MAX_PATH <=? len path) || (VFS_MAX_PATH <=? len cwd) || (VFS_MAX_PATH <=? len (full_path path cwd))
  then vfs_normalize_from path cwd = Some ([], ERR_OVERFLOW)
  else match resolve [] (pieces (full_path path cwd)) with
       | Some out => vfs_normalize_from path cwd = Some (render out, OK) ∧ len (render out) < VFS_MAX_PATH
       | None => ∃ text, vfs_normalize_from path cwd = Some (text, ERR_INVALID)
       end.
Proof.
  intros Ha. destruct path as [|c path]; [done|]. change (len (c :: path) =? 0) with false. cbn iota.
  unfold vfs_normalize_from. rewrite !Z.geb_leb.
  destruct (Z.leb_spec VFS_MAX_PATH (len (c :: path))); [done|].
  destruct (Z.leb_spec VFS_MAX_PATH (len cwd)); [done|]. cbn [orb].
  pose proof (combine_path_spec c path cwd ltac:(done) ltac:(done)) as Hc.
  destruct (combine_path (c :: path) cwd) as [combined result]. rewrite Z.leb_antisym.
  destruct (Z.ltb_spec (len (full_path (c :: path) cwd)) VFS_MAX_PATH); cbn [negb]; [|by subst result].
  injection Hc as -> ->. cbn [is_ok negb].
  apply (normalize_loop_spec _ _ [] [] rep_nil (Forall_nil_2 _)); [by apply full_path_clear|unfold full_path; lia|].
  unfold room, VFS_MAX_PATH in *. lia.
Qed.

(** ** Canonical paths *)

Definition canonical (l : list Z) : Prop :=
  ∃ cs, l = render cs ∧ Forall component_ok cs ∧ len l < VFS_MAX_PATH.

Lemma canonical_absolute l : canonical l → absolute l.
Proof. intros (cs & -> & _). destruct cs as [|c cs]; by eexists. Qed.

Lemma normalize_result path cwd :
  absolute cwd → ∃ out r, vfs_normalize_from path cwd = Some (out, r) ∧ (r = OK → canonical out) ∧ r ≠ ERR_NOT_FOUND.
Proof.
  intros Ha. pose proof (normalize_spec path cwd Ha) as H. destruct (len path =? 0); [by exists [], ERR_INVALID|].
  destruct (_ || _); [by exists [], ERR_OVERFLOW|].
  destruct (resolve [] (pieces (full_path path cwd))) as [out|] eqn:E; [|destruct H as [text ->]; by exists text, ERR_INVALID].
  destruct H as [-> Hl]. exists (render out), OK. split; [done|]. split; [|done]. intros _. exists out. split; [done|].
  split; [|done]. by apply (resolve_components [] _ _ (Forall_nil_2 _) (pieces_ok _) E).
Qed.

Lemma normalize_canonical l cwd :
  canonical l → absolute cwd → len cwd < VFS_MAX_PATH → vfs_normalize_from l cwd = Some (l, OK).
Proof.
  intros Hcan Ha Hcwd. pose proof (canonical_absolute l Hcan) as [l' El]. destruct Hcan as (cs & -> & Hcs & Hl).
  pose proof (normalize_spec (render cs) cwd Ha) as H. pose proof (render_length cs Hcs) as [_ Hpos].
  assert (full_path (render cs) cwd = render cs) as Ef by (rewrite El; done). rewrite Ef in H.
  replace (len (render cs) =? 0) with false in H by lia. replace (_ || _) with false in H by lia.
  rewrite pieces_render, resolve_ok in H by done. apply H.
Qed.

Lemma copy_short l cap i : 0 ≤ i → i + len l < cap → cap ≤ 2 ^ 32 → path_copy_loop i cap l = l.
Proof.
  revert i. induction l as [|c l IH]; intros i Hi Hl Hc; [done|]. cbn [path_copy_loop].
  assert (len (c :: l) = 1 + len l) as E by (unfold len; cbn [length]; lia). assert (0 ≤ len l) by (unfold len; lia).
  rewrite u32_small by lia. replace (i + 1 <? cap) with true by lia. by rewrite IH by lia.
Qed.

Lemma copy_canonical l : canonical l → vfs_path_copy VFS_MAX_PATH l = l.
Proof. intros (cs & _ & _ & Hl). apply copy_short; unfold VFS_MAX_PATH in *; lia. Qed.

(** ** Prefixes *)

Lemma strip_prefix_spec path prefix rest : strip_prefix path prefix = Some rest ↔ path = prefix ++ rest.
Proof.
  revert path. induction prefix as [|p prefix IH]; intros path.
  - destruct path; cbn [strip_prefix app]; split; congruence.
  - destruct path as [|c path]; cbn [strip_prefix app]; [done|]. destruct (Z.eqb_spec c p) as [->|Hne].
    + rewrite IH. split; congruence.
    + split; congruence.
Qed.

Lemma pieces_app l r : starts_clear r → pieces (l ++ r) = pieces l ++ pieces r.
Proof.
  intros Hr. induction l as [|c l IH]; [done|]. cbn [app pieces]. destruct (is_separator c); [done|].
  destruct l as [|d l].
  - destruct r as [|d r]; [done|]. cbn in Hr. cbn [app]. by rewrite Hr.
  - cbn [app]. cbn [app] in IH. destruct (is_separator d) eqn:Ed; [by rewrite IH|]. rewrite IH.
    pose proof (pieces_nonempty d l Ed) as Hne. by destruct (pieces (d :: l)).
Qed.

(** On canonical paths the test is the prefix order of the components. *)
Lemma prefix_components a b :
  Forall component_ok a → Forall component_ok b →
  vfs_path_prefix (render a) (render b) = true ↔ b `prefix_of` a.
Proof.
  intros Ha Hb. unfold vfs_path_prefix. destruct b as [|c b].
  - split; [intros _; apply prefix_nil|]. intros _. change (render []) with [SLASH].
    assert (strip_prefix (render a) [SLASH] = Some (tail (render a))) as ->; [|done].
    apply strip_prefix_spec. by destruct a.
  - assert ((len (render (c :: b)) =? 1) = false) as ->.
    { pose proof (render_length _ Hb) as [H _]. cbn [length] in H. lia. }
    cbn [andb]. split.
    + destruct (strip_prefix (render a) (render (c :: b))) as [rest|] eqn:E; [|done]. intros Hr.
      apply strip_prefix_spec in E. exists (pieces rest).
      rewrite <-(pieces_render a Ha), E, pieces_app, pieces_render; [done|done|].
      destruct rest as [|x rest]; [done|]. apply Z.eqb_eq in Hr as ->. done.
    + intros [k ->]. assert (render ((c :: b) ++ k) = render (c :: b) ++ concat (map (cons SLASH) k)) as E.
      { unfold render. cbn [app map concat]. by rewrite map_app, concat_app, <-app_assoc. }
      apply strip_prefix_spec in E. rewrite E. by destruct k.
Qed.

(** ** The mount table *)

Definition mounted_at (info : vfs_mount_info_t) (cs : list (list Z)) : Prop :=
  vm_used info = true ∧ vm_mount_point info = render cs.

Definition table_ok (s : vfs_paths_t) : Prop :=
  ∀ info, info ∈ vfs_mount_table s → vm_used info = true → canonical (vm_mount_point info).

(** The best entry of the slots seen so far. *)
Definition best_of (path : list Z) (seen : list vfs_mount_info_t) (selected length : Z) : Prop :=
  (selected = -1 ∧ ∀ info, info ∈ seen → vm_used info = true → vfs_path_prefix path (vm_mount_point info) = false) ∨
  (0 ≤ selected ∧ ∃ info, seen !! Z.to_nat selected = Some info ∧ vm_used info = true ∧
     vfs_path_prefix path (vm_mount_point info) = true ∧ length = len (vm_mount_point info) ∧
     ∀ info', info' ∈ seen → vm_used info' = true → vfs_path_prefix path (vm_mount_point info') = true →
       len (vm_mount_point info') ≤ length).

Lemma best_skip path seen info selected n :
  vm_used info = false ∨ vfs_path_prefix path (vm_mount_point info) = false ∨
    (0 ≤ selected ∧ len (vm_mount_point info) ≤ n) →
  best_of path seen selected n → best_of path (seen ++ [info]) selected n.
Proof.
  intros Hs [[-> H]|(H0 & i & H1 & H2 & H3 & H4 & H5)]; [left|right].
  - split; [done|]. intros j [Hj| ->%list_elem_of_singleton]%elem_of_app Hu; [by apply H|].
    destruct Hs as [|[|[? _]]]; [congruence|done|lia].
  - split; [done|]. exists i. split; [by apply lookup_app_l_Some|]. do 3 (split; [done|]).
    intros j [Hj| ->%list_elem_of_singleton]%elem_of_app Hu Hp; [by apply H5|].
    destruct Hs as [|[|[_ ?]]]; [congruence|congruence|done].
Qed.

Lemma mount_loop_spec path seen table selected n :
  best_of path seen selected n →
  ∃ n', best_of path (seen ++ table) (mount_for_path_loop path (Z.of_nat (length seen)) selected n table) n'.
Proof.
  revert seen selected n. induction table as [|info table IH]; intros seen selected n Hb; cbn [mount_for_path_loop].
  { rewrite app_nil_r. by exists n. }
  assert (∀ sel m, best_of path (seen ++ [info]) sel m →
    ∃ n', best_of path (seen ++ info :: table) (mount_for_path_loop path (Z.of_nat (length seen) + 1) sel m table) n') as Hnext.
  { intros sel m Hm. destruct (IH _ _ _ Hm) as [n' Hn]. exists n'. rewrite <-app_assoc in Hn.
    rewrite length_app in Hn. cbn [length] in Hn. by replace (Z.of_nat (length seen + 1)) with (Z.of_nat (length seen) + 1) in Hn by lia. }
  destruct (negb (vm_used info) || negb (vfs_path_prefix path (vm_mount_point info))) eqn:E.
  { apply Hnext, best_skip; [|done]. destruct (vm_used info); [right; left|by left].
    by destruct (vfs_path_prefix path (vm_mount_point info)). }
  apply orb_false_iff in E as [Eu%negb_false_iff Ep%negb_false_iff].
  destruct ((selected <? 0) || (len (vm_mount_point info) >? n)) eqn:Es.
  - apply Hnext. right. split; [lia|]. exists info. rewrite Nat2Z.id. split; [by apply list_lookup_middle|].
    do 3 (split; [done|]). intros j [Hj| ->%list_elem_of_singleton]%elem_of_app Hu Hp; [|done].
    destruct Hb as [[_ H]|(H0 & i & _ & _ & _ & -> & H5)]; [|specialize (H5 j Hj Hu Hp); lia].
    specialize (H j Hj Hu). congruence.
  - apply Hnext, best_skip; [|done]. right. right. lia.
Qed.

Lemma find_mount_best s path :
  ∃ n, best_of path (vfs_mount_table s) (vfs_find_mount_for_path_unlocked s path) n.
Proof.
  apply (mount_loop_spec path [] (vfs_mount_table s) (-1) 0). left. split; [done|]. by intros info ?%elem_of_nil.
Qed.

Lemma find_mount_spec f index table :
  let i := find_mount f index table in
  i = -1 ∨ (index ≤ i ∧ ∃ info, table !! Z.to_nat (i - index) = Some info ∧ f info = true).
Proof.
  revert index. induction table as [|info table IH]; intros index; cbn [find_mount]; [by left|].
  destruct (f info) eqn:E.
  - right. split; [lia|]. exists info. rewrite Z.sub_diag. done.
  - destruct (IH (index + 1)) as [H|(H & i & H1 & H2)]; [by left|right]. split; [lia|]. exists i. split; [|done].
    replace (Z.to_nat (find_mount f (index + 1) table - index))
      with (S (Z.to_nat (find_mount f (index + 1) table - (index + 1)))) by lia. done.
Qed.

(** The mount a volume prefix selects is in use. *)
Lemma legacy_mount_spec s prefix :
  let i := legacy_mount s prefix in
  i < 0 ∨ (0 ≤ i ∧ ∃ info, vfs_mount_table s !! Z.to_nat i = Some info ∧ vm_used info = true).
Proof.
  unfold legacy_mount. destruct (vfs_path_equal prefix text_system).
  - destruct (find_mount_best s text_root) as [n [[-> _]|(H & info & H1 & H2 & _)]]; [left; lia|right]. eauto.
  - destruct (vfs_path_equal prefix text_legacy); [|unfold vfs_find_mount_by_volume_unlocked];
      (match goal with |- context [find_mount ?f 0 ?t] =>
         destruct (find_mount_spec f 0 t) as [H|(H & info & H1 & [H2 _]%andb_true_iff)] end;
       [left; lia|right; split; [done|]; rewrite Z.sub_0_r in H1; eauto]).
Qed.

(** ** Canonicalisation *)

Definition cwd_ok (current : option (bool * list Z)) : Prop :=
  match current with Some (true, cwd) => cwd = [] ∨ canonical cwd | _ => True end.

Lemma root_canonical : canonical text_root.
Proof. exists []. split; [done|]. by split; [constructor|]. Qed.

Lemma current_cwd_ok current :
  cwd_ok current → ∃ cwd r, vfs_current_cwd current = (cwd, r) ∧ canonical cwd.
Proof.
  pose proof root_canonical. destruct current as [[[] [|c cwd]]|]; cbn; intros Hc; [by eexists _, _| |by eexists _, _..].
  destruct Hc as [|Hc]; [done|]. exists (vfs_path_copy VFS_MAX_PATH (c :: cwd)), OK. split; [done|]. by rewrite copy_canonical.
Qed.

Lemma legacy_prefix_result s path :
  table_ok s → ∃ out r, vfs_legacy_prefix s path = Some (out, r) ∧ (r = OK → canonical out).
Proof.
  intros Ht. unfold vfs_legacy_prefix. set (i := legacy_mount s _).
  destruct (negb _); [by eexists _, _|]. pose proof (legacy_mount_spec s (take (Z.to_nat (scan_separator path 0)) path)) as Hi.
  cbn zeta in Hi. fold i in Hi. destruct (Z.ltb_spec i 0); [by eexists _, _|].
  assert (absolute text_root) as Hroot by (apply canonical_absolute, root_canonical).
  assert (∀ q, ∃ out r, vfs_normalize_from q text_root = Some (out, r) ∧ (r = OK → canonical out)) as Hn.
  { intros q. destruct (normalize_result q text_root Hroot) as (out & r & H1 & H2 & _). eauto. }
  destruct (skip_separators _); [apply Hn|]. repeat case_match; (by eexists _, _) || apply Hn.
Qed.

Lemma canonicalize_result s current path :
  table_ok s → cwd_ok current →
  ∃ out r, vfs_canonicalize s current path = Some (out, r) ∧ (r = OK → canonical out).
Proof.
  intros Ht Hc. unfold vfs_canonicalize. destruct (current_cwd_ok current Hc) as (cwd & rc & -> & Hcwd).
  assert (∃ out r, (if negb (is_ok rc) then Some ([], ERR_STATE) else vfs_normalize_from path cwd) = Some (out, r) ∧
    (r = OK → canonical out)) as Hcw.
  { destruct (negb (is_ok rc)); [by eexists _, _|].
    destruct (normalize_result path cwd (canonical_absolute _ Hcwd)) as (out & r & H1 & H2 & _). eauto. }
  destruct (_ && _); [|done]. destruct (legacy_prefix_result s path Ht) as (out & r & -> & Hr).
  destruct (negb (bool_decide _)); [by exists out, r|done].
Qed.

Lemma canonicalize_canonical s current l :
  canonical l → cwd_ok current → (vfs_current_cwd current).2 = OK → vfs_canonicalize s current l = Some (l, OK).
Proof.
  intros Hl Hc Hok. unfold vfs_canonicalize. destruct (current_cwd_ok current Hc) as (cwd & rc & E & Hcwd).
  rewrite E in *. cbn in Hok. subst rc. cbn [is_ok negb]. pose proof (canonical_absolute l Hl) as [l' El].
  rewrite El at 1 2. change (at_ (SLASH :: l') 0) with SLASH. cbn [Z.eqb SLASH Pos.eqb negb andb].
  apply normalize_canonical; [done|by apply canonical_absolute|]. by destruct Hcwd as (? & _ & _ & ?).
Qed.

(** ** Theorems *)

(** C34: [vfs_normalize_from] is the walk over components.  With an absolute
    working directory it refuses an empty path, a path or directory of 256
    characters or more, or a combination that long; otherwise it returns the
    canonical text of the components that remain after "." and ".." are
    resolved, or [ERR_INVALID] exactly when ".." climbs above the root.  The
    loop always ends, and never reports an overflow of its tables. *)
Theorem vfs_normalize_exact path cwd :
  absolute cwd →
  if (len path =? 0) then vfs_normalize_from path cwd = Some ([], ERR_INVALID)
  else if (VFS_MAX_PATH <=? len path) || (VFS_MAX_PATH <=? len cwd) || (VFS_MAX_PATH <=? len (full_path path cwd))
  then vfs_normalize_from path cwd = Some ([], ERR_OVERFLOW)
  else match resolve [] (pieces (full_path path cwd)) with
       | Some out => vfs_normalize_from path cwd = Some (render out, OK) ∧ len (render out) < VFS_MAX_PATH
       | None => ∃ text, vfs_normalize_from path cwd = Some (text, ERR_INVALID)
       end.
Proof. apply normalize_spec. Qed.

(** The text "/a/../b". *)
Lemma vfs_normalize_exact_witness :
  absolute text_root ∧ vfs_normalize_from [47; 97; 47; 46; 46; 47; 98] text_root = Some ([47; 98], OK).
Proof.
  split; [by exists []|]. exact (proj1 (vfs_normalize_exact [47; 97; 47; 46; 46; 47; 98] text_root ltac:(by exists []))).
Defined.

(** C35: [vfs_canonicalize] always returns, and every path it accepts is
    canonical: absolute, shorter than 256 characters, its components non-empty,
    free of separators and different from "." and "..".  Canonicalising the
    result again, in any process, gives the same path. *)
Theorem vfs_canonicalize_idempotent s current path :
  table_ok s → cwd_ok current →
  ∃ out result, vfs_canonicalize s current path = Some (out, result) ∧
    (result = OK → canonical out ∧
      ∀ current', cwd_ok current' → (vfs_current_cwd current').2 = OK →
        vfs_canonicalize s current' out = Some (out, OK)).
Proof.
  intros Ht Hc. destruct (canonicalize_result s current path Ht Hc) as (out & r & H1 & H2). exists out, r.
  split; [done|]. intros Hr. split; [by apply H2|]. intros current' Hc' Hok.
  apply canonicalize_canonical; [by apply H2|done|done].
Qed.

Lemma init_table_ok : table_ok vfs_path_init.1.
Proof.
  assert (∀ c, component_ok c → len c < 255 → canonical (SLASH :: c)) as Hone.
  { intros c Hc Hl. exists [c]. split; [cbn; by rewrite app_nil_r|]. split; [by apply Forall_singleton|].
    unfold len, VFS_MAX_PATH in *. cbn [length]. lia. }
  intros info Hin Hu. cbn in Hin. repeat (apply elem_of_cons in Hin as [->|Hin]; [try done|]); [..|by apply elem_of_nil in Hin];
    (apply Hone; [split; [done|]; split; [by repeat constructor|done]|done]).
Qed.

(** The text "../x" in the directory "/dev". *)
Lemma vfs_canonicalize_idempotent_witness :
  vfs_canonicalize vfs_path_init.1 (Some (true, text_dev)) [46; 46; 47; 120] = Some ([47; 120], OK) ∧
  vfs_canonicalize vfs_path_init.1 None [47; 120] = Some ([47; 120], OK).
Proof.
  assert (cwd_ok (Some (true, text_dev))) as Hc.
  { right. exists [[100; 101; 118]]. split; [done|]. split; [|done]. by repeat constructor. }
  destruct (vfs_canonicalize_idempotent vfs_path_init.1 (Some (true, text_dev)) [46; 46; 47; 120] init_table_ok Hc)
    as (out & r & H1 & H2).
  assert (vfs_canonicalize vfs_path_init.1 (Some (true, text_dev)) [46; 46; 47; 120] = Some ([47; 120], OK)) as E
    by (vm_compute; reflexivity).
  assert (out = [47; 120] ∧ r = OK) as [-> ->] by (split; congruence).
  exact (conj E (proj2 (H2 eq_refl) None I eq_refl)).
Defined.

(** A canonical path belongs to the mount with the most specific mount
    point: [vfs_find_mount_for_path_unlocked] returns a used slot whose mount
    point is a prefix of the path, component by component, and every other such
    mount point is a prefix of it; or -1 when there is none. *)
Theorem vfs_mount_most_specific s p :
  table_ok s → Forall component_ok p →
  let i := vfs_find_mount_for_path_unlocked s (render p) in
  let under cs := ∃ info, info ∈ vfs_mount_table s ∧ mounted_at info cs ∧ Forall component_ok cs ∧ cs `prefix_of` p in
  (i = -1 ∧ ∀ cs, ¬ under cs) ∨
  (0 ≤ i ∧ ∃ info cs, vfs_mount_table s !! Z.to_nat i = Some info ∧ mounted_at info cs ∧
     Forall component_ok cs ∧ cs `prefix_of` p ∧ ∀ cs', under cs' → cs' `prefix_of` cs).
Proof.
  intros Ht Hp i under. destruct (find_mount_best s (render p)) as [n Hb]. fold i in Hb.
  destruct Hb as [[Hi Hno]|(Hi & info & Hl & Hu & Hpre & -> & Hbest)]; [left|right]; (split; [done|]).
  - intros cs (info & Hin & [Hu Em] & Hcs & Hpre). specialize (Hno info Hin Hu). rewrite Em in Hno.
    apply (prefix_components p cs Hp Hcs) in Hpre. congruence.
  - destruct (Ht info (list_elem_of_lookup_2 _ _ _ Hl) Hu) as (cs & Em & Hcs & _). exists info, cs.
    rewrite Em in Hpre. apply prefix_components in Hpre; [|done|done].
    split; [done|]. split; [done|]. split; [done|]. split; [done|].
    intros cs' (info' & Hin & [Hu' Em'] & Hcs' & Hpre').
    pose proof (proj2 (prefix_components p cs' Hp Hcs') Hpre') as Hp'.
    rewrite <-Em' in Hp'. specialize (Hbest info' Hin Hu' Hp'). rewrite Em, Em' in Hbest.
    destruct (prefix_weak_total cs' cs p Hpre' Hpre) as [|Hle]; [done|].
    destruct Hle as [k ->]. destruct k as [|c k]; [by rewrite app_nil_r|exfalso].
    pose proof (render_longer cs (c :: k) Hcs' ltac:(done)). lia.
Qed.

(** The path "/dev/x" in the initial table. *)
Lemma vfs_mount_most_specific_witness :
  vfs_find_mount_for_path_unlocked vfs_path_init.1 (render [[100; 101; 118]; [120]]) = 4 ∧
  ∃ info, vfs_mount_table vfs_path_init.1 !! 4%nat = Some info ∧ vm_used info = true.
Proof.
  split; [vm_compute; reflexivity|].
  destruct (vfs_mount_most_specific vfs_path_init.1 [[100; 101; 118]; [120]] init_table_ok ltac:(by repeat constructor))
    as [[H _]|(_ & info & cs & H1 & H2 & _)].
  - exfalso. revert H. vm_compute. intros H. discriminate H.
  - exact (ex_intro _ info (conj H1 (proj1 H2))).
Defined.
