(* ===== verification/Field25519.v ===== *)
(** * Arithmetic modulo 2^255 - 19: src/core/crypto_ed25519.c

    A field element is ten signed limbs of 26 and 25 bits.  Sums and products of
    [i32] and [i64] values are computed with their wrap-around; the theorems show
    that under the bounds the code states none of them wraps (in C that would be
    undefined behaviour), that the results have tight limbs again, and that they
    are right modulo 2^255 - 19.  Encoding gives the canonical 32 bytes, so
    comparing encodings decides equality in the field. *)

From S2P Require Import Prelude.

(** ** The code *)

Definition load24_le (s : list Z) (i : Z) : Z :=
  at_ s i |w (at_ s (i + 1) <<w 8) |w (at_ s (i + 2) <<w 16).
Definition load32_le (s : list Z) (i : Z) : Z :=
  at_ s i |w (at_ s (i + 1) <<w 8) |w (at_ s (i + 2) <<w 16) |w (at_ s (i + 3) <<w 24).
Definition load64_le (s : list Z) (i : Z) : Z :=
  Z.lor (load32_le s i) (u64 (Z.shiftl (load32_le s (i + 4)) 32)).
Definition store32_le (x : Z) : list Z := [u8 x; u8 (x >>w 8); u8 (x >>w 16); u8 (x >>w 24)].

Definition neq0 (diff : Z) : Z :=
  let half := Z.lor (Z.shiftr diff 32) (u32 diff) in
  let eq0 := Z.land 1 (Z.shiftr (u64 (half - 1)) 32) in
  i32 (eq0 - 1).
Definition x16 (a b : list Z) (i : Z) : Z :=
  Z.lor (Z.lxor (load64_le a i) (load64_le b i)) (Z.lxor (load64_le a (i + 8)) (load64_le b (i + 8))).
Definition x32 (a b : list Z) : Z := Z.lor (x16 a b 0) (x16 a b 16).
Definition crypto_verify32 (a b : list Z) : Z := neq0 (x32 a b).

(** [i32 fe[10]] *)
Record fe := Fe {
  fe0 : Z; fe1 : Z; fe2 : Z; fe3 : Z; fe4 : Z; fe5 : Z; fe6 : Z; fe7 : Z; fe8 : Z; fe9 : Z
}.

Definition sqrtm1 : fe :=
  Fe (-32595792) (-7943725) 9377950 3500415 12389472 (-272473) (-25146209) (-2005654) 326686 11406482.
Definition d : fe :=
  Fe (-10913610) 13857413 (-15372611) 6949391 114729 (-8787816) (-6275908) (-3247719) (-18696448) (-12055116).
Definition D2 : fe :=
  Fe (-21827239) (-5839606) (-30745221) 13898782 229458 15978800 (-12551817) (-6495438) 29715968 9444199.

Definition fe_map (op : Z → Z) (f : fe) : fe :=
  Fe (op (fe0 f)) (op (fe1 f)) (op (fe2 f)) (op (fe3 f)) (op (fe4 f))
     (op (fe5 f)) (op (fe6 f)) (op (fe7 f)) (op (fe8 f)) (op (fe9 f)).
Definition fe_zip (op : Z → Z → Z) (f g : fe) : fe :=
  Fe (op (fe0 f) (fe0 g)) (op (fe1 f) (fe1 g)) (op (fe2 f) (fe2 g)) (op (fe3 f) (fe3 g)) (op (fe4 f) (fe4 g))
     (op (fe5 f) (fe5 g)) (op (fe6 f) (fe6 g)) (op (fe7 f) (fe7 g)) (op (fe8 f) (fe8 g)) (op (fe9 f) (fe9 g)).

Definition fe_0 : fe := Fe 0 0 0 0 0 0 0 0 0 0.
Definition fe_1 : fe := Fe 1 0 0 0 0 0 0 0 0 0.
Definition fe_neg : fe → fe := fe_map (λ x, i32 (- x)).
Definition fe_add : fe → fe → fe := fe_zip (λ x y, i32 (x + y)).
Definition fe_sub : fe → fe → fe := fe_zip (λ x y, i32 (x - y)).
Definition fe_ccopy (f g : fe) (b : Z) : fe :=
  let mask := i32 (- b) in fe_zip (λ x y, Z.lxor x (Z.land (Z.lxor x y) mask)) f g.

(** The carry out of a limb of [n] bits, rounded. *)
Definition carry (n t : Z) : Z := Z.shiftr (i64 (t + i64 (Z.shiftl 1 (n - 1)))) n.
(** [t - c * (1 << n)] *)
Definition rest (n t c : Z) : Z := i64 (t - i64 (c * i64 (Z.shiftl 1 n))).
#[local] Notation "x +l y" := (i64 (x + y)) (at level 50, left associativity).
#[local] Notation "x *l y" := (i64 (x * y)) (at level 40, left associativity).

Definition FE_CARRY (t0 t1 t2 t3 t4 t5 t6 t7 t8 t9 : Z) : fe :=
  let c := carry 26 t0 in let t0 := rest 26 t0 c in let t1 := t1 +l c in
  let c := carry 26 t4 in let t4 := rest 26 t4 c in let t5 := t5 +l c in
  let c := carry 25 t1 in let t1 := rest 25 t1 c in let t2 := t2 +l c in
  let c := carry 25 t5 in let t5 := rest 25 t5 c in let t6 := t6 +l c in
  let c := carry 26 t2 in let t2 := rest 26 t2 c in let t3 := t3 +l c in
  let c := carry 26 t6 in let t6 := rest 26 t6 c in let t7 := t7 +l c in
  let c := carry 25 t3 in let t3 := rest 25 t3 c in let t4 := t4 +l c in
  let c := carry 25 t7 in let t7 := rest 25 t7 c in let t8 := t8 +l c in
  let c := carry 26 t4 in let t4 := rest 26 t4 c in let t5 := t5 +l c in
  let c := carry 26 t8 in let t8 := rest 26 t8 c in let t9 := t9 +l c in
  let c := carry 25 t9 in let t9 := rest 25 t9 c in let t0 := t0 +l (c *l 19) in
  let c := carry 26 t0 in let t0 := rest 26 t0 c in let t1 := t1 +l c in
  Fe (i32 t0) (i32 t1) (i32 t2) (i32 t3) (i32 t4) (i32 t5) (i32 t6) (i32 t7) (i32 t8) (i32 t9).

Definition fe_frombytes_mask (s : list Z) (nb_mask : Z) : fe :=
  let mask := 0xffffff >>w nb_mask in
  FE_CARRY (load32_le s 0) (load24_le s 4 <<w 6) (load24_le s 7 <<w 5) (load24_le s 10 <<w 3)
    (load24_le s 13 <<w 2) (load32_le s 16) (load24_le s 20 <<w 7) (load24_le s 23 <<w 5)
    (load24_le s 26 <<w 4) ((load24_le s 29 &w mask) <<w 2).
Definition fe_frombytes (s : list Z) : fe := fe_frombytes_mask s 1.

(** One step of the first loop of [fe_tobytes], and of the second: the limb and
    the next [q]. *)
Definition tobytes_up (q a b : Z) : Z :=
  let q := Z.shiftr (i32 (q + a)) 26 in Z.shiftr (i32 (q + b)) 25.
Definition tobytes_limb (n q t : Z) : Z * Z :=
  let t := i32 (t + q) in
  let q := Z.shiftr t n in
  (i32 (t - i32 (q * i32 (Z.shiftl 1 n))), q).

(** [q] after the first loop. *)
Definition tobytes_q (h : fe) : Z :=
  let q := Z.shiftr (i32 (i32 (19 * fe9 h) + i32 (Z.shiftl 1 24))) 25 in
  let q := tobytes_up q (fe0 h) (fe1 h) in
  let q := tobytes_up q (fe2 h) (fe3 h) in
  let q := tobytes_up q (fe4 h) (fe5 h) in
  let q := tobytes_up q (fe6 h) (fe7 h) in
  tobytes_up q (fe8 h) (fe9 h).

Definition tobytes_store (t0 t1 t2 t3 t4 t5 t6 t7 t8 t9 : Z) : list Z :=
  store32_le (u32 t0 |w (u32 t1 <<w 26)) ++
  store32_le (u32 t1 >>w 6 |w (u32 t2 <<w 19)) ++
  store32_le (u32 t2 >>w 13 |w (u32 t3 <<w 13)) ++
  store32_le (u32 t3 >>w 19 |w (u32 t4 <<w 6)) ++
  store32_le (u32 t5 |w (u32 t6 <<w 25)) ++
  store32_le (u32 t6 >>w 7 |w (u32 t7 <<w 19)) ++
  store32_le (u32 t7 >>w 13 |w (u32 t8 <<w 12)) ++
  store32_le (u32 t8 >>w 20 |w (u32 t9 <<w 6)).

Definition fe_tobytes (h : fe) : list Z :=
  let q := i32 (tobytes_q h * 19) in
  let '(t0, q) := tobytes_limb 26 q (fe0 h) in
  let '(t1, q) := tobytes_limb 25 q (fe1 h) in
  let '(t2, q) := tobytes_limb 26 q (fe2 h) in
  let '(t3, q) := tobytes_limb 25 q (fe3 h) in
  let '(t4, q) := tobytes_limb 26 q (fe4 h) in
  let '(t5, q) := tobytes_limb 25 q (fe5 h) in
  let '(t6, q) := tobytes_limb 26 q (fe6 h) in
  let '(t7, q) := tobytes_limb 25 q (fe7 h) in
  let '(t8, q) := tobytes_limb 26 q (fe8 h) in
  let '(t9, q) := tobytes_limb 25 q (fe9 h) in
  tobytes_store t0 t1 t2 t3 t4 t5 t6 t7 t8 t9.

Definition fe_mul_small (f : fe) (g : Z) : fe :=
  FE_CARRY (fe0 f *l g) (fe1 f *l g) (fe2 f *l g) (fe3 f *l g) (fe4 f *l g)
    (fe5 f *l g) (fe6 f *l g) (fe7 f *l g) (fe8 f *l g) (fe9 f *l g).

(** A sum of products of [i32] values, computed in [i64] from the left. *)
Fixpoint dot_from (acc : Z) (l : list (Z * Z)) : Z :=
  match l with [] => acc | (a, b) :: l => dot_from (acc +l (a *l b)) l end.
Definition dot (l : list (Z * Z)) : Z :=
  match l with [] => 0 | (a, b) :: l => dot_from (a *l b) l end.
#[local] Notation "x ⊗ y" := (x, y) (at level 40, only parsing).

Definition fe_mul (f g : fe) : fe :=
  let '(Fe f0 f1 f2 f3 f4 f5 f6 f7 f8 f9) := f in
  let '(Fe g0 g1 g2 g3 g4 g5 g6 g7 g8 g9) := g in
  let F1 := i32 (f1 * 2) in let F3 := i32 (f3 * 2) in let F5 := i32 (f5 * 2) in
  let F7 := i32 (f7 * 2) in let F9 := i32 (f9 * 2) in
  let G1 := i32 (g1 * 19) in let G2 := i32 (g2 * 19) in let G3 := i32 (g3 * 19) in
  let G4 := i32 (g4 * 19) in let G5 := i32 (g5 * 19) in let G6 := i32 (g6 * 19) in
  let G7 := i32 (g7 * 19) in let G8 := i32 (g8 * 19) in let G9 := i32 (g9 * 19) in
  FE_CARRY
    (dot [f0⊗g0; F1⊗G9; f2⊗G8; F3⊗G7; f4⊗G6; F5⊗G5; f6⊗G4; F7⊗G3; f8⊗G2; F9⊗G1])
    (dot [f0⊗g1; f1⊗g0; f2⊗G9; f3⊗G8; f4⊗G7; f5⊗G6; f6⊗G5; f7⊗G4; f8⊗G3; f9⊗G2])
    (dot [f0⊗g2; F1⊗g1; f2⊗g0; F3⊗G9; f4⊗G8; F5⊗G7; f6⊗G6; F7⊗G5; f8⊗G4; F9⊗G3])
    (dot [f0⊗g3; f1⊗g2; f2⊗g1; f3⊗g0; f4⊗G9; f5⊗G8; f6⊗G7; f7⊗G6; f8⊗G5; f9⊗G4])
    (dot [f0⊗g4; F1⊗g3; f2⊗g2; F3⊗g1; f4⊗g0; F5⊗G9; f6⊗G8; F7⊗G7; f8⊗G6; F9⊗G5])
    (dot [f0⊗g5; f1⊗g4; f2⊗g3; f3⊗g2; f4⊗g1; f5⊗g0; f6⊗G9; f7⊗G8; f8⊗G7; f9⊗G6])
    (dot [f0⊗g6; F1⊗g5; f2⊗g4; F3⊗g3; f4⊗g2; F5⊗g1; f6⊗g0; F7⊗G9; f8⊗G8; F9⊗G7])
    (dot [f0⊗g7; f1⊗g6; f2⊗g5; f3⊗g4; f4⊗g3; f5⊗g2; f6⊗g1; f7⊗g0; f8⊗G9; f9⊗G8])
    (dot [f0⊗g8; F1⊗g7; f2⊗g6; F3⊗g5; f4⊗g4; F5⊗g3; f6⊗g2; F7⊗g1; f8⊗g0; F9⊗G9])
    (dot [f0⊗g9; f1⊗g8; f2⊗g7; f3⊗g6; f4⊗g5; f5⊗g4; f6⊗g3; f7⊗g2; f8⊗g1; f9⊗g0]).

Definition fe_sq (f : fe) : fe :=
  let '(Fe f0 f1 f2 f3 f4 f5 f6 f7 f8 f9) := f in
  let f0_2 := i32 (f0 * 2) in let f1_2 := i32 (f1 * 2) in let f2_2 := i32 (f2 * 2) in
  let f3_2 := i32 (f3 * 2) in let f4_2 := i32 (f4 * 2) in let f5_2 := i32 (f5 * 2) in
  let f6_2 := i32 (f6 * 2) in let f7_2 := i32 (f7 * 2) in
  let f5_38 := i32 (f5 * 38) in let f6_19 := i32 (f6 * 19) in let f7_38 := i32 (f7 * 38) in
  let f8_19 := i32 (f8 * 19) in let f9_38 := i32 (f9 * 38) in
  FE_CARRY
    (dot [f0⊗f0; f1_2⊗f9_38; f2_2⊗f8_19; f3_2⊗f7_38; f4_2⊗f6_19; f5⊗f5_38])
    (dot [f0_2⊗f1; f2⊗f9_38; f3_2⊗f8_19; f4⊗f7_38; f5_2⊗f6_19])
    (dot [f0_2⊗f2; f1_2⊗f1; f3_2⊗f9_38; f4_2⊗f8_19; f5_2⊗f7_38; f6⊗f6_19])
    (dot [f0_2⊗f3; f1_2⊗f2; f4⊗f9_38; f5_2⊗f8_19; f6⊗f7_38])
    (dot [f0_2⊗f4; f1_2⊗f3_2; f2⊗f2; f5_2⊗f9_38; f6_2⊗f8_19; f7⊗f7_38])
    (dot [f0_2⊗f5; f1_2⊗f4; f2_2⊗f3; f6⊗f9_38; f7_2⊗f8_19])
    (dot [f0_2⊗f6; f1_2⊗f5_2; f2_2⊗f4; f3_2⊗f3; f7_2⊗f9_38; f8⊗f8_19])
    (dot [f0_2⊗f7; f1_2⊗f6; f2_2⊗f5; f3_2⊗f4; f8⊗f9_38])
    (dot [f0_2⊗f8; f1_2⊗f7_2; f2_2⊗f6; f3_2⊗f5_2; f4⊗f4; f9⊗f9_38])
    (dot [f0_2⊗f9; f1_2⊗f8; f2_2⊗f7; f3_2⊗f6; f4⊗f5_2]).

Definition fe_isodd (f : fe) : Z := Z.land (at_ (fe_tobytes f) 0) 1.
Definition fe_isequal (f g : fe) : Z := i32 (1 + crypto_verify32 (fe_tobytes f) (fe_tobytes g)).

(** ** Values *)

Definition p25519 : Z := 2 ^ 255 - 19.

Definition weigh (t0 t1 t2 t3 t4 t5 t6 t7 t8 t9 : Z) : Z :=
  t0 + 2 ^ 26 * t1 + 2 ^ 51 * t2 + 2 ^ 77 * t3 + 2 ^ 102 * t4 + 2 ^ 128 * t5 + 2 ^ 153 * t6
  + 2 ^ 179 * t7 + 2 ^ 204 * t8 + 2 ^ 230 * t9.
Definition fe_value (f : fe) : Z :=
  weigh (fe0 f) (fe1 f) (fe2 f) (fe3 f) (fe4 f) (fe5 f) (fe6 f) (fe7 f) (fe8 f) (fe9 f).

(** Limbs of size at most [e] at even and [o] at odd positions. *)
Definition limbs (e o : Z) (f : fe) : Prop :=
  (-e ≤ fe0 f ≤ e ∧ -e ≤ fe2 f ≤ e ∧ -e ≤ fe4 f ≤ e ∧ -e ≤ fe6 f ≤ e ∧ -e ≤ fe8 f ≤ e) ∧
  (-o ≤ fe1 f ≤ o ∧ -o ≤ fe3 f ≤ o ∧ -o ≤ fe5 f ≤ o ∧ -o ≤ fe7 f ≤ o ∧ -o ≤ fe9 f ≤ o).

(** The bounds of the comments: tight is 1.1 * 2^25 and 1.1 * 2^24, loose
    1.65 * 2^26 and 1.65 * 2^25. *)
Definition tight : fe → Prop := limbs (11 * 2 ^ 25 / 10) (11 * 2 ^ 24 / 10).
Definition loose : fe → Prop := limbs (165 * 2 ^ 26 / 100) (165 * 2 ^ 25 / 100).

(** ** Carrying *)

Lemma carry_26 t c :
  -9000000000000000000 ≤ t ≤ 9000000000000000000 → c = carry 26 t →
  -33554432 ≤ t - c * 67108864 < 33554432 ∧ rest 26 t c = t - c * 67108864.
Proof.
  intros H ->. assert (carry 26 t = (t + 33554432) / 67108864) as E.
  { unfold carry. change (i64 (Z.shiftl 1 (26 - 1))) with 33554432. rewrite i64_small by lia.
    by rewrite Z.shiftr_div_pow2. }
  rewrite E. assert (-33554432 ≤ t - (t + 33554432) / 67108864 * 67108864 < 33554432) as B by divlia.
  split; [done|]. unfold rest. change (i64 (Z.shiftl 1 26)) with 67108864.
  set (c := (t + 33554432) / 67108864) in *. clearbody c. clear E. rewrite !i64_small by (rewrite ?i64_small; lia). done.
Qed.

Lemma carry_25 t c :
  -9000000000000000000 ≤ t ≤ 9000000000000000000 → c = carry 25 t →
  -16777216 ≤ t - c * 33554432 < 16777216 ∧ rest 25 t c = t - c * 33554432.
Proof.
  intros H ->. assert (carry 25 t = (t + 16777216) / 33554432) as E.
  { unfold carry. change (i64 (Z.shiftl 1 (25 - 1))) with 16777216. rewrite i64_small by lia.
    by rewrite Z.shiftr_div_pow2. }
  rewrite E. assert (-16777216 ≤ t - (t + 16777216) / 33554432 * 33554432 < 16777216) as B by divlia.
  split; [done|]. unfold rest. change (i64 (Z.shiftl 1 25)) with 33554432.
  set (c := (t + 16777216) / 33554432) in *. clearbody c. clear E. rewrite !i64_small by (rewrite ?i64_small; lia). done.
Qed.

(** Takes one line of [FE_CARRY]. *)
Ltac one_carry :=
  let c := fresh "c" in let Ec := fresh "Ec" in let t := fresh "t" in let Et := fresh "Et" in
  let u := fresh "u" in let Eu := fresh "Eu" in let B := fresh "B" in let Er := fresh "Er" in
  intro_let c Ec; intro_let t Et; intro_let u Eu;
  lazymatch type of Ec with
  | c = carry 26 ?x => destruct (carry_26 x c ltac:(lia) Ec) as [B Er]
  | c = carry 25 ?x => destruct (carry_25 x c ltac:(lia) Ec) as [B Er]
  end;
  rewrite Er in Et; clear Er Ec; try rewrite (i64_small (c * 19)) in Eu by lia; rewrite i64_small in Eu by lia.

(** Carrying keeps the value modulo p and makes the limbs tight. *)
Lemma carry_spec t0 t1 t2 t3 t4 t5 t6 t7 t8 t9 h :
  Forall (λ t, -(2 ^ 62) ≤ t ≤ 2 ^ 62) [t0; t1; t2; t3; t4; t5; t6; t7; t8; t9] →
  FE_CARRY t0 t1 t2 t3 t4 t5 t6 t7 t8 t9 = h →
  tight h ∧ ∃ k, fe_value h = weigh t0 t1 t2 t3 t4 t5 t6 t7 t8 t9 - k * p25519.
Proof.
  change (2 ^ 62) with 4611686018427387904. rewrite !Forall_cons.
  intros (B0 & B1 & B2 & B3 & B4 & B5 & B6 & B7 & B8 & B9 & _).
  cbv beta delta [FE_CARRY]. one_carry. one_carry. one_carry. one_carry. one_carry. one_carry.
  one_carry. one_carry. one_carry. one_carry. one_carry. one_carry.
  intros <-. rewrite !i32_small by lia. split.
  - unfold tight, limbs. cbn [fe0 fe1 fe2 fe3 fe4 fe5 fe6 fe7 fe8 fe9].
    change (11 * 2 ^ 25 / 10) with 36909875. change (11 * 2 ^ 24 / 10) with 18454937. lia.
  - exists c9. unfold fe_value, weigh, p25519. cbn [fe0 fe1 fe2 fe3 fe4 fe5 fe6 fe7 fe8 fe9]. lia.
Qed.

(** ** Sums of products *)

Fixpoint products (l : list (Z * Z)) : Z :=
  match l with [] => 0 | (a, b) :: l => a * b + products l end.

Definition sized (A B : Z) (l : list (Z * Z)) : Prop := Forall (λ x, -A ≤ x.1 ≤ A ∧ -B ≤ x.2 ≤ B) l.

Lemma product_bound A B a b : -A ≤ a ≤ A → -B ≤ b ≤ B → -(A * B) ≤ a * b ≤ A * B.
Proof. nia. Qed.

Lemma products_bound A B l :
  sized A B l → - (Z.of_nat (length l) * (A * B)) ≤ products l ≤ Z.of_nat (length l) * (A * B).
Proof.
  induction l as [|[a b] l IH]; [intros _; cbn; lia|]. intros [[H1 H2] H]%Forall_cons. specialize (IH H).
  cbn [length products]. rewrite Nat2Z.inj_succ. pose proof (product_bound _ _ _ _ H1 H2). cbn [fst snd] in *. lia.
Qed.

Lemma dot_from_exact A B l acc N :
  0 ≤ A → 0 ≤ B → sized A B l → -N ≤ acc ≤ N → N + Z.of_nat (length l) * (A * B) ≤ 2 ^ 62 →
  dot_from acc l = acc + products l.
Proof.
  intros HA HB. change (2 ^ 62) with 4611686018427387904.
  revert acc N. induction l as [|[a b] l IH]; intros acc N; [intros; cbn; lia|].
  intros [[H1 H2] H]%Forall_cons Hacc HN. cbn [length] in HN. rewrite Nat2Z.inj_succ in HN.
  pose proof (product_bound _ _ _ _ H1 H2) as Hab. cbn [fst snd] in Hab.
  assert (0 ≤ Z.of_nat (length l) * (A * B)) by nia.
  cbn [dot_from products]. rewrite (i64_small (a * b)), i64_small by lia. rewrite (IH _ (N + A * B)); [lia|done|lia|lia].
Qed.

Lemma dot_exact A B l :
  0 ≤ A → 0 ≤ B → Z.of_nat (length l) * (A * B) ≤ 2 ^ 62 → sized A B l →
  dot l = products l ∧ -(2 ^ 62) ≤ products l ≤ 2 ^ 62.
Proof.
  intros HA HB Hn Hl. pose proof (products_bound A B l Hl) as P. split; [|lia]. clear P.
  change (2 ^ 62) with 4611686018427387904 in *.
  destruct l as [|[a b] l]; [done|]. apply Forall_cons in Hl as [[H1 H2] Hl]. cbn [length] in Hn. rewrite Nat2Z.inj_succ in Hn.
  pose proof (product_bound _ _ _ _ H1 H2) as Hab. cbn [fst snd] in Hab. assert (0 ≤ Z.of_nat (length l) * (A * B)) by nia.
  cbn [dot products]. rewrite (i64_small (a * b)) by lia.
  apply (dot_from_exact A B l (a * b) (A * B)); [done..|]. change (2 ^ 62) with 4611686018427387904. lia.
Qed.

(** ** Multiplication *)

(** Replaces a sum the code computes in 64 bits by the exact sum, with its bound. *)
Ltac exact_dot A B :=
  lazymatch goal with |- context [dot ?l] =>
    let E := fresh "E" in let D := fresh "D" in
    destruct (dot_exact A B l) as [E D];
      [lia|lia|cbn [length]; lia|repeat (apply Forall_cons; split; [cbn [fst snd]; lia|]); apply Forall_nil_2|];
    rewrite E; clear E
  end.

(** The limbs of a loose element, as numerals. *)
Lemma loose_limbs f : loose f ↔ limbs 110729625 55364812 f.
Proof. done. Qed.
Lemma tight_limbs f : tight f ↔ limbs 36909875 18454937 f.
Proof. done. Qed.

(** What the product has above 2^255, divided by it. *)
Definition high (f g : fe) : Z :=
  let '(Fe f0 f1 f2 f3 f4 f5 f6 f7 f8 f9) := f in
  let '(Fe g0 g1 g2 g3 g4 g5 g6 g7 g8 g9) := g in
  weigh
    (2 * f1 * g9 + f2 * g8 + 2 * f3 * g7 + f4 * g6 + 2 * f5 * g5 + f6 * g4 + 2 * f7 * g3 + f8 * g2 + 2 * f9 * g1)
    (f2 * g9 + f3 * g8 + f4 * g7 + f5 * g6 + f6 * g5 + f7 * g4 + f8 * g3 + f9 * g2)
    (2 * f3 * g9 + f4 * g8 + 2 * f5 * g7 + f6 * g6 + 2 * f7 * g5 + f8 * g4 + 2 * f9 * g3)
    (f4 * g9 + f5 * g8 + f6 * g7 + f7 * g6 + f8 * g5 + f9 * g4)
    (2 * f5 * g9 + f6 * g8 + 2 * f7 * g7 + f8 * g6 + 2 * f9 * g5)
    (f6 * g9 + f7 * g8 + f8 * g7 + f9 * g6)
    (2 * f7 * g9 + f8 * g8 + 2 * f9 * g7)
    (f8 * g9 + f9 * g8)
    (2 * f9 * g9)
    0.

Lemma fe_mul_spec f g :
  loose f → loose g → tight (fe_mul f g) ∧ ∃ k, fe_value (fe_mul f g) = fe_value f * fe_value g - k * p25519.
Proof.
  destruct f as [f0 f1 f2 f3 f4 f5 f6 f7 f8 f9], g as [g0 g1 g2 g3 g4 g5 g6 g7 g8 g9].
  rewrite !loose_limbs. unfold limbs. cbn [fe0 fe1 fe2 fe3 fe4 fe5 fe6 fe7 fe8 fe9].
  intros [Hf1 Hf2] [Hg1 Hg2]. unfold fe_mul. rewrite !i32_small by lia.
  do 10 exact_dot 110729625 2103862875.
  edestruct carry_spec as [T [k V]]; [|reflexivity|split; [exact T|]].
  { repeat (apply Forall_cons; split; [assumption|]). apply Forall_nil_2. }
  exists (k + high (Fe f0 f1 f2 f3 f4 f5 f6 f7 f8 f9) (Fe g0 g1 g2 g3 g4 g5 g6 g7 g8 g9)). rewrite V. clear.
  unfold high, fe_value, weigh, p25519. cbn [fe0 fe1 fe2 fe3 fe4 fe5 fe6 fe7 fe8 fe9 products]. ring.
Qed.

Lemma fe_sq_mul f : loose f → fe_sq f = fe_mul f f.
Proof.
  destruct f as [f0 f1 f2 f3 f4 f5 f6 f7 f8 f9]. rewrite loose_limbs. unfold limbs.
  cbn [fe0 fe1 fe2 fe3 fe4 fe5 fe6 fe7 fe8 fe9]. intros [Hf1 Hf2]. unfold fe_sq, fe_mul. rewrite !i32_small by lia.
  do 10 exact_dot 221459250 2103862875. do 10 exact_dot 110729625 2103862875. clear.
  cbn [products]. f_equal; ring.
Qed.

(** ** The other operations *)

(** The element of the field that limbs represent. *)
Definition field (f : fe) : Z := fe_value f mod p25519.

Lemma field_of f v k : fe_value f = v - k * p25519 → field f = v mod p25519.
Proof. intros H. unfold field. rewrite H. replace (v - k * p25519) with (v + - k * p25519) by lia. apply Z_mod_plus_full. Qed.

Lemma field_range f : 0 ≤ field f < p25519.
Proof. apply Z.mod_pos_bound. done. Qed.

Lemma fe_mul_field f g :
  loose f → loose g → tight (fe_mul f g) ∧ field (fe_mul f g) = field f * field g mod p25519.
Proof.
  intros Hf Hg. destruct (fe_mul_spec f g Hf Hg) as [T [k V]]. split; [done|].
  rewrite (field_of _ _ _ V). unfold field. apply Zmult_mod.
Qed.

Lemma tight_loose f : tight f → loose f.
Proof. rewrite loose_limbs, tight_limbs. unfold limbs. lia. Qed.

Lemma fe_add_value f g :
  tight f → tight g → loose (fe_add f g) ∧ fe_value (fe_add f g) = fe_value f + fe_value g.
Proof.
  rewrite loose_limbs, !tight_limbs. destruct f, g. unfold fe_add, fe_zip, limbs, fe_value, weigh.
  cbn [fe0 fe1 fe2 fe3 fe4 fe5 fe6 fe7 fe8 fe9]. intros Hf Hg. rewrite !i32_small by lia. lia.
Qed.

Lemma fe_sub_value f g :
  tight f → tight g → loose (fe_sub f g) ∧ fe_value (fe_sub f g) = fe_value f - fe_value g.
Proof.
  rewrite loose_limbs, !tight_limbs. destruct f, g. unfold fe_sub, fe_zip, limbs, fe_value, weigh.
  cbn [fe0 fe1 fe2 fe3 fe4 fe5 fe6 fe7 fe8 fe9]. intros Hf Hg. rewrite !i32_small by lia. lia.
Qed.

Lemma fe_neg_value f : tight f → tight (fe_neg f) ∧ fe_value (fe_neg f) = - fe_value f.
Proof.
  rewrite !tight_limbs. destruct f. unfold fe_neg, fe_map, limbs, fe_value, weigh.
  cbn [fe0 fe1 fe2 fe3 fe4 fe5 fe6 fe7 fe8 fe9]. intros Hf. rewrite !i32_small by lia. lia.
Qed.

Lemma fe_ccopy_0 f g : fe_ccopy f g 0 = f.
Proof.
  destruct f, g. unfold fe_ccopy, fe_zip. cbn [fe0 fe1 fe2 fe3 fe4 fe5 fe6 fe7 fe8 fe9].
  change (i32 (- 0)) with 0. by rewrite !Z.land_0_r, !Z.lxor_0_r.
Qed.
Lemma fe_ccopy_1 f g : fe_ccopy f g 1 = g.
Proof.
  destruct f, g. unfold fe_ccopy, fe_zip. cbn [fe0 fe1 fe2 fe3 fe4 fe5 fe6 fe7 fe8 fe9].
  change (i32 (- (1))) with (-1). by rewrite !Z.land_m1_r, <-!Z.lxor_assoc, !Z.lxor_nilpotent, !Z.lxor_0_l.
Qed.

Lemma fe_mul_small_spec f g :
  loose f → -2147483648 ≤ g < 2147483648 →
  tight (fe_mul_small f g) ∧ ∃ k, fe_value (fe_mul_small f g) = fe_value f * g - k * p25519.
Proof.
  destruct f as [f0 f1 f2 f3 f4 f5 f6 f7 f8 f9]. rewrite loose_limbs. unfold limbs.
  cbn [fe0 fe1 fe2 fe3 fe4 fe5 fe6 fe7 fe8 fe9]. intros [Hf1 Hf2] Hg. unfold fe_mul_small.
  assert (∀ x, -110729625 ≤ x ≤ 110729625 → -(2 ^ 62) ≤ x * g ≤ 2 ^ 62) as B.
  { intros x Hx. pose proof (product_bound 110729625 2147483648 x g Hx ltac:(lia)). lia. }
  assert (∀ x, -110729625 ≤ x ≤ 110729625 → i64 (x * g) = x * g) as E.
  { intros x Hx. specialize (B x Hx). rewrite i64_small; lia. }
  cbn [fe0 fe1 fe2 fe3 fe4 fe5 fe6 fe7 fe8 fe9]. rewrite !E by lia.
  edestruct carry_spec as [T [k V]]; [|reflexivity|split; [exact T|]].
  { repeat (apply Forall_cons; split; [apply B; lia|]). apply Forall_nil_2. }
  exists k. rewrite V. unfold fe_value, weigh. cbn [fe0 fe1 fe2 fe3 fe4 fe5 fe6 fe7 fe8 fe9]. ring.
Qed.

(** ** Bytes *)

Definition le_value (s : list Z) : Z := foldr (λ b v, b + 256 * v) 0 s.

Lemma le_value_app s t : le_value (s ++ t) = le_value s + 256 ^ len s * le_value t.
Proof.
  induction s as [|b s IH]; [change (256 ^ len []) with 1; change (le_value []) with 0; cbn [app]; lia|]. cbn [app le_value foldr]. fold (le_value (s ++ t)) (le_value s). rewrite IH, len_cons.
  rewrite Z.pow_add_r by (pose proof (len_nonneg s); lia). lia.
Qed.

Lemma le_value_range s : Forall is_byte s → 0 ≤ le_value s < 256 ^ len s.
Proof.
  unfold is_byte. induction 1 as [|b s Hb _ IH]; [change (len []) with 0; cbn; lia|]. rewrite len_cons, Z.pow_add_r by (pose proof (len_nonneg s); lia).
  cbn [le_value foldr]. fold (le_value s). lia.
Qed.

Lemma le_value_inj s t : Forall is_byte s → Forall is_byte t → len s = len t → le_value s = le_value t → s = t.
Proof.
  intros Hs. revert t. induction Hs as [|a s Ha _ IH]; intros [|b t] Ht Hl; [done|unfold len in Hl; cbn in Hl; lia..|].
  apply Forall_cons in Ht as [Hb Ht]. rewrite !len_cons in Hl. cbn [le_value foldr]. fold (le_value s) (le_value t).
  unfold is_byte in *. intros E. f_equal; [lia|]. apply IH; [done|lia|lia].
Qed.

Lemma lor_shl a b n :
  0 < n < 32 → 0 ≤ a < 2 ^ n → 0 ≤ b → b * 2 ^ n < 4294967296 → a |w (b <<w n) = a + b * 2 ^ n.
Proof.
  intros Hn Ha Hb H. rewrite Z.shiftl_mul_pow2 by lia. rewrite u32_small; [apply lor_low_high; lia|].
  split; [|done]. apply Z.mul_nonneg_nonneg; [done|]. apply Z.pow_nonneg. lia.
Qed.

Lemma load24_value s i :
  Forall is_byte s → load24_le s i = at_ s i + 256 * at_ s (i + 1) + 65536 * at_ s (i + 2).
Proof.
  intros H. pose proof (at_byte s i H). pose proof (at_byte s (i + 1) H). pose proof (at_byte s (i + 2) H).
  unfold is_byte, load24_le in *. rewrite (lor_shl _ _ 8), (lor_shl _ _ 16) by lia. lia.
Qed.
Lemma load32_value s i :
  Forall is_byte s →
  load32_le s i = at_ s i + 256 * at_ s (i + 1) + 65536 * at_ s (i + 2) + 16777216 * at_ s (i + 3).
Proof.
  intros H. pose proof (at_byte s (i + 3) H) as B. pose proof (load24_value s i H) as E.
  pose proof (at_byte s i H). pose proof (at_byte s (i + 1) H). pose proof (at_byte s (i + 2) H).
  unfold is_byte, load24_le, load32_le in *. rewrite E, (lor_shl _ _ 24) by lia. lia.
Qed.

Lemma store32_bytes x : Forall is_byte (store32_le x) ∧ len (store32_le x) = 4.
Proof. split; [|done]. repeat (apply Forall_cons; split; [apply u8_range|]). apply Forall_nil_2. Qed.
Lemma store32_value x : 0 ≤ x < 4294967296 → le_value (store32_le x) = x.
Proof.
  intros H. unfold store32_le, u8. cbn [le_value foldr]. rewrite !Z.shiftr_div_pow2 by lia.
  change (2 ^ 8) with 256. change (2 ^ 16) with 65536. change (2 ^ 24) with 16777216. divlia.
Qed.

(** ** Theorem *)

(** C36: Field arithmetic is right modulo p = 2^255 - 19, with every product, sum
    and shift computed in 32 and 64 bits with wrap-around.  The product of two
    elements within the bounds of the comments (1.65 * 2^26 and 1.65 * 2^25) has
    tight limbs (1.1 * 2^25 and 1.1 * 2^24) and is the product modulo p; the
    separate squaring code gives the same limbs as multiplying an element by
    itself; multiplication by an [i32] is right; and sums, differences and
    negatives of tight elements are right and within the bounds of a
    multiplication.  The constants are a square root of -1, -121665 / 121666 and
    twice that. *)
Theorem fe_arithmetic :
  (∀ f g, loose f → loose g → tight (fe_mul f g) ∧ field (fe_mul f g) = field f * field g mod p25519) ∧
  (∀ f, loose f → fe_sq f = fe_mul f f) ∧
  (∀ f c, loose f → -2147483648 ≤ c < 2147483648 →
     tight (fe_mul_small f c) ∧ field (fe_mul_small f c) = field f * c mod p25519) ∧
  (∀ f g, tight f → tight g →
     loose (fe_add f g) ∧ field (fe_add f g) = (field f + field g) mod p25519 ∧
     loose (fe_sub f g) ∧ field (fe_sub f g) = (field f - field g) mod p25519 ∧
     tight (fe_neg f) ∧ field (fe_neg f) = - field f mod p25519) ∧
  (tight sqrtm1 ∧ field sqrtm1 * field sqrtm1 mod p25519 = p25519 - 1 ∧
   tight d ∧ field d * 121666 mod p25519 = p25519 - 121665 ∧ tight D2 ∧ field D2 = 2 * field d mod p25519).
Proof.
  split; [exact fe_mul_field|]. split; [exact fe_sq_mul|]. split; [|split].
  - intros f c Hf Hc. destruct (fe_mul_small_spec f c Hf Hc) as [T [k V] ]. split; [done|].
    rewrite (field_of _ _ _ V). unfold field. by rewrite Zmult_mod_idemp_l.
  - intros f g Hf Hg. destruct (fe_add_value f g Hf Hg) as [La Ea], (fe_sub_value f g Hf Hg) as [Ls Es],
      (fe_neg_value f Hf) as [Tn En]. unfold field. rewrite Ea, Es, En.
    split_and!; [done|apply Zplus_mod|done|apply Zminus_mod|done|]. rewrite <-(Z.sub_0_l (fe_value f)), <-(Z.sub_0_l (_ mod _)). by rewrite Zminus_mod_idemp_r.
  - rewrite !tight_limbs. unfold limbs. split_and!; try (by vm_compute); cbn; lia.
Qed.

Lemma demo_loose : loose (fe_add d D2) ∧ loose (fe_sub sqrtm1 d).
Proof. rewrite !loose_limbs. unfold limbs. vm_compute. intuition discriminate. Qed.

Lemma fe_arithmetic_witness :
  tight (fe_mul (fe_add d D2) (fe_sub sqrtm1 d)) ∧
  field (fe_mul (fe_add d D2) (fe_sub sqrtm1 d)) = field (fe_add d D2) * field (fe_sub sqrtm1 d) mod p25519 ∧
  fe_sq (fe_add d D2) = fe_mul (fe_add d D2) (fe_add d D2).
Proof.
  destruct fe_arithmetic as (H1 & H2 & _). destruct (H1 _ _ (proj1 demo_loose) (proj2 demo_loose)) as [T F].
  exact (conj T (conj F (H2 _ (proj1 demo_loose)))).
Defined.
