(* ===== verification/FieldCodec.v ===== *)
(** * Encoding field elements: src/core/crypto_ed25519.c

    The 32-byte encoding of a field element is canonical: [fe_tobytes] of tight
    limbs gives the little-endian bytes of the value reduced modulo 2^255 - 19,
    [fe_frombytes] reads the lower 255 bits back, and therefore comparing
    encodings in constant time decides equality in the field. *)

From S2P Require Import Prelude Field25519.

(** ** Reading *)

Lemma load24_le_range s i : Forall is_byte s → 0 ≤ load24_le s i < 16777216.
Proof.
  intros H. rewrite load24_value by done. pose proof (at_byte s i H). pose proof (at_byte s (i + 1) H).
  pose proof (at_byte s (i + 2) H). unfold is_byte in *. lia.
Qed.
Lemma load32_le_range s i : Forall is_byte s → 0 ≤ load32_le s i < 4294967296.
Proof.
  intros H. rewrite load32_value by done. pose proof (at_byte s i H). pose proof (at_byte s (i + 1) H).
  pose proof (at_byte s (i + 2) H). pose proof (at_byte s (i + 3) H). unfold is_byte in *. lia.
Qed.

Lemma shl_small x n : 0 ≤ n → 0 ≤ x → x * 2 ^ n < 4294967296 → x <<w n = x * 2 ^ n.
Proof.
  intros Hn Hx H. rewrite Z.shiftl_mul_pow2 by lia. apply u32_small. split; [|done].
  apply Z.mul_nonneg_nonneg; [done|]. apply Z.pow_nonneg. lia.
Qed.

(** Names the bytes of a list of 32 and reads them. *)
Ltac name_bytes s Hl :=
  do 32 (destruct s as [|? s]; [discriminate|]); destruct s; [|unfold len in Hl; cbn in Hl; lia];
  repeat lazymatch goal with |- context [at_ ?l ?i] => let v := eval cbv in (at_ l i) in change (at_ l i) with v end;
  cbn [le_value foldr].

Lemma le_value_loads s :
  Forall is_byte s → len s = 32 →
  le_value s = load32_le s 0 + 2 ^ 32 * load24_le s 4 + 2 ^ 56 * load24_le s 7 + 2 ^ 80 * load24_le s 10
    + 2 ^ 104 * load24_le s 13 + 2 ^ 128 * load32_le s 16 + 2 ^ 160 * load24_le s 20 + 2 ^ 184 * load24_le s 23
    + 2 ^ 208 * load24_le s 26 + 2 ^ 232 * load24_le s 29.
Proof.
  intros Hs Hl. rewrite !(load24_value s), !(load32_value s) by done. clear Hs.
  name_bytes s Hl. lia.
Qed.

Lemma fe_frombytes_spec s :
  Forall is_byte s → len s = 32 →
  tight (fe_frombytes s) ∧ ∃ k, fe_value (fe_frombytes s) = le_value s mod 2 ^ 255 - k * p25519.
Proof.
  intros Hs Hl. rewrite (le_value_loads s Hs Hl).
  pose proof (λ i, load24_le_range s i Hs) as B. pose proof (λ i, load32_le_range s i Hs) as B'.
  unfold fe_frombytes, fe_frombytes_mask. change (0xffffff >>w 1) with (Z.ones 23). rewrite Z.land_ones by lia.
  change (2 ^ 23) with 8388608. pose proof (Z.mod_pos_bound (load24_le s 29) 8388608 ltac:(lia)) as Bm.
  generalize (B 4), (B 7), (B 10), (B 13), (B 20), (B 23), (B 26), (B 29), (B' 0), (B' 16). clear B B' Hs Hl.
  intros. rewrite !shl_small by lia.
  edestruct carry_spec as [T [k V]]; [|reflexivity|split; [exact T|]].
  { change (2 ^ 62) with 4611686018427387904. repeat (apply Forall_cons; split; [lia|]). apply Forall_nil_2. }
  exists k. rewrite V. f_equal. unfold weigh.
  apply (Z.mod_unique _ _ (load24_le s 29 / 8388608)); [left|]; pose proof (Z.div_mod (load24_le s 29) 8388608); lia.
Qed.

(** ** Writing *)

(** A round of the first loop divides two limbs by 2^51; a step of the second
    leaves a limb in its range. *)
Lemma up_spec q a b r :
  -1000 ≤ q ≤ 1000 → -36909875 ≤ a ≤ 36909875 → -18454937 ≤ b ≤ 18454937 → r = tobytes_up q a b →
  0 ≤ q + a + 67108864 * b - 2251799813685248 * r < 2251799813685248.
Proof.
  intros Hq Ha Hb ->. unfold tobytes_up. rewrite (i32_small (q + a)), !Z.shiftr_div_pow2 by lia.
  change (2 ^ 26) with 67108864. change (2 ^ 25) with 33554432. rewrite i32_small by divlia. divlia.
Qed.

Lemma limb_26 q t u r :
  -1000 ≤ q ≤ 1000 → -36909875 ≤ t ≤ 36909875 → tobytes_limb 26 q t = (u, r) →
  0 ≤ u < 67108864 ∧ t + q = 67108864 * r + u.
Proof.
  intros Hq Ht. unfold tobytes_limb. rewrite (i32_small (t + q)) by lia. change (i32 (Z.shiftl 1 26)) with 67108864.
  rewrite Z.shiftr_div_pow2 by lia. change (2 ^ 26) with 67108864. intros [= <- <-].
  assert (-2 ≤ (t + q) / 67108864 ≤ 2) by divlia. rewrite (i32_small (_ * _)), i32_small by divlia. divlia.
Qed.
Lemma limb_25 q t u r :
  -1000 ≤ q ≤ 1000 → -36909875 ≤ t ≤ 36909875 → tobytes_limb 25 q t = (u, r) →
  0 ≤ u < 33554432 ∧ t + q = 33554432 * r + u.
Proof.
  intros Hq Ht. unfold tobytes_limb. rewrite (i32_small (t + q)) by lia. change (i32 (Z.shiftl 1 25)) with 33554432.
  rewrite Z.shiftr_div_pow2 by lia. change (2 ^ 25) with 33554432. intros [= <- <-].
  assert (-2 ≤ (t + q) / 33554432 ≤ 2) by divlia. rewrite (i32_small (_ * _)), i32_small by divlia. divlia.
Qed.

Lemma tobytes_q_sign h q : tight h → tobytes_q h = q → q = if fe_value h <? 0 then -1 else 0.
Proof.
  rewrite tight_limbs. destruct h as [h0 h1 h2 h3 h4 h5 h6 h7 h8 h9]. unfold limbs, fe_value.
  cbn [fe0 fe1 fe2 fe3 fe4 fe5 fe6 fe7 fe8 fe9]. intros [He Ho].
  lazy beta iota delta [tobytes_q fe0 fe1 fe2 fe3 fe4 fe5 fe6 fe7 fe8 fe9]. intro_let q0 E0.
  change (i32 (Z.shiftl 1 24)) with 16777216 in E0.
  rewrite (i32_small (19 * h9)), i32_small, Z.shiftr_div_pow2 in E0 by lia. change (2 ^ 25) with 33554432 in E0.
  assert (0 ≤ 19 * h9 + 16777216 - 33554432 * q0 < 33554432) as B0 by (subst q0; divlia). clear E0.
  intro_let q1 E1. apply up_spec in E1; [|lia..]. intro_let q2 E2. apply up_spec in E2; [|lia..].
  intro_let q3 E3. apply up_spec in E3; [|lia..]. intro_let q4 E4. apply up_spec in E4; [|lia..].
  intros E5%eq_sym%up_spec; [|lia..]. unfold weigh. destruct (Z.ltb_spec (h0 + 2 ^ 26 * h1 + 2 ^ 51 * h2 + 2 ^ 77 * h3
    + 2 ^ 102 * h4 + 2 ^ 128 * h5 + 2 ^ 153 * h6 + 2 ^ 179 * h7 + 2 ^ 204 * h8 + 2 ^ 230 * h9) 0); lia.
Qed.

Lemma limb_pack a b m n :
  0 ≤ m → 0 ≤ n ≤ 32 → 0 ≤ a < 2 ^ (m + n) → 2 ^ (m + n) ≤ 4294967296 → 0 ≤ b < 4294967296 →
  (u32 a >>w m) |w (u32 b <<w n) = a / 2 ^ m + 2 ^ n * (b mod 2 ^ (32 - n)) ∧
  0 ≤ a / 2 ^ m + 2 ^ n * (b mod 2 ^ (32 - n)) < 4294967296.
Proof.
  intros Hm Hn Ha Hmn Hb.
  assert (2 ^ (m + n) = 2 ^ m * 2 ^ n) as Emn by (apply Z.pow_add_r; lia).
  assert (0 ≤ a / 2 ^ m < 2 ^ n) as Ba.
  { split; [apply Z.div_pos; lia|]. apply Z.div_lt_upper_bound; lia. }
  pose proof (Z.mod_pos_bound b (2 ^ (32 - n)) ltac:(apply Z.pow_pos_nonneg; lia)) as Bb.
  assert (2 ^ n * 2 ^ (32 - n) = 4294967296) as En.
  { rewrite <-Z.pow_add_r by lia. by replace (n + (32 - n)) with 32 by lia. }
  split; [|nia]. rewrite (u32_small a), (u32_small b), Z.shiftr_div_pow2, Z.shiftl_mul_pow2 by lia.
  assert (u32 (b * 2 ^ n) = b mod 2 ^ (32 - n) * 2 ^ n) as ->.
  { unfold u32. change (2 ^ 32) with 4294967296. rewrite <-En, (Z.mul_comm (2 ^ n) (2 ^ (32 - n))). apply Zmult_mod_distr_r. }
  rewrite lor_low_high by lia. lia.
Qed.

Lemma store32_app x s :
  0 ≤ x < 4294967296 → le_value (store32_le x ++ s) = x + 4294967296 * le_value s.
Proof. intros H. rewrite le_value_app, (store32_value x H). by change (256 ^ len (store32_le x)) with 4294967296. Qed.

(** The limbs in their ranges are packed without loss. *)
Lemma tobytes_store_value t0 t1 t2 t3 t4 t5 t6 t7 t8 t9 :
  Forall (λ t, 0 ≤ t < 67108864) [t0; t2; t4; t6; t8] → Forall (λ t, 0 ≤ t < 33554432) [t1; t3; t5; t7; t9] →
  le_value (tobytes_store t0 t1 t2 t3 t4 t5 t6 t7 t8 t9) = weigh t0 t1 t2 t3 t4 t5 t6 t7 t8 t9.
Proof.
  rewrite !Forall_cons. intros (B0 & B2 & B4 & B6 & B8 & _) (B1 & B3 & B5 & B7 & B9 & _). unfold tobytes_store.
  rewrite <-(Z.shiftr_0_r (u32 t0)), <-(Z.shiftr_0_r (u32 t5)).
  destruct (limb_pack t0 t1 0 26) as [-> R0]; [lia..|]. destruct (limb_pack t1 t2 6 19) as [-> R1]; [lia..|].
  destruct (limb_pack t2 t3 13 13) as [-> R2]; [lia..|]. destruct (limb_pack t3 t4 19 6) as [-> R3]; [lia..|].
  destruct (limb_pack t5 t6 0 25) as [-> R4]; [lia..|]. destruct (limb_pack t6 t7 7 19) as [-> R5]; [lia..|].
  destruct (limb_pack t7 t8 13 12) as [-> R6]; [lia..|]. destruct (limb_pack t8 t9 20 6) as [-> R7]; [lia..|].
  rewrite !store32_app, store32_value by assumption. unfold weigh.
  clear R0 R1 R2 R3 R4 R5 R6 R7. change (2 ^ 0) with 1. rewrite !Z.div_1_r, (Z.mod_small t4), (Z.mod_small t9) by lia.
  pose proof (Z.div_mod t1 (2 ^ 6)). pose proof (Z.div_mod t2 (2 ^ 13)). pose proof (Z.div_mod t3 (2 ^ 19)).
  pose proof (Z.div_mod t6 (2 ^ 7)). pose proof (Z.div_mod t7 (2 ^ 13)). pose proof (Z.div_mod t8 (2 ^ 20)).
  change (32 - 26) with 6. change (32 - 19) with 13. change (32 - 13) with 19. change (32 - 25) with 7.
  change (32 - 12) with 20. lia.
Qed.

Lemma tobytes_store_bytes t0 t1 t2 t3 t4 t5 t6 t7 t8 t9 :
  Forall is_byte (tobytes_store t0 t1 t2 t3 t4 t5 t6 t7 t8 t9) ∧ len (tobytes_store t0 t1 t2 t3 t4 t5 t6 t7 t8 t9) = 32.
Proof. split; [|done]. unfold tobytes_store. rewrite !Forall_app. repeat split; apply store32_bytes. Qed.

Lemma fe_tobytes_bytes h : Forall is_byte (fe_tobytes h) ∧ len (fe_tobytes h) = 32.
Proof. unfold fe_tobytes. repeat case_match. apply tobytes_store_bytes. Qed.

Lemma fe_tobytes_value h : tight h → le_value (fe_tobytes h) = field h.
Proof.
  intros Ht. pose proof (tobytes_q_sign h _ Ht eq_refl) as Eq. revert Ht Eq. rewrite tight_limbs. unfold fe_tobytes.
  generalize (tobytes_q h). intros q Hh Hq. assert (-1 ≤ q ≤ 0) as Bq by (subst q; by case_match). rewrite (i32_small (q * 19)) by lia.
  destruct h as [h0 h1 h2 h3 h4 h5 h6 h7 h8 h9]. unfold limbs, field, fe_value in *.
  cbn [fe0 fe1 fe2 fe3 fe4 fe5 fe6 fe7 fe8 fe9] in *. destruct Hh as [He Ho].
  destruct (tobytes_limb 26 (q * 19) h0) as [t0 q0] eqn:E0. apply limb_26 in E0; [|lia..].
  destruct (tobytes_limb 25 q0 h1) as [t1 q1] eqn:E1. apply limb_25 in E1; [|lia..].
  destruct (tobytes_limb 26 q1 h2) as [t2 q2] eqn:E2. apply limb_26 in E2; [|lia..].
  destruct (tobytes_limb 25 q2 h3) as [t3 q3] eqn:E3. apply limb_25 in E3; [|lia..].
  destruct (tobytes_limb 26 q3 h4) as [t4 q4] eqn:E4. apply limb_26 in E4; [|lia..].
  destruct (tobytes_limb 25 q4 h5) as [t5 q5] eqn:E5. apply limb_25 in E5; [|lia..].
  destruct (tobytes_limb 26 q5 h6) as [t6 q6] eqn:E6. apply limb_26 in E6; [|lia..].
  destruct (tobytes_limb 25 q6 h7) as [t7 q7] eqn:E7. apply limb_25 in E7; [|lia..].
  destruct (tobytes_limb 26 q7 h8) as [t8 q8] eqn:E8. apply limb_26 in E8; [|lia..].
  destruct (tobytes_limb 25 q8 h9) as [t9 q9] eqn:E9. apply limb_25 in E9; [|lia..].
  rewrite tobytes_store_value; [|repeat (apply Forall_cons; split; [lia|]); apply Forall_nil_2..].
  unfold weigh in *. apply (Z.mod_unique _ _ q); [left|]; unfold p25519; destruct (Z.ltb_spec (h0 + 2 ^ 26 * h1 + 2 ^ 51 * h2
    + 2 ^ 77 * h3 + 2 ^ 102 * h4 + 2 ^ 128 * h5 + 2 ^ 153 * h6 + 2 ^ 179 * h7 + 2 ^ 204 * h8 + 2 ^ 230 * h9) 0); lia.
Qed.

(** ** Comparing *)

Lemma lor_eq_0 a b : Z.lor a b = 0 ↔ a = 0 ∧ b = 0.
Proof. apply Z.lor_eq_0_iff. Qed.
Lemma lxor_eq_0 a b : Z.lxor a b = 0 ↔ a = b.
Proof. apply Z.lxor_eq_0_iff. Qed.

Lemma load64_value s i :
  Forall is_byte s → load64_le s i = load32_le s i + 4294967296 * load32_le s (i + 4) ∧ 0 ≤ load64_le s i < 2 ^ 64.
Proof.
  intros H. pose proof (load32_le_range s i H). pose proof (load32_le_range s (i + 4) H). unfold load64_le.
  rewrite Z.shiftl_mul_pow2 by lia. unfold u64. rewrite Z.mod_small, lor_low_high by lia. lia.
Qed.

Lemma neq0_spec x : 0 ≤ x < 2 ^ 64 → neq0 x = if x =? 0 then 0 else -1.
Proof.
  intros H. unfold neq0. rewrite (Z.shiftr_div_pow2 x) by lia.
  assert (0 ≤ Z.lor (x / 2 ^ 32) (u32 x) < 2 ^ 32) as B.
  { apply lor_bound; [lia|split; [apply Z.div_pos; lia|apply Z.div_lt_upper_bound; lia]|apply u32_range]. }
  assert (Z.lor (x / 2 ^ 32) (u32 x) = 0 ↔ x = 0) as E.
  { rewrite lor_eq_0. unfold u32. pose proof (Z.div_mod x (2 ^ 32)). split; [lia|intros ->; done]. }
  revert B E. generalize (Z.lor (x / 2 ^ 32) (u32 x)). intros half B E. destruct (Z.eqb_spec x 0) as [Hx|Hx].
  - assert (half = 0) as -> by tauto. reflexivity.
  - assert (half ≠ 0) by tauto. unfold u64. rewrite Z.mod_small, Z.shiftr_div_pow2, Z.div_small by lia. done.
Qed.

Lemma x32_range a b : Forall is_byte a → Forall is_byte b → 0 ≤ x32 a b < 2 ^ 64.
Proof.
  intros Ha Hb. unfold x32, x16. repeat apply lor_bound; try lia.
  all: apply lxor_bound; [lia|apply load64_value; assumption..].
Qed.

Lemma le_value_64 s :
  Forall is_byte s → len s = 32 →
  le_value s = load64_le s 0 + 2 ^ 64 * load64_le s 8 + 2 ^ 128 * load64_le s 16 + 2 ^ 192 * load64_le s 24.
Proof.
  intros Hs Hl. rewrite !(λ i, proj1 (load64_value s i Hs)), !(load32_value s) by done. clear Hs. name_bytes s Hl. lia.
Qed.

Lemma x32_zero a b :
  Forall is_byte a → Forall is_byte b → len a = 32 → len b = 32 → x32 a b = 0 ↔ a = b.
Proof.
  intros Ha Hb La Lb. split; [|intros ->; unfold x32, x16; by rewrite !Z.lxor_nilpotent].
  unfold x32, x16. rewrite !lor_eq_0, !lxor_eq_0. intros [[E0 E1] [E2 E3] ].
  apply le_value_inj; [done|done|lia|]. rewrite !le_value_64 by done.
  change (0 + 8) with 8 in E1. change (16 + 8) with 24 in E3. lia.
Qed.

Lemma crypto_verify32_spec a b :
  Forall is_byte a → Forall is_byte b → len a = 32 → len b = 32 →
  crypto_verify32 a b = if decide (a = b) then 0 else -1.
Proof.
  intros Ha Hb La Lb. unfold crypto_verify32. rewrite neq0_spec by (by apply x32_range).
  pose proof (x32_zero a b Ha Hb La Lb). destruct (Z.eqb_spec (x32 a b) 0), (decide (a = b)); tauto.
Qed.

Lemma fe_isequal_spec f g :
  tight f → tight g → fe_isequal f g = if decide (field f = field g) then 1 else 0.
Proof.
  intros Hf Hg. destruct (fe_tobytes_bytes f) as [Bf Lf], (fe_tobytes_bytes g) as [Bg Lg].
  unfold fe_isequal. rewrite crypto_verify32_spec by done.
  assert (fe_tobytes f = fe_tobytes g ↔ field f = field g) as E.
  { rewrite <-(fe_tobytes_value f Hf), <-(fe_tobytes_value g Hg). split; [by intros ->|]. apply le_value_inj; [done|done|lia]. }
  destruct (decide (fe_tobytes f = fe_tobytes g)), (decide (field f = field g)); tauto || done.
Qed.

Lemma fe_isodd_spec f : tight f → fe_isodd f = field f mod 2.
Proof.
  intros Hf. unfold fe_isodd. rewrite <-(fe_tobytes_value f Hf). destruct (fe_tobytes_bytes f) as [_ L].
  destruct (fe_tobytes f) as [|b s]; [discriminate|]. change (at_ (b :: s) 0) with b. change 1 with (Z.ones 1).
  rewrite Z.land_ones by lia. cbn [le_value foldr]. change (2 ^ 1) with 2. divlia.
Qed.

(** ** Theorems *)

(** C37: Encoding and decoding field elements is exact.  For limbs within the
    bounds of the comments, [fe_tobytes] writes 32 bytes, the little-endian
    encoding of the value reduced modulo 2^255 - 19; [fe_frombytes] of any 32
    bytes has limbs within those bounds and the value of the lower 255 bits;
    encoding what was decoded from a canonical string gives that string; the
    constant-time comparison [fe_isequal] is 1 on elements that are equal in the
    field, whatever their limbs, and 0 on others; [fe_isodd] is the parity of the
    reduced value. *)
Theorem fe_codec_exact :
  (∀ h, tight h → len (fe_tobytes h) = 32 ∧ Forall is_byte (fe_tobytes h) ∧ le_value (fe_tobytes h) = field h) ∧
  (∀ s, Forall is_byte s → len s = 32 → tight (fe_frombytes s) ∧
     field (fe_frombytes s) = (le_value s mod 2 ^ 255) mod p25519 ∧
     (le_value s < p25519 → fe_tobytes (fe_frombytes s) = s)) ∧
  (∀ f g, tight f → tight g → fe_isequal f g = if decide (field f = field g) then 1 else 0) ∧
  (∀ f, tight f → fe_isodd f = field f mod 2).
Proof.
  split; [|split; [|split; [apply fe_isequal_spec|apply fe_isodd_spec] ] ].
  - intros h Hh. destruct (fe_tobytes_bytes h). by rewrite fe_tobytes_value.
  - intros s Hs Hl. destruct (fe_frombytes_spec s Hs Hl) as [T [k V] ]. apply field_of in V as E.
    split_and!; [done..|]. intros Hp. destruct (fe_tobytes_bytes (fe_frombytes s)) as [B L].
    pose proof (le_value_range s Hs). apply le_value_inj; [done|done|lia|]. rewrite fe_tobytes_value, E by done.
    unfold p25519 in *. rewrite !Z.mod_small; rewrite ?Z.mod_small; lia.
Qed.

Definition demo_bytes : list Z := range 7 39.
Lemma demo_bytes_ok : Forall is_byte demo_bytes.
Proof. apply Forall_forall. intros b Hb%elem_of_range. unfold is_byte. lia. Qed.

Lemma fe_codec_exact_witness :
  fe_tobytes (fe_frombytes demo_bytes) = demo_bytes ∧ fe_isequal (fe_frombytes demo_bytes) (fe_frombytes demo_bytes) = 1.
Proof.
  destruct fe_codec_exact as (_ & H & E & _). destruct (H demo_bytes demo_bytes_ok eq_refl) as (T & _ & R). split.
  - apply R. vm_compute. reflexivity.
  - rewrite (E _ _ T T). by rewrite decide_True.
Defined.
