(* ===== verification/FieldPower.v ===== *)
(** * Inverse square roots: src/core/crypto_ed25519.c

    [invsqrt] raises its argument to the power (p - 5) / 8 by an addition chain of
    squarings and products, and corrects the result by a square root of -1.  The
    theorems follow the exponent through the chain and show that what [invsqrt]
    reports to be an inverse square root is one.  Output and input may be the same
    array, as in [fe_invert]: the output is written after the last read of the
    input. *)

From S2P Require Import Prelude Field25519 FieldCodec.

(** ** The code *)

(** [FOR (i, lo, hi) { fe_sq(t, t); }] *)
Definition fe_sq_for (lo hi : Z) (t : fe) : fe := foldl (λ t _, fe_sq t) t (range lo hi).

(** [t0] and [t1] after the addition chain. *)
Definition power_chain (x : fe) : fe :=
  let t0 := fe_sq x in
  let t1 := fe_sq t0 in let t1 := fe_sq t1 in let t1 := fe_mul x t1 in
  let t0 := fe_mul t0 t1 in
  let t0 := fe_sq t0 in let t0 := fe_mul t1 t0 in
  let t1 := fe_sq t0 in let t1 := fe_sq_for 1 5 t1 in let t0 := fe_mul t1 t0 in
  let t1 := fe_sq t0 in let t1 := fe_sq_for 1 10 t1 in let t1 := fe_mul t1 t0 in
  let t2 := fe_sq t1 in let t2 := fe_sq_for 1 20 t2 in let t1 := fe_mul t2 t1 in
  let t1 := fe_sq t1 in let t1 := fe_sq_for 1 10 t1 in let t0 := fe_mul t1 t0 in
  let t1 := fe_sq t0 in let t1 := fe_sq_for 1 50 t1 in let t1 := fe_mul t1 t0 in
  let t2 := fe_sq t1 in let t2 := fe_sq_for 1 100 t2 in let t1 := fe_mul t2 t1 in
  let t1 := fe_sq t1 in let t1 := fe_sq_for 1 50 t1 in let t0 := fe_mul t1 t0 in
  let t0 := fe_sq t0 in let t0 := fe_sq_for 1 2 t0 in fe_mul t0 x.

(** The array [isr] and the result. *)
Definition invsqrt (x : fe) : fe * Z :=
  let t0 := power_chain x in
  let quartic := fe_sq t0 in
  let quartic := fe_mul quartic x in
  let check := fe_0 in let z0 := fe_isequal x check in
  let check := fe_1 in let p1 := fe_isequal quartic check in
  let check := fe_neg check in let m1 := fe_isequal quartic check in
  let check := fe_neg sqrtm1 in let ms := fe_isequal quartic check in
  let isr := fe_mul t0 sqrtm1 in
  let isr := fe_ccopy isr t0 (i32 (1 - Z.lor m1 ms)) in
  (isr, Z.lor (Z.lor p1 m1) z0).

Definition fe_invert (x : fe) : fe :=
  let tmp := fe_sq x in
  let tmp := (invsqrt tmp).1 in
  let tmp := fe_sq tmp in
  fe_mul tmp x.

(** ** Powers *)

(** [f] holds the [n]-th power of [v]. *)
Definition power_of (v : Z) (f : fe) (n : Z) : Prop := 0 ≤ n ∧ tight f ∧ field f = v ^ n mod p25519.

Section powers.
  Variable v : Z.

Lemma power_mul f g m n : power_of v f m → power_of v g n → power_of v (fe_mul f g) (m + n).
Proof.
  intros (Hm & Tf & Ef) (Hn & Tg & Eg). split; [lia|].
  destruct (fe_mul_field f g) as [T E]; [by apply tight_loose..|]. split; [done|].
  rewrite E, Ef, Eg, Z.pow_add_r by done. symmetry. apply Zmult_mod.
Qed.

Lemma power_sq f n : power_of v f n → power_of v (fe_sq f) (2 * n).
Proof.
  intros H. rewrite fe_sq_mul by (apply tight_loose, H). replace (2 * n) with (n + n) by lia. by apply power_mul.
Qed.

Lemma power_sq_list (l : list Z) f n :
  power_of v f n → power_of v (foldl (λ t _, fe_sq t) f l) (2 ^ Z.of_nat (length l) * n).
Proof.
  revert f n. induction l as [|i l IH]; intros f n H; [by rewrite Z.mul_1_l|].
  cbn [foldl length]. rewrite Nat2Z.inj_succ, Z.pow_succ_r by lia.
  replace (2 * 2 ^ Z.of_nat (length l) * n) with (2 ^ Z.of_nat (length l) * (2 * n)) by lia. by apply IH, power_sq.
Qed.

Lemma power_sq_for lo hi f n :
  lo ≤ hi → power_of v f n → power_of v (fe_sq_for lo hi f) (2 ^ (hi - lo) * n).
Proof.
  intros Hl H. apply (power_sq_list (range lo hi)) in H. unfold range in H. rewrite length_seqZ, Z2Nat.id in H by lia. exact H.
Qed.

Lemma power_tight f n : power_of v f n → tight f.
Proof. by intros (_ & H & _). Qed.
Lemma power_field f n : power_of v f n → field f = v ^ n mod p25519.
Proof. by intros (_ & _ & H). Qed.
End powers.

Lemma power_one x : tight x → power_of (field x) x 1.
Proof. intros Hx. split; [lia|]. split; [done|]. rewrite Z.pow_1_r. unfold field. by rewrite Zmod_mod. Qed.

#[local] Opaque Z.pow fe_sq fe_mul fe_sq_for power_of.

Lemma power_chain_spec x : tight x → power_of (field x) (power_chain x) ((p25519 - 5) / 8).
Proof.
  intros P%power_one.
  assert (∃ n, power_of (field x) (power_chain x) n ∧ n = (p25519 - 5) / 8) as (n & H & <-); [|done].
  eexists. split.
  { lazy beta zeta delta [power_chain].
    repeat first [exact P|apply power_mul|apply power_sq|apply power_sq_for; [lia|] ]. }
  vm_compute. reflexivity.
Qed.

(** ** Square roots *)

(** The square root of -1 the code uses, and the value [quartic]. *)
Definition root_m1 : Z := field sqrtm1.
Definition quartic_of (X : Z) : Z := X ^ ((p25519 - 1) / 4) mod p25519.

Lemma constants_tight : tight fe_0 ∧ tight fe_1 ∧ tight (fe_neg fe_1) ∧ tight sqrtm1 ∧ tight (fe_neg sqrtm1).
Proof. unfold tight, limbs. vm_compute. intuition discriminate. Qed.

Lemma constants_field :
  field fe_0 = 0 ∧ field fe_1 = 1 ∧ field (fe_neg fe_1) = p25519 - 1 ∧ field (fe_neg sqrtm1) = p25519 - root_m1.
Proof. by vm_compute. Qed.

Lemma root_m1_square : root_m1 * root_m1 mod p25519 = p25519 - 1.
Proof. by vm_compute. Qed.
Lemma root_m1_range : 1 < root_m1 < p25519 - 1.
Proof. by vm_compute. Qed.

Lemma quartic_spec x :
  tight x → power_of (field x) (fe_mul (fe_sq (power_chain x)) x) ((p25519 - 1) / 4).
Proof.
  intros Hx. replace ((p25519 - 1) / 4) with (2 * ((p25519 - 5) / 8) + 1) by (vm_compute; reflexivity).
  apply power_mul; [by apply power_sq, power_chain_spec|by apply power_one].
Qed.

(** Multiplying a root by the root of -1 negates its square. *)
Lemma corrected_square E X i :
  i * i mod p25519 = p25519 - 1 →
  let isr := E * i mod p25519 in isr * isr * X mod p25519 = - (E * E * X mod p25519) mod p25519.
Proof.
  intros Hi. cbn zeta. rewrite <-(Zmult_mod_idemp_l (E * i mod p25519 * _)), <-(Zmult_mod (E * i) (E * i)), Zmult_mod_idemp_l.
  replace (E * i * (E * i) * X) with (i * i * (E * E * X)) by ring. rewrite <-Zmult_mod_idemp_l, Hi.
  rewrite <-(Zmult_mod_idemp_r (E * E * X)). generalize (E * E * X mod p25519). intros Q.
  replace ((p25519 - 1) * Q) with (- Q + Q * p25519) by ring. apply Z_mod_plus_full.
Qed.

(** A test as the C integer it gives. *)
Definition flag (P : Prop) `{Decision P} : Z := if decide P then 1 else 0.

Lemma lor_flag P R `{Decision P, Decision R} : Z.lor (flag P) (flag R) = flag (P ∨ R).
Proof. unfold flag. repeat case_decide; tauto || reflexivity. Qed.
Lemma ccopy_flag f g P `{Decision P} : fe_ccopy f g (i32 (1 - flag P)) = if decide P then f else g.
Proof. unfold flag. case_decide; [apply fe_ccopy_0|apply fe_ccopy_1]. Qed.
Lemma isequal_flag f c v : tight f → tight c → field c = v → fe_isequal f c = flag (field f = v).
Proof. intros Hf Hc <-. by apply fe_isequal_spec. Qed.

(** What [invsqrt] returns, by the value of [quartic]. *)
Lemma invsqrt_cases x Q :
  tight x → Q = quartic_of (field x) →
  tight (invsqrt x).1 ∧
  field (invsqrt x).1 = (if decide (Q = p25519 - 1 ∨ Q = p25519 - root_m1)
                         then field (power_chain x) * root_m1 mod p25519 else field (power_chain x)) ∧
  (invsqrt x).2 = flag ((Q = 1 ∨ Q = p25519 - 1) ∨ field x = 0).
Proof.
  intros Hx EQ. pose proof (quartic_spec x Hx) as P. pose proof (power_tight _ _ _ (power_chain_spec x Hx)) as T.
  destruct constants_tight as (T0 & T1 & Tm & Ts & Tms), constants_field as (F0 & F1 & Fm & Fms).
  destruct (fe_mul_field (power_chain x) sqrtm1) as [Ti Ei]; [by apply tight_loose..|].
  pose proof (power_field _ _ _ P) as EP. fold (quartic_of (field x)) in EP. rewrite <-EQ in EP. clear EQ. apply power_tight in P.
  unfold invsqrt. cbn [fst snd]. rewrite (isequal_flag _ _ _ Hx T0 F0), (isequal_flag _ _ _ P T1 F1),
    (isequal_flag _ _ _ P Tm Fm), (isequal_flag _ _ _ P Tms Fms), EP, !lor_flag, ccopy_flag.
  split; [by case_decide|]. split; [by case_decide|reflexivity].
Qed.

Lemma quartic_square x :
  tight x → quartic_of (field x) = field (power_chain x) * field (power_chain x) * field x mod p25519.
Proof.
  intros Hx. pose proof (power_field _ _ _ (quartic_spec x Hx)) as EP. fold (quartic_of (field x)) in EP. rewrite <-EP.
  pose proof (tight_loose _ (power_tight _ _ _ (power_chain_spec x Hx))) as L. rewrite fe_sq_mul by exact L.
  destruct (fe_mul_field _ _ L L) as [Ts Es]. rewrite (proj2 (fe_mul_field _ _ (tight_loose _ Ts) (tight_loose _ Hx))), Es.
  apply Zmult_mod_idemp_l.
Qed.

(** The square of what [invsqrt] returns, times the argument. *)
Lemma invsqrt_square x Q :
  tight x → Q = quartic_of (field x) →
  field (invsqrt x).1 * field (invsqrt x).1 * field x mod p25519 =
  if decide (Q = p25519 - 1 ∨ Q = p25519 - root_m1) then p25519 - Q else Q.
Proof.
  intros Hx EQ. destruct (invsqrt_cases x Q Hx EQ) as (_ & -> & _). rewrite (quartic_square x Hx) in EQ.
  assert (0 ≤ Q < p25519) as B by (rewrite EQ; by apply Z.mod_pos_bound). pose proof root_m1_range as R.
  revert EQ. generalize (field (power_chain x)), (field x). intros E X EQ. case_decide as D; [|congruence].
  rewrite corrected_square by apply root_m1_square. rewrite <-EQ.
  assert (0 < Q) as B' by (unfold p25519 in *; lia). clear EQ R D. symmetry. apply (Z.mod_unique _ _ (-1)); [left|]; lia.
Qed.

Lemma power_zero n : 0 < n → 0 ^ n mod p25519 = 0.
Proof. intros H. rewrite Z.pow_0_l by lia. reflexivity. Qed.

Lemma invsqrt_zero x : tight x → field x = 0 → field (invsqrt x).1 = 0.
Proof.
  intros Hx H0. destruct (invsqrt_cases x _ Hx eq_refl) as (_ & -> & _).
  pose proof (power_field _ _ _ (power_chain_spec x Hx)) as ->. rewrite H0, power_zero by (by vm_compute). by case_decide.
Qed.

Lemma fe_sq_field f : loose f → tight (fe_sq f) ∧ field (fe_sq f) = field f * field f mod p25519.
Proof. intros H. rewrite fe_sq_mul by exact H. by apply fe_mul_field. Qed.

(** What [fe_invert] returns is the argument times the square of an inverse square
    root of its square. *)
Lemma fe_invert_product x :
  tight x → tight (fe_invert x) ∧
  field (fe_invert x) * field x mod p25519 =
  field (invsqrt (fe_sq x)).1 * field (invsqrt (fe_sq x)).1 * field (fe_sq x) mod p25519.
Proof.
  intros Hx. destruct (fe_sq_field x (tight_loose _ Hx)) as [T2 E2].
  destruct (invsqrt_cases (fe_sq x) _ T2 eq_refl) as (Ti & _ & _). destruct (fe_sq_field _ (tight_loose _ Ti)) as [T3 E3].
  destruct (fe_mul_field _ _ (tight_loose _ T3) (tight_loose _ Hx)) as [T4 E4]. split; [exact T4|].
  change (field (fe_invert x)) with (field (fe_mul (fe_sq (invsqrt (fe_sq x)).1) x)). rewrite E4, E3, E2.
  rewrite Zmult_mod_idemp_l, <-Z.mul_assoc, Zmult_mod_idemp_l, Zmult_mod_idemp_r. reflexivity.
Qed.

Lemma flag_one P `{Decision P} : flag P = 1 ↔ P.
Proof. unfold flag. case_decide; split; done. Qed.
Lemma flag_zero P `{Decision P} : flag P = 0 ↔ ¬ P.
Proof. unfold flag. case_decide; split; done || tauto. Qed.

Lemma invsqrt_ok x :
  tight x → (invsqrt x).2 = 1 → field x ≠ 0 →
  field (invsqrt x).1 * field (invsqrt x).1 * field x mod p25519 = 1.
Proof.
  intros Hx Hok H0. remember (quartic_of (field x)) as Q eqn:EQ.
  destruct (invsqrt_cases x Q Hx EQ) as (_ & _ & Eok). rewrite Eok, flag_one in Hok.
  rewrite (invsqrt_square x Q Hx EQ). clear EQ Eok. pose proof root_m1_range. case_decide; lia.
Qed.

Lemma invsqrt_nonsquare x :
  tight x → quartic_of (field x) = root_m1 ∨ quartic_of (field x) = p25519 - root_m1 →
  (invsqrt x).2 = 0 ∧ field (invsqrt x).1 * field (invsqrt x).1 * field x mod p25519 = root_m1.
Proof.
  intros Hx. remember (quartic_of (field x)) as Q eqn:EQ. intros HQ. pose proof root_m1_range as R.
  destruct (invsqrt_cases x Q Hx EQ) as (_ & _ & ->). rewrite (invsqrt_square x Q Hx EQ), flag_zero. split.
  - intros [H|H]; [clear EQ; lia|]. rewrite H in EQ. unfold quartic_of in EQ. rewrite power_zero in EQ by (by vm_compute). lia.
  - assert (root_m1 ≠ p25519 - root_m1) as N by (by vm_compute). clear EQ. case_decide; lia.
Qed.

(** ** Theorem *)


