(* ===== verification/Scalar25519.v ===== *)
(** * Arithmetic modulo the group order: src/core/crypto_ed25519.c

    A 512-bit number is reduced modulo the order L of the base point by Barrett
    reduction over arrays of 32-bit words with 64-bit carries.  The theorem shows
    that the result is the remainder, for every input: the estimate of the quotient
    is at most one too small, the truncated product and the subtraction modulo
    2^256 lose nothing, and one conditional subtraction finishes. *)

From S2P Require Import Prelude Field25519 FieldCodec.

(** ** The code *)

Definition load32_le_buf (src : list Z) (size : Z) : list Z := map (λ i, load32_le src (i * 4)) (range 0 size).
Definition store32_le_buf (src : list Z) (size : Z) : list Z :=
  concat (map (λ i, store32_le (at_ src i)) (range 0 size)).

Definition L : list Z :=
  [0x5cf5d3ed; 0x5812631a; 0xa2f79cd6; 0x14def9de; 0x00000000; 0x00000000; 0x00000000; 0x10000000].

Definition is_above_l (x : list Z) : Z :=
  foldl (λ carry i, u64 (carry + u64 (at_ x i + (~w at_ L i &w 0xffffffff))) >>w 32) 1 (range 0 8).

(** The arrays may be the same one: [x[i]] is read before [r[i]] is written. *)
Definition remove_l (r x : list Z) : list Z :=
  let carry := is_above_l x in
  let mask := ~w carry +w 1 in
  (foldl (λ '(r, carry) i,
     let carry := u64 (carry + u64 (at_ x i + (~w at_ L i &w mask))) in
     (upd r i (u32 carry), carry >>w 32)) (r, carry) (range 0 8)).1.

Definition barrett_r : list Z :=
  [0x0a2c131b; 0xed9ce5a3; 0x086329a7; 0x2106215d; 0xffffffeb; 0xffffffff; 0xffffffff; 0xffffffff; 0xf].

(** [carry += xr[k] + (u64)a * b; xr[k] = (u32)carry; carry >>= 32;] *)
Definition mac (a b k : Z) (s : list Z * Z) : list Z * Z :=
  let '(xr, carry) := s in
  let carry := u64 (carry + u64 (at_ xr k + u64 (a * b))) in
  (upd xr k (u32 carry), carry >>w 32).

Definition mod_l_product (x : list Z) : list Z :=
  foldl (λ xr i,
    let '(xr, carry) := foldl (λ s j, mac (at_ barrett_r i) (at_ x j) (i + j) s) (xr, 0) (range 0 16) in
    upd xr (i + 16) (u32 carry)) (replicate 25 0) (range 0 9).

Definition mod_l_multiple (xr : list Z) : list Z :=
  foldl (λ xr i,
    (foldl (λ s j, mac (at_ s.1 (i + 16)) (at_ L j) (i + j) s) (xr, 0) (range 0 (8 - i))).1)
    (foldl (λ xr i, upd xr i 0) xr (range 0 8)) (range 0 8).

Definition mod_l_difference (x xr : list Z) : list Z :=
  (foldl (λ '(xr, carry) i,
     let carry := u64 (carry + u64 (at_ x i + (~w at_ xr i &w 0xffffffff))) in
     (upd xr i (u32 carry), carry >>w 32)) (xr, 1) (range 0 8)).1.

Definition mod_l (x : list Z) : list Z :=
  let xr := mod_l_product x in
  let xr := mod_l_multiple xr in
  let xr := mod_l_difference x xr in
  let xr := remove_l xr xr in
  store32_le_buf xr 8.

Definition crypto_eddsa_reduce (expanded : list Z) : list Z := mod_l (load32_le_buf expanded 16).

(** ** Numbers in words *)

Definition wv (n : Z) (f : Z → Z) : Z := sum (λ i, f i * 2 ^ (32 * i)) (range 0 n).

Lemma wv_0 f : wv 0 f = 0.
Proof. done. Qed.
Lemma wv_snoc n f : 0 ≤ n → wv (n + 1) f = wv n f + f n * 2 ^ (32 * n).
Proof. intros H. unfold wv. rewrite range_snoc, sum_app by lia. cbn [sum]. lia. Qed.
Lemma wv_ext n f g : (∀ i, 0 ≤ i < n → f i = g i) → wv n f = wv n g.
Proof. intros H. apply sum_ext. intros i Hi%elem_of_range. by rewrite H. Qed.

Lemma wv_split m k f : 0 ≤ m → 0 ≤ k → wv (m + k) f = wv m f + 2 ^ (32 * m) * wv k (λ i, f (m + i)).
Proof.
  intros Hm Hk. revert k Hk. apply natlike_ind; [rewrite wv_0, Z.add_0_r; lia|]. intros k Hk IH.
  replace (m + Z.succ k) with (m + k + 1) by lia. replace (Z.succ k) with (k + 1) by lia.
  rewrite !wv_snoc, IH, Z.mul_add_distr_l, Z.mul_add_distr_l, Z.pow_add_r by lia. lia.
Qed.

Lemma wv_range n f : 0 ≤ n → (∀ i, 0 ≤ i < n → is_word (f i)) → 0 ≤ wv n f < 2 ^ (32 * n).
Proof.
  intros Hn. revert n Hn. apply (natlike_ind (λ n, (∀ i, 0 ≤ i < n → is_word (f i)) → 0 ≤ wv n f < 2 ^ (32 * n)));
    [intros _; rewrite wv_0; done|]. intros n Hn IH H. replace (Z.succ n) with (n + 1) by lia.
  assert (is_word (f n)) as Hf by (apply H; lia). unfold is_word in Hf.
  specialize (IH ltac:(intros; apply H; lia)). rewrite wv_snoc, Z.mul_add_distr_l, Z.pow_add_r by lia.
  change (2 ^ (32 * 1)) with (2 ^ 32). nia.
Qed.

Lemma wv_lnot n f :
  0 ≤ n → (∀ i, 0 ≤ i < n → is_word (f i)) → wv n (λ i, ~w f i) = 2 ^ (32 * n) - 1 - wv n f.
Proof.
  intros Hn. revert n Hn. apply (natlike_ind (λ n, (∀ i, 0 ≤ i < n → is_word (f i)) → wv n (λ i, ~w f i) = 2 ^ (32 * n) - 1 - wv n f));
    [intros _; rewrite !wv_0; done|]. intros n Hn IH H. replace (Z.succ n) with (n + 1) by lia.
  assert (is_word (f n)) as Hf by (apply H; lia). unfold is_word in Hf.
  specialize (IH ltac:(intros; apply H; lia)). rewrite !wv_snoc, IH, Z.mul_add_distr_l, Z.pow_add_r by lia.
  assert (~w f n = 2 ^ 32 - 1 - f n) as ->.
  { unfold u32, Z.lnot. rewrite <-(Z_mod_plus_full _ 1), Z.mod_small; lia. }
  change (2 ^ (32 * 1)) with (2 ^ 32). nia.
Qed.

Lemma wv_upd n l k v :
  0 ≤ k < len l → k < n → wv n (at_ (upd l k v)) = wv n (at_ l) + (v - at_ l k) * 2 ^ (32 * k).
Proof.
  intros Hk Hn. unfold wv. rewrite (sum_update (λ i, at_ l i * 2 ^ (32 * i)) _ _ k).
  - rewrite at_upd, Z.eqb_refl by lia. ring.
  - apply range_NoDup.
  - apply elem_of_range. lia.
  - intros q Hq. destruct (decide (q < 0)); [by rewrite Z.pow_neg_r, !Z.mul_0_r by lia|].
    by rewrite at_upd, (proj2 (Z.eqb_neq q k)) by lia.
Qed.

(** ** Rows of products *)

(** One multiplication step: exact, with the carry below 2^32. *)
Lemma mac_spec a b k xr carry xr' carry' N :
  is_word a → is_word b → is_word carry → Forall is_word xr → len xr = N → 0 ≤ k < N →
  mac a b k (xr, carry) = (xr', carry') →
  is_word carry' ∧ Forall is_word xr' ∧ len xr' = N ∧ (∀ i, 0 ≤ i → i ≠ k → at_ xr' i = at_ xr i) ∧
  wv N (at_ xr') + 2 ^ (32 * (k + 1)) * carry' = wv N (at_ xr) + 2 ^ (32 * k) * (carry + a * b).
Proof.
  intros Ha Hb Hc Hw HN Hk. pose proof (at_word xr k Hw) as Hx. unfold mac. intros [= <- <-].
  assert (0 ≤ a * b ≤ (2 ^ 32 - 1) * (2 ^ 32 - 1)) as Hab by (unfold is_word in *; nia).
  unfold is_word in Ha, Hb, Hc, Hx. rewrite (u64_small (a * b)), (u64_small (at_ xr k + _)), u64_small by lia.
  set (t := carry + (at_ xr k + a * b)). assert (0 ≤ t < 2 ^ 64) as Ht by (unfold t; lia).
  rewrite Z.shiftr_div_pow2 by lia. pose proof (Z.div_mod t (2 ^ 32) ltac:(lia)) as D.
  assert (0 ≤ t / 2 ^ 32 < 2 ^ 32) as B by (split; [apply Z.div_pos; lia|apply Z.div_lt_upper_bound; lia]).
  split; [exact B|]. split; [apply words_upd; [done|apply u32_range]|]. split; [by rewrite len_upd|]. split.
  - intros i Hi Hik. by rewrite at_upd, (proj2 (Z.eqb_neq i k)) by lia.
  - rewrite wv_upd by lia. unfold u32. rewrite Z.mul_add_distr_l, Z.pow_add_r by lia. change (2 ^ (32 * 1)) with (2 ^ 32).
    assert (carry + a * b = 2 ^ 32 * (t / 2 ^ 32) + t mod 2 ^ 32 - at_ xr k) as -> by (rewrite <-D; unfold t; ring). ring.
Qed.

(** The state of a row after [n] steps at offset [i], from [xr0]. *)
Definition row_inv (N c i : Z) (y : Z → Z) (xr0 : list Z) (n : Z) (s : list Z * Z) : Prop :=
  is_word s.2 ∧ Forall is_word s.1 ∧ len s.1 = N ∧
  (∀ k, 0 ≤ k → ¬ (i ≤ k < i + n) → at_ s.1 k = at_ xr0 k) ∧
  wv N (at_ s.1) + 2 ^ (32 * (i + n)) * s.2 = wv N (at_ xr0) + 2 ^ (32 * i) * (c * wv n y).

Lemma row_step N c i y xr0 n s :
  is_word c → is_word (y n) → 0 ≤ i → 0 ≤ n → i + n < N →
  row_inv N c i y xr0 n s → row_inv N c i y xr0 (n + 1) (mac c (y n) (i + n) s).
Proof.
  intros Hc Hy Hi Hn HN (Hcarry & Hw & Hl & Hsame & HV). destruct s as [xr carry]. cbn [fst snd] in *.
  destruct (mac c (y n) (i + n) (xr, carry)) as [xr' carry'] eqn:E.
  apply (mac_spec _ _ _ _ _ _ _ N) in E as (Hc' & Hw' & Hl' & Hs' & HV'); [|done..|lia].
  split_and!; cbn [fst snd]; [done..| |].
  - intros k Hk Hr. rewrite Hs', Hsame by lia. done.
  - replace (i + (n + 1)) with (i + n + 1) by lia. rewrite HV', wv_snoc by lia.
    rewrite (Z.mul_add_distr_l _ carry (c * y n)), Z.add_assoc, HV, (Z.mul_add_distr_l 32 i n), Z.pow_add_r by lia. ring.
Qed.

Lemma row_start N c i y xr : Forall is_word xr → len xr = N → row_inv N c i y xr 0 (xr, 0).
Proof.
  intros Hw Hl. split_and!; cbn [fst snd]; [by compute|done|done|done|]. rewrite wv_0, !Z.mul_0_r. done.
Qed.

(** ** The product *)

Definition L_value : Z := 2 ^ 252 + 27742317777372353535851937790883648493.
Definition R_value : Z := 2 ^ 512 / L_value.

Lemma L_words : Forall is_word L.
Proof. repeat (apply Forall_cons; split; [by compute|]). apply Forall_nil_2. Qed.
Lemma barrett_r_words : Forall is_word barrett_r.
Proof. repeat (apply Forall_cons; split; [by compute|]). apply Forall_nil_2. Qed.
Lemma L_is_value : wv 8 (at_ L) = L_value.
Proof. by vm_compute. Qed.
Lemma barrett_r_value : wv 9 (at_ barrett_r) = R_value.
Proof. by vm_compute. Qed.

Lemma product_spec x :
  Forall is_word x →
  Forall is_word (mod_l_product x) ∧ len (mod_l_product x) = 25 ∧
  wv 25 (at_ (mod_l_product x)) = R_value * wv 16 (at_ x).
Proof.
  intros Hx. rewrite <-barrett_r_value.
  cut (Forall is_word (mod_l_product x) ∧ len (mod_l_product x) = 25 ∧ (∀ k, 9 + 16 ≤ k → at_ (mod_l_product x) k = 0) ∧
    wv 25 (at_ (mod_l_product x)) = wv 9 (at_ barrett_r) * wv 16 (at_ x)).
  { intros (H1 & H2 & _ & H3). exact (conj H1 (conj H2 H3)). }
  unfold mod_l_product. apply (foldl_range_ind (λ i xr, Forall is_word xr ∧ len xr = 25 ∧
    (∀ k, i + 16 ≤ k → at_ xr k = 0) ∧ wv 25 (at_ xr) = wv i (at_ barrett_r) * wv 16 (at_ x))); [lia| |].
  - split_and!; [by apply Forall_replicate|done| |by vm_compute].
    intros k Hk. unfold at_. rewrite nth_lookup. destruct (_ !! _) eqn:E; [by apply lookup_replicate in E as [-> _]|done].
  - intros i xr Hi (Hw & Hl & H0 & HV).
    assert (row_inv 25 (at_ barrett_r i) i (at_ x) xr 16
      (foldl (λ s j, mac (at_ barrett_r i) (at_ x j) (i + j) s) (xr, 0) (range 0 16))) as H.
    { apply (foldl_range_ind (row_inv 25 (at_ barrett_r i) i (at_ x) xr)); [lia|by apply row_start|].
      intros j s Hj. apply row_step; [apply at_word, barrett_r_words|by apply at_word|lia..]. }
    destruct (foldl _ (xr, 0) (range 0 16)) as [xr' carry]. destruct H as (Hc & Hw' & Hl' & Hs & HV'). cbn [fst snd] in *.
    rewrite u32_small by (by unfold is_word in Hc).
    split; [by apply words_upd|]. split; [by rewrite len_upd|]. split.
    + intros k Hk. rewrite at_upd, (proj2 (Z.eqb_neq k (i + 16))), Hs by lia. apply H0. lia.
    + rewrite wv_upd, (Hs (i + 16)), H0, wv_snoc by lia. rewrite Z.sub_0_r, (Z.mul_comm carry), HV', HV. ring.
Qed.

(** ** The multiple of L *)

Lemma mod_shift M a b k : a = b + k * M → a mod M = b mod M.
Proof. intros ->. apply Z_mod_plus_full. Qed.

(** Only the lower 256 bits are kept. *)
Lemma wv_low N f : 8 ≤ N → wv N f mod 2 ^ 256 = wv 8 f mod 2 ^ 256.
Proof.
  intros H. replace N with (8 + (N - 8)) by lia. rewrite wv_split by lia. change (32 * 8) with 256.
  by rewrite (Z.mul_comm (2 ^ 256)), Z_mod_plus_full.
Qed.

Lemma zeroed xr (r := foldl (λ xr i, upd xr i 0) xr (range 0 8)) :
  Forall is_word xr → len xr = 25 →
  Forall is_word r ∧ len r = 25 ∧ (∀ k, 8 ≤ k → at_ r k = at_ xr k) ∧ wv 8 (at_ r) = 0.
Proof.
  intros Hw Hl. apply (foldl_range_ind (λ n r, Forall is_word r ∧ len r = 25 ∧ (∀ k, 8 ≤ k → at_ r k = at_ xr k) ∧ wv n (at_ r) = 0));
    [lia|done|]. clear r. intros i r Hi (Hw' & Hl' & Hs & HV). split; [by apply words_upd|]. split; [by rewrite len_upd|]. split.
  - intros k Hk. rewrite at_upd, (proj2 (Z.eqb_neq k i)) by lia. by apply Hs.
  - rewrite wv_snoc, at_upd, Z.eqb_refl by lia. rewrite (wv_ext _ _ (at_ r)), HV; [lia|].
    intros k Hk. by rewrite at_upd, (proj2 (Z.eqb_neq k i)) by lia.
Qed.

(** Row [i] adds the [i]-th word of the quotient times L, modulo 2^256. *)
Lemma multiple_row xr i (r := (foldl (λ s j, mac (at_ s.1 (i + 16)) (at_ L j) (i + j) s) (xr, 0) (range 0 (8 - i))).1) :
  0 ≤ i < 8 → Forall is_word xr → len xr = 25 →
  Forall is_word r ∧ len r = 25 ∧ (∀ k, 8 ≤ k → at_ r k = at_ xr k) ∧
  wv 25 (at_ r) mod 2 ^ 256 = (wv 25 (at_ xr) + at_ xr (i + 16) * 2 ^ (32 * i) * L_value) mod 2 ^ 256.
Proof.
  intros Hi Hw Hl. set (c := at_ xr (i + 16)). assert (is_word c) as Hc by (by apply at_word).
  assert (row_inv 25 c i (at_ L) xr (8 - i)
    (foldl (λ s j, mac (at_ s.1 (i + 16)) (at_ L j) (i + j) s) (xr, 0) (range 0 (8 - i)))) as H.
  { apply (foldl_range_ind (row_inv 25 c i (at_ L) xr)); [lia|by apply row_start|].
    intros j s Hj Inv. assert (at_ s.1 (i + 16) = c) as -> by (destruct Inv as (_ & _ & _ & Hs & _); apply Hs; lia).
    apply row_step; [done|apply at_word, L_words|lia..|done]. }
  destruct H as (Hc' & Hw' & Hl' & Hs & HV). fold r in Hw', Hl', Hs, HV. split; [done|]. split; [done|].
  split; [intros k Hk; apply Hs; lia|].
  replace (32 * (i + (8 - i))) with 256 in HV by lia. revert HV Hc'. generalize ((foldl (λ s j, mac (at_ s.1 (i + 16)) (at_ L j) (i + j) s)
    (xr, 0) (range 0 (8 - i))).2). intros carry HV _.
  assert (L_value = wv (8 - i) (at_ L) + 2 ^ (32 * (8 - i)) * wv i (λ j, at_ L (8 - i + j))) as ->.
  { rewrite <-wv_split, <-L_is_value by lia. f_equal. lia. }
  assert (2 ^ 256 = 2 ^ (32 * i) * 2 ^ (32 * (8 - i))) as E by (rewrite <-Z.pow_add_r by lia; f_equal; lia).
  apply (mod_shift _ _ _ (- carry - c * wv i (λ j, at_ L (8 - i + j)))). revert HV. rewrite E. intros HV.
  apply (Z.add_cancel_r _ _ (2 ^ (32 * i) * 2 ^ (32 * (8 - i)) * carry)). rewrite HV. ring.
Qed.

Lemma multiple_spec xr :
  Forall is_word xr → len xr = 25 →
  Forall is_word (mod_l_multiple xr) ∧ len (mod_l_multiple xr) = 25 ∧
  wv 8 (at_ (mod_l_multiple xr)) = wv 9 (λ i, at_ xr (16 + i)) * L_value mod 2 ^ 256.
Proof.
  intros Hw Hl. destruct (zeroed xr Hw Hl) as (Zw & Zl & Zs & ZV).
  cut (Forall is_word (mod_l_multiple xr) ∧ len (mod_l_multiple xr) = 25 ∧ (∀ k, 8 ≤ k → at_ (mod_l_multiple xr) k = at_ xr k) ∧
    wv 25 (at_ (mod_l_multiple xr)) mod 2 ^ 256 = wv 8 (λ i, at_ xr (16 + i)) * L_value mod 2 ^ 256).
  { intros (H1 & H2 & _ & H3). split; [exact H1|]. split; [exact H2|]. rewrite wv_low in H3 by lia.
    rewrite Z.mod_small in H3 by (apply (wv_range 8); [lia|]; intros; by apply at_word). rewrite H3. symmetry.
    apply (mod_shift _ _ _ (at_ xr (16 + 8) * L_value)). replace 9 with (8 + 1) by lia. rewrite wv_snoc by lia.
    change (32 * 8) with 256. ring. }
  unfold mod_l_multiple. apply (foldl_range_ind (λ i r, Forall is_word r ∧ len r = 25 ∧ (∀ k, 8 ≤ k → at_ r k = at_ xr k) ∧
    wv 25 (at_ r) mod 2 ^ 256 = wv i (λ i, at_ xr (16 + i)) * L_value mod 2 ^ 256)); [lia| |].
  - split; [exact Zw|]. split; [exact Zl|]. split; [exact Zs|]. rewrite wv_low, ZV by lia. done.
  - intros i r Hi (Rw & Rl & Rs & RV). destruct (multiple_row r i Hi Rw Rl) as (H1 & H2 & H3 & H4).
    split; [exact H1|]. split; [exact H2|]. split; [intros k Hk; rewrite H3, Rs by lia; done|].
    rewrite H4, <-Zplus_mod_idemp_l, RV, Zplus_mod_idemp_l, wv_snoc, (Rs (i + 16)) by lia. f_equal.
    rewrite (Z.add_comm i 16). ring.
Qed.

(** ** Sums with carry *)

(** One addition with carry, where the carry is 0 or 1. *)
Lemma add_carry a b c t :
  is_word a → is_word b → 0 ≤ c ≤ 1 → t = u64 (c + u64 (a + b)) →
  0 ≤ t >>w 32 ≤ 1 ∧ is_word (u32 t) ∧ u32 t + 2 ^ 32 * (t >>w 32) = c + a + b.
Proof.
  unfold is_word. intros Ha Hb Hc ->. rewrite (u64_small (a + b)), u64_small by lia.
  rewrite Z.shiftr_div_pow2 by lia. unfold u32.
  pose proof (Z.div_mod (c + (a + b)) (2 ^ 32) ltac:(lia)). pose proof (Z.mod_pos_bound (c + (a + b)) (2 ^ 32) ltac:(lia)). lia.
Qed.

(** A loop that writes the sum of two numbers over the first words of an array;
    what is added may be read from the array itself, at the word to be written. *)
Definition sum_inv (a b : Z → Z) (c0 : Z) (r0 : list Z) (n : Z) (s : list Z * Z) : Prop :=
  0 ≤ s.2 ≤ 1 ∧ Forall is_word s.1 ∧ len s.1 = len r0 ∧ (∀ k, n ≤ k → at_ s.1 k = at_ r0 k) ∧
  wv n (at_ s.1) + 2 ^ (32 * n) * s.2 = c0 + wv n a + wv n b.

Lemma sum_step a b c0 r0 n r carry t :
  is_word (a n) → is_word (b n) → 0 ≤ n < len r0 → t = u64 (carry + u64 (a n + b n)) →
  sum_inv a b c0 r0 n (r, carry) → sum_inv a b c0 r0 (n + 1) (upd r n (u32 t), t >>w 32).
Proof.
  intros Ha Hb Hn Et (Hc & Hw & Hl & Hs & HV). cbn [fst snd] in *.
  destruct (add_carry _ _ _ _ Ha Hb Hc Et) as (Hc' & Hu & E). split_and!; cbn [fst snd]; [lia..|by apply words_upd|by rewrite len_upd| |].
  - intros k Hk. rewrite at_upd, (proj2 (Z.eqb_neq k n)) by lia. apply Hs. lia.
  - rewrite !wv_snoc, at_upd, Z.eqb_refl by lia. rewrite (wv_ext n _ (at_ r)), Z.mul_add_distr_l, Z.pow_add_r by
      (try lia; intros k Hk; by rewrite at_upd, (proj2 (Z.eqb_neq k n)) by lia).
    change (2 ^ (32 * 1)) with (2 ^ 32).
    replace (c0 + (wv n a + a n * 2 ^ (32 * n)) + (wv n b + b n * 2 ^ (32 * n)))
      with (c0 + wv n a + wv n b + (a n + b n) * 2 ^ (32 * n)) by ring. rewrite <-HV.
    replace (a n + b n) with (u32 t + 2 ^ 32 * (t >>w 32) - carry) by lia. ring.
Qed.

Lemma sum_start a b c0 r : 0 ≤ c0 ≤ 1 → Forall is_word r → sum_inv a b c0 r 0 (r, c0).
Proof. intros Hc Hw. split_and!; cbn [fst snd]; [lia..|done|done|done|]. rewrite !wv_0. change (2 ^ (32 * 0)) with 1. lia. Qed.

Lemma land_word z : is_word z → z &w 0xffffffff = z.
Proof. intros H. change 0xffffffff with (Z.ones 32). rewrite Z.land_ones, Z.mod_small; done. Qed.

Lemma lnot_word z : is_word (~w z).
Proof. apply u32_range. Qed.

Lemma is_above_l_spec x :
  Forall is_word x → is_above_l x = if L_value <=? wv 8 (at_ x) then 1 else 0.
Proof.
  intros Hx. assert (0 ≤ is_above_l x ≤ 1 ∧ ∃ V, 0 ≤ V < 2 ^ (32 * 8) ∧
    V + 2 ^ (32 * 8) * is_above_l x = 1 + wv 8 (at_ x) + wv 8 (λ i, ~w at_ L i)) as (Hc & V & HV & E).
  { unfold is_above_l. apply (foldl_range_ind (λ n c, 0 ≤ c ≤ 1 ∧ ∃ V, 0 ≤ V < 2 ^ (32 * n) ∧
      V + 2 ^ (32 * n) * c = 1 + wv n (at_ x) + wv n (λ i, ~w at_ L i))); [lia|split; [lia|]; exists 0; by vm_compute|].
    intros n c Hn (Hc & V & HV & E). rewrite land_word by apply lnot_word.
    destruct (add_carry _ _ _ _ (at_word x n Hx) (lnot_word (at_ L n)) Hc eq_refl) as (Hc' & Hu & E').
    split; [exact Hc'|]. exists (V + u32 (u64 (c + u64 (at_ x n + ~w at_ L n))) * 2 ^ (32 * n)).
    rewrite !wv_snoc, Z.mul_add_distr_l, Z.pow_add_r by lia. change (2 ^ (32 * 1)) with (2 ^ 32). unfold is_word in Hu. split; [nia|].
    replace (1 + (wv n (at_ x) + at_ x n * 2 ^ (32 * n)) + (wv n (λ i, ~w at_ L i) + ~w at_ L n * 2 ^ (32 * n)))
      with (1 + wv n (at_ x) + wv n (λ i, ~w at_ L i) + (at_ x n + ~w at_ L n) * 2 ^ (32 * n)) by ring. rewrite <-E.
    replace (at_ x n + ~w at_ L n) with (u32 (u64 (c + u64 (at_ x n + ~w at_ L n)))
      + 2 ^ 32 * (u64 (c + u64 (at_ x n + ~w at_ L n)) >>w 32) - c) at 3 by lia. ring. }
  rewrite wv_lnot, L_is_value in E by (try lia; intros; apply at_word, L_words).
  change (32 * 8) with 256 in *. destruct (Z.leb_spec L_value (wv 8 (at_ x))); lia.
Qed.

(** [remove_l] subtracts L once if it can. *)
Lemma remove_l_spec r x :
  Forall is_word r → Forall is_word x → 8 ≤ len r →
  wv 8 (at_ (remove_l r x)) = if L_value <=? wv 8 (at_ x) then wv 8 (at_ x) - L_value else wv 8 (at_ x).
Proof.
  intros Hr Hx Hl. unfold remove_l. rewrite (is_above_l_spec x Hx).
  set (c := if L_value <=? wv 8 (at_ x) then 1 else 0). set (mask := ~w c +w 1).
  assert (∀ z, is_word z → z &w mask = if L_value <=? wv 8 (at_ x) then z else 0) as M.
  { intros z Hz. unfold mask, c. case_match; [by apply land_word|apply Z.land_0_r]. }
  assert (sum_inv (at_ x) (λ i, ~w at_ L i &w mask) c r 8 (foldl (λ '(r, carry) i,
    (upd r i (u32 (u64 (carry + u64 (at_ x i + (~w at_ L i &w mask))))), u64 (carry + u64 (at_ x i + (~w at_ L i &w mask))) >>w 32))
    (r, c) (range 0 8))) as H.
  { apply (foldl_range_ind (sum_inv (at_ x) (λ i, ~w at_ L i &w mask) c r)); [lia|apply sum_start; [unfold c; by case_match|done]|].
    intros n [r' carry] Hn. apply sum_step; [by apply at_word| |lia|done]. rewrite M by apply lnot_word. case_match; [apply lnot_word|by compute]. }
  destruct H as (Hc & Hw & _ & _ & HV). revert Hc Hw HV. generalize (foldl (λ '(r, carry) i,
    (upd r i (u32 (u64 (carry + u64 (at_ x i + (~w at_ L i &w mask))))), u64 (carry + u64 (at_ x i + (~w at_ L i &w mask))) >>w 32))
    (r, c) (range 0 8)).
  intros [r' carry] Hc Hw. cbn [fst snd] in *. pose proof (wv_range 8 (at_ r') ltac:(lia) ltac:(intros; by apply at_word)) as B.
  pose proof (wv_range 8 (at_ x) ltac:(lia) ltac:(intros; by apply at_word)) as Bx.
  rewrite (wv_ext 8 (λ i, ~w at_ L i &w mask) (λ i, if L_value <=? wv 8 (at_ x) then ~w at_ L i else 0)) by (intros; apply M, lnot_word).
  unfold c. case_match eqn:E.
  - rewrite wv_lnot, L_is_value by (try lia; intros; apply at_word, L_words). apply Z.leb_le in E.
    assert (0 < L_value) by done. change (32 * 8) with 256 in *. lia.
  - change (wv 8 (λ _, 0)) with 0. change (32 * 8) with 256 in *. lia.
Qed.

Lemma difference_spec x xr :
  Forall is_word x → Forall is_word xr → len xr = 25 →
  Forall is_word (mod_l_difference x xr) ∧ len (mod_l_difference x xr) = 25 ∧
  wv 8 (at_ (mod_l_difference x xr)) = (wv 8 (at_ x) - wv 8 (at_ xr)) mod 2 ^ 256.
Proof.
  intros Hx Hxr Hl. unfold mod_l_difference.
  assert (sum_inv (at_ x) (λ i, ~w at_ xr i) 1 xr 8 (foldl (λ '(xr, carry) i,
     (upd xr i (u32 (u64 (carry + u64 (at_ x i + (~w at_ xr i &w 0xffffffff))))),
      u64 (carry + u64 (at_ x i + (~w at_ xr i &w 0xffffffff))) >>w 32)) (xr, 1) (range 0 8))) as H.
  { apply (foldl_range_ind (sum_inv (at_ x) (λ i, ~w at_ xr i) 1 xr)); [lia|by apply sum_start|].
    intros n [r' carry] Hn Inv. apply (sum_step _ _ _ _ _ _ carry); [by apply at_word|apply lnot_word|lia| |done].
    rewrite land_word by apply lnot_word. destruct Inv as (_ & _ & _ & Hs & _). cbn [fst] in Hs. by rewrite Hs by lia. }
  revert H. generalize (foldl (λ '(xr, carry) i, (upd xr i (u32 (u64 (carry + u64 (at_ x i + (~w at_ xr i &w 0xffffffff))))),
      u64 (carry + u64 (at_ x i + (~w at_ xr i &w 0xffffffff))) >>w 32)) (xr, 1) (range 0 8)).
  intros [r c] (Hc & Hw & Hl' & _ & HV). cbn [fst snd] in *. split; [done|]. split; [lia|].
  rewrite wv_lnot in HV by (try lia; intros; by apply at_word).
  pose proof (wv_range 8 (at_ r) ltac:(lia) ltac:(intros; by apply at_word)) as B. change (32 * 8) with 256 in *.
  rewrite <-(Z.mod_small (wv 8 (at_ r)) (2 ^ 256)) by lia. apply (mod_shift _ _ _ (1 - c)). lia.
Qed.

(** ** The reduction *)

(** The estimate of the quotient is right or one too small. *)
Lemma barrett X q :
  0 ≤ X < 2 ^ 512 → q = R_value * X / 2 ^ 512 → 0 ≤ X - q * L_value < 2 * L_value.
Proof.
  intros HX ->. assert (R_value * L_value ≤ 2 ^ 512 < (R_value + 1) * L_value) as [R1 R2] by (by vm_compute).
  assert (0 < L_value) as HL by done. assert (0 ≤ R_value) as HR by done.
  pose proof (Z.div_mod (R_value * X) (2 ^ 512) ltac:(done)) as D.
  pose proof (Z.mod_pos_bound (R_value * X) (2 ^ 512) ltac:(done)) as M. revert D M.
  generalize (R_value * X / 2 ^ 512), ((R_value * X) mod 2 ^ 512). intros q m D M.
  revert HX R1 R2 HL HR D M. generalize R_value, L_value. intros R Lv HX R1 R2 HL HR D M.
  split.
  - apply (Z.mul_le_mono_pos_l _ _ (2 ^ 512)); [lia|]. assert (2 ^ 512 * q * Lv ≤ 2 ^ 512 * X) by nia. lia.
  - apply (Z.mul_lt_mono_pos_l (2 ^ 512)); [lia|]. assert (2 ^ 512 * X < R * X * Lv + 2 ^ 512 * Lv) by nia.
    assert (R * X * Lv < 2 ^ 512 * q * Lv + 2 ^ 512 * Lv) by nia. lia.
Qed.

Lemma at_cons a l i : 0 < i → at_ (a :: l) i = at_ l (i - 1).
Proof. intros H. unfold at_. replace (Z.to_nat i) with (S (Z.to_nat (i - 1))) by lia. done. Qed.

Lemma load32_drop a b c e s i : 0 ≤ i → load32_le (a :: b :: c :: e :: s) (i + 4) = load32_le s i.
Proof. intros H. unfold load32_le. rewrite !at_cons by lia. repeat f_equal; lia. Qed.

Lemma le_value_words (n : nat) s :
  Forall is_byte s → length s = (4 * n)%nat → le_value s = wv (Z.of_nat n) (λ i, load32_le s (i * 4)).
Proof.
  revert s. induction n as [|n IH]; intros s Hs Hl; [by destruct s|].
  do 4 (destruct s as [|? s]; [cbn in Hl; lia|]). rewrite Nat2Z.inj_succ, <-Z.add_1_l, wv_split by lia.
  pose proof Hs as Hs'. rewrite !Forall_cons in Hs'. destruct Hs' as (_ & _ & _ & _ & Hs').
  rewrite (wv_ext _ (λ i, load32_le _ ((1 + i) * 4)) (λ i, load32_le s (i * 4))) by
    (intros i Hi; replace ((1 + i) * 4) with (i * 4 + 4) by lia; apply load32_drop; lia).
  rewrite <-IH by (done || (cbn in Hl; lia)). change (wv 1 (λ i, load32_le (z :: z0 :: z1 :: z2 :: s) (i * 4)))
    with (load32_le (z :: z0 :: z1 :: z2 :: s) 0 * 1 + 0). rewrite load32_value by done.
  change (2 ^ (32 * 1)) with 4294967296. cbn [le_value foldr]. fold (le_value s).
  change (at_ (z :: z0 :: z1 :: z2 :: s) 0) with z. change (at_ (z :: z0 :: z1 :: z2 :: s) (0 + 1)) with z0.
  change (at_ (z :: z0 :: z1 :: z2 :: s) (0 + 2)) with z1. change (at_ (z :: z0 :: z1 :: z2 :: s) (0 + 3)) with z2. lia.
Qed.

Lemma at_map_range f n i : 0 ≤ i < n → at_ (map f (range 0 n)) i = f i.
Proof.
  intros H. unfold at_, range. erewrite nth_lookup_Some; [reflexivity|]. rewrite list_lookup_fmap.
  rewrite lookup_seqZ_lt by lia. cbn. f_equal. f_equal. lia.
Qed.

Lemma load_buf_spec s n :
  Forall is_byte s → len s = 4 * n → 0 ≤ n →
  Forall is_word (load32_le_buf s n) ∧ wv n (at_ (load32_le_buf s n)) = le_value s.
Proof.
  intros Hs Hl Hn. split.
  - apply Forall_map, Forall_true. intros i. apply load32_le_range. done.
  - rewrite (le_value_words (Z.to_nat n)), Z2Nat.id by (done || lia || (unfold len in Hl; lia)).
    apply wv_ext. intros i Hi. unfold load32_le_buf. by rewrite at_map_range.
Qed.

Lemma store_buf_spec r n :
  Forall is_word r → 0 ≤ n →
  Forall is_byte (store32_le_buf r n) ∧ len (store32_le_buf r n) = 4 * n ∧ le_value (store32_le_buf r n) = wv n (at_ r).
Proof.
  intros Hr Hn. revert n Hn. apply natlike_ind; [done|]. intros n Hn (H1 & H2 & H3).
  replace (Z.succ n) with (n + 1) by lia. unfold store32_le_buf in *. rewrite range_snoc, map_app, concat_app by lia.
  cbn [map concat]. rewrite app_nil_r. destruct (store32_bytes (at_ r n)) as [B Bl]. split; [by apply Forall_app|].
  split; [rewrite len_app; lia|]. rewrite le_value_app, H2, H3, store32_value, wv_snoc by (by try apply at_word).
  change 256 with (2 ^ 8). rewrite <-Z.pow_mul_r by lia. replace (8 * (4 * n)) with (32 * n) by lia. ring.
Qed.

Lemma remove_l_words x : Forall is_word x → Forall is_word (remove_l x x).
Proof.
  intros H. unfold remove_l. apply (foldl_range_ind (λ _ s, Forall is_word s.1)); [lia|done|].
  intros i [r c] _ Hr. apply words_upd; [done|apply u32_range].
Qed.

#[local] Opaque mod_l_product mod_l_multiple mod_l_difference remove_l.

Lemma mod_l_value x :
  Forall is_word x →
  let r := remove_l (mod_l_difference x (mod_l_multiple (mod_l_product x))) (mod_l_difference x (mod_l_multiple (mod_l_product x))) in
  Forall is_word r ∧ wv 8 (at_ r) = wv 16 (at_ x) mod L_value.
Proof.
  intros Hx. destruct (product_spec x Hx) as (Pw & Pl & PV). destruct (multiple_spec _ Pw Pl) as (Mw & Ml & MV).
  destruct (difference_spec x _ Hx Mw Ml) as (Dw & Dl & DV). intros r. split; [by apply remove_l_words|].
  unfold r. rewrite remove_l_spec; [|exact Dw|exact Dw|lia]. clear r. rewrite DV, MV. clear DV MV.
  assert (0 ≤ wv 16 (at_ x) < 2 ^ 512) as BX by (apply (wv_range 16); [lia|]; intros; by apply at_word).
  assert (wv 9 (λ i, at_ (mod_l_product x) (16 + i)) = R_value * wv 16 (at_ x) / 2 ^ 512) as ->.
  { rewrite <-PV. change 25 with (16 + 9). rewrite wv_split by lia. change (32 * 16) with 512.
    pose proof (wv_range 16 (at_ (mod_l_product x)) ltac:(lia) (λ i _, at_word _ i Pw)) as B. change (32 * 16) with 512 in B.
    revert B. generalize (wv 16 (at_ (mod_l_product x))), (wv 9 (λ i, at_ (mod_l_product x) (16 + i))). intros lo q B.
    apply (Z.div_unique_pos _ _ _ lo); [exact B|ring]. }
  remember (R_value * wv 16 (at_ x) / 2 ^ 512) as q eqn:Eq. pose proof (barrett _ q BX Eq) as B. clear Eq.
  assert ((wv 8 (at_ x) - (q * L_value) mod 2 ^ 256) mod 2 ^ 256 = wv 16 (at_ x) - q * L_value) as ->.
  { rewrite Zminus_mod_idemp_r, <-Zminus_mod_idemp_l, <-(wv_low 16) by lia. rewrite Zminus_mod_idemp_l.
    apply Z.mod_small. assert (2 * L_value < 2 ^ 256) by done. lia. }
  destruct (Z.leb_spec L_value (wv 16 (at_ x) - q * L_value)).
  - apply (Z.mod_unique_pos _ _ (q + 1)); lia.
  - apply (Z.mod_unique_pos _ _ q); lia.
Qed.

(** ** Theorem *)

(** C39: [crypto_eddsa_reduce] is reduction modulo the group order: for every
    512-bit number given as 64 bytes it returns the 32 bytes, least significant
    first, of the remainder modulo 2^252 + 27742317777372353535851937790883648493.
    The 64-bit carries never overflow, the truncated products and the subtraction
    modulo 2^256 are exact, and the estimated quotient is at most one too small, so
    that the single conditional subtraction of [remove_l] completes the
    reduction; [is_above_l] decides whether a 256-bit number is at least the order. *)
Theorem crypto_eddsa_reduce_exact expanded s :
  Forall is_byte expanded → len expanded = 64 → Forall is_byte s → len s = 32 →
  len (crypto_eddsa_reduce expanded) = 32 ∧ Forall is_byte (crypto_eddsa_reduce expanded) ∧
  le_value (crypto_eddsa_reduce expanded) = le_value expanded mod L_value ∧
  is_above_l (load32_le_buf s 8) = if L_value <=? le_value s then 1 else 0.
Proof.
  intros Hb Hl Hs Hls. destruct (load_buf_spec expanded 16 Hb ltac:(lia) ltac:(lia)) as [Xw XV].
  destruct (mod_l_value _ Xw) as [Rw RV]. unfold crypto_eddsa_reduce, mod_l.
  destruct (store_buf_spec _ 8 Rw ltac:(lia)) as (Sb & Sl & SV). split; [exact Sl|]. split; [exact Sb|].
  split; [rewrite SV, RV, XV; reflexivity|].
  destruct (load_buf_spec s 8 Hs ltac:(lia) ltac:(lia)) as [Yw YV]. rewrite (is_above_l_spec _ Yw), YV. reflexivity.
Qed.

Lemma crypto_eddsa_reduce_exact_witness :
  le_value (crypto_eddsa_reduce (demo_bytes ++ demo_bytes)) = le_value (demo_bytes ++ demo_bytes) mod L_value ∧
  is_above_l (load32_le_buf demo_bytes 8) = 1.
Proof.
  destruct (crypto_eddsa_reduce_exact (demo_bytes ++ demo_bytes) demo_bytes) as (_ & _ & H & A);
    [by apply Forall_app; split; apply demo_bytes_ok|reflexivity|apply demo_bytes_ok|reflexivity|].
  split; [exact H|]. rewrite A. vm_compute. reflexivity.
Defined.
