(* ===== verification/Workqueue.v ===== *)
(** * The kernel work queue: src/core/workqueue.c

    Work items are structures of the clients, linked into two first-in first-out
    queues by priority and into a list of delayed items by deadline; a worker takes
    items from the queues and runs their callbacks.

    The state holds the service, the work structures by address (0 is the null
    pointer) and what the code reads of the rest of the kernel: the tick counter,
    the process and thread tables, the interrupt flag and whether the calls of
    wait.c succeed.  A call runs with interrupts disabled where the code disables
    them, so calls do not overlap; a callback is any code of the client, given by
    the calls it makes while it runs.  Log lines are not modelled. *)

From stdpp Require Import gmap.
From S2P Require Import Prelude Registry.

(** ** Data *)

Definition WORKQUEUE_CAPACITY : Z := 64.
Definition WORKQUEUE_OWNER_SIZE : Z := 24.
Definition WORKQUEUE_HIGH_BUDGET : Z := 8.
Definition WORKQUEUE_NORMAL_BUDGET : Z := 4.
Definition WORKQUEUE_MAX_DELAY_TICKS : Z := 0x7FFFFFFF.
Definition WORKQUEUE_ID_SLOT_BITS : Z := 8.
Definition WORKQUEUE_ID_SLOT_MASK : Z := 0xFF.
Definition WORKQUEUE_ID_GENERATION_MAX : Z := 0x00FFFFFF.
Definition WAIT_TIMEOUT_INFINITE : Z := 0xFFFFFFFF.

Definition WORK_PRIORITY_HIGH : Z := 0.
Definition WORK_PRIORITY_NORMAL : Z := 1.
Definition WORK_PRIORITY_COUNT : Z := 2.

Inductive work_state_t := WORK_STATE_IDLE | WORK_STATE_READY | WORK_STATE_DELAYED | WORK_STATE_RUNNING.
#[export] Instance work_state_eq_dec : EqDecision work_state_t.
Proof. solve_decision. Defined.

Inductive work_context_t := WORK_CONTEXT_NONE | WORK_CONTEXT_KWORKER | WORK_CONTEXT_SYSTEM_FALLBACK.

Inductive workqueue_worker_target_t := WORKER_TARGET_NONE | WORKER_TARGET_PROCESS | WORKER_TARGET_THREAD.
#[export] Instance worker_target_eq_dec : EqDecision workqueue_worker_target_t.
Proof. solve_decision. Defined.

Record work_struct_t := Work {
  w_previous : Z; w_next : Z; w_callback : Z; w_context : Z; w_owner : list Z; w_id : Z;
  w_deadline_tick : Z; w_rerun_deadline_tick : Z; w_scheduled : Z; w_executed : Z; w_coalesced : Z;
  w_reruns : Z; w_cancellations : Z; w_callback_ticks : Z; w_max_callback_ticks : Z;
  w_last_error : status; w_priority : Z; w_state : work_state_t; w_registry_slot : Z;
  w_initialized : bool; w_cancel_requested : bool; w_rerun_requested : bool; w_rerun_delayed : bool;
  w_ready_tick : Z
}.
#[export] Instance work_eta : Eta work_struct_t := λ r,
  Work (w_previous r) (w_next r) (w_callback r) (w_context r) (w_owner r) (w_id r)
    (w_deadline_tick r) (w_rerun_deadline_tick r) (w_scheduled r) (w_executed r) (w_coalesced r)
    (w_reruns r) (w_cancellations r) (w_callback_ticks r) (w_max_callback_ticks r)
    (w_last_error r) (w_priority r) (w_state r) (w_registry_slot r)
    (w_initialized r) (w_cancel_requested r) (w_rerun_requested r) (w_rerun_delayed r) (w_ready_tick r).
(** After [kmemset] with zeros. *)
Definition work_zero : work_struct_t :=
  Work 0 0 0 0 (replicate 24 0) 0 0 0 0 0 0 0 0 0 0 OK WORK_PRIORITY_HIGH WORK_STATE_IDLE 0 false false false false 0.

Record workqueue_stats_t := WqStats {
  q_initialized : bool; q_worker_bound : bool; q_worker_active : bool; q_fallback_active : bool;
  q_worker_pid : Z; q_execution_context : work_context_t; q_capacity : Z; q_registered : Z;
  q_ready_high : Z; q_ready_normal : Z; q_delayed : Z; q_running : Z; q_scheduled : Z; q_executed : Z;
  q_coalesced : Z; q_reruns : Z; q_cancelled : Z; q_rejected : Z; q_callback_errors : Z;
  q_context_errors : Z; q_invariant_errors : Z; q_wakeups : Z; q_wake_errors : Z; q_sleeps : Z;
  q_peak_pending : Z; q_total_callback_ticks : Z; q_max_callback_ticks : Z; q_last_error : status;
  q_dispatch_latency_samples : Z; q_dispatch_latency_total_ticks : Z; q_max_dispatch_latency_ticks : Z;
  q_worker_tid : Z; q_worker_thread_generation : Z; q_worker_process_generation : Z;
  q_worker_target : workqueue_worker_target_t
}.
#[export] Instance wq_stats_eta : Eta workqueue_stats_t := λ r,
  WqStats (q_initialized r) (q_worker_bound r) (q_worker_active r) (q_fallback_active r)
    (q_worker_pid r) (q_execution_context r) (q_capacity r) (q_registered r)
    (q_ready_high r) (q_ready_normal r) (q_delayed r) (q_running r) (q_scheduled r) (q_executed r)
    (q_coalesced r) (q_reruns r) (q_cancelled r) (q_rejected r) (q_callback_errors r)
    (q_context_errors r) (q_invariant_errors r) (q_wakeups r) (q_wake_errors r) (q_sleeps r)
    (q_peak_pending r) (q_total_callback_ticks r) (q_max_callback_ticks r) (q_last_error r)
    (q_dispatch_latency_samples r) (q_dispatch_latency_total_ticks r) (q_max_dispatch_latency_ticks r)
    (q_worker_tid r) (q_worker_thread_generation r) (q_worker_process_generation r) (q_worker_target r).
Definition wq_stats_zero : workqueue_stats_t :=
  WqStats false false false false 0 WORK_CONTEXT_NONE 0 0 0 0 0 0 0 0 0 0 0 0 0 0 0 0 0 0 0 0 0 OK 0 0 0 0 0 0
    WORKER_TARGET_NONE.

(** What the code reads of processes and threads. *)
Inductive process_state_t :=
| PROCESS_STATE_UNUSED | PROCESS_STATE_READY | PROCESS_STATE_RUNNING | PROCESS_STATE_BLOCKED | PROCESS_STATE_ZOMBIE.
Record process_t := Process { p_pid : Z; p_event_generation : Z; p_state : process_state_t }.
Inductive thread_state_t := THREAD_UNUSED | THREAD_RUNNING | THREAD_BLOCKED | THREAD_FINISHED.
Record thread_t := Thread { t_id : Z; t_generation : Z; t_kernel_service : bool; t_state : thread_state_t }.

Record kernel_t := Kernel {
  current_tick : Z;
  processes : list (option process_t);
  current_process : option process_t;
  threads : list (option thread_t);
  current_thread : option thread_t;
  interrupts_enabled : bool;
  wait_ok : bool
}.

(** [workqueue_service_t], with the memory of the work structures.  [sv_main] says
    whether it is the service of the kernel or the one of the self test. *)
Record wq_t := Wq {
  sv_main : bool;
  wq_registry : list Z;
  wq_generations : list Z;
  owner_pids : list Z;
  owner_generations : list Z;
  ready_first : list Z;
  ready_last : list Z;
  delayed_first : Z;
  delayed_last : Z;
  wait_queue_initialized : bool;
  power_quiescing : bool;
  worker_generation : Z;
  worker_thread_generation : Z;
  wq_stats : workqueue_stats_t;
  works : gmap Z work_struct_t;
  kernel : kernel_t
}.
#[export] Instance wq_eta : Eta wq_t := λ r,
  Wq (sv_main r) (wq_registry r) (wq_generations r) (owner_pids r) (owner_generations r) (ready_first r)
    (ready_last r) (delayed_first r) (delayed_last r) (wait_queue_initialized r) (power_quiescing r)
    (worker_generation r) (worker_thread_generation r) (wq_stats r) (works r) (kernel r).

Definition work_at (s : wq_t) (p : Z) : work_struct_t := default work_zero (works s !! p).
Definition put (s : wq_t) (p : Z) (f : work_struct_t → work_struct_t) : wq_t :=
  s <| works ::= <[p := f (work_at s p)]> |>.
Definition stat (s : wq_t) (f : workqueue_stats_t → workqueue_stats_t) : wq_t := s <| wq_stats ::= f |>.
(** [field++] and [if (field) field--]. *)
Definition inc (n : Z) : Z := n +w 1.
Definition dec_if (n : Z) : Z := if n =? 0 then n else n -w 1.

(** ** The rest of the kernel *)

Definition timer_get_ticks (s : wq_t) : Z := current_tick (kernel s).
Definition process_get_current (s : wq_t) : option process_t := current_process (kernel s).
Definition process_get_current_pid (s : wq_t) : Z :=
  match current_process (kernel s) with Some p => p_pid p | None => 0 end.
Fixpoint find_process (pid : Z) (l : list (option process_t)) : option process_t :=
  match l with
  | [] => None
  | Some p :: l => if p_pid p =? pid then Some p else find_process pid l
  | None :: l => find_process pid l
  end.
Definition process_get_by_pid (s : wq_t) (pid : Z) : option process_t := find_process pid (processes (kernel s)).
Definition thread_get_current (s : wq_t) : option thread_t := current_thread (kernel s).
Fixpoint find_thread (id : Z) (l : list (option thread_t)) : option thread_t :=
  match l with
  | [] => None
  | Some t :: l => if t_id t =? id then Some t else find_thread id l
  | None :: l => find_thread id l
  end.
Definition thread_get_by_id (s : wq_t) (id : Z) : option thread_t := find_thread id (threads (kernel s)).

(** [state != PROCESS_STATE_UNUSED && state != PROCESS_STATE_ZOMBIE] *)
Definition process_alive (p : process_t) : bool :=
  match p_state p with PROCESS_STATE_UNUSED | PROCESS_STATE_ZOMBIE => false | _ => true end.
(** [state == THREAD_RUNNING || state == THREAD_BLOCKED] *)
Definition thread_alive (t : thread_t) : bool :=
  match t_state t with THREAD_RUNNING | THREAD_BLOCKED => true | _ => false end.

(** ** Owners and deadlines *)

Definition workqueue_deadline_reached (now deadline : Z) : bool := i32 (now - deadline) >=? 0.

(** [while (length < WORKQUEUE_OWNER_SIZE && owner[length]) length++;] *)
Fixpoint owner_length (fuel : nat) (owner : list Z) (length : Z) : Z :=
  match fuel with
  | O => length
  | S fuel => if at_ owner length =? 0 then length else owner_length fuel owner (length + 1)
  end.
Definition workqueue_owner_valid (owner : list Z) : bool :=
  if at_ owner 0 =? 0 then false else owner_length 24 owner 0 <? WORKQUEUE_OWNER_SIZE.

Fixpoint copy_owner_loop (fuel : nat) (destination source : list Z) (index : Z) : list Z :=
  match fuel with
  | O => upd destination index 0
  | S fuel =>
      if at_ source index =? 0 then upd destination index 0
      else copy_owner_loop fuel (upd destination index (at_ source index)) source (index + 1)
  end.
Definition workqueue_copy_owner (destination source : list Z) : list Z := copy_owner_loop 23 destination source 0.

Definition workqueue_capture_owner (s : wq_t) (slot : Z) : wq_t :=
  if slot >=? WORKQUEUE_CAPACITY then s else
  let s := s <| owner_pids ::= λ l, upd l slot 0 |> <| owner_generations ::= λ l, upd l slot 0 |> in
  if negb (sv_main s) then s else
  let pid := process_get_current_pid s in
  match (if pid =? 0 then None else process_get_by_pid s pid) with
  | None => s
  | Some process =>
      if (p_pid process =? 0) || (p_event_generation process =? 0) || negb (process_alive process) then s
      else s <| owner_pids ::= λ l, upd l slot (p_pid process) |>
             <| owner_generations ::= λ l, upd l slot (p_event_generation process) |>
  end.

Definition workqueue_owner_is_live (s : wq_t) (slot : Z) : bool :=
  if slot >=? WORKQUEUE_CAPACITY then false else
  let pid := at_ (owner_pids s) slot in
  let generation := at_ (owner_generations s) slot in
  if pid =? 0 then generation =? 0 else
  if generation =? 0 then false else
  match process_get_by_pid s pid with
  | None => false
  | Some process => (p_event_generation process =? generation) && process_alive process
  end.

(** ** Lists *)

Definition workqueue_pending_count (s : wq_t) : Z :=
  q_ready_high (wq_stats s) +w q_ready_normal (wq_stats s) +w q_delayed (wq_stats s) +w q_running (wq_stats s).

Definition workqueue_update_peak (s : wq_t) : wq_t :=
  let pending := workqueue_pending_count s in
  if pending >? q_peak_pending (wq_stats s) then stat s (set q_peak_pending (λ _, pending)) else s.

Definition workqueue_service_clear (s : wq_t) : wq_t :=
  let zeros := replicate 64 0 in
  Wq (sv_main s) zeros zeros zeros zeros [0; 0] [0; 0] 0 0 false false 0 0
    (wq_stats_zero <| q_capacity := WORKQUEUE_CAPACITY |>) (works s) (kernel s).

Definition is_delayed (w : work_struct_t) : bool :=
  match w_state w with WORK_STATE_DELAYED => true | _ => false end.

(** [*first] and [*last] of the list the work is on. *)
Definition set_first (s : wq_t) (w : work_struct_t) (p : Z) : wq_t :=
  if is_delayed w then s <| delayed_first := p |> else s <| ready_first ::= λ l, upd l (w_priority w) p |>.
Definition set_last (s : wq_t) (w : work_struct_t) (p : Z) : wq_t :=
  if is_delayed w then s <| delayed_last := p |> else s <| ready_last ::= λ l, upd l (w_priority w) p |>.

(** The counter of the list the work is on. *)
Definition count_removed (s : wq_t) (w : work_struct_t) : wq_t :=
  if is_delayed w then stat s (set q_delayed dec_if)
  else if (w_priority w =? WORK_PRIORITY_HIGH) && negb (q_ready_high (wq_stats s) =? 0)
  then stat s (set q_ready_high dec_if)
  else if w_priority w =? WORK_PRIORITY_NORMAL then stat s (set q_ready_normal dec_if) else s.

Definition workqueue_list_remove (s : wq_t) (work : Z) : wq_t :=
  let w := work_at s work in
  let s := count_removed s w in
  let s := if w_previous w =? 0 then set_first s w (w_next w) else put s (w_previous w) (set w_next (λ _, w_next w)) in
  let s := if w_next w =? 0 then set_last s w (w_previous w) else put s (w_next w) (set w_previous (λ _, w_previous w)) in
  put s work (λ w, w <| w_previous := 0 |> <| w_next := 0 |>).

Definition workqueue_ready_append (s : wq_t) (work : Z) : wq_t :=
  let priority := w_priority (work_at s work) in
  let tick := timer_get_ticks s in
  let last := at_ (ready_last s) priority in
  let s := put s work (λ w, w <| w_ready_tick := tick |> <| w_previous := last |> <| w_next := 0 |>) in
  let s := if last =? 0 then s <| ready_first ::= λ l, upd l priority work |>
           else put s last (set w_next (λ _, work)) in
  let s := s <| ready_last ::= λ l, upd l priority work |> in
  let s := put s work (set w_state (λ _, WORK_STATE_READY)) in
  let s := if priority =? WORK_PRIORITY_HIGH then stat s (set q_ready_high inc) else stat s (set q_ready_normal inc) in
  workqueue_update_peak s.

(** The loop that looks for the first work due later; 0 at the end of the list. *)
Fixpoint delayed_search (fuel : nat) (s : wq_t) (current remaining now : Z) : Z :=
  match fuel with
  | O => 0
  | S fuel =>
      if current =? 0 then 0
      else if w_deadline_tick (work_at s current) -w now >? remaining then current
      else delayed_search fuel s (w_next (work_at s current)) remaining now
  end.

Definition workqueue_delayed_insert (s : wq_t) (work now : Z) : wq_t :=
  let remaining := w_deadline_tick (work_at s work) -w now in
  let current := delayed_search 65 s (delayed_first s) remaining now in
  let s :=
    if current =? 0 then
      let last := delayed_last s in
      let s := put s work (λ w, w <| w_previous := last |> <| w_next := 0 |>) in
      let s := if last =? 0 then s <| delayed_first := work |> else put s last (set w_next (λ _, work)) in
      s <| delayed_last := work |>
    else
      let previous := w_previous (work_at s current) in
      let s := put s work (λ w, w <| w_previous := previous |> <| w_next := current |>) in
      let s := if previous =? 0 then s <| delayed_first := work |> else put s previous (set w_next (λ _, work)) in
      put s current (set w_previous (λ _, work)) in
  let s := put s work (set w_state (λ _, WORK_STATE_DELAYED)) in
  let s := stat s (set q_delayed inc) in
  workqueue_update_peak s.

Fixpoint promote_loop (fuel : nat) (s : wq_t) (now : Z) : wq_t :=
  match fuel with
  | O => s
  | S fuel =>
      let work := delayed_first s in
      if negb (work =? 0) && workqueue_deadline_reached now (w_deadline_tick (work_at s work))
      then promote_loop fuel (workqueue_ready_append (workqueue_list_remove s work) work) now
      else s
  end.
Definition workqueue_promote_due (s : wq_t) (now : Z) : wq_t := promote_loop 65 s now.

(** ** Registration *)

Definition workqueue_next_generation (generation : Z) : Z :=
  let generation := inc generation in
  if (generation =? 0) || (generation >? WORKQUEUE_ID_GENERATION_MAX) then 1 else generation.

(** The work in a free slot. *)
Definition register_in (s : wq_t) (slot work : Z) (owner : list Z) (priority callback context : Z) : wq_t :=
  let s := put s work (λ _, work_zero) in
  let s := s <| wq_generations ::= λ l, upd l slot (workqueue_next_generation (at_ l slot)) |> in
  let id := (at_ (wq_generations s) slot <<w WORKQUEUE_ID_SLOT_BITS) |w (slot +w 1) in
  let s := put s work (λ w, w <| w_id := id |> <| w_registry_slot := u8 slot |> <| w_callback := callback |>
    <| w_context := context |> <| w_priority := priority |> <| w_state := WORK_STATE_IDLE |>
    <| w_initialized := true |> <| w_last_error := OK |> <| w_owner ::= λ o, workqueue_copy_owner o owner |>) in
  let s := s <| wq_registry ::= λ l, upd l slot work |> in
  let s := workqueue_capture_owner s slot in
  stat s (set q_registered inc).

Definition workqueue_register_on (s : wq_t) (work : Z) (owner : list Z) (priority callback context : Z) : wq_t * status :=
  if (work =? 0) || (callback =? 0) then (s, ERR_NULL) else
  if negb (workqueue_owner_valid owner) || (priority >=? WORK_PRIORITY_COUNT) then (s, ERR_INVALID) else
  if negb (q_initialized (wq_stats s)) then (s, ERR_STATE) else
  if sv_main s && power_quiescing s then (s, ERR_UNAVAILABLE) else
  match find_slot work (wq_registry s), find_slot 0 (wq_registry s) with
  | Some _, _ => (s, ERR_STATE)
  | None, None => (stat s (λ q, q <| q_rejected ::= inc |> <| q_last_error := ERR_OVERFLOW |>), ERR_OVERFLOW)
  | None, Some n => (register_in s (Z.of_nat n) work owner priority callback context, OK)
  end.

(** [!work->initialized || registry_slot >= CAPACITY || registry[slot] != work] *)
Definition not_registered (s : wq_t) (work : Z) : bool :=
  let w := work_at s work in
  negb (w_initialized w) || (w_registry_slot w >=? WORKQUEUE_CAPACITY) ||
  negb (at_ (wq_registry s) (w_registry_slot w) =? work).

(** ** Scheduling *)

Definition workqueue_notify (s : wq_t) : wq_t :=
  if negb (sv_main s) || negb (wait_queue_initialized s) then s else
  let s := stat s (set q_wakeups inc) in
  if wait_ok (kernel s) then s
  else stat s (λ q, q <| q_wake_errors ::= inc |> <| q_last_error := ERR_STATE |>).

Definition count_coalesced (s : wq_t) (work : Z) : wq_t :=
  stat (put s work (set w_coalesced inc)) (set q_coalesced inc).

Definition schedule_delayed_again (s : wq_t) (work now deadline delay_ticks : Z) : wq_t :=
  if delay_ticks =? 0 then workqueue_ready_append (workqueue_list_remove s work) work
  else if i32 (deadline - w_deadline_tick (work_at s work)) <? 0 then
    let s := workqueue_list_remove s work in
    let s := put s work (set w_deadline_tick (λ _, deadline)) in
    workqueue_delayed_insert s work now
  else s.

Definition schedule_running_again (w : work_struct_t) (deadline delay_ticks : Z) : work_struct_t :=
  if negb (w_rerun_requested w) || (delay_ticks =? 0) then
    w <| w_rerun_requested := true |> <| w_rerun_delayed := negb (delay_ticks =? 0) |> <| w_rerun_deadline_tick := deadline |>
  else if w_rerun_delayed w && (i32 (deadline - w_rerun_deadline_tick w) <? 0) then
    w <| w_rerun_deadline_tick := deadline |>
  else w.

(** The switch on the state of the work. *)
Definition schedule_switch (s : wq_t) (work now delay_ticks : Z) : wq_t :=
  let deadline := now +w delay_ticks in
  match w_state (work_at s work) with
  | WORK_STATE_READY => count_coalesced s work
  | WORK_STATE_DELAYED => schedule_delayed_again (count_coalesced s work) work now deadline delay_ticks
  | WORK_STATE_RUNNING => put (count_coalesced s work) work (λ w, schedule_running_again w deadline delay_ticks)
  | WORK_STATE_IDLE =>
      let s := put s work (λ w, w <| w_cancel_requested := false |> <| w_scheduled ::= inc |>) in
      let s := stat s (set q_scheduled inc) in
      let s := if delay_ticks =? 0 then workqueue_ready_append s work
               else workqueue_delayed_insert (put s work (set w_deadline_tick (λ _, deadline))) work now in
      stat s (set q_last_error (λ _, OK))
  end.

Definition workqueue_schedule_on (s : wq_t) (work delay_ticks : Z) : wq_t * status :=
  if work =? 0 then (s, ERR_NULL) else
  if negb (q_initialized (wq_stats s)) || not_registered s work then (s, ERR_STATE) else
  if sv_main s && power_quiescing s then (s, ERR_UNAVAILABLE) else
  if delay_ticks >? WORKQUEUE_MAX_DELAY_TICKS then (s, ERR_INVALID) else
  let now := timer_get_ticks s in
  let s := workqueue_promote_due s now in
  (workqueue_notify (schedule_switch s work now delay_ticks), OK).

Definition workqueue_cancel_on (s : wq_t) (work : Z) : wq_t * status :=
  if work =? 0 then (s, ERR_NULL) else
  if negb (q_initialized (wq_stats s)) || not_registered s work then (s, ERR_STATE) else
  let s :=
    match w_state (work_at s work) with
    | WORK_STATE_READY | WORK_STATE_DELAYED => put (workqueue_list_remove s work) work (set w_state (λ _, WORK_STATE_IDLE))
    | WORK_STATE_RUNNING => put s work (set w_cancel_requested (λ _, true))
    | WORK_STATE_IDLE => s
    end in
  let s := put s work (λ w, w <| w_rerun_requested := false |> <| w_rerun_delayed := false |> <| w_cancellations ::= inc |>) in
  (stat s (set q_cancelled inc), OK).

(** ** Power, destruction and workers *)

Definition workqueue_power_set_quiescing (s : wq_t) (active : bool) : wq_t * status :=
  if negb (q_initialized (wq_stats s)) then (s, ERR_STATE) else (s <| power_quiescing := active |>, OK).

Definition quiesce_work (s : wq_t) (index : Z) : wq_t :=
  let work := at_ (wq_registry s) index in
  if work =? 0 then s else
  let s := match w_state (work_at s work) with
           | WORK_STATE_READY | WORK_STATE_DELAYED =>
               put (workqueue_list_remove s work) work (set w_state (λ _, WORK_STATE_IDLE))
           | _ => s
           end in
  put s work (λ w, w <| w_rerun_requested := false |> <| w_rerun_delayed := false |> <| w_cancel_requested := false |>).

Definition workqueue_power_quiesce_until (s : wq_t) (deadline_tick : Z) : wq_t * status :=
  if negb (q_initialized (wq_stats s)) then (s, ERR_STATE) else
  if i32 (timer_get_ticks s - deadline_tick) >=? 0 then (s, ERR_TIMEOUT) else
  let s := s <| power_quiescing := true |> in
  if negb (q_running (wq_stats s) =? 0) then (s, ERR_STATE) else
  (foldl quiesce_work s (range 0 WORKQUEUE_CAPACITY), OK).

Definition work_init (s : wq_t) (work : Z) (owner : list Z) (priority callback context : Z) : wq_t * status :=
  workqueue_register_on s work owner priority callback context.

Definition work_destroy (s : wq_t) (work : Z) : wq_t * status :=
  if work =? 0 then (s, ERR_NULL) else
  if negb (q_initialized (wq_stats s)) || not_registered s work ||
     negb (bool_decide (w_state (work_at s work) = WORK_STATE_IDLE)) then (s, ERR_STATE) else
  let slot := w_registry_slot (work_at s work) in
  let s := s <| wq_registry ::= λ l, upd l slot 0 |> <| owner_pids ::= λ l, upd l slot 0 |>
             <| owner_generations ::= λ l, upd l slot 0 |> in
  let s := stat s (set q_registered dec_if) in
  (put s work (λ _, work_zero), OK).

(** A refused request is counted. *)
Definition schedule_checked (x : wq_t * status) : wq_t * status :=
  let '(s, result) := x in
  match result with
  | OK => (s, OK)
  | _ => (stat s (λ q, q <| q_rejected ::= inc |> <| q_last_error := result |>), result)
  end.
Definition schedule_work (s : wq_t) (work : Z) : wq_t * status := schedule_checked (workqueue_schedule_on s work 0).
Definition schedule_delayed_work (s : wq_t) (work delay_ticks : Z) : wq_t * status :=
  schedule_checked (workqueue_schedule_on s work delay_ticks).
Definition cancel_work (s : wq_t) (work : Z) : wq_t * status :=
  if work =? 0 then (s, ERR_NULL) else workqueue_cancel_on s work.

Definition workqueue_bind_worker (s : wq_t) (pid : Z) : wq_t * status :=
  if negb (q_initialized (wq_stats s)) then (s, ERR_STATE) else
  if pid =? 0 then (s, ERR_INVALID) else
  match process_get_by_pid s pid with
  | None => (s, ERR_NOT_FOUND)
  | Some worker =>
      if (p_pid worker =? 0) || (p_event_generation worker =? 0) || negb (process_alive worker) then (s, ERR_STATE) else
      let s := stat s (λ q, q <| q_worker_pid := pid |> <| q_worker_tid := 0 |> <| q_worker_thread_generation := 0 |>
        <| q_worker_process_generation := p_event_generation worker |> <| q_worker_target := WORKER_TARGET_PROCESS |>
        <| q_worker_bound := true |> <| q_fallback_active := false |>) in
      (s <| worker_generation := p_event_generation worker |> <| worker_thread_generation := 0 |>, OK)
  end.

Definition workqueue_bind_thread (s : wq_t) (tid generation : Z) : wq_t * status :=
  if negb (q_initialized (wq_stats s)) then (s, ERR_STATE) else
  if (tid =? 0) || (generation =? 0) then (s, ERR_INVALID) else
  match thread_get_by_id s tid with
  | None => (s, ERR_NOT_FOUND)
  | Some worker =>
      if negb (t_generation worker =? generation) || negb (t_kernel_service worker) || negb (thread_alive worker)
      then (s, ERR_STATE) else
      let s := stat s (λ q, q <| q_worker_pid := 0 |> <| q_worker_tid := tid |> <| q_worker_thread_generation := generation |>
        <| q_worker_process_generation := 0 |> <| q_worker_target := WORKER_TARGET_THREAD |>
        <| q_worker_bound := true |> <| q_fallback_active := false |>) in
      (s <| worker_generation := 0 |> <| worker_thread_generation := generation |>, OK)
  end.

Definition workqueue_set_fallback (s : wq_t) (active : bool) : wq_t * status :=
  if negb (q_initialized (wq_stats s)) then (s, ERR_STATE)
  else (stat s (set q_fallback_active (λ _, active)), OK).

(** Whether the bound worker is the live process or thread it was bound to. *)
Definition worker_alive (s : wq_t) : bool :=
  match q_worker_target (wq_stats s) with
  | WORKER_TARGET_THREAD =>
      match thread_get_by_id s (q_worker_tid (wq_stats s)) with
      | None => false
      | Some t => (t_generation t =? worker_thread_generation s) && t_kernel_service t && thread_alive t
      end
  | _ =>
      match process_get_by_pid s (q_worker_pid (wq_stats s)) with
      | None => false
      | Some p => (p_event_generation p =? worker_generation s) && process_alive p
      end
  end.

(** [*out_required], where it is written. *)
Definition workqueue_needs_fallback (s : wq_t) : wq_t * option bool * status :=
  if negb (q_initialized (wq_stats s)) then (s, None, ERR_STATE) else
  if negb (q_worker_bound (wq_stats s)) then (s, Some true, OK) else
  if worker_alive s then (s, Some false, OK)
  else (stat s (set q_worker_active (λ _, false)), Some true, OK).

(** ** The calls of clients *)

(** What can happen while a callback runs: calls of the interface, changes of the
    rest of the kernel (time passes, processes come and go) and writes of clients
    to structures that are not registered. *)
Inductive action :=
| AInit (work : Z) (owner : list Z) (priority callback context : Z)
| ADestroy (work : Z)
| ASchedule (work : Z)
| AScheduleDelayed (work delay_ticks : Z)
| ACancel (work : Z)
| ASetQuiescing (active : bool)
| AQuiesce (deadline_tick : Z)
| ABindWorker (pid : Z)
| ABindThread (tid generation : Z)
| ASetFallback (active : bool)
| ANeedsFallback
| AKernel (k : kernel_t)
| AClient (work : Z) (w : work_struct_t).

Definition run_action (s : wq_t) (a : action) : wq_t :=
  match a with
  | AInit work owner priority callback context => (work_init s work owner priority callback context).1
  | ADestroy work => (work_destroy s work).1
  | ASchedule work => (schedule_work s work).1
  | AScheduleDelayed work delay_ticks => (schedule_delayed_work s work delay_ticks).1
  | ACancel work => (cancel_work s work).1
  | ASetQuiescing active => (workqueue_power_set_quiescing s active).1
  | AQuiesce deadline_tick => (workqueue_power_quiesce_until s deadline_tick).1
  | ABindWorker pid => (workqueue_bind_worker s pid).1
  | ABindThread tid generation => (workqueue_bind_thread s tid generation).1
  | ASetFallback active => (workqueue_set_fallback s active).1
  | ANeedsFallback => (workqueue_needs_fallback s).1.1
  | AKernel k => s <| kernel := k |>
  | AClient work w => if bool_decide (work ∈ wq_registry s) then s else put s work (λ _, w)
  end.

(** ** Dispatch *)

Section dispatch.
(** The code of the callbacks: what the function at an address does with a context
    in a state, and its result. *)
Variable run_callback : Z → Z → wq_t → list action * status.

Definition workqueue_take_ready (s : wq_t) (priority : Z) : wq_t * Z :=
  let work := at_ (ready_first s) priority in
  if work =? 0 then (s, 0) else
  let latency := timer_get_ticks s -w w_ready_tick (work_at s work) in
  let s := workqueue_list_remove s work in
  let s := put s work (set w_state (λ _, WORK_STATE_RUNNING)) in
  let s := stat s (λ q, q <| q_running ::= inc |> <| q_dispatch_latency_samples ::= inc |>
    <| q_dispatch_latency_total_ticks ::= λ n, n +w latency |> <| q_max_dispatch_latency_ticks ::= Z.max latency |>) in
  (workqueue_update_peak s, work).

Definition workqueue_finish (s : wq_t) (work : Z) (callback_result : status) (elapsed : Z) : wq_t :=
  let now := timer_get_ticks s in
  let s := put s work (λ w, w <| w_executed ::= inc |> <| w_callback_ticks ::= λ n, n +w elapsed |>
    <| w_max_callback_ticks ::= Z.max elapsed |> <| w_last_error := callback_result |>) in
  let s := stat s (λ q, q <| q_executed ::= inc |> <| q_total_callback_ticks ::= λ n, n +w elapsed |>
    <| q_max_callback_ticks ::= Z.max elapsed |>) in
  let s := if is_ok callback_result then s
           else stat s (λ q, q <| q_callback_errors ::= inc |> <| q_last_error := callback_result |>) in
  let s := stat s (set q_running dec_if) in
  let s := put s work (set w_state (λ _, WORK_STATE_IDLE)) in
  let w := work_at s work in
  if w_cancel_requested w then
    put s work (λ w, w <| w_cancel_requested := false |> <| w_rerun_requested := false |> <| w_rerun_delayed := false |>)
  else if w_rerun_requested w then
    let s := put s work (λ w, w <| w_rerun_requested := false |> <| w_rerun_delayed := false |>
      <| w_reruns ::= inc |> <| w_scheduled ::= inc |>) in
    let s := stat s (λ q, q <| q_reruns ::= inc |> <| q_scheduled ::= inc |>) in
    if w_rerun_delayed w && negb (workqueue_deadline_reached now (w_rerun_deadline_tick w)) then
      workqueue_delayed_insert (put s work (set w_deadline_tick (λ _, w_rerun_deadline_tick w))) work now
    else workqueue_ready_append s work
  else s.

(** The branch for a work whose owner process is gone. *)
Definition workqueue_drop (s : wq_t) (work : Z) : wq_t :=
  let s := put s work (λ w, w <| w_last_error := ERR_NOT_FOUND |> <| w_state := WORK_STATE_IDLE |>
    <| w_cancel_requested := false |> <| w_rerun_requested := false |> <| w_rerun_delayed := false |>) in
  stat s (λ q, q <| q_running ::= dec_if |> <| q_rejected ::= inc |> <| q_last_error := ERR_NOT_FOUND |>).

Definition workqueue_execute_one (s : wq_t) (priority : Z) : wq_t * status :=
  let s := workqueue_promote_due s (timer_get_ticks s) in
  let '(s, work) := workqueue_take_ready s priority in
  if work =? 0 then (s, ERR_NOT_FOUND) else
  if negb (workqueue_owner_is_live s (w_registry_slot (work_at s work))) then (workqueue_drop s work, OK) else
  if negb (interrupts_enabled (kernel s)) then
    let s := stat s (λ q, q <| q_context_errors ::= inc |> <| q_last_error := ERR_STATE |>) in
    (workqueue_finish s work ERR_STATE 0, ERR_STATE)
  else
    let started := timer_get_ticks s in
    let '(actions, result) := run_callback (w_callback (work_at s work)) (w_context (work_at s work)) s in
    let s := foldl run_action s actions in
    let elapsed := timer_get_ticks s -w started in
    (workqueue_finish s work result elapsed, OK).

(** [while (budget) { ... budget--; executed++; }]: the number executed, and the
    result if the loop returns. *)
Fixpoint execute_loop (budget : nat) (s : wq_t) (priority executed : Z) : wq_t * Z * option status :=
  match budget with
  | O => (s, executed, None)
  | S budget =>
      let '(s, result) := workqueue_execute_one s priority in
      match result with
      | ERR_NOT_FOUND => (s, executed, None)
      | OK => execute_loop budget s priority (executed +w 1)
      | _ => (s, executed, Some result)
      end
  end.

(** [*out_executed], where it is written. *)
Definition workqueue_dispatch_on (s : wq_t) (high_budget normal_budget : Z) : wq_t * option Z * status :=
  if negb (q_initialized (wq_stats s)) then (s, None, ERR_STATE) else
  match execute_loop (Z.to_nat high_budget) s WORK_PRIORITY_HIGH 0 with
  | (s, _, Some result) => (s, None, result)
  | (s, executed, None) =>
      match execute_loop (Z.to_nat normal_budget) s WORK_PRIORITY_NORMAL executed with
      | (s, _, Some result) => (s, None, result)
      | (s, executed, None) => (s, Some executed, OK)
      end
  end.

Definition current_is_worker_thread (s : wq_t) : bool :=
  match q_worker_target (wq_stats s), thread_get_current s with
  | WORKER_TARGET_THREAD, Some t =>
      negb (q_worker_tid (wq_stats s) =? 0) && (t_id t =? q_worker_tid (wq_stats s)) &&
      (t_generation t =? worker_thread_generation s) && t_kernel_service t
  | _, _ => false
  end.
Definition current_is_worker_process (s : wq_t) : bool :=
  match q_worker_target (wq_stats s), process_get_current s with
  | WORKER_TARGET_PROCESS, Some p =>
      negb (q_worker_pid (wq_stats s) =? 0) && (process_get_current_pid s =? q_worker_pid (wq_stats s)) &&
      (p_event_generation p =? worker_generation s)
  | _, _ => false
  end.

Definition workqueue_dispatch (s : wq_t) (high_budget normal_budget : Z) : wq_t * option Z * status :=
  if negb (q_initialized (wq_stats s)) then (s, None, ERR_STATE) else
  if power_quiescing s then (s, Some 0, OK) else
  if current_is_worker_thread s || current_is_worker_process s then
    let s := stat s (λ q, q <| q_execution_context := WORK_CONTEXT_KWORKER |> <| q_worker_active := true |>
      <| q_fallback_active := false |>) in
    workqueue_dispatch_on s high_budget normal_budget
  else if negb (q_fallback_active (wq_stats s)) then
    (stat s (λ q, q <| q_context_errors ::= inc |> <| q_last_error := ERR_STATE |>), None, ERR_STATE)
  else
    let s := stat s (set q_execution_context (λ _, WORK_CONTEXT_SYSTEM_FALLBACK)) in
    workqueue_dispatch_on s high_budget normal_budget.

Definition workqueue_wait_condition (s : wq_t) : bool :=
  negb (at_ (ready_first s) WORK_PRIORITY_HIGH =? 0) || negb (at_ (ready_first s) WORK_PRIORITY_NORMAL =? 0) ||
  (negb (delayed_first s =? 0) &&
   workqueue_deadline_reached (timer_get_ticks s) (w_deadline_tick (work_at s (delayed_first s)))).

Definition workqueue_next_timeout (s : wq_t) : Z :=
  if negb (at_ (ready_first s) WORK_PRIORITY_HIGH =? 0) || negb (at_ (ready_first s) WORK_PRIORITY_NORMAL =? 0) then 0
  else if negb (delayed_first s =? 0) then
    let now := timer_get_ticks s in
    let deadline := w_deadline_tick (work_at s (delayed_first s)) in
    if workqueue_deadline_reached now deadline then 0 else deadline -w now
  else WAIT_TIMEOUT_INFINITE.

(** The body of the loop of [workqueue_worker_main] up to [process_yield] or
    [wait_event_timeout]; the time to sleep, if it sleeps. *)
Definition worker_round (s : wq_t) : wq_t * option Z :=
  match workqueue_dispatch s WORKQUEUE_HIGH_BUDGET WORKQUEUE_NORMAL_BUDGET with
  | (s, Some executed, OK) =>
      if negb (executed =? 0) then (s, None)
      else
        let timeout := workqueue_next_timeout s in
        (stat s (set q_sleeps inc), Some timeout)
  | (s, _, _) => (s, None)
  end.
End dispatch.

(** ** Initialisation *)

(** "Workq probe" *)
Definition probe_owner : list Z := [87; 111; 114; 107; 113; 32; 112; 114; 111; 98; 101].

(** [probe_work] and [probe_callback] are the addresses of the probe of the service
    and its callback; the results of [init_waitqueue_head] are given. *)
Definition workqueue_init (s : wq_t) (probe_work probe_callback service : Z) (wait_result probe_result : status) : wq_t * status :=
  if q_initialized (wq_stats s) then (s, OK) else
  let s := workqueue_service_clear s in
  if negb (is_ok wait_result) then (s, wait_result) else
  let s := stat (s <| wait_queue_initialized := true |>) (set q_initialized (λ _, true)) in
  if negb (is_ok probe_result) then ((stat s (set q_initialized (λ _, false))) <| wait_queue_initialized := false |>, probe_result) else
  let '(s, result) := workqueue_register_on s probe_work probe_owner WORK_PRIORITY_HIGH probe_callback service in
  if negb (is_ok result) then ((stat s (set q_initialized (λ _, false))) <| wait_queue_initialized := false |>, result) else
  let slot := w_registry_slot (work_at s probe_work) in
  (s <| owner_pids ::= λ l, upd l slot 0 |> <| owner_generations ::= λ l, upd l slot 0 |>, OK).

(** ** Validation *)

Definition worker_fields_ok (s : wq_t) : bool :=
  let q := wq_stats s in
  let zero z := z =? 0 in
  if negb (q_worker_bound q) then
    zero (q_worker_pid q) && zero (worker_generation s) && zero (q_worker_process_generation q) &&
    zero (q_worker_tid q) && zero (q_worker_thread_generation q) && zero (worker_thread_generation s) &&
    bool_decide (q_worker_target q = WORKER_TARGET_NONE)
  else match q_worker_target q with
  | WORKER_TARGET_PROCESS =>
      negb (zero (q_worker_pid q)) && negb (zero (worker_generation s)) &&
      (q_worker_process_generation q =? worker_generation s) && zero (q_worker_tid q) &&
      zero (q_worker_thread_generation q) && zero (worker_thread_generation s)
  | WORKER_TARGET_THREAD =>
      negb (zero (q_worker_tid q)) && negb (zero (q_worker_thread_generation q)) &&
      zero (q_worker_process_generation q) && zero (q_worker_pid q) && zero (worker_generation s)
  | WORKER_TARGET_NONE => false
  end.

(** A link of a list as the walk checks it. *)
Definition link_bad (s : wq_t) (current previous : Z) (state : work_state_t) : bool :=
  let w := work_at s current in
  negb (w_previous w =? previous) || negb (bool_decide (w_state w = state)) || not_registered s current.

(** The last work of the list and the number of works; [None] if a check fails. *)
Fixpoint ready_walk (fuel : nat) (s : wq_t) (priority current previous count : Z) : option (Z * Z) :=
  match fuel with
  | O => None
  | S fuel =>
      if current =? 0 then Some (previous, count) else
      if link_bad s current previous WORK_STATE_READY || negb (w_priority (work_at s current) =? priority) ||
         (count +w 1 >? WORKQUEUE_CAPACITY) then None
      else ready_walk fuel s priority (w_next (work_at s current)) current (count +w 1)
  end.
Definition ready_list_ok (s : wq_t) (priority expected : Z) : bool :=
  match ready_walk 66 s priority (at_ (ready_first s) priority) 0 0 with
  | Some (previous, count) => (previous =? at_ (ready_last s) priority) && (count =? expected)
  | None => false
  end.

Fixpoint delayed_walk (fuel : nat) (s : wq_t) (current previous count last_deadline : Z) : option (Z * Z) :=
  match fuel with
  | O => None
  | S fuel =>
      if current =? 0 then Some (previous, count) else
      let deadline := w_deadline_tick (work_at s current) in
      if link_bad s current previous WORK_STATE_DELAYED ||
         (negb (count =? 0) && (i32 (deadline - last_deadline) <? 0)) || (count +w 1 >? WORKQUEUE_CAPACITY) then None
      else delayed_walk fuel s (w_next (work_at s current)) current (count +w 1) deadline
  end.
Definition delayed_list_ok (s : wq_t) : bool :=
  match delayed_walk 66 s (delayed_first s) 0 0 0 with
  | Some (previous, count) => (previous =? delayed_last s) && (count =? q_delayed (wq_stats s))
  | None => false
  end.

(** A slot of the registry. *)
Definition slot_bad (s : wq_t) (slot : Z) : bool :=
  let work := at_ (wq_registry s) slot in
  let pid := at_ (owner_pids s) slot in
  let generation := at_ (owner_generations s) slot in
  if work =? 0 then negb (pid =? 0) || negb (generation =? 0) else
  let w := work_at s work in
  negb (w_initialized w) || negb (w_registry_slot w =? slot) || (w_callback w =? 0) ||
  negb (workqueue_owner_valid (w_owner w)) || (w_priority w >=? WORK_PRIORITY_COUNT) ||
  negb (w_id w &w WORKQUEUE_ID_SLOT_MASK =? slot +w 1) || (w_id w >>w WORKQUEUE_ID_SLOT_BITS =? 0) ||
  negb (at_ (wq_generations s) slot =? w_id w >>w WORKQUEUE_ID_SLOT_BITS) ||
  ((pid =? 0) && negb (generation =? 0)) || (negb (pid =? 0) && (generation =? 0)).

(** The slots whose work satisfies a test. *)
Definition count_works (s : wq_t) (test : work_struct_t → bool) : Z :=
  len (filter (λ p, p ≠ 0 ∧ test (work_at s p) = true) (wq_registry s)).
Definition in_state (state : work_state_t) (w : work_struct_t) : bool := bool_decide (w_state w = state).

Definition workqueue_validate_on (s : wq_t) : status :=
  let q := wq_stats s in
  if negb (q_initialized q) || negb (q_capacity q =? WORKQUEUE_CAPACITY) || (q_registered q >? WORKQUEUE_CAPACITY) ||
     (q_running q >? 1) then ERR_STATE else
  if negb (worker_fields_ok s) then ERR_STATE else
  if sv_main s && q_worker_bound q && negb (worker_alive s) then ERR_STATE else
  if negb (ready_list_ok s WORK_PRIORITY_HIGH (q_ready_high q)) ||
     negb (ready_list_ok s WORK_PRIORITY_NORMAL (q_ready_normal q)) || negb (delayed_list_ok s) then ERR_STATE else
  if existsb (slot_bad s) (range 0 WORKQUEUE_CAPACITY) then ERR_STATE else
  if negb (count_works s (λ _, true) =? q_registered q) ||
     negb (count_works s (λ w, in_state WORK_STATE_READY w && (w_priority w =? WORK_PRIORITY_HIGH)) =? q_ready_high q) ||
     negb (count_works s (λ w, in_state WORK_STATE_READY w && (w_priority w =? WORK_PRIORITY_NORMAL)) =? q_ready_normal q) ||
     negb (count_works s (in_state WORK_STATE_DELAYED) =? q_delayed q) ||
     negb (count_works s (in_state WORK_STATE_RUNNING) =? q_running q) then ERR_STATE
  else OK.

Definition workqueue_validate_state (s : wq_t) : wq_t * status :=
  match workqueue_validate_on s with
  | OK => (s, OK)
  | result => (stat s (λ q, q <| q_invariant_errors ::= inc |> <| q_last_error := result |>), result)
  end.
