(* ===== verification/WorkqueueInv.v ===== *)
(** * The lists of the work queue: src/core/workqueue.c

    The invariant of the service: the two ready queues and the delayed list are
    doubly linked lists of registered works in the right state, no work is on two
    of them, and the counters are their lengths.  The lemmas give the effect of
    every list operation on the lists. *)

From stdpp Require Import gmap.
From S2P Require Import Prelude Registry Workqueue.

(** ** Doubly linked lists *)

(** The works of [l] are linked between [a] and [z]. *)
Fixpoint chain (W : Z → work_struct_t) (a : Z) (l : list Z) (z : Z) : Prop :=
  match l with
  | [] => True
  | p :: l => p ≠ 0 ∧ w_previous (W p) = a ∧ w_next (W p) = hd z l ∧ chain W p l z
  end.

Lemma chain_app W a l1 l2 z : chain W a (l1 ++ l2) z ↔ chain W a l1 (hd z l2) ∧ chain W (List.last l1 a) l2 z.
Proof.
  revert a. induction l1 as [|p l1 IH]; intros a; cbn [app chain]; [cbn; tauto|].
  rewrite IH. assert (hd z (l1 ++ l2) = hd (hd z l2) l1) as -> by (by destruct l1).
  assert (List.last (p :: l1) a = List.last l1 p) as ->; [|tauto].
  clear. revert a p. induction l1 as [|q l1 IH]; intros a p; [done|]. cbn [List.last]. destruct l1; [done|]. apply IH.
Qed.

Lemma wq_chain_ext W W' a l z :
  (∀ p, p ∈ l → w_previous (W' p) = w_previous (W p) ∧ w_next (W' p) = w_next (W p)) → chain W a l z → chain W' a l z.
Proof.
  revert a. induction l as [|p l IH]; intros a H; [done|]. intros (H0 & Hp & Hn & Hc).
  cbn [chain]. destruct (H p ltac:(constructor)) as [-> ->]. split_and!; [done..|]. apply IH; [|done]. intros q Hq. apply H. by constructor.
Qed.

Lemma chain_nonzero W a l z p : chain W a l z → p ∈ l → p ≠ 0.
Proof.
  revert a. induction l as [|q l IH]; intros a; [by intros _ ?%elem_of_nil|].
  intros (H0 & _ & _ & Hc) [->|Hp]%elem_of_cons; [done|by eapply IH].
Qed.

(** Where the list ends, the last link can be redirected; likewise at the start. *)
Lemma chain_set_end W W' a l z z' :
  NoDup l →
  (∀ p, p ∈ l → w_previous (W' p) = w_previous (W p) ∧ w_next (W' p) = if decide (p = List.last l a) then z' else w_next (W p)) →
  chain W a l z → chain W' a l z'.
Proof.
  destruct l as [|x l _] using rev_ind; [done|]. intros [_ [Hx Hn]]%NoDup_app H. rewrite last_last in H. rewrite !chain_app.
  intros [H1 (Hp0 & Hprev & _)]. destruct (H x) as [Ep En]; [in_list|]. rewrite decide_True in En by done. split.
  - eapply wq_chain_ext; [|exact H1]. intros p Hp. destruct (H p) as [E1 E2]; [in_list|]. rewrite decide_False in E2; [done|].
    intros ->. eapply Hx; [exact Hp|]. apply list_elem_of_singleton. done.
  - cbn. by rewrite Ep, En.
Qed.

Lemma chain_set_start W W' a a' l z :
  NoDup l →
  (∀ p, p ∈ l → w_next (W' p) = w_next (W p) ∧ w_previous (W' p) = if decide (p = hd z l) then a' else w_previous (W p)) →
  chain W a l z → chain W' a' l z.
Proof.
  destruct l as [|x l]; [done|]. intros [Hx _]%NoDup_cons H. cbn [hd] in H. intros (H0 & _ & Hnx & Hc).
  destruct (H x) as [En Ep]; [in_list|]. rewrite decide_True in Ep by done. split_and!; [done|done|by rewrite En|].
  eapply wq_chain_ext; [|exact Hc]. intros p Hp. destruct (H p) as [E1 E2]; [in_list|]. rewrite decide_False in E2 by (by intros ->). done.
Qed.

(** ** Reading and writing works *)

Lemma work_at_put s p f q : work_at (put s p f) q = if decide (q = p) then f (work_at s p) else work_at s q.
Proof.
  change (work_at (put s p f) q) with (default work_zero (<[p := f (work_at s p)]> (works s) !! q)).
  destruct (decide (q = p)) as [->|H]; [by rewrite lookup_insert_eq|by rewrite lookup_insert_ne].
Qed.

(** Everything of a work but its links. *)
Definition unlinked (w : work_struct_t) : work_struct_t := w <| w_previous := 0 |> <| w_next := 0 |>.

Lemma work_at_stat s f q : work_at (stat s f) q = work_at s q.
Proof. reflexivity. Qed.
Lemma work_at_count_removed s w q : work_at (count_removed s w) q = work_at s q.
Proof. unfold count_removed. by repeat case_match. Qed.
Lemma work_at_set_first s w p q : work_at (set_first s w p) q = work_at s q.
Proof. unfold set_first. by case_match. Qed.
Lemma work_at_set_last s w p q : work_at (set_last s w p) q = work_at s q.
Proof. unfold set_last. by case_match. Qed.
Lemma work_at_update_peak s q : work_at (workqueue_update_peak s) q = work_at s q.
Proof. unfold workqueue_update_peak. by case_match. Qed.

Lemma work_at_ready_first s f q : work_at (s <| ready_first ::= f |>) q = work_at s q.
Proof. reflexivity. Qed.
Lemma work_at_ready_last s f q : work_at (s <| ready_last ::= f |>) q = work_at s q.
Proof. reflexivity. Qed.
Lemma work_at_delayed_first s f q : work_at (s <| delayed_first ::= f |>) q = work_at s q.
Proof. reflexivity. Qed.
Lemma work_at_delayed_last s f q : work_at (s <| delayed_last ::= f |>) q = work_at s q.
Proof. reflexivity. Qed.
Lemma work_at_either (b : bool) s f g q : work_at (if b then stat s f else stat s g) q = work_at s q.
Proof. by destruct b. Qed.

Create Rewrite HintDb wq.
#[export] Hint Rewrite work_at_ready_first work_at_ready_last work_at_delayed_first work_at_delayed_last work_at_either : wq.
#[export] Hint Rewrite work_at_stat work_at_count_removed work_at_set_first work_at_set_last work_at_update_peak : wq.

(** Splits on the tests and decides the branches. *)
Ltac by_cases := repeat case_decide; try reflexivity; try tauto; try congruence; try lia.

(** The links after a removal. *)
Lemma wq_remove_links s p w :
  w = work_at s p → w_previous w ≠ p → w_next w ≠ p → ∀ q, let w' := work_at (workqueue_list_remove s p) q in
  w_previous w' = (if decide (q = p) then 0 else if decide (q ≠ 0 ∧ q = w_next w) then w_previous w else w_previous (work_at s q)) ∧
  w_next w' = (if decide (q = p) then 0 else if decide (q ≠ 0 ∧ q = w_previous w) then w_next w else w_next (work_at s q)) ∧
  unlinked w' = unlinked (work_at s q).
Proof.
  intros Ew H1 H2 q. cbn zeta. unfold workqueue_list_remove. rewrite <-Ew, work_at_put.
  destruct (Z.eqb_spec (w_previous w) 0) as [E1|E1], (Z.eqb_spec (w_next w) 0) as [E2|E2];
    autorewrite with wq; rewrite ?work_at_put; autorewrite with wq; rewrite ?work_at_put; autorewrite with wq;
    (destruct (decide (q = p)) as [->|Hq]).
  all: split_and!; by_cases. all: subst; by_cases. rewrite H0. reflexivity.
Qed.

Lemma last_elem (l : list Z) a : l ≠ [] → List.last l a ∈ l.
Proof. destruct l as [|x l _] using rev_ind; [done|]. intros _. rewrite last_last. in_list. Qed.
Lemma hd_elem (l : list Z) a : l ≠ [] → hd a l ∈ l.
Proof. destruct l; [done|]. intros _. in_list. Qed.

Lemma last_app_cons (k : list Z) x l a b : List.last (k ++ x :: l) a = List.last (x :: l) b.
Proof. destruct (exists_last (l := x :: l)) as (l' & y & ->); [done|]. by rewrite app_assoc, !last_last. Qed.

Lemma chain_at W l1 p l2 :
  chain W 0 (l1 ++ p :: l2) 0 → p ≠ 0 ∧ w_previous (W p) = List.last l1 0 ∧ w_next (W p) = hd 0 l2.
Proof. rewrite chain_app. intros (_ & H0 & Hp & Hn & _). done. Qed.

(** Taking a work out of its list, and the other lists. *)
Lemma chain_remove W W' l1 p l2 :
  NoDup (l1 ++ p :: l2) → chain W 0 (l1 ++ p :: l2) 0 →
  (∀ q, q ≠ p → w_previous (W' q) = (if decide (q ≠ 0 ∧ q = w_next (W p)) then w_previous (W p) else w_previous (W q)) ∧
     w_next (W' q) = (if decide (q ≠ 0 ∧ q = w_previous (W p)) then w_next (W p) else w_next (W q))) →
  chain W' 0 (l1 ++ l2) 0.
Proof.
  intros Hn Hc HW. destruct (chain_at _ _ _ _ Hc) as (Hp0 & Ep & En). rewrite Ep, En in HW.
  pose proof (chain_nonzero _ _ _ _ 0 Hc) as NZ. apply chain_app in Hc as [H1 H2]. cbn [hd chain] in H1, H2. destruct H2 as (_ & _ & _ & H2).
  apply NoDup_app in Hn as (N1 & N12 & N2). apply NoDup_cons in N2 as [Np N2].
  assert (∀ q, q ∈ l1 → q ≠ p) as D1 by (intros q Hq ->; eapply N12; [exact Hq|]; in_list).
  assert (∀ q, q ∈ l2 → q ≠ p) as D2 by (intros q Hq ->; done).
  apply chain_app. split.
  - eapply chain_set_end; [done| |exact H1]. intros q Hq. destruct (HW q (D1 q Hq)) as [-> ->].
    assert (q ≠ 0) by (intros ->; apply NZ; [in_list|done]). split; [rewrite decide_False; [done|]|by_cases].
    intros [_ ->]. destruct l2 as [|y l2]; [done|]. cbn [hd] in *. eapply N12; [exact Hq|]. in_list.
  - eapply chain_set_start; [done| |exact H2]. intros q Hq. destruct (HW q (D2 q Hq)) as [-> ->].
    assert (q ≠ 0) by (intros ->; apply NZ; [in_list|done]). split; [rewrite decide_False; [done|]|by_cases].
    intros [_ E]. destruct (decide (l1 = [])) as [->|Hl1]; [done|]. pose proof (last_elem l1 0 Hl1) as Hin. rewrite <-E in Hin.
    eapply N12; [exact Hin|]. in_list.
Qed.

(** Putting a work between two parts of a list. *)
Lemma chain_insert W W' l1 p l2 :
  NoDup (l1 ++ l2) → p ∉ l1 ++ l2 → p ≠ 0 → chain W 0 (l1 ++ l2) 0 →
  w_previous (W' p) = List.last l1 0 → w_next (W' p) = hd 0 l2 →
  (∀ q, q ≠ p → w_previous (W' q) = (if decide (q ≠ 0 ∧ q = hd 0 l2) then p else w_previous (W q)) ∧
     w_next (W' q) = (if decide (q ≠ 0 ∧ q = List.last l1 0) then p else w_next (W q))) →
  chain W' 0 (l1 ++ p :: l2) 0.
Proof.
  intros Hn Hp Hp0 Hc Ep En HW. pose proof (chain_nonzero _ _ _ _ 0 Hc) as NZ. apply chain_app in Hc as [H1 H2].
  apply NoDup_app in Hn as (N1 & N12 & N2). rewrite elem_of_app in Hp.
  apply chain_app. cbn [hd chain]. split_and!; [|done|done|done|].
  - eapply chain_set_end; [done| |exact H1]. intros q Hq. destruct (HW q) as [-> ->]; [intros ->; tauto|].
    assert (q ≠ 0) by (intros ->; apply NZ; [in_list|done]). split; [rewrite decide_False; [done|]|by_cases].
    intros [_ ->]. destruct l2 as [|y l2]; [done|]. cbn [hd] in *. eapply N12; [exact Hq|]. in_list.
  - eapply chain_set_start; [done| |exact H2]. intros q Hq. destruct (HW q) as [-> ->]; [intros ->; tauto|].
    assert (q ≠ 0) by (intros ->; apply NZ; [in_list|done]). split; [rewrite decide_False; [done|]|by_cases].
    intros [_ E]. destruct (decide (l1 = [])) as [->|Hl1]; [done|]. pose proof (last_elem l1 0 Hl1) as Hin. rewrite <-E in Hin.
    eapply N12; [exact Hin|]. in_list.
Qed.

(** ** What list operations leave alone *)

(** The identity of a work: what registration writes. *)
Definition ident (w : work_struct_t) : Z * Z * list Z * Z * Z * Z * bool :=
  (w_callback w, w_context w, w_owner w, w_id w, w_priority w, w_registry_slot w, w_initialized w).

(** The statistics that registration and binding write. *)
Definition stable (q : workqueue_stats_t) :=
  (q_initialized q, q_worker_bound q, q_worker_pid q, q_capacity q, q_registered q, q_worker_tid q,
   q_worker_thread_generation q, q_worker_process_generation q, q_worker_target q).

(** The service but for its lists. *)
Definition outline (s : wq_t) :=
  (sv_main s, wq_registry s, wq_generations s, owner_pids s, owner_generations s, worker_generation s,
   worker_thread_generation s).

Record frame (s s' : wq_t) : Prop := Frame {
  fr_outline : outline s' = outline s;
  fr_stable : stable (wq_stats s') = stable (wq_stats s);
  fr_kernel : kernel s' = kernel s;
  fr_gate : power_quiescing s' = power_quiescing s;
  fr_wait : wait_queue_initialized s' = wait_queue_initialized s;
  fr_ident q : ident (work_at s' q) = ident (work_at s q)
}.

#[export] Instance frame_preorder : PreOrder frame.
Proof.
  split; [by intros s; split|]. intros s1 s2 s3 [] []. split; [congruence..|]. intros q. rewrite fr_ident1. done.
Qed.

Lemma frame_registry s s' : frame s s' → wq_registry s' = wq_registry s.
Proof. intros [Fo _ _ _ _ _]. by injection Fo. Qed.
Lemma frame_main s s' : frame s s' → sv_main s' = sv_main s.
Proof. intros [Fo _ _ _ _ _]. by injection Fo. Qed.
Lemma frame_owners s s' : frame s s' → owner_pids s' = owner_pids s ∧ owner_generations s' = owner_generations s.
Proof. intros [Fo _ _ _ _ _]. by injection Fo. Qed.
Lemma frame_initialized s s' : frame s s' → q_initialized (wq_stats s') = q_initialized (wq_stats s).
Proof. intros [_ Fs _ _ _ _]. by injection Fs. Qed.
Lemma frame_priority s s' p : frame s s' → w_priority (work_at s' p) = w_priority (work_at s p).
Proof. intros [_ _ _ _ _ Fi]. specialize (Fi p). by injection Fi. Qed.
Lemma frame_slot s s' p : frame s s' → w_registry_slot (work_at s' p) = w_registry_slot (work_at s p).
Proof. intros [_ _ _ _ _ Fi]. specialize (Fi p). by injection Fi. Qed.

Lemma frame_put s p f : (∀ w, ident (f w) = ident w) → frame s (put s p f).
Proof.
  intros H. split; [done..|]. intros q. rewrite work_at_put. case_decide; [subst; apply H|done].
Qed.
Lemma frame_stat s f : (∀ q, stable (f q) = stable q) → frame s (stat s f).
Proof. intros H. split; try done. apply H. Qed.
Lemma frame_update_peak s : frame s (workqueue_update_peak s).
Proof. unfold workqueue_update_peak. case_match; [by apply frame_stat|done]. Qed.
Lemma frame_set_first s w p : frame s (set_first s w p).
Proof. unfold set_first. by case_match. Qed.
Lemma frame_set_last s w p : frame s (set_last s w p).
Proof. unfold set_last. by case_match. Qed.
Lemma frame_count_removed s w : frame s (count_removed s w).
Proof. unfold count_removed. repeat case_match; done || by apply frame_stat. Qed.
Lemma frame_first s f : frame s (s <| ready_first ::= f |>).
Proof. done. Qed.
Lemma frame_last s f : frame s (s <| ready_last ::= f |>).
Proof. done. Qed.
Lemma frame_delayed_first s p : frame s (s <| delayed_first := p |>).
Proof. done. Qed.
Lemma frame_delayed_last s p : frame s (s <| delayed_last := p |>).
Proof. done. Qed.

(** Follows the updates of an operation outwards in. *)
Ltac frame_step :=
  lazymatch goal with
  | |- frame ?s ?s => reflexivity
  | |- frame _ (workqueue_update_peak ?s) => transitivity s; [|apply frame_update_peak]
  | |- frame _ (stat ?s _) => transitivity s; [|by apply frame_stat]
  | |- frame _ (put ?s _ _) => transitivity s; [|by apply frame_put]
  | |- frame _ (set_first ?s _ _) => transitivity s; [|apply frame_set_first]
  | |- frame _ (set_last ?s _ _) => transitivity s; [|apply frame_set_last]
  | |- frame _ (count_removed ?s _) => transitivity s; [|apply frame_count_removed]
  | |- frame _ (set ready_first _ ?s) => transitivity s; [|apply frame_first]
  | |- frame _ (set ready_last _ ?s) => transitivity s; [|apply frame_last]
  | |- frame _ (set delayed_first _ ?s) => transitivity s; [|apply frame_delayed_first]
  | |- frame _ (set delayed_last _ ?s) => transitivity s; [|apply frame_delayed_last]
  | |- frame _ (if ?b then _ else _) => destruct b
  end.
Ltac frames := repeat frame_step.

Lemma frame_list_remove s p : frame s (workqueue_list_remove s p).
Proof. unfold workqueue_list_remove. frames. Qed.
Lemma frame_ready_append s p : frame s (workqueue_ready_append s p).
Proof. unfold workqueue_ready_append. frames. Qed.
Lemma frame_delayed_insert s p now : frame s (workqueue_delayed_insert s p now).
Proof. unfold workqueue_delayed_insert. frames. Qed.
Lemma frame_promote s now : frame s (workqueue_promote_due s now).
Proof.
  unfold workqueue_promote_due. generalize 65%nat. intros n. revert s. induction n as [|n IH]; intros s; [done|].
  cbn [promote_loop]. case_match; [|done]. etransitivity; [|apply IH]. etransitivity; [apply frame_list_remove|apply frame_ready_append].
Qed.

(** ** The invariant *)

(** The works by queue, first to last: high and normal priority, delayed, and the
    one whose callback runs. *)
Record queues := Queues { qh : list Z; qn : list Z; qd : list Z; qr : list Z }.
Definition linked (Q : queues) : list Z := qh Q ++ qn Q ++ qd Q ++ qr Q.

(** The list a work must be on by its state. *)
Definition belongs (Q : queues) (p : Z) (w : work_struct_t) : Prop :=
  match w_state w with
  | WORK_STATE_IDLE => p ∉ linked Q
  | WORK_STATE_READY => w_priority w = WORK_PRIORITY_HIGH ∧ p ∈ qh Q ∨ w_priority w = WORK_PRIORITY_NORMAL ∧ p ∈ qn Q
  | WORK_STATE_DELAYED => p ∈ qd Q
  | WORK_STATE_RUNNING => p ∈ qr Q
  end.

(** A list with its first and last pointer. *)
Definition list_rep (s : wq_t) (first last : Z) (l : list Z) : Prop :=
  chain (work_at s) 0 l 0 ∧ first = hd 0 l ∧ last = List.last l 0.

(** The lists of the service.  A work [x] may be detached: on no list, whatever its
    state says. *)
Record lists (x : Z) (s : wq_t) (Q : queues) : Prop := Lists {
  ls_high : list_rep s (at_ (ready_first s) 0) (at_ (ready_last s) 0) (qh Q);
  ls_normal : list_rep s (at_ (ready_first s) 1) (at_ (ready_last s) 1) (qn Q);
  ls_delayed : list_rep s (delayed_first s) (delayed_last s) (qd Q);
  ls_heads : len (ready_first s) = 2 ∧ len (ready_last s) = 2;
  ls_nodup : NoDup (linked Q);
  ls_members p : p ∈ linked Q → p ∈ live (wq_registry s);
  ls_detached : x ≠ 0 → x ∈ live (wq_registry s) ∧ x ∉ linked Q;
  ls_belongs p : p ∈ live (wq_registry s) → p ≠ x → belongs Q p (work_at s p);
  ls_counts : q_ready_high (wq_stats s) = len (qh Q) ∧ q_ready_normal (wq_stats s) = len (qn Q) ∧
    q_delayed (wq_stats s) = len (qd Q) ∧ q_running (wq_stats s) = len (qr Q)
}.

(** The registry and what does not change with scheduling. *)
Record registered_ok (s : wq_t) : Prop := Registered {
  rg_len : len (wq_registry s) = 64 ∧ len (wq_generations s) = 64 ∧ len (owner_pids s) = 64 ∧ len (owner_generations s) = 64;
  rg_nodup : NoDup (live (wq_registry s));
  rg_slots slot : 0 ≤ slot < 64 → slot_bad s slot = false;
  rg_priority p : p ∈ live (wq_registry s) → w_priority (work_at s p) = 0 ∨ w_priority (work_at s p) = 1;
  rg_count : q_registered (wq_stats s) = len (live (wq_registry s));
  rg_init : q_initialized (wq_stats s) = true ∧ q_capacity (wq_stats s) = 64;
  rg_worker : worker_fields_ok s = true
}.

Definition Inv (x : Z) (s : wq_t) (Q : queues) : Prop := registered_ok s ∧ lists x s Q.

Lemma registered_frame s s' : frame s s' → registered_ok s → registered_ok s'.
Proof.
  intros [Fo Fs Fk _ _ Fi] []. unfold outline, stable, ident in *.
  injection Fo as Em Er Eg Eo Eog Ew Et. injection Fs as S1 S2 S3 S4 S5 S6 S7 S8 S9.
  assert (∀ slot, slot_bad s' slot = slot_bad s slot) as Hslot.
  { intros slot. unfold slot_bad. rewrite Er, Eo, Eog, Eg. case_match; [done|]. specialize (Fi (at_ (wq_registry s) slot)).
    injection Fi as I1 I2 I3 I4 I5 I6 I7. by rewrite I1, I3, I4, I5, I6, I7. }
  split.
  - by rewrite Er, Eg, Eo, Eog.
  - by rewrite Er.
  - intros slot H. rewrite Hslot. by apply rg_slots0.
  - intros p. rewrite Er. specialize (Fi p). injection Fi as I1 I2 I3 I4 -> I6 I7. apply rg_priority0.
  - by rewrite S5, Er.
  - by rewrite S1, S4.
  - unfold worker_fields_ok. by rewrite S2, S3, S6, S7, S8, S9, Ew, Et.
Qed.

(** Registered works are found by their slot. *)
Lemma registered_iff s p : registered_ok s → p ≠ 0 → not_registered s p = false ↔ p ∈ live (wq_registry s).
Proof.
  intros Rg Hp. destruct Rg as [[L _] _ Slots _ _ _ _]. rewrite elem_of_live. unfold not_registered. split.
  - rewrite !orb_false_iff, negb_false_iff. intros [[_ Hs] E]. split; [done|]. apply negb_false_iff, Z.eqb_eq in E.
    unfold at_ in E. destruct (decide (Z.to_nat (w_registry_slot (work_at s p)) < length (wq_registry s))%nat) as [Hlt|Hge].
    + rewrite <-E. by apply list_elem_of_In, nth_In.
    + rewrite nth_overflow in E by lia. done.
  - intros [_ [i Hi]%list_elem_of_lookup]. pose proof (lookup_lt_Some _ _ _ Hi) as Hlt. unfold len in L.
    pose proof (Slots (Z.of_nat i) ltac:(lia)) as HS. unfold slot_bad in HS.
    assert (at_ (wq_registry s) (Z.of_nat i) = p) as E by (unfold at_; rewrite Nat2Z.id; by erewrite nth_lookup_Some).
    rewrite E in HS. destruct (Z.eqb_spec p 0); [done|]. rewrite !orb_false_iff, !negb_false_iff in HS.
    destruct HS as [[[[[[[[[HI HR] _] _] _] _] _] _] _] _]. apply Z.eqb_eq in HR. rewrite HI, HR, E, Z.eqb_refl. cbn.
    unfold WORKQUEUE_CAPACITY. destruct (Z.geb_spec (Z.of_nat i) 64); [lia|done].
Qed.

(** ** Removal *)

Lemma linked_bound x s Q : Inv x s Q → len (qh Q) + len (qn Q) + len (qd Q) + len (qr Q) ≤ 64.
Proof.
  intros [[[L _] _ _ _ _ _ _] [_ _ _ _ Nd Mem _ _ _]].
  assert (length (linked Q) ≤ length (live (wq_registry s)))%nat as H by (apply NoDup_incl_length; [by apply NoDup_ListNoDup|];
    intros p Hp; apply list_elem_of_In, Mem, list_elem_of_In, Hp).
  pose proof (live_length (wq_registry s)). unfold linked in H. rewrite !length_app in H. unfold len in *. lia.
Qed.

Lemma remove_fields s p w (s' := workqueue_list_remove s p) :
  w = work_at s p →
  ready_first s' = (if is_delayed w || negb (w_previous w =? 0) then ready_first s else upd (ready_first s) (w_priority w) (w_next w)) ∧
  ready_last s' = (if is_delayed w || negb (w_next w =? 0) then ready_last s else upd (ready_last s) (w_priority w) (w_previous w)) ∧
  delayed_first s' = (if is_delayed w && (w_previous w =? 0) then w_next w else delayed_first s) ∧
  delayed_last s' = (if is_delayed w && (w_next w =? 0) then w_previous w else delayed_last s).
Proof.
  intros Ew. unfold s', workqueue_list_remove, count_removed, set_first, set_last. rewrite <-Ew.
  destruct (is_delayed w), (w_previous w =? 0), (w_next w =? 0); [done..| | | |];
    destruct ((w_priority w =? WORK_PRIORITY_HIGH) && _), (w_priority w =? WORK_PRIORITY_NORMAL); done.
Qed.

Lemma remove_counts s p w (q := wq_stats s) (q' := wq_stats (workqueue_list_remove s p)) :
  w = work_at s p →
  q_ready_high q' = (if negb (is_delayed w) && (w_priority w =? 0) then dec_if (q_ready_high q) else q_ready_high q) ∧
  q_ready_normal q' = (if negb (is_delayed w) && (w_priority w =? 1) then dec_if (q_ready_normal q) else q_ready_normal q) ∧
  q_delayed q' = (if is_delayed w then dec_if (q_delayed q) else q_delayed q) ∧
  q_running q' = q_running q.
Proof.
  intros Ew. assert (wq_stats (workqueue_list_remove s p) = wq_stats (count_removed s w)) as E.
  { unfold workqueue_list_remove, set_first, set_last. rewrite <-Ew. by destruct (w_previous w =? 0), (w_next w =? 0), (is_delayed w). }
  unfold q'. rewrite E. unfold count_removed, WORK_PRIORITY_HIGH, WORK_PRIORITY_NORMAL. destruct (is_delayed w); [done|].
  destruct (Z.eqb_spec (w_priority w) 0) as [E0|E0], (Z.eqb_spec (w_priority w) 1) as [E1|E1]; [lia| |done..].
  fold q. destruct (Z.eqb_spec (q_ready_high q) 0) as [Eq|Eq]; [|done]. unfold dec_if. by rewrite Eq.
Qed.

Definition without (p : Z) (l : list Z) : list Z := filter (λ q, q ≠ p) l.
Definition detach (p : Z) (Q : queues) : queues := Queues (without p (qh Q)) (without p (qn Q)) (without p (qd Q)) (qr Q).

Lemma without_notin p l : p ∉ l → without p l = l.
Proof.
  induction l as [|q l IH]; [done|]. intros [Hq Hl]%not_elem_of_cons. unfold without.
  rewrite filter_cons_True by congruence. f_equal. by apply IH.
Qed.
Lemma without_split p l1 l2 : NoDup (l1 ++ p :: l2) → without p (l1 ++ p :: l2) = l1 ++ l2.
Proof.
  intros (_ & H1 & H2)%NoDup_app. apply NoDup_cons in H2 as [H2 _]. unfold without. rewrite filter_app, filter_cons_False by (intros H; by apply H).
  f_equal; apply without_notin; [|done]. intros Hp. eapply H1; [exact Hp|]. in_list.
Qed.
Lemma elem_of_without p q l : q ∈ without p l ↔ q ≠ p ∧ q ∈ l.
Proof. unfold without. by rewrite list_elem_of_filter. Qed.

(** The neighbours of a work are on its list. *)
Lemma neighbours s f la l p :
  list_rep s f la l → NoDup l → p ∈ l →
  (w_previous (work_at s p) = 0 ∨ w_previous (work_at s p) ∈ l) ∧ (w_next (work_at s p) = 0 ∨ w_next (work_at s p) ∈ l) ∧
  w_previous (work_at s p) ≠ p ∧ w_next (work_at s p) ≠ p.
Proof.
  intros (Hc & _ & _) Hn (l1 & l2 & ->)%list_elem_of_split. destruct (chain_at _ _ _ _ Hc) as (Hp0 & -> & ->).
  apply NoDup_app in Hn as (_ & N12 & N2). apply NoDup_cons in N2 as [Np _].
  assert (List.last l1 0 = 0 ∨ List.last l1 0 ∈ l1) as E1 by (destruct (decide (l1 = [])) as [->|H]; [by left|right; by apply last_elem]).
  assert (hd 0 l2 = 0 ∨ hd 0 l2 ∈ l2) as E2 by (destruct l2; [by left|right; in_list]).
  split_and!; [destruct E1; [by left|right; in_list]|destruct E2; [by left|right; in_list]| |].
  - intros E. rewrite E in E1. destruct E1 as [|E1]; [done|]. eapply N12; [exact E1|]. in_list.
  - intros E. rewrite E in E2. by destruct E2.
Qed.

(** The list of the work that is removed. *)
Lemma list_rep_removed s f la l p w (s' := workqueue_list_remove s p) :
  w = work_at s p → list_rep s f la l → NoDup l → p ∈ l →
  list_rep s' (if w_previous w =? 0 then w_next w else f) (if w_next w =? 0 then w_previous w else la) (without p l).
Proof.
  intros Ew HR Hn Hp. destruct (neighbours _ _ _ _ _ HR Hn Hp) as (_ & _ & P1 & P2). rewrite <-Ew in P1, P2.
  destruct HR as (Hc & Ef & El). apply list_elem_of_split in Hp as (l1 & l2 & ->). rewrite without_split by done.
  destruct (chain_at _ _ _ _ Hc) as (Hp0 & Ep & En). rewrite <-Ew in Ep, En. pose proof (chain_nonzero _ _ _ _ 0 Hc) as NZ. split_and!.
  - eapply chain_remove; [exact Hn|exact Hc|]. rewrite <-Ew. intros q Hq. destruct (wq_remove_links s p w Ew P1 P2 q) as (E1 & E2 & _).
    rewrite decide_False in E1, E2 by done. done.
  - rewrite Ep, En, Ef. destruct l1 as [|x l1]; [done|]. destruct (Z.eqb_spec (List.last (x :: l1) 0) 0) as [E|E]; [|done].
    exfalso. eapply NZ; [|done]. rewrite <-E. apply elem_of_app. left. by apply last_elem.
  - rewrite Ep, En, El. destruct l2 as [|x l2]; cbn [hd]; [by rewrite Z.eqb_refl, app_nil_r|].
    destruct (Z.eqb_spec x 0) as [->|_]; [exfalso; eapply NZ; [|done]; in_list|].
    rewrite (last_app_cons l1 x l2 0 0). change (l1 ++ p :: x :: l2) with (l1 ++ [p] ++ x :: l2). rewrite app_assoc. apply last_app_cons.
Qed.

(** Any other list. *)
Lemma list_rep_other s f la l p :
  list_rep s f la l → p ∉ l → w_previous (work_at s p) ≠ p → w_next (work_at s p) ≠ p →
  w_previous (work_at s p) ∉ l → w_next (work_at s p) ∉ l → list_rep (workqueue_list_remove s p) f la l.
Proof.
  intros (Hc & Ef & El) Hp P1 P2 N1 N2. split; [|done]. eapply wq_chain_ext; [|exact Hc]. intros q Hq.
  destruct (wq_remove_links s p _ eq_refl P1 P2 q) as (E1 & E2 & _). rewrite decide_False in E1, E2 by (by intros ->).
  rewrite decide_False in E1 by (by intros [_ ->]). rewrite decide_False in E2 by (by intros [_ ->]). done.
Qed.

Lemma unlinked_state w w' : unlinked w = unlinked w' → w_state w = w_state w' ∧ w_priority w = w_priority w' ∧
  w_deadline_tick w = w_deadline_tick w'.
Proof. destruct w, w'. intros [=]. done. Qed.

(** Only the links of works change. *)
Lemma remove_unlinked s f la l p q :
  list_rep s f la l → NoDup l → p ∈ l → unlinked (work_at (workqueue_list_remove s p) q) = unlinked (work_at s q).
Proof.
  intros HR Hn Hp. destruct (neighbours _ _ _ _ _ HR Hn Hp) as (_ & _ & P1 & P2). apply (wq_remove_links s p _ eq_refl P1 P2).
Qed.

Lemma belongs_detach Q p q w w' :
  unlinked w' = unlinked w → q ≠ p → belongs Q q w → belongs (detach p Q) q w'.
Proof.
  intros (Es & Ep & _)%unlinked_state Hq. unfold belongs, linked. rewrite Es, Ep. cbn [qh qn qd qr detach].
  destruct (w_state w); rewrite ?elem_of_app, ?elem_of_without; tauto.
Qed.

Lemma linked_detach Q p q : NoDup (linked Q) → p ∉ qr Q → q ∈ linked (detach p Q) ↔ q ≠ p ∧ q ∈ linked Q.
Proof.
  intros _ Hp. unfold linked. cbn [qh qn qd qr detach]. rewrite !elem_of_app, !elem_of_without.
  destruct (decide (q = p)) as [->|H]; [tauto|]. tauto.
Qed.
Lemma nodup_detach Q p : NoDup (linked Q) → NoDup (linked (detach p Q)).
Proof.
  unfold linked. cbn [qh qn qd qr detach]. rewrite !NoDup_app. intros (N1 & D1 & N2 & D2 & N3 & D3 & N4). unfold without.
  split_and!; try (by apply NoDup_filter); try done.
  - intros q [_ Hq]%list_elem_of_filter. specialize (D1 q Hq). rewrite !elem_of_app, !list_elem_of_filter in *. tauto.
  - intros q [_ Hq]%list_elem_of_filter. specialize (D2 q Hq). rewrite !elem_of_app, !list_elem_of_filter in *. tauto.
  - intros q [_ Hq]%list_elem_of_filter. exact (D3 q Hq).
Qed.

Lemma len_without p l : NoDup l → p ∈ l → len (without p l) = len l - 1.
Proof. intros Hn (l1 & l2 & ->)%list_elem_of_split. rewrite without_split, !len_app, len_cons by done. lia. Qed.

Lemma dec_if_small n : 0 < n < 4294967296 → dec_if n = n - 1.
Proof. intros H. unfold dec_if. destruct (Z.eqb_spec n 0); [lia|]. apply u32_small. lia. Qed.

Lemma linked_disjoint Q :
  NoDup (linked Q) → NoDup (qh Q) ∧ NoDup (qn Q) ∧ NoDup (qd Q) ∧ NoDup (qr Q) ∧
  (∀ q, q ∈ qh Q → (q ∉ qn Q) ∧ (q ∉ qd Q) ∧ (q ∉ qr Q)) ∧ (∀ q, q ∈ qn Q → (q ∉ qd Q) ∧ (q ∉ qr Q)) ∧ (∀ q, q ∈ qd Q → q ∉ qr Q).
Proof.
  unfold linked. rewrite !NoDup_app. intros (N1 & D1 & N2 & D2 & N3 & D3 & N4). split_and!; try done.
  - intros q Hq. specialize (D1 q Hq). rewrite !elem_of_app in D1. tauto.
  - intros q Hq. specialize (D2 q Hq). rewrite !elem_of_app in D2. tauto.
Qed.

(** A list that has neither the work nor its neighbours. *)
Lemma other_list s f la l g lb k p :
  list_rep s f la l → NoDup l → p ∈ l → list_rep s g lb k → (∀ q, q ∈ l → q ∉ k) → list_rep (workqueue_list_remove s p) g lb k.
Proof.
  intros HR Hn Hp HK Hd. destruct (neighbours _ _ _ _ _ HR Hn Hp) as (E1 & E2 & P1 & P2).
  assert (0 ∉ k) as Z0 by (intros H; by eapply chain_nonzero; [apply HK|exact H|]).
  apply list_rep_other; [done|by apply Hd|done|done| |].
  - destruct E1 as [->|E1]; [done|by apply Hd].
  - destruct E2 as [->|E2]; [done|by apply Hd].
Qed.

(** The three lists after a removal, by the list of the work. *)
Lemma wq_remove_lists s Q p (s' := workqueue_list_remove s p) :
  lists 0 s Q → p ∈ qh Q ++ qn Q ++ qd Q →
  list_rep s' (at_ (ready_first s') 0) (at_ (ready_last s') 0) (without p (qh Q)) ∧
  list_rep s' (at_ (ready_first s') 1) (at_ (ready_last s') 1) (without p (qn Q)) ∧
  list_rep s' (delayed_first s') (delayed_last s') (without p (qd Q)).
Proof.
  intros [Hh Hn Hd [Lf Ll] Nd Mem _ Bel _] Hp. destruct (linked_disjoint Q Nd) as (Nh & Nn & Nde & _ & D1 & D2 & D3).
  assert (p ∈ linked Q) as Hpl by (unfold linked; rewrite !elem_of_app in *; tauto).
  assert (p ≠ 0) as Hp0 by (apply Mem, elem_of_live in Hpl as [? _]; done).
  pose proof (Bel p (Mem p Hpl) Hp0) as Bp. unfold belongs in Bp. remember (work_at s p) as w eqn:Ew.
  destruct (remove_fields s p w Ew) as (F1 & F2 & F3 & F4). fold s' in F1, F2, F3, F4. rewrite F1, F2, F3, F4. clear F1 F2 F3 F4.
  unfold is_delayed. rewrite !elem_of_app in Hp. destruct (w_state w) eqn:Es; cbn [andb orb negb].
  - done.
  - destruct Bp as [[Ep Hin]|[Ep Hin]]; rewrite Ep; unfold WORK_PRIORITY_HIGH, WORK_PRIORITY_NORMAL.
    + rewrite (without_notin p (qn Q)), (without_notin p (qd Q)) by (apply D1, Hin). split_and!.
      * pose proof (list_rep_removed s _ _ _ p w Ew Hh Nh Hin) as HR. fold s' in HR.
        destruct (w_previous w =? 0), (w_next w =? 0); cbn [negb]; rewrite ?at_upd by lia; exact HR.
      * assert (list_rep s' (at_ (ready_first s) 1) (at_ (ready_last s) 1) (qn Q)) as HR
          by (apply (other_list _ _ _ _ _ _ _ _ Hh Nh Hin Hn); intros; by apply D1).
        destruct (w_previous w =? 0), (w_next w =? 0); cbn [negb]; rewrite ?at_upd by lia; exact HR.
      * apply (other_list _ _ _ _ _ _ _ _ Hh Nh Hin Hd). intros; by apply D1.
    + assert (∀ q, q ∈ qn Q → q ∉ qh Q) as D1' by (intros q Hq Hq'; destruct (D1 q Hq') as [? _]; done).
      rewrite (without_notin p (qh Q)), (without_notin p (qd Q)) by (first [by apply D1'|by apply D2]). split_and!.
      * assert (list_rep s' (at_ (ready_first s) 0) (at_ (ready_last s) 0) (qh Q)) as HR
          by (by apply (other_list _ _ _ _ _ _ _ _ Hn Nn Hin Hh)).
        destruct (w_previous w =? 0), (w_next w =? 0); cbn [negb]; rewrite ?at_upd by lia; exact HR.
      * pose proof (list_rep_removed s _ _ _ p w Ew Hn Nn Hin) as HR. fold s' in HR.
        destruct (w_previous w =? 0), (w_next w =? 0); cbn [negb]; rewrite ?at_upd by lia; exact HR.
      * apply (other_list _ _ _ _ _ _ _ _ Hn Nn Hin Hd). intros; by apply D2.
  - assert (∀ q, q ∈ qd Q → (q ∉ qh Q) ∧ (q ∉ qn Q)) as D'.
    { intros q Hq. split; intros Hq'; [by destruct (D1 q Hq') as (_ & ? & _)|by destruct (D2 q Hq') as [? _] ]. }
    rewrite (without_notin p (qh Q)), (without_notin p (qn Q)) by (by apply D'). split_and!.
    + apply (other_list _ _ _ _ _ _ _ _ Hd Nde Bp Hh). intros; by apply D'.
    + apply (other_list _ _ _ _ _ _ _ _ Hd Nde Bp Hn). intros; by apply D'.
    + exact (list_rep_removed s _ _ _ p w Ew Hd Nde Bp).
  - destruct Hp as [Hp|[Hp|Hp]]; exfalso; [by destruct (D1 p Hp) as (_ & _ & ?)|by destruct (D2 p Hp)|by apply (D3 p Hp)].
Qed.

(** Removing a ready or delayed work detaches it. *)
Lemma remove_spec s Q p :
  Inv 0 s Q → p ∈ qh Q ++ qn Q ++ qd Q → Inv p (workqueue_list_remove s p) (detach p Q).
Proof.
  intros HI Hp. pose proof (linked_bound _ _ _ HI) as HB. destruct HI as [Rg Ls]. pose proof (wq_remove_lists s Q p Ls Hp) as (R1 & R2 & R3).
  split; [exact (registered_frame _ _ (frame_list_remove s p) Rg)|].
  pose proof (frame_registry _ _ (frame_list_remove s p)) as Er.
  destruct Ls as [Hh Hn Hd [Lf Ll] Nd Mem _ Bel (Ch & Cn & Cd & Cr)].
  destruct (linked_disjoint Q Nd) as (Nh & Nn & Nde & Nr & D1 & D2 & D3). rewrite !elem_of_app in Hp.
  assert (p ∈ linked Q) as Hpl by (unfold linked; rewrite !elem_of_app; tauto).
  assert (p ∉ qr Q) as Hpr by (destruct Hp as [Hp|[Hp|Hp]]; [apply D1, Hp|apply D2, Hp|apply D3, Hp]).
  assert (p ≠ 0) as Hp0 by (apply Mem, elem_of_live in Hpl as [? _]; done).
  pose proof (Bel p (Mem p Hpl) Hp0) as Bp.
  destruct (remove_fields s p _ eq_refl) as (F1 & F2 & _). destruct (remove_counts s p _ eq_refl) as (C1 & C2 & C3 & C4).
  assert (∀ q, unlinked (work_at (workqueue_list_remove s p) q) = unlinked (work_at s q)) as HU.
  { intros q. destruct Hp as [Hp|[Hp|Hp]]; [exact (remove_unlinked _ _ _ _ _ q Hh Nh Hp)|exact (remove_unlinked _ _ _ _ _ q Hn Nn Hp)|
      exact (remove_unlinked _ _ _ _ _ q Hd Nde Hp)]. }
  split; [exact R1|exact R2|exact R3| |by apply nodup_detach| | | |].
  - rewrite F1, F2. split; [destruct (_ || negb (w_previous _ =? 0))|destruct (_ || negb (w_next _ =? 0))]; rewrite ?len_upd; assumption.
  - intros q [_ Hq]%linked_detach; [|done..]. rewrite Er. by apply Mem.
  - intros _. rewrite Er. split; [by apply Mem|]. rewrite linked_detach by done. tauto.
  - intros q Hq Hqp. rewrite Er in Hq. apply (belongs_detach Q p q (work_at s q)); [apply HU|done|].
    apply Bel; [done|]. by apply elem_of_live in Hq as [? _].
  - rewrite C1, C2, C3, C4, Ch, Cn, Cd, Cr. cbn [qh qn qd qr detach]. unfold belongs in Bp. unfold is_delayed.
    pose proof (len_nonneg (qh Q)). pose proof (len_nonneg (qn Q)). pose proof (len_nonneg (qd Q)). pose proof (len_nonneg (qr Q)).
    assert (∀ l, p ∈ l → NoDup l → len l ≤ 64 → dec_if (len l) = len (without p l)) as DL.
    { intros l Hin Hnl Hle. rewrite len_without by done. pose proof (len_without p l Hnl Hin). pose proof (len_nonneg (without p l)). apply dec_if_small. lia. }
    unfold WORK_PRIORITY_HIGH, WORK_PRIORITY_NORMAL in Bp. destruct (w_state (work_at s p)); cbn [andb negb].
    + done.
    + destruct Bp as [[-> Hin]|[-> Hin]]; cbn [Z.eqb Pos.eqb].
      * rewrite DL, (without_notin p (qn Q)), (without_notin p (qd Q)) by (done || lia || by apply D1). done.
      * rewrite DL, (without_notin p (qh Q)), (without_notin p (qd Q)) by (first [done|lia|by apply D2|by intros Hq; destruct (D1 p Hq)]). done.
    + rewrite DL, (without_notin p (qh Q)), (without_notin p (qn Q)) by (first [done|lia|by intros Hq; destruct (D1 p Hq) as (_ & ? & _)|
        by intros Hq; destruct (D2 p Hq)]). done.
    + done.
Qed.

(** ** Appending to a ready queue *)

Definition push (priority p : Z) (Q : queues) : queues :=
  if priority =? WORK_PRIORITY_HIGH then Queues (qh Q ++ [p]) (qn Q) (qd Q) (qr Q)
  else Queues (qh Q) (qn Q ++ [p]) (qd Q) (qr Q).

Lemma append_links s p (last := at_ (ready_last s) (w_priority (work_at s p))) q :
  last ≠ p → let w' := work_at (workqueue_ready_append s p) q in
  if decide (q = p) then w_previous w' = last ∧ w_next w' = 0 ∧ w_state w' = WORK_STATE_READY ∧ w_deadline_tick w' = w_deadline_tick (work_at s p)
  else w_previous w' = w_previous (work_at s q) ∧
    w_next w' = (if decide (q ≠ 0 ∧ q = last) then p else w_next (work_at s q)) ∧ unlinked w' = unlinked (work_at s q).
Proof.
  intros HL. cbn zeta. unfold workqueue_ready_append. fold last. autorewrite with wq. rewrite work_at_put.
  destruct (Z.eqb_spec last 0) as [E|E], (decide (q = p)) as [->|Hq]; autorewrite with wq; repeat (rewrite work_at_put; autorewrite with wq).
  all: split_and!; by_cases. all: subst; by_cases.
Qed.

Lemma append_fields s p (w := work_at s p) (s' := workqueue_ready_append s p) :
  let last := at_ (ready_last s) (w_priority w) in
  ready_first s' = (if last =? 0 then upd (ready_first s) (w_priority w) p else ready_first s) ∧
  ready_last s' = upd (ready_last s) (w_priority w) p ∧
  delayed_first s' = delayed_first s ∧ delayed_last s' = delayed_last s ∧
  q_ready_high (wq_stats s') = (if w_priority w =? 0 then inc (q_ready_high (wq_stats s)) else q_ready_high (wq_stats s)) ∧
  q_ready_normal (wq_stats s') = (if w_priority w =? 0 then q_ready_normal (wq_stats s) else inc (q_ready_normal (wq_stats s))) ∧
  q_delayed (wq_stats s') = q_delayed (wq_stats s) ∧ q_running (wq_stats s') = q_running (wq_stats s).
Proof.
  cbn zeta. unfold s', workqueue_ready_append, workqueue_update_peak, WORK_PRIORITY_HIGH. fold w.
  destruct (_ >? _), (at_ (ready_last s) (w_priority w) =? 0), (w_priority w =? 0); done.
Qed.

Lemma inc_small n : 0 ≤ n < 4294967295 → inc n = n + 1.
Proof. intros H. apply u32_small. lia. Qed.

(** A list that gets no work. *)
Lemma list_rep_kept s s' f la l :
  list_rep s f la l →
  (∀ q, q ∈ l → w_previous (work_at s' q) = w_previous (work_at s q) ∧ w_next (work_at s' q) = w_next (work_at s q)) →
  list_rep s' f la l.
Proof. intros (Hc & Ef & El) H. split; [|done]. by eapply wq_chain_ext. Qed.

(** A list that gets a work between two parts. *)
Lemma list_rep_insert s s' f la f' la' l1 p l2 :
  list_rep s f la (l1 ++ l2) → NoDup (l1 ++ l2) → p ∉ l1 ++ l2 → p ≠ 0 →
  w_previous (work_at s' p) = List.last l1 0 → w_next (work_at s' p) = hd 0 l2 →
  (∀ q, q ≠ p → w_previous (work_at s' q) = (if decide (q ≠ 0 ∧ q = hd 0 l2) then p else w_previous (work_at s q)) ∧
     w_next (work_at s' q) = (if decide (q ≠ 0 ∧ q = List.last l1 0) then p else w_next (work_at s q))) →
  f' = (if decide (l1 = []) then p else f) → la' = (if decide (l2 = []) then p else la) →
  list_rep s' f' la' (l1 ++ p :: l2).
Proof.
  intros (Hc & Ef & El) Hn Hp Hp0 H1 H2 H3 -> ->. split; [by eapply chain_insert|]. split.
  - rewrite Ef. case_decide as D; [by subst|]. by destruct l1.
  - rewrite El. case_decide as D; [subst; by rewrite last_last|]. destruct l2 as [|y l2]; [done|].
    change (l1 ++ p :: y :: l2) with (l1 ++ [p] ++ y :: l2). by rewrite app_assoc, !(last_app_cons _ y l2 0 0).
Qed.

Lemma attach_belongs Q Q' p s s' :
  (∀ q, q ∈ live (wq_registry s) → q ≠ p → belongs Q q (work_at s q)) →
  (∀ q, q ≠ p → unlinked (work_at s' q) = unlinked (work_at s q)) →
  (∀ q, q ≠ p → (q ∈ qh Q' ↔ q ∈ qh Q) ∧ (q ∈ qn Q' ↔ q ∈ qn Q) ∧ (q ∈ qd Q' ↔ q ∈ qd Q) ∧ (q ∈ qr Q' ↔ q ∈ qr Q)) →
  ∀ q, q ∈ live (wq_registry s) → q ≠ p → belongs Q' q (work_at s' q).
Proof.
  intros HB HU HQ q Hq Hqp. specialize (HB q Hq Hqp). destruct (unlinked_state _ _ (HU q Hqp)) as (Es & Ep & _).
  destruct (HQ q Hqp) as (E1 & E2 & E3 & E4). unfold belongs, linked in *. rewrite Es, Ep.
  destruct (w_state (work_at s q)); rewrite ?elem_of_app in *; tauto.
Qed.

(** A detached work put on a list, whatever list it is. *)
Lemma attach_spec s s' Q Q' p :
  p ≠ 0 → Inv p s Q → frame s s' →
  (∀ q, q ≠ p → unlinked (work_at s' q) = unlinked (work_at s q)) →
  list_rep s' (at_ (ready_first s') 0) (at_ (ready_last s') 0) (qh Q') →
  list_rep s' (at_ (ready_first s') 1) (at_ (ready_last s') 1) (qn Q') →
  list_rep s' (delayed_first s') (delayed_last s') (qd Q') →
  len (ready_first s') = 2 ∧ len (ready_last s') = 2 →
  linked Q' ≡ₚ p :: linked Q →
  (∀ q, q ≠ p → (q ∈ qh Q' ↔ q ∈ qh Q) ∧ (q ∈ qn Q' ↔ q ∈ qn Q) ∧ (q ∈ qd Q' ↔ q ∈ qd Q) ∧ (q ∈ qr Q' ↔ q ∈ qr Q)) →
  belongs Q' p (work_at s' p) →
  q_ready_high (wq_stats s') = len (qh Q') ∧ q_ready_normal (wq_stats s') = len (qn Q') ∧
    q_delayed (wq_stats s') = len (qd Q') ∧ q_running (wq_stats s') = len (qr Q') →
  Inv 0 s' Q'.
Proof.
  intros Hp0 [Rg Ls] Fr HU Hh Hn Hd Hl HP HQ Bp HC. split; [by eapply registered_frame|].
  destruct Ls as [_ _ _ _ Nd Mem Det Bel _]. destruct (Det Hp0) as [Hreg Hnl]. pose proof (frame_registry _ _ Fr) as Er.
  split; [done..| | |done| |done].
  - rewrite HP. by constructor.
  - intros q. rewrite HP, Er. intros [->|Hq]%elem_of_cons; [done|by apply Mem].
  - intros q Hq _. rewrite Er in Hq. destruct (decide (q = p)) as [->|Hqp]; [done|]. by eapply attach_belongs.
Qed.

(** The list that grows, and any other. *)
Lemma append_here s f l p (last := at_ (ready_last s) (w_priority (work_at s p))) :
  list_rep s f last l → NoDup l → p ∉ l → p ≠ 0 →
  list_rep (workqueue_ready_append s p) (if last =? 0 then p else f) p (l ++ [p]) ∧ last ≠ p.
Proof.
  intros HR Hn Hp Hp0. pose proof HR as (Hc & Ef & El). assert (List.last l 0 = 0 ↔ l = []) as L0.
  { split; [|by intros ->]. destruct (decide (l = [])) as [|Hne]; [done|]. intros E. apply last_elem with (a := 0) in Hne. rewrite E in Hne.
    by destruct (chain_nonzero _ _ _ _ _ Hc Hne). }
  assert (last ≠ p) as Hlp.
  { rewrite El. destruct (decide (l = [])) as [->|Hne]; [by intros <-|]. intros E. apply last_elem with (a := 0) in Hne. by rewrite E in Hne. }
  split; [|done]. pose proof (append_links s p) as AL. cbn zeta in AL. fold last in AL.
  pose proof (AL p Hlp) as Ap. rewrite decide_True in Ap by done. destruct Ap as (E1 & E2 & _).
  apply (list_rep_insert s _ f last _ _ l p []); rewrite ?app_nil_r; try done; [by rewrite E1| |].
  - intros q Hq. specialize (AL q Hlp). rewrite decide_False in AL by done. destruct AL as (-> & -> & _). rewrite El.
    split; [|done]. rewrite decide_False by (cbn [hd]; tauto). done.
  - rewrite El. destruct (Z.eqb_spec (List.last l 0) 0); by_cases.
Qed.

Lemma append_elsewhere s f la l p (last := at_ (ready_last s) (w_priority (work_at s p))) :
  last ≠ p → list_rep s f la l → p ∉ l → last ∉ l → list_rep (workqueue_ready_append s p) f la l.
Proof.
  intros Hlp HR Hp Hl. eapply list_rep_kept; [exact HR|]. intros q Hq. pose proof (append_links s p q Hlp) as AL. cbn zeta in AL.
  rewrite decide_False in AL by (by intros ->). fold last in AL. rewrite (decide_False (P := q ≠ 0 ∧ q = last)) in AL by (by intros [_ ->]).
  by destruct AL as (-> & -> & _).
Qed.

Lemma last_member s f la l (k : list Z) : list_rep s f la l → 0 ∉ k → (∀ q, q ∈ l → q ∉ k) → la ∉ k.
Proof. intros (_ & _ & ->) H0 H. destruct (decide (l = [])) as [->|Hne]; [done|]. by apply H, last_elem. Qed.
Lemma list_rep_zero s f la l : list_rep s f la l → 0 ∉ l.
Proof. intros (Hc & _) H. by eapply chain_nonzero; [exact Hc|exact H|]. Qed.

(** The three lists after the append. *)
Lemma append_lists s Q p (s' := workqueue_ready_append s p) (Q' := push (w_priority (work_at s p)) p Q) :
  p ≠ 0 → Inv p s Q →
  list_rep s' (at_ (ready_first s') 0) (at_ (ready_last s') 0) (qh Q') ∧
  list_rep s' (at_ (ready_first s') 1) (at_ (ready_last s') 1) (qn Q') ∧
  list_rep s' (delayed_first s') (delayed_last s') (qd Q') ∧ at_ (ready_last s) (w_priority (work_at s p)) ≠ p.
Proof.
  intros Hp0 HI. pose proof (append_fields s p) as (F1 & F2 & F3 & F4 & _). fold s' in F1, F2, F3, F4. rewrite F1, F2, F3, F4.
  destruct HI as [Rg [Hh Hn Hd [Lf Ll] Nd Mem Det _ _] ]. destruct (Det Hp0) as [Hreg Hnl].
  destruct (linked_disjoint Q Nd) as (Nh & Nn & _ & _ & D1 & D2 & _). unfold linked in Hnl. rewrite !elem_of_app in Hnl.
  pose proof (list_rep_zero _ _ _ _ Hh) as Z1. pose proof (list_rep_zero _ _ _ _ Hn) as Z2. pose proof (list_rep_zero _ _ _ _ Hd) as Z3.
  pose proof (append_elsewhere s) as AE. unfold Q', push, WORK_PRIORITY_HIGH.
  destruct (rg_priority _ Rg p Hreg) as [Pr|Pr].
  - destruct (append_here s (at_ (ready_first s) 0) (qh Q) p) as [H0 Hlp]; [by rewrite Pr|done|tauto|done|]. fold s' in H0.
    assert (list_rep s' (at_ (ready_first s) 1) (at_ (ready_last s) 1) (qn Q)) as H1.
    { apply AE; [done|done|tauto|]. rewrite Pr. eapply last_member; [exact Hh|done|]. intros q Hq. by apply D1. }
    assert (list_rep s' (delayed_first s) (delayed_last s) (qd Q)) as H2.
    { apply AE; [done|done|tauto|]. rewrite Pr. eapply last_member; [exact Hh|done|]. intros q Hq. by apply D1. }
    rewrite Pr in *. cbn [Z.eqb qh qn qd]. destruct (_ =? 0); rewrite ?at_upd by lia; done.
  - destruct (append_here s (at_ (ready_first s) 1) (qn Q) p) as [H1 Hlp]; [by rewrite Pr|done|tauto|done|]. fold s' in H1.
    assert (list_rep s' (at_ (ready_first s) 0) (at_ (ready_last s) 0) (qh Q)) as H0.
    { apply AE; [done|done|tauto|]. rewrite Pr. eapply last_member; [exact Hn|done|]. intros q Hq Hq'. by destruct (D1 q Hq'). }
    assert (list_rep s' (delayed_first s) (delayed_last s) (qd Q)) as H2.
    { apply AE; [done|done|tauto|]. rewrite Pr. eapply last_member; [exact Hn|done|]. intros q Hq. by apply D2. }
    rewrite Pr in *. change (1 =? 0) with false. cbn [qh qn qd]. destruct (_ =? 0); rewrite ?at_upd by lia; done.
Qed.

Lemma wq_append_spec s Q p :
  p ≠ 0 → Inv p s Q → Inv 0 (workqueue_ready_append s p) (push (w_priority (work_at s p)) p Q).
Proof.
  intros Hp0 HI. pose proof (linked_bound _ _ _ HI) as HB. pose proof (append_fields s p) as (F1 & F2 & F3 & F4 & C1 & C2 & C3 & C4).
  destruct (append_lists s Q p Hp0 HI) as (L1 & L2 & L3 & Hlp). pose proof (append_links s p) as AL. cbn zeta in AL.
  pose proof (AL p Hlp) as Ap. rewrite decide_True in Ap by done. destruct Ap as (_ & _ & Es & _).
  destruct (HI) as [Rg [_ _ _ [Lf Ll] _ _ Det _ (Ch & Cn & Cd & Cr)] ]. destruct (Det Hp0) as [Hreg _].
  eapply attach_spec; [done|exact HI|apply frame_ready_append| |exact L1|exact L2|exact L3|..].
  - intros q Hq. specialize (AL q Hlp). rewrite decide_False in AL by done. apply AL.
  - rewrite F1, F2. destruct (at_ (ready_last s) _ =? 0); rewrite ?len_upd; done.
  - unfold push, linked. destruct (_ =? WORK_PRIORITY_HIGH); cbn [qh qn qd qr]; rewrite <-app_assoc; cbn [app].
    + symmetry. apply Permutation_middle.
    + rewrite !(app_assoc (qh Q)). symmetry. apply Permutation_middle.
  - intros q Hq. unfold push. destruct (_ =? WORK_PRIORITY_HIGH); cbn [qh qn qd qr]; rewrite !elem_of_app, !list_elem_of_singleton; tauto.
  - unfold belongs. rewrite Es, (frame_priority _ _ p (frame_ready_append s p)). unfold push, WORK_PRIORITY_HIGH, WORK_PRIORITY_NORMAL.
    destruct (rg_priority _ Rg p Hreg) as [-> | ->]; [left|right]; (split; [done|cbn; in_list]).
  - rewrite C1, C2, C3, C4, Ch, Cn, Cd, Cr. unfold push, WORK_PRIORITY_HIGH.
    pose proof (len_nonneg (qh Q)). pose proof (len_nonneg (qn Q)). pose proof (len_nonneg (qd Q)). pose proof (len_nonneg (qr Q)).
    destruct (w_priority (work_at s p) =? 0); cbn [qh qn qd qr]; rewrite inc_small, len_app by lia; done.
Qed.

(** ** Inserting into the delayed list *)

(** Where the insertion puts a work: before the first one due later, seen from [now]. *)
Fixpoint insert_due (s : wq_t) (now remaining p : Z) (l : list Z) : list Z :=
  match l with
  | [] => [p]
  | q :: l => if w_deadline_tick (work_at s q) -w now >? remaining then p :: q :: l else q :: insert_due s now remaining p l
  end.

Lemma insert_due_split s now remaining p l :
  ∃ l1 l2, l = l1 ++ l2 ∧ insert_due s now remaining p l = l1 ++ p :: l2 ∧
    (∀ q, q ∈ l1 → w_deadline_tick (work_at s q) -w now ≤ remaining) ∧
    (l2 ≠ [] → w_deadline_tick (work_at s (hd 0 l2)) -w now > remaining).
Proof.
  induction l as [|q l (l1 & l2 & -> & E & H1 & H2)]; cbn [insert_due].
  - exists [], []. split_and!; [done|done| |done]. by intros q ?%elem_of_nil.
  - destruct (Z.gtb_spec (w_deadline_tick (work_at s q) -w now) remaining) as [Hgt|Hle].
    + exists [], (q :: l1 ++ l2). split_and!; [done|done| |cbn; lia]. by intros r ?%elem_of_nil.
    + exists (q :: l1), l2. rewrite E. split_and!; [done|done| |done]. intros r [->|Hr]%elem_of_cons; [lia|by apply H1].
Qed.

(** The search stops at the first work of the second part; 65 steps reach the end of
    any list of 64 works. *)
Lemma delayed_search_spec s now remaining l fuel a :
  chain (work_at s) a l 0 → (length l < fuel)%nat →
  ∃ l1 l2, l = l1 ++ l2 ∧ delayed_search fuel s (hd 0 l) remaining now = hd 0 l2 ∧
    ∀ p, insert_due s now remaining p l = l1 ++ p :: l2.
Proof.
  revert l a. induction fuel as [|fuel IH]; intros l a Hc Hf; [lia|]. destruct l as [|q l]; cbn [hd delayed_search insert_due].
  - by exists [], [].
  - destruct Hc as (Hq0 & _ & Hn & Hc). rewrite (proj2 (Z.eqb_neq _ _) Hq0).
    destruct (_ >? remaining) eqn:E; [by exists [], (q :: l)|].
    rewrite Hn. cbn in Hf. destruct (IH l q Hc ltac:(lia)) as (l1 & l2 & -> & -> & HI). exists (q :: l1), l2. split_and!; [done|done|].
    intros p. by rewrite HI.
Qed.

Lemma insert_links s p now cur (prev := if cur =? 0 then delayed_last s else w_previous (work_at s cur)) q :
  cur = delayed_search 65 s (delayed_first s) (w_deadline_tick (work_at s p) -w now) now →
  cur ≠ p → prev ≠ p → cur = 0 ∨ cur ≠ prev → let w' := work_at (workqueue_delayed_insert s p now) q in
  if decide (q = p) then w_previous w' = prev ∧ w_next w' = cur ∧ w_state w' = WORK_STATE_DELAYED ∧ w_deadline_tick w' = w_deadline_tick (work_at s p)
  else w_previous w' = (if decide (q ≠ 0 ∧ q = cur) then p else w_previous (work_at s q)) ∧
    w_next w' = (if decide (q ≠ 0 ∧ q = prev) then p else w_next (work_at s q)) ∧ unlinked w' = unlinked (work_at s q).
Proof.
  intros Ec Hc Hp Hcp. cbn zeta. unfold workqueue_delayed_insert. rewrite <-Ec. clear Ec. autorewrite with wq. rewrite work_at_put.
  unfold prev in *. clear prev. destruct (Z.eqb_spec cur 0) as [E|E].
  - destruct (Z.eqb_spec (delayed_last s) 0) as [E1|E1], (decide (q = p)) as [->|Hq]; autorewrite with wq;
      repeat (rewrite work_at_put; autorewrite with wq).
    all: split_and!; by_cases. all: subst; by_cases.
  - destruct (Z.eqb_spec (w_previous (work_at s cur)) 0) as [E1|E1], (decide (q = p)) as [->|Hq]; autorewrite with wq;
      repeat (rewrite work_at_put; autorewrite with wq).
    all: split_and!; by_cases. all: subst; by_cases.
Qed.

Lemma insert_fields s p now cur (prev := if cur =? 0 then delayed_last s else w_previous (work_at s cur)) (s' := workqueue_delayed_insert s p now) :
  cur = delayed_search 65 s (delayed_first s) (w_deadline_tick (work_at s p) -w now) now →
  ready_first s' = ready_first s ∧ ready_last s' = ready_last s ∧
  delayed_first s' = (if prev =? 0 then p else delayed_first s) ∧ delayed_last s' = (if cur =? 0 then p else delayed_last s) ∧
  q_ready_high (wq_stats s') = q_ready_high (wq_stats s) ∧ q_ready_normal (wq_stats s') = q_ready_normal (wq_stats s) ∧
  q_delayed (wq_stats s') = inc (q_delayed (wq_stats s)) ∧ q_running (wq_stats s') = q_running (wq_stats s).
Proof.
  intros Ec. unfold s', workqueue_delayed_insert, workqueue_update_peak, prev. rewrite <-Ec. clear Ec.
  destruct (cur =? 0); destruct (_ =? 0), (_ >? _); done.
Qed.

(** A list whose works are not next to the new one. *)
Lemma insert_elsewhere s f la l p now cur (prev := if cur =? 0 then delayed_last s else w_previous (work_at s cur)) :
  cur = delayed_search 65 s (delayed_first s) (w_deadline_tick (work_at s p) -w now) now →
  cur ≠ p → prev ≠ p → cur = 0 ∨ cur ≠ prev → list_rep s f la l → p ∉ l → cur ∉ l → prev ∉ l →
  list_rep (workqueue_delayed_insert s p now) f la l.
Proof.
  intros Ec H1 H2 H3 HR Hp Hc Hl. eapply list_rep_kept; [exact HR|]. intros q Hq. pose proof (insert_links s p now cur q Ec H1 H2 H3) as AL. cbn zeta in AL.
  rewrite decide_False in AL by (by intros ->). fold prev in AL. rewrite (decide_False (P := q ≠ 0 ∧ q = prev)) in AL by (by intros [_ ->]).
  rewrite (decide_False (P := q ≠ 0 ∧ q = cur)) in AL by (by intros [_ ->]). by destruct AL as (-> & -> & _).
Qed.

(** The neighbours the insertion finds. *)
Lemma insert_place s f la l1 l2 (cur := hd 0 l2) :
  list_rep s f la (l1 ++ l2) → NoDup (l1 ++ l2) →
  (if cur =? 0 then la else w_previous (work_at s cur)) = List.last l1 0 ∧
  (cur = 0 ∧ l2 = [] ∨ cur ∈ l2) ∧ (List.last l1 0 = 0 ∧ l1 = [] ∨ List.last l1 0 ∈ l1) ∧ (cur = 0 ∨ cur ≠ List.last l1 0).
Proof.
  intros HR Hn. pose proof (list_rep_zero _ _ _ _ HR) as HZ. destruct HR as (Hc & _ & El). rewrite elem_of_app in HZ.
  assert (List.last l1 0 = 0 ∧ l1 = [] ∨ List.last l1 0 ∈ l1) as E1 by (destruct (decide (l1 = [])) as [->|Hne]; [by left|right; by apply last_elem]).
  destruct l2 as [|c l2]; cbn [hd] in *; unfold cur.
  - rewrite Z.eqb_refl, El, app_nil_r. split_and!; [done|by left|done|by left].
  - destruct (chain_at _ _ _ _ Hc) as (Hc0 & Ep & _). rewrite (proj2 (Z.eqb_neq _ _) Hc0). split_and!; [done|right; in_list|done|right].
    intros E. rewrite <-E in E1. destruct E1 as [[E0 _]|E1]; [done|]. apply NoDup_app in Hn as (_ & N12 & _). eapply N12; [exact E1|in_list].
Qed.

Lemma wq_insert_spec s Q p now :
  p ≠ 0 → Inv p s Q →
  Inv 0 (workqueue_delayed_insert s p now)
    (Queues (qh Q) (qn Q) (insert_due s now (w_deadline_tick (work_at s p) -w now) p (qd Q)) (qr Q)).
Proof.
  intros Hp0 HI. pose proof (linked_bound _ _ _ HI) as HB. pose proof HI as [_ [Hh Hn Hd HL Nd _ Det _ (Ch & Cn & Cd & Cr)] ].
  destruct (Det Hp0) as [_ Hnl]. destruct (linked_disjoint Q Nd) as (_ & _ & Nde & _ & D1 & D2 & _). unfold linked in Hnl. rewrite !elem_of_app in Hnl.
  pose proof (len_nonneg (qh Q)). pose proof (len_nonneg (qn Q)). pose proof (len_nonneg (qd Q)). pose proof (len_nonneg (qr Q)).
  pose proof (list_rep_zero _ _ _ _ Hh) as Z1. pose proof (list_rep_zero _ _ _ _ Hn) as Z2.
  pose proof Hd as (Hc & Ef & El). remember (w_deadline_tick (work_at s p) -w now) as rem eqn:Er.
  destruct (delayed_search_spec s now rem (qd Q) 65 0 Hc) as (l1 & l2 & Eq & Es & Ei); [unfold len in *; lia|].
  rewrite <-Ef, Er in Es. rewrite (Ei p). clear Ei. rewrite Eq in Hd, Nde, Hnl.
  destruct (insert_place s _ _ l1 l2 Hd Nde) as (Ep & M2 & M1 & Hcp). set (cur := hd 0 l2) in *. symmetry in Es.
  assert (∀ q, q ∈ l1 ++ l2 → (q ∉ qh Q) ∧ (q ∉ qn Q)) as D.
  { intros q Hq. rewrite <-Eq in Hq. split; intros Hq'; [by destruct (D1 q Hq') as (_ & ? & _)|by destruct (D2 q Hq')]. }
  rewrite elem_of_app in Hnl. assert (cur ≠ p) as P1 by (destruct M2 as [[-> _]|M2]; [done|intros ->; tauto]).
  assert (List.last l1 0 ≠ p) as P2 by (destruct M1 as [[-> _]|M1]; [done|intros E; rewrite E in M1; tauto]).
  assert ((cur ∉ qh Q) ∧ (cur ∉ qn Q)) as [K1 K2] by (destruct M2 as [[-> _]|M2]; [done|apply D; in_list]).
  assert ((List.last l1 0 ∉ qh Q) ∧ (List.last l1 0 ∉ qn Q)) as [K3 K4] by (destruct M1 as [[-> _]|M1]; [done|apply D; in_list]).
  pose proof (insert_links s p now cur) as IL. pose proof (insert_fields s p now cur Es) as (F1 & F2 & F3 & F4 & C1 & C2 & C3 & C4).
  pose proof (λ f la l, insert_elsewhere s f la l p now cur Es P1) as IE. cbn zeta in IL. rewrite Ep in IL, IE, F3.
  pose proof (IL p Es P1 P2 Hcp) as Ap. rewrite decide_True in Ap by done. destruct Ap as (A1 & A2 & A3 & _).
  assert (∀ q, q ≠ p → _) as AL by (intros q Hq; pose proof (IL q Es P1 P2 Hcp) as A; rewrite decide_False in A by done; exact A).
  eapply attach_spec; [done|exact HI|apply frame_delayed_insert|..]; cbn [qh qn qd qr]; rewrite ?F1, ?F2, ?F3, ?F4, ?C1, ?C2, ?C3, ?C4, ?Ch, ?Cn, ?Cd, ?Cr.
  - intros q Hq. apply (AL q Hq).
  - apply IE; [done|done|done|tauto|done|done].
  - apply IE; [done|done|done|tauto|done|done].
  - eapply list_rep_insert; [exact Hd|done| |done|done|done| | |].
    + rewrite elem_of_app. tauto.
    + intros q Hq. destruct (AL q Hq) as (-> & -> & _). done.
    + destruct M1 as [[-> ->]|M1]; [done|]. rewrite decide_False by (by intros ->; apply elem_of_nil in M1).
      destruct (Z.eqb_spec (List.last l1 0) 0) as [E|]; [|done]. rewrite E in M1. destruct (list_rep_zero _ _ _ _ Hd). in_list.
    + destruct M2 as [[-> ->]|M2]; [done|]. rewrite decide_False by (by intros ->; apply elem_of_nil in M2).
      destruct (Z.eqb_spec cur 0) as [E|]; [|done]. rewrite E in M2. destruct (list_rep_zero _ _ _ _ Hd). in_list.
  - done.
  - unfold linked. cbn [qh qn qd qr]. rewrite Eq. rewrite <-!app_assoc. cbn [app]. rewrite !(app_assoc (qh Q)), !(app_assoc (_ ++ qn Q)). symmetry.
    apply Permutation_middle.
  - intros q Hq. rewrite Eq. rewrite !elem_of_app, elem_of_cons. tauto.
  - unfold belongs. rewrite A3. cbn. in_list.
  - rewrite Eq in *. rewrite inc_small by (rewrite ?len_app in *; lia). rewrite !len_app, len_cons. split_and!; try done. lia.
Qed.
