(* ===== verification/WorkqueueCalls.v ===== *)
(** * The calls of the work queue keep its invariant: src/core/workqueue.c

    The effect of promotion, scheduling, cancellation, registration, power and
    worker calls and of the execution of a work on the lists of the service. *)

From stdpp Require Import gmap.
From S2P Require Import Prelude Registry Workqueue WorkqueueInv.

(** ** Updates that do not touch the lists *)

Lemma inv_kept x s s' Q :
  frame s s' → Inv x s Q →
  (∀ q, q ∈ live (wq_registry s) → q ≠ x →
     w_previous (work_at s' q) = w_previous (work_at s q) ∧ w_next (work_at s' q) = w_next (work_at s q) ∧
     w_state (work_at s' q) = w_state (work_at s q)) →
  ready_first s' = ready_first s ∧ ready_last s' = ready_last s ∧ delayed_first s' = delayed_first s ∧ delayed_last s' = delayed_last s →
  q_ready_high (wq_stats s') = q_ready_high (wq_stats s) ∧ q_ready_normal (wq_stats s') = q_ready_normal (wq_stats s) ∧
    q_delayed (wq_stats s') = q_delayed (wq_stats s) ∧ q_running (wq_stats s') = q_running (wq_stats s) →
  Inv x s' Q.
Proof.
  intros Fr [Rg [Hh Hn Hd Hl Nd Mem Det Bel HC] ] HW (F1 & F2 & F3 & F4) (C1 & C2 & C3 & C4). split; [by eapply registered_frame|].
  pose proof (frame_registry _ _ Fr) as Er.
  assert (∀ q, q ∈ linked Q → w_previous (work_at s' q) = w_previous (work_at s q) ∧ w_next (work_at s' q) = w_next (work_at s q)) as HK.
  { intros q Hq. assert (q ≠ x) as Hx. { intros ->. apply Det; [|done]. by apply Mem, elem_of_live in Hq as [? _]. }
    destruct (HW q (Mem q Hq) Hx) as (-> & -> & _). done. }
  split; rewrite ?F1, ?F2, ?F3, ?F4, ?C1, ?C2, ?C3, ?C4, ?Er; try done.
  - eapply list_rep_kept; [exact Hh|]. intros q Hq. apply HK. unfold linked. in_list.
  - eapply list_rep_kept; [exact Hn|]. intros q Hq. apply HK. unfold linked. in_list.
  - eapply list_rep_kept; [exact Hd|]. intros q Hq. apply HK. unfold linked. in_list.
  - intros q Hq Hx. specialize (Bel q Hq Hx). destruct (HW q Hq Hx) as (_ & _ & Es). unfold belongs in *.
    by rewrite Es, (frame_priority _ _ q Fr).
Qed.

(** A work whose identity, links and state stay. *)
Lemma put_soft x s Q p f :
  Inv x s Q → (∀ w, ident (f w) = ident w ∧ w_previous (f w) = w_previous w ∧ w_next (f w) = w_next w ∧ w_state (f w) = w_state w) →
  Inv x (put s p f) Q.
Proof.
  intros HI H. eapply inv_kept; [|exact HI| |done|done]; [apply frame_put; intros; apply H|].
  intros q _ _. rewrite work_at_put. case_decide; [subst; apply H|done].
Qed.
Lemma stat_soft x s Q f :
  Inv x s Q → (∀ q, stable (f q) = stable q) →
  (∀ q, q_ready_high (f q) = q_ready_high q ∧ q_ready_normal (f q) = q_ready_normal q ∧ q_delayed (f q) = q_delayed q ∧ q_running (f q) = q_running q) →
  Inv x (stat s f) Q.
Proof. intros HI H1 H2. eapply inv_kept; [by apply frame_stat|exact HI|done|done|apply H2]. Qed.
(** A detached work keeps only its identity. *)
Lemma put_detached s Q p f : Inv p s Q → (∀ w, ident (f w) = ident w) → Inv p (put s p f) Q.
Proof.
  intros HI H. eapply inv_kept; [by apply frame_put|exact HI| |done|done]. intros q _ Hq. by rewrite work_at_put, decide_False.
Qed.

Lemma peak_soft x s Q : Inv x s Q → Inv x (workqueue_update_peak s) Q.
Proof. intros HI. unfold workqueue_update_peak. case_match; [by apply stat_soft|done]. Qed.
Lemma notify_soft x s Q : Inv x s Q → Inv x (workqueue_notify s) Q.
Proof. intros HI. unfold workqueue_notify. repeat case_match; try done; by repeat apply stat_soft. Qed.
Lemma coalesced_soft x s Q p : Inv x s Q → Inv x (count_coalesced s p) Q.
Proof. intros HI. unfold count_coalesced. apply stat_soft; [|done..]. by apply put_soft. Qed.

(** ** Detached works *)

Lemma detach_idle s Q p : Inv 0 s Q → p ∈ live (wq_registry s) → p ∉ linked Q → Inv p s Q.
Proof.
  intros [Rg [Hh Hn Hd Hl Nd Mem Det Bel HC] ] Hp Hl'. split; [done|]. split; try done.
  intros q Hq _. apply Bel; [done|]. by apply elem_of_live in Hq as [? _].
Qed.
Lemma attach_idle s Q p : Inv p s Q → w_state (work_at s p) = WORK_STATE_IDLE → Inv 0 s Q.
Proof.
  intros [Rg [Hh Hn Hd Hl Nd Mem Det Bel HC] ] Es. split; [done|]. split; try done.
  intros q Hq Hq0. destruct (decide (q = p)) as [->|Hqp]; [|by apply Bel]. unfold belongs. rewrite Es. by apply Det.
Qed.
(** The state of a registered work by its list. *)
Lemma inv_state s Q p : Inv 0 s Q → p ∈ live (wq_registry s) → belongs Q p (work_at s p).
Proof. intros [_ Ls] Hp. apply (ls_belongs _ _ _ Ls p Hp). by apply elem_of_live in Hp as [? _]. Qed.
Lemma inv_live s Q p x : Inv x s Q → p ∈ linked Q → p ∈ live (wq_registry s).
Proof. intros [_ Ls]. apply Ls. Qed.

Lemma linked_elem Q p : p ∈ linked Q ↔ p ∈ qh Q ∨ p ∈ qn Q ∨ p ∈ qd Q ∨ p ∈ qr Q.
Proof. unfold linked. by rewrite !elem_of_app. Qed.

Lemma idle_unlinked s Q p : Inv 0 s Q → p ∈ live (wq_registry s) → w_state (work_at s p) = WORK_STATE_IDLE → Inv p s Q.
Proof. intros HI Hp Es. apply detach_idle; [done..|]. pose proof (inv_state _ _ _ HI Hp) as B. unfold belongs in B. by rewrite Es in B. Qed.

Lemma queued_member s Q p :
  Inv 0 s Q → p ∈ live (wq_registry s) → w_state (work_at s p) = WORK_STATE_READY ∨ w_state (work_at s p) = WORK_STATE_DELAYED →
  p ∈ qh Q ++ qn Q ++ qd Q.
Proof.
  intros HI Hp Es. pose proof (inv_state _ _ _ HI Hp) as B. unfold belongs in B. rewrite !elem_of_app.
  destruct Es as [Es|Es]; rewrite Es in B; tauto.
Qed.

(** ** Promotion *)

(** The works at the front of the delayed list whose deadline is reached, moved to
    their queues one by one. *)
Fixpoint promote_all (W : Z → work_struct_t) (now : Z) (d : list Z) (Q : queues) : queues :=
  match d with
  | [] => Queues (qh Q) (qn Q) [] (qr Q)
  | p :: d' =>
      if workqueue_deadline_reached now (w_deadline_tick (W p)) then promote_all W now d' (push (w_priority (W p)) p Q)
      else Queues (qh Q) (qn Q) d (qr Q)
  end.
Definition promoted (s : wq_t) (now : Z) (Q : queues) : queues := promote_all (work_at s) now (qd Q) Q.

Lemma promote_all_ext W W' now d Q :
  (∀ p, w_priority (W' p) = w_priority (W p) ∧ w_deadline_tick (W' p) = w_deadline_tick (W p)) →
  promote_all W' now d Q = promote_all W now d Q.
Proof. intros H. revert Q. induction d as [|p d IH]; intros Q; [done|]. cbn [promote_all]. destruct (H p) as [-> ->]. by rewrite IH. Qed.
Lemma promote_all_qd W now d Q l : promote_all W now d (Queues (qh Q) (qn Q) l (qr Q)) = promote_all W now d Q.
Proof.
  revert Q l. induction d as [|p d IH]; intros Q l; [done|]. cbn [promote_all]. case_match; [|done].
  rewrite <-(IH (push _ p Q) l). f_equal. unfold push. by case_match.
Qed.

Lemma deadline_remove s Q p q :
  Inv 0 s Q → p ∈ qh Q ++ qn Q ++ qd Q → unlinked (work_at (workqueue_list_remove s p) q) = unlinked (work_at s q).
Proof.
  intros [_ [Hh Hn Hd _ Nd _ _ _ _] ]. destruct (linked_disjoint Q Nd) as (Nh & Nn & Nde & _). rewrite !elem_of_app.
  intros [Hp|[Hp|Hp]]; [exact (remove_unlinked _ _ _ _ _ q Hh Nh Hp)|exact (remove_unlinked _ _ _ _ _ q Hn Nn Hp)|exact (remove_unlinked _ _ _ _ _ q Hd Nde Hp)].
Qed.
Lemma deadline_append s Q p q : p ≠ 0 → Inv p s Q → w_deadline_tick (work_at (workqueue_ready_append s p) q) = w_deadline_tick (work_at s q).
Proof.
  intros Hp HI. destruct (append_lists s Q p Hp HI) as (_ & _ & _ & Hlp). pose proof (append_links s p q Hlp) as AL. cbn zeta in AL.
  case_decide as D; [subst q; apply AL|]. destruct AL as (_ & _ & AL). by apply unlinked_state in AL as (_ & _ & ->).
Qed.

(** Taking the first work of a list. *)
Lemma without_head p d : NoDup (p :: d) → without p (p :: d) = d.
Proof. exact (without_split p [] d). Qed.
Lemma detach_delayed Q p d : NoDup (linked Q) → qd Q = p :: d → detach p Q = Queues (qh Q) (qn Q) d (qr Q).
Proof.
  intros (_ & _ & N & _ & D1 & D2 & _)%linked_disjoint Eq. assert (p ∈ qd Q) as Hp by (rewrite Eq; in_list).
  unfold detach. rewrite (without_notin p (qh Q)) by (intros Hq; by destruct (D1 p Hq) as (_ & ? & _)).
  rewrite (without_notin p (qn Q)) by (intros Hq; by destruct (D2 p Hq)). rewrite Eq in *. by rewrite without_head.
Qed.
Lemma detach_high Q p d : NoDup (linked Q) → qh Q = p :: d → detach p Q = Queues d (qn Q) (qd Q) (qr Q).
Proof.
  intros (N & _ & _ & _ & D1 & D2 & _)%linked_disjoint Eq. assert (p ∈ qh Q) as Hp by (rewrite Eq; in_list). destruct (D1 p Hp) as (H1 & H2 & _).
  unfold detach. rewrite (without_notin p (qn Q)), (without_notin p (qd Q)) by done. rewrite Eq in *. by rewrite without_head.
Qed.
Lemma detach_normal Q p d : NoDup (linked Q) → qn Q = p :: d → detach p Q = Queues (qh Q) d (qd Q) (qr Q).
Proof.
  intros (_ & N & _ & _ & D1 & D2 & _)%linked_disjoint Eq. assert (p ∈ qn Q) as Hp by (rewrite Eq; in_list). destruct (D2 p Hp) as (H2 & _).
  unfold detach. rewrite (without_notin p (qh Q)) by (intros Hq; by destruct (D1 p Hq)). rewrite (without_notin p (qd Q)) by done.
  rewrite Eq in *. by rewrite without_head.
Qed.

Lemma promote_loop_spec fuel s Q now :
  Inv 0 s Q → (length (qd Q) < fuel)%nat → Inv 0 (promote_loop fuel s now) (promoted s now Q) ∧
  ∀ q, w_deadline_tick (work_at (promote_loop fuel s now) q) = w_deadline_tick (work_at s q).
Proof.
  revert s Q. induction fuel as [|fuel IH]; intros s Q HI Hf; [lia|]. cbn [promote_loop].
  pose proof HI as [_ [_ _ Hd _ Nd _ _ _ _] ]. pose proof Hd as (Hc & -> & _). unfold promoted. destruct (qd Q) as [|p d] eqn:Eq; cbn [hd promote_all].
  { cbn. rewrite <-Eq. by destruct Q. }
  destruct Hc as (Hp0 & _). rewrite (proj2 (Z.eqb_neq _ _) Hp0). cbn [negb andb].
  destruct (workqueue_deadline_reached _ _) eqn:Er; [|rewrite <-Eq; by destruct Q].
  assert (p ∈ qh Q ++ qn Q ++ qd Q) as Hin by (rewrite Eq; in_list).
  pose proof (remove_spec s Q p HI Hin) as H1. pose proof (wq_append_spec _ _ p Hp0 H1) as H2.
  rewrite (frame_priority _ _ p (frame_list_remove s p)), (detach_delayed Q p d Nd Eq) in H2.
  assert (∀ q, w_deadline_tick (work_at (workqueue_ready_append (workqueue_list_remove s p) p) q) = w_deadline_tick (work_at s q)) as HD.
  { intros q. rewrite (deadline_append _ _ p q Hp0 H1). pose proof (deadline_remove s Q p q HI Hin) as E. by apply unlinked_state in E as (_ & _ & ->). }
  destruct (IH _ _ H2) as [H3 H4]; [unfold push; case_match; cbn in *; lia|]. split; [|intros q; by rewrite H4].
  unfold promoted in H3. erewrite promote_all_ext in H3.
  - assert (∀ k, promote_all (work_at s) now (qd (push k p (Queues (qh Q) (qn Q) d (qr Q)))) (push k p (Queues (qh Q) (qn Q) d (qr Q))) =
        promote_all (work_at s) now d (push k p Q)) as E; [|by rewrite E in H3].
    intros k. rewrite <-(promote_all_qd _ _ _ (push k p Q) d). unfold push. by case_match.
  - intros q. split; [|apply HD]. rewrite (frame_priority _ _ q (frame_ready_append _ _)). apply frame_priority, frame_list_remove.
Qed.

Lemma promote_spec s Q now :
  Inv 0 s Q → Inv 0 (workqueue_promote_due s now) (promoted s now Q) ∧
  ∀ q, w_deadline_tick (work_at (workqueue_promote_due s now) q) = w_deadline_tick (work_at s q).
Proof.
  intros HI. apply promote_loop_spec; [done|]. pose proof (linked_bound _ _ _ HI).
  pose proof (len_nonneg (qh Q)). pose proof (len_nonneg (qn Q)). pose proof (len_nonneg (qr Q)). unfold len in *. lia.
Qed.

(** The works promoted, in the order of the list. *)
Fixpoint due_now (W : Z → work_struct_t) (now : Z) (d : list Z) : list Z :=
  match d with
  | p :: d => if workqueue_deadline_reached now (w_deadline_tick (W p)) then p :: due_now W now d else []
  | [] => []
  end.
Definition of_priority (W : Z → work_struct_t) (high : bool) (l : list Z) : list Z :=
  filter (λ p, (w_priority (W p) =? WORK_PRIORITY_HIGH) = high) l.

Lemma promote_all_lists W now d Q :
  let due := due_now W now d in
  promote_all W now d Q = Queues (qh Q ++ of_priority W true due) (qn Q ++ of_priority W false due) (drop (length due) d) (qr Q).
Proof.
  revert Q. induction d as [|p d IH]; intros Q; cbn [promote_all due_now].
  { cbn. by rewrite !app_nil_r. }
  case_match; [|cbn; by rewrite !app_nil_r]. cbn zeta in *. rewrite IH. unfold push, of_priority. cbn [length drop].
  destruct (_ =? WORK_PRIORITY_HIGH) eqn:E; cbn [qh qn qr].
  - rewrite (filter_cons_True _ p), (filter_cons_False _ p), <-app_assoc by (rewrite E; done). done.
  - rewrite (filter_cons_False _ p), (filter_cons_True _ p), <-app_assoc by (rewrite E; done). done.
Qed.

(** ** Places in the queues *)

(** At most [k] works are before [p]. *)
Definition rank (p : Z) (l : list Z) (k : nat) : Prop := ∃ l1 l2, l = l1 ++ p :: l2 ∧ (length l1 ≤ k)%nat.
(** No work gets in front of [p]. *)
Definition advance (p : Z) (Q Q' : queues) : Prop :=
  ∀ k, (rank p (qh Q) k → rank p (qh Q') k) ∧ (rank p (qn Q) k → rank p (qn Q') k).

#[export] Instance advance_preorder p : PreOrder (advance p).
Proof. split; [by intros Q k|]. intros Q1 Q2 Q3 H1 H2 k. destruct (H1 k), (H2 k). tauto. Qed.

Lemma rank_elem p l k : rank p l k → p ∈ l.
Proof. intros (l1 & l2 & -> & _). in_list. Qed.
Lemma rank_app p l l' k : rank p l k → rank p (l ++ l') k.
Proof. intros (l1 & l2 & -> & H). exists l1, (l2 ++ l'). by rewrite <-app_assoc. Qed.
Lemma rank_without p q l k : q ≠ p → rank p l k → rank p (without q l) k.
Proof.
  intros Hq (l1 & l2 & -> & H). exists (without q l1), (without q l2). unfold without. rewrite filter_app, filter_cons_True by done.
  split; [done|]. etransitivity; [apply length_filter|done].
Qed.
Lemma rank_of_elem p l : p ∈ l → ∃ k, rank p l k.
Proof. intros (l1 & l2 & ->)%list_elem_of_split. by exists (length l1), l1, l2. Qed.

Lemma advance_eq p Q Q' : qh Q' = qh Q → qn Q' = qn Q → advance p Q Q'.
Proof. intros E1 E2 k. by rewrite E1, E2. Qed.
Lemma advance_push p k q Q : advance p Q (push k q Q).
Proof. intros n. unfold push. case_match; cbn [qh qn]; split; try done; apply rank_app. Qed.
Lemma advance_detach p q Q : q ≠ p → advance p Q (detach q Q).
Proof. intros H k. split; by apply rank_without. Qed.
Lemma advance_promoted p s now Q : advance p Q (promoted s now Q).
Proof. intros k. unfold promoted. rewrite promote_all_lists. cbn [qh qn]. split; apply rank_app. Qed.
(** Taking a work out of the delayed list moves no other. *)
Lemma advance_undelay p q Q : NoDup (linked Q) → q ∈ qd Q → advance p Q (detach q Q).
Proof.
  intros (_ & _ & _ & _ & D1 & D2 & _)%linked_disjoint Hq. apply advance_eq; cbn; apply without_notin.
  - intros H. by destruct (D1 q H) as (_ & ? & _).
  - intros H. by destruct (D2 q H).
Qed.

Lemma push_running k p Q : qr (push k p Q) = qr Q.
Proof. unfold push. by case_match. Qed.
Lemma promoted_running s now Q : qr (promoted s now Q) = qr Q.
Proof. unfold promoted. by rewrite promote_all_lists. Qed.

(** What a call may do to the queues: the running work stays, and a work moves back
    only if the call cancels it. *)
Record effect (s' : wq_t) (Q Q' : queues) (harmless : Z → Prop) : Prop := Effect {
  ef_inv : Inv 0 s' Q';
  ef_running : qr Q' = qr Q;
  ef_advance p : harmless p → advance p Q Q'
}.
Definition anyone (p : Z) : Prop := True.

(** ** Scheduling *)

Lemma schedule_idle s Q p now delay :
  p ≠ 0 → Inv p s Q → w_state (work_at s p) = WORK_STATE_IDLE → ∃ Q', effect (schedule_switch s p now delay) Q Q' anyone.
Proof.
  intros Hp0 HD Es. unfold schedule_switch. rewrite Es. cbn zeta.
  set (s1 := stat (put s p _) _). assert (Inv p s1 Q) as H1 by (apply stat_soft; [by apply put_detached|done..]). clearbody s1.
  destruct (delay =? 0).
  - eexists. split; [apply stat_soft; [by apply wq_append_spec|done..]|apply push_running|]. intros q _. apply advance_push.
  - eexists. split; [apply stat_soft; [by apply wq_insert_spec, put_detached|done..]|done|]. intros q _. by apply advance_eq.
Qed.

Lemma schedule_delayed_again_spec s Q p now deadline delay :
  p ≠ 0 → Inv 0 s Q → p ∈ qd Q → ∃ Q', effect (schedule_delayed_again s p now deadline delay) Q Q' anyone.
Proof.
  intros Hp0 HI Hd. assert (p ∈ qh Q ++ qn Q ++ qd Q) as Hin by in_list. pose proof (remove_spec _ _ p HI Hin) as HR.
  assert (∀ q, advance q Q (detach p Q)) as HA by (intros q; apply advance_undelay; [apply HI|done]).
  unfold schedule_delayed_again. destruct (delay =? 0); [|destruct (i32 _ <? 0)].
  - eexists. split; [by apply wq_append_spec|by rewrite push_running|]. intros q _. etransitivity; [apply HA|apply advance_push].
  - eexists. split; [by apply wq_insert_spec; [|apply put_detached]|done|]. intros q _. etransitivity; [apply HA|by apply advance_eq].
  - by exists Q.
Qed.

Lemma schedule_switch_spec s Q p now delay :
  p ≠ 0 → Inv 0 s Q → p ∈ live (wq_registry s) → ∃ Q', effect (schedule_switch s p now delay) Q Q' anyone.
Proof.
  intros Hp0 HI Hreg. destruct (w_state (work_at s p)) eqn:Es; [by apply schedule_idle, Es; [|apply idle_unlinked]|unfold schedule_switch; rewrite Es..].
  - exists Q. split; [by apply coalesced_soft|done..].
  - apply schedule_delayed_again_spec; [done|by apply coalesced_soft|].
    pose proof (inv_state _ _ _ HI Hreg) as B. unfold belongs in B. by rewrite Es in B.
  - exists Q. split; [|done..]. apply put_soft; [by apply coalesced_soft|]. intros w. unfold schedule_running_again. by repeat case_match.
Qed.

Lemma schedule_on_spec s Q p delay : Inv 0 s Q → ∃ Q', effect (workqueue_schedule_on s p delay).1 Q Q' anyone.
Proof.
  intros HI. unfold workqueue_schedule_on. destruct (Z.eqb_spec p 0) as [|Hp0]; [by exists Q|].
  destruct (_ || not_registered s p) eqn:Hreg; [by exists Q|]. repeat (case_match; [by exists Q|]). cbn [fst].
  apply orb_false_iff in Hreg as [_ Hreg]. apply registered_iff in Hreg; [|apply HI|done].
  generalize (timer_get_ticks s) as now. intros now. destruct (promote_spec s Q now HI) as [HI1 _].
  rewrite <-(frame_registry _ _ (frame_promote s now)) in Hreg.
  destruct (schedule_switch_spec _ _ p now delay Hp0 HI1 Hreg) as [Q' [E1 E2 E3] ]. exists Q'. split.
  - by apply notify_soft.
  - by rewrite E2, promoted_running.
  - intros q Hq. etransitivity; [apply advance_promoted|by apply E3].
Qed.

(** ** Cancellation *)

(** Out of its list, whatever it is, and idle. *)
Lemma remove_to_idle s Q p :
  Inv 0 s Q → p ∈ live (wq_registry s) → w_state (work_at s p) = WORK_STATE_READY ∨ w_state (work_at s p) = WORK_STATE_DELAYED →
  Inv 0 (put (workqueue_list_remove s p) p (set w_state (λ _, WORK_STATE_IDLE))) (detach p Q).
Proof.
  intros HI Hp Es. pose proof (remove_spec s Q p HI (queued_member _ _ _ HI Hp Es)) as HR.
  apply attach_idle with p; [by apply put_detached|]. by rewrite work_at_put, decide_True.
Qed.

Lemma cancel_on_spec s Q p : Inv 0 s Q → ∃ Q', effect (workqueue_cancel_on s p).1 Q Q' (λ q, q ≠ p).
Proof.
  intros HI. unfold workqueue_cancel_on. destruct (Z.eqb_spec p 0) as [|Hp0]; [by exists Q|].
  destruct (_ || not_registered s p) eqn:Hreg; [by exists Q|]. cbn [fst].
  apply orb_false_iff in Hreg as [_ Hreg]. apply registered_iff in Hreg; [|apply HI|done].
  assert (∀ s' Q', Inv 0 s' Q' → qr Q' = qr Q → (∀ q, q ≠ p → advance q Q Q') →
    effect (stat (put s' p (λ w, w <| w_rerun_requested := false |> <| w_rerun_delayed := false |> <| w_cancellations ::= inc |>))
      (set q_cancelled inc)) Q Q' (λ q, q ≠ p)) as done_.
  { intros s' Q' H1 H2 H3. split; [|done..]. apply stat_soft; [by apply put_soft|done..]. }
  assert (∀ q, q ≠ p → advance q Q (detach p Q)) as HA by (intros q Hq; by apply advance_detach).
  destruct (w_state (work_at s p)) eqn:Es.
  - exists Q. by apply done_.
  - exists (detach p Q). apply done_; [apply remove_to_idle; tauto|done..].
  - exists (detach p Q). apply done_; [apply remove_to_idle; tauto|done..].
  - exists Q. apply done_; [by apply put_soft|done..].
Qed.

(** ** Quiescing *)

Lemma quiesce_work_spec s Q i : Inv 0 s Q → ∃ Q', Inv 0 (quiesce_work s i) Q' ∧ qr Q' = qr Q.
Proof.
  intros HI. unfold quiesce_work. destruct (Z.eqb_spec (at_ (wq_registry s) i) 0) as [|Hp0]; [by exists Q|].
  assert (at_ (wq_registry s) i ∈ live (wq_registry s)) as Hp.
  { apply elem_of_live. split; [done|]. unfold at_ in *. destruct (nth_in_or_default (Z.to_nat i) (wq_registry s) 0) as [H|H]; [by apply list_elem_of_In|done]. }
  set (p := at_ (wq_registry s) i) in *. destruct (w_state (work_at s p)) eqn:Es.
  - exists Q. split; [by apply put_soft|done].
  - exists (detach p Q). split; [apply put_soft; [|done]; apply remove_to_idle; tauto|done].
  - exists (detach p Q). split; [apply put_soft; [|done]; apply remove_to_idle; tauto|done].
  - exists Q. split; [by apply put_soft|done].
Qed.

Lemma gate_soft x s Q b : Inv x s Q → Inv x (s <| power_quiescing := b |>) Q.
Proof. intros [[] []]. by split; split. Qed.
Lemma kernel_soft x s Q k : Inv x s Q → Inv x (s <| kernel := k |>) Q.
Proof. intros [[] []]. by split; split. Qed.

Lemma quiesce_spec s Q deadline : Inv 0 s Q → ∃ Q', Inv 0 (workqueue_power_quiesce_until s deadline).1 Q' ∧ qr Q' = qr Q.
Proof.
  intros HI. unfold workqueue_power_quiesce_until. repeat (case_match; [first [by exists Q|exists Q; split; [by apply gate_soft|done] ]|]).
  cbn [fst]. set (s1 := s <| power_quiescing := true |>). assert (Inv 0 s1 Q) as Hs by (by apply gate_soft). clearbody s1. clear -Hs.
  revert s1 Q Hs. induction (range 0 WORKQUEUE_CAPACITY) as [|i l IH]; intros s Q HI; [by exists Q|]. cbn [foldl].
  destruct (quiesce_work_spec s Q i HI) as (Q1 & H1 & E1). destruct (IH _ _ H1) as (Q' & H2 & E2). exists Q'. by rewrite E2, E1.
Qed.

(** ** Workers *)

(** A change of the binding. *)
Lemma worker_soft s s' Q :
  Inv 0 s Q → wq_registry s' = wq_registry s → wq_generations s' = wq_generations s →
  owner_pids s' = owner_pids s → owner_generations s' = owner_generations s → works s' = works s →
  ready_first s' = ready_first s ∧ ready_last s' = ready_last s ∧ delayed_first s' = delayed_first s ∧ delayed_last s' = delayed_last s →
  (q_ready_high (wq_stats s') = q_ready_high (wq_stats s) ∧ q_ready_normal (wq_stats s') = q_ready_normal (wq_stats s) ∧
    q_delayed (wq_stats s') = q_delayed (wq_stats s) ∧ q_running (wq_stats s') = q_running (wq_stats s)) →
  q_registered (wq_stats s') = q_registered (wq_stats s) ∧ q_initialized (wq_stats s') = q_initialized (wq_stats s) ∧
    q_capacity (wq_stats s') = q_capacity (wq_stats s) →
  worker_fields_ok s' = true → Inv 0 s' Q.
Proof.
  intros [[] []] E1 E2 E3 E4 E5 (F1 & F2 & F3 & F4) (C1 & C2 & C3 & C4) (S1 & S2 & S3) HW.
  assert (∀ q, work_at s' q = work_at s q) as EW by (intros q; unfold work_at; by rewrite E5).
  assert (∀ q, slot_bad s' q = slot_bad s q) as ES by (intros q; unfold slot_bad; by rewrite E1, E2, E3, E4, EW).
  assert (∀ f la l, list_rep s f la l → list_rep s' f la l) as EL by (intros f la l H; eapply list_rep_kept; [exact H|]; intros q _; by rewrite EW).
  split; split; rewrite ?E1, ?E2, ?E3, ?E4, ?F1, ?F2, ?F3, ?F4, ?C1, ?C2, ?C3, ?C4, ?S1, ?S2, ?S3; try done; try (by apply EL).
  - intros slot H. rewrite ES. by apply rg_slots.
  - intros q H. rewrite EW. by apply rg_priority.
  - intros q H H'. rewrite EW. by apply ls_belongs.
Qed.

Lemma bind_worker_spec s Q pid : Inv 0 s Q → Inv 0 (workqueue_bind_worker s pid).1 Q.
Proof.
  intros HI. unfold workqueue_bind_worker. destruct (negb _); [done|]. destruct (Z.eqb_spec pid 0) as [|Hp]; [done|].
  destruct (process_get_by_pid s pid) as [w|]; [|done]. destruct (_ || _ || _) eqn:E; [done|]. cbn [fst].
  rewrite !orb_false_iff in E. destruct E as [[_ Eg] _]. eapply worker_soft; [exact HI|done..|].
  change (negb (pid =? 0) && negb (p_event_generation w =? 0) && (p_event_generation w =? p_event_generation w) && true && true && true = true).
  by rewrite Eg, (proj2 (Z.eqb_neq _ _) Hp), Z.eqb_refl.
Qed.
Lemma bind_thread_spec s Q tid generation : Inv 0 s Q → Inv 0 (workqueue_bind_thread s tid generation).1 Q.
Proof.
  intros HI. unfold workqueue_bind_thread. destruct (negb _); [done|]. destruct (_ || _) eqn:E; [done|].
  destruct (thread_get_by_id s tid) as [w|]; [|done]. destruct (_ || _ || _); [done|]. cbn [fst].
  rewrite !orb_false_iff in E. destruct E as [Et Eg]. eapply worker_soft; [exact HI|done..|].
  change (negb (tid =? 0) && negb (generation =? 0) && true && true && true = true). by rewrite Eg, Et.
Qed.
