(* ===== verification/WorkqueueReg.v ===== *)
(** * Registration of works: src/core/workqueue.c

    Works enter and leave the registry with fresh identifiers, a copy of the name of
    their owner and the process that owns them; the invariant of the service holds
    through it, so it holds through every call a client can make. *)

From stdpp Require Import gmap.
From S2P Require Import Prelude Registry Workqueue WorkqueueInv WorkqueueCalls.

(** ** Owner names *)

Lemma owner_length_bound fuel owner n i :
  n ≤ i < n + Z.of_nat fuel → at_ owner i = 0 → owner_length fuel owner n ≤ i.
Proof.
  revert n. induction fuel as [|fuel IH]; intros n Hi E; [lia|]. cbn [owner_length].
  destruct (Z.eqb_spec (at_ owner n) 0) as [|Hn]; [lia|]. apply IH; [|done]. assert (n ≠ i) by (by intros ->). lia.
Qed.

Lemma wq_copy_loop_spec fuel d src index :
  len d = 24 → 0 ≤ index → index + Z.of_nat fuel ≤ 23 → let r := copy_owner_loop fuel d src index in
  (∀ j, 0 ≤ j < index → at_ r j = at_ d j) ∧ ∃ i, index ≤ i ≤ 23 ∧ at_ r i = 0.
Proof.
  revert d index. induction fuel as [|fuel IH]; intros d index Hl H0 Hf; cbn [copy_owner_loop].
  - split; [intros j Hj; rewrite at_upd by lia; by rewrite (proj2 (Z.eqb_neq j index)) by lia|].
    exists index. split; [lia|]. by rewrite at_upd, Z.eqb_refl by lia.
  - case_match.
    + split; [intros j Hj; rewrite at_upd by lia; by rewrite (proj2 (Z.eqb_neq j index)) by lia|].
      exists index. split; [lia|]. by rewrite at_upd, Z.eqb_refl by lia.
    + destruct (IH (upd d index (at_ src index)) (index + 1)) as [H1 (i & Hi & E)]; [by rewrite len_upd|lia|lia|]. cbn zeta in H1, E. split; [|exists i; split; [lia|done] ].
      intros j Hj. rewrite H1, at_upd by lia. by rewrite (proj2 (Z.eqb_neq j index)) by lia.
Qed.

Lemma copy_owner_valid d owner : len d = 24 → workqueue_owner_valid owner = true → workqueue_owner_valid (workqueue_copy_owner d owner) = true.
Proof.
  intros Hl. unfold workqueue_owner_valid at 1. destruct (Z.eqb_spec (at_ owner 0) 0) as [|H0]; [done|]. intros _.
  unfold workqueue_copy_owner, workqueue_owner_valid. set (r := copy_owner_loop 23 d owner 0).
  assert (r = copy_owner_loop 22 (upd d 0 (at_ owner 0)) owner 1) as Er.
  { unfold r. change 23%nat with (S 22). cbn [copy_owner_loop]. by rewrite (proj2 (Z.eqb_neq _ _) H0). }
  destruct (wq_copy_loop_spec 22 (upd d 0 (at_ owner 0)) owner 1) as [H1 (i & Hi & E)]; [by rewrite len_upd|lia|lia|]. rewrite <-Er in H1, E.
  rewrite H1, at_upd by lia. rewrite Z.eqb_refl, (proj2 (Z.eqb_neq _ _) H0). apply Z.ltb_lt.
  pose proof (owner_length_bound 24 r 0 i ltac:(lia) E). unfold WORKQUEUE_OWNER_SIZE. lia.
Qed.

(** ** Identifiers *)

Lemma next_generation_range g : 0 < workqueue_next_generation g < 2 ^ 24.
Proof.
  unfold workqueue_next_generation, inc, WORKQUEUE_ID_GENERATION_MAX. pose proof (u32_range (g + 1)).
  destruct (Z.eqb_spec (g +w 1) 0); [cbn [orb]; lia|]. destruct (Z.gtb_spec (g +w 1) 0x00FFFFFF); cbn [orb]; lia.
Qed.
Lemma id_parts g slot :
  0 ≤ g < 2 ^ 24 → 0 ≤ slot < 64 → let id := (g <<w WORKQUEUE_ID_SLOT_BITS) |w (slot +w 1) in
  id &w WORKQUEUE_ID_SLOT_MASK = slot + 1 ∧ id >>w WORKQUEUE_ID_SLOT_BITS = g.
Proof.
  intros Hg Hs. cbn zeta. unfold WORKQUEUE_ID_SLOT_BITS, WORKQUEUE_ID_SLOT_MASK.
  rewrite Z.shiftl_mul_pow2, (u32_small (g * 2 ^ 8)), (u32_small (slot + 1)) by lia.
  rewrite Z.lor_comm, lor_low_high by lia. change 0xFF with (Z.ones 8). rewrite Z.land_ones, Z.shiftr_div_pow2 by lia. divlia.
Qed.

Lemma capture_spec s slot :
  slot < 64 → ∃ a b, (a = 0 ↔ b = 0) ∧
    workqueue_capture_owner s slot = s <| owner_pids ::= λ l, upd l slot a |> <| owner_generations ::= λ l, upd l slot b |>.
Proof.
  intros Hs. unfold workqueue_capture_owner. assert ((slot >=? WORKQUEUE_CAPACITY) = false) as -> by (unfold WORKQUEUE_CAPACITY; lia). cbn zeta.
  destruct (negb _); [by exists 0, 0|]. case_match; [|by exists 0, 0]. destruct (_ || _ || _) eqn:E; [by exists 0, 0|].
  rewrite !orb_false_iff in E. exists (p_pid p), (p_event_generation p). split; [lia|].
  assert (∀ l a b, upd (upd l slot a) slot b = upd l slot b) as U by (intros; unfold upd; by rewrite list_insert_insert_eq).
  destruct s. unfold set. cbn. by rewrite !U.
Qed.

(** ** Entering and leaving the registry *)

Lemma list_rep_same s s' f la l :
  list_rep s f la l → (∀ q, q ∈ l → work_at s' q = work_at s q) → list_rep s' f la l.
Proof. intros HR H. eapply list_rep_kept; [exact HR|]. intros q Hq. by rewrite H. Qed.

(** The slot of a registered work is only that of the work. *)
Lemma slot_other s s' slot k p :
  registered_ok s → 0 ≤ k < 64 → k ≠ slot → 0 ≤ slot < 64 →
  at_ (wq_registry s) k ≠ p ∨ p = 0 →
  (∀ a, a ≠ slot → 0 ≤ a → at_ (wq_registry s') a = at_ (wq_registry s) a ∧ at_ (wq_generations s') a = at_ (wq_generations s) a ∧
     at_ (owner_pids s') a = at_ (owner_pids s) a ∧ at_ (owner_generations s') a = at_ (owner_generations s) a) →
  (∀ q, q ≠ p → work_at s' q = work_at s q) → slot_bad s' k = false.
Proof.
  intros Rg Hk Hks Hs Hp HA HW. rewrite <-(rg_slots _ Rg k Hk). destruct (HA k Hks ltac:(lia)) as (E1 & E2 & E3 & E4).
  unfold slot_bad. rewrite E1, E2, E3, E4. destruct (Z.eqb_spec (at_ (wq_registry s) k) 0); [done|].
  rewrite HW; [done|]. destruct Hp as [Hp|Hp]; congruence.
Qed.

Lemma worker_fields_same s s' :
  stable (wq_stats s') = stable (wq_stats s) ∨ stable (wq_stats s') = stable ((wq_stats s) <| q_registered := q_registered (wq_stats s') |>) →
  worker_generation s' = worker_generation s → worker_thread_generation s' = worker_thread_generation s →
  worker_fields_ok s' = worker_fields_ok s.
Proof.
  intros HS E1 E2. unfold worker_fields_ok. rewrite E1, E2.
  destruct HS as [HS|HS]; injection HS as S1 S2 S3 S4 S5 S6 S7; unfold stable in *;
    (destruct (wq_stats s'), (wq_stats s); cbn in *; by subst).
Qed.

(** What the invariant asks of a change of one slot. *)
Lemma registry_spec s s' Q slot p :
  Inv 0 s Q → 0 ≤ slot < 64 →
  len (wq_registry s') = 64 ∧ len (wq_generations s') = 64 ∧ len (owner_pids s') = 64 ∧ len (owner_generations s') = 64 →
  (∀ q, q ≠ p → work_at s' q = work_at s q) → p ∉ linked Q →
  (∀ a, a ≠ slot → 0 ≤ a → at_ (wq_registry s') a = at_ (wq_registry s) a ∧ at_ (wq_generations s') a = at_ (wq_generations s) a ∧
     at_ (owner_pids s') a = at_ (owner_pids s) a ∧ at_ (owner_generations s') a = at_ (owner_generations s) a) →
  (∀ k, 0 ≤ k < 64 → k ≠ slot → at_ (wq_registry s) k ≠ p) → slot_bad s' slot = false →
  NoDup (live (wq_registry s')) → (∀ q, q ≠ p → q ∈ live (wq_registry s') ↔ q ∈ live (wq_registry s)) →
  (p ∈ live (wq_registry s') → (w_priority (work_at s' p) = 0 ∨ w_priority (work_at s' p) = 1) ∧ w_state (work_at s' p) = WORK_STATE_IDLE) →
  ready_first s' = ready_first s ∧ ready_last s' = ready_last s ∧ delayed_first s' = delayed_first s ∧ delayed_last s' = delayed_last s →
  wq_stats s' = (wq_stats s) <| q_registered := len (live (wq_registry s')) |> →
  worker_generation s' = worker_generation s → worker_thread_generation s' = worker_thread_generation s → Inv 0 s' Q.
Proof.
  intros [Rg Ls] Hs HL HW Hp HA HR Hb Hnd HI HP (F1 & F2 & F3 & F4) ES E1 E2.
  destruct Ls as [Hh Hn Hd Hl Nd Mem Det Bel HC]. assert (∀ q, q ∈ linked Q → q ≠ p) as NP by (by intros q Hq ->). split; split.
  - done.
  - done.
  - intros k Hk. destruct (decide (k = slot)) as [->|Hks]; [done|]. eapply slot_other; [exact Rg|done|done|done| |done|done]. left. by apply HR.
  - intros q Hq. destruct (decide (q = p)) as [->|Hqp]; [by apply HP|]. rewrite HW by done. apply (rg_priority _ Rg). by apply HI.
  - by rewrite ES.
  - rewrite ES. apply (rg_init _ Rg).
  - rewrite (worker_fields_same s s'); [apply (rg_worker _ Rg)| |done|done]. right. by rewrite ES.
  - rewrite F1, F2. eapply list_rep_same; [exact Hh|]. intros q Hq. apply HW, NP, linked_elem. tauto.
  - rewrite F1, F2. eapply list_rep_same; [exact Hn|]. intros q Hq. apply HW, NP, linked_elem. tauto.
  - rewrite F3, F4. eapply list_rep_same; [exact Hd|]. intros q Hq. apply HW, NP, linked_elem. tauto.
  - by rewrite F1, F2.
  - done.
  - intros q Hq. apply HI; [by apply NP|]. by apply Mem.
  - done.
  - intros q Hq Hq0. destruct (decide (q = p)) as [->|Hqp]; [unfold belongs; by rewrite (proj2 (HP Hq))|].
    rewrite HW by done. apply Bel; [by apply HI|done].
  - by rewrite ES.
Qed.

(** The work structure after a successful registration. *)
Definition fresh (slot generation priority callback context : Z) (owner : list Z) : work_struct_t :=
  work_zero <| w_id := (generation <<w WORKQUEUE_ID_SLOT_BITS) |w (slot +w 1) |> <| w_registry_slot := u8 slot |> <| w_callback := callback |>
    <| w_context := context |> <| w_priority := priority |> <| w_state := WORK_STATE_IDLE |>
    <| w_initialized := true |> <| w_last_error := OK |> <| w_owner ::= λ o, workqueue_copy_owner o owner |>.

Lemma register_in_fields s slot p owner priority callback context :
  0 ≤ slot < 64 → len (wq_generations s) = 64 →
  let s' := register_in s slot p owner priority callback context in
  let generation := workqueue_next_generation (at_ (wq_generations s) slot) in
  (∀ q, work_at s' q = if decide (q = p) then fresh slot generation priority callback context owner else work_at s q) ∧
  wq_registry s' = upd (wq_registry s) slot p ∧ wq_generations s' = upd (wq_generations s) slot generation ∧
  (∃ a b, (a = 0 ↔ b = 0) ∧ owner_pids s' = upd (owner_pids s) slot a ∧ owner_generations s' = upd (owner_generations s) slot b) ∧
  (ready_first s' = ready_first s ∧ ready_last s' = ready_last s ∧ delayed_first s' = delayed_first s ∧ delayed_last s' = delayed_last s) ∧
  wq_stats s' = (wq_stats s) <| q_registered ::= inc |> ∧ worker_generation s' = worker_generation s ∧ worker_thread_generation s' = worker_thread_generation s.
Proof.
  intros Hs Hl. cbn zeta. unfold register_in. cbn zeta. set (generation := workqueue_next_generation _).
  set (s1 := set wq_generations _ (put s p _)). assert (at_ (wq_generations s1) slot = generation) as ->.
  { change (at_ (upd (wq_generations s) slot generation) slot = generation). by rewrite at_upd, Z.eqb_refl by lia. }
  set (s2 := set wq_registry _ _). destruct (capture_spec s2 slot) as (a & b & Hab & ->); [lia|].
  split_and!; try reflexivity; [|exists a, b; split_and!; [exact Hab|reflexivity..] ]. intros q.
  change (work_at (stat _ _) q) with (work_at (put (put s p (λ _, work_zero)) p (λ w : work_struct_t, w
    <| w_id := (generation <<w WORKQUEUE_ID_SLOT_BITS) |w (slot +w 1) |> <| w_registry_slot := u8 slot |> <| w_callback := callback |>
    <| w_context := context |> <| w_priority := priority |> <| w_state := WORK_STATE_IDLE |>
    <| w_initialized := true |> <| w_last_error := OK |> <| w_owner ::= λ o, workqueue_copy_owner o owner |>)) q).
  rewrite !work_at_put. rewrite (decide_True (P := p = p)) by reflexivity. case_decide; reflexivity.
Qed.

Lemma lookup_free s n : registered_ok s → wq_registry s !! n = Some 0 → 0 ≤ Z.of_nat n < 64.
Proof. intros Rg H. pose proof (lookup_lt_Some _ _ _ H). destruct (rg_len _ Rg) as [L _]. unfold len in L. lia. Qed.
Lemma at_elem (l : list Z) i : 0 ≤ i < len l → at_ l i ∈ l.
Proof. intros H. unfold at_, len in *. apply list_elem_of_In, nth_In. lia. Qed.

Lemma register_in_spec s Q n p owner priority callback context :
  Inv 0 s Q → wq_registry s !! n = Some 0 → p ∉ wq_registry s → p ≠ 0 → callback ≠ 0 → 0 ≤ priority < 2 →
  workqueue_owner_valid owner = true → Inv 0 (register_in s (Z.of_nat n) p owner priority callback context) Q.
Proof.
  intros HI Hn Hp Hp0 Hc Hpr Ho. pose proof HI as [Rg Ls]. pose proof (lookup_free _ _ Rg Hn) as Hs.
  destruct (rg_len _ Rg) as (L1 & L2 & L3 & L4). set (slot := Z.of_nat n) in *.
  destruct (register_in_fields s slot p owner priority callback context Hs L2) as (HW & E1 & E2 & (a & b & Hab & E3 & E4) & HF & ES & W1 & W2).
  set (s' := register_in _ _ _ _ _ _ _) in *. set (generation := workqueue_next_generation _) in *.
  pose proof (next_generation_range (at_ (wq_generations s) slot)) as Hg. fold generation in Hg.
  assert (live (wq_registry s') ≡ₚ p :: live (wq_registry s)) as HP by (rewrite E1; unfold upd, slot; rewrite Nat2Z.id; by apply live_insert).
  assert (p ∉ live (wq_registry s)) as Hnp by (by rewrite elem_of_live; intros [_ ?]).
  eapply (registry_spec s s' Q slot p); try done.
  - by rewrite E1, E2, E3, E4, !len_upd.
  - intros q Hq. by rewrite HW, decide_False.
  - intros Hq. by eapply Hnp, inv_live.
  - intros k Hk Hk0. rewrite E1, E2, E3, E4, !at_upd by lia. by rewrite (proj2 (Z.eqb_neq _ _) Hk).
  - intros k Hk _ E. apply Hp. rewrite <-E. apply at_elem. lia.
  - unfold slot_bad. rewrite E1, E2, E3, E4, !at_upd, !Z.eqb_refl by lia. rewrite (proj2 (Z.eqb_neq _ _) Hp0), HW, decide_True by done.
    destruct (id_parts generation slot ltac:(lia) Hs) as [I1 I2].
    change (w_id (fresh _ _ _ _ _ _)) with ((generation <<w WORKQUEUE_ID_SLOT_BITS) |w (slot +w 1)). rewrite I1, I2.
    change (w_owner (fresh _ _ _ _ _ _)) with (workqueue_copy_owner (replicate 24 0) owner). rewrite copy_owner_valid by done.
    change (w_initialized (fresh _ _ _ _ _ _)) with true. change (w_registry_slot (fresh _ _ _ _ _ _)) with (u8 slot).
    change (w_callback (fresh _ _ _ _ _ _)) with callback. change (w_priority (fresh _ _ _ _ _ _)) with priority.
    rewrite (u32_small (slot + 1)) by lia. assert (u8 slot = slot) as -> by (unfold u8; apply Z.mod_small; lia).
    unfold WORK_PRIORITY_COUNT. lia.
  - rewrite HP. constructor; [done|apply Rg].
  - intros q Hq. rewrite HP, elem_of_cons. tauto.
  - intros _. rewrite HW, decide_True by done. split; [|done]. change (w_priority (fresh _ _ _ _ _ _)) with priority. lia.
  - rewrite ES. assert (len (live (wq_registry s')) = inc (q_registered (wq_stats s))) as ->; [|done].
    rewrite (rg_count _ Rg). pose proof (live_length (wq_registry s)). rewrite inc_small by (unfold len in *; lia). unfold len. rewrite HP. cbn. lia.
Qed.

Lemma register_spec s Q p owner priority callback context :
  Inv 0 s Q → 0 ≤ priority → Inv 0 (workqueue_register_on s p owner priority callback context).1 Q.
Proof.
  intros HI Hpr. unfold workqueue_register_on. destruct (_ || (callback =? 0)) eqn:E1; [done|]. destruct (_ || (priority >=? _)) eqn:E2; [done|].
  repeat (case_match; [done|]). destruct (find_slot p (wq_registry s)) eqn:Ef; [done|].
  destruct (find_slot 0 (wq_registry s)) as [n|] eqn:Ez; cbn [fst]; [|by apply stat_soft].
  apply orb_false_iff in E1 as [Hp Hc]. apply orb_false_iff in E2 as [Ho Hq]. apply negb_false_iff in Ho. unfold WORK_PRIORITY_COUNT in Hq.
  apply register_in_spec; [done|by apply find_slot_Some|by apply find_slot_None|lia|lia|lia|done].
Qed.

Lemma slot_unique s p k :
  registered_ok s → p ≠ 0 → 0 ≤ k < 64 → at_ (wq_registry s) k = p → k = w_registry_slot (work_at s p).
Proof.
  intros Rg Hp0 Hk E. pose proof (rg_slots _ Rg k Hk) as HS. unfold slot_bad in HS. rewrite E, (proj2 (Z.eqb_neq _ _) Hp0) in HS.
  rewrite !orb_false_iff, !negb_false_iff in HS. destruct HS as [[[[[[[[[_ HR] _] _] _] _] _] _] _] _]. by apply Z.eqb_eq in HR.
Qed.

Lemma registered_slot s p :
  registered_ok s → p ∈ live (wq_registry s) →
  0 ≤ w_registry_slot (work_at s p) < 64 ∧ at_ (wq_registry s) (w_registry_slot (work_at s p)) = p.
Proof.
  intros Rg [Hp0 [i Hi]%list_elem_of_lookup]%elem_of_live. pose proof (lookup_lt_Some _ _ _ Hi). destruct (rg_len _ Rg) as [L _]. unfold len in L.
  assert (at_ (wq_registry s) (Z.of_nat i) = p) as E by (unfold at_; rewrite Nat2Z.id; by erewrite nth_lookup_Some).
  rewrite <-(slot_unique s p (Z.of_nat i) Rg Hp0 ltac:(lia) E). split; [lia|done].
Qed.

Lemma wq_destroy_spec s Q p : Inv 0 s Q → Inv 0 (work_destroy s p).1 Q.
Proof.
  intros HI. unfold work_destroy. destruct (Z.eqb_spec p 0) as [|Hp0]; [done|]. destruct (_ || _ || _) eqn:E; [done|]. cbn [fst].
  rewrite !orb_false_iff in E. destruct E as [[_ Hreg] Es]. apply negb_false_iff, bool_decide_eq_true in Es. pose proof HI as [Rg Ls].
  apply registered_iff in Hreg; [|done..]. destruct (registered_slot _ _ Rg Hreg) as [Hs Ea]. set (slot := w_registry_slot _) in *.
  destruct (rg_len _ Rg) as (L1 & L2 & L3 & L4). set (s' := put _ p _).
  assert (wq_registry s !! Z.to_nat slot = Some p) as Hlk.
  { destruct (lookup_lt_is_Some_2 (wq_registry s) (Z.to_nat slot)) as [x Hx]; [unfold len in *; lia|]. rewrite Hx. f_equal.
    rewrite <-Ea. unfold at_. by erewrite nth_lookup_Some. }
  assert (live (wq_registry s) ≡ₚ p :: live (wq_registry s')) as HP by (by apply live_clear).
  pose proof (rg_nodup _ Rg) as Nd. rewrite HP in Nd. apply NoDup_cons in Nd as [Hnp Nd].
  pose proof (idle_unlinked _ _ _ HI Hreg Es) as [_ Lp]. destruct (ls_detached _ _ _ Lp Hp0) as [_ Hnl].
  eapply (registry_spec s s' Q slot p); try done.
  - change (len (upd (wq_registry s) slot 0) = 64 ∧ len (wq_generations s) = 64 ∧ len (upd (owner_pids s) slot 0) = 64 ∧ len (upd (owner_generations s) slot 0) = 64).
    by rewrite !len_upd.
  - intros q Hq. unfold s'. by rewrite work_at_put, decide_False.
  - intros k Hk Hk0.
    change (at_ (upd (wq_registry s) slot 0) k = at_ (wq_registry s) k ∧ at_ (wq_generations s) k = at_ (wq_generations s) k ∧
      at_ (upd (owner_pids s) slot 0) k = at_ (owner_pids s) k ∧ at_ (upd (owner_generations s) slot 0) k = at_ (owner_generations s) k).
    rewrite !at_upd by lia. by rewrite (proj2 (Z.eqb_neq _ _) Hk).
  - intros k Hk Hks E. apply Hks. exact (slot_unique s p k Rg Hp0 Hk E).
  - unfold slot_bad. change (wq_registry s') with (upd (wq_registry s) slot 0). change (owner_pids s') with (upd (owner_pids s) slot 0).
    change (owner_generations s') with (upd (owner_generations s) slot 0). by rewrite !at_upd, !Z.eqb_refl by lia.
  - intros q Hq. rewrite HP, elem_of_cons. tauto.
  - change (wq_stats s') with ((wq_stats s) <| q_registered ::= dec_if |>).
    assert (len (live (wq_registry s')) = dec_if (q_registered (wq_stats s))) as ->; [|done].
    rewrite (rg_count _ Rg). pose proof (live_length (wq_registry s)). unfold len in *. rewrite HP in *. cbn [length] in *.
    rewrite dec_if_small by lia. lia.
Qed.

Lemma client_spec s Q p w : Inv 0 s Q → p ∉ wq_registry s → Inv 0 (put s p (λ _, w)) Q.
Proof.
  intros [Rg Ls] Hp. assert (∀ q, q ∈ live (wq_registry s) → work_at (put s p (λ _, w)) q = work_at s q) as HW.
  { intros q [_ Hq]%elem_of_live. rewrite work_at_put, decide_False; [done|]. by intros ->. }
  destruct Ls as [Hh Hn Hd Hl Nd Mem Det Bel HC]. destruct Rg as [R1 R2 R3 R4 R5 R6 R7]. split; split; try done.
  - intros k Hk. rewrite <-(R3 k Hk). unfold slot_bad. change (wq_registry (put s p _)) with (wq_registry s).
    destruct (Z.eqb_spec (at_ (wq_registry s) k) 0) as [|H0]; [done|]. rewrite HW; [done|]. apply elem_of_live. split; [done|].
    apply at_elem. lia.
  - intros q Hq. rewrite HW by done. by apply R4.
  - eapply list_rep_same; [exact Hh|]. intros q Hq. apply HW, Mem, linked_elem. tauto.
  - eapply list_rep_same; [exact Hn|]. intros q Hq. apply HW, Mem, linked_elem. tauto.
  - eapply list_rep_same; [exact Hd|]. intros q Hq. apply HW, Mem, linked_elem. tauto.
  - intros q Hq Hq0. rewrite HW by done. by apply Bel.
Qed.
