(* ===== verification/WorkqueueRun.v ===== *)
(** * Executing works: src/core/workqueue.c

    Dispatch takes the first work of a queue and runs its callback, which may call
    the service again.  The invariant holds through any run of the service, whatever
    the callbacks do; the service's own validator accepts exactly the states whose
    delayed works are in order and whose worker is alive. *)

From stdpp Require Import gmap.
From S2P Require Import Prelude Registry Workqueue WorkqueueInv WorkqueueCalls WorkqueueReg.

(** ** The calls of a callback *)

(** A priority is an unsigned value. *)
Definition well_formed (a : action) : Prop :=
  match a with AInit _ _ priority _ _ => 0 ≤ priority | _ => True end.
(** The action does not take the work [p] out of its queue. *)
Definition harmless (p : Z) (a : action) : Prop :=
  match a with ACancel q => p ≠ q | AQuiesce _ => False | _ => True end.

Lemma effect_same s Q P : Inv 0 s Q → ∃ Q', effect s Q Q' P.
Proof. intros HI. by exists Q. Qed.

Lemma checked_effect x Q Q' P : effect x.1 Q Q' P → effect (schedule_checked x).1 Q Q' P.
Proof. intros [H1 H2 H3]. destruct x as [s []]; split; try done; by apply stat_soft. Qed.

Lemma action_spec s Q a : Inv 0 s Q → well_formed a → ∃ Q', effect (run_action s a) Q Q' (λ p, harmless p a).
Proof.
  intros HI Ha. destruct a; cbn [run_action harmless].
  - apply effect_same. by apply register_spec.
  - apply effect_same. by apply wq_destroy_spec.
  - destruct (schedule_on_spec s Q work 0 HI) as [Q' H]. exists Q'. by apply checked_effect.
  - destruct (schedule_on_spec s Q work delay_ticks HI) as [Q' H]. exists Q'. by apply checked_effect.
  - unfold cancel_work. case_match; [by apply effect_same|]. by apply cancel_on_spec.
  - apply effect_same. unfold workqueue_power_set_quiescing. case_match; [done|by apply gate_soft].
  - destruct (quiesce_spec s Q deadline_tick HI) as (Q' & H1 & H2). by exists Q'.
  - apply effect_same. by apply bind_worker_spec.
  - apply effect_same. by apply bind_thread_spec.
  - apply effect_same. unfold workqueue_set_fallback. case_match; [done|by apply stat_soft].
  - apply effect_same. unfold workqueue_needs_fallback. repeat case_match; try done. by apply stat_soft.
  - apply effect_same. by apply kernel_soft.
  - apply effect_same. case_match eqn:E; [done|]. apply client_spec; [done|]. by apply bool_decide_eq_false in E.
Qed.

Lemma actions_spec l s Q :
  Inv 0 s Q → Forall well_formed l → ∃ Q', effect (foldl run_action s l) Q Q' (λ p, Forall (harmless p) l).
Proof.
  revert s Q. induction l as [|a l IH]; intros s Q HI HF; [by apply effect_same|]. apply Forall_cons in HF as [Ha Hl]. cbn [foldl].
  destruct (action_spec s Q a HI Ha) as [Q1 [H1 E1 A1] ]. destruct (IH _ _ H1 Hl) as [Q2 [H2 E2 A2] ]. exists Q2. split; [done|congruence|].
  intros p [Hp1 Hp2]%Forall_cons. etransitivity; [by apply A1|by apply A2].
Qed.

(** ** Taking a work and putting it back *)

Definition queue (priority : Z) (Q : queues) : list Z := if priority =? WORK_PRIORITY_HIGH then qh Q else qn Q.
Definition set_queue (priority : Z) (l : list Z) (Q : queues) : queues :=
  if priority =? WORK_PRIORITY_HIGH then Queues l (qn Q) (qd Q) (qr Q) else Queues (qh Q) l (qd Q) (qr Q).

Lemma start_spec s Q p f :
  p ≠ 0 → Inv p s Q → (∀ q, stable (f q) = stable q) →
  (∀ q, q_ready_high (f q) = q_ready_high q ∧ q_ready_normal (f q) = q_ready_normal q ∧ q_delayed (f q) = q_delayed q ∧ q_running (f q) = inc (q_running q)) →
  Inv 0 (stat (put s p (set w_state (λ _, WORK_STATE_RUNNING))) f) (Queues (qh Q) (qn Q) (qd Q) (p :: qr Q)).
Proof.
  intros Hp0 HI Hf HC. pose proof (linked_bound _ _ _ HI). pose proof HI as [Rg [Hh Hn Hd Hl Nd Mem Det Bel (C1 & C2 & C3 & C4)] ].
  pose proof (len_nonneg (qh Q)). pose proof (len_nonneg (qn Q)). pose proof (len_nonneg (qd Q)). pose proof (len_nonneg (qr Q)).
  set (s' := stat _ f). assert (∀ q, q ≠ p → work_at s' q = work_at s q) as HW by (intros q Hq; unfold s'; by rewrite work_at_stat, work_at_put, decide_False).
  destruct (Det Hp0) as [_ Hnl]. rewrite linked_elem in Hnl. destruct (HC (wq_stats s)) as (K1 & K2 & K3 & K4).
  eapply (attach_spec s s'); [done|exact HI|..]; cbn [qh qn qd qr].
  - transitivity (put s p (set w_state (λ _, WORK_STATE_RUNNING))); [by apply frame_put|by apply frame_stat].
  - intros q Hq. by rewrite HW.
  - eapply list_rep_same; [exact Hh|]. intros q Hq. apply HW. intros E. rewrite E in Hq. tauto.
  - eapply list_rep_same; [exact Hn|]. intros q Hq. apply HW. intros E. rewrite E in Hq. tauto.
  - eapply list_rep_same; [exact Hd|]. intros q Hq. apply HW. intros E. rewrite E in Hq. tauto.
  - done.
  - unfold linked. cbn [qh qn qd qr]. rewrite !(app_assoc (qh Q)), !(app_assoc (_ ++ qn Q)). symmetry. apply Permutation_middle.
  - intros q Hq. rewrite elem_of_cons. tauto.
  - unfold s'. rewrite work_at_stat, work_at_put, decide_True by done. change (p ∈ p :: qr Q). in_list.
  - change (wq_stats s') with (f (wq_stats s)). rewrite K1, K2, K3, K4, C1, C2, C3, C4, inc_small, len_cons by lia. split_and!; try done. lia.
Qed.

Lemma stop_spec s Q p r : Inv 0 s Q → qr Q = p :: r → Inv p (stat s (set q_running dec_if)) (Queues (qh Q) (qn Q) (qd Q) r).
Proof.
  intros HI Er. pose proof (linked_bound _ _ _ HI). destruct HI as [Rg [Hh Hn Hd Hl Nd Mem Det Bel (C1 & C2 & C3 & C4)] ].
  pose proof (len_nonneg (qh Q)). pose proof (len_nonneg (qn Q)). pose proof (len_nonneg (qd Q)). pose proof (len_nonneg r).
  destruct (linked_disjoint Q Nd) as (_ & _ & _ & Nr & D1 & D2 & D3). rewrite Er in Nr. apply NoDup_cons in Nr as [Hpr Nr].
  assert (linked Q ≡ₚ p :: linked (Queues (qh Q) (qn Q) (qd Q) r)) as HP.
  { unfold linked. cbn [qh qn qd qr]. rewrite Er, !(app_assoc (qh Q)), !(app_assoc (_ ++ qn Q)). symmetry. apply Permutation_middle. }
  rewrite HP in Nd. apply NoDup_cons in Nd as [Hnp Nd]. assert (p ∈ live (wq_registry s)) as Hp by (apply Mem; rewrite HP; in_list).
  split; [eapply registered_frame; [|exact Rg]; by apply frame_stat|]. split; try done.
  - intros q Hq. apply Mem. rewrite HP. by constructor.
  - intros q Hq Hqp. specialize (Bel q Hq). assert (q ≠ 0) as Hq0 by (by apply elem_of_live in Hq as [? _]). specialize (Bel Hq0).
    rewrite work_at_stat. unfold belongs in *. destruct (w_state _); cbn [qh qn qd qr]; [|done|done|].
    + rewrite HP in Bel. intros Hx. apply Bel. by constructor.
    + rewrite Er in Bel. apply elem_of_cons in Bel as [|]; done.
  - change (wq_stats (stat s _)) with ((wq_stats s) <| q_running ::= dec_if |>). split_and!; try done.
    change (dec_if (q_running (wq_stats s)) = len r). rewrite C4, Er in *. rewrite len_cons in *. rewrite dec_if_small; lia.
Qed.

Lemma take_ready_spec s Q priority :
  Inv 0 s Q → priority = 0 ∨ priority = 1 →
  match queue priority Q with
  | [] => workqueue_take_ready s priority = (s, 0)
  | p :: d => p ≠ 0 ∧ ∃ s', workqueue_take_ready s priority = (s', p) ∧ kernel s' = kernel s ∧
      Inv 0 s' (Queues (qh (set_queue priority d Q)) (qn (set_queue priority d Q)) (qd Q) (p :: qr Q))
  end.
Proof.
  intros HI Hpr. pose proof HI as [_ [Hh Hn _ _ Nd _ _ _ _] ].
  assert (at_ (ready_first s) priority = hd 0 (queue priority Q)) as Ef.
  { destruct Hpr as [-> | ->]; [apply Hh|apply Hn]. }
  unfold workqueue_take_ready. rewrite Ef. destruct (queue priority Q) as [|p d] eqn:Eq; cbn [hd]; [by rewrite Z.eqb_refl|].
  assert (p ∈ qh Q ++ qn Q ++ qd Q) as Hin.
  { assert (p ∈ queue priority Q) by (rewrite Eq; in_list). unfold queue in *. destruct (_ =? _); in_list. }
  assert (p ≠ 0) as Hp0.
  { destruct Hpr as [-> | ->]; unfold queue in Eq; cbn in Eq; rewrite Eq in *; [destruct Hh as (Hc & _)|destruct Hn as (Hc & _)]; apply Hc. }
  split; [done|]. rewrite (proj2 (Z.eqb_neq _ _) Hp0).
  pose proof (remove_spec s Q p HI Hin) as HR. pose proof (frame_list_remove s p) as Fr.
  assert (detach p Q = set_queue priority d Q) as ED.
  { destruct Hpr as [-> | ->]; [by apply detach_high|by apply detach_normal]. }
  rewrite ED in HR. eexists. split; [reflexivity|].
  assert (qd (set_queue priority d Q) = qd Q ∧ qr (set_queue priority d Q) = qr Q) as [E1 E2] by (unfold set_queue; by destruct (_ =? _)).
  split; [|apply peak_soft; rewrite <-E1, <-E2; by apply start_spec].
  rewrite <-(fr_kernel _ _ Fr). unfold workqueue_update_peak. by case_match.
Qed.

Lemma finish_spec s Q p r result elapsed :
  Inv 0 s Q → qr Q = p :: r →
  ∃ Q', Inv 0 (workqueue_finish s p result elapsed) Q' ∧ qr Q' = r ∧ ∀ q, advance q Q Q'.
Proof.
  intros HI Er. assert (p ≠ 0) as Hp0.
  { assert (p ∈ linked Q) as H by (rewrite linked_elem, Er; right; right; right; in_list). apply (inv_live _ _ _ _ HI), elem_of_live in H. tauto. }
  unfold workqueue_finish. cbn zeta. set (now := timer_get_ticks s). clearbody now.
  set (s1 := stat (put s p _) _). assert (Inv 0 s1 Q) as H1 by (apply stat_soft; [by apply put_soft|done..]). clearbody s1.
  set (s2 := if is_ok result then s1 else _). assert (Inv 0 s2 Q) as H2 by (unfold s2; case_match; [done|by apply stat_soft]). clearbody s2.
  set (s3 := put (stat s2 _) p _). set (Q3 := Queues (qh Q) (qn Q) (qd Q) r).
  assert (Inv p s3 Q3) as H3 by (apply put_detached; [by apply stop_spec|done]).
  assert (w_state (work_at s3 p) = WORK_STATE_IDLE) as E3 by (unfold s3; by rewrite work_at_put, decide_True). clearbody s3.
  destruct (w_cancel_requested (work_at s3 p)).
  { exists Q3. split_and!; [|done|intros q; by apply advance_eq]. apply attach_idle with p; [by apply put_detached|].
    rewrite work_at_put, decide_True by done. exact E3. }
  destruct (w_rerun_requested (work_at s3 p)).
  2:{ exists Q3. split_and!; [by apply attach_idle with p|done|intros q; by apply advance_eq]. }
  set (s4 := stat (put s3 p _) _). assert (Inv p s4 Q3) as H4 by (apply stat_soft; [by apply put_detached|done..]). clearbody s4.
  case_match.
  - eexists. split_and!; [apply wq_insert_spec; [done|by apply put_detached]|done|]. intros q. by apply advance_eq.
  - exists (push (w_priority (work_at s4 p)) p Q3). split_and!; [by apply wq_append_spec|by rewrite push_running|]. intros q.
    transitivity Q3; [by apply advance_eq|apply advance_push].
Qed.

Lemma drop_spec s Q p r : Inv 0 s Q → qr Q = p :: r → Inv 0 (workqueue_drop s p) (Queues (qh Q) (qn Q) (qd Q) r).
Proof.
  intros HI Er. unfold workqueue_drop.
  set (f := λ w : work_struct_t, w <| w_last_error := ERR_NOT_FOUND |> <| w_state := WORK_STATE_IDLE |>
    <| w_cancel_requested := false |> <| w_rerun_requested := false |> <| w_rerun_delayed := false |>).
  change (stat (put s p f) (λ q, q <| q_running ::= dec_if |> <| q_rejected ::= inc |> <| q_last_error := ERR_NOT_FOUND |>))
    with (stat (put (stat s (set q_running dec_if)) p f) (λ q, q <| q_rejected ::= inc |> <| q_last_error := ERR_NOT_FOUND |>)).
  apply stat_soft; [|done..]. apply attach_idle with p; [|by rewrite work_at_put, decide_True].
  apply put_detached; [by apply stop_spec|done].
Qed.

(** ** What the rest of the kernel is *)

Definition same_kernel (s s' : wq_t) : Prop := kernel s' = kernel s.
#[export] Instance same_kernel_preorder : PreOrder same_kernel.
Proof. split; [done|]. intros s1 s2 s3 H1 H2. unfold same_kernel in *. congruence. Qed.

Lemma kernel_frame s s' : frame s s' → same_kernel s s'.
Proof. intros []. done. Qed.
Lemma kernel_peak s : same_kernel s (workqueue_update_peak s).
Proof. apply kernel_frame, frame_update_peak. Qed.
Lemma kernel_notify s : same_kernel s (workqueue_notify s).
Proof. unfold workqueue_notify. by repeat case_match. Qed.
Lemma kernel_append s p : same_kernel s (workqueue_ready_append s p).
Proof. apply kernel_frame, frame_ready_append. Qed.
Lemma kernel_insert s p now : same_kernel s (workqueue_delayed_insert s p now).
Proof. apply kernel_frame, frame_delayed_insert. Qed.
Lemma kernel_remove s p : same_kernel s (workqueue_list_remove s p).
Proof. apply kernel_frame, frame_list_remove. Qed.
Lemma kernel_promote s now : same_kernel s (workqueue_promote_due s now).
Proof. apply kernel_frame, frame_promote. Qed.
Lemma kernel_capture s slot : same_kernel s (workqueue_capture_owner s slot).
Proof. unfold workqueue_capture_owner. cbn zeta. by repeat case_match. Qed.
Lemma kernel_put s p f : same_kernel s (put s p f).
Proof. done. Qed.
Lemma kernel_stat s f : same_kernel s (stat s f).
Proof. done. Qed.

Ltac kernel_step :=
  lazymatch goal with
  | |- same_kernel ?s ?s => reflexivity
  | |- same_kernel _ (stat ?s _) => transitivity s; [|apply kernel_stat]
  | |- same_kernel _ (put ?s _ _) => transitivity s; [|apply kernel_put]
  | |- same_kernel _ (workqueue_list_remove ?s _) => transitivity s; [|apply kernel_remove]
  | |- same_kernel _ (workqueue_ready_append ?s _) => transitivity s; [|apply kernel_append]
  | |- same_kernel _ (workqueue_delayed_insert ?s _ _) => transitivity s; [|apply kernel_insert]
  | |- same_kernel _ (workqueue_promote_due ?s _) => transitivity s; [|apply kernel_promote]
  | |- same_kernel _ (workqueue_notify ?s) => transitivity s; [|apply kernel_notify]
  | |- same_kernel _ (if ?b then _ else _) => destruct b
  | |- same_kernel _ (match ?b with _ => _ end) => destruct b
  | |- same_kernel _ (fst (if ?b then _ else _)) => destruct b
  | |- same_kernel _ (fst (_, _)) => cbn [fst]
  end.
Ltac kernels := repeat kernel_step.

Lemma kernel_schedule s p delay : same_kernel s (schedule_checked (workqueue_schedule_on s p delay)).1.
Proof.
  unfold workqueue_schedule_on. cbn zeta. set (now := timer_get_ticks s). clearbody now.
  repeat (case_match; [done|]). cbn [schedule_checked fst]. kernels. unfold schedule_switch, schedule_delayed_again, count_coalesced. cbn zeta. kernels.
Qed.
Lemma kernel_cancel s p : same_kernel s (cancel_work s p).1.
Proof. unfold cancel_work, workqueue_cancel_on. kernels. Qed.
Lemma kernel_register s p owner priority callback context : same_kernel s (workqueue_register_on s p owner priority callback context).1.
Proof.
  unfold workqueue_register_on. repeat (case_match; [done|]). case_match; [|done]. cbn [fst]. unfold register_in. cbn zeta.
  kernels. etransitivity; [|apply kernel_capture]. done.
Qed.
Lemma kernel_quiesce s deadline : same_kernel s (workqueue_power_quiesce_until s deadline).1.
Proof.
  unfold workqueue_power_quiesce_until. repeat (case_match; [done|]). cbn [fst]. set (s1 := s <| power_quiescing := true |>).
  transitivity s1; [done|]. clearbody s1. revert s1. induction (range 0 WORKQUEUE_CAPACITY) as [|i l IH]; intros s1; [done|]. cbn [foldl].
  etransitivity; [|apply IH]. unfold quiesce_work. kernels.
Qed.

(** The actions of the service change nothing outside it. *)
Lemma kernel_action s a : kernel (run_action s a) = match a with AKernel k => k | _ => kernel s end.
Proof.
  destruct a; cbn [run_action]; try done.
  - apply kernel_register.
  - unfold work_destroy. repeat case_match; done.
  - apply kernel_schedule.
  - apply kernel_schedule.
  - apply kernel_cancel.
  - unfold workqueue_power_set_quiescing. by case_match.
  - apply kernel_quiesce.
  - unfold workqueue_bind_worker. repeat case_match; done.
  - unfold workqueue_bind_thread. repeat case_match; done.
  - unfold workqueue_set_fallback. by case_match.
  - unfold workqueue_needs_fallback. by repeat case_match.
  - by case_match.
Qed.

(** Time passes and processes change, but interrupts stay enabled. *)
Definition interruptible (a : action) : Prop := match a with AKernel k => interrupts_enabled k = true | _ => True end.
Lemma interrupts_actions l s :
  Forall interruptible l → interrupts_enabled (kernel s) = true → interrupts_enabled (kernel (foldl run_action s l)) = true.
Proof.
  revert s. induction l as [|a l IH]; intros s Hl Hs; [done|]. apply Forall_cons in Hl as [Ha Hl]. cbn [foldl]. apply IH; [done|].
  rewrite kernel_action. by destruct a.
Qed.

Lemma kernel_finish s p result elapsed : kernel (workqueue_finish s p result elapsed) = kernel s.
Proof. change (same_kernel s (workqueue_finish s p result elapsed)). unfold workqueue_finish. cbn zeta. kernels. Qed.

(** ** Execution *)

Lemma rank_queue priority p Q Q' k : advance p Q Q' → rank p (queue priority Q) k → rank p (queue priority Q') k.
Proof. intros H. unfold queue. case_match; apply H. Qed.
Lemma queue_set_queue priority l Q : queue priority (set_queue priority l Q) = l.
Proof. unfold queue, set_queue. by case_match. Qed.

Section execution.
Context (run_callback : Z → Z → wq_t → list action * status).
Context (calls_ok : ∀ callback context s, Forall well_formed (run_callback callback context s).1).

(** The callbacks leave [p] in its queue; they keep interrupts enabled. *)
Definition gentle (p : Z) : Prop := ∀ callback context s, Forall (harmless p) (run_callback callback context s).1.
Definition keep_interrupts : Prop := ∀ callback context s, Forall interruptible (run_callback callback context s).1.

(** One execution: nothing to do, or the first work of the queue is taken. *)
Record executed (s s' : wq_t) (Q Q' : queues) : Prop := Executed {
  ex_inv : Inv 0 s' Q';
  ex_idle : qr Q' = [];
  ex_advance p : gentle p → advance p Q Q';
  ex_interrupts : keep_interrupts → interrupts_enabled (kernel s) = true → interrupts_enabled (kernel s') = true
}.

Lemma execute_one_spec s Q priority :
  Inv 0 s Q → qr Q = [] → priority = 0 ∨ priority = 1 →
  let Q1 := promoted s (timer_get_ticks s) Q in
  ∃ s' result, workqueue_execute_one run_callback s priority = (s', result) ∧
  match queue priority Q1 with
  | [] => result = ERR_NOT_FOUND ∧ executed s s' Q Q1
  | h :: d => (result = OK ∨ result = ERR_STATE ∧ interrupts_enabled (kernel s) = false) ∧
      ∃ Q', executed s s' (set_queue priority d Q1) Q'
  end.
Proof.
  intros HI Hr Hpr. cbn zeta. unfold workqueue_execute_one. set (now := timer_get_ticks s). set (Q1 := promoted s now Q).
  destruct (promote_spec s Q now HI) as [H1 _]. fold Q1 in H1. pose proof (kernel_promote s now) as K1. set (s1 := workqueue_promote_due s now) in *.
  pose proof (take_ready_spec s1 Q1 priority H1 Hpr) as HT. assert (qr Q1 = []) as Hr1 by (unfold Q1; by rewrite promoted_running).
  destruct (queue priority Q1) as [|h d] eqn:Eq.
  { rewrite HT. cbn [Z.eqb]. eexists _, _. split; [done|]. split; [done|]. split; [done|done| |].
    - intros p _. apply advance_promoted.
    - intros _. by rewrite K1. }
  destruct HT as (Hh & s2 & -> & K2 & H2). rewrite (proj2 (Z.eqb_neq _ _) Hh). rewrite Hr1 in H2. set (Q2 := Queues _ _ _ [h]) in H2.
  assert (∀ p, advance p (set_queue priority d Q1) Q2) as A2 by (intros p; by apply advance_eq).
  assert (kernel s2 = kernel s) as K by (rewrite K2; exact K1). clear K1 K2.
  destruct (negb (workqueue_owner_is_live s2 _)).
  { eexists _, _. split; [done|]. split; [by left|]. eexists. split; [by eapply drop_spec|done|intros p _; etransitivity; [apply A2|by apply advance_eq]|].
    intros _. change (kernel (workqueue_drop s2 h)) with (kernel s2). by rewrite K. }
  destruct (interrupts_enabled (kernel s2)) eqn:Ei; cbn [negb].
  - destruct (run_callback _ _ s2) as [l result] eqn:Ec. eexists _, _. split; [done|]. split; [by left|].
    assert (Forall well_formed l) as Hl by (pose proof (calls_ok (w_callback (work_at s2 h)) (w_context (work_at s2 h)) s2) as C; by rewrite Ec in C).
    destruct (actions_spec l s2 Q2 H2 Hl) as [Q3 [H3 R3 A3] ]. destruct (finish_spec _ Q3 h [] result (timer_get_ticks (foldl run_action s2 l) -w timer_get_ticks s2) H3) as (Q4 & H4 & R4 & A4); [done|].
    exists Q4. split; [done|done| |].
    + intros p Hp. etransitivity; [apply A2|]. etransitivity; [apply A3|apply A4]. pose proof (Hp (w_callback (work_at s2 h)) (w_context (work_at s2 h)) s2) as C. by rewrite Ec in C.
    + intros HK _. rewrite kernel_finish. apply interrupts_actions; [|done]. pose proof (HK (w_callback (work_at s2 h)) (w_context (work_at s2 h)) s2) as C. by rewrite Ec in C.
  - eexists _, _. split; [done|]. split; [right; split; [done|by rewrite <-K]|]. 
    destruct (finish_spec (stat s2 (λ q, q <| q_context_errors ::= inc |> <| q_last_error := ERR_STATE |>)) Q2 h [] ERR_STATE 0) as (Q4 & H4 & R4 & A4); [by apply stat_soft|done|].
    exists Q4. split; [done|done| |].
    + intros p _. etransitivity; [apply A2|apply A4].
    + intros _ E. rewrite <-K, Ei in E. done.
Qed.

Lemma execute_one_inv s Q priority :
  Inv 0 s Q → qr Q = [] → priority = 0 ∨ priority = 1 → ∃ Q', Inv 0 (workqueue_execute_one run_callback s priority).1 Q' ∧ qr Q' = [].
Proof.
  intros HI Hr Hpr. destruct (execute_one_spec s Q priority HI Hr Hpr) as (s' & result & -> & H). cbn [fst].
  destruct (queue _ _); [destruct H as [_ []]; eauto|destruct H as (_ & Q' & []); eauto].
Qed.

Lemma execute_loop_inv budget s Q priority e :
  Inv 0 s Q → qr Q = [] → priority = 0 ∨ priority = 1 → ∃ Q', Inv 0 (execute_loop run_callback budget s priority e).1.1 Q' ∧ qr Q' = [].
Proof.
  revert s Q e. induction budget as [|budget IH]; intros s Q e HI Hr Hpr; cbn [execute_loop]; [by exists Q|].
  destruct (execute_one_inv s Q priority HI Hr Hpr) as (Q' & H1 & R1). destruct (workqueue_execute_one _ _ _) as [s' result].
  destruct result; try (by exists Q'); by eapply IH.
Qed.

Lemma dispatch_on_inv s Q high_budget normal_budget :
  Inv 0 s Q → qr Q = [] → ∃ Q', Inv 0 (workqueue_dispatch_on run_callback s high_budget normal_budget).1.1 Q' ∧ qr Q' = [].
Proof.
  intros HI Hr. unfold workqueue_dispatch_on. case_match; [by exists Q|].
  destruct (execute_loop_inv (Z.to_nat high_budget) s Q WORK_PRIORITY_HIGH 0 HI Hr) as (Q1 & H1 & R1); [by left|].
  destruct (execute_loop _ _ s _ _) as [ [s1 e1] [r1|] ]; [by exists Q1|].
  destruct (execute_loop_inv (Z.to_nat normal_budget) s1 Q1 WORK_PRIORITY_NORMAL e1 H1 R1) as (Q2 & H2 & R2); [by right|].
  destruct (execute_loop _ _ s1 _ _) as [ [s2 e2] [r2|] ]; by exists Q2.
Qed.

Lemma dispatch_inv s Q high_budget normal_budget :
  Inv 0 s Q → qr Q = [] → ∃ Q', Inv 0 (workqueue_dispatch run_callback s high_budget normal_budget).1.1 Q' ∧ qr Q' = [].
Proof.
  intros HI Hr. unfold workqueue_dispatch. do 2 (case_match; [by exists Q|]).
  case_match; [by eapply dispatch_on_inv; [apply stat_soft|]|]. case_match; [exists Q; split; [by apply stat_soft|done]|].
  by eapply dispatch_on_inv; [apply stat_soft|].
Qed.

Lemma worker_round_inv s Q : Inv 0 s Q → qr Q = [] → ∃ Q', Inv 0 (worker_round run_callback s).1 Q' ∧ qr Q' = [].
Proof.
  intros HI Hr. unfold worker_round.
  destruct (dispatch_inv s Q WORKQUEUE_HIGH_BUDGET WORKQUEUE_NORMAL_BUDGET HI Hr) as (Q' & H & R). exists Q'.
  destruct (workqueue_dispatch _ _ _ _) as [ [s' [e|] ] [] ]; try done. case_match; [done|]. split; [by apply stat_soft|done].
Qed.

(** ** Runs of the service *)

(** What can happen to the service between two callbacks. *)
Inductive event :=
| ECall (a : action)
| EDispatch (high_budget normal_budget : Z)
| EWorker
| EValidate.
Definition run_event (s : wq_t) (e : event) : wq_t :=
  match e with
  | ECall a => run_action s a
  | EDispatch high_budget normal_budget => (workqueue_dispatch run_callback s high_budget normal_budget).1.1
  | EWorker => (worker_round run_callback s).1
  | EValidate => (workqueue_validate_state s).1
  end.
Definition event_ok (e : event) : Prop := match e with ECall a => well_formed a | _ => True end.

Lemma event_inv s Q e : Inv 0 s Q → qr Q = [] → event_ok e → ∃ Q', Inv 0 (run_event s e) Q' ∧ qr Q' = [].
Proof.
  intros HI Hr He. destruct e; cbn [run_event].
  - destruct (action_spec s Q a HI He) as [Q' [H R _] ]. exists Q'. by rewrite R.
  - by eapply dispatch_inv.
  - by eapply worker_round_inv.
  - exists Q. split; [|done]. unfold workqueue_validate_state. case_match; try done; by apply stat_soft.
Qed.
Lemma events_inv l s Q : Inv 0 s Q → qr Q = [] → Forall event_ok l → ∃ Q', Inv 0 (foldl run_event s l) Q' ∧ qr Q' = [].
Proof.
  revert s Q. induction l as [|e l IH]; intros s Q HI Hr Hl; [by exists Q|]. apply Forall_cons in Hl as [He Hl].
  destruct (event_inv s Q e HI Hr He) as (Q1 & H1 & R1). by eapply IH.
Qed.
End execution.
