(* ===== verification/WorkqueueValid.v ===== *)
(** * Validation of the work queue: src/core/workqueue.c

    What the validator of the service decides on the states the service reaches, from
    [workqueue_init] on. *)

From stdpp Require Import gmap.
From S2P Require Import Prelude Registry Workqueue WorkqueueInv WorkqueueCalls WorkqueueReg WorkqueueRun.

(** ** The walks over the lists *)

Lemma link_good s Q p previous state :
  Inv 0 s Q → p ∈ live (wq_registry s) → w_previous (work_at s p) = previous → w_state (work_at s p) = state → link_bad s p previous state = false.
Proof.
  intros [Rg _] Hp <- <-. unfold link_bad. rewrite Z.eqb_refl, bool_decide_true by done. cbn [negb orb].
  apply registered_iff; [done| |done]. by apply elem_of_live in Hp as [? _].
Qed.

Lemma last_cons (p : Z) l a : List.last (p :: l) a = List.last l p.
Proof. revert p a. induction l as [|q l IH]; intros p a; [done|]. change (List.last (q :: l) a = List.last (q :: l) p). by rewrite !IH. Qed.

Lemma ready_walk_spec fuel s Q priority l previous count :
  Inv 0 s Q → chain (work_at s) previous l 0 → 0 ≤ count → count + len l ≤ 64 → (length l < fuel)%nat →
  (∀ p, p ∈ l → p ∈ live (wq_registry s) ∧ w_state (work_at s p) = WORK_STATE_READY ∧ w_priority (work_at s p) = priority) →
  ready_walk fuel s priority (hd 0 l) previous count = Some (List.last l previous, count + len l).
Proof.
  intros HI. revert fuel previous count. induction l as [|p l IH]; intros fuel previous count Hc H0 Hl Hf HP; (destruct fuel as [|fuel]; [cbn in Hf; lia|]).
  - cbn. by rewrite Z.add_0_r.
  - destruct Hc as (Hp0 & Hpr & Hn & Hc). destruct (HP p) as (H1 & H2 & H3); [in_list|]. cbn [hd ready_walk]. rewrite len_cons in *. pose proof (len_nonneg l).
    rewrite (proj2 (Z.eqb_neq _ _) Hp0), (link_good s Q) by done. rewrite H3, Z.eqb_refl, u32_small by lia. cbn [negb orb].
    unfold WORKQUEUE_CAPACITY. destruct (Z.gtb_spec (count + 1) 64); [lia|]. rewrite Hn, IH; [|done|lia|lia|cbn in Hf; lia|].
    + rewrite last_cons. f_equal. f_equal. lia.
    + intros q Hq. apply HP. by constructor.
Qed.

(** Each deadline is at or after the one before it. *)
Fixpoint in_order (s : wq_t) (l : list Z) : bool :=
  match l with
  | p :: (q :: _) as l => negb (i32 (w_deadline_tick (work_at s q) - w_deadline_tick (work_at s p)) <? 0) && in_order s l
  | _ => true
  end.

Lemma delayed_walk_spec fuel s Q l previous count last_deadline :
  Inv 0 s Q → chain (work_at s) previous l 0 → 0 ≤ count → count + len l ≤ 64 → (length l < fuel)%nat →
  (∀ p, p ∈ l → p ∈ live (wq_registry s) ∧ w_state (work_at s p) = WORK_STATE_DELAYED) →
  delayed_walk fuel s (hd 0 l) previous count last_deadline =
    if (match l with [] => true | p :: _ => (count =? 0) || negb (i32 (w_deadline_tick (work_at s p) - last_deadline) <? 0) end) && in_order s l
    then Some (List.last l previous, count + len l) else None.
Proof.
  intros HI. revert fuel previous count last_deadline.
  induction l as [|p l IH]; intros fuel previous count last_deadline Hc H0 Hl Hf HP; (destruct fuel as [|fuel]; [cbn in Hf; lia|]).
  - cbn. by rewrite Z.add_0_r.
  - destruct Hc as (Hp0 & Hpr & Hn & Hc). destruct (HP p) as (H1 & H2); [in_list|]. cbn [hd delayed_walk]. rewrite len_cons in *. pose proof (len_nonneg l).
    rewrite (proj2 (Z.eqb_neq _ _) Hp0), (link_good s Q) by done. cbn zeta. cbn [orb].
    rewrite u32_small by lia. unfold WORKQUEUE_CAPACITY. destruct (Z.gtb_spec (count + 1) 64); [lia|]. rewrite orb_false_r.
    destruct (count =? 0) eqn:E0; cbn [negb orb andb].
    all: try (destruct (i32 (_ - last_deadline) <? 0); cbn [negb andb]; [done|]).
    all: rewrite Hn, IH; [|done|lia|lia|cbn in Hf; lia|intros q Hq; apply HP; by constructor].
    all: rewrite (proj2 (Z.eqb_neq (count + 1) 0)) by lia; destruct l as [|q l]; cbn [orb andb in_order]; [cbn; f_equal; f_equal; lia|].
    all: destruct (negb (i32 _ <? 0) && _); [|done]; rewrite !last_cons; f_equal; f_equal; lia.
Qed.

Lemma ready_list_good s Q priority : Inv 0 s Q → priority = 0 ∨ priority = 1 → ready_list_ok s priority (len (queue priority Q)) = true.
Proof.
  intros HI Hpr. pose proof (linked_bound _ _ _ HI) as HB. pose proof HI as [_ [Hh Hn _ _ Nd Mem _ _ _] ].
  pose proof (len_nonneg (qh Q)). pose proof (len_nonneg (qn Q)). pose proof (len_nonneg (qd Q)). pose proof (len_nonneg (qr Q)).
  destruct (linked_disjoint Q Nd) as (_ & _ & _ & _ & D1 & D2 & _).
  assert (list_rep s (at_ (ready_first s) priority) (at_ (ready_last s) priority) (queue priority Q)) as (Hc & Ef & El) by (by destruct Hpr as [-> | ->]).
  assert (∀ p, p ∈ queue priority Q → p ∈ linked Q ∧ (p ∉ qd Q) ∧ (p ∉ qr Q) ∧ (priority = 0 → p ∉ qn Q) ∧ (priority = 1 → p ∉ qh Q)) as HQ.
  { intros p Hp. rewrite linked_elem. destruct Hpr as [-> | ->]; unfold queue in Hp; cbn in Hp.
    - destruct (D1 p Hp) as (? & ? & ?). split_and!; try done. tauto.
    - destruct (D2 p Hp) as (? & ?). split_and!; try done; [tauto|]. intros _ Hp'. by destruct (D1 p Hp'). }
  assert (len (queue priority Q) ≤ 64) as HL by (destruct Hpr as [-> | ->]; unfold queue; cbn; lia).
  unfold ready_list_ok. rewrite Ef, (ready_walk_spec 66 s Q priority (queue priority Q) 0 0); [by rewrite El, !Z.eqb_refl|done|done|lia|lia|unfold len in *; lia|].
  intros p Hp. destruct (HQ p Hp) as (Hl & H3 & H4 & H5 & H6). pose proof (Mem p Hl) as Hreg. split; [done|].
  pose proof (inv_state _ _ _ HI Hreg) as B. unfold belongs in B. unfold WORK_PRIORITY_HIGH, WORK_PRIORITY_NORMAL in B.
  destruct (w_state (work_at s p)); try tauto. split; [done|]. destruct Hpr as [-> | ->]; tauto.
Qed.

Lemma delayed_list_good s Q : Inv 0 s Q → delayed_list_ok s = in_order s (qd Q).
Proof.
  intros HI. pose proof (linked_bound _ _ _ HI) as HB. pose proof HI as [_ [_ _ (Hc & Ef & El) _ Nd Mem _ _ (_ & _ & C & _)] ].
  pose proof (len_nonneg (qh Q)). pose proof (len_nonneg (qn Q)). pose proof (len_nonneg (qd Q)). pose proof (len_nonneg (qr Q)).
  destruct (linked_disjoint Q Nd) as (_ & _ & _ & _ & D1 & D2 & D3).
  unfold delayed_list_ok. rewrite Ef, (delayed_walk_spec 66 s Q (qd Q) 0 0 0); [|done|done|lia|lia|unfold len in *; lia|].
  - rewrite El, C. destruct (qd Q) as [|p l] eqn:Eq; [done|]. cbn [Z.eqb orb andb]. destruct (in_order _ _); [|done]. by rewrite !Z.eqb_refl.
  - intros p Hp. assert (p ∈ linked Q) as Hl by (apply linked_elem; tauto). split; [by apply Mem|].
    pose proof (inv_state _ _ _ HI (Mem p Hl)) as B. unfold belongs in B. destruct (w_state (work_at s p)); [tauto| |done|].
    + destruct B as [[_ B]|[_ B]]; [by destruct (D1 p B) as (_ & ? & _)|by destruct (D2 p B)].
    + by destruct (D3 p Hp).
Qed.

(** ** The counts over the registry *)

Lemma count_works_spec s Q test l :
  Inv 0 s Q → NoDup l → (∀ p, p ∈ l ↔ p ∈ live (wq_registry s) ∧ test (work_at s p) = true) → count_works s test = len l.
Proof.
  intros HI Nl H. unfold count_works.
  assert (filter (λ p, p ≠ 0 ∧ test (work_at s p) = true) (wq_registry s) = filter (λ p, test (work_at s p) = true) (live (wq_registry s))) as ->.
  { unfold live. rewrite list_filter_filter. apply list_filter_iff. intros p. tauto. }
  unfold len. f_equal. apply Permutation_length, NoDup_Permutation; [apply NoDup_filter, HI|done|].
  intros p. rewrite list_elem_of_filter, H. tauto.
Qed.

Lemma state_counts s Q :
  Inv 0 s Q →
  count_works s (λ _, true) = q_registered (wq_stats s) ∧
  count_works s (λ w, in_state WORK_STATE_READY w && (w_priority w =? WORK_PRIORITY_HIGH)) = q_ready_high (wq_stats s) ∧
  count_works s (λ w, in_state WORK_STATE_READY w && (w_priority w =? WORK_PRIORITY_NORMAL)) = q_ready_normal (wq_stats s) ∧
  count_works s (in_state WORK_STATE_DELAYED) = q_delayed (wq_stats s) ∧
  count_works s (in_state WORK_STATE_RUNNING) = q_running (wq_stats s).
Proof.
  intros HI. pose proof HI as [Rg [_ _ _ _ Nd Mem _ _ (-> & -> & -> & ->)] ]. rewrite (rg_count _ Rg).
  destruct (linked_disjoint Q Nd) as (N1 & N2 & N3 & N4 & D1 & D2 & D3).
  assert (∀ p, p ∈ linked Q → p ∈ live (wq_registry s) ∧ belongs Q p (work_at s p)) as HB by (intros p Hp; split; [by apply Mem|]; apply inv_state; [done|by apply Mem]).
  assert (∀ p, p ∈ live (wq_registry s) → belongs Q p (work_at s p)) as HB' by (intros p; by apply inv_state).
  unfold belongs in HB, HB'. unfold WORK_PRIORITY_HIGH, WORK_PRIORITY_NORMAL, in_state in *.
  split_and!; (eapply count_works_spec; [exact HI|first [apply Rg|done]|]); intros p.
  - tauto.
  - rewrite andb_true_iff, bool_decide_eq_true, Z.eqb_eq. split.
    + intros Hp. destruct (HB p) as [Hl B]; [apply linked_elem; tauto|]. destruct (D1 p Hp) as (? & ? & ?).
      destruct (w_state (work_at s p)); rewrite ?linked_elem in B; tauto.
    + intros (Hl & E & Ep). specialize (HB' p Hl). rewrite E, Ep in HB'. destruct HB' as [[_ ?]|[? _]]; [done|lia].
  - rewrite andb_true_iff, bool_decide_eq_true, Z.eqb_eq. split.
    + intros Hp. destruct (HB p) as [Hl B]; [apply linked_elem; tauto|]. destruct (D2 p Hp) as (? & ?). pose proof (D1 p) as D1p.
      destruct (w_state (work_at s p)); rewrite ?linked_elem in B; tauto.
    + intros (Hl & E & Ep). specialize (HB' p Hl). rewrite E, Ep in HB'. destruct HB' as [[? _]|[_ ?]]; [lia|done].
  - rewrite bool_decide_eq_true. split.
    + intros Hp. destruct (HB p) as [Hl B]; [apply linked_elem; tauto|]. pose proof (D1 p) as D1p. pose proof (D2 p) as D2p. pose proof (D3 p) as D3p.
      destruct (w_state (work_at s p)); rewrite ?linked_elem in B; tauto.
    + intros (Hl & E). specialize (HB' p Hl). by rewrite E in HB'.
  - rewrite bool_decide_eq_true. split.
    + intros Hp. destruct (HB p) as [Hl B]; [apply linked_elem; tauto|]. pose proof (D1 p) as D1p. pose proof (D2 p) as D2p. pose proof (D3 p) as D3p.
      destruct (w_state (work_at s p)); rewrite ?linked_elem in B; tauto.
    + intros (Hl & E). specialize (HB' p Hl). by rewrite E in HB'.
Qed.

(** What the validator decides on a state of the service. *)
Definition worker_ok (s : wq_t) : bool := negb (sv_main s && q_worker_bound (wq_stats s)) || worker_alive s.

Lemma validate_exact s Q :
  Inv 0 s Q → qr Q = [] → workqueue_validate_on s = if in_order s (qd Q) && worker_ok s then OK else ERR_STATE.
Proof.
  intros HI Hr. destruct (state_counts s Q HI) as (N0 & N1 & N2 & N3 & N4). pose proof HI as [Rg [_ _ _ _ _ _ _ _ (C1 & C2 & C3 & C4)] ].
  destruct (rg_init _ Rg) as [I1 I2]. destruct (rg_len _ Rg) as (L & _). pose proof (live_length (wq_registry s)).
  unfold workqueue_validate_on. cbn zeta. rewrite N0, N1, N2, N3, N4, !Z.eqb_refl, (rg_worker _ Rg), I1, I2, (rg_count _ Rg), C4, Hr, C1, C2.
  cbn [negb orb]. unfold WORKQUEUE_CAPACITY.
  destruct (Z.gtb_spec (len (live (wq_registry s))) 64); [unfold len in *; lia|]. change (len [] >? 1) with false. cbn [orb].
  assert (existsb (slot_bad s) (range 0 64) = false) as ->.
  { apply not_true_iff_false. intros (i & Hi & Hb)%existsb_exists. apply list_elem_of_In, elem_of_range in Hi. rewrite (rg_slots _ Rg i Hi) in Hb. done. }
  change (len (qh Q)) with (len (queue WORK_PRIORITY_HIGH Q)). change (len (qn Q)) with (len (queue WORK_PRIORITY_NORMAL Q)).
  rewrite (ready_list_good s Q WORK_PRIORITY_HIGH), (ready_list_good s Q WORK_PRIORITY_NORMAL), (delayed_list_good s Q) by (first [done|by left|by right]).
  change (64 =? 64) with true. cbn [negb orb].
  unfold worker_ok. destruct (sv_main s), (q_worker_bound (wq_stats s)), (worker_alive s), (in_order s (qd Q)); done.
Qed.

(** ** Initialisation *)

Lemma at_zeros n i : at_ (replicate n 0) i = 0.
Proof. unfold at_. rewrite nth_lookup. destruct (replicate n 0 !! Z.to_nat i) eqn:E; [|done]. by apply lookup_replicate in E as [-> _]. Qed.
Lemma live_zeros n : live (replicate n 0) = [].
Proof. induction n as [|n IH]; [done|]. cbn [replicate]. by rewrite live_cons. Qed.

Lemma cleared_inv s : Inv 0 (stat ((workqueue_service_clear s) <| wait_queue_initialized := true |>) (set q_initialized (λ _, true))) (Queues [] [] [] []).
Proof.
  set (s' := stat _ _). assert (wq_registry s' = replicate 64 0) as E by done. split; split; try done.
  - by rewrite E, live_zeros; constructor.
  - intros slot _. unfold slot_bad. change (owner_pids s') with (replicate 64 0). change (owner_generations s') with (replicate 64 0).
    by rewrite E, !at_zeros.
  - intros p. rewrite E, live_zeros. by intros ?%elem_of_nil.
  - by constructor.
  - by intros p ?%elem_of_nil.
Qed.

(** The process of a work is forgotten. *)
Lemma disown_inv s Q p (slot := w_registry_slot (work_at s p)) :
  Inv 0 s Q → p ∈ live (wq_registry s) → w_state (work_at s p) = WORK_STATE_IDLE →
  Inv 0 (s <| owner_pids ::= λ l, upd l slot 0 |> <| owner_generations ::= λ l, upd l slot 0 |>) Q.
Proof.
  intros HI Hp Es. pose proof HI as [Rg Ls]. destruct (registered_slot _ _ Rg Hp) as [Hs Ea]. fold slot in Hs, Ea.
  destruct (rg_len _ Rg) as (L1 & L2 & L3 & L4). set (s' := set owner_generations _ _).
  assert (p ≠ 0) as Hp0 by (by apply elem_of_live in Hp as [? _]).
  pose proof (idle_unlinked _ _ _ HI Hp Es) as [_ Lp]. destruct (ls_detached _ _ _ Lp Hp0) as [_ Hnl].
  eapply (registry_spec s s' Q slot p); try done.
  - change (len (wq_registry s) = 64 ∧ len (wq_generations s) = 64 ∧ len (upd (owner_pids s) slot 0) = 64 ∧ len (upd (owner_generations s) slot 0) = 64).
    by rewrite !len_upd.
  - intros k Hk Hk0.
    change (at_ (wq_registry s) k = at_ (wq_registry s) k ∧ at_ (wq_generations s) k = at_ (wq_generations s) k ∧
      at_ (upd (owner_pids s) slot 0) k = at_ (owner_pids s) k ∧ at_ (upd (owner_generations s) slot 0) k = at_ (owner_generations s) k).
    rewrite !at_upd by lia. by rewrite (proj2 (Z.eqb_neq _ _) Hk).
  - intros k Hk Hks E. apply Hks. exact (slot_unique s p k Rg Hp0 Hk E).
  - pose proof (rg_slots _ Rg slot Hs) as HB. unfold slot_bad in *. change (wq_registry s') with (wq_registry s). change (wq_generations s') with (wq_generations s).
    change (owner_pids s') with (upd (owner_pids s) slot 0). change (owner_generations s') with (upd (owner_generations s) slot 0).
    rewrite !at_upd, !Z.eqb_refl by lia. rewrite Ea, (proj2 (Z.eqb_neq _ _) Hp0) in *. change (work_at s' p) with (work_at s p).
    fold slot in HB |- *. apply orb_false_iff in HB as [[HB _]%orb_false_iff _]. by rewrite HB.
  - apply Rg.
  - intros _. split; [by apply (rg_priority _ Rg)|done].
  - rewrite <-(rg_count _ Rg : q_registered (wq_stats s) = len (live (wq_registry s'))). change (wq_stats s') with (wq_stats s). by destruct (wq_stats s).
Qed.

(** The probe is the first work of an empty service. *)
Lemma register_probe s probe callback service :
  Inv 0 s (Queues [] [] [] []) → wq_registry s = replicate 64 0 → power_quiescing s = false → probe ≠ 0 → callback ≠ 0 →
  ∃ s', workqueue_register_on s probe probe_owner WORK_PRIORITY_HIGH callback service = (s', OK) ∧
    Inv 0 s' (Queues [] [] [] []) ∧ live (wq_registry s') = [probe] ∧ w_state (work_at s' probe) = WORK_STATE_IDLE.
Proof.
  intros HI Er Hq Hp Hc. pose proof HI as [Rg _]. destruct (rg_init _ Rg) as [Hi _]. destruct (rg_len _ Rg) as (_ & L & _).
  assert (find_slot probe (wq_registry s) = None) as F1 by (apply find_slot_None; rewrite Er; intros [E _]%elem_of_replicate; by apply Hp).
  assert (find_slot 0 (wq_registry s) = Some O) as F2 by (rewrite Er; reflexivity).
  assert (workqueue_owner_valid probe_owner = true) as Ho by (vm_compute; reflexivity).
  exists (register_in s 0 probe probe_owner WORK_PRIORITY_HIGH callback service).
  destruct (register_in_fields s 0 probe probe_owner WORK_PRIORITY_HIGH callback service ltac:(lia) L) as (HW & E1 & _).
  split_and!.
  - unfold workqueue_register_on. rewrite (proj2 (Z.eqb_neq _ _) Hp), (proj2 (Z.eqb_neq _ _) Hc), F1, F2, Ho, Hi, Hq, andb_false_r. reflexivity.
  - apply (register_in_spec s _ 0); [exact HI|by rewrite Er|by apply find_slot_None|done|done|done|done].
  - rewrite E1, Er. change (upd (replicate 64 0) 0 probe) with (probe :: replicate 63 0).
    by rewrite live_cons, (proj2 (Z.eqb_neq _ _) Hp), live_zeros.
  - rewrite HW, decide_True by reflexivity. reflexivity.
Qed.

Lemma wq_init_inv s probe callback service :
  q_initialized (wq_stats s) = false → probe ≠ 0 → callback ≠ 0 →
  ∃ s', workqueue_init s probe callback service OK OK = (s', OK) ∧ Inv 0 s' (Queues [] [] [] []) ∧ live (wq_registry s') = [probe].
Proof.
  intros Hi Hp Hc. unfold workqueue_init. rewrite Hi. cbn zeta. cbn [is_ok negb].
  destruct (register_probe _ probe callback service (cleared_inv s) eq_refl eq_refl Hp Hc) as (r & -> & H1 & EL & ES).
  cbn [is_ok negb]. eexists. split; [reflexivity|]. split; [|exact EL]. apply disown_inv; [exact H1|rewrite EL; in_list|exact ES].
Qed.

(** ** Runs *)

(** A kernel at a tick, and a service in it. *)
Definition demo_kernel (tick : Z) : kernel_t := Kernel tick [] None [] None true true.
Definition demo_state : wq_t := Wq true [] [] [] [] [] [] 0 0 false false 0 0 wq_stats_zero ∅ (demo_kernel 100).
(** Callback 1 asks for its work, at address 32, again in 50 ticks and runs for 15
    ticks; callback 2 cancels its work, at address 48, and requests it again. *)
Definition demo_callback (callback context : Z) (s : wq_t) : list action * status :=
  if callback =? 1 then ([AScheduleDelayed 32 50; AKernel (demo_kernel 115)], OK)
  else if callback =? 2 then ([ACancel 48; ASchedule 48], OK)
  else ([], OK).
Lemma demo_calls_ok callback context s : Forall well_formed (demo_callback callback context s).1.
Proof. unfold demo_callback. repeat case_match; by repeat constructor. Qed.

Definition demo_after (events : list event) : wq_t := foldl (run_event demo_callback) (workqueue_init demo_state 8 9 10 OK OK).1 events.
Lemma wq_demo_inv events : Forall event_ok events → ∃ Q, Inv 0 (demo_after events) Q ∧ qr Q = [].
Proof.
  intros He. destruct (wq_init_inv demo_state 8 9 10) as (s0 & E0 & H0 & _); [done..|]. unfold demo_after. rewrite E0.
  exact (events_inv demo_callback demo_calls_ok events s0 _ H0 eq_refl He).
Qed.

(** C16: Whatever clients and callbacks do, the service stays consistent.  After
    [workqueue_init] and any sequence of calls, dispatches, rounds of the worker and
    validations, with any callbacks, the two ready queues and the delayed list are
    doubly linked lists of registered works in the right state, every registered work
    that is not idle is on exactly one of them, the counters are their lengths, and the
    registry, the identifiers and the binding of the worker are well formed.  The
    validator of the service accepts the state if and only if the delayed works are in
    order of deadline and the bound worker is alive. *)
Theorem workqueue_run_consistent run_callback s probe callback service events
    (s' := foldl (run_event run_callback) (workqueue_init s probe callback service OK OK).1 events) :
  (∀ callback context s, Forall well_formed (run_callback callback context s).1) →
  q_initialized (wq_stats s) = false → probe ≠ 0 → callback ≠ 0 → Forall event_ok events →
  ∃ Q, Inv 0 s' Q ∧ qr Q = [] ∧
    workqueue_validate_on s' = if in_order s' (qd Q) && worker_ok s' then OK else ERR_STATE.
Proof.
  intros HC Hi Hp Hc He. unfold s'. destruct (wq_init_inv s probe callback service Hi Hp Hc) as (s0 & E0 & H0 & _). rewrite E0. cbn [fst].
  destruct (events_inv run_callback HC events s0 _ H0 eq_refl He) as (Q & HI & Hr). exists Q. split; [done|]. split; [done|]. by apply validate_exact.
Qed.

Lemma workqueue_run_consistent_witness :
  let s' := demo_after
    [ECall (AInit 32 [65] WORK_PRIORITY_NORMAL 1 0); ECall (ASchedule 32); ECall (ASetFallback true); EDispatch 8 4] in
  ∃ Q, Inv 0 s' Q ∧ qr Q = [] ∧ workqueue_validate_on s' = if in_order s' (qd Q) && worker_ok s' then OK else ERR_STATE.
Proof.
  apply (workqueue_run_consistent demo_callback demo_state 8 9 10); [exact demo_calls_ok|done|done|done|by repeat constructor].
Defined.
