(* ===== verification/WorkqueueLive.v ===== *)
(** * No work starves: src/core/workqueue.c

    A dispatch gives each priority a budget of executions.  Works are taken first in
    first out, so a queued work is taken after at most as many executions as works
    are before it, whatever the callbacks of the other works schedule. *)

From stdpp Require Import gmap.
From S2P Require Import Prelude Registry Workqueue WorkqueueInv WorkqueueCalls WorkqueueReg WorkqueueRun WorkqueueValid.

Section live.
Context (run_callback : Z → Z → wq_t → list action * status).

(** The works [execute_loop] takes, in order. *)
Fixpoint taken (budget : nat) (s : wq_t) (priority : Z) : list Z :=
  match budget with
  | O => []
  | S budget =>
      let work := (workqueue_take_ready (workqueue_promote_due s (timer_get_ticks s)) priority).2 in
      if work =? 0 then []
      else work :: match workqueue_execute_one run_callback s priority with
                   | (s', OK) => taken budget s' priority
                   | _ => []
                   end
  end.
(** The works of a priority a dispatch takes. *)
Definition dispatched (s : wq_t) (high_budget normal_budget priority : Z) : list Z :=
  if priority =? WORK_PRIORITY_HIGH then taken (Z.to_nat high_budget) s priority
  else match execute_loop run_callback (Z.to_nat high_budget) s WORK_PRIORITY_HIGH 0 with
       | (s', _, None) => taken (Z.to_nat normal_budget) s' priority
       | _ => []
       end.
(** The same over [n] dispatches. *)
Fixpoint dispatched_in (n : nat) (s : wq_t) (high_budget normal_budget priority : Z) : list Z :=
  match n with
  | O => []
  | S n => dispatched s high_budget normal_budget priority ++
           dispatched_in n (workqueue_dispatch_on run_callback s high_budget normal_budget).1.1 high_budget normal_budget priority
  end.

Context (calls_ok : ∀ callback context s, Forall well_formed (run_callback callback context s).1).
Context (calls_keep_interrupts : keep_interrupts run_callback).
Context (p : Z) (calls_gentle : gentle run_callback p).

(** The states between executions. *)
Record quiet (s : wq_t) (Q : queues) : Prop := Quiet {
  qu_inv : Inv 0 s Q;
  qu_running : qr Q = [];
  qu_interrupts : interrupts_enabled (kernel s) = true
}.

Lemma execute_quiet s Q priority :
  quiet s Q → priority = 0 ∨ priority = 1 →
  let Q1 := promoted s (timer_get_ticks s) Q in
  ∃ s', match queue priority Q1 with
  | [] => workqueue_execute_one run_callback s priority = (s', ERR_NOT_FOUND) ∧ quiet s' Q1
  | h :: d => (workqueue_take_ready (workqueue_promote_due s (timer_get_ticks s)) priority).2 = h ∧ h ≠ 0 ∧
      workqueue_execute_one run_callback s priority = (s', OK) ∧ ∃ Q', quiet s' Q' ∧ advance p (set_queue priority d Q1) Q'
  end.
Proof.
  intros [HI Hr Hint] Hpr. cbn zeta. destruct (execute_one_spec run_callback calls_ok s Q priority HI Hr Hpr) as (s' & result & E & H). exists s'.
  destruct (promote_spec s Q (timer_get_ticks s) HI) as [H1 _]. pose proof (take_ready_spec _ _ priority H1 Hpr) as HT.
  destruct (queue priority _) as [|h d].
  - destruct H as [-> [X1 X2 _ X4] ]. split; [done|]. split; [done|done|by apply X4].
  - destruct HT as (Hh & s1 & -> & _). destruct H as (Hres & Q' & [X1 X2 X3 X4]). split; [done|]. split; [done|].
    destruct Hres as [-> |[_ Hno]]; [|by rewrite Hint in Hno]. split; [done|]. exists Q'. split; [|by apply X3]. split; [done|done|by apply X4].
Qed.

Lemma rank_zero h d k : rank p (h :: d) k → h = p ∨ ∃ k', k = S k' ∧ rank p d k'.
Proof.
  intros (l1 & l2 & E & H). destruct l1 as [|x l1]; injection E as -> ->; [by left|]. right. cbn in H. destruct k as [|k]; [lia|].
  exists k. split; [done|]. exists l1, l2. split; [done|lia].
Qed.

(** A loop over the queue of [p]. *)
Lemma loop_own budget s Q priority k e :
  quiet s Q → priority = 0 ∨ priority = 1 → rank p (queue priority Q) k →
  p ∈ taken budget s priority ∨
  (budget ≤ k)%nat ∧ ∃ s' e' Q', execute_loop run_callback budget s priority e = (s', e', None) ∧ quiet s' Q' ∧ rank p (queue priority Q') (k - budget).
Proof.
  revert s Q k e. induction budget as [|budget IH]; intros s Q k e Hq Hpr Hk.
  { right. split; [lia|]. exists s, e, Q. rewrite Nat.sub_0_r. done. }
  destruct (execute_quiet s Q priority Hq Hpr) as [s' H]. cbn zeta in H.
  assert (rank p (queue priority (promoted s (timer_get_ticks s) Q)) k) as Hk1 by (eapply rank_queue; [apply advance_promoted|done]).
  destruct (queue priority _) as [|h d] eqn:Eq in H, Hk1; [by apply rank_elem, elem_of_nil in Hk1|].
  destruct H as (Ht & Hh & Ee & Q' & Hq' & Ha). cbn [taken execute_loop]. rewrite Ht, (proj2 (Z.eqb_neq _ _) Hh), Ee.
  destruct (rank_zero _ _ _ Hk1) as [-> |(k' & -> & Hk')]; [left; in_list|].
  assert (rank p (queue priority Q') k') as Hk2 by (eapply rank_queue; [exact Ha|by rewrite queue_set_queue]).
  destruct (IH s' Q' k' (e +w 1) Hq' Hpr Hk2) as [|(Hle & H)]; [left; apply elem_of_cons; by right|]. right. split; [lia|]. done.
Qed.

(** A loop over the other queue. *)
Lemma loop_other budget s Q priority other k e :
  quiet s Q → priority = 0 ∧ other = 1 ∨ priority = 1 ∧ other = 0 → rank p (queue other Q) k →
  ∃ s' e' Q', execute_loop run_callback budget s priority e = (s', e', None) ∧ quiet s' Q' ∧ rank p (queue other Q') k.
Proof.
  revert s Q e. induction budget as [|budget IH]; intros s Q e Hq Hpr Hk; [by exists s, e, Q|].
  destruct (execute_quiet s Q priority Hq) as [s' H]; [tauto|]. cbn zeta in H. cbn [execute_loop].
  set (Q1 := promoted s (timer_get_ticks s) Q) in *.
  assert (rank p (queue other Q1) k) as Hk1 by (eapply rank_queue; [apply advance_promoted|done]).
  destruct (queue priority Q1) as [|h d] eqn:Eq.
  - destruct H as (-> & Hq'). by exists s', e, Q1.
  - destruct H as (_ & _ & -> & Q' & Hq' & Ha). apply (IH s' Q'); [done|done|]. eapply rank_queue; [exact Ha|].
    by destruct Hpr as [ [-> ->] | [-> ->] ].
Qed.

Definition budget_of (high_budget normal_budget priority : Z) : nat :=
  Z.to_nat (if priority =? WORK_PRIORITY_HIGH then high_budget else normal_budget).

Lemma dispatch_own s Q high_budget normal_budget priority k (budget := budget_of high_budget normal_budget priority) :
  quiet s Q → priority = 0 ∨ priority = 1 → rank p (queue priority Q) k →
  p ∈ dispatched s high_budget normal_budget priority ∨
  (budget ≤ k)%nat ∧ ∃ Q', quiet (workqueue_dispatch_on run_callback s high_budget normal_budget).1.1 Q' ∧ rank p (queue priority Q') (k - budget).
Proof.
  intros Hq Hpr Hk. pose proof (qu_inv _ _ Hq) as [Rg _]. destruct (rg_init _ Rg) as [Hi _].
  unfold dispatched, workqueue_dispatch_on, budget, budget_of, WORK_PRIORITY_HIGH, WORK_PRIORITY_NORMAL. rewrite Hi. cbn [negb].
  destruct Hpr as [-> | ->]; cbn [Z.eqb].
  - destruct (loop_own (Z.to_nat high_budget) s Q 0 k 0 Hq) as [H|(Hle & s1 & e1 & Q1 & -> & Hq1 & Hk1)]; [by left|done|by left|]. right. split; [done|].
    destruct (loop_other (Z.to_nat normal_budget) s1 Q1 1 0 _ e1 Hq1 ltac:(tauto) Hk1) as (s2 & e2 & Q2 & -> & Hq2 & Hk2). by exists Q2.
  - destruct (loop_other (Z.to_nat high_budget) s Q 0 1 k 0 Hq ltac:(tauto) Hk) as (s1 & e1 & Q1 & -> & Hq1 & Hk1).
    destruct (loop_own (Z.to_nat normal_budget) s1 Q1 1 k e1 Hq1) as [H|(Hle & s2 & e2 & Q2 & -> & Hq2 & Hk2)]; [by right|done|by left|]. right. split; [done|]. by exists Q2.
Qed.

Lemma dispatches_own n s Q high_budget normal_budget priority k :
  quiet s Q → priority = 0 ∨ priority = 1 → rank p (queue priority Q) k →
  (k < n * budget_of high_budget normal_budget priority)%nat → p ∈ dispatched_in n s high_budget normal_budget priority.
Proof.
  revert s Q k. induction n as [|n IH]; intros s Q k Hq Hpr Hk Hn; [lia|]. cbn [dispatched_in]. apply elem_of_app.
  destruct (dispatch_own s Q high_budget normal_budget priority k Hq Hpr Hk) as [|(Hle & Q' & Hq' & Hk')]; [by left|right].
  eapply IH; [exact Hq'|done|exact Hk'|]. cbn in Hn. lia.
Qed.
End live.

(** C17: No queued work starves.  Take any state of the service between two executions
    and a work [p] in the queue of a priority with at most [k] works before it.  If the
    callbacks do not cancel [p] or quiesce the service, and interrupts stay enabled,
    then [k / budget + 1] dispatches take [p], where the budget is the one of the
    priority: works of the other priority, and whatever the callbacks schedule, cannot
    delay it further.  With the budgets of the worker, 8 and 4, every normal work of
    the 64 is taken within 16 dispatches. *)
Theorem workqueue_no_starvation run_callback s Q p priority k high_budget normal_budget
    (budget := if priority =? WORK_PRIORITY_HIGH then high_budget else normal_budget) :
  (∀ callback context s, Forall well_formed (run_callback callback context s).1) →
  keep_interrupts run_callback → gentle run_callback p →
  Inv 0 s Q → qr Q = [] → interrupts_enabled (kernel s) = true →
  priority = WORK_PRIORITY_HIGH ∨ priority = WORK_PRIORITY_NORMAL → rank p (queue priority Q) (Z.to_nat k) → 0 ≤ k → 0 < budget →
  p ∈ dispatched_in run_callback (Z.to_nat (k / budget + 1)) s high_budget normal_budget priority ∧
  (priority = WORK_PRIORITY_NORMAL → p ∈ dispatched_in run_callback 16 s WORKQUEUE_HIGH_BUDGET WORKQUEUE_NORMAL_BUDGET priority).
Proof.
  intros HC HK HG HI Hr Hint Hpr Hk Hk0 Hb. pose proof (Quiet s Q HI Hr Hint) as Hq. split.
  - apply (dispatches_own run_callback HC HK p HG _ s Q _ _ _ (Z.to_nat k) Hq Hpr Hk). unfold budget_of. fold budget.
    assert (0 ≤ k / budget) by (apply Z.div_pos; lia). pose proof (Z.mul_succ_div_gt k budget Hb). rewrite <-Z2Nat.inj_mul by lia. lia.
  - intros ->. destruct Hk as (l1 & l2 & E & _). apply (dispatches_own run_callback HC HK p HG 16 s Q _ _ _ (length l1) Hq Hpr); [by exists l1, l2|].
    pose proof (linked_bound _ _ _ HI). assert (length l1 < 64)%nat; [|done].
    pose proof (len_nonneg (qh Q)). pose proof (len_nonneg (qd Q)). pose proof (len_nonneg (qr Q)).
    change (queue WORK_PRIORITY_NORMAL Q) with (qn Q) in E. rewrite E in *. rewrite len_app, len_cons in *. unfold len in *. lia.
Qed.


(** A normal work is requested; the callback of another cancels and requests itself. *)
Definition demo_requests : list event :=
  [ECall (AInit 48 [65] WORK_PRIORITY_NORMAL 2 0); ECall (AInit 16 [66] WORK_PRIORITY_NORMAL 3 0); ECall (ASchedule 48); ECall (ASchedule 16)].
Lemma demo_requests_state :
  let s := demo_after demo_requests in
  live (wq_registry s) = [8; 48; 16] ∧ w_state (work_at s 16) = WORK_STATE_READY ∧ w_priority (work_at s 16) = WORK_PRIORITY_NORMAL ∧
  interrupts_enabled (kernel s) = true.
Proof. vm_compute. repeat split. Qed.
Lemma workqueue_no_starvation_witness :
  16 ∈ dispatched_in demo_callback 16 (demo_after demo_requests) WORKQUEUE_HIGH_BUDGET WORKQUEUE_NORMAL_BUDGET WORK_PRIORITY_NORMAL.
Proof.
  destruct (wq_demo_inv demo_requests) as (Q & HI & Hr); [unfold demo_requests; by repeat constructor|].
  pose proof demo_requests_state as (EL & Es & Ep & Hint). generalize dependent (demo_after demo_requests). intros s HI EL Es Ep Hint.
  assert (16 ∈ qn Q) as Hin.
  { assert (16 ∈ live (wq_registry s)) as Hl by (rewrite EL; in_list). pose proof (inv_state _ _ _ HI Hl) as B. unfold belongs in B.
    rewrite Es, Ep in B. destruct B as [[B _]|[_ B]]; [discriminate B|exact B]. }
  destruct (rank_of_elem _ _ Hin) as [k Hk].
  apply (workqueue_no_starvation demo_callback s Q 16 WORK_PRIORITY_NORMAL (Z.of_nat k) 8 4);
    [exact demo_calls_ok| | |exact HI|exact Hr|exact Hint|by right|rewrite Nat2Z.id; exact Hk|lia|reflexivity|reflexivity].
  - intros callback context s'. unfold demo_callback. repeat case_match; by repeat constructor.
  - intros callback context s'. unfold demo_callback. repeat case_match; by repeat constructor.
Defined.
