(* ===== verification/WorkqueueTime.v ===== *)
(** * Delays of the work queue: src/core/workqueue.c

    Deadlines are points of a 32-bit clock that wraps around.  Delays are below half
    its range, so that a list sorted by the time left stays sorted, promotion takes
    exactly the works that are due, and the validator accepts the list.  The exception
    is the delayed rerun of a work that runs while another becomes due. *)

From stdpp Require Import gmap sorting.
From S2P Require Import Prelude Registry Workqueue WorkqueueInv WorkqueueCalls WorkqueueReg WorkqueueRun WorkqueueValid.

(** ** The clock *)

(** The ticks from [t] to the deadline of a work. *)
Definition offset (s : wq_t) (t p : Z) : Z := w_deadline_tick (work_at s p) -w t.
(** The list is sorted by time left, seen from [t]. *)
Definition sorted_from (s : wq_t) (t : Z) (l : list Z) : Prop :=
  StronglySorted (λ p q, offset s t p ≤ offset s t q) l ∧ Forall (λ p, offset s t p < 2 ^ 31) l.

(** Seen from a point at most half the range back, the signed difference is exact. *)
Lemma i32_offsets a b t : a -w t < 2 ^ 31 → b -w t < 2 ^ 31 → i32 (a - b) = (a -w t) - (b -w t).
Proof. unfold i32, u32. intros Ha Hb. divlia. Qed.
Lemma offset_later d t now : now -w t < d -w t → d -w now = (d -w t) - (now -w t).
Proof. unfold u32. intros H. divlia. Qed.

Lemma reached_offset now d t : now -w t < 2 ^ 31 → d -w t < 2 ^ 31 → workqueue_deadline_reached now d = (d -w t <=? now -w t).
Proof. intros H1 H2. unfold workqueue_deadline_reached. rewrite (i32_offsets now d t H1 H2). lia. Qed.

Lemma sorted_in_order s t l : sorted_from s t l → in_order s l = true.
Proof.
  intros [Hs Hb]. induction l as [|p l IH]; [done|]. destruct l as [|q l]; [done|].
  apply StronglySorted_inv in Hs as [Hs Hp]. apply Forall_cons in Hb as [Hbp Hb]. apply Forall_cons in Hp as [Hp _]. pose proof Hb as [Hbq _]%Forall_cons.
  change (negb (i32 (w_deadline_tick (work_at s q) - w_deadline_tick (work_at s p)) <? 0) && in_order s (q :: l) = true).
  rewrite IH by done. unfold offset in *. rewrite (i32_offsets _ _ t Hbq Hbp). lia.
Qed.

(** ** Promotion at a later time *)

Lemma sorted_weaken (R R' : Z → Z → Prop) l :
  (∀ p q, p ∈ l → q ∈ l → R p q → R' p q) → StronglySorted R l → StronglySorted R' l.
Proof.
  intros H Hs. induction Hs as [|p l Hs IH Hp]; constructor; [apply IH; intros; apply H; [by constructor..|done]|].
  rewrite Forall_forall in Hp |- *. intros q Hq. apply H; [by constructor..|by apply Hp].
Qed.
Lemma sorted_ext s s' t l : (∀ q, q ∈ l → w_deadline_tick (work_at s' q) = w_deadline_tick (work_at s q)) → sorted_from s t l → sorted_from s' t l.
Proof.
  intros H [Hs Hb]. assert (∀ q, q ∈ l → offset s' t q = offset s t q) as E by (intros q Hq; unfold offset; by rewrite H). clear H. split.
  - eapply sorted_weaken; [|exact Hs]. intros p q Hp Hq. by rewrite (E p), (E q).
  - rewrite Forall_forall in Hb |- *. intros q Hq. rewrite E by done. by apply Hb.
Qed.

(** The works that are due are a prefix, and the rest is sorted from now on. *)
Lemma due_split s t now l :
  sorted_from s t l → now -w t < 2 ^ 31 → let due := due_now (work_at s) now l in
  Forall (λ p, workqueue_deadline_reached now (w_deadline_tick (work_at s p)) = true) due ∧
  Forall (λ p, workqueue_deadline_reached now (w_deadline_tick (work_at s p)) = false ∧ 0 < offset s now p) (drop (length due) l) ∧
  l = due ++ drop (length due) l ∧ sorted_from s now (drop (length due) l).
Proof.
  intros Hl Hnow. cbn zeta. induction l as [|p l IH]; [split_and!; try done; split; constructor|]. cbn [due_now]. destruct Hl as [Hs Hb].
  pose proof Hs as [Hs' Hp]%StronglySorted_inv. pose proof Hb as [Hbp Hb']%Forall_cons. unfold offset in Hbp.
  rewrite (reached_offset now _ t Hnow Hbp). destruct (Z.leb_spec (w_deadline_tick (work_at s p) -w t) (now -w t)) as [Hd|Hd].
  - destruct IH as (I1 & I2 & I3 & I4); [done|]. cbn [length drop app]. split_and!; [constructor; [|done]|done|by f_equal|done].
    rewrite (reached_offset now _ t Hnow Hbp). lia.
  - cbn [length drop app]. assert (∀ q, q ∈ p :: l → now -w t < offset s t q ∧ offset s t q < 2 ^ 31) as HO.
    { intros q Hq. rewrite Forall_forall in Hb, Hp. split; [|by apply Hb]. apply elem_of_cons in Hq as [-> |Hq]; [done|]. specialize (Hp q Hq). unfold offset in *. lia. }
    assert (∀ q, q ∈ p :: l → offset s now q = offset s t q - (now -w t)) as HE by (intros q Hq; apply offset_later, HO, Hq).
    pose proof (u32_range (now - t)). split_and!; [done| |done|split].
    + apply Forall_forall. intros q Hq. destruct (HO q Hq). rewrite HE by done. split; [|lia]. unfold offset in *. rewrite (reached_offset now _ t) by done. lia.
    + eapply sorted_weaken; [|exact Hs]. intros a b Ha Hb'' Hab. cbv beta in Hab |- *. rewrite (HE a), (HE b) by done. lia.
    + apply Forall_forall. intros q Hq. destruct (HO q Hq). rewrite HE by done. lia.
Qed.

(** ** Insertion *)

Lemma insert_due_elem s now remaining p l q : q ∈ insert_due s now remaining p l ↔ q = p ∨ q ∈ l.
Proof. destruct (insert_due_split s now remaining p l) as (l1 & l2 & -> & -> & _). rewrite !elem_of_app, elem_of_cons. tauto. Qed.

Lemma insert_due_sorted s s' now p l :
  sorted_from s now l → offset s now p < 2 ^ 31 → p ∉ l →
  (∀ q, q ∈ p :: l → w_deadline_tick (work_at s' q) = w_deadline_tick (work_at s q)) →
  sorted_from s' now (insert_due s now (offset s now p) p l).
Proof.
  intros [Hs Hb] Hp Hpl HE. apply (sorted_ext s); [intros q Hq%insert_due_elem; apply HE, elem_of_cons, Hq|]. clear HE Hpl. split.
  - clear Hb. induction Hs as [|q l Hs IH Hq]; cbn [insert_due]; [by repeat constructor|]. fold (offset s now q).
    rewrite Forall_forall in Hq. destruct (Z.gtb_spec (offset s now q) (offset s now p)).
    + constructor; [constructor; [done|by apply Forall_forall]|]. apply Forall_cons. split; [lia|]. apply Forall_forall. intros r Hr. specialize (Hq r Hr). lia.
    + constructor; [done|]. apply Forall_forall. intros r [-> |Hr]%insert_due_elem; [lia|by apply Hq].
  - apply Forall_forall. intros q [-> |Hq]%insert_due_elem; [done|]. rewrite Forall_forall in Hb. by apply Hb.
Qed.

Lemma forall_without (P : Z → Prop) p l : Forall P l → Forall P (without p l).
Proof. rewrite !Forall_forall. intros H q [_ Hq]%elem_of_without. by apply H. Qed.
Lemma sorted_without s t p l : sorted_from s t l → sorted_from s t (without p l).
Proof.
  intros [Hs Hb]. split; [|by apply forall_without].
  induction Hs as [|q l Hs IH Hq]; [constructor|]. apply Forall_cons in Hb as [_ Hb]. unfold without. destruct (decide (q ≠ p)).
  - rewrite filter_cons_True by done. constructor; [by apply IH|]. by apply forall_without.
  - rewrite filter_cons_False by done. by apply IH.
Qed.

(** ** Deadlines that stay *)

Definition same_deadlines (s s' : wq_t) : Prop := ∀ q, w_deadline_tick (work_at s' q) = w_deadline_tick (work_at s q).
#[export] Instance same_deadlines_preorder : PreOrder same_deadlines.
Proof. split; [done|]. intros s1 s2 s3 H1 H2 q. by rewrite H2, H1. Qed.

Lemma deadlines_put s p f : (∀ w, w_deadline_tick (f w) = w_deadline_tick w) → same_deadlines s (put s p f).
Proof. intros H q. rewrite work_at_put. case_decide; [by subst|done]. Qed.
Lemma deadlines_works s s' : works s' = works s → same_deadlines s s'.
Proof. intros E q. unfold work_at. by rewrite E. Qed.
Lemma deadlines_set_first s w p : same_deadlines s (set_first s w p).
Proof. unfold set_first. by case_match. Qed.
Lemma deadlines_set_last s w p : same_deadlines s (set_last s w p).
Proof. unfold set_last. by case_match. Qed.
Lemma deadlines_count_removed s w : same_deadlines s (count_removed s w).
Proof. unfold count_removed. by repeat case_match. Qed.
Lemma deadlines_peak s : same_deadlines s (workqueue_update_peak s).
Proof. unfold workqueue_update_peak. by case_match. Qed.
Lemma deadlines_notify s : same_deadlines s (workqueue_notify s).
Proof. unfold workqueue_notify. by repeat case_match. Qed.

Ltac deadline_step :=
  lazymatch goal with
  | |- same_deadlines ?s ?s => reflexivity
  | |- same_deadlines _ (workqueue_update_peak ?s) => transitivity s; [|apply deadlines_peak]
  | |- same_deadlines _ (workqueue_notify ?s) => transitivity s; [|apply deadlines_notify]
  | |- same_deadlines _ (stat ?s _) => transitivity s; [|by apply deadlines_works]
  | |- same_deadlines _ (put ?s _ _) => transitivity s; [|by apply deadlines_put]
  | |- same_deadlines _ (set_first ?s _ _) => transitivity s; [|apply deadlines_set_first]
  | |- same_deadlines _ (set_last ?s _ _) => transitivity s; [|apply deadlines_set_last]
  | |- same_deadlines _ (count_removed ?s _) => transitivity s; [|apply deadlines_count_removed]
  | |- same_deadlines _ (set _ _ ?s) => transitivity s; [|by apply deadlines_works]
  | |- same_deadlines _ (if ?b then _ else _) => destruct b
  end.
Ltac deadlines := repeat deadline_step.

Lemma deadlines_remove s p : same_deadlines s (workqueue_list_remove s p).
Proof. unfold workqueue_list_remove. deadlines. Qed.
Lemma deadlines_append s p : same_deadlines s (workqueue_ready_append s p).
Proof. unfold workqueue_ready_append. deadlines. Qed.
Lemma deadlines_insert s p now : same_deadlines s (workqueue_delayed_insert s p now).
Proof. unfold workqueue_delayed_insert. deadlines. Qed.

(** ** Scheduling on a sorted list *)

(** Sorted, and no work of the list is due. *)
Definition pending (s : wq_t) (now : Z) (l : list Z) : Prop := sorted_from s now l ∧ Forall (λ q, 0 < offset s now q) l.

Lemma pending_same s s' now l : same_deadlines s s' → pending s now l → pending s' now l.
Proof.
  intros HE [H1 H2]. split; [eapply sorted_ext; [|exact H1]; intros; apply HE|]. eapply Forall_impl; [exact H2|].
  intros q. unfold offset. cbv beta. by rewrite HE.
Qed.
Lemma pending_insert s s' now p l :
  pending s now l → p ∉ l → 0 < offset s now p < 2 ^ 31 → same_deadlines s s' → pending s' now (insert_due s now (offset s now p) p l).
Proof.
  intros [H1 H2] Hp Ho HE. split; [apply insert_due_sorted; [done|lia|done|intros; apply HE]|].
  apply Forall_forall. intros q Hq%insert_due_elem. unfold offset. rewrite HE. destruct Hq as [-> |Hq]; [apply Ho|]. rewrite Forall_forall in H2. by apply H2.
Qed.

Lemma delay_offset now delay : 0 ≤ delay < 2 ^ 31 → (now +w delay) -w now = delay.
Proof. unfold u32. intros H. divlia. Qed.

(** A detached work gets a deadline and its place. *)
Lemma delay_spec s Q p now delay :
  p ≠ 0 → Inv p s Q → pending s now (qd Q) → 0 < delay ≤ WORKQUEUE_MAX_DELAY_TICKS →
  let s' := workqueue_delayed_insert (put s p (set w_deadline_tick (λ _, now +w delay))) p now in
  ∃ Q', Inv 0 s' Q' ∧ pending s' now (qd Q') ∧ qh Q' = qh Q ∧ qn Q' = qn Q ∧ p ∈ qd Q' ∧ w_deadline_tick (work_at s' p) = now +w delay.
Proof.
  intros Hp0 HI HP Hd. cbn zeta. set (s1 := put s p _). unfold WORKQUEUE_MAX_DELAY_TICKS in Hd.
  assert (Inv p s1 Q) as H1 by (by apply put_detached). assert (p ∉ qd Q) as Hn by (destruct HI as [_ Ls]; destruct (ls_detached _ _ _ Ls Hp0) as [_ H]; rewrite linked_elem in H; tauto).
  assert (w_deadline_tick (work_at s1 p) = now +w delay) as E1 by (unfold s1; by rewrite work_at_put, decide_True).
  assert (pending s1 now (qd Q)) as HP1.
  { assert (∀ q, q ∈ qd Q → w_deadline_tick (work_at s1 q) = w_deadline_tick (work_at s q)) as HE by
      (intros q Hq; unfold s1; rewrite work_at_put, decide_False; [done|]; intros E; by rewrite E in Hq).
    destruct HP as [P1 P2]. split; [by eapply sorted_ext|]. rewrite Forall_forall in P2 |- *. intros q Hq. unfold offset. rewrite HE by done. by apply P2. }
  assert (offset s1 now p = delay) as EO by (unfold offset; rewrite E1; apply delay_offset; lia).
  eexists. split; [by apply wq_insert_spec|]. cbn [qh qn qd]. split_and!; [|done|done|apply insert_due_elem; by left|].
  - apply pending_insert; [done|done|rewrite EO; lia|apply deadlines_insert].
  - by rewrite (deadlines_insert s1 p now p).
Qed.

Lemma push_ready k p q Q : q ∈ qh Q ++ qn Q → q ∈ qh (push k p Q) ++ qn (push k p Q).
Proof. unfold push. destruct (_ =? _); cbn [qh qn]; rewrite !elem_of_app; tauto. Qed.
Lemma push_ready_self k p Q : p ∈ qh (push k p Q) ++ qn (push k p Q).
Proof. unfold push. destruct (_ =? _); cbn [qh qn]; in_list. Qed.
Lemma push_delayed k p Q : qd (push k p Q) = qd Q.
Proof. unfold push. by destruct (_ =? _). Qed.

(** The work with its request counted. *)
Definition requested (s : wq_t) (p : Z) : wq_t :=
  stat (put s p (λ w, w <| w_cancel_requested := false |> <| w_scheduled ::= inc |>)) (set q_scheduled inc).
Lemma switch_idle s p now delay :
  w_state (work_at s p) = WORK_STATE_IDLE →
  schedule_switch s p now delay =
    stat (if delay =? 0 then workqueue_ready_append (requested s p) p
          else workqueue_delayed_insert (put (requested s p) p (set w_deadline_tick (λ _, now +w delay))) p now) (set q_last_error (λ _, OK)).
Proof. intros Es. unfold schedule_switch. rewrite Es. reflexivity. Qed.

Lemma idle_pending s Q p now delay (s' := schedule_switch s p now delay) :
  p ≠ 0 → Inv p s Q → w_state (work_at s p) = WORK_STATE_IDLE → 0 ≤ delay ≤ WORKQUEUE_MAX_DELAY_TICKS → pending s now (qd Q) →
  ∃ Q', Inv 0 s' Q' ∧ pending s' now (qd Q') ∧ (∀ q, q ∈ qh Q ++ qn Q → q ∈ qh Q' ++ qn Q') ∧
    if delay =? 0 then p ∈ qh Q' ++ qn Q' else p ∈ qd Q' ∧ w_deadline_tick (work_at s' p) = now +w delay.
Proof.
  intros Hp0 H0 Es Hd HP. unfold s'. rewrite switch_idle by exact Es. clear s'.
  assert (Inv p (requested s p) Q) as H1 by (apply stat_soft; [by apply put_detached|done..]).
  assert (same_deadlines s (requested s p)) as D1 by (unfold requested; deadlines). generalize dependent (requested s p). intros s1 H1 D1.
  pose proof (pending_same _ _ _ _ D1 HP) as HP1. destruct (Z.eqb_spec delay 0) as [|Hne].
  - eexists. split; [apply stat_soft; [by apply wq_append_spec|done..]|]. rewrite push_delayed. split_and!; [|intros q; apply push_ready|apply push_ready_self].
    eapply pending_same; [|exact HP1]. deadlines. apply deadlines_append.
  - destruct (delay_spec s1 Q p now delay Hp0 H1 HP1 ltac:(lia)) as (Q' & I & P & E1 & E2 & Hin & E). set (s2 := workqueue_delayed_insert _ p now) in *. clearbody s2.
    exists Q'. rewrite E1, E2, work_at_stat. split; [by apply stat_soft|]. split; [eapply pending_same; [|exact P]; deadlines|]. split; [exact (λ q H, H)|]. split; [exact Hin|exact E].
Qed.

Lemma again_pending s Q p now delay (s' := schedule_delayed_again s p now (now +w delay) delay) :
  p ≠ 0 → Inv 0 s Q → p ∈ qd Q → 0 ≤ delay ≤ WORKQUEUE_MAX_DELAY_TICKS → pending s now (qd Q) →
  ∃ Q', Inv 0 s' Q' ∧ pending s' now (qd Q') ∧ (∀ q, q ∈ qh Q ++ qn Q → q ∈ qh Q' ++ qn Q').
Proof.
  intros Hp0 HI Hin Hd HP. unfold s', schedule_delayed_again. clear s'.
  assert (p ∈ qh Q ++ qn Q ++ qd Q) as Hin' by in_list. pose proof (remove_spec _ _ p HI Hin') as HR.
  assert (pending (workqueue_list_remove s p) now (qd (detach p Q))) as PR.
  { cbn [qd detach]. eapply pending_same; [apply deadlines_remove|]. destruct HP. split; [by apply sorted_without|by apply forall_without]. }
  assert (qh (detach p Q) = qh Q ∧ qn (detach p Q) = qn Q) as [E1 E2].
  { pose proof HI as [_ Ls]. destruct (linked_disjoint Q (ls_nodup _ _ _ Ls)) as (_ & _ & _ & _ & D1 & D2 & _). cbn [qh qn detach].
    split; apply without_notin; intros H; [by destruct (D1 p H) as (_ & ? & _)|by destruct (D2 p H)]. }
  destruct (Z.eqb_spec delay 0) as [|Hne]; [|destruct (i32 _ <? 0)].
  - eexists. split; [by apply wq_append_spec|]. rewrite push_delayed. split; [eapply pending_same; [|exact PR]; apply deadlines_append|].
    intros q Hq. apply push_ready. by rewrite E1, E2.
  - destruct (delay_spec _ _ p now delay Hp0 HR PR ltac:(lia)) as (Q' & I & P & F1 & F2 & _ & _). exists Q'. rewrite F1, F2, E1, E2. split_and!; [exact I|exact P|tauto].
  - exists Q. split_and!; [exact HI|exact HP|tauto].
Qed.

Lemma switch_pending s Q p now delay (s' := schedule_switch s p now delay) :
  p ≠ 0 → Inv 0 s Q → p ∈ live (wq_registry s) → 0 ≤ delay ≤ WORKQUEUE_MAX_DELAY_TICKS → pending s now (qd Q) →
  ∃ Q', Inv 0 s' Q' ∧ pending s' now (qd Q') ∧ (∀ q, q ∈ qh Q ++ qn Q → q ∈ qh Q' ++ qn Q') ∧
    (w_state (work_at s p) = WORK_STATE_IDLE → if delay =? 0 then p ∈ qh Q' ++ qn Q' else p ∈ qd Q' ∧ w_deadline_tick (work_at s' p) = now +w delay).
Proof.
  intros Hp0 HI Hreg Hd HP. pose proof (coalesced_soft _ _ _ p HI) as HC.
  assert (same_deadlines s (count_coalesced s p)) as DC by (unfold count_coalesced; deadlines). pose proof (pending_same _ _ _ _ DC HP) as PC.
  destruct (w_state (work_at s p)) eqn:Es.
  - pose proof (idle_unlinked _ _ _ HI Hreg Es) as H0. destruct (idle_pending s Q p now delay Hp0 H0 Es Hd HP) as (Q' & I & P & H1 & H2).
    exists Q'. split_and!; [exact I|exact P|exact H1|intros _; exact H2].
  - unfold s', schedule_switch. rewrite Es. exists Q. split_and!; [exact HC|exact PC|tauto|discriminate].
  - assert (p ∈ qd Q) as Hin by (pose proof (inv_state _ _ _ HI Hreg) as B; unfold belongs in B; by rewrite Es in B).
    destruct (again_pending _ Q p now delay Hp0 HC Hin Hd PC) as (Q' & I & P & H1). unfold s', schedule_switch. rewrite Es.
    exists Q'. split_and!; [exact I|exact P|exact H1|discriminate].
  - unfold s', schedule_switch. rewrite Es. exists Q.
    split_and!; [apply put_soft; [done|intros w; unfold schedule_running_again; by repeat case_match]| |tauto|discriminate].
    eapply pending_same; [|exact PC]. apply deadlines_put. intros w. unfold schedule_running_again. by repeat case_match.
Qed.

(** Promotion at [now] leaves what is not due. *)
Lemma promote_pending s Q t now :
  Inv 0 s Q → sorted_from s t (qd Q) → now -w t < 2 ^ 31 → let s1 := workqueue_promote_due s now in let Q1 := promoted s now Q in
  Inv 0 s1 Q1 ∧ pending s1 now (qd Q1) ∧ same_deadlines s s1 ∧
  (∀ q, q ∈ qd Q → if workqueue_deadline_reached now (w_deadline_tick (work_at s q)) then q ∈ qh Q1 ++ qn Q1 else q ∈ qd Q1).
Proof.
  intros HI Hs Hnow. cbn zeta. destruct (promote_spec s Q now HI) as [H1 HD]. destruct (due_split s t now (qd Q) Hs Hnow) as (D1 & D2 & D3 & D4).
  split; [exact H1|]. unfold promoted. rewrite promote_all_lists. cbn [qh qn qd]. set (due := due_now _ _ _) in *. set (rest := drop _ _) in *. split_and!.
  - eapply pending_same; [exact HD|]. split; [done|]. eapply Forall_impl; [exact D2|]. intros q [_ H]. exact H.
  - exact HD.
  - intros q Hq. rewrite D3, elem_of_app in Hq. rewrite Forall_forall in D1, D2. destruct Hq as [Hq|Hq].
    + rewrite (D1 q Hq). unfold of_priority. rewrite !elem_of_app, !list_elem_of_filter. destruct (_ =? WORK_PRIORITY_HIGH); tauto.
    + by rewrite (proj1 (D2 q Hq)).
Qed.

Lemma idle_iff s Q p : Inv 0 s Q → p ∈ live (wq_registry s) → w_state (work_at s p) = WORK_STATE_IDLE ↔ p ∉ linked Q.
Proof.
  intros HI Hp. pose proof (inv_state _ _ _ HI Hp) as B. unfold belongs in B. destruct (w_state (work_at s p)); split; try done; rewrite linked_elem; intros H; exfalso; tauto.
Qed.
Lemma promoted_linked s Q now p : p ∈ linked (promoted s now Q) → p ∈ linked Q.
Proof.
  unfold promoted. rewrite promote_all_lists. assert (∀ q d, q ∈ due_now (work_at s) now d → q ∈ d) as HD.
  { intros q d. induction d as [|r d IH]; cbn [due_now]; [done|]. case_match; [|by intros ?%elem_of_nil]. rewrite !elem_of_cons. tauto. }
  rewrite !linked_elem. cbn [qh qn qd qr]. unfold of_priority. rewrite !elem_of_app, !list_elem_of_filter. intros [[H|[_ H]]|[[H|[_ H]]|[H|H]]]; eauto.
  right. right. left. apply list_elem_of_lookup in H as [i Hi]. rewrite lookup_drop in Hi. by apply list_elem_of_lookup_2 in Hi.
Qed.

Lemma schedule_ok s p delay (now := timer_get_ticks s) :
  (schedule_delayed_work s p delay).2 = OK →
  p ≠ 0 ∧ not_registered s p = false ∧ delay ≤ WORKQUEUE_MAX_DELAY_TICKS ∧
  (schedule_delayed_work s p delay).1 = workqueue_notify (schedule_switch (workqueue_promote_due s now) p now delay).
Proof.
  unfold schedule_delayed_work, workqueue_schedule_on. destruct (Z.eqb_spec p 0) as [|Hp0]; [done|].
  destruct (_ || not_registered s p) eqn:Hreg; [done|]. destruct (sv_main s && _); [done|]. destruct (Z.gtb_spec delay WORKQUEUE_MAX_DELAY_TICKS); [done|].
  intros _. apply orb_false_iff in Hreg as [_ Hreg]. split_and!; [done|done|lia|reflexivity].
Qed.

Lemma pending_not_due s now l :
  pending s now l → Forall (λ q, workqueue_deadline_reached now (w_deadline_tick (work_at s q)) = false) l.
Proof.
  intros [[_ P2] P3]. rewrite Forall_forall in P2, P3 |- *. intros q Hq. specialize (P2 q Hq). specialize (P3 q Hq). unfold offset in P2, P3.
  rewrite (reached_offset now _ now); [|by rewrite Z.sub_diag|exact P2]. rewrite Z.sub_diag. change (u32 0) with 0. lia.
Qed.


(** A work is requested in 7 ticks, at tick 100. *)
Definition demo_register : list event := [ECall (AInit 16 [65] WORK_PRIORITY_NORMAL 3 0)].

(** ** Two requests that are lost *)

Definition demo_events (work callback : Z) : list event :=
  [ECall (AInit 16 [65] WORK_PRIORITY_NORMAL 3 0); ECall (AInit work [66] WORK_PRIORITY_NORMAL callback 0);
   ECall (AScheduleDelayed 16 10); ECall (ASchedule work); ECall (ASetFallback true); EDispatch 8 4].
Definition demo_run (work callback : Z) : wq_t :=
  demo_after (demo_events work callback).


